(* ===== verification/_CoqProject ===== *)
-Q . S2P
Prelude.v
Regex.v
Text.v
ServiceGroup.v
Ident.v
Target.v
Metadata.v
Install.v
InstallProofs.v
ServiceSpec.v
ServiceSpecProofs.v
SpecWatcher.v
Manager.v
ManagerProofs.v
Member.v
Messages.v
Rumor.v
Heat.v
Kinds.v
Election.v
Server.v
ServerProofs.v
DatFile.v
Gossip.v
Swim.v
Push.v
Census.v
CensusProofs.v
Updater.v
Petgraph.v
PackageGraph.v
PackageGraphProofs.v
FileWatcher.v
FileWatcherProofs.v
FileWatcherEvents.v
Sharding.v
JobTypes.v
JobDb.v
JobStore.v
Scheduler.v
WorkerManager.v
JobHandlers.v
JobLogic.v
JobGroups.v
SchedulerProofs.v
SkipProofs.v
WorkerProofs.v
JobFlaws.v
Cfg.v
Host.v
Templating.v
Hooks.v
ProcSupervisor.v
ServiceRun.v
ServiceLogic.v
ServiceProofs.v
RenderProofs.v
ServiceCalm.v
ServiceExample.v
ByteText.v
CryptoLib.v
KeyFiles.v
Keys.v
CryptoExample.v
KeyNames.v
KeyProofs.v
KeyRoundTrips.v
KeySearch.v
Artifact.v
KeyExample.v
RingCrypto.v
ProtoWire.v
LauncherOs.v
LauncherProto.v
Launcher.v
LauncherLogic.v
LauncherProofs.v
LauncherRuns.v
LauncherHost.v
CommandSearch.v
