(* ===== verification/Prelude.v ===== *)
(** * Habitat: a verification of the Supervisor and its Launcher, the gossip ring, keys, the package graph and the job server

    ** The program

    A Habitat Supervisor ([components/sup]) runs services and joins the other
    Supervisors of its ring through Butterfly ([components/butterfly]), a gossip
    system with five parts that share the state of one [Server]:

    - a SWIM failure detector: the outbound thread probes one member after the
      other (Ping, then PingReq through others), the inbound thread answers, and
      the expiry thread turns members that stay suspect into confirmed and those
      that stay confirmed into departed ones; beliefs about members (an incarnation
      and a [Health]) travel on every message;
    - the rumor stores: services, configurations, files, departures and elections,
      keyed by service group and id, merged by the rule of their kind;
    - the rumor heat, which decides which rumors are still worth sending to whom;
    - push and pull, which exchange the hot rumors with a few members;
    - leader elections, one rumor per service group, gossiped like the others and
      run by the server on each arrival; and a data file that keeps members and
      rumors across restarts.

    The Supervisor reads the stores through its census ([components/sup/src/census.rs]),
    the picture of the service groups that services and their templates see.
    Everything is named by [ServiceGroup]s and [PackageIdent]s of [components/core].

    What the Supervisor runs is decided by the specification files of one directory
    ([sup/src/manager]): a watcher turns the difference between the directory and the
    running services into events, the manager starts and stops services accordingly, and
    a service is made of a specification and an installed package found on disk.  The
    service updater replaces the package of a running service, all members at once or one
    member after the other as the census shows them.  The file watcher tells the rest of
    the Supervisor when one file, possibly behind symbolic links, appears or changes.

    In each tick a service ([sup/src/manager/service]) merges the layers of its
    configuration, renders its templates from the census, and lets its process follow:
    it waits for the services it is bound to and for an election, runs its hooks, asks the
    Launcher to start, restart or end the process, and watches over it by its number, which
    a file keeps for the next Supervisor.

    The Launcher ([components/launcher]) is the parent of the Supervisor and of the services, so
    that services outlive a Supervisor that is replaced.  It answers the requests of the
    Supervisor, which come as protocol buffers over a channel ([components/launcher-protocol],
    [launcher-client]), waits for processes that end, passes signals on, starts a new Supervisor
    when one is lost, and ends all services when it ends itself.

    The builder keeps a graph of the packages it knows ([components/builder-core]) and
    answers from it which packages have to be rebuilt when one of them changes.  The job
    server ([components/builder-jobsrv]) does the rebuilding: a request makes a group of
    projects, the scheduler submits a job for each project whose dependencies are built and
    skips what depends on a failed one, and the worker manager gives jobs to the workers
    that report to it and takes them back when a worker is lost.  The three share a
    database, through a data store whose statements are functions of the database.

    Origins sign the packages they build, rings encrypt their messages and users encrypt what
    they send to a service ([core/src/crypto]).  The keys are files of one directory, named by
    a name and a revision, a half of a pair each; they are sent as text and imported.

    ** Files and sources

    Paths are relative to [src/components].

    - [Prelude]: outcomes of code that can panic, [Result], notations, tactics and the
      lemmas shared by the components ([HintDb] [habitat]).
    - [Regex]: the patterns of the sources and the interface [RegexEngine] of the regex
      crate, with a reference engine.
    - [Text]: the functions of [str] several parsers use.
    - [ServiceGroup] : [core/src/service.rs].   [Ident] : [core/src/package/ident.rs].
    - [Target] : [core/src/package/target.rs], [core/src/os/system/mod.rs].
    - [Metadata] : [core/src/package/metadata.rs].
    - [Install], [InstallProofs] : [core/src/package/install.rs] and the paths of
      [core/src/fs.rs]; the disk is a tree of nodes.
    - [ServiceSpec], [ServiceSpecProofs] : [sup/src/manager/service/spec.rs];
      module [CompositeSpec] of the latter : [composite_spec.rs].
    - [SpecWatcher] : [sup/src/manager/spec_watcher.rs].
    - [Manager], [ManagerProofs] : the creation of services
      ([sup/src/manager/service/mod.rs], [package.rs]) and the passes of the manager over
      the specifications ([sup/src/manager/mod.rs]).
    - [Updater] : [sup/src/manager/service_updater.rs].
    - [FileWatcher], [FileWatcherProofs] (the walk along a path), [FileWatcherEvents] (the
      reactions to events) : [sup/src/manager/file_watcher.rs].
    - [Petgraph] : the interface of the petgraph crate, with a reference instance.
    - [PackageGraph], [PackageGraphProofs] : [builder-core/src/package_graph.rs],
      [rdeps.rs];  module [TargetGraph] of it : [builder-core/src/target_graph.rs].
    - [Member] : [butterfly/src/member.rs] (module [MemberList] has one definition for
      each operation of the struct).
    - [Messages] : [butterfly/protocols/swim.proto] as [message/swim.rs] declares it.
    - [Rumor] : [butterfly/src/rumor/mod.rs]; the [Rumor] trait is a class, and the laws
      the store needs from a kind are the classes [LawfulRumor] and [VersionedRumor].
    - [Heat] : [rumor/heat.rs].
    - [Kinds] : [rumor/service.rs], [service_config.rs], [service_file.rs], [departure.rs].
    - [Election] : [rumor/election.rs].
    - [Server], [ServerProofs] : [butterfly/src/server/mod.rs].
    - [DatFile] : [rumor/dat_file.rs].
    - [Gossip] : [message/mod.rs], [server/timing.rs], [server/expire.rs].
    - [Swim] : [server/outbound.rs], [server/inbound.rs].
    - [Push] : [server/push.rs], [server/pull.rs].
    - [Census], [CensusProofs] : [sup/src/census.rs].
    - [Sharding] : [builder-protocol/src/sharding.rs], [builder-db/src/migration.rs].
    - [JobTypes] : the messages of the job server ([builder-protocol/src/message/jobsrv.rs],
      [originsrv.rs], [jobsrv.rs]);  [JobDb] : the tables and functions of the database
      ([builder-jobsrv/src/migrations]);  [JobStore] : [data_store.rs], over a world with the
      database, the interference of other threads and failing exchanges.
    - [Scheduler] : [server/scheduler.rs];  [WorkerManager] : [server/worker_manager.rs];
      [JobHandlers] : [server/handlers.rs].
    - [JobLogic] : a weakest-precondition logic for them;  [JobGroups], [SchedulerProofs],
      [SkipProofs], [WorkerProofs], [JobFlaws] : the theorems.
    - [Cfg] : [sup/src/manager/service/config.rs].
    - [Host] : the machine of a service (files, processes, the Launcher, programs) and the
      paths of [sup/src/fs.rs];  [Templating] : [sup/src/templating/context.rs];  [Hooks] :
      [hooks.rs], [health.rs] and the renderer of [config.rs];  [ProcSupervisor] :
      [supervisor.rs];  [ServiceRun] : the tick and the other operations of
      [sup/src/manager/service/mod.rs].
    - [ServiceLogic] : rules that follow the code of a service;  [ServiceProofs],
      [RenderProofs], [ServiceCalm] : the theorems;  [ServiceExample] : their witnesses.

    - [ByteText] : what [std] does with text in files.  [CryptoLib] : the interface of libsodium,
      base64 and hex, with their laws ([CryptoLaws]);  [CryptoExample] : an instance.
    - [KeyFiles] : [core/src/crypto/keys/mod.rs], [hash.rs], and the paths, files, readers and
      writers of [std] they use;  [Keys] : [sig_key_pair.rs], [box_key_pair.rs], [sym_key.rs];
      [Artifact] : [artifact.rs].
    - [KeyNames] (the patterns), [KeyProofs] (what is left alone, whatever fails),
      [KeyRoundTrips], [KeySearch] : the theorems, those on packages in [Artifact];  [RingCrypto] : the ring
      and the rumors of [Gossip] and [Kinds] with these keys;  [KeyExample] : the witnesses.
    - [ProtoWire] : the interface of the protobuf crate ([Protobuf]), with an instance in the
      documented wire format;  [LauncherProto] : [launcher-protocol/src/message], [lib.rs] and
      [launcher-client/src/client.rs].
    - [LauncherOs] : processes, groups, signals, waiting and channels, with
      [core/src/os/process] and [core/src/os/signals];  [Launcher] : [launcher/src] (a module for
      each struct, the handlers as instances of [Handler], the server and its loop).
    - [LauncherLogic] : a weakest-precondition logic for it;  [LauncherProofs] (processes, the table,
      the handlers), [LauncherRuns] (the server) : the theorems;
      [LauncherHost] : the refinement of the Launcher of [Host], and the witnesses.
    - [CommandSearch] : the search for a program of [core/src/fs.rs], [core/src/env.rs] and
      [supervisor_cmd] of the Launcher.

    A struct is a record and a method taking [&mut self] is a function returning the new
    record.  A [HashMap] is a [gmap]; where the code iterates over one, the order is an
    argument or the list [map_to_list] of the map, and the theorems do not depend on it.
    A handler of the gossip server or of the member list is one step on the whole state, and a
    run of the server is a sequence of such steps (relation [step] of [ServerProofs]).  The code
    takes the locks of its fields one after the other, so that another thread can act in the
    middle of a handler; what that can do is not modelled for these parts.  In the job server and
    the Launcher others can act between any two exchanges or system calls; the theorems about the
    job server that need an undisturbed action say so.  [SteadyTime::now()] and random choices are arguments.

    ** What the theorems show

    - Membership ([Member], [Gossip], [Swim]): inserting a belief is the join of the
      SWIM order, so peers that hear the same rumors agree in whatever order they hear
      them; a rumor of our own death is refuted; probing, indirect probing and expiry
      change exactly the members they should; and timers survive a recovery, which
      lets the expiry thread confirm a member that is alive.
    - Rumors ([Rumor], [Kinds], [Heat], [Push]): a store holds the newest rumor of each
      slot whatever the order of arrival; a rumor is sent to each member in exactly two
      rounds, coldest first; what a push sends, the pull of the member holds.
    - Elections ([Election], [ServerProofs]): merging decides by (suitability, id)
      whatever the order; only the member elected finishes an election, when it has quorum and
      counts the votes of the whole electorate, and it does so when an election of no later term
      is stored; quorums intersect; restarting replaces exactly the elections
      whose leader was lost; no sequence of well-formed events makes the server panic,
      and one malformed election does.
    - Persistence ([DatFile]): reading back a written file inserts exactly what was
      written; version 1 headers and departed members are the two flaws.
    - Names ([ServiceGroup], [Ident]): parsers and printers are inverse on what they
      accept; the accessors of parsed groups do not panic; [version_sort] is a total
      preorder on the versions it accepts, and where the two orders of identifiers
      agree and fail to be orders.
    - Census ([CensusProofs]): an update never panics on a well-formed server and keeps one
      leader per group; it shows every service heard of with the health of the member list
      and the leader of the finished election; [previous_peer] is the left neighbour in the
      circle of alive members; the changed files are the newer ones.
    - Specifications ([ServiceSpecProofs]): a saved specification reads
      back unchanged; saving is atomic, whatever fails on the way; the validation of binds
      accepts exactly the specifications that bind what the package requires and no more.
    - Services ([SpecWatcher], [ManagerProofs]): the events of the watcher turn the
      active specifications into those of the directory, and a pass of the manager leaves
      exactly the services that should be up running, if they can be loaded; a service keeps its
      specification.
    - Updates ([Updater]): in a rolling update the members of a group update one
      after the other, in the order of the circle; the leader waits for all of them and so
      for ever for one that cannot follow; a changed strategy is not noticed; the period of
      the workers has its lower bound.
    - File watcher ([FileWatcherProofs], [FileWatcherEvents]): the walk finds what the
      resolution of the path finds and returns when it does; every event but a
      rename without notice keeps the chain of
      watched items consistent and the loop body returns; a link through itself makes the
      walk diverge.
    - Installed packages ([Install], [InstallProofs]): the search finds the newest package
      that satisfies an identifier; the search path has no repetitions.
    - Package graph ([PackageGraphProofs]): building never panics on
      well-formed names and keeps the graph acyclic; [rdeps] returns the transitive
      dependents in an order in which they can be built; [check_extend] predicts [extend]
      and leaves the graph as it was; a target graph is its package graphs side by side.
    - Job server ([JobGroups], [SchedulerProofs], [SkipProofs], [WorkerProofs]): a project has at most one active and one queued group
      when requests do not overlap, a job at most
      one worker when the run starts with consistent rows; a job is submitted only when the dependencies of its project are built;
      what depends on a failed project is skipped; a group that can go on does; the loops
      end; lost workers are found exactly; whatever exchanges with the database fail.
      [JobFlaws] has the cases in which reports, workers and groups are lost.
    - Configuration ([Cfg]): merging tables is the pointwise merge up to its depth, and
      a service reads gossip before user, environment and default.
    - The life of a service ([ServiceProofs], [RenderProofs], [ServiceCalm]): a service waits
      for its binds and its election; a tick panics only for the files named and for a
      winner nobody has heard of; rendering makes the files what the templates give and
      reports exactly the changes; for a service that may act (alone, or after its election) a
      dead process is started again and a change reaches the process in the same tick; a new
      Supervisor finds the process of the old one; a change that is rendered during an election
      is forgotten.

    - Keys ([KeyNames], [KeyProofs], [KeyRoundTrips], [KeySearch], [RingCrypto]): the name of a
      key is parsed in one way; a key that is saved or sent is found again; importing never
      touches a file that is there, whatever fails; the latest key is the one of the greatest
      revision; what is sealed with the keys of a ring or of a service opens with them.
    - The Launcher ([LauncherRuns], [LauncherHost]): whatever happens on the machine, signals go
      to processes of its own only, the table has exactly the service processes, and no service
      outlives it; a request to start, restart or end a service is answered and has its effect,
      through the bytes of request and reply; the exit code of the Supervisor decides what is done;
      the Launcher refines the one that services are verified with.  Lost are: signals to be
      passed on, a message to shut down that comes while a reply is awaited, a Supervisor whose
      connection fails, and the exit code.
    - Programs ([CommandSearch]): the program of the Supervisor is that of the first directory of the
      newest package that has one.
    - Packages ([Artifact]): a signed package verifies, and one that verifies has the
      hash that the key it names has signed, whatever fails on the way.

    ** Parameters, bounds and fuel

    Code that is not in the repository is a parameter with the law the code relies on:
    the regex engine ([RegexEngine], instance [reference_engine]), the protobuf codec of
    the data file ([Codec], instance [codec_reference]), symmetric and box encryption,
    TOML and UTF-8 decoding, socket addresses, the packet encoding and the [Suitability]
    lookup; the TOML library of the specifications ([Toml]), the [glob] crate ([Glob]) and
    the petgraph crate ([Petgraph]).  The answers of the operating system are inputs: the
    disk, the faults of a file operation, the events and results of the notify watcher and
    what a worker thread sends; for a service, which file operations fail, what the Launcher
    replies and how programs end; for the job server, which exchanges fail, what other threads
    do between them, and the replies of the origin server.  Handlebars ([render], [parses]) and
    the hash of a file are parameters, the hash injective and not empty.  For keys and packages
    the parameter is [CryptoLib]: opening inverts sealing, verifying inverts signing, hashing
    in parts is hashing at once; that a signature cannot be forged is not assumed.  For the Launcher the answers of the machine
    are inputs: before each system call any processes can end, begin or vanish and signals and
    messages arrive; a service stays in the process group it was started in.  Every property with such a parameter has a witness with a concrete one.

    Recursion that is not structural has fuel that is proved to be enough: reading the
    frames of a data file takes the number of bytes of the file (each frame has at least
    eight), and splitting a list in chunks takes its length (each chunk has at least one
    element).  A walk of the file watcher takes fuel and answers [OutOfFuel]; it returns for
    every fuel above the length of the resolution of the path, and diverges when there is
    none.  The rounds of the file watcher over the paths it queues take a measure that every
    round decreases, and dropping a chain of watched items takes its length.  The loop of the
    scheduler over the pending groups takes fuel, and more than the number of pending groups is
    enough.  Ending a process takes as many
    readings of the clock as the machine has, and one.  Hashing and copying a file take the number of its bytes, as a read takes a byte or more.  Merging tables takes the depth at which the code gives up.  Regular expressions are matched by structural recursion.  Additions to
    incarnations, terms, heats, update counters and file positions wrap at 64 bits
    ([u64_add]), the casts of the file header and ports at their width; times and timeouts
    are unbounded integers, since the values in use are far below the bound.

    ** Not modelled

    Sockets, threads, tracing and the command-line programs; the serde output of the
    structs other than the specifications.  The directories of a service
    ([create_svc_path]), the environment of its package, the helpers of the templates, the
    HTTP gateway and the self updater of the Supervisor; package archives in [core]; the
    encryption of passwords on Windows; the threads of the Launcher that copy the output of services; of the Builder services, which are web and database services around
    [core], all but the package graph and the job server, and of the job server its
    statistics, logs and sockets.  The next parts in order: the workers of
    the builder ([builder-worker]), the helpers of the templates
    ([sup/src/templating/helpers]). *)

From Stdlib Require Import ZArith Lia Ascii String.
From Stdlib Require Strings.Byte.
From stdpp Require Export base tactics numbers list sorting strings gmap fin_maps sets.

(** ** Outcomes of code that can panic

    A Rust function that calls [unwrap], [expect], [assert!] or [panic!]
    either returns or unwinds; [Panic] carries the message of the panic. *)
Inductive outcome (A : Type) : Type :=
| Return (a : A)
| Panic (msg : string).
Arguments Return {A} a.
Arguments Panic {A} msg.

(** [Result<A, E>]. *)
Inductive result (E A : Type) : Type :=
| Ok (a : A)
| Err (e : E).
Arguments Ok {E A} a.
Arguments Err {E A} e.

Definition is_ok {E A} (r : result E A) : bool :=
  match r with Ok _ => true | Err _ => false end.

#[export] Instance outcome_ret : MRet outcome := fun _ a => Return a.
#[export] Instance outcome_bind : MBind outcome := fun _ _ k c =>
  match c with Return a => k a | Panic m => Panic m end.
#[export] Instance outcome_fmap : FMap outcome := fun _ _ f c =>
  match c with Return a => Return (f a) | Panic m => Panic m end.
#[export] Instance result_ret {E} : MRet (result E) := fun _ a => Ok a.
#[export] Instance result_bind {E} : MBind (result E) := fun _ _ k c =>
  match c with Ok a => k a | Err e => Err e end.

(** [Option::expect] / [Option::unwrap]. *)
Definition expect {A} (msg : string) (o : option A) : outcome A :=
  match o with Some a => Return a | None => Panic msg end.

(** [Returns c P]: the computation does not panic and its value satisfies [P]. *)
Definition Returns {A} (c : outcome A) (P : A -> Prop) : Prop :=
  match c with Return a => P a | Panic _ => False end.

Lemma Returns_inv {A} (c : outcome A) P :
  Returns c P -> exists a, c = Return a /\ P a.
Proof. destruct c; naive_solver. Qed.

Lemma Returns_intro {A} (c : outcome A) (P : A -> Prop) a :
  c = Return a -> P a -> Returns c P.
Proof. by intros ->. Qed.

Lemma Returns_mono {A} (c : outcome A) (P Q : A -> Prop) :
  Returns c P -> (forall a, P a -> Q a) -> Returns c Q.
Proof. destruct c; naive_solver. Qed.

Lemma Returns_bind {A B} (c : outcome A) (k : A -> outcome B) (P : A -> Prop) (Q : B -> Prop) :
  Returns c P -> (forall a, P a -> Returns (k a) Q) -> Returns (c ≫= k) Q.
Proof. destruct c; naive_solver. Qed.

(** A loop [for x in l] whose body can panic, threading the state. *)
Fixpoint for_each {A S} (f : A -> S -> outcome S) (l : list A) (s : S) : outcome S :=
  match l with
  | [] => Return s
  | x :: l => s' ← f x s; for_each f l s'
  end.

Lemma for_each_inv {A S} (I : S -> Prop) (f : A -> S -> outcome S) l s :
  I s -> (forall x s, x ∈ l -> I s -> Returns (f x s) I) -> Returns (for_each f l s) I.
Proof.
  revert s; induction l as [|x l IH]; intros s HI Hf; [done|].
  cbn. eapply Returns_bind; [apply Hf; set_solver|].
  intros s' HI'. apply IH; [done|]. intros; apply Hf; set_solver.
Qed.

Lemma for_each_app {A S} (f : A -> S -> outcome S) l1 l2 s :
  for_each f (l1 ++ l2) s = (s' ← for_each f l1 s; for_each f l2 s').
Proof. revert s. induction l1 as [|x l1 IH]; intros s; [done|]. cbn. destruct (f x s); [apply IH|done]. Qed.

(** An invariant that speaks of the elements done so far. *)
Lemma for_each_prefix {A S} (I : list A -> S -> Prop) (f : A -> S -> outcome S) l s :
  I [] s -> (forall l1 x l2 s, l = l1 ++ x :: l2 -> I l1 s -> Returns (f x s) (I (l1 ++ [x]))) ->
  Returns (for_each f l s) (I l).
Proof.
  intros Hs Hf. assert (forall l2 l1 s, l = l1 ++ l2 -> I l1 s -> Returns (for_each f l2 s) (I l)) as H.
  { clear s Hs. induction l2 as [|x l2 IH]; intros l1 s Hl HI; [by rewrite app_nil_r in Hl; subst|].
    cbn. eapply Returns_bind; [by eapply Hf|]. intros s' HI'. apply (IH (l1 ++ [x])); [|done].
    by rewrite <- app_assoc. }
  by apply (H l []).
Qed.

(** A loop panics when one of its elements does in every state. *)
Lemma for_each_panic {A S} (f : A -> S -> outcome S) x l s :
  x ∈ l -> (forall s, exists msg, f x s = Panic msg) -> exists msg, for_each f l s = Panic msg.
Proof.
  intros Hin Hx. revert s. induction l as [|y l IH]; intros s; [by apply not_elem_of_nil in Hin|].
  cbn. apply elem_of_cons in Hin as [<-|Hin].
  - destruct (Hx s) as [msg ->]. by exists msg.
  - destruct (f y s) as [s'|msg]; [by apply IH|by exists msg].
Qed.

Lemma for_each_foldl {A S} (f : S -> A -> S) l s :
  for_each (fun x s => Return (f s x)) l s = Return (foldl f s l).
Proof. revert s; induction l as [|x l IH]; intros s; [done|]. apply IH. Qed.

Lemma foldl_inv {A S} (I : S -> Prop) (f : S -> A -> S) l s :
  I s -> (forall s x, x ∈ l -> I s -> I (f s x)) -> I (foldl f s l).
Proof.
  revert s; induction l as [|x l IH]; intros s HI Hf; [done|].
  cbn. apply IH; [apply Hf; set_solver|]. intros; apply Hf; set_solver.
Qed.

(** A fold whose steps commute does not depend on the order of the list. *)
Lemma foldl_comm_perm {A S} (f : S -> A -> S) l1 l2 s :
  (forall s x y, f (f s x) y = f (f s y) x) -> l1 ≡ₚ l2 -> foldl f s l1 = foldl f s l2.
Proof.
  intros Hf Hp. revert s. induction Hp as [|x l l' _ IH|x y l|l l' l'' _ IH1 _ IH2]; intros s; cbn.
  - done.
  - apply IH.
  - by rewrite Hf.
  - by rewrite IH1.
Qed.

(** ** Machine integers

    [u64] and (on the 64-bit targets the project builds for) [usize] values
    are integers in [0, 2^64); arithmetic that can leave the range is written
    with its wrap-around, which is what release builds and atomics do. *)
Definition u64_modulus : Z := 2 ^ 64.
Definition wrap_u64 (z : Z) : Z := z `mod` u64_modulus.
Definition u64_add (a b : Z) : Z := wrap_u64 (a + b).
Definition is_u64 (z : Z) : Prop := (0 <= z < u64_modulus)%Z.

Lemma u64_modulus_pos : (0 < u64_modulus)%Z.
Proof. reflexivity. Qed.

Lemma wrap_u64_range z : is_u64 (wrap_u64 z).
Proof. apply Z.mod_pos_bound, u64_modulus_pos. Qed.

Lemma wrap_u64_id z : is_u64 z -> wrap_u64 z = z.
Proof. intros H; by apply Z.mod_small. Qed.

Lemma u64_add_range a b : is_u64 (u64_add a b).
Proof. apply wrap_u64_range. Qed.

Lemma u64_add_small a b : is_u64 (a + b) -> u64_add a b = (a + b)%Z.
Proof. apply wrap_u64_id. Qed.

(** ** Bytes ([Vec<u8>]) *)
Definition bytes : Type := list Byte.byte.

#[export] Instance byte_eq_dec : EqDecision Byte.byte := Strings.Byte.byte_eq_dec.

(** ** Iteration and shuffling orders

    The iteration order of a [HashMap], and the outcome of [rng.shuffle], are
    unspecified.  An [order] is one resolution of that choice: a function that
    permutes any list.  Code whose result depends on the order takes an [order]
    and the theorems quantify over all of them. *)
Record order := Order {
  permute : forall {A}, list A -> list A;
  permute_perm : forall {A} (l : list A), permute l ≡ₚ l;
}.

Definition id_order : order := {| permute := fun _ l => l; permute_perm := fun _ l => reflexivity l |}.

Program Definition rev_order : order := {| permute := fun _ l => reverse l |}.
Next Obligation. intros A l. apply reverse_Permutation. Qed.

Lemma elem_of_permute (o : order) {A} (l : list A) x : x ∈ permute o l <-> x ∈ l.
Proof. by rewrite (permute_perm o l). Qed.

Lemma NoDup_permute (o : order) {A} (l : list A) : NoDup (permute o l) <-> NoDup l.
Proof. by rewrite (permute_perm o l). Qed.

Lemma length_permute (o : order) {A} (l : list A) : length (permute o l) = length l.
Proof. by rewrite (permute_perm o l). Qed.

(** ** Stable sorting ([slice::sort_by], [sort_by_key]) *)
Section sort_by.
  Context {A : Type} (leb : A -> A -> bool).

Fixpoint insert_sorted (x : A) (l : list A) : list A :=
  match l with
  | [] => [x]
  | y :: l' => if leb x y then x :: l else y :: insert_sorted x l'
  end.

Definition sort_by (l : list A) : list A := foldr insert_sorted [] l.

Lemma insert_sorted_perm x l : insert_sorted x l ≡ₚ x :: l.
Proof.
  induction l as [|y l IH]; [done|]. cbn. destruct (leb x y); [done|].
  rewrite IH. apply Permutation_swap.
Qed.

Lemma sort_by_perm l : sort_by l ≡ₚ l.
Proof. induction l as [|x l IH]; [done|]. cbn. by rewrite insert_sorted_perm, IH. Qed.

Lemma elem_of_sort_by l x : x ∈ sort_by l <-> x ∈ l.
Proof. by rewrite sort_by_perm. Qed.

Lemma insert_sorted_sorted x l :
  (forall a b, leb a b = true \/ leb b a = true) ->
  Sorted (fun a b => leb a b = true) l -> Sorted (fun a b => leb a b = true) (insert_sorted x l).
Proof.
  intros Htot. induction l as [|y l IH]; intros Hl; cbn; [by repeat constructor|].
  destruct (leb x y) eqn:Hxy; [by constructor; [done|constructor]|].
  apply Sorted_inv in Hl as [Hl Hy]. constructor; [by apply IH|].
  destruct (Htot x y) as [?|Hyx]; [congruence|].
  destruct l as [|z l]; cbn; [by constructor|].
  destruct (leb x z); constructor; [done|by inversion Hy].
Qed.

Lemma sort_by_sorted l :
  (forall a b, leb a b = true \/ leb b a = true) -> Sorted (fun a b => leb a b = true) (sort_by l).
Proof. intros Htot. induction l as [|x l IH]; cbn; [constructor|]. by apply insert_sorted_sorted. Qed.

(** The head of the sorted list is a least element. *)
Lemma sort_by_head l x l' :
  (forall a b, leb a b = true \/ leb b a = true) ->
  (forall a b c, leb a b = true -> leb b c = true -> leb a c = true) ->
  sort_by l = x :: l' -> x ∈ l /\ forall y, y ∈ l -> leb x y = true.
Proof.
  intros Htot Htrans Hs. pose proof (sort_by_sorted l Htot) as Hsort. rewrite Hs in Hsort.
  apply Sorted_StronglySorted in Hsort; [|done]. apply StronglySorted_inv in Hsort as [_ Hx].
  setoid_rewrite <- elem_of_sort_by. rewrite Hs. split; [set_solver|].
  intros y Hy. apply elem_of_cons in Hy as [->|Hy]; [by destruct (Htot x x)|].
  by eapply Forall_forall in Hx.
Qed.

End sort_by.

(** ** Generic lemmas on lists *)
Lemma sublist_fmap {A B} (f : A -> B) l1 l2 :
  l1 `sublist_of` l2 -> f <$> l1 `sublist_of` f <$> l2.
Proof. induction 1; cbn; by constructor. Qed.

(** [filter_map] keeps the keys it keeps in order. *)
Lemma sublist_omap {A B C} (f : A -> option B) (g : B -> C) (h : A -> C) l :
  (forall x y, f x = Some y -> g y = h x) -> g <$> omap f l `sublist_of` h <$> l.
Proof.
  intros Hf. induction l as [|x l IH]; [constructor|].
  change (omap f (x :: l)) with (match f x with Some y => y :: omap f l | None => omap f l end).
  destruct (f x) as [y|] eqn:Hx; cbn; [rewrite (Hf _ _ Hx)|]; by constructor.
Qed.

Lemma sublist_fmap_NoDup {A B} (f : A -> B) l1 l2 :
  l1 `sublist_of` l2 -> NoDup (f <$> l2) -> NoDup (f <$> l1).
Proof. intros Hs Hnd. eapply sublist_NoDup; [done|]. by apply sublist_fmap. Qed.

(** A duplicate-free list counted inside another covers it when the counts agree. *)
Lemma NoDup_count_covers {A} `{EqDecision A} (votes voters : list A) :
  NoDup votes ->
  length (filter (fun v => v ∈ voters) votes) = length voters ->
  NoDup voters ->
  forall v, v ∈ voters -> v ∈ votes.
Proof.
  intros Hnd Hlen Hnd' v Hv.
  assert (filter (fun v => v ∈ voters) votes ≡ₚ voters) as Hp.
  { apply submseteq_length_Permutation; [|lia].
    apply NoDup_submseteq; [by apply NoDup_filter|].
    intros x. rewrite list_elem_of_filter. naive_solver. }
  rewrite <- Hp, list_elem_of_filter in Hv. naive_solver.
Qed.

(** Counting a duplicate-free list inside one that covers it. *)
Lemma NoDup_count_full {A} `{EqDecision A} (votes voters : list A) :
  NoDup votes -> NoDup voters -> (forall v, v ∈ voters -> v ∈ votes) ->
  length (filter (fun v => v ∈ voters) votes) = length voters.
Proof.
  intros Hv Hw Hsub. apply Permutation_length, NoDup_Permutation; [by apply NoDup_filter|done|].
  intros x. rewrite list_elem_of_filter. naive_solver.
Qed.

(** Two duplicate-free parts of a list that together are longer than it overlap. *)
Lemma majorities_intersect {A} `{EqDecision A} (l a b : list A) :
  NoDup a -> NoDup b -> (forall x, x ∈ a -> x ∈ l) -> (forall x, x ∈ b -> x ∈ l) ->
  (length l < length a + length b)%nat -> exists x, x ∈ a /\ x ∈ b.
Proof.
  intros Ha Hb Hal Hbl Hlen.
  destruct (decide (Exists (fun x => x ∈ b) a)) as [He|He].
  { apply Exists_exists in He as (x & ? & ?). by exists x. }
  exfalso. assert (NoDup (a ++ b)) as Hab.
  { apply NoDup_app. split_and!; [done| |done]. intros x Hxa Hxb. apply He, Exists_exists. by exists x. }
  assert (a ++ b ⊆+ l) as Hs by (apply NoDup_submseteq; [done|]; intros x; rewrite elem_of_app; naive_solver).
  apply submseteq_length in Hs. rewrite length_app in Hs. lia.
Qed.

(** ** Automation *)
Create HintDb habitat discriminated.
#[export] Hint Resolve wrap_u64_range u64_add_range : habitat.

(** Case analysis on the [if]s and [match]es of the goal, closing the easy branches. *)
Ltac split_cases := repeat (case_match || case_bool_decide); simplify_eq/=; try done.
