(* ===== verification/Regex.v ===== *)
(** * Regular expressions

    The sources validate names with the [regex] crate, which is not part of the
    repository.  This file gives the syntax of the patterns the sources use
    ([re]), the leftmost-first semantics the crate documents as an executable
    search ([search]) together with a declarative reading ([rmatch]) and the
    proof that they agree, and the interface [RegexEngine] through which the
    rest of the development uses an engine: any function that finds the
    captures of the leftmost-first match. *)

From S2P Require Import Prelude.
From Stdlib Require Import Ascii String.

Abbreviation chars := (list ascii).

(** Strings as the lists of their characters. *)
Definition to_chars (s : string) : chars := list_ascii_of_string s.
Definition of_chars (l : chars) : string := string_of_list_ascii l.

Lemma of_to_chars s : of_chars (to_chars s) = s.
Proof. apply string_of_list_ascii_of_string. Qed.

Lemma to_of_chars l : to_chars (of_chars l) = l.
Proof. apply list_ascii_of_string_of_list_ascii. Qed.

Lemma of_chars_app l k : of_chars (l ++ k) = String.append (of_chars l) (of_chars k).
Proof. induction l as [|c l IH]; [done|]. unfold of_chars in *. cbn. by rewrite IH. Qed.

Lemma to_chars_app s t : to_chars (String.append s t) = to_chars s ++ to_chars t.
Proof.
  induction s as [|c s IH]; [done|].
  change (c :: to_chars (String.append s t) = c :: to_chars s ++ to_chars t). by rewrite IH.
Qed.

Lemma to_chars_inj s t : to_chars s = to_chars t -> s = t.
Proof. intros H. by rewrite <- (of_to_chars s), <- (of_to_chars t), H. Qed.

(** Patterns: [\A], [\z], a character of a class, one or more and zero or more
    characters of a class (greedy), sequence, [?] (greedy) and a named group. *)
Inductive re : Type :=
| RBegin
| REnd
| ROne (p : ascii -> bool)
| RPlus (p : ascii -> bool)
| RStar (p : ascii -> bool)
| RSeq (r1 r2 : re)
| ROpt (r : re)
| RCap (name : string) (r : re).

Definition is_char (c : ascii) : ascii -> bool := fun x => Ascii.eqb x c.
Definition one_of (s : string) : ascii -> bool := fun x => existsb (Ascii.eqb x) (to_chars s).
Definition none_of (s : string) : ascii -> bool := fun x => negb (one_of s x).
Definition in_range (lo hi : ascii) : ascii -> bool := fun x =>
  (N_of_ascii lo <=? N_of_ascii x)%N && (N_of_ascii x <=? N_of_ascii hi)%N.

(** The groups that took part in a match, in the order they were entered. *)
Abbreviation caps := (list (string * chars)).

Fixpoint cap (n : string) (c : caps) : option chars :=
  match c with
  | [] => None
  | (m, w) :: c => if String.eqb n m then Some w else cap n c
  end.

(** [caps.name(n).map(|m| m.as_str())] *)
Definition name (n : string) (c : caps) : option string := of_chars <$> cap n c.

(** The ways to split off a prefix whose characters satisfy [p], longest first. *)
Fixpoint spans (p : ascii -> bool) (s : chars) : list (chars * chars) :=
  match s with
  | c :: t =>
      if p c then ((fun wr => (c :: wr.1, wr.2)) <$> spans p t) ++ [([], s)] else [([], s)]
  | [] => [([], [])]
  end.

(** The matches of [r] at the head of [s], best first: consumed, rest, groups.
    [start] says whether the position is the beginning of the text. *)
Fixpoint go (r : re) (start : bool) (s : chars) : list (chars * chars * caps) :=
  match r with
  | RBegin => if start then [([], s, [])] else []
  | REnd => match s with [] => [([], [], [])] | _ => [] end
  | ROne p => match s with c :: t => if p c then [([c], t, [])] else [] | [] => [] end
  | RPlus p =>
      (fun wr => (wr, [])) <$> filter (fun wr : chars * chars => wr.1 <> []) (spans p s)
  | RStar p => (fun wr => (wr, [])) <$> spans p s
  | RSeq r1 r2 =>
      '(w1, t, c1) ← go r1 start s;
      '(w2, u, c2) ← go r2 (start && bool_decide (w1 = [])) t;
      [(w1 ++ w2, u, c1 ++ c2)]
  | ROpt r => go r start s ++ [([], s, [])]
  | RCap n r => (fun m : chars * chars * caps =>
                   (m.1.1, m.1.2, (n, m.1.1) :: m.2)) <$> go r start s
  end.

(** The leftmost-first match: the best match at the first position that has one. *)
Fixpoint search_from (r : re) (start : bool) (s : chars) : option caps :=
  match go r start s with
  | m :: _ => Some m.2
  | [] => match s with [] => None | _ :: t => search_from r false t end
  end.

Definition search (r : re) (s : string) : option caps := search_from r true (to_chars s).

(** An engine: [Regex::captures], documented to find the leftmost-first match. *)
Class RegexEngine := {
  captures : re -> string -> option caps;
  captures_leftmost_first : forall r s, captures r s = search r s;
}.

(** The engine that searches as described above. *)
Definition reference_engine : RegexEngine :=
  {| captures := search; captures_leftmost_first := fun _ _ => eq_refl |}.

(** [Regex::is_match] *)
Definition is_match `{!RegexEngine} (r : re) (s : string) : bool :=
  match captures r s with Some _ => true | None => false end.

(** ** The declarative reading

    [rmatch r start w rest c]: [r] can consume exactly [w] when [rest] follows. *)
Fixpoint rmatch (r : re) (start : bool) (w rest : chars) (c : caps) : Prop :=
  match r with
  | RBegin => start = true /\ w = [] /\ c = []
  | REnd => w = [] /\ rest = [] /\ c = []
  | ROne p => exists x, w = [x] /\ p x = true /\ c = []
  | RPlus p => w <> [] /\ forallb p w = true /\ c = []
  | RStar p => forallb p w = true /\ c = []
  | RSeq r1 r2 => exists w1 w2 c1 c2, w = w1 ++ w2 /\ c = c1 ++ c2 /\
      rmatch r1 start w1 (w2 ++ rest) c1 /\
      rmatch r2 (start && bool_decide (w1 = [])) w2 rest c2
  | ROpt r => rmatch r start w rest c \/ (w = [] /\ c = [])
  | RCap n r => exists c', c = (n, w) :: c' /\ rmatch r start w rest c'
  end.

Lemma spans_spec p s w rest :
  (w, rest) ∈ spans p s <-> s = w ++ rest /\ forallb p w = true.
Proof.
  revert w; induction s as [|c s IH]; intros w; cbn.
  - rewrite list_elem_of_singleton. split; [by intros [= -> ->]|].
    intros [H _]. symmetry in H. apply app_eq_nil in H as [-> ->]. done.
  - destruct (p c) eqn:Hp.
    + rewrite elem_of_app, list_elem_of_singleton, list_elem_of_fmap. split.
      * intros [([w' r'] & [= -> ->] & H)|[= -> ->]]; [|done].
        apply IH in H as [-> ?]. cbn. by rewrite Hp.
      * intros [Heq Hf]. destruct w as [|x w]; cbn in *; [right; by rewrite Heq|].
        left. simplify_eq. exists (w, rest). split; [done|].
        apply IH. split; [done|]. by apply andb_prop in Hf as [_ ?].
    + rewrite list_elem_of_singleton. split; [by intros [= -> ->]|].
      intros [Heq Hf]. destruct w as [|x w]; cbn in *; [by rewrite Heq|].
      simplify_eq. by rewrite Hp in Hf.
Qed.

(** The search finds exactly the matches of the declarative reading. *)
Lemma go_spec r start s w rest c :
  (w, rest, c) ∈ go r start s <-> s = w ++ rest /\ rmatch r start w rest c.
Proof.
  revert start s w rest c; induction r as [| |p|p|p|r1 IH1 r2 IH2|r IH|n r IH];
    intros start s w rest c; cbn.
  - destruct start; rewrite ?list_elem_of_singleton, ?elem_of_nil; naive_solver.
  - destruct s; rewrite ?list_elem_of_singleton, ?elem_of_nil; [naive_solver|].
    split; [done|]. by intros (? & -> & -> & _).
  - destruct s as [|x s]; [|destruct (p x) eqn:Hp];
      rewrite ?list_elem_of_singleton, ?elem_of_nil; split; try done.
    + by intros (? & y & -> & _).
    + intros [= -> -> ->]. eauto 6.
    + intros (Heq & y & -> & Hy & ->). by simplify_eq/=.
    + intros (Heq & y & -> & Hy & ->). simplify_eq/=. congruence.
  - rewrite list_elem_of_fmap. setoid_rewrite list_elem_of_filter. split.
    + intros ([w' r'] & [= -> -> ->] & Hne & Hs). apply spans_spec in Hs. naive_solver.
    + intros (-> & ? & ? & ->). exists (w, rest). split; [done|]. split; [done|].
      by apply spans_spec.
  - rewrite list_elem_of_fmap. split.
    + intros ([w' r'] & [= -> -> ->] & Hs). apply spans_spec in Hs. naive_solver.
    + intros (-> & ? & ->). exists (w, rest). split; [done|]. by apply spans_spec.
  - rewrite list_elem_of_bind. split.
    + intros ([[w1 t] c1] & H & H1). apply list_elem_of_bind in H as ([[w2 u] c2] & H & H2).
      apply list_elem_of_singleton in H as [= -> -> ->].
      apply IH1 in H1 as [-> ?]. apply IH2 in H2 as [-> ?].
      split; [by rewrite <- app_assoc|]. naive_solver.
    + intros (-> & w1 & w2 & c1 & c2 & -> & -> & H1 & H2).
      exists (w1, w2 ++ rest, c1). split; [|apply IH1; by rewrite <- app_assoc].
      apply list_elem_of_bind. exists (w2, rest, c2).
      split; [by apply list_elem_of_singleton|by apply IH2].
  - rewrite elem_of_app, IH, list_elem_of_singleton. naive_solver.
  - rewrite list_elem_of_fmap. split.
    + intros ([[w' t] c'] & [= -> -> ->] & H). apply IH in H. naive_solver.
    + intros (-> & c' & -> & H). exists (w, rest, c'). split; [done|]. by apply IH.
Qed.

(** A pattern that starts with [\A] matches at the beginning of the text only. *)
Lemma search_from_anchored r s : search_from (RSeq RBegin r) false s = None.
Proof. induction s as [|c s IH]; [done|]. cbn. exact IH. Qed.

(** A pattern anchored at both ends with at most one match: its search decides it. *)
Lemma search_anchored r s :
  (forall w w' c c', rmatch r true w [] c -> rmatch r true w' [] c' -> w = w' -> c = c') ->
  forall c, search (RSeq RBegin (RSeq r REnd)) s = Some c <-> rmatch r true (to_chars s) [] c.
Proof.
  intros Huniq. set (q := RSeq RBegin (RSeq r REnd)).
  assert (Hq : forall w rest c, rmatch q true w rest c <-> rest = [] /\ rmatch r true w [] c).
  { intros w rest c. cbn. split.
    - intros (w1 & w2 & c1 & c2 & -> & -> & (_ & -> & ->) & w3 & w4 & c3 & c4 & -> & -> & H & -> & -> & ->).
      cbn in *. by rewrite !app_nil_r in *.
    - intros [-> H]. exists [], w, [], c. repeat split. exists w, [], c, [].
      by rewrite !app_nil_r. }
  intros c. unfold search. fold q.
  assert (Hg : forall m, m ∈ go q true (to_chars s) -> rmatch r true (to_chars s) [] m.2).
  { intros [[w rest] c']. rewrite go_spec, Hq. intros (E & -> & H). by rewrite E, app_nil_r. }
  destruct (go q true (to_chars s)) as [|m l] eqn:E.
  - assert (Hs : search_from q true (to_chars s) = None).
    { destruct (to_chars s) as [|x t] eqn:Et; cbn [search_from]; rewrite E; [done|].
      apply search_from_anchored. }
    rewrite Hs. split; [done|]. intros H.
    assert ((to_chars s, [], c) ∈ go q true (to_chars s)) as Hin.
    { apply go_spec. by rewrite app_nil_r, Hq. }
    rewrite E in Hin. by apply elem_of_nil in Hin.
  - assert (Hs : search_from q true (to_chars s) = Some m.2).
    { destruct (to_chars s) as [|x t] eqn:Et; cbn [search_from]; by rewrite E. }
    rewrite Hs. specialize (Hg m (list_elem_of_here _ _)). split; [by intros [= <-]|].
    intros H. f_equal. by eapply Huniq.
Qed.

(** What a search returns are the groups of some match. *)
Lemma search_from_sound r start s c :
  search_from r start s = Some c -> exists start' w rest, rmatch r start' w rest c.
Proof.
  revert start; induction s as [|x s IH]; intros start; cbn [search_from];
    destruct (go r start _) as [|[[w rest] c'] l] eqn:E.
  - done.
  - intros [= <-]. exists start, w, rest. eapply go_spec. rewrite E. left.
  - apply IH.
  - intros [= <-]. exists start, w, rest. eapply go_spec. rewrite E. left.
Qed.
