(* ===== verification/Text.v ===== *)
(** * Text functions of the standard library

    [str::trim] and [str::to_lowercase], which several parsers use, on ASCII text. *)

From S2P Require Import Prelude Regex.
From Stdlib Require Import Ascii.
Local Open Scope string_scope.
Local Open Scope list_scope.

Definition is_whitespace (c : ascii) : bool :=
  let n := nat_of_ascii c in (Nat.leb 9 n && Nat.leb n 13) || Nat.eqb n 32.

Fixpoint trim_start (l : chars) : chars :=
  match l with
  | c :: l' => if is_whitespace c then trim_start l' else l
  | [] => []
  end.

Definition trim (s : string) : string :=
  of_chars (rev (trim_start (rev (trim_start (to_chars s))))).

Definition to_lower (c : ascii) : ascii :=
  let n := nat_of_ascii c in if (Nat.leb 65 n && Nat.leb n 90)%bool then ascii_of_nat (n + 32) else c.

Definition to_lowercase (s : string) : string := of_chars (to_lower <$> to_chars s).
