(* ===== verification/ServiceGroup.v ===== *)
(** * Service groups and application environments

    Models [components/core/src/service.rs]: the two patterns, the newtypes
    [ServiceGroup] and [ApplicationEnvironment], their constructors, parsers and
    accessors.  An accessor unwraps the captures of the stored string, so it is
    an [outcome]. *)

From S2P Require Import Prelude Regex.
From Stdlib Require Import Ascii String.
Local Open Scope string_scope.
Local Open Scope list_scope.

(** The errors of [habitat_core] these parsers return. *)
Inductive core_error : Type :=
| InvalidServiceGroup (value : string)
| InvalidApplicationEnvironment (value : string)
| InvalidPackageIdent (value : string)
| ParseIntError.

(** [[^#@]+], [[^#@.]+] and [[^#.@]+] *)
Definition ae_token : re := RPlus (none_of "#@").
Definition sg_token : re := RPlus (none_of "#@.").

Definition SG_BODY : re :=
  RSeq (ROpt (RSeq (RCap "application_environment" ae_token) (ROne (is_char "#"))))
 (RSeq (RCap "service" sg_token)
 (RSeq (ROne (is_char "."))
 (RSeq (RCap "group" sg_token)
       (ROpt (RSeq (ROne (is_char "@")) (RCap "organization" sg_token)))))).
Definition SG_FROM_STR_RE : re := RSeq RBegin (RSeq SG_BODY REnd).

Definition AE_BODY : re :=
  RSeq (RCap "application" sg_token)
 (RSeq (ROne (is_char ".")) (RCap "environment" sg_token)).
Definition AE_FROM_STR_RE : re := RSeq RBegin (RSeq AE_BODY REnd).

(** ** [ApplicationEnvironment] *)
Module ApplicationEnvironment.
Record t := mk { as_str : string }.

Definition format (app env : string) : string := app +:+ "." +:+ env.

Section with_engine.
  Context `{!RegexEngine}.

Definition validate (value : string) : result core_error unit :=
  match captures AE_FROM_STR_RE value with
  | None => Err (InvalidApplicationEnvironment value)
  | Some caps =>
      if decide (name "application" caps = None) then Err (InvalidApplicationEnvironment value)
      else if decide (name "environment" caps = None)
      then Err (InvalidApplicationEnvironment value)
      else Ok tt
  end.

Definition new (app env : string) : result core_error t :=
  let formatted := format app env in
  _ ← validate formatted; Ok (mk formatted).

Definition application (self : t) : outcome string :=
  caps ← expect "unwrap" (captures AE_FROM_STR_RE (as_str self));
  expect "unwrap" (name "application" caps).

Definition environment (self : t) : outcome string :=
  caps ← expect "unwrap" (captures AE_FROM_STR_RE (as_str self));
  expect "unwrap" (name "environment" caps).

Definition from_str (value : string) : result core_error t :=
  match captures AE_FROM_STR_RE value with
  | None => Err (InvalidApplicationEnvironment value)
  | Some caps =>
      match name "application" caps with
      | None => Err (InvalidApplicationEnvironment value)
      | Some app =>
          match name "environment" caps with
          | None => Err (InvalidApplicationEnvironment value)
          | Some env => Ok (mk (format app env))
          end
      end
  end.

End with_engine.
End ApplicationEnvironment.

(** ** [ServiceGroup] *)
Module ServiceGroup.
Record t := mk { as_str : string }.

Definition format (app_env : option ApplicationEnvironment.t) (service group : string)
    (organization : option string) : string :=
  match app_env, organization with
  | Some ae, Some org =>
      ApplicationEnvironment.as_str ae +:+ "#" +:+ service +:+ "." +:+ group +:+ "@" +:+ org
  | Some ae, None => ApplicationEnvironment.as_str ae +:+ "#" +:+ service +:+ "." +:+ group
  | None, Some org => service +:+ "." +:+ group +:+ "@" +:+ org
  | None, None => service +:+ "." +:+ group
  end.

Section with_engine.
  Context `{!RegexEngine}.

Definition validate (value : string) : result core_error unit :=
  match captures SG_FROM_STR_RE value with
  | None => Err (InvalidServiceGroup value)
  | Some caps =>
      if decide (name "service" caps = None) then Err (InvalidServiceGroup value)
      else if decide (name "group" caps = None) then Err (InvalidServiceGroup value)
      else Ok tt
  end.

Definition new (app_env : option ApplicationEnvironment.t) (service group : string)
    (organization : option string) : result core_error t :=
  let formatted := format app_env service group organization in
  _ ← validate formatted; Ok (mk formatted).

Definition application_environment (self : t) : outcome (option ApplicationEnvironment.t) :=
  caps ← expect "unwrap" (captures SG_FROM_STR_RE (as_str self));
  match name "application_environment" caps with
  | None => Return None
  | Some v =>
      match ApplicationEnvironment.from_str v with
      | Ok ae => Return (Some ae)
      | Err _ => Panic "ApplicationEnvironment is valid and parses."
      end
  end.

Definition service (self : t) : outcome string :=
  caps ← expect "unwrap" (captures SG_FROM_STR_RE (as_str self));
  expect "unwrap" (name "service" caps).

Definition group (self : t) : outcome string :=
  caps ← expect "unwrap" (captures SG_FROM_STR_RE (as_str self));
  expect "unwrap" (name "group" caps).

Definition org (self : t) : outcome (option string) :=
  caps ← expect "unwrap" (captures SG_FROM_STR_RE (as_str self));
  Return (name "organization" caps).

Definition set_org (self : t) (o : string) : outcome t :=
  ae ← application_environment self;
  s ← service self;
  g ← group self;
  Return (mk (format ae s g (Some o))).

Definition from_str (value : string) : result core_error t :=
  match captures SG_FROM_STR_RE value with
  | None => Err (InvalidServiceGroup value)
  | Some caps =>
      match name "service" caps with
      | None => Err (InvalidServiceGroup value)
      | Some service =>
          match name "group" caps with
          | None => Err (InvalidServiceGroup value)
          | Some group =>
              app_env ← match name "application_environment" caps with
                        | Some a => ae ← ApplicationEnvironment.from_str a; Ok (Some ae)
                        | None => Ok None
                        end;
              Ok (mk (format app_env service group (name "organization" caps)))
          end
      end
  end.

End with_engine.
End ServiceGroup.

#[export] Instance ApplicationEnvironment_eq_dec : EqDecision ApplicationEnvironment.t.
Proof. solve_decision. Defined.
#[export] Instance ServiceGroup_eq_dec : EqDecision ServiceGroup.t.
Proof. solve_decision. Defined.
#[export] Program Instance ServiceGroup_countable : Countable ServiceGroup.t :=
  inj_countable' ServiceGroup.as_str ServiceGroup.mk _.
Next Obligation. by intros []. Qed.

(** ** What the patterns mean

    A token is a non-empty string without the separator characters. *)
Definition token (bad : string) (w : chars) : Prop := w <> [] /\ forallb (none_of bad) w = true.

Lemma none_of_not_in bad x w :
  none_of bad x = false -> forallb (none_of bad) w = true -> x ∉ w.
Proof.
  intros Hx Hw Hin. rewrite forallb_forall in Hw.
  rewrite list_elem_of_In in Hin. rewrite (Hw _ Hin) in Hx. done.
Qed.

(** Closes [x ∉ w] for a separator [x] and a token [w] of the context. *)
Ltac not_in_token := eapply none_of_not_in; [|eassumption]; reflexivity.

(** Two ways to cut a text at its first occurrence of [x] are the same. *)
Lemma cut_unique {A} (x : A) l1 l2 r1 r2 :
  x ∉ l1 -> x ∉ l2 -> l1 ++ x :: r1 = l2 ++ x :: r2 -> l1 = l2 /\ r1 = r2.
Proof.
  revert l2; induction l1 as [|a l1 IH]; intros [|b l2] H1 H2 H; simplify_eq/=; [done|..].
  - by destruct H2; left.
  - by destruct H1; left.
  - rewrite not_elem_of_cons in H1, H2. destruct (IH l2) as [-> ->]; tauto.
Qed.

(** The text and the groups of a parsed application environment and service group. *)
Definition ae_text (app env : chars) : chars := app ++ "."%char :: env.
Definition ae_caps (app env : chars) : caps := [("application", app); ("environment", env)].

Definition sg_text (ae : option chars) (svc grp : chars) (o : option chars) : chars :=
  (match ae with Some a => a ++ ["#"%char] | None => [] end) ++
  svc ++ "."%char :: grp ++ (match o with Some a => "@"%char :: a | None => [] end).
Definition sg_caps (ae : option chars) (svc grp : chars) (o : option chars) : caps :=
  (match ae with Some a => [("application_environment", a)] | None => [] end) ++
  ("service", svc) :: ("group", grp) ::
  (match o with Some a => [("organization", a)] | None => [] end).

Lemma ae_body_match start w rest c :
  rmatch AE_BODY start w rest c <->
  exists app env, token "#@." app /\ token "#@." env /\ w = ae_text app env /\ c = ae_caps app env.
Proof.
  unfold token, ae_text, ae_caps. split.
  - cbn. intros (app & w2 & c1 & c2 & -> & -> & (? & -> & ? & ? & ->) & w3 & env & c3 & c4 & -> & ->
      & (x & -> & Hx & ->) & (? & -> & ? & ? & ->)).
    apply Ascii.eqb_eq in Hx as ->. exists app, env. naive_solver.
  - intros (app & env & [? ?] & [? ?] & -> & ->).
    exists app, ("."%char :: env), [("application", app)], [("environment", env)].
    split_and!; [done..| |]; [by exists []|].
    exists ["."%char], env, [], [("environment", env)].
    split_and!; [done..| |]; [by exists "."%char|by exists []].
Qed.

Lemma sg_body_match start w rest c :
  rmatch SG_BODY start w rest c <->
  exists ae svc grp o, (forall a, ae = Some a -> token "#@" a) /\ token "#@." svc /\
    token "#@." grp /\ (forall a, o = Some a -> token "#@." a) /\
    w = sg_text ae svc grp o /\ c = sg_caps ae svc grp o.
Proof.
  unfold token, sg_text, sg_caps. split.
  - cbn. intros (w1 & w2 & c1 & c2 & -> & -> & Hae & svc & w3 & c3 & c4 & -> & ->
      & (? & -> & ? & ? & ->) & w4 & w5 & c5 & c6 & -> & -> & (x & -> & Hx & ->)
      & grp & w6 & c7 & c8 & -> & -> & (? & -> & ? & ? & ->) & Ho).
    apply Ascii.eqb_eq in Hx as ->.
    assert (exists o, (forall a, o = Some a -> a <> [] /\ forallb (none_of "#@.") a = true) /\
      w6 = (match o with Some a => "@"%char :: a | None => [] end) /\
      c8 = (match o with Some a => [("organization", a)] | None => [] end)) as (o & ? & -> & ->).
    { destruct Ho as [(? & o & ? & ? & -> & -> & (x & -> & Hx & ->) & ? & -> & ? & ? & ->)|[-> ->]].
      - apply Ascii.eqb_eq in Hx as ->. exists (Some o). naive_solver.
      - by exists None. }
    destruct Hae as [(ae & ? & ? & ? & -> & -> & (? & -> & ? & ? & ->) & (x & -> & Hx & ->))|[-> ->]].
    + apply Ascii.eqb_eq in Hx as ->. exists (Some ae), svc, grp, o. naive_solver.
    + exists None, svc, grp, o. naive_solver.
  - intros (ae & svc & grp & o & Hae & [? ?] & [? ?] & Ho & -> & ->).
    eexists _, _, _, _. split_and!; [done..| |].
    { destruct ae as [a|]; [left|by right]. destruct (Hae a eq_refl).
      exists a, ["#"%char], [("application_environment", a)], [].
      split_and!; [done..| |]; [by exists []|by exists "#"%char]. }
    eexists svc, _, [("service", svc)], _. split_and!; [done..| |]; [by exists []|].
    eexists ["."%char], _, [], _. split_and!; [done..| |]; [by exists "."%char|].
    eexists grp, _, [("group", grp)], _. split_and!; [done..| |]; [by exists []|].
    destruct o as [a|]; [left|by right]. destruct (Ho a eq_refl).
    exists ["@"%char], a, [], [("organization", a)].
    split_and!; [done..| |]; [by exists "@"%char|by exists []].
Qed.

Lemma ae_text_inj app env app' env' :
  token "#@." app -> token "#@." env -> token "#@." app' -> token "#@." env' ->
  ae_text app env = ae_text app' env' -> app = app' /\ env = env'.
Proof.
  intros [_ H1] _ [_ H2] _ Heq. unfold ae_text in Heq.
  by apply cut_unique in Heq; [|not_in_token..].
Qed.

Lemma sg_tail_inj grp o grp' o' :
  token "#@." grp -> token "#@." grp' ->
  (grp ++ match o with Some a => "@"%char :: a | None => [] end) =
  (grp' ++ match o' with Some a => "@"%char :: a | None => [] end) -> grp = grp' /\ o = o'.
Proof.
  intros [_ H1] [_ H2] Heq.
  assert ("@"%char ∉ grp) by not_in_token.
  assert ("@"%char ∉ grp') by not_in_token.
  destruct o as [a|], o' as [a'|]; rewrite ?app_nil_r in Heq; subst; try done.
  - apply cut_unique in Heq as [-> ->]; done.
  - set_solver.
  - set_solver.
Qed.

Lemma sg_text_inj ae svc grp o ae' svc' grp' o' :
  (forall a, ae = Some a -> token "#@" a) -> token "#@." svc -> token "#@." grp ->
  (forall a, ae' = Some a -> token "#@" a) -> token "#@." svc' -> token "#@." grp' ->
  (forall a, o = Some a -> token "#@." a) -> (forall a, o' = Some a -> token "#@." a) ->
  sg_text ae svc grp o = sg_text ae' svc' grp' o' ->
  ae = ae' /\ svc = svc' /\ grp = grp' /\ o = o'.
Proof.
  intros Hae Hs Hg Hae' Hs' Hg' Ho Ho' Heq. unfold sg_text in Heq.
  set (t := svc ++ "."%char :: grp ++ _) in Heq. set (t' := svc' ++ "."%char :: grp' ++ _) in Heq.
  assert (Htail : forall svc grp o, token "#@." svc -> token "#@." grp ->
    (forall a : chars, o = Some a -> token "#@." a) ->
    "#"%char ∉ svc ++ "."%char :: grp ++ match o with Some a => "@"%char :: a | None => [] end).
  { intros s g [a|] [_ H1] [_ H2] H3; [destruct (H3 a eq_refl) as [_ H4]|];
      rewrite elem_of_app, elem_of_cons, elem_of_app, ?elem_of_cons, ?elem_of_nil;
      intros Hin; destruct_or!; try done;
      by (revert Hin; not_in_token). }
  assert (ae = ae' /\ t = t') as [<- Ht].
  { destruct ae as [a|], ae' as [a'|].
    - rewrite <- !app_assoc in Heq. cbn in Heq.
      destruct (Hae a eq_refl), (Hae' a' eq_refl).
      apply cut_unique in Heq as [-> ->]; [done|not_in_token..].
    - exfalso. apply (Htail svc' grp' o'); [done..|]. fold t'. cbn in Heq.
      rewrite <- Heq. set_solver.
    - exfalso. apply (Htail svc grp o); [done..|]. fold t. cbn in Heq.
      rewrite Heq. set_solver.
    - done. }
  unfold t, t' in Ht. destruct Hs as [? Hs], Hs' as [? Hs'].
  apply cut_unique in Ht as [-> Ht]; [|not_in_token..].
  apply sg_tail_inj in Ht as [-> ->]; done.
Qed.

(** The captures of the two patterns, for every engine. *)
Lemma ae_captures `{!RegexEngine} s c :
  captures AE_FROM_STR_RE s = Some c <->
  exists app env, token "#@." app /\ token "#@." env /\
    to_chars s = ae_text app env /\ c = ae_caps app env.
Proof.
  rewrite captures_leftmost_first. unfold AE_FROM_STR_RE.
  rewrite search_anchored; [apply ae_body_match|].
  intros w w' d d' (a & e & ? & ? & -> & ->)%ae_body_match
    (a' & e' & ? & ? & -> & ->)%ae_body_match Heq.
  by apply ae_text_inj in Heq as [-> ->].
Qed.

Lemma sg_captures `{!RegexEngine} s c :
  captures SG_FROM_STR_RE s = Some c <->
  exists ae svc grp o, (forall a, ae = Some a -> token "#@" a) /\ token "#@." svc /\
    token "#@." grp /\ (forall a, o = Some a -> token "#@." a) /\
    to_chars s = sg_text ae svc grp o /\ c = sg_caps ae svc grp o.
Proof.
  rewrite captures_leftmost_first. unfold SG_FROM_STR_RE.
  rewrite search_anchored; [apply sg_body_match|].
  intros w w' d d' (ae & s1 & g & o & ? & ? & ? & ? & -> & ->)%sg_body_match
    (ae' & s1' & g' & o' & ? & ? & ? & ? & -> & ->)%sg_body_match Heq.
  by apply sg_text_inj in Heq as (-> & -> & -> & ->).
Qed.

(** The groups of a parsed service group, by name. *)
Lemma sg_caps_names ae svc grp o :
  name "application_environment" (sg_caps ae svc grp o) = of_chars <$> ae /\
  name "service" (sg_caps ae svc grp o) = Some (of_chars svc) /\
  name "group" (sg_caps ae svc grp o) = Some (of_chars grp) /\
  name "organization" (sg_caps ae svc grp o) = of_chars <$> o.
Proof. by destruct ae, o. Qed.

Lemma ae_text_format app env : of_chars (ae_text app env) =
  ApplicationEnvironment.format (of_chars app) (of_chars env).
Proof. unfold ae_text. by rewrite of_chars_app. Qed.

Lemma sg_text_format ae svc grp o :
  of_chars (sg_text ae svc grp o) =
  ServiceGroup.format (ApplicationEnvironment.mk ∘ of_chars <$> ae) (of_chars svc) (of_chars grp)
    (of_chars <$> o).
Proof.
  unfold sg_text, ServiceGroup.format.
  destruct ae as [a|], o as [b|]; cbn [fmap option_fmap option_map];
    rewrite ?app_nil_r, <- ?app_assoc, !of_chars_app; cbn; by rewrite ?of_chars_app.
Qed.

(** A valid name: a non-empty string without the separators. *)
Definition valid_name (bad s : string) : Prop := token bad (to_chars s).

#[export] Instance valid_name_dec bad s : Decision (valid_name bad s).
Proof. unfold valid_name, token. apply _. Defined.

Section with_engine.
  Context `{!RegexEngine}.

Lemma ae_from_str_ok v ae :
  ApplicationEnvironment.from_str v = Ok ae <->
  ApplicationEnvironment.as_str ae = v /\ exists app env,
    valid_name "#@." app /\ valid_name "#@." env /\ v = ApplicationEnvironment.format app env.
Proof.
  unfold ApplicationEnvironment.from_str. split.
  - destruct (captures _ _) as [c|] eqn:Hc; [|done].
    apply ae_captures in Hc as (app & env & ? & ? & Hv & ->). cbn. intros [= <-].
    rewrite <- (of_to_chars v), Hv, ae_text_format. split; [done|].
    exists (of_chars app), (of_chars env). unfold valid_name. by rewrite !to_of_chars.
  - intros (<- & app & env & Ha & He & Hv). destruct ae as [s]; cbn in *. subst s.
    assert (captures AE_FROM_STR_RE (ApplicationEnvironment.format app env) =
      Some (ae_caps (to_chars app) (to_chars env))) as ->.
    { apply ae_captures. exists (to_chars app), (to_chars env). split_and!; [done..| |done].
      by rewrite <- (to_of_chars (ae_text _ _)), ae_text_format, !of_to_chars. }
    cbn. by rewrite !of_to_chars.
Qed.

Lemma sg_captures_format (ae : option string) svc grp o :
  (forall a, ae = Some a -> valid_name "#@" a) -> valid_name "#@." svc -> valid_name "#@." grp ->
  (forall a, o = Some a -> valid_name "#@." a) ->
  captures SG_FROM_STR_RE (ServiceGroup.format (ApplicationEnvironment.mk <$> ae) svc grp o) =
  Some (sg_caps (to_chars <$> ae) (to_chars svc) (to_chars grp) (to_chars <$> o)).
Proof.
  intros Hae Hs Hg Ho. apply sg_captures.
  exists (to_chars <$> ae), (to_chars svc), (to_chars grp), (to_chars <$> o).
  split_and!; try done.
  - intros a. destruct ae; naive_solver.
  - intros a. destruct o; naive_solver.
  - rewrite <- (to_of_chars (sg_text _ _ _ _)), sg_text_format, !of_to_chars.
    by destruct ae, o; cbn; rewrite ?of_to_chars.
Qed.

Lemma sg_captures_inv v c :
  captures SG_FROM_STR_RE v = Some c -> exists ae svc grp o,
    (forall a, ae = Some a -> valid_name "#@" a) /\ valid_name "#@." svc /\
    valid_name "#@." grp /\ (forall a, o = Some a -> valid_name "#@." a) /\
    v = ServiceGroup.format (ApplicationEnvironment.mk <$> ae) svc grp o /\
    c = sg_caps (to_chars <$> ae) (to_chars svc) (to_chars grp) (to_chars <$> o).
Proof.
  intros (ae & svc & grp & o & ? & ? & ? & ? & Hv & ->)%sg_captures.
  exists (of_chars <$> ae), (of_chars svc), (of_chars grp), (of_chars <$> o).
  unfold valid_name. rewrite !to_of_chars, <- (of_to_chars v), Hv, sg_text_format.
  split_and!; try done.
  - intros a. destruct ae; cbn; [|done]. intros [= <-]. rewrite to_of_chars. auto.
  - intros a. destruct o; cbn; [|done]. intros [= <-]. rewrite to_of_chars. auto.
  - by destruct ae, o.
  - by destruct ae, o; cbn; rewrite ?to_of_chars.
Qed.

(** The names inside a captured service group are those of its captures. *)
Lemma sg_names (ae : option string) svc grp o :
  name "application_environment" (sg_caps (to_chars <$> ae) (to_chars svc) (to_chars grp) (to_chars <$> o)) = ae /\
  name "service" (sg_caps (to_chars <$> ae) (to_chars svc) (to_chars grp) (to_chars <$> o)) = Some svc /\
  name "group" (sg_caps (to_chars <$> ae) (to_chars svc) (to_chars grp) (to_chars <$> o)) = Some grp /\
  name "organization" (sg_caps (to_chars <$> ae) (to_chars svc) (to_chars grp) (to_chars <$> o)) = o.
Proof.
  destruct (sg_caps_names (to_chars <$> ae) (to_chars svc) (to_chars grp) (to_chars <$> o))
    as (-> & -> & -> & ->).
  by destruct ae, o; cbn; rewrite !of_to_chars.
Qed.

(** The accessors of a service group built from valid names. *)
Definition reads_as (sg : ServiceGroup.t) (ae : option ApplicationEnvironment.t)
    (svc grp : string) (o : option string) : Prop :=
  ServiceGroup.application_environment sg = Return ae /\
  ServiceGroup.service sg = Return svc /\ ServiceGroup.group sg = Return grp /\
  ServiceGroup.org sg = Return o.

(** The options that are absent or valid. *)
Definition valid_org (o : option string) : Prop := forall a, o = Some a -> valid_name "#@." a.
Definition valid_app_env (ae : option ApplicationEnvironment.t) : Prop :=
  forall a, ae = Some a -> ApplicationEnvironment.from_str (ApplicationEnvironment.as_str a) = Ok a.

Lemma valid_name_weaken a : valid_name "#@." a -> valid_name "#@" a.
Proof.
  intros [? Ha]. split; [done|]. rewrite forallb_forall in *. intros x Hx. apply Ha in Hx.
  unfold none_of, one_of in *; cbn in *. by repeat destruct (Ascii.eqb _ _).
Qed.

Lemma valid_app_env_name ae a :
  ApplicationEnvironment.from_str a = Ok ae -> valid_name "#@" a.
Proof.
  intros (_ & app & env & [? Ha] & [? He] & ->)%ae_from_str_ok. unfold valid_name, token.
  unfold ApplicationEnvironment.format. rewrite to_chars_app. split.
  { by destruct (to_chars app). }
  change (to_chars ("." +:+ env)) with ("."%char :: to_chars env).
  destruct (valid_name_weaken app), (valid_name_weaken env); [done..|].
  rewrite forallb_app. cbn. by apply andb_true_intro.
Qed.

Lemma from_str_parses ae svc grp o :
  valid_app_env ae -> valid_name "#@." svc -> valid_name "#@." grp -> valid_org o ->
  ServiceGroup.from_str (ServiceGroup.format ae svc grp o) =
    Ok (ServiceGroup.mk (ServiceGroup.format ae svc grp o)) /\
  reads_as (ServiceGroup.mk (ServiceGroup.format ae svc grp o)) ae svc grp o.
Proof.
  intros Hae Hs Hg Ho.
  set (a := ApplicationEnvironment.as_str <$> ae).
  assert (ae = ApplicationEnvironment.mk <$> a) as Ea by (by destruct ae as [[]|]).
  assert (Ha : forall x, a = Some x -> ApplicationEnvironment.from_str x =
                                       Ok (ApplicationEnvironment.mk x)).
  { subst a. intros x Hx. destruct ae as [[y]|]; [|done]. injection Hx as <-. exact (Hae _ eq_refl). }
  assert (Hcap := sg_captures_format a svc grp o
    (fun x Hx => valid_app_env_name _ _ (Ha x Hx)) Hs Hg Ho).
  destruct (sg_names a svc grp o) as (N1 & N2 & N3 & N4). rewrite Ea in *.
  unfold reads_as, ServiceGroup.from_str, ServiceGroup.application_environment,
    ServiceGroup.service, ServiceGroup.group, ServiceGroup.org. cbn [ServiceGroup.as_str].
  rewrite Hcap. cbn [expect mbind outcome_bind]. rewrite N1, N2, N3, N4.
  destruct a as [x|]; cbn; [rewrite (Ha x eq_refl)|]; done.
Qed.

Lemma from_str_sound v g :
  ServiceGroup.from_str v = Ok g -> ServiceGroup.as_str g = v /\ exists ae svc grp o,
    valid_app_env ae /\ valid_name "#@." svc /\ valid_name "#@." grp /\ valid_org o /\
    v = ServiceGroup.format ae svc grp o.
Proof.
  unfold ServiceGroup.from_str.
  destruct (captures _ _) as [c|] eqn:Hc; [|done].
  apply sg_captures_inv in Hc as (ae & svc & grp & o & ? & ? & ? & ? & -> & ->).
  destruct (sg_names ae svc grp o) as (-> & -> & -> & ->).
  destruct ae as [a|]; cbn.
  - destruct (ApplicationEnvironment.from_str a) as [ae|] eqn:Ha; [|done]. cbn. intros [= <-].
    assert (ae = ApplicationEnvironment.mk a) as ->.
    { apply ae_from_str_ok in Ha as [? _]. by destruct ae; cbn in *; subst. }
    split; [done|]. exists (Some (ApplicationEnvironment.mk a)), svc, grp, o.
    split_and!; try done. by intros ? [= <-].
  - intros [= <-]. split; [done|]. by exists None, svc, grp, o.
Qed.

End with_engine.

(** ** Properties *)

(** Printing and parsing a service group are inverse: for an optional
    application environment that parses and valid service, group and
    organization names, [ServiceGroup::from_str] accepts what
    [ServiceGroup::format] prints, stores exactly that text, and every accessor
    returns the component it was printed from, whatever leftmost-first engine
    runs the pattern. *)
Theorem service_group_round_trip `{!RegexEngine} ae svc grp o :
  valid_app_env ae -> valid_name "#@." svc -> valid_name "#@." grp -> valid_org o ->
  ServiceGroup.from_str (ServiceGroup.format ae svc grp o) =
    Ok (ServiceGroup.mk (ServiceGroup.format ae svc grp o)) /\
  reads_as (ServiceGroup.mk (ServiceGroup.format ae svc grp o)) ae svc grp o.
Proof. apply from_str_parses. Qed.

Lemma service_group_round_trip_witness :
  let RE := reference_engine in
  let ae := Some (ApplicationEnvironment.mk "oz.prod") in
  ServiceGroup.from_str "oz.prod#redis.default@acme" =
    Ok (ServiceGroup.mk "oz.prod#redis.default@acme") /\
  reads_as (ServiceGroup.mk "oz.prod#redis.default@acme") ae "redis" "default" (Some "acme").
Proof.
  intros RE ae.
  apply (service_group_round_trip ae "redis" "default" (Some "acme")).
  - intros a [= <-]. vm_compute. reflexivity.
  - split; [discriminate|reflexivity].
  - split; [discriminate|reflexivity].
  - intros a [= <-]. split; [discriminate|reflexivity].
Defined.

(** A string that [ServiceGroup::from_str] accepts is stored unchanged and
    none of the accessors, all of which unwrap the captures of the stored
    string, can panic on it; printing what they return gives the string back. *)
Theorem parsed_service_group_is_readable `{!RegexEngine} v g :
  ServiceGroup.from_str v = Ok g ->
  ServiceGroup.as_str g = v /\ exists ae svc grp o,
    reads_as g ae svc grp o /\ ServiceGroup.format ae svc grp o = v.
Proof.
  intros (Hg & ae & svc & grp & o & Hae & Hs & Hgr & Ho & ->)%from_str_sound.
  split; [done|]. exists ae, svc, grp, o. split; [|done].
  destruct g as [g]; cbn in Hg; subst g. by apply from_str_parses.
Qed.

Lemma parsed_service_group_is_readable_witness :
  let RE := reference_engine in
  let g := ServiceGroup.mk "redis.default@acme" in
  ServiceGroup.as_str g = "redis.default@acme" /\ exists ae svc grp o,
    reads_as g ae svc grp o /\ ServiceGroup.format ae svc grp o = "redis.default@acme".
Proof. intros RE g. apply (parsed_service_group_is_readable "redis.default@acme" g).
  vm_compute. reflexivity. Defined.

(** [ServiceGroup::validate] is weaker than [ServiceGroup::from_str]: it
    accepts an application environment without a [.], a text [from_str]
    rejects, and a [ServiceGroup] holding such a text panics when its
    application environment is read. *)
Theorem validate_accepts_unparseable `{!RegexEngine} a svc grp :
  valid_name "#@." a -> valid_name "#@." svc -> valid_name "#@." grp ->
  let v := ServiceGroup.format (Some (ApplicationEnvironment.mk a)) svc grp None in
  ServiceGroup.validate v = Ok tt /\
  ServiceGroup.from_str v = Err (InvalidApplicationEnvironment a) /\
  ServiceGroup.application_environment (ServiceGroup.mk v) =
    Panic "ApplicationEnvironment is valid and parses.".
Proof.
  intros Ha Hs Hg v.
  assert (Hae : ApplicationEnvironment.from_str a = Err (InvalidApplicationEnvironment a)).
  { unfold ApplicationEnvironment.from_str. destruct (captures _ _) as [c|] eqn:Hc; [|done].
    exfalso. apply ae_captures in Hc as (app & env & _ & _ & Ht & _).
    destruct Ha as [_ Ha]. apply (none_of_not_in "#@." ".") in Ha; [|done].
    apply Ha. rewrite Ht. unfold ae_text. set_solver. }
  assert (Hw : forall x, Some a = Some x -> valid_name "#@" x).
  { intros x [= <-]. by apply valid_name_weaken. }
  assert (Hcap := sg_captures_format (Some a) svc grp None Hw Hs Hg ltac:(done)).
  destruct (sg_names (Some a) svc grp None) as (N1 & N2 & N3 & N4).
  unfold ServiceGroup.validate, ServiceGroup.from_str, ServiceGroup.application_environment.
  cbn [ServiceGroup.as_str]. unfold v. cbn [fmap option_fmap option_map] in *.
  rewrite Hcap. cbn [expect mbind outcome_bind]. rewrite N1, N2, N3. cbn. by rewrite Hae.
Qed.

Lemma validate_accepts_unparseable_witness :
  let RE := reference_engine in
  ServiceGroup.validate "foo#svc.grp" = Ok tt /\
  ServiceGroup.from_str "foo#svc.grp" = Err (InvalidApplicationEnvironment "foo") /\
  ServiceGroup.application_environment (ServiceGroup.mk "foo#svc.grp") =
    Panic "ApplicationEnvironment is valid and parses.".
Proof.
  intros RE. apply (validate_accepts_unparseable "foo" "svc" "grp");
    (split; [discriminate|reflexivity]).
Defined.
