(* ===== verification/Ident.v ===== *)
(** * Package identifiers and version ordering

    Models [components/core/src/package/ident.rs]: the identifier record, its
    printing, parsing and matching, the version comparison [version_sort] and
    the two orders built on it ([PartialOrd] and [Ord]). *)

From S2P Require Import Prelude Regex ServiceGroup.
From Stdlib Require Import Ascii.
Local Open Scope string_scope.
Local Open Scope list_scope.

(** ** Standard-library functions the module uses *)

(** [str::split] on one character: always at least one piece. *)
Fixpoint split_chars (sep : ascii) (s : chars) : list chars :=
  match s with
  | [] => [[]]
  | c :: t =>
      match split_chars sep t with
      | [] => [[]]
      | w :: ws => if Ascii.eqb c sep then [] :: w :: ws else (c :: w) :: ws
      end
  end.

Definition split (sep : ascii) (s : string) : list string := of_chars <$> split_chars sep (to_chars s).

(** [str::parse::<u64>]: an optional [+], at least one digit, no overflow. *)
Definition digit (c : ascii) : option Z :=
  if in_range "0" "9" c then Some (Z.of_N (N_of_ascii c) - 48)%Z else None.

Fixpoint parse_digits (acc : Z) (s : chars) : result core_error Z :=
  match s with
  | [] => Ok acc
  | c :: t =>
      match digit c with
      | None => Err ParseIntError
      | Some d =>
          let acc' := (acc * 10 + d)%Z in
          if bool_decide (acc' < u64_modulus)%Z then parse_digits acc' t else Err ParseIntError
      end
  end.

Definition parse_u64 (s : string) : result core_error Z :=
  match to_chars s with
  | [] => Err ParseIntError
  | c :: t =>
      if Ascii.eqb c "+" then match t with [] => Err ParseIntError | _ => parse_digits 0 t end
      else parse_digits 0 (c :: t)
  end.

(** [Option<String>::cmp]: [None] is the least. *)
Definition option_cmp (a b : option string) : comparison :=
  match a, b with
  | None, None => Eq
  | None, Some _ => Lt
  | Some _, None => Gt
  | Some x, Some y => String.compare x y
  end.

(** ** [PackageIdent] *)
Module PackageIdent.
Record t := mk {
  origin : string;
  name : string;
  version : option string;
  release : option string;
}.

#[global] Instance t_eq_dec : EqDecision t.
Proof. solve_decision. Defined.

Definition default : t := mk "" "" None None.

(** [Identifiable] *)
Definition fully_qualified (self : t) : bool :=
  match version self, release self with Some _, Some _ => true | _, _ => false end.

Definition NAME_RE : re :=
  RSeq RBegin (RSeq (RPlus (fun c =>
    in_range "A" "Z" c || in_range "a" "z" c || in_range "0" "9" c || one_of "_-" c)) REnd).

Definition valid `{!RegexEngine} (self : t) : bool := is_match NAME_RE (name self).

Definition satisfies (self other : t) : bool :=
  if decide (origin self <> origin other \/ name self <> name other) then false
  else
    match version self, version other with
    | Some _, None => true
    | v, w =>
        if bool_decide (is_Some v) && negb (bool_decide (v = w)) then false
        else
          match release self, release other with
          | Some _, None => true
          | r, q => if bool_decide (is_Some r) && negb (bool_decide (r = q)) then false else true
          end
    end.

Definition archive_name_impl (self : t) (architecture platform : string) : option string :=
  match version self, release self with
  | Some v, Some r =>
      Some (origin self +:+ "-" +:+ name self +:+ "-" +:+ v +:+ "-" +:+ r +:+ "-" +:+
            architecture +:+ "-" +:+ platform +:+ ".hart")
  | _, _ => None
  end.

(** [Display] *)
Definition to_string (self : t) : string :=
  match version self, release self with
  | Some v, Some r => origin self +:+ "/" +:+ name self +:+ "/" +:+ v +:+ "/" +:+ r
  | Some v, None => origin self +:+ "/" +:+ name self +:+ "/" +:+ v
  | None, _ => origin self +:+ "/" +:+ name self
  end.

Definition from_str (value : string) : result core_error t :=
  match split "/" value with
  | [o; n] => Ok (mk o n None None)
  | [o; n; v] => Ok (mk o n (Some v) None)
  | [o; n; v; r] => Ok (mk o n (Some v) (Some r))
  | _ => Err (InvalidPackageIdent value)
  end.
End PackageIdent.

(** ** Versions *)

(** [([\d\.]+)(.+)?]: the groups are numbered. *)
Definition VERSION_RE : re :=
  RSeq (RCap "1" (RPlus (fun c => in_range "0" "9" c || is_char "." c)))
       (ROpt (RCap "2" (RPlus (none_of (String "010" EmptyString))))).

Definition split_version `{!RegexEngine} (version : string)
    : outcome (result core_error (list string * option string)) :=
  match captures VERSION_RE version with
  | None => Return (Err (InvalidPackageIdent version))
  | Some caps =>
      version_number ← expect "unwrap" (Regex.name "1" caps);
      let extension :=
        match Regex.name "2" caps with
        | Some (String c estr) =>
            if bool_decide (estr <> EmptyString) && Ascii.eqb c "-" then Some estr
            else Some (String c estr)
        | e => e
        end in
      Return (Ok (split "." version_number, extension))
  end.

(** The loop of [version_sort]: both iterators advance together, an exhausted
    one yields 0, the loop ends when both are exhausted. *)
Fixpoint version_loop (a b : list string) : result core_error comparison :=
  match a with
  | [] =>
      (fix rest b :=
         match b with
         | [] => Ok Eq
         | y :: b => b_num ← parse_u64 y;
             match Z.compare 0 b_num with Eq => rest b | o => Ok o end
         end) b
  | x :: a =>
      a_num ← parse_u64 x;
      match b with
      | [] => match Z.compare a_num 0 with Eq => version_loop a [] | o => Ok o end
      | y :: b => b_num ← parse_u64 y;
          match Z.compare a_num b_num with Eq => version_loop a b | o => Ok o end
      end
  end.

Definition compare_extensions (a b : option string) : comparison :=
  match a, b with
  | Some _, None => Lt
  | None, Some _ => Gt
  | None, None => Eq
  | Some a, Some b => String.compare a b
  end.

Definition version_sort `{!RegexEngine} (a_version b_version : string)
    : outcome (result core_error comparison) :=
  a ← split_version a_version;
  match a with
  | Err e => Return (Err e)
  | Ok (a_parts, a_extension) =>
      b ← split_version b_version;
      match b with
      | Err e => Return (Err e)
      | Ok (b_parts, b_extension) =>
          Return (o ← version_loop a_parts b_parts;
                  match o with
                  | Eq => Ok (compare_extensions a_extension b_extension)
                  | o => Ok o
                  end)
      end
  end.

(** [PartialOrd::partial_cmp] *)
Definition partial_cmp `{!RegexEngine} (self other : PackageIdent.t) : outcome (option comparison) :=
  if decide (PackageIdent.name self <> PackageIdent.name other) then Return None
  else
    match PackageIdent.version self, PackageIdent.version other with
    | None, None => Return None
    | None, Some _ => Return (Some Lt)
    | Some _, None => Return (Some Gt)
    | Some v, Some w =>
        match PackageIdent.release self, PackageIdent.release other with
        | None, None => Return None
        | None, Some _ => Return (Some Lt)
        | Some _, None => Return (Some Gt)
        | r, q =>
            s ← version_sort v w;
            Return
              match s with
              | Ok Gt => Some Gt
              | Ok Lt => Some Lt
              | Ok Eq => Some (option_cmp r q)
              | Err _ =>
                  match String.compare v w with
                  | Eq => Some (option_cmp r q)
                  | o => Some o
                  end
              end
        end
    end.

(** [a < b], as [PartialOrd] provides it. *)
Definition ident_lt `{!RegexEngine} (a b : PackageIdent.t) : outcome bool :=
  c ← partial_cmp a b;
  Return (match c with Some Lt => true | _ => false end).

(** [Ord::cmp] *)
Definition cmp `{!RegexEngine} (self other : PackageIdent.t) : outcome comparison :=
  if decide (PackageIdent.name self <> PackageIdent.name other)
  then Return (String.compare (PackageIdent.name self) (PackageIdent.name other))
  else
    v ← expect "unwrap" (PackageIdent.version self);
    w ← expect "unwrap" (PackageIdent.version other);
    s ← version_sort v w;
    Return
      match s with
      | Ok Gt => Gt
      | Ok Lt => Lt
      | Ok Eq => option_cmp (PackageIdent.release self) (PackageIdent.release other)
      | Err _ => Lt
      end.

Definition ORIGIN_NAME_RE : re :=
  RSeq RBegin (RSeq (RSeq (ROne (fun c => in_range "a" "z" c || in_range "0" "9" c))
    (RStar (fun c => in_range "a" "z" c || in_range "0" "9" c || one_of "_-" c))) REnd).

Definition is_valid_origin_name `{!RegexEngine} (origin : string) : bool :=
  bool_decide (length (to_chars origin) <= 255) && is_match ORIGIN_NAME_RE origin.

(** ** Splitting and joining *)

Lemma split_chars_cons sep s : exists w ws, split_chars sep s = w :: ws.
Proof. destruct s as [|c s]; cbn; [eauto|]. destruct (split_chars sep s), (Ascii.eqb c sep); eauto. Qed.

Lemma split_chars_sep sep w rest :
  sep ∉ w -> split_chars sep (w ++ sep :: rest) = w :: split_chars sep rest.
Proof.
  induction w as [|c w IH]; intros Hw; cbn.
  - rewrite Ascii.eqb_refl. by destruct (split_chars_cons sep rest) as (x & xs & ->).
  - rewrite not_elem_of_cons in Hw. destruct Hw as [Hc Hw]. rewrite IH by done.
    by destruct (Ascii.eqb_spec c sep) as [->|].
Qed.

Lemma split_chars_last sep w : sep ∉ w -> split_chars sep w = [w].
Proof.
  induction w as [|c w IH]; intros Hw; cbn; [done|].
  rewrite not_elem_of_cons in Hw. destruct Hw as [Hc Hw]. rewrite IH by done.
  by destruct (Ascii.eqb_spec c sep) as [->|].
Qed.

Fixpoint join_chars (sep : ascii) (ws : list chars) : chars :=
  match ws with
  | [] => []
  | [w] => w
  | w :: ws => w ++ sep :: join_chars sep ws
  end.

Lemma join_split_chars sep s : join_chars sep (split_chars sep s) = s.
Proof.
  induction s as [|c s IH]; [done|]. cbn.
  destruct (split_chars_cons sep s) as (w & ws & E). rewrite E in *.
  destruct (Ascii.eqb_spec c sep) as [->|]; cbn in *; [by rewrite IH|].
  destruct ws; cbn in *; by rewrite IH.
Qed.

(** ** Comparisons *)

Lemma parse_digits_err acc s e : parse_digits acc s = Err e -> e = ParseIntError.
Proof. revert acc; induction s as [|c s IH]; intros acc; cbn; [done|]. split_cases; eauto; congruence. Qed.

Lemma parse_u64_err s e : parse_u64 s = Err e -> e = ParseIntError.
Proof.
  unfold parse_u64. destruct (to_chars s) as [|c [|d t]]; destruct (Ascii.eqb _ _) || idtac;
    try congruence; apply parse_digits_err.
Qed.

(** The number a list of parts yields next, and the loop by whole iterations. *)
Definition next_num (l : list string) : result core_error Z :=
  match l with [] => Ok 0%Z | x :: _ => parse_u64 x end.

Lemma next_num_err l e : next_num l = Err e -> e = ParseIntError.
Proof. destruct l; [done|apply parse_u64_err]. Qed.

Lemma version_loop_eq a b :
  version_loop a b =
  match a, b with
  | [], [] => Ok Eq
  | _, _ => x ← next_num a; y ← next_num b;
      match Z.compare x y with Eq => version_loop (tail a) (tail b) | o => Ok o end
  end.
Proof. by destruct a, b. Qed.

Lemma version_loop_flip a b :
  version_loop b a = match version_loop a b with Ok o => Ok (CompOpp o) | Err e => Err e end.
Proof.
  remember (length a + length b) as n eqn:Hn. revert a b Hn.
  induction (lt_wf n) as [n _ IH]; intros a b ->.
  rewrite (version_loop_eq a b), (version_loop_eq b a).
  destruct (decide (a = [] /\ b = [])) as [[-> ->]|Hne]; [done|].
  assert (Hlt : length (tail a) + length (tail b) < length a + length b)
    by (destruct a, b; cbn; [by destruct Hne|lia..]).
  specialize (IH _ Hlt (tail a) (tail b) eq_refl).
  destruct (next_num a) as [x|e] eqn:Ha, (next_num b) as [y|e'] eqn:Hb;
    repeat match goal with H : next_num _ = Err _ |- _ => apply next_num_err in H as -> end;
    [|by destruct a, b..].
  destruct a, b; cbn in *; [by destruct Hne|..]; rewrite (Z.compare_antisym x y);
    destruct (Z.compare x y); cbn; congruence.
Qed.

(** Lexicographic composition ([Ordering::then]); on comparisons that are not
    [Gt] it is also the comparison of the ends of a chain. *)
Definition cmp_then (o1 o2 : comparison) : comparison := match o1 with Eq => o2 | o => o end.

Lemma string_compare_trans a b c :
  String.compare a b <> Gt -> String.compare b c <> Gt ->
  String.compare a c = cmp_then (String.compare a b) (String.compare b c).
Proof.
  assert (Hle : forall x y, String.compare x y <> Gt <-> String.le x y).
  { intros x y. unfold String.le, String.leb. by destruct (String.compare x y). }
  intros H1 H2. destruct (String.compare a b) eqn:E1; [|cbn|done].
  - by apply String.compare_eq_iff in E1 as ->.
  - destruct (String.compare a c) eqn:E; [|done|].
    + apply String.compare_eq_iff in E as ->. by rewrite String.compare_antisym, E1 in H2.
    + exfalso. apply (proj2 (Hle a c)); [|done].
      transitivity b; apply Hle; congruence.
Qed.

Lemma compare_extensions_flip a b : compare_extensions b a = CompOpp (compare_extensions a b).
Proof. destruct a, b; try done. apply String.compare_antisym. Qed.

Lemma compare_extensions_trans a b c :
  compare_extensions a b <> Gt -> compare_extensions b c <> Gt ->
  compare_extensions a c = cmp_then (compare_extensions a b) (compare_extensions b c).
Proof.
  destruct a, b, c; try done; cbn; try apply string_compare_trans.
  all: by destruct (String.compare _ _).
Qed.

Lemma version_loop_trans a b c o1 o2 :
  version_loop a b = Ok o1 -> version_loop b c = Ok o2 -> o1 <> Gt -> o2 <> Gt ->
  version_loop a c = Ok (cmp_then o1 o2).
Proof.
  remember (length a + length b + length c) as n eqn:Hn. revert a b c Hn.
  induction (lt_wf n) as [n _ IH]; intros a b c -> H1 H2 Ho1 Ho2.
  destruct (decide (length a + length b + length c = 0)) as [E|E].
  { destruct a, b, c; cbn in E; try lia. by simplify_eq/=. }
  assert (Hlt : length (tail a) + length (tail b) + length (tail c) <
    length a + length b + length c) by (destruct a, b, c; cbn in *; lia).
  specialize (IH _ Hlt (tail a) (tail b) (tail c) eq_refl).
  assert (Hstep : forall a b o, version_loop a b = Ok o -> exists x y,
    next_num a = Ok x /\ next_num b = Ok y /\
    Ok o = match Z.compare x y with Eq => version_loop (tail a) (tail b) | o => Ok o end).
  { clear. intros a b o. rewrite version_loop_eq. destruct a, b; cbn.
    - intros [= <-]. by exists 0%Z, 0%Z.
    - destruct (parse_u64 _) as [y|]; [|done]. cbn. naive_solver.
    - destruct (parse_u64 _) as [x|]; [|done]. cbn. naive_solver.
    - destruct (parse_u64 s) as [x|]; [|done]. cbn.
      destruct (parse_u64 s0) as [y|]; [|done]. cbn. naive_solver. }
  apply Hstep in H1 as (x & y & Hx & Hy & H1). apply Hstep in H2 as (y' & z & Hy' & Hz & H2).
  assert (y' = y) as -> by congruence.
  assert (version_loop a c =
    match Z.compare x z with Eq => version_loop (tail a) (tail c) | o => Ok o end) as ->.
  { rewrite version_loop_eq. destruct a, c; cbn in *; rewrite ?Hx, ?Hz; try done; by simplify_eq. }
  destruct (Z.compare_spec x y), (Z.compare_spec y z); simplify_eq; try done.
  - rewrite Z.compare_refl. by apply IH.
  - destruct (Z.compare_spec y z); try lia. by destruct o1.
  - by destruct (Z.compare_spec x z); try lia.
  - by destruct (Z.compare_spec x z); try lia.
Qed.

Lemma split_chars_no_sep sep s : Forall (fun w => sep ∉ w) (split_chars sep s).
Proof.
  induction s as [|c s IH]; cbn; [repeat constructor; set_solver|].
  destruct (split_chars_cons sep s) as (w & ws & E). rewrite E in *.
  apply Forall_cons in IH as [Hw Hws].
  destruct (Ascii.eqb_spec c sep) as [->|]; repeat constructor; set_solver.
Qed.

Lemma split_join_chars sep ws :
  ws <> [] -> Forall (fun w => sep ∉ w) ws -> split_chars sep (join_chars sep ws) = ws.
Proof.
  induction ws as [|w ws IH]; intros Hne Hf; [done|]. apply Forall_cons in Hf as [Hw Hws].
  destruct ws as [|w' ws]; [by apply split_chars_last|].
  change (join_chars sep (w :: w' :: ws)) with (w ++ sep :: join_chars sep (w' :: ws)).
  rewrite split_chars_sep by done. by rewrite IH.
Qed.

(** [split] cuts a string into the pieces that join back to it. *)
Lemma split_iff sep s ws :
  split sep s = ws <-> ws <> [] /\ Forall (fun w => sep ∉ to_chars w) ws /\
    to_chars s = join_chars sep (to_chars <$> ws).
Proof.
  unfold split. split.
  - intros <-. split_and!.
    + by destruct (split_chars_cons sep (to_chars s)) as (w & ws & ->).
    + apply Forall_fmap. eapply Forall_impl; [apply split_chars_no_sep|].
      intros w. cbn. by rewrite to_of_chars.
    + rewrite <- list_fmap_compose, (list_fmap_ext _ id), list_fmap_id by (intros; apply to_of_chars).
      by rewrite join_split_chars.
  - intros (Hne & Hf & ->). rewrite split_join_chars.
    + rewrite <- list_fmap_compose, (list_fmap_ext _ id), list_fmap_id by (intros; apply of_to_chars). done.
    + by destruct ws.
    + by apply Forall_fmap.
Qed.

(** An identifier that prints without loss: no [/] inside a part, no release
    without a version. *)
Definition no_slash (s : string) : Prop := "/"%char ∉ to_chars s.
Definition printable_ident (i : PackageIdent.t) : Prop :=
  no_slash (PackageIdent.origin i) /\ no_slash (PackageIdent.name i) /\
  (forall v, PackageIdent.version i = Some v -> no_slash v) /\
  (forall r, PackageIdent.release i = Some r -> no_slash r) /\
  (is_Some (PackageIdent.release i) -> is_Some (PackageIdent.version i)).

(** The parts of an identifier in print order. *)
Definition ident_parts (i : PackageIdent.t) : list string :=
  PackageIdent.origin i :: PackageIdent.name i ::
  match PackageIdent.version i, PackageIdent.release i with
  | Some v, Some r => [v; r]
  | Some v, None => [v]
  | None, _ => []
  end.

Lemma to_string_parts i :
  to_chars (PackageIdent.to_string i) = join_chars "/" (to_chars <$> ident_parts i).
Proof.
  unfold PackageIdent.to_string, ident_parts.
  destruct i as [o n [v|] [r|]]; cbn -[to_chars String.append]; by rewrite !to_chars_app.
Qed.

Section with_engine.
  Context `{!RegexEngine}.

(** [version_sort] does not panic: the first group always takes part. *)
Lemma split_version_total v : exists r, split_version v = Return r.
Proof.
  unfold split_version. rewrite captures_leftmost_first.
  destruct (search VERSION_RE v) as [c|] eqn:E; [|eauto].
  apply search_from_sound in E as (b & w & rest & w1 & w2 & c1 & c2 & -> & -> & (c' & -> & _) & _).
  cbn. eauto.
Qed.

Lemma version_sort_spec a b :
  exists ra rb, split_version a = Return ra /\ split_version b = Return rb /\
    version_sort a b = Return
      match ra, rb with
      | Ok (pa, ea), Ok (pb, eb) =>
          match version_loop pa pb with
          | Ok o => Ok (cmp_then o (compare_extensions ea eb))
          | Err e => Err e
          end
      | Err e, _ => Err e
      | _, Err e => Err e
      end.
Proof.
  destruct (split_version_total a) as [ra Ha], (split_version_total b) as [rb Hb].
  exists ra, rb. split_and!; [done..|]. unfold version_sort. rewrite Ha. cbn.
  destruct ra as [[pa ea]|]; [|done]. rewrite Hb. cbn. destruct rb as [[pb eb]|]; [|done].
  by destruct (version_loop pa pb) as [[]|].
Qed.

Lemma partial_cmp_total a b : exists x, partial_cmp a b = Return x.
Proof.
  unfold partial_cmp. case_decide; [eauto|]. destruct (PackageIdent.version a) as [v|], (PackageIdent.version b) as [w|]; eauto.
  destruct (version_sort_spec v w) as (? & ? & _ & _ & ->). cbn.
  destruct (PackageIdent.release a), (PackageIdent.release b); eauto.
Qed.

Lemma ident_lt_total a b : exists c, ident_lt a b = Return c.
Proof. unfold ident_lt. destruct (partial_cmp_total a b) as [x ->]. cbn. by eexists. Qed.

Lemma cmp_then_opp o o' : CompOpp (cmp_then o o') = cmp_then (CompOpp o) (CompOpp o').
Proof. by destruct o. Qed.

Lemma version_sort_flip a b o :
  version_sort a b = Return (Ok o) -> version_sort b a = Return (Ok (CompOpp o)).
Proof.
  destruct (version_sort_spec a b) as (ra & rb & Ha & Hb & ->).
  destruct (version_sort_spec b a) as (rb' & ra' & Hb' & Ha' & ->).
  assert (ra' = ra) as -> by congruence. assert (rb' = rb) as -> by congruence.
  destruct ra as [[pa ea]|], rb as [[pb eb]|]; try done.
  rewrite (version_loop_flip pa pb). destruct (version_loop pa pb) as [o'|]; [|done].
  intros [= <-]. by rewrite cmp_then_opp, compare_extensions_flip.
Qed.

Lemma version_sort_err_flip a b e :
  version_sort a b = Return (Err e) -> exists e', version_sort b a = Return (Err e').
Proof.
  intros Herr. destruct (version_sort_spec b a) as (rb & ra & Hb & Ha & E).
  destruct (version_sort b a) as [[o|e']|] eqn:E'; [|eauto|done].
  apply version_sort_flip in E'. congruence.
Qed.

Lemma version_sort_trans a b c o1 o2 :
  version_sort a b = Return (Ok o1) -> version_sort b c = Return (Ok o2) ->
  o1 <> Gt -> o2 <> Gt -> version_sort a c = Return (Ok (cmp_then o1 o2)).
Proof.
  destruct (version_sort_spec a b) as (ra & rb & Ha & Hb & ->).
  destruct (version_sort_spec b c) as (rb' & rc & Hb' & Hc & ->).
  destruct (version_sort_spec a c) as (ra' & rc' & Ha' & Hc' & ->).
  assert (ra' = ra) as -> by congruence. assert (rb' = rb) as -> by congruence.
  assert (rc' = rc) as -> by congruence.
  destruct ra as [[pa ea]|], rb as [[pb eb]|], rc as [[pc ec]|]; try done.
  destruct (version_loop pa pb) as [x|] eqn:Hx; [|done].
  destruct (version_loop pb pc) as [y|] eqn:Hy; [|done]. intros [= <-] [= <-] H1 H2.
  rewrite (version_loop_trans _ _ _ _ _ Hx Hy) by (by destruct x, y).
  do 2 f_equal. destruct x, y; cbn in *; try done; [by apply compare_extensions_trans|].
  by destruct (compare_extensions ea eb).
Qed.

(** *** The orders on identifiers of one package *)

Lemma option_cmp_flip a b : option_cmp b a = CompOpp (option_cmp a b).
Proof. destruct a, b; try done. apply String.compare_antisym. Qed.

Lemma option_cmp_trans a b c :
  option_cmp a b <> Gt -> option_cmp b c <> Gt -> option_cmp a c = cmp_then (option_cmp a b) (option_cmp b c).
Proof.
  destruct a, b, c; try done; cbn; try apply string_compare_trans.
  all: by destruct (String.compare _ _).
Qed.

(** Identifiers of one package, with versions that [version_sort] accepts. *)
Definition comparable (a b : PackageIdent.t) : Prop :=
  PackageIdent.name a = PackageIdent.name b /\
  exists v w o, PackageIdent.version a = Some v /\ PackageIdent.version b = Some w /\
    version_sort v w = Return (Ok o).

Lemma cmp_versioned a b v w o :
  PackageIdent.name a = PackageIdent.name b ->
  PackageIdent.version a = Some v -> PackageIdent.version b = Some w -> version_sort v w = Return (Ok o) ->
  cmp a b = Return (cmp_then o (option_cmp (PackageIdent.release a) (PackageIdent.release b))) /\
  (is_Some (PackageIdent.release a) -> is_Some (PackageIdent.release b) ->
   partial_cmp a b = Return (Some (cmp_then o (option_cmp (PackageIdent.release a) (PackageIdent.release b))))).
Proof.
  intros Hn Hv Hw Ho. unfold partial_cmp, cmp. rewrite !decide_False by congruence. rewrite Hv, Hw. cbn.
  rewrite Ho. split; [by destruct o|]. intros [r Hr] [q Hq]. rewrite Hr, Hq. by destruct o.
Qed.

(** [a] is not newer than [b]. *)
Definition not_newer (a b : PackageIdent.t) : Prop := exists x, cmp a b = Return x /\ x <> Gt.

Lemma cmp_comparable a b : comparable a b ->
  exists x, cmp a b = Return x /\ cmp b a = Return (CompOpp x) /\
    (is_Some (PackageIdent.release a) -> is_Some (PackageIdent.release b) -> partial_cmp a b = Return (Some x)).
Proof.
  intros (Hn & v & w & o & Hv & Hw & Ho). pose proof (version_sort_flip _ _ _ Ho) as Ho'.
  destruct (cmp_versioned a b v w o) as [E Ep]; [done..|].
  destruct (cmp_versioned b a w v (CompOpp o)) as [E' _]; [done..|].
  eexists. split_and!; [done| |done]. rewrite E'. by rewrite cmp_then_opp, <- option_cmp_flip.
Qed.

Lemma not_newer_trans a b c :
  comparable a b -> comparable b c -> not_newer a b -> not_newer b c -> not_newer a c.
Proof.
  intros (Hn & v & w & o & Hv & Hw & Ho) (Hn' & w' & u & o' & Hw' & Hu & Ho') (x & Hx & Nx) (y & Hy & Ny).
  assert (w' = w) as -> by congruence. destruct (cmp_versioned a b v w o) as [E _]; [done..|].
  destruct (cmp_versioned b c w u o') as [E' _]; [done..|].
  rewrite Hx in E. injection E as ->. rewrite Hy in E'. injection E' as ->.
  assert (o <> Gt /\ o' <> Gt) as [No No'] by (split; intros ->; done).
  destruct (cmp_versioned a c v u (cmp_then o o')) as [E'' _]; [congruence|done..|by eapply version_sort_trans|].
  eexists. split; [done|]. destruct o, o'; cbn in *; try done.
  rewrite (option_cmp_trans _ (PackageIdent.release b)) by done. by destruct (option_cmp _ (PackageIdent.release b)).
Qed.

End with_engine.

(** ** Properties *)

Lemma from_str_iff_print s i :
  PackageIdent.from_str s = Ok i <-> printable_ident i /\ s = PackageIdent.to_string i.
Proof.
  unfold PackageIdent.from_str, printable_ident, no_slash. split.
  - destruct (split "/" s) as [|o [|n l]] eqn:E; [done..|].
    apply split_iff in E as (_ & Hf & Hs). apply Forall_cons in Hf as [Ho Hf].
    apply Forall_cons in Hf as [Hn Hf].
    assert (Hp : forall i, ident_parts i = o :: n :: l -> s = PackageIdent.to_string i).
    { intros j Hj. apply to_chars_inj. by rewrite to_string_parts, Hj. }
    destruct l as [|v [|r [|]]]; try done; intros [= <-];
      rewrite ?Forall_cons in Hf; naive_solver.
  - intros ((Ho & Hn & Hv & Hr & Hrv) & ->).
    assert (split "/" (PackageIdent.to_string i) = ident_parts i) as ->.
    { apply split_iff. split; [by destruct i|]. split; [|apply to_string_parts].
      destruct i as [o n [v|] [r|]]; cbn in *; repeat constructor; auto. }
    destruct i as [o n [v|] [r|]]; cbn in *; try done. by destruct Hrv.
Qed.

(** [PackageIdent::from_str] and [Display] are inverse: a string parses to
    an identifier exactly when the identifier prints without loss (no [/] inside
    a part, no release without a version) and the string is what it prints. *)
Theorem ident_parse_iff_print s i :
  PackageIdent.from_str s = Ok i <-> printable_ident i /\ s = PackageIdent.to_string i.
Proof. apply from_str_iff_print. Qed.

(** [version_sort] never panics and, on the version pairs it accepts, is a
    total preorder: exchanging the arguments reverses the answer, and it is
    transitive; in particular both answers exist together. *)
Theorem version_sort_total_preorder `{!RegexEngine} a b c o1 o2 :
  version_sort a b = Return (Ok o1) -> version_sort b c = Return (Ok o2) ->
  version_sort b a = Return (Ok (CompOpp o1)) /\
  (o1 <> Gt -> o2 <> Gt -> version_sort a c = Return (Ok (cmp_then o1 o2))) /\
  forall x y, Returns (version_sort x y) (fun _ => True).
Proof.
  intros H1 H2. split_and!; [by apply version_sort_flip|by eapply version_sort_trans|].
  intros x y. by destruct (version_sort_spec x y) as (? & ? & _ & _ & ->).
Qed.

Lemma version_sort_total_preorder_witness :
  let RE := reference_engine in
  version_sort "1.0.0" "1.0.0-alpha6" = Return (Ok (CompOpp Lt)) /\
  version_sort "1.0.0-alpha6" "1.2" = Return (Ok Lt).
Proof.
  intros RE.
  destruct (version_sort_total_preorder "1.0.0-alpha6" "1.0.0" "1.2" Lt Lt) as (H & H' & _);
    [vm_compute; reflexivity..|].
  split; [exact H|apply H'; discriminate].
Defined.

(** On fully qualified identifiers of one package whose versions
    [version_sort] accepts, [PartialOrd] and [Ord] give the same answer, neither
    panics, and exchanging the arguments reverses it. *)
Theorem ident_orders_agree `{!RegexEngine} (a b : PackageIdent.t) v w o :
  PackageIdent.name a = PackageIdent.name b ->
  PackageIdent.version a = Some v -> PackageIdent.version b = Some w ->
  is_Some (PackageIdent.release a) -> is_Some (PackageIdent.release b) ->
  version_sort v w = Return (Ok o) ->
  exists x, partial_cmp a b = Return (Some x) /\ cmp a b = Return x /\
    partial_cmp b a = Return (Some (CompOpp x)) /\ cmp b a = Return (CompOpp x).
Proof.
  intros Hn Hv Hw [r Hr] [q Hq] Ho.
  exists (cmp_then o (String.compare r q)). unfold partial_cmp, cmp.
  rewrite !decide_False by congruence. rewrite Hv, Hw, Hr, Hq. cbn.
  rewrite Ho, (version_sort_flip _ _ _ Ho). cbn. rewrite cmp_then_opp.
  destruct o; cbn; by rewrite ?(String.compare_antisym q r).
Qed.

Lemma ident_orders_agree_witness :
  let RE := reference_engine in
  let a := PackageIdent.mk "core" "redis" (Some "3.2.3") (Some "20160704220958") in
  let b := PackageIdent.mk "core" "redis" (Some "3.2.4") (Some "20160704220958") in
  exists x, partial_cmp a b = Return (Some x) /\ cmp a b = Return x /\
    partial_cmp b a = Return (Some (CompOpp x)) /\ cmp b a = Return (CompOpp x).
Proof.
  intros RE a b. apply (ident_orders_agree a b "3.2.3" "3.2.4" Lt);
    [reflexivity..|by eexists|by eexists|vm_compute; reflexivity].
Defined.

(** [Ord] is not an order on versions that [version_sort] rejects: each of
    the two identifiers is less than the other. *)
Theorem ident_cmp_not_antisymmetric `{!RegexEngine} (a b : PackageIdent.t) v w e :
  PackageIdent.name a = PackageIdent.name b ->
  PackageIdent.version a = Some v -> PackageIdent.version b = Some w ->
  version_sort v w = Return (Err e) -> cmp a b = Return Lt /\ cmp b a = Return Lt.
Proof.
  intros Hn Hv Hw He. destruct (version_sort_err_flip _ _ _ He) as [e' He'].
  unfold cmp. rewrite !decide_False by congruence. rewrite Hv, Hw. cbn. by rewrite He, He'.
Qed.

Lemma ident_cmp_not_antisymmetric_witness :
  let RE := reference_engine in
  let a := PackageIdent.mk "core" "foo" (Some "master") (Some "1") in
  let b := PackageIdent.mk "core" "foo" (Some "0.1.0") (Some "1") in
  cmp a b = Return Lt /\ cmp b a = Return Lt.
Proof.
  intros RE a b.
  apply (ident_cmp_not_antisymmetric a b "master" "0.1.0" (InvalidPackageIdent "master"));
    vm_compute; reflexivity.
Defined.

(** [PartialOrd] looks at whether a release is present before it looks at
    the versions: of two identifiers of one package, the one without a release
    is the lesser even when its version is the greater. *)
Theorem partial_cmp_release_before_version `{!RegexEngine} (a b : PackageIdent.t) v w :
  PackageIdent.name a = PackageIdent.name b ->
  PackageIdent.version a = Some v -> PackageIdent.version b = Some w ->
  PackageIdent.release a = None ->
  version_sort v w = Return (Ok Gt) ->
  partial_cmp a b = Return (match PackageIdent.release b with Some _ => Some Lt | None => None end).
Proof.
  intros Hn Hv Hw Hr _. unfold partial_cmp. rewrite decide_False by congruence.
  rewrite Hv, Hw, Hr. by destruct (PackageIdent.release b).
Qed.

Lemma partial_cmp_release_before_version_witness :
  let RE := reference_engine in
  let a := PackageIdent.mk "core" "foo" (Some "2.0") None in
  let b := PackageIdent.mk "core" "foo" (Some "1.0") (Some "20160704220958") in
  partial_cmp a b = Return (Some Lt).
Proof.
  intros RE a b. apply (partial_cmp_release_before_version a b "2.0" "1.0");
    vm_compute; reflexivity.
Defined.

(** A fully qualified package satisfies a requested identifier exactly when
    origin and name are the requested ones and the version, and then the
    release, are either not requested or the requested ones. *)
Theorem satisfies_fully_qualified p i :
  PackageIdent.fully_qualified p = true ->
  PackageIdent.satisfies p i = true <->
  PackageIdent.origin p = PackageIdent.origin i /\ PackageIdent.name p = PackageIdent.name i /\
  (PackageIdent.version i = None \/
   PackageIdent.version i = PackageIdent.version p /\
   (PackageIdent.release i = None \/ PackageIdent.release i = PackageIdent.release p)).
Proof.
  destruct p as [o n [v|] [r|]], i as [o' n' v' r']; try done. intros _.
  unfold PackageIdent.satisfies; cbn [PackageIdent.origin PackageIdent.name
    PackageIdent.version PackageIdent.release].
  destruct (decide _) as [Hne|Heq]; [naive_solver|].
  assert (o = o' /\ n = n') as [-> ->] by (split; apply dec_stable; tauto).
  destruct v' as [v'|]; [|naive_solver].
  rewrite (bool_decide_eq_true_2 (is_Some (Some v))) by eauto.
  destruct (decide (v = v')) as [<-|Hv];
    [|rewrite (bool_decide_eq_false_2 (Some v = Some v')) by congruence; cbn; naive_solver].
  rewrite (bool_decide_eq_true_2 (Some v = Some v)) by done.
  destruct r' as [r'|]; [|naive_solver].
  rewrite (bool_decide_eq_true_2 (is_Some (Some r))) by eauto.
  destruct (decide (r = r')) as [<-|Hr];
    [rewrite (bool_decide_eq_true_2 (Some r = Some r)) by done|
     rewrite (bool_decide_eq_false_2 (Some r = Some r')) by congruence]; cbn; naive_solver.
Qed.

Lemma satisfies_fully_qualified_witness :
  PackageIdent.satisfies
    (PackageIdent.mk "core" "redis" (Some "3.2.3") (Some "20160704220958"))
    (PackageIdent.mk "core" "redis" (Some "3.2.3") None) = true.
Proof.
  apply (satisfies_fully_qualified
    (PackageIdent.mk "core" "redis" (Some "3.2.3") (Some "20160704220958"))); [reflexivity|].
  split; [reflexivity|]. split; [reflexivity|]. right. split; [reflexivity|]. left. reflexivity.
Defined.
