(* ===== verification/Target.v ===== *)
(** * Package targets

    Models [components/core/src/package/target.rs] and the enumerations and their text forms
    of [components/core/src/os/system/mod.rs].  Texts are ASCII. *)

From S2P Require Import Prelude Regex Text ServiceGroup Ident.
From Stdlib Require Import Ascii.
Local Open Scope string_scope.
Local Open Scope list_scope.

(** ** Architectures and platforms *)
Inductive TargetError :=
| InvalidArchitecture (value : string)
| InvalidPlatform (value : string)
| InvalidPackageTarget (value : string)
| TargetMatchError (msg : string).

Module Architecture.
Inductive t := X86_64.

(** The derived [Debug] text, in lower case. *)
Definition to_string (a : t) : string := to_lowercase (match a with X86_64 => "X86_64" end).

Definition from_str (value : string) : result TargetError t :=
  if String.eqb (to_lowercase (trim value)) "x86_64" then Ok X86_64 else Err (InvalidArchitecture value).
End Architecture.

Module Platform.
Inductive t := Linux | Windows | Darwin.

Definition to_string (p : t) : string :=
  to_lowercase (match p with Linux => "Linux" | Windows => "Windows" | Darwin => "Darwin" end).

Definition from_str (value : string) : result TargetError t :=
  let platform := to_lowercase (trim value) in
  if String.eqb platform "linux" then Ok Linux
  else if String.eqb platform "windows" then Ok Windows
  else if String.eqb platform "darwin" then Ok Darwin
  else Err (InvalidPlatform value).
End Platform.

#[export] Instance Architecture_eq_dec : EqDecision Architecture.t.
Proof. solve_decision. Defined.
#[export] Instance Platform_eq_dec : EqDecision Platform.t.
Proof. solve_decision. Defined.

(** ** Targets *)
Module PackageTarget.
Record t := mk { platform : Platform.t; architecture : Architecture.t }.

Definition new (platform : Platform.t) (architecture : Architecture.t) : t := mk platform architecture.

Definition to_string (x : t) : string :=
  Architecture.to_string (architecture x) +:+ "-" +:+ Platform.to_string (platform x).

Definition from_str (value : string) : result TargetError t :=
  match split "-"%char value with
  | [a; p] =>
      match Architecture.from_str a with
      | Err e => Err e
      | Ok a => match Platform.from_str p with Err e => Err e | Ok p => Ok (new p a) end
      end
  | _ => Err (InvalidPackageTarget value)
  end.

(** The platform the binary was built for; the architecture can only be x86_64. *)
Definition default (current : Platform.t) : t := mk current Architecture.X86_64.

Definition validate (current : Platform.t) (self : t) : result TargetError unit :=
  let default := default current in
  if decide (architecture self = architecture default /\ platform self = platform default) then Ok tt
  else Err (TargetMatchError
    ("Package target (" +:+ to_string self +:+ ") does not match system target (" +:+ to_string default +:+ ").")).
End PackageTarget.

#[export] Instance PackageTarget_eq_dec : EqDecision PackageTarget.t.
Proof. solve_decision. Defined.

Definition target_code (x : PackageTarget.t) : nat :=
  match PackageTarget.platform x with Platform.Linux => 0 | Platform.Windows => 1 | Platform.Darwin => 2 end.

Definition target_decode (n : nat) : option PackageTarget.t :=
  match n with
  | 0%nat => Some (PackageTarget.mk Platform.Linux Architecture.X86_64)
  | 1%nat => Some (PackageTarget.mk Platform.Windows Architecture.X86_64)
  | _ => Some (PackageTarget.mk Platform.Darwin Architecture.X86_64)
  end.

#[export] Instance PackageTarget_countable : Countable PackageTarget.t.
Proof. refine (inj_countable target_code target_decode _). by intros [[] []]. Defined.

(** ** Properties *)

(** Every target parses back from its text form, and what parses differs from a text form
    only in the case of the letters and in spaces around the two parts. *)
Theorem target_round_trip (x : PackageTarget.t) (s : string) :
  PackageTarget.from_str (PackageTarget.to_string x) = Ok x /\
  (PackageTarget.from_str s = Ok x <->
   exists a p, split "-"%char s = [a; p] /\ to_lowercase (trim a) = Architecture.to_string (PackageTarget.architecture x) /\
     to_lowercase (trim p) = Platform.to_string (PackageTarget.platform x)).
Proof.
  split; [by destruct x as [[] []]|]. unfold PackageTarget.from_str.
  destruct (split "-"%char s) as [|a [|p [|? ?]]]; try (split; [done|by intros (? & ? & ? & _)]).
  unfold Architecture.from_str, Platform.from_str. destruct x as [pl []].
  change (Architecture.to_string (PackageTarget.architecture _)) with "x86_64".
  destruct (String.eqb_spec (to_lowercase (trim a)) "x86_64") as [Ea|Ea].
  2: { split; [done|]. by intros (? & ? & [= <- <-] & ? & _). }
  unfold PackageTarget.new.
  assert (Hp : forall r, (exists a0 p0, [a; p] = [a0; p0] /\ to_lowercase (trim a0) = "x86_64" /\ to_lowercase (trim p0) = r) <->
    to_lowercase (trim p) = r) by (intros r; split; [by intros (? & ? & [= <- <-] & _ & ?)|by exists a, p]).
  rewrite Hp. clear Hp. cbn [PackageTarget.platform].
  assert (Platform.to_string pl = match pl with Platform.Linux => "linux" | Platform.Windows => "windows" | Platform.Darwin => "darwin" end)
    as -> by (by destruct pl).
  destruct (String.eqb_spec (to_lowercase (trim p)) "linux"), (String.eqb_spec (to_lowercase (trim p)) "windows"),
    (String.eqb_spec (to_lowercase (trim p)) "darwin"); destruct pl; split; intros; congruence.
Qed.
