(* ===== verification/Metadata.v ===== *)
(** * Package metadata files

    Models [components/core/src/package/metadata.rs]: the names of the metadata files of an
    installed package and the parsers of their lines.  The unwraps of [parse_key_value] are
    indexing operations, so it is an [outcome]. *)

From S2P Require Import Prelude Regex Text ServiceGroup Ident.
From Stdlib Require Import Ascii.
Local Open Scope string_scope.
Local Open Scope list_scope.

(** ** Text functions *)

(** [str::lines]: the pieces between line feeds, without a last empty one, and each
    without a carriage return at its end. *)
Definition LF : ascii := "010"%char.
Definition CR : ascii := "013"%char.

Definition drop_last_empty (l : list chars) : list chars :=
  match rev l with [] :: l' => rev l' | _ => l end.

Definition strip_cr (l : chars) : chars :=
  match rev l with c :: l' => if Ascii.eqb c CR then rev l' else l | [] => l end.

Definition lines (s : string) : list string :=
  of_chars ∘ strip_cr <$> drop_last_empty (split_chars LF (to_chars s)).

(** [str::splitn(2, sep)]: the text before the first separator, and the rest if there is one. *)
Fixpoint cut (sep : ascii) (s : chars) : chars * option chars :=
  match s with
  | [] => ([], None)
  | c :: t =>
      if Ascii.eqb c sep then ([], Some t)
      else let '(w, r) := cut sep t in (c :: w, r)
  end.

Definition splitn2 (sep : ascii) (s : string) : string * option string :=
  let '(w, r) := cut sep (to_chars s) in (of_chars w, of_chars <$> r).

(** ** The files *)
Module MetaFile.
Inductive t :=
| BindMap | Binds | BindsOptional | CFlags | Config | Deps | Environment | EnvironmentSep
| Exports | Exposes | Ident | LdFlags | LdRunPath | Manifest | Path | ResolvedServices
| RuntimeEnvironment | Services | SvcGroup | SvcUser | Target | TDeps | Type_.

#[global] Instance t_eq_dec : EqDecision t.
Proof. solve_decision. Defined.

Definition to_string (f : t) : string :=
  match f with
  | BindMap => "BIND_MAP"
  | Binds => "BINDS"
  | BindsOptional => "BINDS_OPTIONAL"
  | CFlags => "CFLAGS"
  | Config => "default.toml"
  | Deps => "DEPS"
  | Environment => "ENVIRONMENT"
  | EnvironmentSep => "ENVIRONMENT_SEP"
  | Exports => "EXPORTS"
  | Exposes => "EXPOSES"
  | Ident => "IDENT"
  | LdFlags => "LDFLAGS"
  | LdRunPath => "LD_RUN_PATH"
  | Manifest => "MANIFEST"
  | Path => "PATH"
  | ResolvedServices => "RESOLVED_SERVICES"
  | RuntimeEnvironment => "RUNTIME_ENVIRONMENT"
  | Services => "SERVICES"
  | SvcGroup => "SVC_GROUP"
  | SvcUser => "SVC_USER"
  | Target => "TARGET"
  | TDeps => "TDEPS"
  | Type_ => "TYPE"
  end.
End MetaFile.

(** The errors of [habitat_core] about packages on disk. *)
Inductive package_error :=
| Core (e : core_error)
| PackageNotFound (ident : PackageIdent.t)
| FullyQualifiedPackageIdentRequired (ident : string)
| InvalidPackageType (value : string)
| MetaFileNotFound (f : MetaFile.t)
| MetaFileMalformed (f : MetaFile.t)
| MetaFileIO
| MetaFileBadBind
| TargetInvalid (value : string)
| TargetMatch (msg : string)
| InvalidArchitectureOf (value : string)
| InvalidPlatformOf (value : string)
| CompositePackageExpected (ident : string)
| JoinPathsError
| IO.

Definition from_core {A} (r : result core_error A) : result package_error A :=
  match r with Ok a => Ok a | Err e => Err (Core e) end.

(** A loop that stops at the first error ([?] in its body, or [collect] into a [Result]). *)
Fixpoint try_map {A B E} (f : A -> result E B) (l : list A) : result E (list B) :=
  match l with
  | [] => Ok []
  | x :: l => y ← f x; ys ← try_map f l; Ok (y :: ys)
  end.

(** ** The parsers *)

(** A line without [=] makes the second index fail. *)
Definition parse_key_value (s : string) : outcome (result package_error (gmap string string)) :=
  kvs ← for_each (fun l (m : list (string * string)) =>
      let '(k, v) := splitn2 "="%char l in
      v ← expect "index out of bounds: the len is 1 but the index is 1" v;
      Return (m ++ [(k, v)])) (lines s) [];
  Return (Ok (list_to_map (reverse kvs))).

Module Bind.
Record t := mk { service : string; exports : list string }.

Definition from_str (line : string) : result package_error t :=
  match split "="%char line with
  | service :: exports :: _ => Ok (mk service (split " "%char exports))
  | _ => Err MetaFileBadBind
  end.

Definition to_string (self : t) : string :=
  "[" +:+ service self +:+ "]=" +:+ of_chars (join_chars " "%char (to_chars <$> exports self)).
End Bind.

Module BindMapping.
Record t := mk { bind_name : string; satisfying_service : PackageIdent.t }.

Definition from_str (line : string) : result package_error t :=
  match split ":"%char line with
  | bind_name :: satisfying :: _ => i ← from_core (PackageIdent.from_str satisfying); Ok (mk bind_name i)
  | _ => Err MetaFileBadBind
  end.
End BindMapping.

Module EnvVar.
Record t := mk { key : string; value : string; separator : option ascii }.
End EnvVar.

(** The variables in the iteration order of the map; the separator is the last character of
    its text. *)
Definition PkgEnv_new (o : order) (values separators : gmap string string) : list EnvVar.t :=
  (fun kv : string * string =>
     EnvVar.mk kv.1 kv.2 (sep ← separators !! kv.1; head (rev (to_chars sep))))
  <$> permute o (map_to_list values).

Inductive PackageType := Standalone | Composite.

Definition PackageType_from_str (value : string) : result package_error PackageType :=
  if String.eqb value "standalone" then Ok Standalone
  else if String.eqb value "composite" then Ok Composite
  else Err (InvalidPackageType value).

Definition PackageType_to_string (p : PackageType) : string :=
  match p with Standalone => "Standalone" | Composite => "Composite" end.

(** ** Lemmas *)
Lemma try_map_ok {A B E} (f : A -> result E B) l ys :
  try_map f l = Ok ys <-> Forall2 (fun x y => f x = Ok y) l ys.
Proof.
  revert ys. induction l as [|x l IH]; intros ys; cbn.
  - split; [intros [= <-]; constructor|]. by inversion 1.
  - destruct (f x) as [y|e] eqn:Ex; cbn; [|split; [done|inversion 1; congruence]].
    destruct (try_map f l) as [ys'|e]; cbn.
    + split.
      * intros [= <-]. constructor; [done|]. by apply IH.
      * inversion 1 as [|? y' ? ys'' Hy Hys]; subst. apply IH in Hys. congruence.
    + split; [done|]. inversion 1 as [|? y' ? ys'' Hy Hys]; subst. apply IH in Hys. congruence.
Qed.

Lemma try_map_err {A B E} (f : A -> result E B) l e :
  try_map f l = Err e -> exists x, x ∈ l /\ f x = Err e.
Proof.
  induction l as [|x l IH]; cbn; [done|]. destruct (f x) as [y|e'] eqn:Ex; cbn.
  - destruct (try_map f l); cbn; [done|]. intros [= ->]. destruct IH as (z & ? & ?); [done|]. exists z. set_solver.
  - intros [= ->]. exists x. set_solver.
Qed.

Lemma bind_ok {A B E} (r : result E A) (k : A -> result E B) y :
  (x ← r; k x) = Ok y -> exists x, r = Ok x /\ k x = Ok y.
Proof. destruct r; cbn; [eauto|done]. Qed.
