(* ===== verification/Install.v ===== *)
(** * Installed packages

    Models [components/core/src/package/install.rs] with the two paths of
    [components/core/src/fs.rs] it uses.  The disk is a tree of nodes; a path is the list of
    its components from the root.  [current] is the platform of the running program. *)

From S2P Require Import Prelude Regex Text ServiceGroup Ident Target Metadata.
From Stdlib Require Import Ascii.
Local Open Scope string_scope.
Local Open Scope list_scope.

(** ** The disk *)

(** What opening and reading a file gives. *)
Inductive content := Contents (text : string) | NotUtf8 | Denied.

(** A directory lists its entries in the order [read_dir] yields them; [Closed] is a
    directory that cannot be listed and [Dangling] an entry without metadata. *)
Inductive node :=
| File (c : content)
| Dir (entries : list (string * node))
| Closed
| Dangling.

Fixpoint child (n : string) (l : list (string * node)) : option node :=
  match l with
  | [] => None
  | (m, x) :: l => if decide (m = n) then Some x else child n l
  end.

Fixpoint lookup_path (x : node) (p : list string) : option node :=
  match p with
  | [] => Some x
  | n :: p => match x with Dir l => y ← child n l; lookup_path y p | _ => None end
  end.

(** [fs::metadata(path)] succeeds. *)
Definition exists_at (disk : node) (p : list string) : bool :=
  match lookup_path disk p with None | Some Dangling => false | Some _ => true end.

Definition is_file (disk : node) (p : list string) : bool :=
  match lookup_path disk p with Some (File _) => true | _ => false end.

(** [fs::metadata(entry)?.is_dir()] *)
Definition is_dir (x : node) : result package_error bool :=
  match x with Dir _ | Closed => Ok true | File _ => Ok false | Dangling => Err IO end.

Definition read_dir (x : node) : result package_error (list (string * node)) :=
  match x with Dir l => Ok l | _ => Err IO end.

(** [fs::pkg_root_path] and [fs::pkg_install_path] *)
Definition pkg_root_path (fs_root : list string) : list string := fs_root ++ ["hab"; "pkgs"].

Definition pkg_install_path (ident : PackageIdent.t) (fs_root : list string) : outcome (list string) :=
  if PackageIdent.fully_qualified ident then
    v ← expect "unwrap" (PackageIdent.version ident);
    r ← expect "unwrap" (PackageIdent.release ident);
    Return (pkg_root_path fs_root ++ [PackageIdent.origin ident; PackageIdent.name ident; v; r])
  else Panic "Cannot determine install path without fully qualified ident".

(** ** The list of installed packages *)

(** A loop over the entries of a directory that collects packages and stops at an error. *)
Fixpoint collect_entries {A} (f : A -> result package_error (list PackageIdent.t)) (l : list A)
    : result package_error (list PackageIdent.t) :=
  match l with
  | [] => Ok []
  | x :: l => ps ← f x; qs ← collect_entries f l; Ok (ps ++ qs)
  end.

(** The entries of a version are taken for releases whatever they are. *)
Definition walk_releases (origin name version : string) (x : node) : result package_error (list PackageIdent.t) :=
  l ← read_dir x;
  Ok (map (fun e : string * node => PackageIdent.mk origin name (Some version) (Some e.1)) l).

Definition walk_versions (origin name : string) (x : node) : result package_error (list PackageIdent.t) :=
  l ← read_dir x;
  collect_entries (fun e : string * node => d ← is_dir e.2; if (d : bool) then walk_releases origin name e.1 e.2 else Ok []) l.

Definition walk_names (origin : string) (x : node) : result package_error (list PackageIdent.t) :=
  l ← read_dir x;
  collect_entries (fun e : string * node => d ← is_dir e.2; if (d : bool) then walk_versions origin e.1 e.2 else Ok []) l.

Definition walk_origins (x : node) : result package_error (list PackageIdent.t) :=
  l ← read_dir x;
  collect_entries (fun e : string * node => d ← is_dir e.2; if (d : bool) then walk_names e.1 e.2 else Ok []) l.

Definition package_list (disk : node) (path : list string) : result package_error (list PackageIdent.t) :=
  match lookup_path disk path with
  | None => Err IO
  | Some x => d ← is_dir x; if (d : bool) then walk_origins x else Ok []
  end.

(** ** Finding a package *)
Module PackageInstall.
Record t := mk {
  ident : PackageIdent.t;
  fs_root_path : list string;
  package_root_path : list string;
  installed_path : list string;
}.

Section with_engine.
  Context `{!RegexEngine}.

(** The steps of the two folds. *)
Definition newer (winner : option PackageIdent.t) (b : PackageIdent.t) : outcome (option PackageIdent.t) :=
  match winner with
  | Some a =>
      c ← partial_cmp a b;
      Return (match c with
              | Some Gt => Some a
              | Some Eq => Some a
              | Some Lt => Some b
              | None => Some a
              end)
  | None => Return (Some b)
  end.

Definition newer_min (ident : PackageIdent.t) (winner : option PackageIdent.t) (b : PackageIdent.t)
    : outcome (option PackageIdent.t) :=
  match winner with
  | Some a => c ← cmp a b; Return (match c with Gt | Eq => Some a | Lt => Some b end)
  | None => c ← cmp b ident; Return (match c with Gt | Eq => Some b | Lt => None end)
  end.

Definition found (ident : PackageIdent.t) (fs_root : list string) : outcome (result package_error t) :=
  path ← pkg_install_path ident fs_root;
  Return (Ok (mk ident fs_root (pkg_root_path fs_root) path)).

Definition resolve_package_install (disk : node) (ident : PackageIdent.t) (fs_root : list string)
    : outcome (result package_error t) :=
  if negb (exists_at disk (pkg_root_path fs_root)) then Return (Err (PackageNotFound ident))
  else
    match package_list disk (pkg_root_path fs_root) with
    | Err e => Return (Err e)
    | Ok pl =>
        if PackageIdent.fully_qualified ident then
          if existsb (fun p => PackageIdent.satisfies p ident) pl then found ident fs_root
          else Return (Err (PackageNotFound ident))
        else
          latest ← for_each (fun b w => newer w b) (filter (fun p => PackageIdent.satisfies p ident = true) pl) None;
          match latest with
          | Some id => found id fs_root
          | None => Return (Err (PackageNotFound ident))
          end
    end.

Definition resolve_package_install_min (disk : node) (ident : PackageIdent.t) (fs_root : list string)
    : outcome (result package_error t) :=
  let ident := if decide (PackageIdent.version ident = None)
               then PackageIdent.mk (PackageIdent.origin ident) (PackageIdent.name ident) (Some "0") (Some "0")
               else ident in
  if negb (exists_at disk (pkg_root_path fs_root)) then Return (Err (PackageNotFound ident))
  else
    match package_list disk (pkg_root_path fs_root) with
    | Err e => Return (Err e)
    | Ok pl =>
        latest ← for_each (fun b w => newer_min ident w b)
          (filter (fun p => PackageIdent.origin p = PackageIdent.origin ident /\ PackageIdent.name p = PackageIdent.name ident) pl) None;
        match latest with
        | Some id => found id fs_root
        | None => Return (Err (PackageNotFound ident))
        end
    end.
End with_engine.

Definition new_from_parts (ident : PackageIdent.t) (fs_root package_root installed : list string) : t :=
  mk ident fs_root package_root installed.

(** ** Reading the metadata *)
Section with_disk.
  Context (disk : node).

Definition is_runnable (self : t) : bool :=
  is_file disk (installed_path self ++ ["hooks"; "run"]) || is_file disk (installed_path self ++ ["run"]).

Definition existing_metafile (self : t) (f : MetaFile.t) : option (list string) :=
  let filepath := installed_path self ++ [MetaFile.to_string f] in
  if exists_at disk filepath then Some filepath else None.

Definition read_metafile (self : t) (f : MetaFile.t) : result package_error string :=
  match existing_metafile self f with
  | None => Err (MetaFileNotFound f)
  | Some filepath =>
      match lookup_path disk filepath with
      | Some (File (Contents data)) => Ok (trim data)
      | Some (File Denied) => Err MetaFileIO
      | _ => Err (MetaFileMalformed f)
      end
  end.

(** [match self.read_metafile(f)]: the value for a missing file [f], other errors passed on. *)
Definition or_missing {A} (f : MetaFile.t) (missing : A) (k : string -> result package_error A)
    (body : result package_error string) : result package_error A :=
  match body with
  | Ok body => k body
  | Err (MetaFileNotFound g) => if decide (g = f) then Ok missing else Err (MetaFileNotFound g)
  | Err e => Err e
  end.

Definition pkg_type (self : t) : result package_error PackageType :=
  or_missing MetaFile.Type_ Standalone PackageType_from_str (read_metafile self MetaFile.Type_).

Definition parse_binds (f : MetaFile.t) (body : string) : result package_error (list Bind.t) :=
  try_map (fun line => match Bind.from_str line with
                       | Ok b => Ok b
                       | Err _ => Err (MetaFileMalformed f)
                       end) (lines body).

Definition binds (self : t) : result package_error (list Bind.t) :=
  or_missing MetaFile.Binds [] (parse_binds MetaFile.Binds) (read_metafile self MetaFile.Binds).

Definition binds_optional (self : t) : result package_error (list Bind.t) :=
  or_missing MetaFile.BindsOptional [] (parse_binds MetaFile.BindsOptional) (read_metafile self MetaFile.BindsOptional).

Definition parse_bind_map_line (line : string) : result package_error (PackageIdent.t * list BindMapping.t) :=
  match split "="%char line with
  | package :: parts =>
      i ← from_core (PackageIdent.from_str package);
      bs ← match parts with
           | binds :: _ => try_map BindMapping.from_str (split " "%char binds)
           | [] => Err MetaFileBadBind
           end;
      Ok (i, bs)
  | [] => Err MetaFileBadBind
  end.

(** The map, as the list of its insertions. *)
Definition bind_map (self : t) : result package_error (list (PackageIdent.t * list BindMapping.t)) :=
  or_missing MetaFile.BindMap [] (fun body => try_map parse_bind_map_line (lines body))
    (read_metafile self MetaFile.BindMap).

Definition read_deps (self : t) (f : MetaFile.t) : result package_error (list PackageIdent.t) :=
  match read_metafile self f with
  | Ok body =>
      try_map (fun id =>
          package ← from_core (PackageIdent.from_str id);
          if negb (PackageIdent.fully_qualified package) && bool_decide (f <> MetaFile.Services)
          then Err (FullyQualifiedPackageIdentRequired (PackageIdent.to_string package))
          else Ok package)
        (if String.eqb body "" then [] else lines body)
  | Err (MetaFileNotFound _) => Ok []
  | Err e => Err e
  end.

Definition pkg_services (self : t) : result package_error (list PackageIdent.t) := read_deps self MetaFile.Services.
Definition deps (self : t) : result package_error (list PackageIdent.t) := read_deps self MetaFile.Deps.
Definition tdeps (self : t) : result package_error (list PackageIdent.t) := read_deps self MetaFile.TDeps.

(** [parse_key_value] never returns an error, it panics. *)
Definition exports (self : t) : outcome (result package_error (gmap string string)) :=
  match read_metafile self MetaFile.Exports with
  | Ok body =>
      r ← parse_key_value body;
      Return (match r with Ok m => Ok m | Err _ => Err (MetaFileMalformed MetaFile.Exports) end)
  | r => Return (or_missing MetaFile.Exports ∅ (fun _ => Ok ∅) r)
  end.

Definition trim_right_lf (s : string) : string :=
  of_chars (rev ((fix go l := match l with c :: l' => if Ascii.eqb c LF then go l' else l | [] => [] end)
                 (rev (to_chars s)))).

Definition exposes (self : t) : result package_error (list string) :=
  or_missing MetaFile.Exposes [] (fun body => Ok (trim_right_lf <$> split " "%char body))
    (read_metafile self MetaFile.Exposes).

Definition svc_user (self : t) : result package_error (option string) :=
  or_missing MetaFile.SvcUser None (fun body => Ok (Some body)) (read_metafile self MetaFile.SvcUser).

Definition svc_group (self : t) : result package_error (option string) :=
  or_missing MetaFile.SvcGroup None (fun body => Ok (Some body)) (read_metafile self MetaFile.SvcGroup).

Definition from_target {A} (r : result TargetError A) : result package_error A :=
  match r with
  | Ok a => Ok a
  | Err (InvalidPackageTarget v) => Err (TargetInvalid v)
  | Err (InvalidArchitecture v) => Err (InvalidArchitectureOf v)
  | Err (InvalidPlatform v) => Err (InvalidPlatformOf v)
  | Err (TargetMatchError m) => Err (TargetMatch m)
  end.

Definition target (self : t) : result package_error PackageTarget.t :=
  body ← read_metafile self MetaFile.Target; from_target (PackageTarget.from_str body).

Section with_engine_and_platform.
  Context `{!RegexEngine} (current : Platform.t).

Definition validated (r : outcome (result package_error t)) : outcome (result package_error t) :=
  i ← r;
  Return (package_install ← i;
          package_target ← target package_install;
          match PackageTarget.validate current package_target with
          | Ok _ => Ok package_install
          | Err e => from_target (Err e)
          end).

Definition load (ident : PackageIdent.t) (fs_root : list string) : outcome (result package_error t) :=
  validated (resolve_package_install disk ident fs_root).

Definition load_at_least (ident : PackageIdent.t) (fs_root : list string) : outcome (result package_error t) :=
  validated (resolve_package_install_min disk ident fs_root).

(** ** Paths *)

(** [env::split_paths] and [env::join_paths] on Unix. *)
Definition split_paths (s : string) : list string := split ":"%char s.

Definition join_paths (l : list string) : result package_error string :=
  if existsb (fun p => bool_decide (":"%char ∈ to_chars p)) l then Err JoinPathsError
  else Ok (of_chars (join_chars ":"%char (to_chars <$> l))).

Definition legacy_path (self : t) : result package_error (list string) :=
  or_missing MetaFile.Path [] (fun body => Ok (split_paths body)) (read_metafile self MetaFile.Path).

(** The packages a list of identifiers names, in order; the first that fails ends it. *)
Fixpoint load_all (self : t) (l : list PackageIdent.t) : outcome (result package_error (list t)) :=
  match l with
  | [] => Return (Ok [])
  | dep :: l =>
      r ← load dep (fs_root_path self);
      match r with
      | Err e => Return (Err e)
      | Ok dep_install =>
          rest ← load_all self l;
          Return (installs ← rest; Ok (dep_install :: installs))
      end
  end.

Definition load_deps (self : t) : outcome (result package_error (list t)) :=
  match deps self with Err e => Return (Err e) | Ok ddeps => load_all self ddeps end.

Definition load_tdeps (self : t) : outcome (result package_error (list t)) :=
  match tdeps self with Err e => Return (Err e) | Ok tdeps => load_all self tdeps end.

(** Equal paths have the same components: a root, a leading [.], and the named ones. *)
Definition path_key (path : string) : bool * bool * list string :=
  let parts := split "/"%char path in
  (bool_decide (head (to_chars path) = Some "/"%char), bool_decide (head parts = Some "."),
   filter (fun c => c <> "" /\ c <> ".") parts).

(** Appends a path that was not seen, with the set of those seen. *)
Definition add_path (st : list string * gset (bool * bool * list string)) (path : string)
    : list string * gset (bool * bool * list string) :=
  let '(full_path, seen) := st in
  if decide (path_key path ∈ seen) then st else (full_path ++ [path], {[path_key path]} ∪ seen).

Definition full_legacy_path (self : t) : outcome (result package_error (list string)) :=
  match legacy_path self with
  | Err e => Return (Err e)
  | Ok own =>
      let st := foldl add_path ([], ∅) own in
      rt ← load_tdeps self;
      match rt with
      | Err e => Return (Err e)
      | Ok ts =>
          rd ← load_deps self;
          match rd with
          | Err e => Return (Err e)
          | Ok ds =>
              Return (ps ← try_map legacy_path (reverse (ts ++ ds));
                      Ok (foldl (foldl add_path) st ps).1)
          end
      end
  end.

(** The environment, as the list of its insertions. *)
Definition runtime_environment (self : t) : outcome (result package_error (list (string * string))) :=
  match read_metafile self MetaFile.RuntimeEnvironment with
  | Ok body =>
      Return (try_map (fun line =>
        match splitn2 "="%char line with
        | (key, Some value) => Ok (key, value)
        | (_, None) => Err (MetaFileMalformed MetaFile.RuntimeEnvironment)
        end) (lines body))
  | Err (MetaFileNotFound f) =>
      if decide (f = MetaFile.RuntimeEnvironment) then
        r ← full_legacy_path self;
        Return (paths ← r; path ← join_paths paths; Ok [("PATH", path)])
      else Return (Err (MetaFileNotFound f))
  | Err e => Return (Err e)
  end.

(** [HashMap::get] after the insertions: the last one of the key. *)
Definition get (key : string) (env : list (string * string)) : option string :=
  (list_to_map (reverse env) : gmap string string) !! key.

Definition paths (self : t) : outcome (result package_error (list string)) :=
  match existing_metafile self MetaFile.RuntimeEnvironment with
  | Some _ =>
      r ← runtime_environment self;
      Return (env ← r;
              Ok (match get "PATH" env with
                  | Some path => split_paths path
                  | None => []
                  end))
  | None => Return (legacy_path self)
  end.
End with_engine_and_platform.
End with_disk.
End PackageInstall.
