(* ===== verification/InstallProofs.v ===== *)
(** * Installed packages: properties

    The list of installed packages is what the directory tree holds, and the two searches
    find the newest one; the search path of a package is free of repetitions. *)

From S2P Require Import Prelude Regex Text ServiceGroup Ident Target Metadata Install.
From Stdlib Require Import Ascii.
Local Open Scope string_scope.
Local Open Scope list_scope.

(** ** The list of installed packages *)

Definition entry (x : node) (n : string) (y : node) : Prop :=
  match x with Dir l => (n, y) ∈ l | _ => False end.

(** There is an origin directory with a name directory with a version directory that has an
    entry for the release. *)
Definition installed_below (top : node) (i : PackageIdent.t) : Prop :=
  exists xo xn xv xr v r,
    entry top (PackageIdent.origin i) xo /\ entry xo (PackageIdent.name i) xn /\
    PackageIdent.version i = Some v /\ entry xn v xv /\
    PackageIdent.release i = Some r /\ entry xv r xr.

Definition installed (disk : node) (fs_root : list string) (i : PackageIdent.t) : Prop :=
  exists top, lookup_path disk (pkg_root_path fs_root) = Some top /\ installed_below top i.

Lemma installed_fully_qualified disk root i :
  installed disk root i -> PackageIdent.fully_qualified i = true.
Proof.
  intros (top & _ & xo & xn & xv & xr & v & r & _ & _ & Hv & _ & Hr & _).
  unfold PackageIdent.fully_qualified. by rewrite Hv, Hr.
Qed.

Lemma entries_collected {A} (f : A -> result package_error (list PackageIdent.t)) l ps i :
  collect_entries f l = Ok ps -> i ∈ ps <-> exists x qs, x ∈ l /\ f x = Ok qs /\ i ∈ qs.
Proof.
  revert ps. induction l as [|x l IH]; intros ps; cbn.
  { intros [= <-]. split; [by intros ?%not_elem_of_nil|by intros (? & ? & ?%not_elem_of_nil & _)]. }
  destruct (f x) as [qs|] eqn:Ex; cbn; [|done]. destruct (collect_entries f l) as [rs|]; cbn; [|done].
  intros [= <-]. rewrite elem_of_app, (IH rs) by done. split.
  - intros [Hi|(z & zs & Hz & Ez & Hi)]; [exists x, qs|exists z, zs]; split_and!; try done; set_solver.
  - intros (z & zs & [->|Hz]%elem_of_cons & Ez & Hi); [left; congruence|right; by exists z, zs].
Qed.

Lemma entries_all {A} (f : A -> result package_error (list PackageIdent.t)) l ps x :
  collect_entries f l = Ok ps -> x ∈ l -> exists qs, f x = Ok qs.
Proof.
  revert ps. induction l as [|y l IH]; intros ps; cbn; [by intros _ ?%not_elem_of_nil|].
  destruct (f y) as [qs|] eqn:Ey; cbn; [|done]. destruct (collect_entries f l) as [rs|]; cbn; [|done].
  intros _ [->|Hin]%elem_of_cons; [eauto|]. by apply (IH rs).
Qed.

Lemma entries_err {A} (f : A -> result package_error (list PackageIdent.t)) l e :
  collect_entries f l = Err e -> exists x, x ∈ l /\ f x = Err e.
Proof.
  induction l as [|x l IH]; cbn; [done|]. destruct (f x) as [qs|] eqn:Ex; cbn.
  - destruct (collect_entries f l); cbn; [done|]. intros [= ->]. destruct IH as (z & ? & ?); [done|]. exists z. set_solver.
  - intros [= ->]. exists x. set_solver.
Qed.

(** One level of the walk: the directories among the entries are walked by [g]. *)
Definition walk_level (g : string -> node -> result package_error (list PackageIdent.t)) (x : node)
    : result package_error (list PackageIdent.t) :=
  l ← read_dir x;
  collect_entries (fun e : string * node => d ← is_dir e.2; if (d : bool) then g e.1 e.2 else Ok []) l.

Lemma walk_level_ok g x ps i :
  (forall n c, is_ok (g n (File c)) = false) ->
  walk_level g x = Ok ps -> i ∈ ps <-> exists n y qs, entry x n y /\ g n y = Ok qs /\ i ∈ qs.
Proof.
  intros Hg. unfold walk_level. destruct x as [|l| |]; cbn; try done. intros E.
  rewrite (entries_collected _ _ _ i E). split.
  - intros ([n y] & qs & Hin & Ey & Hi). exists n, y, qs. split; [done|]. split; [|done].
    destruct y; cbn in Ey; try done. injection Ey as <-. by apply not_elem_of_nil in Hi.
  - intros (n & y & qs & Hin & Ey & Hi). exists (n, y), qs. split; [done|]. split; [|done].
    destruct (entries_all _ _ _ (n, y) E Hin) as [rs Er].
    destruct y as [c| | |]; cbn in *; try done. specialize (Hg n c). by rewrite Ey in Hg.
Qed.

(** When the walk succeeds, so does the part of each directory. *)
Lemma walk_level_all g x ps n l : walk_level g x = Ok ps -> entry x n (Dir l) -> exists qs, g n (Dir l) = Ok qs.
Proof.
  unfold walk_level. destruct x as [|l'| |]; cbn; try done. intros E Hin.
  destruct (entries_all _ _ _ (n, Dir l) E Hin) as [rs Er]. by exists rs.
Qed.

Lemma walk_level_err g x e :
  (forall n y e, g n y = Err e -> e = IO) -> walk_level g x = Err e -> e = IO.
Proof.
  intros Hg. unfold walk_level. destruct x as [|l| |]; cbn; try congruence. intros E.
  apply entries_err in E as ([n y] & _ & E). destruct y; cbn in E; try congruence; by eapply Hg.
Qed.

Lemma walk_releases_ok o n v x ps i : walk_releases o n v x = Ok ps ->
  i ∈ ps <-> exists r y, entry x r y /\ i = PackageIdent.mk o n (Some v) (Some r).
Proof.
  unfold walk_releases. destruct x as [|l| |]; cbn; try done. intros [= <-].
  rewrite list_elem_of_fmap. split.
  - intros ([r y] & -> & Hin). by exists r, y.
  - intros (r & y & Hin & ->). by exists (r, y).
Qed.

Lemma package_list_below top ps i : walk_origins top = Ok ps -> i ∈ ps <-> installed_below top i.
Proof.
  intros E. change (walk_origins top) with (walk_level walk_names top) in E.
  rewrite (walk_level_ok walk_names _ _ i (fun _ _ => eq_refl) E).
  assert (Hv : forall o n x qs, walk_versions o n x = Ok qs ->
    i ∈ qs <-> exists v xv r xr, entry x v xv /\ entry xv r xr /\ i = PackageIdent.mk o n (Some v) (Some r)).
  { intros o n x qs E'. change (walk_versions o n x) with (walk_level (walk_releases o n) x) in E'.
    rewrite (walk_level_ok (walk_releases o n) _ _ i (fun _ _ => eq_refl) E'). split.
    - intros (v & xv & rs & Hin & Er & Hi). apply (walk_releases_ok _ _ _ _ _ _ Er) in Hi. naive_solver.
    - intros (v & xv & r & xr & Hin & Hr & ->). destruct xv as [|l| |]; try done.
      eexists v, (Dir l), _. split; [done|]. split; [reflexivity|].
      apply (list_elem_of_fmap_2 (fun e : string * node => PackageIdent.mk o n (Some v) (Some e.1)) l (r, xr)), Hr. }
  assert (Hn : forall o x qs, walk_names o x = Ok qs ->
    i ∈ qs <-> exists n xn qs', entry x n xn /\ walk_versions o n xn = Ok qs' /\ i ∈ qs').
  { intros o x qs E'. change (walk_names o x) with (walk_level (walk_versions o) x) in E'.
    apply (walk_level_ok (walk_versions o) _ _ i (fun _ _ => eq_refl) E'). }
  split.
  - intros (o & xo & qs & Ho & En & Hi). apply (Hn _ _ _ En) in Hi as (n & xn & qs' & Hxn & Ev & Hi).
    apply (Hv _ _ _ _ Ev) in Hi as (v & xv & r & xr & ? & ? & ->). by exists xo, xn, xv, xr, v, r.
  - intros (xo & xn & xv & xr & v & r & Ho & Hxn & Ev & Hxv & Er & Hxr).
    destruct xo as [|lo| |], xn as [|ln| |]; try done.
    destruct (walk_level_all _ _ _ _ _ E Ho) as [qs E1].
    destruct (walk_level_all (walk_versions (PackageIdent.origin i)) _ _ _ _ E1 Hxn) as [qs' E2].
    exists (PackageIdent.origin i), (Dir lo), qs. split_and!; [done..|]. apply (Hn _ _ _ E1).
    exists (PackageIdent.name i), (Dir ln), qs'. split_and!; [done..|]. apply (Hv _ _ _ _ E2).
    exists v, xv, r, xr. split_and!; [done..|]. destruct i; cbn in *; congruence.
Qed.

Lemma package_list_ok disk root ps i :
  package_list disk (pkg_root_path root) = Ok ps -> i ∈ ps <-> installed disk root i.
Proof.
  unfold package_list, installed. destruct (lookup_path disk (pkg_root_path root)) as [top|]; [|done].
  assert (Heq : (exists top', Some top = Some top' /\ installed_below top' i) <-> installed_below top i).
  { split; [by intros (? & [= <-] & ?)|by exists top]. }
  rewrite Heq. destruct top as [c|l| |]; cbn; try done; [|exact (package_list_below (Dir l) ps i)].
  intros [= <-]. split; [by intros ?%not_elem_of_nil|]. by intros (? & ? & ? & ? & ? & ? & [] & _).
Qed.

Lemma package_list_err disk root e :
  package_list disk (pkg_root_path root) = Err e -> e = IO.
Proof.
  unfold package_list. destruct (lookup_path disk (pkg_root_path root)) as [top|]; [|congruence].
  destruct (is_dir top) as [[]|] eqn:Ed; cbn; [|done|by destruct top; cbn in *; congruence].
  apply (walk_level_err walk_names). intros o xo e1. apply (walk_level_err (walk_versions o)).
  intros n xn e2. apply (walk_level_err (walk_releases o n)). intros v xv e3.
  unfold walk_releases. by destruct xv; cbn; congruence.
Qed.

Lemma not_exists_not_installed disk root i :
  exists_at disk (pkg_root_path root) = false -> ~ installed disk root i.
Proof.
  unfold exists_at, installed. intros E (top & Hl & (? & ? & ? & ? & ? & ? & Hent & _)).
  rewrite Hl in E. by destruct top.
Qed.

(** ** The searches *)
Section search.
  Context `{!RegexEngine}.

Definition all_comparable (l : list PackageIdent.t) : Prop :=
  forall a b, a ∈ l -> b ∈ l -> comparable a b.

Lemma not_newer_refl a : comparable a a -> not_newer a a.
Proof.
  intros (x & Hx & Hx' & _)%cmp_comparable. exists x. split; [done|].
  rewrite Hx in Hx'. by destruct x.
Qed.

(** The newest element of a list, as both folds keep it. *)
Definition newest (l : list PackageIdent.t) (a : PackageIdent.t) : Prop :=
  a ∈ l /\ forall b, b ∈ l -> not_newer b a.

Lemma newest_snoc l a b :
  all_comparable (l ++ [b]) -> newest l a ->
  (not_newer a b -> newest (l ++ [b]) b) /\ (not_newer b a -> newest (l ++ [b]) a).
Proof.
  intros Hc [Ha Hmax]. split; intros Hab; (split; [set_solver|]).
  - intros c [Hin| ->%list_elem_of_singleton]%elem_of_app; [|apply not_newer_refl, Hc; set_solver].
    apply (not_newer_trans c a b); [apply Hc; set_solver..|by apply Hmax|done].
  - intros c [Hin| ->%list_elem_of_singleton]%elem_of_app; [by apply Hmax|done].
Qed.

Lemma newer_fold l :
  all_comparable l -> (forall p, p ∈ l -> is_Some (PackageIdent.release p)) ->
  Returns (for_each (fun b w => PackageInstall.newer w b) l None) (fun w =>
    match w with Some a => newest l a | None => l = [] end).
Proof.
  intros Hc Hr. eapply Returns_mono; [apply (for_each_prefix (fun l1 w =>
    match w with Some a => newest l1 a | None => l1 = [] end))|done]; [done|].
  intros l1 b l2 w -> Hw. assert (Hc' : all_comparable (l1 ++ [b])).
  { intros x y Hx Hy. apply Hc; set_solver. }
  destruct w as [a|]; cbn.
  - destruct (cmp_comparable a b) as (x & Hx & Hx' & Hp); [apply Hc; destruct Hw; set_solver|].
    rewrite Hp by (apply Hr; destruct Hw; set_solver). cbn.
    destruct (newest_snoc l1 a b Hc' Hw) as [H1 H2].
    destruct x; cbn; [apply H2|apply H1|apply H2]; by eexists.
  - subst l1. split; [set_solver|]. intros c ->%list_elem_of_singleton. apply not_newer_refl, Hc; set_solver.
Qed.

(** With a lower bound [i]: the newest element, if it is not older than [i]. *)
Lemma newer_min_fold i l :
  all_comparable (i :: l) ->
  Returns (for_each (fun b w => PackageInstall.newer_min i w b) l None) (fun w =>
    match w with
    | Some a => newest l a /\ not_newer i a
    | None => forall b, b ∈ l -> cmp b i = Return Lt
    end).
Proof.
  intros Hc. eapply Returns_mono; [apply (for_each_prefix (fun l1 w =>
    match w with
    | Some a => newest l1 a /\ not_newer i a
    | None => forall b, b ∈ l1 -> cmp b i = Return Lt
    end))|done]; [by intros b ?%not_elem_of_nil|].
  intros l1 b l2 w -> Hw. assert (Hc' : all_comparable (l1 ++ [b])).
  { intros x y Hx Hy. apply Hc; set_solver. }
  destruct w as [a|]; cbn.
  - destruct Hw as [Hw Hi]. assert (Hab : comparable a b) by (apply Hc; destruct Hw; set_solver).
    destruct (cmp_comparable a b Hab) as (x & Hx & Hx' & _). rewrite Hx. cbn.
    destruct (newest_snoc l1 a b Hc' Hw) as [H1 H2].
    destruct x; cbn; [split; [apply H2; by eexists|done]| |split; [apply H2; by eexists|done]].
    assert (not_newer a b) by (by eexists). split; [by apply H1|].
    apply (not_newer_trans i a b); [apply Hc; destruct Hw; set_solver|done..].
  - destruct (cmp_comparable b i) as (x & Hx & Hx' & _); [apply Hc; set_solver|]. rewrite Hx. cbn.
    assert (Hnew : x <> Lt -> newest (l1 ++ [b]) b /\ not_newer i b).
    { intros Hne. assert (Hib : not_newer i b) by (exists (CompOpp x); split; [done|by destruct x]).
      split; [|done]. split; [set_solver|].
      intros c [Hin| ->%list_elem_of_singleton]%elem_of_app; [|apply not_newer_refl, Hc'; set_solver].
      apply (not_newer_trans c i b); [apply Hc; set_solver..| |done]. exists Lt. by rewrite Hw. }
    destruct x; cbn; [by apply Hnew| |by apply Hnew].
    intros c [Hin| ->%list_elem_of_singleton]%elem_of_app; [by apply Hw|done].
Qed.

Lemma satisfies_exactly p i :
  PackageIdent.satisfies p i = true -> PackageIdent.fully_qualified p = true ->
  PackageIdent.fully_qualified i = true -> p = i.
Proof.
  intros Hs Hp Hi. apply (satisfies_fully_qualified p i Hp) in Hs as (? & ? & Hv).
  destruct p, i; unfold PackageIdent.fully_qualified in *; cbn in *. repeat case_match; naive_solver.
Qed.

(** What a search returns for an installed package. *)
Definition install_of (root : list string) (i : PackageIdent.t) (inst : PackageInstall.t) : Prop :=
  exists v r, PackageIdent.version i = Some v /\ PackageIdent.release i = Some r /\
    inst = PackageInstall.mk i root (pkg_root_path root)
      (pkg_root_path root ++ [PackageIdent.origin i; PackageIdent.name i; v; r]).

Lemma found_spec disk root i :
  installed disk root i -> exists inst, PackageInstall.found i root = Return (Ok inst) /\ install_of root i inst.
Proof.
  intros (top & _ & xo & xn & xv & xr & v & r & _ & _ & Hv & _ & Hr & _).
  eexists. unfold PackageInstall.found, pkg_install_path, PackageIdent.fully_qualified.
  rewrite Hv, Hr. cbn. split; [done|]. by exists v, r.
Qed.

Lemma installed_release disk root p : installed disk root p -> is_Some (PackageIdent.release p).
Proof. intros (? & _ & ? & ? & ? & ? & ? & ? & _ & _ & _ & _ & -> & _). by eexists. Qed.

(** The search for a package never panics.  It returns an installed package that satisfies
    the identifier, none of which is newer, with the path it is installed under; it answers
    that there is none exactly when no installed package satisfies the identifier; and the
    only other error is that of listing the directories.  The versions of the candidates
    must be comparable. *)
Theorem resolve_finds_newest disk root i :
  (forall a b, installed disk root a -> installed disk root b ->
     PackageIdent.satisfies a i = true -> PackageIdent.satisfies b i = true -> comparable a b) ->
  Returns (PackageInstall.resolve_package_install disk i root) (fun res =>
    match res with
    | Ok inst => exists p, install_of root p inst /\ installed disk root p /\ PackageIdent.satisfies p i = true /\
        forall q, installed disk root q -> PackageIdent.satisfies q i = true -> not_newer q p
    | Err (PackageNotFound j) => j = i /\ forall q, installed disk root q -> PackageIdent.satisfies q i = false
    | Err e => e = IO /\ package_list disk (pkg_root_path root) = Err IO
    end).
Proof.
  intros Hc. unfold PackageInstall.resolve_package_install.
  destruct (exists_at disk (pkg_root_path root)) eqn:Ex; cbn.
  2: { split; [done|]. intros q Hq. by destruct (not_exists_not_installed _ _ q Ex). }
  destruct (package_list disk (pkg_root_path root)) as [pl|e] eqn:El.
  2: { assert (e = IO) as -> by (by eapply package_list_err). done. }
  assert (Hin : forall q, q ∈ pl <-> installed disk root q) by (intros; by apply package_list_ok).
  destruct (PackageIdent.fully_qualified i) eqn:Ei.
  - destruct (existsb _ pl) eqn:Es.
    + apply existsb_exists in Es as (p & Hp%list_elem_of_In%Hin & Hs).
      assert (p = i) as -> by (apply satisfies_exactly; [done|by eapply installed_fully_qualified|done]).
      destruct (found_spec _ _ _ Hp) as (inst & -> & Hinst). cbn. exists i. split_and!; [done..|].
      intros q Hq Hqs. apply satisfies_exactly in Hqs as ->; [|by eapply installed_fully_qualified|done].
      by apply not_newer_refl, Hc.
    + cbn. split; [done|]. intros q Hq%Hin%list_elem_of_In. destruct (PackageIdent.satisfies q i) eqn:E; [|done].
      rewrite <- Es. symmetry. apply existsb_exists. by exists q.
  - assert (Hf : forall q, q ∈ filter (fun p => PackageIdent.satisfies p i = true) pl <->
      PackageIdent.satisfies q i = true /\ installed disk root q) by (intros; by rewrite list_elem_of_filter, Hin).
    eapply Returns_bind; [apply newer_fold|].
    + intros a b [??]%Hf [??]%Hf. by apply Hc.
    + intros p [_ Hp]%Hf. by eapply installed_release.
    + intros [a|] Hw; cbn beta in *.
      * destruct Hw as [[Has Ha]%Hf Hmax]. destruct (found_spec _ _ _ Ha) as (inst & -> & Hinst).
        cbn. exists a. split_and!; [done..|]. intros q Hq Hqs. by apply Hmax, Hf.
      * cbn. split; [done|]. intros q Hq. destruct (PackageIdent.satisfies q i) eqn:E; [|done].
        assert (q ∈ []) as ?%not_elem_of_nil; [|done]. rewrite <- Hw. by apply Hf.
Qed.

Definition least_ident (i : PackageIdent.t) : PackageIdent.t :=
  if decide (PackageIdent.version i = None)
  then PackageIdent.mk (PackageIdent.origin i) (PackageIdent.name i) (Some "0") (Some "0") else i.

Definition same_package (i p : PackageIdent.t) : Prop :=
  PackageIdent.origin p = PackageIdent.origin i /\ PackageIdent.name p = PackageIdent.name i.

Lemma same_package_least i p : same_package (least_ident i) p <-> same_package i p.
Proof. unfold same_package, least_ident. by case_decide. Qed.

(** The search for a package that is at least as new as an identifier (as version 0 if the
    identifier has none) never panics.  It returns the newest installed release of that
    package, which is not older than the identifier; it answers that there is none exactly
    when all installed releases are older. *)
Theorem resolve_min_finds_newest disk root i :
  (forall a b, a = least_ident i \/ installed disk root a /\ same_package i a ->
     b = least_ident i \/ installed disk root b /\ same_package i b -> comparable a b) ->
  Returns (PackageInstall.resolve_package_install_min disk i root) (fun res =>
    match res with
    | Ok inst => exists p, install_of root p inst /\ installed disk root p /\ same_package i p /\
        not_newer (least_ident i) p /\ forall q, installed disk root q -> same_package i q -> not_newer q p
    | Err (PackageNotFound j) => j = least_ident i /\
        forall q, installed disk root q -> same_package i q -> cmp q (least_ident i) = Return Lt
    | Err e => e = IO /\ package_list disk (pkg_root_path root) = Err IO
    end).
Proof.
  intros Hc. unfold PackageInstall.resolve_package_install_min. fold (least_ident i). cbv zeta.
  destruct (exists_at disk (pkg_root_path root)) eqn:Ex; cbn -[least_ident].
  2: { split; [done|]. intros q Hq. by destruct (not_exists_not_installed _ _ q Ex). }
  destruct (package_list disk (pkg_root_path root)) as [pl|e] eqn:El.
  2: { assert (e = IO) as -> by (by eapply package_list_err). done. }
  assert (Hf : forall q, q ∈ filter (fun p => PackageIdent.origin p = PackageIdent.origin (least_ident i) /\
      PackageIdent.name p = PackageIdent.name (least_ident i)) pl <-> same_package i q /\ installed disk root q).
  { intros q. rewrite list_elem_of_filter, (package_list_ok _ _ _ _ El).
    pose proof (same_package_least i q) as Hs. unfold same_package in *. tauto. }
  eapply Returns_bind; [apply newer_min_fold|].
  - intros a b [->|[??]%Hf]%elem_of_cons [->|[??]%Hf]%elem_of_cons; apply Hc; auto.
  - intros [a|] Hw; cbn beta in *.
    + destruct Hw as [[[Has Ha]%Hf Hmax] Hi]. destruct (found_spec _ _ _ Ha) as (inst & -> & Hinst).
      cbn -[least_ident]. exists a. split_and!; [done..|]. intros q Hq Hqs. by apply Hmax, Hf.
    + cbn -[least_ident]. split; [done|]. intros q Hq Hqs. by apply Hw, Hf.
Qed.
End search.

(** ** The search path of older packages *)
Section paths.
  Context `{!RegexEngine} (disk : node) (current : Platform.t).

(** The state of the loop: the entries kept, without repetition, and the keys seen. *)
Definition path_inv (all : list string) (st : list string * gset (bool * bool * list string)) : Prop :=
  NoDup (PackageInstall.path_key <$> st.1) /\
  (forall k, k ∈ st.2 <-> k ∈ PackageInstall.path_key <$> st.1) /\
  forall P : string -> bool, (forall x y, PackageInstall.path_key x = PackageInstall.path_key y -> P x = P y) ->
    List.find P st.1 = List.find P all.

Lemma find_app {A} (P : A -> bool) l1 l2 :
  List.find P (l1 ++ l2) = match List.find P l1 with Some x => Some x | None => List.find P l2 end.
Proof. induction l1 as [|x l1 IH]; cbn; [done|]. by destruct (P x). Qed.

Lemma add_path_inv all st x : path_inv all st -> path_inv (all ++ [x]) (PackageInstall.add_path st x).
Proof.
  destruct st as [full seen]. intros (Hnd & Hseen & Hfind). unfold PackageInstall.add_path. cbn in *.
  case_decide as Hx; (split_and!; cbn; [|intros k|intros P HP; rewrite !find_app, <- (Hfind P HP)]); try done.
  - cbn. destruct (List.find P full) as [y|] eqn:Ef; [done|].
    apply Hseen, list_elem_of_fmap in Hx as (y & Hk & Hy).
    rewrite (HP x y Hk). destruct (P y) eqn:Ep; [|done].
    by rewrite (List.find_none _ _ Ef y) in Ep by (by apply list_elem_of_In).
  - rewrite fmap_app. apply NoDup_app. split_and!; [done| |apply NoDup_singleton].
    intros k Hk ->%list_elem_of_singleton. by apply Hx, Hseen.
  - rewrite elem_of_union, elem_of_singleton, Hseen, fmap_app, elem_of_app.
    change (PackageInstall.path_key <$> [x]) with [PackageInstall.path_key x]. rewrite list_elem_of_singleton. tauto.
Qed.

Lemma add_paths_inv all st l : path_inv all st -> path_inv (all ++ l) (foldl PackageInstall.add_path st l).
Proof.
  revert all st. induction l as [|x l IH]; intros all st Hst; cbn; [by rewrite app_nil_r|].
  replace (all ++ x :: l) with ((all ++ [x]) ++ l) by (by rewrite <- app_assoc).
  by apply IH, add_path_inv.
Qed.

Lemma add_path_lists_inv all st ls :
  path_inv all st -> path_inv (all ++ concat ls) (foldl (foldl PackageInstall.add_path) st ls).
Proof.
  revert all st. induction ls as [|l ls IH]; intros all st Hst; cbn; [by rewrite app_nil_r|].
  rewrite app_assoc. by apply IH, add_paths_inv.
Qed.

(** *** The searches return *)
Lemma resolve_returns i root :
  Returns (PackageInstall.resolve_package_install disk i root) (fun _ => True).
Proof.
  unfold PackageInstall.resolve_package_install. destruct (exists_at _ _); cbn; [|done].
  destruct (package_list disk (pkg_root_path root)) as [pl|] eqn:El; [|done].
  assert (Hfound : forall p, PackageIdent.fully_qualified p = true -> Returns (PackageInstall.found p root) (fun _ => True)).
  { intros p Hp. unfold PackageInstall.found, pkg_install_path. rewrite Hp.
    unfold PackageIdent.fully_qualified in Hp. by destruct (PackageIdent.version p), (PackageIdent.release p). }
  destruct (PackageIdent.fully_qualified i) eqn:Ei; [destruct (existsb _ pl); [by apply Hfound|done]|].
  eapply Returns_bind; [apply (for_each_inv (fun w => forall a, w = Some a -> PackageIdent.fully_qualified a = true)); [done|]|].
  - intros b w [_ Hb%(package_list_ok _ _ _ _ El)%installed_fully_qualified]%list_elem_of_filter Hw.
    destruct w as [a|]; cbn; [|naive_solver]. destruct (partial_cmp_total a b) as [x ->]. cbn.
    intros c Hc. destruct x as [[]|]; naive_solver.
  - intros [a|] Hw; [by apply Hfound, Hw|done].
Qed.

Lemma load_returns i root : Returns (PackageInstall.load disk current i root) (fun _ => True).
Proof.
  unfold PackageInstall.load, PackageInstall.validated. eapply Returns_bind; [apply resolve_returns|done].
Qed.

Lemma load_all_returns self l : Returns (PackageInstall.load_all disk current self l) (fun _ => True).
Proof.
  induction l as [|d l IH]; cbn; [done|]. eapply Returns_bind; [apply load_returns|].
  intros [inst|] _; [|done]. eapply Returns_bind; [apply IH|done].
Qed.

(** The search path of a package without a runtime environment never panics, and when its
    dependencies load it holds no directory twice and finds every command where the full
    list finds it: that of the package's own path, followed by those of its transitive and
    then direct dependencies, the last one first. *)
Theorem full_legacy_path_search self :
  Returns (PackageInstall.full_legacy_path disk current self) (fun r => forall full, r = Ok full ->
    exists own ts ds ps, PackageInstall.legacy_path disk self = Ok own /\
      PackageInstall.load_tdeps disk current self = Return (Ok ts) /\
      PackageInstall.load_deps disk current self = Return (Ok ds) /\
      Forall2 (fun dep p => PackageInstall.legacy_path disk dep = Ok p) (reverse (ts ++ ds)) ps /\
      NoDup (PackageInstall.path_key <$> full) /\
      forall P : string -> bool, (forall x y, PackageInstall.path_key x = PackageInstall.path_key y -> P x = P y) ->
        List.find P full = List.find P (own ++ concat ps)).
Proof.
  unfold PackageInstall.full_legacy_path.
  destruct (PackageInstall.legacy_path disk self) as [own|]; [|done].
  assert (Hr : forall r, r = PackageInstall.load_tdeps disk current self \/ r = PackageInstall.load_deps disk current self ->
    Returns r (fun _ => True)).
  { unfold PackageInstall.load_tdeps, PackageInstall.load_deps.
    intros r [->| ->]; (destruct (PackageInstall.tdeps disk self) || idtac);
      (destruct (PackageInstall.deps disk self) || idtac); (apply load_all_returns || done). }
  pose proof (Hr _ (or_introl eq_refl)) as Ht. pose proof (Hr _ (or_intror eq_refl)) as Hd.
  apply Returns_inv in Ht as (rt & -> & _), Hd as (rd & -> & _). cbn.
  destruct rt as [ts|]; [|done]. destruct rd as [ds|]; [|done]. cbn.
  destruct (try_map _ _) as [ps|] eqn:Ep; [|done]. cbn. intros full [= <-]. exists own, ts, ds, ps.
  apply try_map_ok in Ep. split_and!; [done..| |].
  all: edestruct (add_path_lists_inv own (foldl PackageInstall.add_path ([], ∅) own) ps) as (Hnd & _ & Hfind); [|done].
  all: apply (add_paths_inv []); split_and!; [constructor|set_solver|done].
Qed.
End paths.

(** ** Malformed exports *)

(** Reading the exports of a package panics exactly when a line of the file has no [=],
    while a line without [=] in its runtime environment is reported as a malformed file. *)
Theorem malformed_lines `{!RegexEngine} disk current self body env :
  PackageInstall.read_metafile disk self MetaFile.Exports = Ok body ->
  PackageInstall.read_metafile disk self MetaFile.RuntimeEnvironment = Ok env ->
  (Returns (PackageInstall.exports disk self) (fun _ => True) <->
   forall line, line ∈ lines body -> is_Some (splitn2 "="%char line).2) /\
  (PackageInstall.runtime_environment disk current self = Return (Err (MetaFileMalformed MetaFile.RuntimeEnvironment)) <->
   ~ forall line, line ∈ lines env -> is_Some (splitn2 "="%char line).2).
Proof.
  intros Hb He. split.
  - unfold PackageInstall.exports, parse_key_value. rewrite Hb. split.
    + intros Hr line Hin. destruct (splitn2 "="%char line) as [k [v|]] eqn:El; [by eexists|]. exfalso. revert Hr.
      destruct (for_each_panic (fun l (m : list (string * string)) =>
        let '(k, v) := splitn2 "="%char l in
        v ← expect "index out of bounds: the len is 1 but the index is 1" v; Return (m ++ [(k, v)])) line (lines body) [])
        as [msg Hp]; [done| |by rewrite Hp]. intros m. rewrite El. by eexists.
    + intros Hall. apply (Returns_bind _ _ (fun _ => True)); [|by intros []].
      apply (Returns_bind _ _ (fun _ => True)); [|done]. apply (for_each_inv (fun _ => True)); [done|]. intros line m Hin _.
      destruct (Hall line Hin) as [v Hv]. destruct (splitn2 _ line) as [k w]. cbn in Hv. subst w. exact I.
  - unfold PackageInstall.runtime_environment. rewrite He.
    destruct (try_map _ (lines env)) as [kvs|e] eqn:Et.
    + split; [done|]. intros Hn. destruct Hn. intros line Hin. apply try_map_ok in Et.
      apply list_elem_of_lookup in Hin as [n Hn].
      destruct (Forall2_lookup_l _ _ _ _ _ Et Hn) as (kv & _ & Hkv).
      destruct (splitn2 _ line) as [k [v|]]; [by eexists|done].
    + apply try_map_err in Et as (line & Hin & El). destruct (splitn2 _ line) as [k [v|]] eqn:Es; [done|].
      injection El as <-. split; [|done]. intros _ Hall. specialize (Hall line Hin). rewrite Es in Hall. by destruct Hall.
Qed.

(** ** An example disk *)
Module InstallExample.
#[local] Existing Instance reference_engine.

Definition target_file : string * node := ("TARGET", File (Contents "x86_64-linux")).

Definition redis (release : string) : string * node := (release, Dir [target_file; ("EXPORTS", File (Contents "port"))]).

Definition disk : node :=
  Dir [("hab", Dir [("pkgs", Dir [("core", Dir [("redis", Dir
    [("3.2.4", Dir [redis "20170514150022"; redis "20161102171345"]); ("3.2.3", Dir [redis "20160920131015"])])])])])].

Definition ident (v r : string) : PackageIdent.t := PackageIdent.mk "core" "redis" (Some v) (Some r).

Lemma installed_here i : installed disk [] i ->
  i ∈ [ident "3.2.4" "20170514150022"; ident "3.2.4" "20161102171345"; ident "3.2.3" "20160920131015"].
Proof. intros Hi. apply (package_list_ok disk [] _ i); [reflexivity|exact Hi]. Defined.

Ltac compare_all :=
  intros; repeat match goal with
  | H : _ \/ _ |- _ => destruct H as [H|H]
  | H : _ /\ _ |- _ => destruct H as [H _]
  | H : installed _ _ _ |- _ => apply installed_here in H
  | H : _ ∈ _ :: _ |- _ => apply elem_of_cons in H as [H|H]
  | H : _ ∈ [] |- _ => by apply not_elem_of_nil in H
  end; subst; (split; [reflexivity|]); eexists _, _, _; (split; [reflexivity|]); (split; [reflexivity|]);
  vm_compute; reflexivity.

Lemma resolve_finds_newest_witness :
  Returns (PackageInstall.resolve_package_install disk (PackageIdent.mk "core" "redis" None None) []) (fun res =>
    exists inst, res = Ok inst /\ PackageInstall.ident inst = ident "3.2.4" "20170514150022").
Proof.
  eapply Returns_mono; [apply (resolve_finds_newest disk [] (PackageIdent.mk "core" "redis" None None)); compare_all|].
  cbn beta. intros [inst|e] Hres.
  - exists inst. split; [reflexivity|]. destruct Hres as (p & (v & r & Hv & Hr & ->) & Hp & _ & Hmax).
    assert (Hq : not_newer (ident "3.2.4" "20170514150022") p).
    { apply Hmax; [|reflexivity]. apply (package_list_ok disk [] _ _ eq_refl). left. }
    apply installed_here in Hp. cbn [PackageInstall.ident].
    apply elem_of_cons in Hp as [->|Hp]; [reflexivity|].
    repeat apply elem_of_cons in Hp as [->|Hp]; [..|by apply not_elem_of_nil in Hp].
    all: destruct Hq as (x & Hx & Nx); vm_compute in Hx; injection Hx as <-; by destruct Nx.
  - exfalso. destruct e; destruct Hres as [E Hres]; try discriminate E; [|vm_compute in Hres; discriminate Hres].
    assert (Hin : installed disk [] (ident "3.2.4" "20170514150022")) by (apply (package_list_ok disk [] _ _ eq_refl); left).
    discriminate (Hres _ Hin).
Defined.

Lemma resolve_min_finds_newest_witness :
  Returns (PackageInstall.resolve_package_install_min disk (PackageIdent.mk "core" "redis" (Some "3.3") None) []) (fun res =>
    res = Err (PackageNotFound (PackageIdent.mk "core" "redis" (Some "3.3") None))).
Proof.
  eapply Returns_mono; [apply (resolve_min_finds_newest disk [] (PackageIdent.mk "core" "redis" (Some "3.3") None)); compare_all|].
  cbn beta. intros [inst|e] Hres.
  2: { destruct e; destruct Hres as [E Hres]; try discriminate E; [rewrite E; reflexivity|vm_compute in Hres; discriminate Hres]. }
  exfalso. destruct Hres as (p & _ & Hp & _ & (x & Hx & Nx) & _). apply installed_here in Hp.
  repeat apply elem_of_cons in Hp as [->|Hp]; [..|by apply not_elem_of_nil in Hp].
  all: vm_compute in Hx; injection Hx as <-; by destruct Nx.
Defined.

(** Reads [self] of the example and a runtime environment that lacks a [=]. *)
Definition broken : node :=
  Dir [("EXPORTS", File (Contents "port")); ("RUNTIME_ENVIRONMENT", File (Contents "PATH"))].

Lemma malformed_lines_witness :
  let self := PackageInstall.mk (ident "3.2.3" "20160920131015") [] [] [] in
  ~ Returns (PackageInstall.exports broken self) (fun _ => True) /\
  PackageInstall.runtime_environment broken Platform.Linux self =
    Return (Err (MetaFileMalformed MetaFile.RuntimeEnvironment)).
Proof.
  intros self. destruct (malformed_lines broken Platform.Linux self "port" "PATH" eq_refl eq_refl) as [H1 H2].
  split.
  - intros Hr. destruct (proj1 H1 Hr "port") as [v Hv]; [left|discriminate Hv].
  - apply H2. intros Hall. destruct (Hall "PATH") as [v Hv]; [left|discriminate Hv].
Defined.
End InstallExample.
