(* ===== verification/ServiceSpec.v ===== *)
(** * Service specifications

    Models [components/sup/src/manager/service/spec.rs], the enumerations [Topology] and
    [UpdateStrategy] of [components/sup/src/manager/service/mod.rs], and the serde helpers of
    [components/core/src/util/mod.rs] they use.  The TOML library is a parameter: printing and
    parsing a table of texts are inverse. *)

From S2P Require Import Prelude Regex Text ServiceGroup Ident Target Metadata Install.
From Stdlib Require Import Ascii.
Local Open Scope string_scope.
Local Open Scope list_scope.

(** ** TOML documents *)
Inductive toml_value :=
| TString (s : string)
| TArray (l : list toml_value)
| TOther.

Abbreviation table := (gmap string toml_value).

(** Errors of the TOML library, and those serde derives: a field of the wrong type, or one
    whose text its parser rejects. *)
Inductive toml_error :=
| Syntax (msg : string)
| InvalidType (field : string)
| CannotBeParsed (value : string).

(** A text, or an array of texts. *)
Definition plain (v : toml_value) : Prop :=
  match v with
  | TString _ => True
  | TArray l => Forall (fun x => match x with TString _ => True | _ => False end) l
  | TOther => False
  end.

Class Toml := {
  toml_to_string : table -> result toml_error string;
  toml_from_str : string -> result toml_error table;
  toml_round_trip t : map_Forall (fun _ => plain) t ->
    exists s, toml_to_string t = Ok s /\ toml_from_str s = Ok t;
}.

(** [deserialize_using_from_str] on a value. *)
Definition deserialize_using_from_str {A E} (from_str : string -> result E A) (field : string) (v : toml_value)
    : result toml_error A :=
  match v with
  | TString s => match from_str s with Ok a => Ok a | Err _ => Err (CannotBeParsed s) end
  | _ => Err (InvalidType field)
  end.

(** A field of a struct that derives [Deserialize] with [serde(default)]. *)
Definition field {A} (de : string -> toml_value -> result toml_error A) (default : A) (t : table) (name : string)
    : result toml_error A :=
  match t !! name with Some v => de name v | None => Ok default end.

Definition de_string (field : string) (v : toml_value) : result toml_error string :=
  match v with TString s => Ok s | _ => Err (InvalidType field) end.

Definition de_option {A} (de : string -> toml_value -> result toml_error A) (field : string) (v : toml_value)
    : result toml_error (option A) :=
  match de field v with Ok a => Ok (Some a) | Err e => Err e end.

Definition de_vec {A} (de : string -> toml_value -> result toml_error A) (field : string) (v : toml_value)
    : result toml_error (list A) :=
  match v with TArray l => try_map (de field) l | _ => Err (InvalidType field) end.

(** ** Errors *)
Inductive sup_error :=
| BadDesiredState (value : string)
| BadStartStyle (value : string)
| InvalidTopology (value : string)
| InvalidUpdateStrategy (value : string)
| InvalidBinding (value : string)
| MissingRequiredIdent
| MissingRequiredBind (binds : list string)
| InvalidBinds (binds : list string)
| ServiceSpecParse (e : toml_error)
| ServiceSpecRender (e : toml_error)
| ServiceSpecFileIO (path : string)
| SpecWatcherDirNotFound (path : string)
| SpecWatcherGlob
| BadPackage (package : PackageInstall.t) (e : package_error)
| HabitatCore (e : package_error).

(** ** The enumerations *)
Module DesiredState.
Inductive t := Down | Up.
Definition default : t := Up.
Definition to_string (x : t) : string := match x with Down => "down" | Up => "up" end.
Definition from_str (value : string) : result sup_error t :=
  let v := to_lowercase value in
  if String.eqb v "down" then Ok Down else if String.eqb v "up" then Ok Up
  else Err (BadDesiredState value).
End DesiredState.

Module StartStyle.
Inductive t := Persistent | Transient.
Definition default : t := Transient.
Definition to_string (x : t) : string := match x with Persistent => "persistent" | Transient => "transient" end.
Definition from_str (value : string) : result sup_error t :=
  let v := to_lowercase value in
  if String.eqb v "persistent" then Ok Persistent else if String.eqb v "transient" then Ok Transient
  else Err (BadStartStyle value).
End StartStyle.

Module Topology.
Inductive t := Standalone | Leader.
Definition as_str (x : t) : string := match x with Leader => "leader" | Standalone => "standalone" end.
Definition from_str (value : string) : result sup_error t :=
  if String.eqb value "leader" then Ok Leader else if String.eqb value "standalone" then Ok Standalone
  else Err (InvalidTopology value).
Definition default : t := Standalone.
End Topology.

Module UpdateStrategy.
Inductive t := None | AtOnce | Rolling.
Definition as_str (x : t) : string := match x with None => "none" | AtOnce => "at-once" | Rolling => "rolling" end.
Definition from_str (value : string) : result sup_error t :=
  if String.eqb value "none" then Ok None else if String.eqb value "at-once" then Ok AtOnce
  else if String.eqb value "rolling" then Ok Rolling
  else Err (InvalidUpdateStrategy value).
Definition default : t := None.
End UpdateStrategy.

#[export] Instance DesiredState_eq_dec : EqDecision DesiredState.t.
Proof. solve_decision. Defined.
#[export] Instance StartStyle_eq_dec : EqDecision StartStyle.t.
Proof. solve_decision. Defined.
#[export] Instance Topology_eq_dec : EqDecision Topology.t.
Proof. solve_decision. Defined.
#[export] Instance UpdateStrategy_eq_dec : EqDecision UpdateStrategy.t.
Proof. solve_decision. Defined.

(** ** Binds *)
Module ServiceBind.
Record t := mk { name : string; service_group : ServiceGroup.t }.

Section with_engine.
  Context `{!RegexEngine}.

Definition from_str (bind_str : string) : result sup_error t :=
  match split ":"%char bind_str with
  | [n; g] =>
      match ServiceGroup.from_str g with
      | Ok sg => Ok (mk n sg)
      | Err e => Err (HabitatCore (Core e))
      end
  | _ => Err (InvalidBinding bind_str)
  end.
End with_engine.

Definition to_string (self : t) : string := name self +:+ ":" +:+ ServiceGroup.as_str (service_group self).
End ServiceBind.

#[export] Instance ServiceBind_eq_dec : EqDecision ServiceBind.t.
Proof. solve_decision. Defined.

(** ** The directory of a specification

    File names and what is under them; [Path::file_stem] and [Path::with_extension] cut a
    name at its last dot, unless that is its first character. *)
Inductive dirent := Regular (c : content) | NotAFile.
Abbreviation directory := (gmap string dirent).

Definition file_stem (name : string) : string :=
  if String.eqb name ".." then name
  else match cut "."%char (rev (to_chars name)) with
       | (_, Some (c :: stem)) => of_chars (rev (c :: stem))
       | _ => name
       end.

Definition with_extension (name ext : string) : string :=
  if String.eqb ext "" then file_stem name else file_stem name +:+ "." +:+ ext.

(** Which steps of saving a file fail; a failing write leaves a part of the text. *)
Record faults := Faults {
  mkdir_fails : bool;
  create_fails : bool;
  write_fails : option string;
  rename_fails : bool;
}.

(** ** Specifications

    [config_from] is an [Option<PathBuf>] in the code; it is read from and written to TOML, which
    holds text, so a path is its text. *)
Module ServiceSpec.
Record t := mk {
  ident : PackageIdent.t;
  group : string;
  application_environment : option ApplicationEnvironment.t;
  bldr_url : string;
  channel : string;
  topology : Topology.t;
  update_strategy : UpdateStrategy.t;
  binds : list ServiceBind.t;
  config_from : option string;
  desired_state : DesiredState.t;
  start_style : StartStyle.t;
  svc_encrypted_password : option string;
  composite : option string;
}.

#[global] Instance t_eq_dec : EqDecision t.
Proof. solve_decision. Defined.

Definition DEFAULT_GROUP : string := "default".
Definition SPEC_FILE_EXT : string := "spec".
Definition DEFAULT_BLDR_URL : string := "https://bldr.habitat.sh".
Definition STABLE_CHANNEL : string := "stable".

Definition default : t :=
  mk PackageIdent.default DEFAULT_GROUP None DEFAULT_BLDR_URL STABLE_CHANNEL Topology.default
    UpdateStrategy.default [] None DesiredState.default StartStyle.default None None.

Definition default_for (i : PackageIdent.t) : t :=
  mk i DEFAULT_GROUP None DEFAULT_BLDR_URL STABLE_CHANNEL Topology.default
    UpdateStrategy.default [] None DesiredState.default StartStyle.default None None.

(** The derived [Serialize]: one entry per field, a [None] has none. *)
Definition fields (self : t) : list (string * option toml_value) := [
    ("ident", Some (TString (PackageIdent.to_string (ident self))));
    ("group", Some (TString (group self)));
    ("application_environment", TString ∘ ApplicationEnvironment.as_str <$> application_environment self);
    ("bldr_url", Some (TString (bldr_url self)));
    ("channel", Some (TString (channel self)));
    ("topology", Some (TString (Topology.as_str (topology self))));
    ("update_strategy", Some (TString (UpdateStrategy.as_str (update_strategy self))));
    ("binds", Some (TArray (TString ∘ ServiceBind.to_string <$> binds self)));
    ("config_from", TString <$> config_from self);
    ("desired_state", Some (TString (DesiredState.to_string (desired_state self))));
    ("start_style", Some (TString (StartStyle.to_string (start_style self))));
    ("svc_encrypted_password", TString <$> svc_encrypted_password self);
    ("composite", TString <$> composite self)].

Definition serialize (self : t) : table :=
  list_to_map (omap (fun kv : string * option toml_value => v ← kv.2; Some (kv.1, v)) (fields self)).

Section with_libraries.
  Context `{!RegexEngine, !Toml}.

Definition deserialize_application_environment (name : string) (v : toml_value)
    : result toml_error (option ApplicationEnvironment.t) :=
  s ← de_option de_string name v;
  match s with
  | Some s => match ApplicationEnvironment.from_str s with Ok a => Ok (Some a) | Err _ => Err (CannotBeParsed s) end
  | None => Ok None
  end.

(** The derived [Deserialize]: unknown entries are ignored. *)
Definition deserialize (tbl : table) : result toml_error t :=
  ident ← field (deserialize_using_from_str PackageIdent.from_str) (ident default) tbl "ident";
  group ← field de_string (group default) tbl "group";
  application_environment ← field deserialize_application_environment (application_environment default) tbl "application_environment";
  bldr_url ← field de_string (bldr_url default) tbl "bldr_url";
  channel ← field de_string (channel default) tbl "channel";
  topology ← field (deserialize_using_from_str Topology.from_str) (topology default) tbl "topology";
  update_strategy ← field (deserialize_using_from_str UpdateStrategy.from_str) (update_strategy default) tbl "update_strategy";
  binds ← field (de_vec (deserialize_using_from_str ServiceBind.from_str)) (binds default) tbl "binds";
  config_from ← field (de_option de_string) (config_from default) tbl "config_from";
  desired_state ← field (deserialize_using_from_str DesiredState.from_str) (desired_state default) tbl "desired_state";
  start_style ← field (deserialize_using_from_str StartStyle.from_str) (start_style default) tbl "start_style";
  svc_encrypted_password ← field (de_option de_string) (svc_encrypted_password default) tbl "svc_encrypted_password";
  composite ← field (de_option de_string) (composite default) tbl "composite";
  Ok (mk ident group application_environment bldr_url channel topology update_strategy binds config_from
        desired_state start_style svc_encrypted_password composite).

Definition to_toml_string (self : t) : result sup_error string :=
  if decide (ident self = PackageIdent.default) then Err MissingRequiredIdent
  else match toml_to_string (serialize self) with
       | Ok s => Ok s
       | Err e => Err (ServiceSpecRender e)
       end.

Definition from_str (toml : string) : result sup_error t :=
  match (tbl ← toml_from_str toml; deserialize tbl) with
  | Err e => Err (ServiceSpecParse e)
  | Ok spec => if decide (ident spec = PackageIdent.default) then Err MissingRequiredIdent else Ok spec
  end.

Definition from_file (dir : directory) (path : string) : result sup_error t :=
  match dir !! path with
  | Some (Regular (Contents buf)) => from_str buf
  | _ => Err (ServiceSpecFileIO path)
  end.

(** The text goes to a temporary file, with the random extension [ext], that is renamed. *)
Definition to_file (self : t) (dir : directory) (path ext : string) (io : faults) : directory * result sup_error unit :=
  let tmpfile := with_extension path ext in
  if mkdir_fails io then (dir, Err (ServiceSpecFileIO path))
  else if create_fails io then (dir, Err (ServiceSpecFileIO tmpfile))
  else
    let dir := <[tmpfile := Regular (Contents "")]> dir in
    match to_toml_string self with
    | Err e => (dir, Err e)
    | Ok toml =>
        match write_fails io with
        | Some part => (<[tmpfile := Regular (Contents part)]> dir, Err (ServiceSpecFileIO tmpfile))
        | None =>
            let dir := <[tmpfile := Regular (Contents toml)]> dir in
            if rename_fails io then (dir, Err (ServiceSpecFileIO path))
            else (<[path := Regular (Contents toml)]> (delete tmpfile dir), Ok tt)
        end
    end.
End with_libraries.

Definition file_name (self : t) : string := PackageIdent.name (ident self) +:+ "." +:+ SPEC_FILE_EXT.

(** The loop over the required binds: those left of the service and those missing. *)
Definition take_required (st : gset string * list string) (req_bind : string) : gset string * list string :=
  let '(svc_binds, missing) := st in
  if decide (req_bind ∈ svc_binds) then (svc_binds ∖ {[req_bind]}, missing)
  else (svc_binds, missing ++ [req_bind]).

Definition take_optional (svc_binds : gset string) (opt_bind : string) : gset string :=
  if decide (opt_bind ∈ svc_binds) then svc_binds ∖ {[opt_bind]} else svc_binds.

Definition validate_binds (o : order) (self : t) (disk : node) (package : PackageInstall.t) : result sup_error unit :=
  let svc_binds : gset string := list_to_set (ServiceBind.name <$> binds self) in
  match PackageInstall.binds disk package with
  | Err e => Err (HabitatCore e)
  | Ok required =>
      let '(svc_binds, missing) := foldl take_required (svc_binds, []) (Bind.service <$> required) in
      if negb (bool_decide (missing = [])) then Err (MissingRequiredBind missing)
      else
        match PackageInstall.binds_optional disk package with
        | Err e => Err (HabitatCore e)
        | Ok optional =>
            let svc_binds := foldl take_optional svc_binds (Bind.service <$> optional) in
            if negb (bool_decide (svc_binds = ∅)) then Err (InvalidBinds (permute o (elements svc_binds)))
            else Ok tt
        end
  end.

Definition validate (o : order) (self : t) (disk : node) (package : PackageInstall.t) : result sup_error unit :=
  _ ← validate_binds o self disk package; Ok tt.
End ServiceSpec.
