(* ===== verification/ServiceSpecProofs.v ===== *)
(** * Service specifications: properties

    Saving a specification and reading it back, the atomicity of saving, and what the
    validation of the binds accepts. *)

From Stdlib Require Import Ascii.
From S2P Require Import Prelude Regex Text ServiceGroup Ident Target Metadata Install ServiceSpec.
Local Open Scope string_scope.
Local Open Scope list_scope.

(** ** Tables of optional entries *)
Fixpoint assoc (k : string) (l : list (string * option toml_value)) : option toml_value :=
  match l with
  | [] => None
  | (k', v) :: l => if String.eqb k' k then v else assoc k l
  end.

Definition entries (l : list (string * option toml_value)) : list (string * toml_value) :=
  omap (fun kv : string * option toml_value => v ← kv.2; Some (kv.1, v)) l.

Lemma entries_keys l k v : (k, v) ∈ entries l -> (k, Some v) ∈ l.
Proof.
  unfold entries. rewrite list_elem_of_omap. intros ([k' [v'|]] & Hin & E); cbn in E; naive_solver.
Qed.

Lemma lookup_entries l k :
  NoDup l.*1 -> (list_to_map (entries l) : table) !! k = assoc k l.
Proof.
  induction l as [|[k' v] l IH]; intros Hnd; [done|]. cbn in Hnd. apply NoDup_cons in Hnd as [Hk' Hnd].
  assert (entries ((k', v) :: l) = match v with Some v => (k', v) :: entries l | None => entries l end) as -> by (by destruct v).
  cbn [assoc]. destruct (String.eqb_spec k' k) as [->|Hk].
  - destruct v as [v|]; cbv iota; [rewrite list_to_map_cons; apply lookup_insert_eq|]. rewrite IH by done.
    clear -Hk'. induction l as [|[k2 v2] l IH]; [done|]. cbn in *. apply not_elem_of_cons in Hk' as [Hne Hk'].
    destruct (String.eqb_spec k2 k); [congruence|]. by apply IH.
  - destruct v as [v|]; cbv iota; [rewrite list_to_map_cons, lookup_insert_ne by done|]; by apply IH.
Qed.

Lemma entries_plain l :
  Forall (fun kv : string * option toml_value => forall v, kv.2 = Some v -> plain v) l ->
  map_Forall (fun _ => plain) (list_to_map (entries l) : table).
Proof.
  intros Hl k v Hk%elem_of_list_to_map_2%entries_keys. rewrite Forall_forall in Hl. by apply (Hl _ Hk).
Qed.

(** ** Specifications that can be saved *)
Section round_trip.
  Context `{!RegexEngine, !Toml}.

(** A bind that prints without loss. *)
Definition printable_bind (b : ServiceBind.t) : Prop :=
  (":"%char ∉ to_chars (ServiceBind.name b)) /\
  (":"%char ∉ to_chars (ServiceGroup.as_str (ServiceBind.service_group b))) /\
  ServiceGroup.from_str (ServiceGroup.as_str (ServiceBind.service_group b)) = Ok (ServiceBind.service_group b).

Lemma bind_parse_iff s b :
  ServiceBind.from_str s = Ok b <-> printable_bind b /\ s = ServiceBind.to_string b.
Proof.
  unfold ServiceBind.from_str, printable_bind. split.
  - destruct (split ":"%char s) as [|n [|g [|? ?]]] eqn:E; try done.
    apply split_iff in E as (_ & Hf & Hs). apply Forall_cons in Hf as [Hn Hf]. apply Forall_cons in Hf as [Hg _].
    destruct (ServiceGroup.from_str g) as [sg|] eqn:Eg; [|done]. intros [= <-]. cbn.
    destruct (from_str_sound _ _ Eg) as [-> _]. split_and!; [done..|].
    apply to_chars_inj. rewrite Hs. unfold ServiceBind.to_string. cbn.
    rewrite !to_chars_app. by destruct (from_str_sound _ _ Eg) as [-> _].
  - intros ((Hn & Hg & Hsg) & ->).
    assert (split ":"%char (ServiceBind.to_string b) =
      [ServiceBind.name b; ServiceGroup.as_str (ServiceBind.service_group b)]) as ->.
    { apply split_iff. split; [done|]. split; [by repeat constructor|].
      unfold ServiceBind.to_string. by rewrite !to_chars_app. }
    rewrite Hsg. by destruct b.
Qed.

(** The parts of a specification print without loss and its identifier is not the default. *)
Definition well_formed (spec : ServiceSpec.t) : Prop :=
  printable_ident (ServiceSpec.ident spec) /\ ServiceSpec.ident spec <> PackageIdent.default /\
  valid_app_env (ServiceSpec.application_environment spec) /\
  Forall printable_bind (ServiceSpec.binds spec).

Lemma serialize_plain spec : map_Forall (fun _ => plain) (ServiceSpec.serialize spec).
Proof.
  apply (entries_plain (ServiceSpec.fields spec)). unfold ServiceSpec.fields.
  repeat (constructor; [cbn; intros v Hv; repeat case_match; simplify_eq/=; try done|]); [..|constructor].
  all: try (apply fmap_Some in Hv as (? & _ & ->); done).
  rewrite Forall_fmap. by apply Forall_true.
Qed.

Lemma try_map_binds l : Forall printable_bind l ->
  try_map (deserialize_using_from_str ServiceBind.from_str "binds") (TString ∘ ServiceBind.to_string <$> l) = Ok l.
Proof.
  intros Hl. apply try_map_ok. induction Hl as [|b l Hb _ IH]; cbn; constructor; [|done].
  cbn. by rewrite (proj2 (bind_parse_iff _ b) (conj Hb eq_refl)).
Qed.

Lemma deserialize_serialize spec :
  well_formed spec -> ServiceSpec.deserialize (ServiceSpec.serialize spec) = Ok spec.
Proof.
  intros (Hi & _ & Hae & Hb).
  assert (Hl : forall k, ServiceSpec.serialize spec !! k = assoc k (ServiceSpec.fields spec)).
  { intros k. apply lookup_entries. cbn. compute_done. }
  unfold ServiceSpec.deserialize, field. rewrite !Hl. clear Hl.
  assert (Hi' := proj2 (from_str_iff_print _ _) (conj Hi eq_refl)).
  destruct spec as [i g ae url ch top us bs cf ds ss pw co].
  cbn -[PackageIdent.from_str PackageIdent.to_string ApplicationEnvironment.from_str ServiceBind.from_str
    ServiceBind.to_string try_map to_lowercase] in *.
  rewrite Hi'. cbn [mbind result_bind].
  assert (match TString ∘ ApplicationEnvironment.as_str <$> ae with
          | Some v => ServiceSpec.deserialize_application_environment "application_environment" v
          | None => Ok None
          end = Ok ae) as ->.
  { destruct ae as [a|]; [|done]. unfold ServiceSpec.deserialize_application_environment. cbn.
    by rewrite (Hae a eq_refl). }
  cbn [mbind result_bind]. rewrite (try_map_binds _ Hb).
  destruct top, us, ds, ss, cf, pw, co; reflexivity.
Qed.

(** What a field of a parsed document holds. *)
Lemma field_ok {A} (de : string -> toml_value -> result toml_error A) d t k a :
  field de d t k = Ok a -> a = d \/ exists v, de k v = Ok a.
Proof. unfold field. destruct (t !! k); [eauto|]. intros [= <-]. by left. Qed.

Lemma de_from_str_ok {A E} (from_str : string -> result E A) k v a :
  deserialize_using_from_str from_str k v = Ok a -> exists s, from_str s = Ok a.
Proof. destruct v; cbn; try done. destruct (from_str s) eqn:Es; [|done]. intros [= <-]. eauto. Qed.

Lemma deserialize_well_formed tbl spec :
  ServiceSpec.deserialize tbl = Ok spec -> ServiceSpec.ident spec <> PackageIdent.default -> well_formed spec.
Proof.
  unfold ServiceSpec.deserialize. intros E Hne.
  repeat (apply bind_ok in E as (? & ?F & E)). injection E as <-. cbn in Hne.
  unfold well_formed; cbn. split_and!; [|done| |].
  - apply field_ok in F as [->|(v & Hv)]; [done|]. apply de_from_str_ok in Hv as [s Hs].
    by apply from_str_iff_print in Hs as [? _].
  - apply field_ok in F1 as [->|(v & Hv)]; [done|]. unfold ServiceSpec.deserialize_application_environment in Hv.
    destruct v; cbn in Hv; try done. destruct (ApplicationEnvironment.from_str s) as [a|] eqn:Ea; [|done].
    injection Hv as <-. intros b [= <-]. pose proof Ea as [Hs _]%ae_from_str_ok. by rewrite Hs.
  - apply field_ok in F6 as [->|(v & Hv)]; [constructor|]. destruct v as [|l|]; cbn in Hv; try done.
    apply try_map_ok in Hv. induction Hv as [|v b l bs Hb _ IH]; constructor; [|done].
    apply de_from_str_ok in Hb as [s Hs]. by apply bind_parse_iff in Hs as [? _].
Qed.

Lemma well_formed_round_trip spec : well_formed spec ->
  exists s, ServiceSpec.to_toml_string spec = Ok s /\ ServiceSpec.from_str s = Ok spec.
Proof.
  unfold ServiceSpec.to_toml_string, ServiceSpec.from_str.
  intros Hwf. destruct (toml_round_trip _ (serialize_plain spec)) as (s & Hs & Hs'). exists s.
  pose proof Hwf as (_ & Hne & _). rewrite decide_False by done. rewrite Hs, Hs'. cbn [mbind result_bind].
  rewrite (deserialize_serialize _ Hwf). by rewrite decide_False.
Qed.

Lemma parsed_well_formed s spec : ServiceSpec.from_str s = Ok spec -> well_formed spec.
Proof.
  unfold ServiceSpec.from_str. destruct (toml_from_str s) as [tbl|]; cbn [mbind result_bind]; [|done].
  destruct (ServiceSpec.deserialize tbl) as [sp|] eqn:Ed; [|done]. case_decide; [done|].
  intros [= <-]. by eapply deserialize_well_formed.
Qed.

(** C30: the specifications that a save and a load give back are exactly those whose parts
    print without loss: an identifier that is not the default and has no [/] in a part, an
    application environment that parses, and binds that parse.  In particular every
    specification that was loaded can be saved and loaded again. *)
Theorem spec_round_trip spec :
  well_formed spec <->
  exists s, ServiceSpec.to_toml_string spec = Ok s /\ ServiceSpec.from_str s = Ok spec.
Proof.
  split; [apply well_formed_round_trip|]. intros (s & _ & Hs). by eapply parsed_well_formed.
Qed.

(** ** Saving *)

(** C31: saving is atomic.  Whatever step fails, the file at the path is untouched, and so is
    every other file but the temporary one; a save that succeeds replaces the file by one that
    loads as the saved specification, and leaves no temporary file. *)
Theorem to_file_atomic spec dir path ext io :
  well_formed spec -> with_extension path ext <> path ->
  let '(dir', res) := ServiceSpec.to_file spec dir path ext io in
  match res with
  | Ok _ => ServiceSpec.from_file dir' path = Ok spec /\ dir' !! with_extension path ext = None /\
      (forall f, f <> path -> f <> with_extension path ext -> dir' !! f = dir !! f)
  | Err _ => (forall f, f <> with_extension path ext -> dir' !! f = dir !! f) /\
      (mkdir_fails io = true \/ create_fails io = true \/ is_Some (write_fails io) \/ rename_fails io = true)
  end.
Proof.
  intros Hwf Hext. destruct (well_formed_round_trip spec Hwf) as (s & Hs & Hs').
  unfold ServiceSpec.to_file. rewrite Hs. destruct io as [[] [] [part|] []]; cbn; try (split; [|by eauto]).
  all: try (intros f Hf; by rewrite ?lookup_insert_ne).
  split_and!.
  - unfold ServiceSpec.from_file. by rewrite lookup_insert_eq.
  - rewrite lookup_insert_ne by done. apply lookup_delete_eq.
  - intros f Hf Hf'. rewrite lookup_insert_ne, lookup_delete_ne, !lookup_insert_ne; done.
Qed.
End round_trip.

(** ** Validation of binds *)

Lemma filter_iff_in {A} (P Q : A -> Prop) `{!forall x, Decision (P x), !forall x, Decision (Q x)} (l : list A) :
  (forall x, x ∈ l -> P x <-> Q x) -> filter P l = filter Q l.
Proof.
  induction l as [|x l IH]; intros Hl; [done|]. rewrite !filter_cons, IH by (intros; apply Hl; set_solver).
  specialize (Hl x ltac:(set_solver)). repeat case_decide; tauto.
Qed.

Lemma take_required_fold l svc missing :
  NoDup l ->
  foldl ServiceSpec.take_required (svc, missing) l =
  (svc ∖ list_to_set l, missing ++ filter (fun r => r ∉ svc) l).
Proof.
  revert svc missing. induction l as [|r l IH]; intros svc missing Hnd; cbn [foldl].
  { rewrite app_nil_r. f_equal. set_solver. }
  apply NoDup_cons in Hnd as [Hr Hnd]. unfold ServiceSpec.take_required at 2. case_decide as Hin.
  - rewrite IH, filter_cons, decide_False by (done || set_solver). f_equal; [set_solver|]. f_equal.
    apply filter_iff_in. intros x Hx. rewrite elem_of_difference, elem_of_singleton. set_solver.
  - rewrite IH, filter_cons, decide_True by done. f_equal; [set_solver|]. by rewrite <- app_assoc.
Qed.

Lemma take_optional_fold l svc :
  foldl ServiceSpec.take_optional svc l = svc ∖ list_to_set l.
Proof.
  revert svc. induction l as [|r l IH]; intros svc; cbn [foldl]; [set_solver|].
  rewrite IH. unfold ServiceSpec.take_optional. case_decide; set_solver.
Qed.

(** When the package lists no required bind twice, the validation accepts a specification
    exactly when it binds every required bind and binds nothing but required and optional
    ones; otherwise it reports the required binds that are missing, in the order of the
    package, or, when none is missing, the binds the package does not know. *)
Theorem validate_binds_spec o spec disk package required optional :
  PackageInstall.binds disk package = Ok required ->
  PackageInstall.binds_optional disk package = Ok optional ->
  NoDup (Bind.service <$> required) ->
  let given := ServiceBind.name <$> ServiceSpec.binds spec in
  let req := Bind.service <$> required in
  let opt := Bind.service <$> optional in
  match ServiceSpec.validate o spec disk package with
  | Ok _ => (forall r, r ∈ req -> r ∈ given) /\ (forall b, b ∈ given -> b ∈ req \/ b ∈ opt)
  | Err (MissingRequiredBind l) => l = filter (fun r => r ∉ given) req /\ l <> []
  | Err (InvalidBinds l) => (forall r, r ∈ req -> r ∈ given) /\ l <> [] /\ NoDup l /\
      forall b, b ∈ l <-> b ∈ given /\ (b ∉ req) /\ b ∉ opt
  | Err _ => False
  end.
Proof.
  intros Hreq Hopt Hnd given req opt. unfold ServiceSpec.validate, ServiceSpec.validate_binds.
  rewrite Hreq, Hopt. fold given req opt. rewrite take_required_fold by done. cbn [app].
  assert (filter (fun r => r ∉ (list_to_set given : gset string)) req = filter (fun r => r ∉ given) req) as ->
    by (apply list_filter_iff; intros; by rewrite elem_of_list_to_set).
  destruct (decide (filter (fun r => r ∉ given) req = [])) as [Hm|Hm].
  2: { by rewrite bool_decide_eq_false_2. }
  rewrite bool_decide_eq_true_2 by done. cbn [negb]. rewrite take_optional_fold.
  assert (Hall : forall r, r ∈ req -> r ∈ given).
  { intros r Hr. destruct (decide (r ∈ given)) as [|Hn]; [done|].
    assert (r ∈ filter (fun r => r ∉ given) req) as Hf by (by apply list_elem_of_filter).
    rewrite Hm in Hf. by apply not_elem_of_nil in Hf. }
  set (left := (list_to_set given ∖ list_to_set req) ∖ list_to_set opt : gset string).
  assert (Hleft : forall b, b ∈ left <-> b ∈ given /\ (b ∉ req) /\ b ∉ opt).
  { intros b. unfold left. rewrite !elem_of_difference, !elem_of_list_to_set. tauto. }
  destruct (decide (left = ∅)) as [He|He].
  - rewrite bool_decide_eq_true_2 by done. cbn. split; [done|]. intros b Hb.
    destruct (decide (b ∈ req)); [by left|]. destruct (decide (b ∈ opt)); [by right|].
    assert (b ∈ left) as Hbl by (by apply Hleft). rewrite He in Hbl. set_solver.
  - rewrite bool_decide_eq_false_2 by done. cbn. split_and!; [done| | |].
    + intros Hn. apply He, leibniz_equiv, elements_empty_iff, length_zero_iff_nil. by rewrite <- (length_permute o), Hn.
    + apply NoDup_permute, NoDup_elements.
    + intros b. by rewrite elem_of_permute, elem_of_elements, Hleft.
Qed.

(** ** A TOML library, and an example

    Tables of texts printed as the binary digits of a number that encodes them. *)
Section reference_toml.

Definition to_text (v : toml_value) : string + list string :=
  match v with
  | TString s => inl s
  | TArray l => inr (omap (fun x => match x with TString s => Some s | _ => None end) l)
  | TOther => inr []
  end.

Definition of_text (v : string + list string) : toml_value :=
  match v with inl s => TString s | inr l => TArray (TString <$> l) end.

Lemma of_to_text v : plain v -> of_text (to_text v) = v.
Proof.
  destruct v as [s|l|]; cbn; [done| |done]. intros Hl. f_equal. induction Hl as [|x l Hx _ IH]; [done|].
  destruct x; [|done..]. cbn. by rewrite IH.
Qed.

Fixpoint bits (p : positive) : string :=
  match p with
  | xH => EmptyString
  | xO p => String "0" (bits p)
  | xI p => String "1" (bits p)
  end.

Fixpoint unbits (s : string) : option positive :=
  match s with
  | EmptyString => Some xH
  | String c s => p ← unbits s; if Ascii.eqb c "0" then Some (xO p) else Some (xI p)
  end.

Lemma digits_inverse p : unbits (bits p) = Some p.
Proof. induction p as [p IH|p IH|]; cbn; [by rewrite IH..|done]. Qed.

Definition reference_print (t : table) : result toml_error string := Ok (bits (encode (to_text <$> t))).

Definition reference_parse (s : string) : result toml_error table :=
  match p ← unbits s; decode (A := gmap string (string + list string)) p with
  | Some t => Ok (of_text <$> t)
  | None => Err (Syntax s)
  end.

#[global, program] Instance reference_toml : Toml :=
  {| toml_to_string := reference_print; toml_from_str := reference_parse |}.
Next Obligation.
  intros t Ht. eexists. split; [done|]. unfold reference_parse. rewrite digits_inverse. cbn. rewrite decode_encode.
  f_equal. apply map_eq. intros k. rewrite !lookup_fmap. destruct (t !! k) as [v|] eqn:Ek; [|done].
  cbn. by rewrite of_to_text by (by apply (Ht k)).
Qed.
End reference_toml.

Module ServiceSpecExample.
#[local] Existing Instance reference_engine.

Definition database : ServiceBind.t := ServiceBind.mk "database" (ServiceGroup.mk "postgresql.default").

Definition spec : ServiceSpec.t :=
  ServiceSpec.mk (PackageIdent.mk "acme" "app" (Some "1.2.0") None) "default"
    (Some (ApplicationEnvironment.mk "shop.prod")) "https://bldr.habitat.sh" "stable" Topology.Leader
    UpdateStrategy.Rolling [database] None DesiredState.Up StartStyle.Persistent None None.

Lemma spec_well_formed : well_formed spec.
Proof.
  repeat split; try (intros ? [= <-]); try compute_done; try (vm_compute; reflexivity); try done.
  repeat constructor; try compute_done; vm_compute; reflexivity.
Defined.

Definition interrupted : faults := Faults false false (Some "ident = ") false.

Lemma to_file_atomic_witness :
  let dir := <["app.spec" := Regular (Contents "old")]> ∅ in
  let '(dir', res) := ServiceSpec.to_file spec dir "app.spec" "aB3xY9zQ" interrupted in
  dir' !! "app.spec" = Some (Regular (Contents "old")).
Proof.
  intros dir. pose proof (to_file_atomic spec dir "app.spec" "aB3xY9zQ" interrupted spec_well_formed) as H.
  specialize (H ltac:(by vm_compute)).
  destruct (ServiceSpec.to_file spec dir "app.spec" "aB3xY9zQ" interrupted) as [dir' [[]|e]] eqn:E.
  - apply (f_equal (fun x => is_ok x.2)) in E. vm_compute in E. discriminate E.
  - destruct H as [H _]. rewrite H by (by vm_compute). reflexivity.
Defined.

Definition disk : node :=
  Dir [("BINDS", File (Contents "database=port"));
       ("BINDS_OPTIONAL", File (Contents "cache=port host"))].

Definition package : PackageInstall.t :=
  PackageInstall.mk (PackageIdent.mk "acme" "app" (Some "1.2.0") (Some "20171231235959")) [] [] [].

Lemma validate_binds_spec_witness :
  ServiceSpec.validate id_order spec disk package = Ok tt /\
  forall b, b ∈ ServiceBind.name <$> ServiceSpec.binds spec -> b ∈ ["database"] \/ b ∈ ["cache"].
Proof.
  assert (E : ServiceSpec.validate id_order spec disk package = Ok tt) by (vm_compute; reflexivity).
  pose proof (validate_binds_spec id_order spec disk package
    [Bind.mk "database" ["port"]] [Bind.mk "cache" ["port"; "host"]] eq_refl eq_refl ltac:(compute_done)) as H.
  cbv zeta in H. rewrite E in H. split; [exact E|apply H].
Defined.
End ServiceSpecExample.

(** * Composite specifications

    Models [components/sup/src/manager/service/composite_spec.rs]: the record of a loaded
    composite package, saved next to the service specifications in the same way. *)

Module CompositeSpec.
Record t := mk { ident : PackageIdent.t; package_ident : PackageIdent.t }.

Definition default : t := mk PackageIdent.default PackageIdent.default.

Definition from_package_install (disk : node) (original_ident : PackageIdent.t) (package : PackageInstall.t)
    : result sup_error t :=
  match PackageInstall.pkg_type disk package with
  | Err e => Err (HabitatCore e)
  | Ok Composite =>
      let package_ident := PackageInstall.ident package in
      if PackageIdent.fully_qualified package_ident then Ok (mk original_ident package_ident)
      else Err (HabitatCore (FullyQualifiedPackageIdentRequired (PackageIdent.to_string package_ident)))
  | Ok Standalone => Err (HabitatCore (CompositePackageExpected (PackageIdent.to_string (PackageInstall.ident package))))
  end.

Definition file_name (self : t) : string :=
  PackageIdent.name (ident self) +:+ "." +:+ ServiceSpec.SPEC_FILE_EXT.

Definition fields (self : t) : list (string * option toml_value) := [
    ("ident", Some (TString (PackageIdent.to_string (ident self))));
    ("package_ident", Some (TString (PackageIdent.to_string (package_ident self))))].

Definition serialize (self : t) : table :=
  list_to_map (omap (fun kv : string * option toml_value => v ← kv.2; Some (kv.1, v)) (fields self)).

Definition deserialize (tbl : table) : result toml_error t :=
  ident ← field (deserialize_using_from_str PackageIdent.from_str) (ident default) tbl "ident";
  package_ident ← field (deserialize_using_from_str PackageIdent.from_str) (package_ident default) tbl "package_ident";
  Ok (mk ident package_ident).

Section with_toml.
  Context `{!Toml}.

Definition to_toml_string (self : t) : result sup_error string :=
  if decide (ident self = PackageIdent.default) then Err MissingRequiredIdent
  else match toml_to_string (serialize self) with
       | Ok s => Ok s
       | Err e => Err (ServiceSpecRender e)
       end.

(** The error about the package identifier shows the other identifier. *)
Definition from_str (toml : string) : result sup_error t :=
  match (tbl ← toml_from_str toml; deserialize tbl) with
  | Err e => Err (ServiceSpecParse e)
  | Ok spec =>
      if decide (ident spec = PackageIdent.default \/ package_ident spec = PackageIdent.default)
      then Err MissingRequiredIdent
      else if negb (PackageIdent.fully_qualified (package_ident spec))
      then Err (HabitatCore (FullyQualifiedPackageIdentRequired (PackageIdent.to_string (ident spec))))
      else Ok spec
  end.

Definition from_file (dir : directory) (path : string) : result sup_error t :=
  match dir !! path with
  | Some (Regular (Contents buf)) => from_str buf
  | _ => Err (ServiceSpecFileIO path)
  end.

Definition to_file (self : t) (dir : directory) (path ext : string) (io : faults) : directory * result sup_error unit :=
  let tmpfile := with_extension path ext in
  if mkdir_fails io then (dir, Err (ServiceSpecFileIO path))
  else if create_fails io then (dir, Err (ServiceSpecFileIO tmpfile))
  else
    let dir := <[tmpfile := Regular (Contents "")]> dir in
    match to_toml_string self with
    | Err e => (dir, Err e)
    | Ok toml =>
        match write_fails io with
        | Some part => (<[tmpfile := Regular (Contents part)]> dir, Err (ServiceSpecFileIO tmpfile))
        | None =>
            let dir := <[tmpfile := Regular (Contents toml)]> dir in
            if rename_fails io then (dir, Err (ServiceSpecFileIO path))
            else (<[path := Regular (Contents toml)]> (delete tmpfile dir), Ok tt)
        end
    end.
End with_toml.
End CompositeSpec.

(** ** Properties *)
Section composite.
  Context `{!Toml}.

(** What the type promises: the identifiers print without loss, and that of the package is
    fully qualified. *)
Definition composite_ok (c : CompositeSpec.t) : Prop :=
  printable_ident (CompositeSpec.ident c) /\ CompositeSpec.ident c <> PackageIdent.default /\
  printable_ident (CompositeSpec.package_ident c) /\
  PackageIdent.fully_qualified (CompositeSpec.package_ident c) = true.

Lemma composite_serialize c : composite_ok c -> CompositeSpec.deserialize (CompositeSpec.serialize c) = Ok c.
Proof.
  intros (Hi & _ & Hp & _).
  assert (Hl : forall k, CompositeSpec.serialize c !! k = assoc k (CompositeSpec.fields c)).
  { intros k. apply lookup_entries. cbn. compute_done. }
  unfold CompositeSpec.deserialize, field. rewrite !Hl.
  cbn -[PackageIdent.from_str PackageIdent.to_string].
  rewrite (proj2 (from_str_iff_print _ _) (conj Hi eq_refl)). cbn -[PackageIdent.from_str PackageIdent.to_string].
  rewrite (proj2 (from_str_iff_print _ _) (conj Hp eq_refl)). by destruct c.
Qed.

Lemma composite_from_str s c : CompositeSpec.from_str s = Ok c -> composite_ok c.
Proof.
  unfold CompositeSpec.from_str. destruct (toml_from_str s) as [tbl|]; cbn [mbind result_bind]; [|done].
  destruct (CompositeSpec.deserialize tbl) as [c'|] eqn:Ed; [|done].
  case_decide as Hne; [done|]. destruct (PackageIdent.fully_qualified _) eqn:Ef; [|done]. cbn. intros [= <-].
  unfold CompositeSpec.deserialize in Ed. apply bind_ok in Ed as (i & Hi & Ed). apply bind_ok in Ed as (p & Hp & Ed).
  injection Ed as <-. cbn in *.
  assert (Hpr : forall k x, field (deserialize_using_from_str PackageIdent.from_str) PackageIdent.default tbl k = Ok x ->
    x <> PackageIdent.default -> printable_ident x).
  { intros k x [->|(v & [s' Hs]%de_from_str_ok)]%field_ok ?; [done|]. by apply from_str_iff_print in Hs as [? _]. }
  split_and!; [by eapply Hpr; [|tauto]|tauto|by eapply Hpr; [|tauto]|done].
Qed.

(** A specification that can be written as text and read again. *)
Lemma composite_text c :
  composite_ok c -> exists s, CompositeSpec.to_toml_string c = Ok s /\ CompositeSpec.from_str s = Ok c.
Proof.
  intros Hc. assert (map_Forall (fun _ => plain) (CompositeSpec.serialize c)) as Hp.
  { apply (entries_plain (CompositeSpec.fields c)). repeat constructor; by intros ? [= <-]. }
  destruct (toml_round_trip _ Hp) as (s & Hs & Hs'). exists s. pose proof Hc as (_ & Hne & _ & Hq).
  unfold CompositeSpec.to_toml_string, CompositeSpec.from_str. rewrite decide_False by done. rewrite Hs, Hs'.
  cbn [mbind result_bind]. rewrite (composite_serialize _ Hc). rewrite decide_False.
  - by rewrite Hq.
  - intros [|E]; [done|]. by rewrite E in Hq.
Qed.

Lemma composite_from_file dir path c : CompositeSpec.from_file dir path = Ok c -> composite_ok c.
Proof.
  unfold CompositeSpec.from_file. destruct (dir !! path) as [[[]|]|]; try done. apply composite_from_str.
Qed.

(** C38: the composite specifications the code works with are well formed: the identifiers print
    without loss, the one it was loaded by is not the default one, and the one of the package is
    fully qualified.  That holds of every specification read from a file, whatever is in the
    file; one made from an installed package names exactly that package, which is composite and
    has a fully qualified identifier, and is well formed if both identifiers print without loss;
    and when no file operation fails, a specification can be saved and then loaded unchanged
    exactly if it is well formed. *)
Theorem composite_type c dir path ext :
  (CompositeSpec.from_file dir path = Ok c -> composite_ok c) /\
  (forall disk i package, CompositeSpec.from_package_install disk i package = Ok c ->
     PackageInstall.pkg_type disk package = Ok Composite /\ c = CompositeSpec.mk i (PackageInstall.ident package) /\
     PackageIdent.fully_qualified (PackageInstall.ident package) = true /\
     (composite_ok c <-> printable_ident i /\ i <> PackageIdent.default /\ printable_ident (PackageInstall.ident package))) /\
  (composite_ok c <-> exists dir', CompositeSpec.to_file c dir path ext (Faults false false None false) = (dir', Ok tt) /\
     CompositeSpec.from_file dir' path = Ok c).
Proof.
  split_and!; [apply composite_from_file| |split].
  - intros disk i package. unfold CompositeSpec.from_package_install.
    destruct (PackageInstall.pkg_type disk package) as [[]|]; try done.
    destruct (PackageIdent.fully_qualified _) eqn:E; [|done]. intros [= <-]. split_and!; [done..|].
    unfold composite_ok. cbn. rewrite E. tauto.
  - intros (s & Hs & Hs')%composite_text. unfold CompositeSpec.to_file. cbn. rewrite Hs. eexists. split; [done|].
    unfold CompositeSpec.from_file. by rewrite lookup_insert_eq.
  - intros (dir' & _ & Hd). by eapply composite_from_file.
Qed.
End composite.

(** A composite made from an installed package, saved and loaded. *)
Lemma composite_type_witness :
  let disk := Dir [("TYPE", File (Contents "composite"))] in
  let shop := PackageIdent.mk "acme" "shop" None None in
  let package := PackageInstall.mk (PackageIdent.mk "acme" "shop" (Some "1.0.0") (Some "20171231235959")) [] [] [] in
  let c := CompositeSpec.mk shop (PackageInstall.ident package) in
  CompositeSpec.from_package_install disk shop package = Ok c /\
  exists dir', CompositeSpec.to_file c ∅ "shop.spec" "aB3xY9zQ" (Faults false false None false) = (dir', Ok tt) /\
    CompositeSpec.from_file dir' "shop.spec" = Ok c /\ composite_ok c.
Proof.
  intros disk shop package c.
  assert (Hi : CompositeSpec.from_package_install disk shop package = Ok c) by (vm_compute; reflexivity).
  split; [exact Hi|]. destruct (composite_type c ∅ "shop.spec" "aB3xY9zQ") as (_ & H1 & H2).
  assert (Hok : composite_ok c).
  { destruct (H1 disk shop package Hi) as (_ & _ & _ & H). apply H.
    split_and!; [apply (from_str_iff_print "acme/shop"); vm_compute; reflexivity|done|].
    apply (from_str_iff_print "acme/shop/1.0.0/20171231235959"). vm_compute. reflexivity. }
  apply H2 in Hok as Hd. destruct Hd as (dir' & Hs & Hl). exists dir'. split; [exact Hs|]. split; [exact Hl|exact Hok].
Defined.
