(* ===== verification/SpecWatcher.v ===== *)
(** * The watcher of the specification directory

    Models [components/sup/src/manager/spec_watcher.rs]: loading the specifications of the
    directory and the events that bring the running services in line with them.  The [glob]
    library is a parameter.  The thread that listens to the file system only sets the flag
    [have_events]. *)

From Stdlib Require Import Ascii.
From S2P Require Import Prelude Regex Text ServiceGroup Ident Target Metadata Install ServiceSpec ServiceSpecProofs.
Local Open Scope string_scope.
Local Open Scope list_scope.

(** [*.spec] *)
Definition spec_suffix : chars := to_chars ".spec".

Definition is_spec_name (name : string) : bool :=
  bool_decide (spec_suffix `suffix_of` to_chars name).

(** The names in a directory that match [*.spec], each once; an error when the path of the
    directory is no valid pattern. *)
Class Glob := {
  glob : directory -> result string (list string);
  glob_spec dir l : glob dir = Ok l ->
    NoDup l /\ forall name, name ∈ l <-> is_Some (dir !! name) /\ is_spec_name name = true;
}.

Inductive SpecWatcherEvent :=
| AddService (spec : ServiceSpec.t)
| RemoveService (spec : ServiceSpec.t).

Module SpecWatcher.
Record t := mk { have_events : bool }.

(** The directory exists. *)
Definition run (path : string) (is_dir : bool) : result sup_error t :=
  if negb is_dir then Err (SpecWatcherDirNotFound path) else Ok (mk false).

(** The listening thread receives an event of the file system. *)
Definition notify (self : t) : t := mk true.

Section with_libraries.
  Context `{!RegexEngine, !Toml, !Glob}.

Definition is_regular (dir : directory) (name : string) : bool :=
  match dir !! name with Some (Regular _) => true | _ => false end.

Definition spec_files (dir : directory) : result sup_error (list string) :=
  match glob dir with
  | Err _ => Err SpecWatcherGlob
  | Ok l => Ok (filter (fun p => is_regular dir p = true) l)
  end.

(** The body of the loop: a file that does not hold a specification, or one of another name,
    is skipped; other errors end the loop. *)
Definition load_spec (dir : directory) (spec_file : string) (specs : gmap string ServiceSpec.t)
    : result sup_error (gmap string ServiceSpec.t) :=
  match ServiceSpec.from_file dir spec_file with
  | Err (ServiceSpecParse _) | Err MissingRequiredIdent => Ok specs
  | Err e => Err e
  | Ok spec =>
      if decide (file_stem spec_file <> PackageIdent.name (ServiceSpec.ident spec)) then Ok specs
      else Ok (<[PackageIdent.name (ServiceSpec.ident spec) := spec]> specs)
  end.

Fixpoint load_specs (dir : directory) (files : list string) (specs : gmap string ServiceSpec.t)
    : result sup_error (gmap string ServiceSpec.t) :=
  match files with
  | [] => Ok specs
  | f :: files => specs ← load_spec dir f specs; load_specs dir files specs
  end.

Definition specs_from_watch_path (dir : directory) : result sup_error (gmap string ServiceSpec.t) :=
  files ← spec_files dir; load_specs dir files ∅.

(** The three loops: each takes the specifications of its names out of the maps. *)
Definition remove_loop (name : string) (st : gmap string ServiceSpec.t * list SpecWatcherEvent)
    : outcome (gmap string ServiceSpec.t * list SpecWatcherEvent) :=
  let '(active, events) := st in
  spec ← expect "value should exist for key" (active !! name);
  Return (delete name active, events ++ [RemoveService spec]).

Definition add_loop (name : string) (st : gmap string ServiceSpec.t * list SpecWatcherEvent)
    : outcome (gmap string ServiceSpec.t * list SpecWatcherEvent) :=
  let '(desired, events) := st in
  spec ← expect "value should exist for key" (desired !! name);
  Return (delete name desired, events ++ [AddService spec]).

Definition change_loop (name : string)
    (st : gmap string ServiceSpec.t * gmap string ServiceSpec.t * list SpecWatcherEvent)
    : outcome (gmap string ServiceSpec.t * gmap string ServiceSpec.t * list SpecWatcherEvent) :=
  let '(active, desired, events) := st in
  active_spec ← expect "value should exist for key" (active !! name);
  desired_spec ← expect "value should exist for key" (desired !! name);
  Return (delete name active, delete name desired,
          if decide (active_spec <> desired_spec)
          then events ++ [RemoveService active_spec; AddService desired_spec]
          else events).

Definition generate_events (o1 o2 o3 : order) (self : t) (dir : directory) (active : gmap string ServiceSpec.t)
    : outcome (t * result sup_error (list SpecWatcherEvent)) :=
  match specs_from_watch_path dir with
  | Err e => Return (self, Err e)
  | Ok desired =>
      let self := mk false in
      let desired_names := dom desired in
      let active_names := dom active in
      r1 ← for_each remove_loop (permute o1 (elements (active_names ∖ desired_names))) (active, []);
      let '(active, events) := (r1 : gmap string ServiceSpec.t * list SpecWatcherEvent) in
      r2 ← for_each add_loop (permute o2 (elements (desired_names ∖ active_names))) (desired, events);
      let '(desired, events) := (r2 : gmap string ServiceSpec.t * list SpecWatcherEvent) in
      r3 ← for_each change_loop (permute o3 (elements (active_names ∩ desired_names))) (active, desired, events);
      let '(active, desired, events) :=
        (r3 : gmap string ServiceSpec.t * gmap string ServiceSpec.t * list SpecWatcherEvent) in
      if decide (active <> ∅) then Panic "assertion failed: active_specs.is_empty()"
      else if decide (desired <> ∅) then Panic "assertion failed: desired_specs.is_empty()"
      else Return (self, Ok events)
  end.

Definition initial_events (o1 o2 o3 : order) (self : t) (dir : directory)
    : outcome (t * result sup_error (list SpecWatcherEvent)) :=
  generate_events o1 o2 o3 self dir ∅.

Definition new_events (o1 o2 o3 : order) (self : t) (dir : directory) (active : gmap string ServiceSpec.t)
    : outcome (t * result sup_error (list SpecWatcherEvent)) :=
  if have_events self then generate_events o1 o2 o3 self dir active else Return (self, Ok []).
End with_libraries.
End SpecWatcher.

(** * The watcher of the specification directory: properties

    The specifications loaded are those of the directory, and the events turn the active
    specifications into them. *)

(** ** File names *)

Lemma cut_app sep w rest : sep ∉ w -> cut sep (w ++ sep :: rest) = (w, Some rest).
Proof.
  induction w as [|c w IH]; intros Hw; cbn; [by rewrite Ascii.eqb_refl|].
  apply not_elem_of_cons in Hw as [Hc Hw]. destruct (Ascii.eqb_spec c sep); [congruence|]. by rewrite IH.
Qed.

(** The stem of [p.spec] is [p], but that of [.spec] is itself. *)
Lemma file_stem_spec p :
  file_stem (p +:+ ".spec") = if decide (p = "") then ".spec" else p.
Proof.
  unfold file_stem.
  assert (Hc : to_chars (p +:+ ".spec") = to_chars p ++ spec_suffix) by (by rewrite to_chars_app).
  destruct (String.eqb_spec (p +:+ ".spec") "..") as [E|_].
  { apply (f_equal (length ∘ to_chars)) in E. unfold compose in E. rewrite Hc, length_app in E.
    unfold spec_suffix in E. cbn in E. lia. }
  rewrite Hc, rev_app_distr. change (rev spec_suffix) with (rev (to_chars "spec") ++ ["."%char]).
  rewrite <- app_assoc. cbn [app]. rewrite cut_app by compute_done.
  case_decide as Hp; [by subst p|]. destruct (rev (to_chars p)) as [|c l] eqn:Er.
  - exfalso. apply Hp, to_chars_inj. apply (f_equal (@rev _)) in Er. by rewrite rev_involutive in Er.
  - rewrite <- Er, rev_involutive. apply of_to_chars.
Qed.

Lemma is_spec_name_iff f : is_spec_name f = true <-> exists p, f = p +:+ ".spec".
Proof.
  unfold is_spec_name. rewrite bool_decide_eq_true. split.
  - intros [l Hl]. exists (of_chars l). apply to_chars_inj. by rewrite to_chars_app, to_of_chars.
  - intros [p ->]. exists (to_chars p). by rewrite to_chars_app.
Qed.

Definition plain_name (n : string) : Prop := n <> "" /\ n <> ".spec".

Lemma spec_file_of_stem f : is_spec_name f = true -> plain_name (file_stem f) -> f = file_stem f +:+ ".spec".
Proof.
  intros [p ->]%is_spec_name_iff. rewrite file_stem_spec. case_decide; [by intros [_ []]|done].
Qed.

(** ** Loading the directory *)
Section loading.
  Context `{!RegexEngine, !Toml, !Glob}.

(** A file that holds the specification of the service it is named after. *)
Definition holds (dir : directory) (f : string) (spec : ServiceSpec.t) : Prop :=
  ServiceSpec.from_file dir f = Ok spec /\ file_stem f = PackageIdent.name (ServiceSpec.ident spec).

Definition readable (dir : directory) (f : string) : Prop :=
  exists s, dir !! f = Some (Regular (Contents s)).

Lemma load_spec_cases dir f specs :
  is_Some (dir !! f) ->
  (~ readable dir f /\ SpecWatcher.load_spec dir f specs = Err (ServiceSpecFileIO f)) \/
  (readable dir f /\ (forall spec, ~ holds dir f spec) /\ SpecWatcher.load_spec dir f specs = Ok specs) \/
  exists spec, readable dir f /\ holds dir f spec /\
    SpecWatcher.load_spec dir f specs = Ok (<[PackageIdent.name (ServiceSpec.ident spec) := spec]> specs).
Proof.
  intros [x Hx]. unfold SpecWatcher.load_spec, holds, readable, ServiceSpec.from_file. rewrite Hx.
  destruct x as [[s| |]|]; try (left; split; [|done]; intros [? ?]; congruence).
  assert (exists s0, Some (Regular (Contents s)) = Some (Regular (Contents s0))) by eauto.
  unfold ServiceSpec.from_str. destruct (tbl ← toml_from_str s; ServiceSpec.deserialize tbl) as [spec|].
  2: { right; left. split; [done|]. split; [|done]. intros spec [E _]. discriminate E. }
  case_decide. { right; left. split; [done|]. split; [|done]. intros spec0 [E _]. discriminate E. }
  case_decide as Hn; right; [left|right].
  - split; [done|]. split; [|done]. by intros spec' [[= <-] ?].
  - exists spec. split; [done|]. split; [|done]. done.
Qed.

Lemma load_specs_spec dir l specs :
  (forall f, f ∈ l -> is_Some (dir !! f)) ->
  match SpecWatcher.load_specs dir l specs with
  | Ok specs' => (forall f, f ∈ l -> readable dir f) /\
      forall n, (exists f spec, f ∈ l /\ holds dir f spec /\ file_stem f = n /\ specs' !! n = Some spec) \/
                (forall f spec, f ∈ l -> holds dir f spec -> file_stem f <> n) /\ specs' !! n = specs !! n
  | Err e => exists f, f ∈ l /\ ~ readable dir f /\ e = ServiceSpecFileIO f
  end.
Proof.
  revert specs. induction l as [|f l IH]; intros specs Hl; cbn [SpecWatcher.load_specs].
  { split; [by intros f ?%not_elem_of_nil|]. intros n. right. split; [|done]. by intros f spec ?%not_elem_of_nil. }
  destruct (load_spec_cases dir f specs) as [[Hr ->]|[(Hr & Hh & ->)|(spec & Hr & Hh & ->)]]; [apply Hl; set_solver|..];
    cbn [mbind result_bind].
  - exists f. split_and!; [set_solver|done..].
  - specialize (IH specs ltac:(intros; apply Hl; set_solver)).
    destruct (SpecWatcher.load_specs dir l specs) as [specs'|e].
    + destruct IH as [IHr IH]. split; [intros g [->|]%elem_of_cons; auto|]. intros n.
      destruct (IH n) as [(g & sp & Hg & ?)|[Hno Heq]]; [left; exists g, sp; set_solver|right].
      split; [|done]. intros g sp [->|Hg]%elem_of_cons Hgs; [by destruct (Hh sp)|by eapply Hno].
    + destruct IH as (g & ? & ?). exists g. set_solver.
  - specialize (IH (<[PackageIdent.name (ServiceSpec.ident spec) := spec]> specs) ltac:(intros; apply Hl; set_solver)).
    destruct (SpecWatcher.load_specs dir l _) as [specs'|e].
    + destruct IH as [IHr IH]. split; [intros g [->|]%elem_of_cons; auto|]. intros n.
      destruct (IH n) as [(g & sp & Hg & ?)|[Hno Heq]]; [left; exists g, sp; set_solver|].
      destruct (decide (file_stem f = n)) as [<-|Hne].
      * left. exists f, spec. split_and!; [set_solver|done|done|]. rewrite Heq. destruct Hh as [_ ->]. apply lookup_insert_eq.
      * right. split; [|rewrite Heq; apply lookup_insert_ne; by destruct Hh as [_ <-]].
        intros g sp [->|Hg]%elem_of_cons Hgs; [done|by eapply Hno].
    + destruct IH as (g & ? & ?). exists g. set_solver.
Qed.

Lemma spec_files_spec dir l :
  SpecWatcher.spec_files dir = Ok l ->
  forall f, f ∈ l <-> is_spec_name f = true /\ exists c, dir !! f = Some (Regular c).
Proof.
  unfold SpecWatcher.spec_files. destruct (glob dir) as [g|] eqn:Eg; [|done]. intros [= <-] f.
  rewrite list_elem_of_filter. destruct (glob_spec _ _ Eg) as [_ Hg]. rewrite Hg. unfold SpecWatcher.is_regular.
  split.
  - intros (Hr & _ & Hs). split; [done|]. destruct (dir !! f) as [[c|]|]; naive_solver.
  - intros (Hs & c & Hc). rewrite Hc. naive_solver.
Qed.

(** The specifications loaded, for any name. *)
Lemma watch_path_cases dir l :
  glob dir = Ok l ->
  match SpecWatcher.specs_from_watch_path dir with
  | Ok specs =>
      (forall f c, is_spec_name f = true -> dir !! f = Some (Regular c) -> readable dir f) /\
      (forall n spec, specs !! n = Some spec ->
         exists f, is_spec_name f = true /\ holds dir f spec /\ file_stem f = n) /\
      forall f spec, is_spec_name f = true -> holds dir f spec -> is_Some (specs !! file_stem f)
  | Err e => exists f c, is_spec_name f = true /\ dir !! f = Some (Regular c) /\ ~ readable dir f /\ e = ServiceSpecFileIO f
  end.
Proof.
  intros Hg. unfold SpecWatcher.specs_from_watch_path.
  destruct (SpecWatcher.spec_files dir) as [fs|] eqn:Ef; cbn [mbind result_bind].
  2: { unfold SpecWatcher.spec_files in Ef. by rewrite Hg in Ef. }
  pose proof (spec_files_spec _ _ Ef) as Hf.
  assert (Hsome : forall f, f ∈ fs -> is_Some (dir !! f)) by (intros f (_ & c & ->)%Hf; by eexists).
  pose proof (load_specs_spec dir fs ∅ Hsome) as Hl.
  destruct (SpecWatcher.load_specs dir fs ∅) as [specs|e].
  - destruct Hl as [Hr Hl]. split_and!.
    + intros f c Hs Hc. apply Hr, Hf. eauto.
    + intros n spec Hn. destruct (Hl n) as [(f & sp & Hin & Hh & Hst & Hsp)|[_ Hsp]]; [|by rewrite Hn, lookup_empty in Hsp].
      exists f. apply Hf in Hin as [? _]. split_and!; [done| |done]. by simplify_eq.
    + intros f spec Hs Hh. assert (f ∈ fs) as Hin.
      { apply Hf. split; [done|]. destruct Hh as [Hh _]. unfold ServiceSpec.from_file in Hh.
        destruct (dir !! f) as [[[]|]|]; naive_solver. }
      destruct (Hl (file_stem f)) as [(g & sp & _ & _ & _ & ->)|[Hno _]]; [by eexists|].
      by destruct (Hno _ _ Hin Hh).
  - destruct Hl as (f & (? & c & ?)%Hf & ? & ->). by exists f, c.
Qed.

(** The key of a loaded specification is the name of its service. *)
Definition keyed (m : gmap string ServiceSpec.t) : Prop :=
  forall n spec, m !! n = Some spec -> PackageIdent.name (ServiceSpec.ident spec) = n.

Lemma watch_path_keyed dir l specs :
  glob dir = Ok l -> SpecWatcher.specs_from_watch_path dir = Ok specs -> keyed specs.
Proof.
  intros Hg E. pose proof (watch_path_cases dir l Hg) as Hw. rewrite E in Hw. destruct Hw as (_ & Hw & _).
  intros n spec (f & _ & [_ Hst] & <-)%Hw. done.
Qed.

Lemma watch_path_spec dir l :
  glob dir = Ok l ->
  match SpecWatcher.specs_from_watch_path dir with
  | Ok specs =>
      (forall f c, is_spec_name f = true -> dir !! f = Some (Regular c) -> readable dir f) /\
      forall n spec, plain_name n ->
        specs !! n = Some spec <->
        ServiceSpec.from_file dir (n +:+ ".spec") = Ok spec /\ PackageIdent.name (ServiceSpec.ident spec) = n
  | Err e => exists f c, is_spec_name f = true /\ dir !! f = Some (Regular c) /\ ~ readable dir f /\ e = ServiceSpecFileIO f
  end.
Proof.
  intros Hg. pose proof (watch_path_cases dir l Hg) as Hw.
  destruct (SpecWatcher.specs_from_watch_path dir) as [specs|e] eqn:Es; [|done].
  destruct Hw as (Hr & Hw & Hw'). split; [done|]. intros n spec Hn. split.
  - intros (f & Hs & [Hh Hst] & <-)%Hw. rewrite <- (spec_file_of_stem f) by done. by rewrite Hst.
  - intros [Hf Hname]. assert (Hstem : file_stem (n +:+ ".spec") = n).
    { rewrite file_stem_spec, decide_False by apply Hn. done. }
    assert (Hspec : is_spec_name (n +:+ ".spec") = true) by (apply is_spec_name_iff; by exists n).
    destruct (Hw' (n +:+ ".spec") spec) as [spec' Hs']; [done|by split; [|congruence]|]. rewrite Hstem in Hs'.
    pose proof Hs' as (f & Hf' & [Hh _] & Hfn)%Hw. assert (f = n +:+ ".spec") as ->; [|congruence].
    rewrite <- Hfn at 1. apply spec_file_of_stem; [done|]. by rewrite Hfn.
Qed.

(** What the watcher loads from its directory.  It fails exactly when some [.spec] file
    cannot be read; otherwise the specification loaded for a service is the one of the file
    named after it, and a file that does not parse, has no identifier or is named after
    another service is passed over. *)
Theorem watch_path_loads dir l :
  glob dir = Ok l ->
  match SpecWatcher.specs_from_watch_path dir with
  | Ok specs =>
      (forall f c, is_spec_name f = true -> dir !! f = Some (Regular c) -> readable dir f) /\
      forall n spec, plain_name n ->
        specs !! n = Some spec <->
        ServiceSpec.from_file dir (n +:+ ".spec") = Ok spec /\ PackageIdent.name (ServiceSpec.ident spec) = n
  | Err e => exists f c, is_spec_name f = true /\ dir !! f = Some (Regular c) /\ ~ readable dir f /\ e = ServiceSpecFileIO f
  end.
Proof. apply watch_path_spec. Qed.
End loading.

(** ** The events *)

(** What an event means for the specifications of the running services. *)
Definition apply_event (m : gmap string ServiceSpec.t) (e : SpecWatcherEvent) : gmap string ServiceSpec.t :=
  match e with
  | AddService spec => <[PackageIdent.name (ServiceSpec.ident spec) := spec]> m
  | RemoveService spec => delete (PackageIdent.name (ServiceSpec.ident spec)) m
  end.

Section events.
  Context `{!RegexEngine, !Toml, !Glob}.

(** [m] without the keys [l]. *)
Definition without (l : list string) (m : gmap string ServiceSpec.t) : gmap string ServiceSpec.t :=
  foldl (fun m n => delete n m) m l.

Lemma lookup_without l m n : without l m !! n = if decide (n ∈ l) then None else m !! n.
Proof.
  revert m. induction l as [|x l IH]; intros m; cbn [without foldl]; [done|].
  change (foldl (fun m n => delete n m) (delete x m) l) with (without l (delete x m)). rewrite IH.
  repeat case_decide; [done|set_solver| |apply lookup_delete_ne; set_solver].
  assert (n = x) as -> by set_solver. apply lookup_delete_eq.
Qed.

Lemma omap_delete n (l : list string) (m : gmap string ServiceSpec.t) : n ∉ l -> omap (delete n m !!.) l = omap (m !!.) l.
Proof.
  induction l as [|x l IH]; intros Hn; [done|]. apply not_elem_of_cons in Hn as [Hne Hn].
  cbn. by rewrite lookup_delete_ne, IH.
Qed.

Lemma remove_loop_spec l m ev :
  NoDup l -> (forall n, n ∈ l -> is_Some (m !! n)) ->
  for_each SpecWatcher.remove_loop l (m, ev) = Return (without l m, ev ++ (RemoveService <$> omap (m !!.) l)).
Proof.
  revert m ev. induction l as [|n l IH]; intros m ev Hnd Hl; [cbn; by rewrite app_nil_r|].
  apply NoDup_cons in Hnd as [Hn Hnd]. destruct (Hl n) as [s Hs]; [set_solver|]. cbn. rewrite Hs. cbn.
  rewrite IH; [|done|intros x Hx; rewrite lookup_delete_ne by set_solver; apply Hl; set_solver].
  by rewrite <- app_assoc, omap_delete.
Qed.

Lemma add_loop_spec l m ev :
  NoDup l -> (forall n, n ∈ l -> is_Some (m !! n)) ->
  for_each SpecWatcher.add_loop l (m, ev) = Return (without l m, ev ++ (AddService <$> omap (m !!.) l)).
Proof.
  revert m ev. induction l as [|n l IH]; intros m ev Hnd Hl; [cbn; by rewrite app_nil_r|].
  apply NoDup_cons in Hnd as [Hn Hnd]. destruct (Hl n) as [s Hs]; [set_solver|]. cbn. rewrite Hs. cbn.
  rewrite IH; [|done|intros x Hx; rewrite lookup_delete_ne by set_solver; apply Hl; set_solver].
  by rewrite <- app_assoc, omap_delete.
Qed.

(** The events of the third loop for one name. *)
Definition change_events (active desired : gmap string ServiceSpec.t) (n : string) : list SpecWatcherEvent :=
  match active !! n, desired !! n with
  | Some a, Some d => if decide (a <> d) then [RemoveService a; AddService d] else []
  | _, _ => []
  end.

Lemma change_loop_spec l ma md ev :
  NoDup l -> (forall n, n ∈ l -> is_Some (ma !! n) /\ is_Some (md !! n)) ->
  for_each SpecWatcher.change_loop l (ma, md, ev) =
    Return (without l ma, without l md, ev ++ concat (change_events ma md <$> l)).
Proof.
  revert ma md ev. induction l as [|n l IH]; intros ma md ev Hnd Hl; [cbn; by rewrite app_nil_r|].
  apply NoDup_cons in Hnd as [Hn Hnd]. destruct (Hl n) as [[a Ha] [d Hd]]; [set_solver|].
  cbn. rewrite Ha, Hd. cbn. rewrite IH; [|done|].
  2: { intros x Hx. rewrite !lookup_delete_ne by set_solver. apply Hl; set_solver. }
  assert (change_events (delete n ma) (delete n md) <$> l = change_events ma md <$> l) as ->.
  { apply list_fmap_ext. intros i x Hx%list_elem_of_lookup_2. unfold change_events.
    by rewrite !lookup_delete_ne by set_solver. }
  unfold change_events at 2. rewrite Ha, Hd. do 2 f_equal. case_decide; cbn; by rewrite <- ?app_assoc.
Qed.

(** All events, in the order the three loops emit them. *)
Definition events_of (active desired : gmap string ServiceSpec.t) (l1 l2 l3 : list string) : list SpecWatcherEvent :=
  (RemoveService <$> omap (active !!.) l1) ++ (AddService <$> omap (desired !!.) l2) ++
  concat (change_events active desired <$> l3).

Lemma generate_events_run o1 o2 o3 self dir active desired :
  SpecWatcher.specs_from_watch_path dir = Ok desired ->
  exists l1 l2 l3, SpecWatcher.generate_events o1 o2 o3 self dir active =
      Return (SpecWatcher.mk false, Ok (events_of active desired l1 l2 l3)) /\
    NoDup l1 /\ NoDup l2 /\ NoDup l3 /\
    (forall n, n ∈ l1 <-> is_Some (active !! n) /\ desired !! n = None) /\
    (forall n, n ∈ l2 <-> active !! n = None /\ is_Some (desired !! n)) /\
    (forall n, n ∈ l3 <-> is_Some (active !! n) /\ is_Some (desired !! n)).
Proof.
  intros Hd. unfold SpecWatcher.generate_events. rewrite Hd.
  set (l1 := permute o1 (elements (dom active ∖ dom desired))).
  set (l2 := permute o2 (elements (dom desired ∖ dom active))).
  set (l3 := permute o3 (elements (dom active ∩ dom desired))).
  assert (N1 : NoDup l1) by (apply NoDup_permute, NoDup_elements).
  assert (N2 : NoDup l2) by (apply NoDup_permute, NoDup_elements).
  assert (N3 : NoDup l3) by (apply NoDup_permute, NoDup_elements).
  assert (M1 : forall n, n ∈ l1 <-> is_Some (active !! n) /\ desired !! n = None).
  { intros n. unfold l1. by rewrite elem_of_permute, elem_of_elements, elem_of_difference, elem_of_dom, not_elem_of_dom. }
  assert (M2 : forall n, n ∈ l2 <-> active !! n = None /\ is_Some (desired !! n)).
  { intros n. unfold l2. rewrite elem_of_permute, elem_of_elements, elem_of_difference, elem_of_dom, not_elem_of_dom. tauto. }
  assert (M3 : forall n, n ∈ l3 <-> is_Some (active !! n) /\ is_Some (desired !! n)).
  { intros n. unfold l3. by rewrite elem_of_permute, elem_of_elements, elem_of_intersection, !elem_of_dom. }
  exists l1, l2, l3. split_and!; try done.
  rewrite remove_loop_spec by naive_solver. cbn [mbind outcome_bind].
  rewrite add_loop_spec by naive_solver. cbn [mbind outcome_bind].
  rewrite change_loop_spec; [|done|].
  2: { intros n Hn. pose proof (M1 n). pose proof (M2 n). rewrite !lookup_without.
       apply M3 in Hn as [[a Ha] [d Hd']]. rewrite !decide_False by naive_solver. eauto. }
  cbn [mbind outcome_bind].
  assert (without l3 (without l1 active) = ∅) as ->.
  { apply map_eq. intros n. rewrite !lookup_without, lookup_empty. pose proof (M1 n). pose proof (M3 n).
    repeat case_decide; try done. destruct (desired !! n), (active !! n); naive_solver. }
  assert (without l3 (without l2 desired) = ∅) as ->.
  { apply map_eq. intros n. rewrite !lookup_without, lookup_empty. pose proof (M2 n). pose proof (M3 n).
    repeat case_decide; try done. destruct (desired !! n), (active !! n); naive_solver. }
  rewrite !decide_False by (by intros []).
  unfold events_of. rewrite <- !app_assoc. cbn [app]. do 5 f_equal.
  f_equal. apply list_fmap_ext. intros i n Hn%list_elem_of_lookup_2. unfold change_events.
  pose proof (M1 n). pose proof (M2 n). apply M3 in Hn as [[a Ha] [d Hd']]. rewrite !lookup_without.
  by rewrite !decide_False by naive_solver.
Qed.

(** *** Applying the events *)
Lemma apply_removes active l m :
  keyed active -> (forall n, n ∈ l -> is_Some (active !! n)) ->
  foldl apply_event m (RemoveService <$> omap (active !!.) l) = without l m.
Proof.
  intros Hk. revert m. induction l as [|n l IH]; intros m Hl; [done|].
  destruct (Hl n) as [s Hs]; [set_solver|]. cbn. rewrite Hs. cbn. rewrite (Hk _ _ Hs). apply IH. set_solver.
Qed.

Lemma apply_adds desired l m n :
  keyed desired -> (forall n, n ∈ l -> is_Some (desired !! n)) ->
  foldl apply_event m (AddService <$> omap (desired !!.) l) !! n = if decide (n ∈ l) then desired !! n else m !! n.
Proof.
  intros Hk. revert m. induction l as [|x l IH]; intros m Hl; [done|].
  destruct (Hl x) as [s Hs]; [set_solver|]. cbn. rewrite Hs. cbn. rewrite (Hk _ _ Hs), IH by set_solver.
  destruct (decide (n = x)) as [->|Hne]; [rewrite lookup_insert_eq|rewrite lookup_insert_ne by done];
    repeat case_decide; try done; set_solver.
Qed.

Lemma apply_changes active desired l m n :
  keyed active -> keyed desired -> NoDup l ->
  (forall n, n ∈ l -> m !! n = active !! n /\ is_Some (active !! n) /\ is_Some (desired !! n)) ->
  foldl apply_event m (concat (change_events active desired <$> l)) !! n = if decide (n ∈ l) then desired !! n else m !! n.
Proof.
  intros Ha Hd. revert m. induction l as [|x l IH]; intros m Hnd Hl; [done|].
  apply NoDup_cons in Hnd as [Hx Hnd]. destruct (Hl x) as (Hm & [a Ea] & [d Ed]); [set_solver|].
  cbn. rewrite foldl_app.
  assert (Hstep : forall y, foldl apply_event m (change_events active desired x) !! y = if decide (y = x) then desired !! x else m !! y).
  { intros y. unfold change_events. rewrite Ea, Ed. destruct (decide (a = d)) as [->|Hne].
    - rewrite (decide_False (P := d <> d)) by tauto. cbn [foldl].
      destruct (decide (y = x)) as [->|]; [by rewrite Hm, Ea|done].
    - rewrite (decide_True (P := a <> d)) by done. cbn [foldl apply_event]. rewrite (Ha _ _ Ea), (Hd _ _ Ed).
      destruct (decide (y = x)) as [->|]; [by rewrite lookup_insert_eq|by rewrite lookup_insert_ne, lookup_delete_ne]. }
  rewrite IH; [|done|].
  - rewrite Hstep. repeat case_decide; try done; set_solver.
  - intros y Hy. rewrite Hstep, decide_False by set_solver. apply Hl. set_solver.
Qed.

Lemma events_apply active desired l1 l2 l3 :
  keyed active -> keyed desired -> NoDup l3 ->
  (forall n, n ∈ l1 <-> is_Some (active !! n) /\ desired !! n = None) ->
  (forall n, n ∈ l2 <-> active !! n = None /\ is_Some (desired !! n)) ->
  (forall n, n ∈ l3 <-> is_Some (active !! n) /\ is_Some (desired !! n)) ->
  foldl apply_event active (events_of active desired l1 l2 l3) = desired.
Proof.
  intros Ha Hd Hnd M1 M2 M3. unfold events_of. rewrite !foldl_app, apply_removes by naive_solver.
  apply map_eq. intros n. rewrite apply_changes; [|done..|].
  - rewrite apply_adds by naive_solver. rewrite lookup_without.
    specialize (M1 n). specialize (M2 n). specialize (M3 n). repeat case_decide; try done.
    + naive_solver.
    + destruct (active !! n), (desired !! n); naive_solver.
  - intros x Hx. pose proof (M1 x). pose proof (M2 x). apply M3 in Hx as [[a Ea] [d Ed]].
    rewrite apply_adds by naive_solver. rewrite lookup_without, !decide_False by naive_solver. naive_solver.
Qed.

Lemma elem_of_omap_lookup (m : gmap string ServiceSpec.t) (l : list string) s :
  s ∈ omap (m !!.) l <-> exists n, n ∈ l /\ m !! n = Some s.
Proof. by rewrite list_elem_of_omap. Qed.

Lemma elem_of_events active desired l1 l2 l3 e :
  e ∈ events_of active desired l1 l2 l3 <->
  (exists n s, n ∈ l1 /\ active !! n = Some s /\ e = RemoveService s) \/
  (exists n s, n ∈ l2 /\ desired !! n = Some s /\ e = AddService s) \/
  (exists n a d, n ∈ l3 /\ active !! n = Some a /\ desired !! n = Some d /\ a <> d /\
     (e = RemoveService a \/ e = AddService d)).
Proof.
  unfold events_of. rewrite !elem_of_app, !list_elem_of_fmap.
  setoid_rewrite elem_of_omap_lookup.
  assert (e ∈ concat (change_events active desired <$> l3) <->
    exists n a d, n ∈ l3 /\ active !! n = Some a /\ desired !! n = Some d /\ a <> d /\
     (e = RemoveService a \/ e = AddService d)) as ->; [|naive_solver].
  rewrite list_elem_of_In, List.in_concat. setoid_rewrite <- list_elem_of_In. setoid_rewrite list_elem_of_fmap.
  unfold change_events. split.
  - intros (ev & (n & -> & Hn) & He). exists n. destruct (active !! n) as [a|], (desired !! n) as [d|]; try by apply not_elem_of_nil in He.
    exists a, d. case_decide; [|by apply not_elem_of_nil in He]. set_solver.
  - intros (n & a & d & Hn & Ea & Ed & Hne & He). eexists. split; [exists n; split; [done|done]|].
    rewrite Ea, Ed, decide_True by done. set_solver.
Qed.

(** The events bring the services in line with the directory.  Applied in order, whatever
    the order the sets are visited in, they turn the active specifications into those of the
    directory; a service is added exactly for a specification of the directory that is not
    active as it is, and removed exactly for an active one that is not in the directory as
    it is.  The code never panics, clears the flag, and on an unreadable directory changes
    nothing and keeps the flag. *)
Theorem generate_events_converge o1 o2 o3 self dir active l :
  glob dir = Ok l -> keyed active ->
  Returns (SpecWatcher.generate_events o1 o2 o3 self dir active) (fun r =>
    match SpecWatcher.specs_from_watch_path dir with
    | Err e => r = (self, Err e)
    | Ok desired => exists events, r = (SpecWatcher.mk false, Ok events) /\
        foldl apply_event active events = desired /\
        (forall s, AddService s ∈ events <-> exists n, desired !! n = Some s /\ active !! n <> Some s) /\
        (forall s, RemoveService s ∈ events <-> exists n, active !! n = Some s /\ desired !! n <> Some s)
    end).
Proof.
  intros Hg Hk. destruct (SpecWatcher.specs_from_watch_path dir) as [desired|e] eqn:Ed.
  2: { unfold SpecWatcher.generate_events. by rewrite Ed. }
  destruct (generate_events_run o1 o2 o3 self dir active desired Ed) as (l1 & l2 & l3 & -> & _ & _ & N3 & M1 & M2 & M3).
  cbn. eexists. split; [done|]. split; [by apply events_apply; [|eapply watch_path_keyed|..]|].
  setoid_rewrite elem_of_events. split; intros s; split.
  - intros [(n & s' & _ & _ & [=])|[(n & s' & Hn%M2 & Hs & [= <-])|(n & a & d & Hn & Ha & Hd & Hne & [[=]|[= <-]])]];
      exists n; split; naive_solver.
  - intros (n & Hd & Ha). right. destruct (active !! n) as [a|] eqn:Ea.
    + right. exists n, a, s. split_and!; [apply M3; naive_solver|done|done|naive_solver|by right].
    + left. exists n, s. split_and!; [apply M2; naive_solver|done..].
  - intros [(n & s' & Hn%M1 & Hs & [= <-])|[(n & s' & _ & _ & [=])|(n & a & d & Hn & Ha & Hd & Hne & [[= <-]|[=]])]];
      exists n; split; naive_solver.
  - intros (n & Ha & Hd). destruct (desired !! n) as [d|] eqn:Ed'.
    + right. right. exists n, s, d. split_and!; [apply M3; naive_solver|done|done|naive_solver|by left].
    + left. exists n, s. split_and!; [apply M1; naive_solver|done..].
Qed.

(** *** Playing the events

    Every removal is of an active specification as it is, every addition of a service that is
    not active; [P] holds of what is removed. *)
Fixpoint plays (P : ServiceSpec.t -> Prop) (m : gmap string ServiceSpec.t) (events : list SpecWatcherEvent) : Prop :=
  match events with
  | [] => True
  | RemoveService s :: events =>
      m !! PackageIdent.name (ServiceSpec.ident s) = Some s /\ P s /\ plays P (apply_event m (RemoveService s)) events
  | AddService s :: events =>
      m !! PackageIdent.name (ServiceSpec.ident s) = None /\ plays P (apply_event m (AddService s)) events
  end.

Lemma plays_app P m l1 l2 : plays P m (l1 ++ l2) <-> plays P m l1 /\ plays P (foldl apply_event m l1) l2.
Proof. revert m. induction l1 as [|[s|s] l1 IH]; intros m; cbn [app plays foldl]; [tauto|rewrite IH; tauto..]. Qed.

Lemma plays_removes (P : ServiceSpec.t -> Prop) active l m :
  keyed active -> NoDup l -> (forall n s, active !! n = Some s -> P s) ->
  (forall n, n ∈ l -> m !! n = active !! n /\ is_Some (active !! n)) ->
  plays P m (RemoveService <$> omap (active !!.) l).
Proof.
  intros Hk Hnd HP. revert m. induction Hnd as [|n l Hn _ IH]; intros m Hl; [done|].
  destruct (Hl n) as [Hm [s Hs]]; [set_solver|]. cbn [omap list_omap]. rewrite Hs. cbn [fmap list_fmap plays apply_event].
  rewrite (Hk _ _ Hs). split_and!; [congruence|by eapply HP|]. apply IH. intros x Hx.
  rewrite lookup_delete_ne by set_solver. apply Hl; set_solver.
Qed.

Lemma plays_adds P desired l m :
  keyed desired -> NoDup l -> (forall n, n ∈ l -> m !! n = None /\ is_Some (desired !! n)) ->
  plays P m (AddService <$> omap (desired !!.) l).
Proof.
  intros Hk Hnd. revert m. induction Hnd as [|n l Hn _ IH]; intros m Hl; [done|].
  destruct (Hl n) as [Hm [s Hs]]; [set_solver|]. cbn [omap list_omap]. rewrite Hs. cbn [fmap list_fmap plays apply_event].
  rewrite (Hk _ _ Hs). split; [done|]. apply IH. intros x Hx.
  rewrite lookup_insert_ne by set_solver. apply Hl; set_solver.
Qed.

Lemma plays_changes (P : ServiceSpec.t -> Prop) active desired l m :
  keyed active -> keyed desired -> NoDup l -> (forall n s, active !! n = Some s -> P s) ->
  (forall n, n ∈ l -> m !! n = active !! n /\ is_Some (active !! n) /\ is_Some (desired !! n)) ->
  plays P m (concat (change_events active desired <$> l)).
Proof.
  intros Ha Hd Hnd HP. revert m. induction Hnd as [|n l Hn _ IH]; intros m Hl; [done|].
  destruct (Hl n) as (Hm & [a Ea] & [d Ed]); [set_solver|]. cbn [fmap list_fmap concat].
  unfold change_events at 1. rewrite Ea, Ed. destruct (decide (a = d)) as [->|Hne].
  - rewrite (decide_False (P := d <> d)) by tauto. apply IH. intros x Hx. apply Hl; set_solver.
  - rewrite (decide_True (P := a <> d)) by done. cbn [app plays apply_event]. rewrite (Ha _ _ Ea), (Hd _ _ Ed).
    split_and!; [congruence|by eapply HP|apply lookup_delete_eq|]. apply IH. intros x Hx.
    rewrite lookup_insert_ne, lookup_delete_ne by set_solver. apply Hl; set_solver.
Qed.

Lemma events_play (P : ServiceSpec.t -> Prop) active desired l1 l2 l3 :
  keyed active -> keyed desired -> NoDup l1 -> NoDup l2 -> NoDup l3 ->
  (forall n s, active !! n = Some s -> P s) ->
  (forall n, n ∈ l1 <-> is_Some (active !! n) /\ desired !! n = None) ->
  (forall n, n ∈ l2 <-> active !! n = None /\ is_Some (desired !! n)) ->
  (forall n, n ∈ l3 <-> is_Some (active !! n) /\ is_Some (desired !! n)) ->
  plays P active (events_of active desired l1 l2 l3).
Proof.
  intros Ha Hd N1 N2 N3 HP M1 M2 M3. unfold events_of. rewrite !plays_app, apply_removes by naive_solver.
  split_and!.
  - apply plays_removes; naive_solver.
  - apply plays_adds; [done..|]. intros n Hn%M2. rewrite lookup_without. case_decide; naive_solver.
  - apply plays_changes; [done..|]. intros n Hn. pose proof (M1 n). pose proof (M2 n). apply M3 in Hn as [[a Ea] [d Ed]].
    rewrite apply_adds by naive_solver. rewrite lookup_without, !decide_False by naive_solver. naive_solver.
Qed.
End events.

(** ** A glob library, and an example *)
Section reference_glob.

Definition reference_list (dir : directory) : result string (list string) :=
  Ok (filter (fun n => is_spec_name n = true) (map_to_list dir).*1).

#[global, program] Instance reference_glob : Glob := {| glob := reference_list |}.
Next Obligation.
  intros dir l [= <-]. split; [apply NoDup_filter, NoDup_fst_map_to_list|]. intros n.
  rewrite list_elem_of_filter, list_elem_of_fmap. split.
  - intros [Hs ([n' x] & -> & Hin%elem_of_map_to_list)]. split; [by eexists|done].
  - intros [[x Hx] Hs]. split; [done|]. exists (n, x). split; [done|]. by apply elem_of_map_to_list.
Qed.
End reference_glob.

Module SpecWatcherExample.
#[local] Existing Instance reference_engine.

Definition spec : ServiceSpec.t := ServiceSpecExample.spec.
Definition text : string := match ServiceSpec.to_toml_string spec with Ok s => s | Err _ => "" end.
Definition dir : directory :=
  <["app.spec" := Regular (Contents text)]> (<["web.spec" := Regular (Contents text)]> ∅).

Lemma text_parses : ServiceSpec.from_str text = Ok spec.
Proof.
  unfold text. destruct (well_formed_round_trip spec ServiceSpecExample.spec_well_formed) as (s & Hs & Hs').
  rewrite Hs. exact Hs'.
Defined.

Lemma app_file : ServiceSpec.from_file dir "app.spec" = Ok spec.
Proof.
  unfold ServiceSpec.from_file. assert (dir !! "app.spec" = Some (Regular (Contents text))) as -> by reflexivity.
  apply text_parses.
Defined.

Lemma dir_loads : exists specs, SpecWatcher.specs_from_watch_path dir = Ok specs.
Proof.
  pose proof (watch_path_spec dir _ eq_refl) as H. destruct (SpecWatcher.specs_from_watch_path dir) as [specs|e]; [by exists specs|].
  exfalso. destruct H as (f & c & _ & Hf & Hr & _). apply Hr.
  unfold dir in Hf. apply lookup_insert_Some in Hf as [[<- _]|[Hne Hf]]; [exists text; reflexivity|].
  apply lookup_insert_Some in Hf as [[<- _]|[_ Hf]]; [exists text; reflexivity|]. rewrite lookup_empty in Hf. discriminate Hf.
Defined.

Lemma app_loaded specs : SpecWatcher.specs_from_watch_path dir = Ok specs -> specs !! "app" = Some spec.
Proof.
  intros E. pose proof (watch_path_spec dir _ eq_refl) as H. rewrite E in H.
  apply H; [split; discriminate|]. split; [exact app_file|reflexivity].
Defined.

(** The specification of [app] is loaded, and not under the name of the other file. *)
Lemma watch_path_loads_witness :
  exists specs, SpecWatcher.specs_from_watch_path dir = Ok specs /\ specs !! "app" = Some spec /\ specs !! "web" <> Some spec.
Proof.
  destruct dir_loads as [specs E]. exists specs. split; [exact E|].
  pose proof (watch_path_loads dir _ eq_refl) as H. rewrite E in H. destruct H as [_ H]. split.
  - apply H; [split; discriminate|]. split; [exact app_file|reflexivity].
  - intros [_ Hn]%H; [discriminate Hn|split; discriminate].
Defined.

Definition old_spec : ServiceSpec.t := ServiceSpec.default_for (PackageIdent.mk "acme" "app" None None).

(** A changed specification of [app] restarts the service. *)
Lemma generate_events_converge_witness :
  Returns (SpecWatcher.generate_events id_order rev_order id_order (SpecWatcher.mk true) dir {["app" := old_spec]}) (fun r =>
    exists events, r = (SpecWatcher.mk false, Ok events) /\ AddService spec ∈ events /\ RemoveService old_spec ∈ events).
Proof.
  destruct dir_loads as [specs Es]. pose proof (app_loaded specs Es) as Happ.
  eapply Returns_mono.
  - eapply (generate_events_converge id_order rev_order id_order (SpecWatcher.mk true) dir {["app" := old_spec]}); [reflexivity|].
    intros n s [<- <-]%lookup_singleton_Some. reflexivity.
  - cbn beta. intros r. rewrite Es. intros (events & -> & _ & Ha & Hr). exists events. split; [reflexivity|]. split.
    + apply Ha. exists "app". split; [exact Happ|]. rewrite lookup_singleton_eq. intros [=].
    + apply Hr. exists "app". split; [apply lookup_singleton_eq|]. rewrite Happ. intros [=].
Defined.
End SpecWatcherExample.
