(* ===== verification/Manager.v ===== *)
(** * Services and the manager's handling of specifications

    Models the creation of a service and its conversion back into a specification
    ([components/sup/src/manager/service/mod.rs], [package.rs]), and the part of the manager
    that starts and stops services as the specifications change
    ([components/sup/src/manager/mod.rs]).  What the manager asks of other parts of the
    Supervisor is recorded as a list of calls; the answers of the operating system are an
    environment. *)

From S2P Require Import Prelude Regex Text ServiceGroup Ident Target Metadata Install ServiceSpec SpecWatcher.
From Stdlib Require Import Ascii.
Local Open Scope string_scope.
Local Open Scope list_scope.

(** ** Packages of services *)
Module Pkg.
Record t := mk {
  ident : PackageIdent.t;
  svc_user : string;
  svc_group : string;
  deps : list PackageIdent.t;
  exposes : list string;
  exports : gmap string string;
  version : string;
  release : string;
  path : list string;
}.

(** [users] is the user and group the service runs as, [env] whether the environment of the
    package can be built. *)
Definition from_install (disk : node) (users : result sup_error (string * string)) (env : result sup_error unit)
    (package : PackageInstall.t) : outcome (result sup_error t) :=
  match (ug ← users; _ ← env; Ok ug) with
  | Err e => Return (Err e)
  | Ok (svc_user, svc_group) =>
      match PackageInstall.tdeps disk package, PackageInstall.exposes disk package with
      | Err e, _ | _, Err e => Return (Err (BadPackage package e))
      | Ok deps, Ok exposes =>
          r ← PackageInstall.exports disk package;
          match r with
          | Err e => Return (Err (BadPackage package e))
          | Ok exports =>
              v ← expect "No package version in PackageInstall" (PackageIdent.version (PackageInstall.ident package));
              rel ← expect "No package release in PackageInstall" (PackageIdent.release (PackageInstall.ident package));
              Return (Ok (mk (PackageInstall.ident package) svc_user svc_group deps exposes exports v rel
                             (PackageInstall.installed_path package)))
          end
      end
  end.
End Pkg.

(** ** Services *)

(** What the operating system and the files of a package answer when a service is created. *)
Record environment := Environment {
  disk : node;
  current : Platform.t;
  fs_root : list string;
  organization : option string;
  users : PackageInstall.t -> result sup_error (string * string);
  env_vars : PackageInstall.t -> result sup_error unit;
  templates : PackageInstall.t -> option string -> result sup_error unit;
  svc_path_ok : PackageIdent.t -> bool;
}.

Module SupService.
Record t := mk {
  service_group : ServiceGroup.t;
  bldr_url : string;
  channel : string;
  spec_file : string;
  spec_ident : PackageIdent.t;
  start_style : StartStyle.t;
  topology : Topology.t;
  update_strategy : UpdateStrategy.t;
  pkg : Pkg.t;
  initialized : bool;
  binds : list ServiceBind.t;
  config_from : option string;
  svc_encrypted_password : option string;
  composite : option string;
}.

Section with_libraries.
  Context `{!RegexEngine} (o : order) (env : environment).

Definition new (package : PackageInstall.t) (spec : ServiceSpec.t) : outcome (result sup_error t) :=
  match ServiceSpec.validate o spec (disk env) package with
  | Err e => Return (Err e)
  | Ok _ =>
      r ← Pkg.from_install (disk env) (users env package) (env_vars env package) package;
      Return (pkg ← r;
              match ServiceGroup.new (ServiceSpec.application_environment spec)
                      (PackageIdent.name (Pkg.ident pkg)) (ServiceSpec.group spec) (organization env) with
              | Err e => Err (HabitatCore (Core e))
              | Ok service_group =>
                  _ ← templates env package (ServiceSpec.config_from spec);
                  Ok (mk service_group (ServiceSpec.bldr_url spec) (ServiceSpec.channel spec)
                        (ServiceSpec.file_name spec) (ServiceSpec.ident spec) (ServiceSpec.start_style spec)
                        (ServiceSpec.topology spec) (ServiceSpec.update_strategy spec) pkg false
                        (ServiceSpec.binds spec) (ServiceSpec.config_from spec)
                        (ServiceSpec.svc_encrypted_password spec) (ServiceSpec.composite spec))
              end)
  end.

Definition load (spec : ServiceSpec.t) : outcome (result sup_error t) :=
  r ← PackageInstall.load (disk env) (current env) (ServiceSpec.ident spec) (fs_root env);
  match r with
  | Err e => Return (Err (HabitatCore e))
  | Ok package => new package spec
  end.

(** The desired state of the specification is the default, [Up]. *)
Definition to_spec (self : t) : outcome ServiceSpec.t :=
  let spec := ServiceSpec.default_for (spec_ident self) in
  group ← ServiceGroup.group (service_group self);
  appenv ← ServiceGroup.application_environment (service_group self);
  Return (ServiceSpec.mk (spec_ident self) group appenv (bldr_url self) (channel self) (topology self)
            (update_strategy self) (binds self) (config_from self) (ServiceSpec.desired_state spec)
            (start_style self) (svc_encrypted_password self) (composite self)).
End with_libraries.
End SupService.

(** ** The manager *)

(** What the manager has other parts do. *)
Inductive call :=
| GossipServiceRumor (sg : ServiceGroup.t)
| StartElection (sg : ServiceGroup.t) (term : Z)
| UpdaterAdd (sg : ServiceGroup.t)
| StopProcess (sg : ServiceGroup.t)
| RemoveHealthCheckCache (sg : ServiceGroup.t)
| SetDeparted
| ReleaseProcessLock.

Module Manager.
Record t := mk {
  services : list SupService.t;
  watcher : SpecWatcher.t;
  specs_path : directory;
  calls : list call;
}.

Definition made (cs : list call) (self : t) : t :=
  mk (services self) (watcher self) (specs_path self) (calls self ++ cs).

Section with_disk.
  (** The files that cannot be removed: an error of [fs::remove_file] is only logged. *)
  Context (stuck : string -> bool).

Definition remove_file (name : string) (self : t) : t :=
  mk (services self) (watcher self) (if stuck name then specs_path self else delete name (specs_path self)) (calls self).

Definition remove_spec (spec : ServiceSpec.t) (self : t) : t := remove_file (ServiceSpec.file_name spec) self.

Definition remove_service (service : SupService.t) (term : bool) (self : t) : t :=
  let self := if term then made [StopProcess (SupService.service_group service)] self else self in
  let self := if decide (SupService.start_style service = StartStyle.Transient)
              then remove_file (SupService.spec_file service) self else self in
  made [RemoveHealthCheckCache (SupService.service_group service)] self.

(** [iter().position(..)] and [Vec::remove] *)
Fixpoint take_service (ident : PackageIdent.t) (l : list SupService.t) : option (SupService.t * list SupService.t) :=
  match l with
  | [] => None
  | s :: l =>
      if decide (SupService.spec_ident s = ident) then Some (s, l)
      else '(x, l') ← take_service ident l; Some (x, s :: l')
  end.

Definition remove_service_for_spec (spec : ServiceSpec.t) (self : t) : t :=
  match take_service (ServiceSpec.ident spec) (services self) with
  | None => self
  | Some (service, rest) =>
      remove_service service true (mk rest (watcher self) (specs_path self) (calls self))
  end.

Definition shutdown (self : t) : t :=
  let self' := made [SetDeparted] (mk [] (watcher self) (specs_path self) (calls self)) in
  made [ReleaseProcessLock] (foldl (fun st s => remove_service s false st) self' (services self)).

Section with_libraries.
  Context `{!RegexEngine, !Toml, !Glob} (o : order) (env : environment).

Definition add_service (spec : ServiceSpec.t) (self : t) : outcome t :=
  r ← SupService.load o env spec;
  Return
    match r with
    | Err _ => if decide (ServiceSpec.start_style spec = StartStyle.Transient) then remove_spec spec self else self
    | Ok service =>
        if negb (svc_path_ok env (Pkg.ident (SupService.pkg service)))
        then self
        else
          let sg := SupService.service_group service in
          let self := made [GossipServiceRumor sg] self in
          let self := if decide (SupService.topology service = Topology.Leader)
                      then made [StartElection sg 0] self else self in
          let self := made [UpdaterAdd sg] self in
          mk (services self ++ [service]) (watcher self) (specs_path self) (calls self)
    end.

Definition handle_initial (e : SpecWatcherEvent) (self : t) : outcome t :=
  match e with
  | AddService spec =>
      if decide (ServiceSpec.desired_state spec = DesiredState.Up) then add_service spec self else Return self
  | RemoveService _ => Return self
  end.

Definition handle_event (e : SpecWatcherEvent) (self : t) : outcome t :=
  match e with
  | AddService spec =>
      if decide (ServiceSpec.desired_state spec = DesiredState.Up) then add_service spec self else Return self
  | RemoveService spec => Return (remove_service_for_spec spec self)
  end.

Definition set_watcher (w : SpecWatcher.t) (self : t) : t := mk (services self) w (specs_path self) (calls self).

Definition start_initial_services_from_watcher (o1 o2 o3 : order) (self : t) : outcome (t * result sup_error unit) :=
  r ← SpecWatcher.initial_events o1 o2 o3 (watcher self) (specs_path self);
  let '(w, events) := (r : SpecWatcher.t * result sup_error (list SpecWatcherEvent)) in
  match events with
  | Err e => Return (set_watcher w self, Err e)
  | Ok events => self ← for_each handle_initial events (set_watcher w self); Return (self, Ok tt)
  end.

(** The specifications of the running services, by name. *)
Definition active_specs (l : list SupService.t) : outcome (gmap string ServiceSpec.t) :=
  for_each (fun service active =>
    spec ← SupService.to_spec service;
    Return (<[PackageIdent.name (ServiceSpec.ident spec) := spec]> active)) l ∅.

Definition update_running_services_from_watcher (o1 o2 o3 : order) (self : t) : outcome (t * result sup_error unit) :=
  active ← active_specs (services self);
  r ← SpecWatcher.new_events o1 o2 o3 (watcher self) (specs_path self) active;
  let '(w, events) := (r : SpecWatcher.t * result sup_error (list SpecWatcherEvent)) in
  match events with
  | Err e => Return (set_watcher w self, Err e)
  | Ok events => self ← for_each handle_event events (set_watcher w self); Return (self, Ok tt)
  end.

(** Rewrites the specifications of the directory in the current format. *)
Definition migrate_file (ext : string) (io : string -> faults) (spec_file : string) (dir : directory) : directory :=
  match ServiceSpec.from_file dir spec_file with
  | Ok spec => (ServiceSpec.to_file spec dir spec_file ext (io spec_file)).1
  | Err _ => dir
  end.

Definition migrate_specs (ext : string) (io : string -> faults) (dir : directory) : directory :=
  match SpecWatcher.spec_files dir with
  | Ok specs => foldl (fun dir f => migrate_file ext io f dir) dir specs
  | Err _ => dir
  end.

Definition save_spec_for (spec : ServiceSpec.t) (dir : directory) (ext : string) (io : faults) : directory * result sup_error unit :=
  ServiceSpec.to_file spec dir (ServiceSpec.file_name spec) ext io.
End with_libraries.
End with_disk.
End Manager.
