(* ===== verification/ManagerProofs.v ===== *)
(** * Services and the manager: properties

    A service keeps its specification, and a pass of the manager leaves exactly the services
    of the directory that should be up running. *)

From S2P Require Import Prelude Regex Text ServiceGroup Ident Target Metadata Install InstallProofs ServiceSpec ServiceSpecProofs.
From S2P Require Import SpecWatcher Manager.
From Stdlib Require Import Ascii.
Local Open Scope string_scope.
Local Open Scope list_scope.

(** A specification with the desired state [Up]. *)
Definition with_up (s : ServiceSpec.t) : ServiceSpec.t :=
  ServiceSpec.mk (ServiceSpec.ident s) (ServiceSpec.group s) (ServiceSpec.application_environment s)
    (ServiceSpec.bldr_url s) (ServiceSpec.channel s) (ServiceSpec.topology s) (ServiceSpec.update_strategy s)
    (ServiceSpec.binds s) (ServiceSpec.config_from s) DesiredState.Up (ServiceSpec.start_style s)
    (ServiceSpec.svc_encrypted_password s) (ServiceSpec.composite s).

Section service.
  Context `{!RegexEngine}.

(** A service remembers its specification.  When the group, the package name and the
    organization are valid names and the application environment parses, creating a service
    and asking for its specification gives the one it was created from, with the desired
    state [Up]; so the manager never restarts a service whose file is unchanged. *)
Theorem service_keeps_spec o env package spec svc :
  SupService.new o env package spec = Return (Ok svc) ->
  valid_app_env (ServiceSpec.application_environment spec) ->
  valid_name "#@." (PackageIdent.name (PackageInstall.ident package)) ->
  valid_name "#@." (ServiceSpec.group spec) -> valid_org (organization env) ->
  SupService.to_spec svc = Return (with_up spec) /\
  SupService.spec_ident svc = ServiceSpec.ident spec /\ SupService.spec_file svc = ServiceSpec.file_name spec.
Proof.
  unfold SupService.new. destruct (ServiceSpec.validate _ _ _ _) as [[]|]; [|done]. intros E Hae Hn Hg Ho.
  destruct (Pkg.from_install _ _ _ _) as [r|] eqn:Ep; cbn [mbind outcome_bind] in E; [|done]. injection E as E.
  apply bind_ok in E as (pkg & -> & E).
  assert (Hi : Pkg.ident pkg = PackageInstall.ident package).
  { unfold Pkg.from_install in Ep. repeat case_match; try done.
    destruct (PackageInstall.exports _ _) as [[ex|]|]; cbn in Ep; try done.
    destruct (PackageIdent.version _); cbn in Ep; [|done]. destruct (PackageIdent.release _); cbn in Ep; [|done].
    by injection Ep as <-. }
  rewrite Hi in E. unfold ServiceGroup.new in E.
  destruct (from_str_parses _ _ _ _ Hae Hn Hg Ho) as (_ & H1 & _ & H2 & _).
  destruct (ServiceGroup.validate _) as [[]|]; cbn in E; [|done].
  apply bind_ok in E as ([] & _ & E). injection E as <-. split; [|done].
  unfold SupService.to_spec. cbn [SupService.service_group]. rewrite H2. cbn [mbind outcome_bind]. by rewrite H1.
Qed.
End service.

(** ** One pass of the manager *)
Section pass.
  Context `{!RegexEngine, !Toml, !Glob} (stuck : string -> bool) (o : order) (env : environment).

Definition service_name (svc : SupService.t) : string := PackageIdent.name (SupService.spec_ident svc).

(** The running services are those of the specifications [m], one for each. *)
Record represents (l : list SupService.t) (m : gmap string ServiceSpec.t) : Prop := {
  rep_nodup : NoDup (service_name <$> l);
  rep_sound svc : svc ∈ l -> exists s, SupService.to_spec svc = Return s /\ m !! service_name svc = Some s;
  rep_complete n s : m !! n = Some s -> exists svc, svc ∈ l /\ service_name svc = n /\ SupService.to_spec svc = Return s;
  rep_file svc : svc ∈ l -> SupService.spec_file svc = service_name svc +:+ ".spec";
}.

Definition up_only (m : gmap string ServiceSpec.t) : gmap string ServiceSpec.t :=
  filter (fun kv => ServiceSpec.desired_state kv.2 = DesiredState.Up) m.

(** The specification can be started: its service loads, gives the specification back and has its
    directories.  One that cannot is only logged by the manager. *)
Definition starts (s : ServiceSpec.t) : Prop :=
  exists svc, SupService.load o env s = Return (Ok svc) /\
    svc_path_ok env (Pkg.ident (SupService.pkg svc)) = true /\
    SupService.to_spec svc = Return s /\ SupService.spec_file svc = ServiceSpec.file_name s.

Lemma to_spec_ident svc s : SupService.to_spec svc = Return s ->
  ServiceSpec.ident s = SupService.spec_ident svc /\ ServiceSpec.desired_state s = DesiredState.Up /\
  ServiceSpec.start_style s = SupService.start_style svc.
Proof.
  unfold SupService.to_spec. destruct (ServiceGroup.group _); cbn; [|done].
  destruct (ServiceGroup.application_environment _); cbn; [|done]. by intros [= <-].
Qed.

Lemma represents_up l m n s : represents l m -> m !! n = Some s -> ServiceSpec.desired_state s = DesiredState.Up.
Proof. intros Hr (svc & _ & _ & Hs)%(rep_complete _ _ Hr). by apply to_spec_ident in Hs as (_ & ? & _). Qed.

Lemma represents_keyed l m : represents l m -> keyed m.
Proof.
  intros Hr n s (svc & _ & <- & Hs)%(rep_complete _ _ Hr). apply to_spec_ident in Hs as (-> & _). done.
Qed.

Lemma active_specs_spec l m : represents l m -> Manager.active_specs l = Return m.
Proof.
  intros Hr. unfold Manager.active_specs.
  assert (Hloop : forall l' (acc : gmap string ServiceSpec.t), (forall svc, svc ∈ l' -> svc ∈ l) ->
    exists m', for_each (fun service active => spec ← SupService.to_spec service;
      Return (<[PackageIdent.name (ServiceSpec.ident spec) := spec]> active)) l' acc = Return m' /\
    forall n, (exists svc, svc ∈ l' /\ service_name svc = n /\ m' !! n = m !! n) \/
              (forall svc, svc ∈ l' -> service_name svc <> n) /\ m' !! n = acc !! n).
  { induction l' as [|svc l' IH]; intros acc Hl.
    { exists acc. split; [done|]. intros n. right. split; [by intros ? ?%not_elem_of_nil|done]. }
    destruct (rep_sound _ _ Hr svc) as (s & Hs & Hm); [apply Hl; set_solver|]. cbn. rewrite Hs. cbn [mbind outcome_bind].
    destruct (IH (<[PackageIdent.name (ServiceSpec.ident s) := s]> acc)) as (m' & -> & Hm'); [set_solver|].
    exists m'. split; [done|]. intros n. apply to_spec_ident in Hs as (Hi & _).
    destruct (Hm' n) as [(x & Hx & ?)|[Hno Heq]]; [left; exists x; set_solver|].
    destruct (decide (service_name svc = n)) as [<-|Hne].
    - left. exists svc. split_and!; [set_solver|done|]. rewrite Heq, Hi, Hm. apply lookup_insert_eq.
    - right. split; [intros x [->|Hx]%elem_of_cons; [done|by apply Hno]|]. rewrite Heq, Hi. by apply lookup_insert_ne. }
  destruct (Hloop l ∅) as (m' & -> & Hm'); [done|]. f_equal. apply map_eq. intros n.
  destruct (Hm' n) as [(svc & _ & _ & ?)|[Hno ->]]; [done|]. rewrite lookup_empty.
  destruct (m !! n) as [s|] eqn:E; [|done]. destruct (rep_complete _ _ Hr n s E) as (svc & Hin & Hn & _).
  by destruct (Hno svc Hin).
Qed.

(** *** The steps *)
Lemma take_service_spec i l :
  match Manager.take_service i l with
  | Some (x, l') => exists l1 l2, l = l1 ++ x :: l2 /\ l' = l1 ++ l2 /\ SupService.spec_ident x = i
  | None => forall svc, svc ∈ l -> SupService.spec_ident svc <> i
  end.
Proof.
  induction l as [|s l IH]; cbn; [by intros ? ?%not_elem_of_nil|].
  case_decide; [by exists [], l|]. destruct (Manager.take_service i l) as [[x l']|]; cbn.
  - destruct IH as (l1 & l2 & -> & -> & ?). by exists (s :: l1), l2.
  - intros svc [->|Hin]%elem_of_cons; auto.
Qed.

Lemma represents_remove l1 x l2 m :
  represents (l1 ++ x :: l2) m -> represents (l1 ++ l2) (delete (service_name x) m).
Proof.
  intros Hr. pose proof (rep_nodup _ _ Hr) as Hnd. rewrite fmap_app, fmap_cons in Hnd.
  assert (Hx : forall svc, svc ∈ l1 ++ l2 -> service_name svc <> service_name x).
  { intros svc Hin E. rewrite <- Permutation_middle in Hnd. apply NoDup_cons in Hnd as [Hn _]. apply Hn.
    rewrite <- fmap_app, <- E. by apply list_elem_of_fmap_2. }
  assert (Hin : forall svc, svc ∈ l1 ++ l2 -> svc ∈ l1 ++ x :: l2) by set_solver.
  split.
  - rewrite fmap_app. rewrite <- Permutation_middle in Hnd. by apply NoDup_cons in Hnd as [_ Hnd].
  - intros svc Hs. rewrite lookup_delete_ne by (symmetry; by apply Hx). by apply Hr, Hin.
  - intros n s [Hne Hs]%lookup_delete_Some. destruct (rep_complete _ _ Hr n s Hs) as (svc & Hsvc & <- & ?).
    exists svc. split; [|done]. set_solver.
  - intros svc Hs. by apply (rep_file _ _ Hr), Hin.
Qed.

Lemma represents_add l m svc s :
  represents l m -> SupService.to_spec svc = Return s -> SupService.spec_file svc = ServiceSpec.file_name s ->
  m !! service_name svc = None -> represents (l ++ [svc]) (<[service_name svc := s]> m).
Proof.
  intros Hr Hs Hf Hn. assert (Hne : forall x, x ∈ l -> service_name x <> service_name svc).
  { intros x Hx E. destruct (rep_sound _ _ Hr x Hx) as (s' & _ & Hm). congruence. }
  split.
  - rewrite fmap_app. apply NoDup_app. split_and!; [apply Hr| |apply NoDup_singleton].
    intros n (x & -> & Hx)%list_elem_of_fmap ?%list_elem_of_singleton. by destruct (Hne x Hx).
  - intros x [Hx| ->%list_elem_of_singleton]%elem_of_app; [|exists s; by rewrite lookup_insert_eq].
    rewrite lookup_insert_ne by (symmetry; by apply Hne). by apply Hr.
  - intros n s' [[<- <-]|[Hne' Hs']]%lookup_insert_Some; [exists svc; set_solver|].
    destruct (rep_complete _ _ Hr n s' Hs') as (x & Hx & ?). exists x. set_solver.
  - intros x [Hx| ->%list_elem_of_singleton]%elem_of_app; [by apply (rep_file _ _ Hr)|].
    rewrite Hf. unfold ServiceSpec.file_name. by apply to_spec_ident in Hs as (-> & _).
Qed.

Lemma up_only_delete n m : up_only (delete n m) = delete n (up_only m).
Proof. unfold up_only. apply map_filter_delete. Qed.

Lemma up_only_insert s m n :
  up_only (<[n := s]> m) =
    if decide (ServiceSpec.desired_state s = DesiredState.Up) then <[n := s]> (up_only m) else up_only (delete n m).
Proof.
  unfold up_only. case_decide; [by rewrite map_filter_insert_True|]. rewrite map_filter_insert_False; [done|].
  by intros ?.
Qed.

Lemma handle_remove_spec st m s :
  represents (Manager.services st) (up_only m) ->
  m !! PackageIdent.name (ServiceSpec.ident s) = Some s -> ServiceSpec.desired_state s = DesiredState.Up ->
  Returns (Manager.handle_event stuck o env (RemoveService s) st) (fun st' =>
    represents (Manager.services st') (up_only (apply_event m (RemoveService s))) /\
    Manager.watcher st' = Manager.watcher st /\
    Manager.specs_path st' = if decide (ServiceSpec.start_style s = StartStyle.Transient)
                             then (if stuck (ServiceSpec.file_name s) then Manager.specs_path st
                                   else delete (ServiceSpec.file_name s) (Manager.specs_path st))
                             else Manager.specs_path st).
Proof.
  intros Hr Hm Hup. cbn [Manager.handle_event Returns apply_event]. rewrite up_only_delete.
  assert (up_only m !! PackageIdent.name (ServiceSpec.ident s) = Some s) as Hu by (by apply map_lookup_filter_Some_2).
  destruct (rep_complete _ _ Hr _ _ Hu) as (svc & Hin & Hn & Hs). apply to_spec_ident in Hs as (Hi & _ & Hst).
  unfold Manager.remove_service_for_spec. pose proof (take_service_spec (ServiceSpec.ident s) (Manager.services st)) as Ht.
  destruct (Manager.take_service _ _) as [[x rest]|]; [|by destruct (Ht svc Hin)].
  destruct Ht as (l1 & l2 & El & -> & Hx). rewrite El in Hr. pose proof (represents_remove _ _ _ _ Hr) as Hr'.
  assert (service_name x = PackageIdent.name (ServiceSpec.ident s)) as Hxn by (unfold service_name; by rewrite Hx).
  assert (SupService.start_style x = ServiceSpec.start_style s) as Hxs.
  { destruct (rep_sound _ _ Hr x) as (s' & Hs' & Hm'); [set_solver|]. rewrite Hxn, Hu in Hm'. injection Hm' as <-.
    by apply to_spec_ident in Hs' as (_ & _ & ->). }
  assert (SupService.spec_file x = ServiceSpec.file_name s) as Hxf.
  { rewrite (rep_file _ _ Hr x) by set_solver. by rewrite Hxn. }
  rewrite Hxn in Hr'. unfold Manager.remove_service. rewrite Hxs, Hxf. case_decide; done.
Qed.

Lemma handle_add_spec st m s :
  represents (Manager.services st) (up_only m) -> m !! PackageIdent.name (ServiceSpec.ident s) = None ->
  (ServiceSpec.desired_state s = DesiredState.Up -> starts s) ->
  Returns (Manager.handle_event stuck o env (AddService s) st) (fun st' =>
    represents (Manager.services st') (up_only (apply_event m (AddService s))) /\
    Manager.watcher st' = Manager.watcher st /\ Manager.specs_path st' = Manager.specs_path st).
Proof.
  intros Hr Hm Hs. cbn [Manager.handle_event apply_event]. rewrite up_only_insert.
  assert (Hu : up_only m !! PackageIdent.name (ServiceSpec.ident s) = None)
    by (apply map_lookup_filter_None_2; by left).
  case_decide as Hup; [|by rewrite delete_id]. destruct (Hs Hup) as (svc & Hl & Hok & Hsp & Hf).
  unfold Manager.add_service. rewrite Hl. cbn [mbind outcome_bind Returns]. rewrite Hok. cbn [negb].
  pose proof (to_spec_ident _ _ Hsp) as (Hi & _). rewrite Hi in Hu |- *.
  pose proof (represents_add _ _ _ _ Hr Hsp Hf Hu) as Hr'. unfold service_name in Hr'.
  by case_decide.
Qed.

(** The files that a sequence of events deletes: those of the removed transient services, if they
    can be removed. *)
Definition deleted (events : list SpecWatcherEvent) (f : string) : Prop :=
  exists s, RemoveService s ∈ events /\ ServiceSpec.start_style s = StartStyle.Transient /\ f = ServiceSpec.file_name s /\
    stuck f = false.

Lemma deleted_cons e events f : deleted (e :: events) f <-> deleted [e] f \/ deleted events f.
Proof. unfold deleted. setoid_rewrite elem_of_cons. setoid_rewrite elem_of_nil. naive_solver. Qed.

Lemma deleted_or_not events f : deleted events f \/ ~ deleted events f.
Proof.
  induction events as [|e events [IH|IH]].
  - right. by intros (s & ?%not_elem_of_nil & _).
  - left. apply deleted_cons. by right.
  - rewrite deleted_cons. destruct e as [s|s].
    + right. intros [(s' & [=]%list_elem_of_singleton & _)|]; done.
    + destruct (decide (ServiceSpec.start_style s = StartStyle.Transient /\ f = ServiceSpec.file_name s /\ stuck f = false)) as [(? & ? & ?)|Hn].
      * left. left. exists s. split_and!; [left|done..].
      * right. intros [(s' & [= ->]%list_elem_of_singleton & ?)|]; tauto.
Qed.

Lemma handle_events_spec events st m :
  represents (Manager.services st) (up_only m) ->
  plays (fun s => ServiceSpec.desired_state s = DesiredState.Up) m events ->
  (forall s, AddService s ∈ events -> ServiceSpec.desired_state s = DesiredState.Up -> starts s) ->
  Returns (for_each (Manager.handle_event stuck o env) events st) (fun st' =>
    represents (Manager.services st') (up_only (foldl apply_event m events)) /\
    Manager.watcher st' = Manager.watcher st /\
    forall f, (deleted events f -> Manager.specs_path st' !! f = None) /\
              (~ deleted events f -> Manager.specs_path st' !! f = Manager.specs_path st !! f)).
Proof.
  revert st m. induction events as [|e events IH]; intros st m Hr Hp Hs.
  { cbn. split_and!; [done..|]. intros f. split; [|done]. by intros (s & ?%not_elem_of_nil & _). }
  cbn [for_each foldl]. apply (Returns_bind _ _ (fun st' =>
    represents (Manager.services st') (up_only (apply_event m e)) /\ Manager.watcher st' = Manager.watcher st /\
    forall f, (deleted [e] f -> Manager.specs_path st' !! f = None) /\
              (~ deleted [e] f -> Manager.specs_path st' !! f = Manager.specs_path st !! f))).
  - destruct e as [s|s]; cbn [plays] in Hp.
    + destruct Hp as [Hn _]. eapply Returns_mono; [apply (handle_add_spec st m s Hr Hn)|].
      { apply Hs. left. }
      intros st' (? & ? & ->). split_and!; [done..|]. intros f. split; [|done].
      by intros (s' & [=]%list_elem_of_singleton & _).
    + destruct Hp as (Hn & Hup & _). eapply Returns_mono; [apply (handle_remove_spec st m s Hr Hn Hup)|].
      intros st' (? & ? & ->). split_and!; [done..|]. intros f. split.
      * intros (s' & [= ->]%list_elem_of_singleton & Ht & -> & Hk). rewrite decide_True, Hk by done. apply lookup_delete_eq.
      * intros Hd. case_decide as Ht; [|done]. destruct (stuck (ServiceSpec.file_name s)) eqn:Hk; [done|]. apply lookup_delete_ne. intros <-. apply Hd.
        exists s. split_and!; [left|done..].
  - intros st' (Hr' & Hw & Hf). eapply Returns_mono; [apply (IH st' (apply_event m e) Hr')|].
    + by destruct e; cbn [plays] in Hp; destruct_and!.
    + intros s Hin. apply Hs. by right.
    + intros st'' (Hr'' & Hw' & Hf'). split_and!; [done|congruence|]. intros f. rewrite deleted_cons.
      destruct (Hf f) as [Hf1 Hf2], (Hf' f) as [Hf1' Hf2']. split.
      * intros [Hd|Hd]; [|by apply Hf1'].
        destruct (deleted_or_not events f) as [Hd'|Hd']; [by apply Hf1'|]. rewrite Hf2' by done. by apply Hf1.
      * intros Hd. rewrite Hf2', Hf2; tauto.
Qed.

(** C8: one pass of the manager over a changed directory.  When the running services are those
    of the specifications [active], every specification that should be up can be started and
    the directory can be read, the pass succeeds without a panic, clears the flag, and leaves
    running exactly the services of the directory's specifications that should be up, as they
    are now.  The files it deletes are those of transient services that it removed or
    restarted, as far as they can be deleted ([stuck] has those that cannot), and no others. *)
Theorem services_converge o1 o2 o3 st active desired l :
  glob (Manager.specs_path st) = Ok l -> SpecWatcher.have_events (Manager.watcher st) = true ->
  represents (Manager.services st) active ->
  SpecWatcher.specs_from_watch_path (Manager.specs_path st) = Ok desired ->
  (forall n s, desired !! n = Some s -> ServiceSpec.desired_state s = DesiredState.Up -> starts s) ->
  Returns (Manager.update_running_services_from_watcher stuck o env o1 o2 o3 st) (fun r =>
    r.2 = Ok tt /\ SpecWatcher.have_events (Manager.watcher r.1) = false /\
    represents (Manager.services r.1) (up_only desired) /\
    forall f,
      let gone := exists n s, active !! n = Some s /\ desired !! n <> Some s /\
                    ServiceSpec.start_style s = StartStyle.Transient /\ f = ServiceSpec.file_name s /\ stuck f = false in
      (gone -> Manager.specs_path r.1 !! f = None) /\
      (~ gone -> Manager.specs_path r.1 !! f = Manager.specs_path st !! f)).
Proof.
  intros Hg Hw Hr Hd Hs. unfold Manager.update_running_services_from_watcher, SpecWatcher.new_events.
  rewrite (active_specs_spec _ _ Hr). cbn [mbind outcome_bind]. rewrite Hw.
  pose proof (represents_keyed _ _ Hr) as Hka. pose proof (watch_path_keyed _ _ _ Hg Hd) as Hkd.
  destruct (generate_events_run o1 o2 o3 (Manager.watcher st) _ active desired Hd)
    as (l1 & l2 & l3 & -> & N1 & N2 & N3 & M1 & M2 & M3). cbn [mbind outcome_bind].
  assert (Hup : up_only active = active).
  { apply map_filter_id. intros n s Hn. by apply (represents_up _ _ _ _ Hr Hn). }
  pose proof (elem_of_events active desired l1 l2 l3) as He.
  eapply Returns_bind; [apply (handle_events_spec _ _ active)|].
  - cbn. by rewrite Hup.
  - apply events_play; try done. intros n s Hn. by apply (represents_up _ _ _ _ Hr Hn).
  - intros s Hin%He. destruct Hin as [(n & s' & _ & _ & [=])|[(n & s' & _ & Hn & [= <-])|(n & a & d & _ & _ & Hn & _ & [[=]|[= <-]])]];
      by eapply Hs.
  - intros st' (Hr' & Hw' & Hf). rewrite events_apply in Hr' by done. cbn [Returns fst snd].
    split; [done|]. split; [by rewrite Hw'|]. split; [done|]. intros f.
    assert (Hdel : deleted (events_of active desired l1 l2 l3) f <-> exists n s, active !! n = Some s /\ desired !! n <> Some s /\
      ServiceSpec.start_style s = StartStyle.Transient /\ f = ServiceSpec.file_name s /\ stuck f = false).
    { unfold deleted. setoid_rewrite He. split.
      - intros (s & [(n & s' & Hn%M1 & Ha & [= <-])|[(n & s' & _ & _ & [=])|(n & a & d & _ & Ha & Hn & Hne & [[= <-]|[=]])]] & Ht & -> & Hk);
          exists n, s; split_and!; naive_solver.
      - intros (n & s & Ha & Hn & Ht & -> & Hk). exists s. split; [|done]. destruct (desired !! n) as [d|] eqn:Edn.
        + right. right. exists n, s, d. split_and!; [apply M3; naive_solver|done|done|naive_solver|by left].
        + left. exists n, s. split_and!; [apply M1; naive_solver|done..]. }
    cbv zeta. rewrite <- Hdel. apply Hf.
Qed.
End pass.

(** ** An example *)
Module ManagerExample.
#[local] Existing Instance reference_engine.

Definition release : node :=
  Dir [("TARGET", File (Contents "x86_64-linux")); ("BINDS", File (Contents "database=port"))].

Definition disk : node :=
  Dir [("hab", Dir [("pkgs", Dir [("acme", Dir [("app", Dir [("1.2.0", Dir [("20171231235959", release)])])])])])].

Definition env : environment :=
  Environment disk Platform.Linux [] None (fun _ => Ok ("hab", "hab")) (fun _ => Ok tt) (fun _ _ => Ok tt) (fun _ => true).

Definition spec : ServiceSpec.t := ServiceSpecExample.spec.
Definition text (s : ServiceSpec.t) : string := match ServiceSpec.to_toml_string s with Ok t => t | Err _ => "" end.
Definition dir (s : ServiceSpec.t) : directory := {["app.spec" := Regular (Contents (text s))]}.

Definition service (s : ServiceSpec.t) : option SupService.t :=
  match SupService.load id_order env s with Return (Ok svc) => Some svc | _ => None end.

Lemma spec_starts : starts id_order env spec.
Proof.
  eexists. split; [vm_compute; reflexivity|]. split; [vm_compute; reflexivity|].
  split; vm_compute; reflexivity.
Defined.

Lemma spec_text_parses : ServiceSpec.from_str (text spec) = Ok spec.
Proof.
  unfold text. destruct (well_formed_round_trip spec ServiceSpecExample.spec_well_formed) as (s & Hs & Hs').
  rewrite Hs. exact Hs'.
Defined.

Lemma only_app f s : holds (dir spec) f s -> f = "app.spec" /\ s = spec.
Proof.
  intros [Hf _]. unfold ServiceSpec.from_file, dir in Hf.
  destruct (decide (f = "app.spec")) as [->|Hne].
  - rewrite lookup_singleton_eq, spec_text_parses in Hf. injection Hf as <-. split; reflexivity.
  - rewrite lookup_singleton_ne in Hf by congruence. discriminate Hf.
Defined.

Lemma spec_dir_loads : exists specs, SpecWatcher.specs_from_watch_path (dir spec) = Ok specs.
Proof.
  pose proof (watch_path_cases (dir spec) _ eq_refl) as H.
  destruct (SpecWatcher.specs_from_watch_path (dir spec)) as [specs|e]; [by exists specs|].
  exfalso. destruct H as (f & c & _ & Hf & Hr & _). apply Hr. unfold dir in Hf.
  apply lookup_singleton_Some in Hf as [<- _]. exists (text spec). apply lookup_singleton_eq.
Defined.

Lemma services_converge_witness :
  Returns (Manager.update_running_services_from_watcher (fun _ => false) id_order env id_order rev_order id_order
      (Manager.mk [] (SpecWatcher.mk true) (dir spec) [])) (fun r =>
    exists svc, svc ∈ Manager.services r.1 /\ SupService.to_spec svc = Return spec).
Proof.
  destruct spec_dir_loads as [desired Ed]. pose proof (watch_path_cases (dir spec) _ eq_refl) as Hc. rewrite Ed in Hc.
  destruct Hc as (_ & Hc & Hc').
  assert (Happ : desired !! "app" = Some spec).
  { destruct (Hc' "app.spec" spec) as [s Hs]; [reflexivity| |].
    - split; [|reflexivity]. unfold ServiceSpec.from_file, dir. rewrite lookup_singleton_eq. apply spec_text_parses.
    - change (file_stem "app.spec") with "app" in Hs. pose proof Hs as (f & _ & [_ ->]%only_app & _)%Hc. exact Hs. }
  eapply Returns_mono.
  - eapply (services_converge (fun _ => false) id_order env id_order rev_order id_order (Manager.mk [] (SpecWatcher.mk true) (dir spec) []) ∅ desired);
      [reflexivity|reflexivity| |exact Ed|].
    + split; [apply NoDup_nil_2|..].
      * intros svc Hs. exfalso. exact (not_elem_of_nil svc Hs).
      * intros n s Hn. rewrite lookup_empty in Hn. discriminate Hn.
      * intros svc Hs. exfalso. exact (not_elem_of_nil svc Hs).
    + intros n s (f & _ & [_ ->]%only_app & _)%Hc _. exact spec_starts.
  - cbn beta. intros r (_ & _ & Hrep & _).
    destruct (rep_complete _ _ Hrep "app" spec) as (svc & Hin & _ & Hs).
    + apply map_lookup_filter_Some_2; [exact Happ|reflexivity].
    + exists svc. split; [exact Hin|exact Hs].
Defined.

Definition package : PackageInstall.t :=
  PackageInstall.mk (PackageIdent.mk "acme" "app" (Some "1.2.0") (Some "20171231235959")) [] ["hab"; "pkgs"]
    ["hab"; "pkgs"; "acme"; "app"; "1.2.0"; "20171231235959"].

Lemma service_keeps_spec_witness :
  exists svc, SupService.new id_order env package spec = Return (Ok svc) /\ SupService.to_spec svc = Return spec.
Proof.
  eexists. split; [vm_compute; reflexivity|].
  refine (proj1 (service_keeps_spec id_order env package spec _ _ _ _ _ _)).
  - vm_compute; reflexivity.
  - intros a [= <-]. vm_compute; reflexivity.
  - split; [discriminate|vm_compute; reflexivity].
  - split; [discriminate|vm_compute; reflexivity].
  - intros a [=].
Defined.

(** A transient service, and the same with another channel. *)
Definition transient (channel : string) : ServiceSpec.t :=
  ServiceSpec.mk (PackageIdent.mk "acme" "app" None None) "default" None "https://bldr.habitat.sh" channel
    Topology.Standalone UpdateStrategy.None [ServiceSpecExample.database] None DesiredState.Up StartStyle.Transient None None.

Definition pass (st : Manager.t) : option Manager.t :=
  match Manager.update_running_services_from_watcher (fun _ => false) id_order env id_order id_order id_order st with
  | Return (st', Ok _) => Some st'
  | _ => None
  end.

Definition channels (st : option Manager.t) : option (list string * bool) :=
  (fun st => (SupService.channel <$> Manager.services st, bool_decide (is_Some (Manager.specs_path st !! "app.spec")))) <$> st.

Definition started : option Manager.t :=
  (fun svc => Manager.mk [svc] (SpecWatcher.mk true) (dir (transient "unstable")) []) <$> service (transient "stable").

Definition renotified (st : option Manager.t) : option Manager.t :=
  (fun st => Manager.set_watcher (SpecWatcher.notify (Manager.watcher st)) st) <$> st.

(** Changing the channel of a running transient service restarts it with the new channel but
    deletes its file, and the pass that the deletion causes stops it. *)
Example transient_change_stops_service :
  channels started = Some (["stable"], true) /\
  channels (started ≫= pass) = Some (["unstable"], false) /\
  channels (renotified (started ≫= pass) ≫= pass) = Some ([], false).
Proof. split_and!; vm_compute; reflexivity. Qed.

(** A group with an [@] and no organization: the service does not give its specification back. *)
Example group_with_at_sign :
  let s := ServiceSpec.mk (PackageIdent.mk "acme" "app" None None) "default@acme" None "https://bldr.habitat.sh" "stable"
    Topology.Standalone UpdateStrategy.None [ServiceSpecExample.database] None DesiredState.Up StartStyle.Persistent None None in
  ((fun svc => match SupService.to_spec svc with Return s' => Some (ServiceSpec.group s') | Panic _ => None end) <$> service s)
    = Some (Some "default").
Proof. vm_compute. reflexivity. Qed.
End ManagerExample.
