(* ===== verification/Member.v ===== *)
(** * Members, their health, and the member list

    Models [components/butterfly/src/member.rs] and the [Member] and
    [Membership] messages of [protocols/swim.proto].  A protobuf field is
    modelled by the value its getter returns (the default when it is absent).
    The locks of [MemberList] are held per operation, so an operation is a
    function on the whole record; [SteadyTime::now()] is an argument. *)

From S2P Require Import Prelude Regex.
From Stdlib Require Import Ascii.
Local Open Scope string_scope.
Local Open Scope list_scope.

(** ** Wire messages *)
Record Member := mkMember {
  m_id : string;
  m_incarnation : Z;
  m_address : string;
  m_swim_port : Z;
  m_gossip_port : Z;
  m_persistent : bool;
  m_departed : bool;
}.

#[export] Instance Member_eq_dec : EqDecision Member.
Proof. solve_decision. Defined.

Definition set_incarnation (i : Z) (m : Member) : Member :=
  mkMember (m_id m) i (m_address m) (m_swim_port m) (m_gossip_port m) (m_persistent m) (m_departed m).
Definition set_address (a : string) (m : Member) : Member :=
  mkMember (m_id m) (m_incarnation m) a (m_swim_port m) (m_gossip_port m) (m_persistent m) (m_departed m).
Definition set_member_departed (d : bool) (m : Member) : Member :=
  mkMember (m_id m) (m_incarnation m) (m_address m) (m_swim_port m) (m_gossip_port m) (m_persistent m) d.

(** [Member::default], given the fresh UUID it draws. *)
Definition default_member (uuid : string) : Member := mkMember uuid 0 "" 0 0 false false.

Inductive Membership_Health := ALIVE | SUSPECT | CONFIRMED | DEPARTED.

(** [Membership_Health::from_i32], by the numbers of swim.proto. *)
Definition proto_health_from_i32 (v : Z) : option Membership_Health :=
  match v with
  | 1%Z => Some ALIVE
  | 2%Z => Some SUSPECT
  | 3%Z => Some CONFIRMED
  | 4%Z => Some DEPARTED
  | _ => None
  end.

(** ** [Health] *)
Inductive Health := Alive | Suspect | Confirmed | Departed.

#[export] Instance Health_eq_dec : EqDecision Health.
Proof. solve_decision. Defined.

Definition default_health : Health := Alive.

Definition health_from_proto (p : Membership_Health) : Health :=
  match p with
  | ALIVE => Alive
  | SUSPECT => Suspect
  | CONFIRMED => Confirmed
  | DEPARTED => Departed
  end.

Definition health_to_proto (h : Health) : Membership_Health :=
  match h with
  | Alive => ALIVE
  | Suspect => SUSPECT
  | Confirmed => CONFIRMED
  | Departed => DEPARTED
  end.

Definition health_from_i32 (v : Z) : Health :=
  health_from_proto (default ALIVE (proto_health_from_i32 v)).

Definition health_to_string (h : Health) : string :=
  match h with
  | Alive => "alive"
  | Suspect => "suspect"
  | Confirmed => "confirmed"
  | Departed => "departed"
  end.

(** [str::to_lowercase] on ASCII text. *)
Definition lower_char (c : ascii) : ascii :=
  if in_range "A" "Z" c then ascii_of_N (N_of_ascii c + 32) else c.
Definition to_lowercase (s : string) : string := of_chars (lower_char <$> to_chars s).

Definition health_from_str (value : string) : outcome Health :=
  let v := to_lowercase value in
  if String.eqb v "alive" then Return Alive
  else if String.eqb v "suspect" then Return Suspect
  else if String.eqb v "confirmed" then Return Confirmed
  else if String.eqb v "departed" then Return Departed
  else Panic ("No match for Health from string, " +:+ v).

Record Membership := mkMembership {
  ms_member : Member;
  ms_health : Membership_Health;
}.

(** ** [MemberList] *)
Module MemberList.
Record t := mk {
  members : gmap string Member;
  health : gmap string Health;
  suspect : gmap string Z;
  depart : gmap string Z;
  initial_members : list Member;
  update_counter : Z;
}.

Definition new : t := mk ∅ ∅ ∅ ∅ [] 0.

Definition increment_update_counter (ml : t) : t :=
  mk (members ml) (health ml) (suspect ml) (depart ml) (initial_members ml)
    (u64_add (update_counter ml) 1).
Definition get_update_counter (ml : t) : Z := update_counter ml.

Definition len_initial_members (ml : t) : nat := length (initial_members ml).
Definition add_initial_member (m : Member) (ml : t) : t :=
  mk (members ml) (health ml) (suspect ml) (depart ml) (initial_members ml ++ [m])
    (update_counter ml).
Definition set_initial_members (ms : list Member) (ml : t) : t :=
  mk (members ml) (health ml) (suspect ml) (depart ml) ms (update_counter ml).

(** The writes behind the locks. *)
Definition write_health (id : string) (h : Health) (ml : t) : t :=
  mk (members ml) (<[id := h]> (health ml)) (suspect ml) (depart ml) (initial_members ml)
    (update_counter ml).
Definition write_member (id : string) (m : Member) (ml : t) : t :=
  mk (<[id := m]> (members ml)) (health ml) (suspect ml) (depart ml) (initial_members ml)
    (update_counter ml).
Definition write_suspect (f : gmap string Z -> gmap string Z) (ml : t) : t :=
  mk (members ml) (health ml) (f (suspect ml)) (depart ml) (initial_members ml)
    (update_counter ml).
Definition write_depart (f : gmap string Z -> gmap string Z) (ml : t) : t :=
  mk (members ml) (health ml) (suspect ml) (f (depart ml)) (initial_members ml)
    (update_counter ml).

(** What [insert] decided to do. *)
Record decision := Decide {
  share_rumor : bool;
  start_suspicion : bool;
  stop_suspicion : bool;
  stop_departure : bool;
}.

(** The branch for equal incarnations. *)
Definition decide_equal_incarnation (current_health health : Health) : decision :=
  if decide (current_health = Alive /\ health = Suspect) then Decide true true false false
  else if decide (current_health = Alive /\ health = Confirmed) then Decide true false false false
  else if decide (current_health = Alive /\ health = Departed) then Decide true false false false
  else if decide (current_health = Alive /\ health = Alive) then Decide false false false false
  else if decide (current_health = Suspect /\ health = Alive) then Decide false false false false
  else if decide (current_health = Suspect /\ health = Suspect) then Decide false false false false
  else if decide (current_health = Suspect /\ health = Confirmed) then Decide true false true false
  else if decide (current_health = Suspect /\ health = Departed) then Decide true false true false
  else if decide (current_health = Confirmed /\ health = Departed) then Decide true false false true
  else Decide false false false false.

Definition decide_insert (member : Member) (h : Health) (ml : t) : outcome decision :=
  match members ml !! m_id member with
  | Some current_member =>
      if decide (m_incarnation current_member > m_incarnation member)%Z
      then Return (Decide false false false false)
      else if decide (m_incarnation member > m_incarnation current_member)%Z
      then Return (Decide true false
                     (bool_decide (h = Confirmed) || bool_decide (h = Departed))
                     (bool_decide (h = Departed)))
      else
        current_health ← expect
          "No health for a membership record should be impossible; did you use insert?"
          (health ml !! m_id current_member);
        Return (decide_equal_incarnation current_health h)
  | None => Return (Decide true false false false)
  end.

(** Inserts a member into the member list with the given health, as one step (the code locks the
    members, the healths and the rest one after the other). *)
Definition insert (now : Z) (member : Member) (h : Health) (ml : t) : outcome (t * bool) :=
  d ← decide_insert member h ml;
  let ml' :=
    if share_rumor d then
      let ml := increment_update_counter ml in
      let ml := write_health (m_id member) h ml in
      let ml := if start_suspicion d then write_suspect (<[m_id member := now]>) ml else ml in
      let ml := if stop_suspicion d then write_suspect (delete (m_id member)) ml else ml in
      let ml := if stop_departure d then write_depart (delete (m_id member)) ml else ml in
      write_member (m_id member) member ml
    else ml in
  Return (ml', share_rumor d).

Definition health_of_by_id (ml : t) (id : string) : option Health := health ml !! id.
Definition health_of (ml : t) (m : Member) : option Health := health ml !! m_id m.

Definition check_in_voting_population_by_id (ml : t) (id : string) : bool :=
  match health ml !! id with
  | Some Alive | Some Suspect | Some Confirmed => true
  | Some Departed => false
  | None => false
  end.

Definition check_health_of_by_id (ml : t) (id : string) (h : Health) : bool :=
  match health ml !! id with
  | Some real_health => bool_decide (real_health = h)
  | None => false
  end.
Definition check_health_of (ml : t) (m : Member) (h : Health) : bool :=
  match health ml !! m_id m with
  | Some real_health => bool_decide (real_health = h)
  | None => false
  end.

Definition pingable (ml : t) (m : Member) : bool :=
  if m_persistent m then true else check_health_of ml m Alive || check_health_of ml m Suspect.

Definition persistent_and_confirmed (ml : t) (m : Member) : bool :=
  m_persistent m && check_health_of ml m Confirmed.

Definition insert_health_by_id (now : Z) (id : string) (h : Health) (ml : t) : t * bool :=
  if decide (health ml !! id = Some h) then (ml, false)
  else
    let ml := if decide (h = Suspect) then write_suspect (<[id := now]>) ml else ml in
    let ml := write_health id h ml in
    (increment_update_counter ml, true).

Definition insert_health (now : Z) (m : Member) (h : Health) (ml : t) : t * bool :=
  insert_health_by_id now (m_id m) h ml.

Definition membership_for (ml : t) (id : string) : option Membership :=
  match health ml !! id with
  | None => None
  | Some h =>
      match members ml !! id with
      | Some m => Some (mkMembership m (health_to_proto h))
      | None => None
      end
  end.

Definition len (ml : t) : nat := size (members ml).

(** [HashMap::values] in its unspecified order. *)
Definition values {V} (m : gmap string V) : list V := (map_to_list m).*2.

(** A randomized list of members to check. *)
Definition check_list (o : order) (ml : t) (exclude_id : string) : list Member :=
  permute o (filter (fun m => m_id m <> exclude_id) (values (members ml))).

Definition PINGREQ_TARGETS : nat := 5.

(** The members [with_pingreq_targets] calls its closure on, in order. *)
Definition pingreq_targets (o : order) (ml : t) (sending_id target_id : string) : list Member :=
  take PINGREQ_TARGETS
    (filter (fun m => m_id m <> sending_id /\ m_id m <> target_id /\
                      check_health_of_by_id ml (m_id m) Alive = true)
            (permute o (values (members ml)))).

(** The entries [with_suspects] and [with_departures] call their closures on. *)
Definition suspects (o : order) (ml : t) : list (string * Z) := permute o (map_to_list (suspect ml)).
Definition departures (o : order) (ml : t) : list (string * Z) := permute o (map_to_list (depart ml)).

Definition expire (id : string) (ml : t) : t := write_suspect (delete id) ml.
Definition depart_at (now : Z) (id : string) (ml : t) : t := write_depart (<[id := now]>) ml.
Definition depart_remove (id : string) (ml : t) : t := write_depart (delete id) ml.

Definition contains_member (ml : t) (id : string) : bool := bool_decide (is_Some (members ml !! id)).

(** *** The invariant of the four tables

    Members are stored under their own id, every stored member has a health (so
    that the [expect] of [insert] cannot fire) and every suspicion timer belongs
    to an id whose health is known. *)
Record wf (ml : t) : Prop := {
  wf_ids : forall id m, members ml !! id = Some m -> m_id m = id;
  wf_health : forall id, is_Some (members ml !! id) -> is_Some (health ml !! id);
  wf_suspect : forall id, is_Some (suspect ml !! id) -> is_Some (health ml !! id);
  wf_counter : is_u64 (update_counter ml);
}.

(** *** The abstract view

    What gossip is meant to agree on: for every member id, the incarnation and
    health believed.  [newer] is the lexicographic order in which SWIM ranks
    beliefs, and [join] keeps the newer of the current and the heard belief. *)
Definition belief : Type := Z * Health.

Definition rank (h : Health) : Z :=
  match h with Alive => 0 | Suspect => 1 | Confirmed => 2 | Departed => 3 end.

Definition newer (new old : belief) : Prop :=
  (old.1 < new.1 \/ (new.1 = old.1 /\ rank old.2 < rank new.2))%Z.

#[export] Instance newer_dec new old : Decision (newer new old).
Proof. unfold newer. apply _. Defined.

Definition join (old : option belief) (new : belief) : belief :=
  match old with
  | None => new
  | Some old => if decide (newer new old) then new else old
  end.

Definition view (ml : t) (id : string) : option belief :=
  m ← members ml !! id; h ← health ml !! id; Some (m_incarnation m, h).

(** A membership rumor as it arrives: the time, the member and its health. *)
Definition heard : Type := Z * Member * Health.

Definition insert_all (l : list heard) (ml : t) : outcome t :=
  for_each (fun '(now, m, h) ml => fst <$> insert now m h ml) l ml.

Definition join_at (id : string) (v : option belief) (r : heard) : option belief :=
  let '(_, m, h) := r in
  if decide (m_id m = id) then Some (join v (m_incarnation m, h)) else v.

(** *** Lemmas *)
Lemma new_wf : wf new.
Proof.
  split; cbn; [by intros id m; rewrite lookup_empty|..|by vm_compute];
    intros id; rewrite lookup_empty; by intros [? ?].
Qed.

Lemma rank_inj h h' : rank h = rank h' -> h = h'.
Proof. by destruct h, h'. Qed.

Lemma join_comm v a b : join (Some (join v a)) b = join (Some (join v b)) a.
Proof.
  destruct a as [i h], b as [j g].
  assert (rank h = rank g -> h = g) as Hinj by apply rank_inj.
  destruct v as [[k e]|]; cbn; unfold newer; cbn;
    repeat (case_decide; cbn in * ); try done; try lia;
    (assert (i = j) as -> by lia; rewrite Hinj by lia; done).
Qed.

(** The decision for equal incarnations shares exactly the rumors of higher rank. *)
Lemma decide_equal_incarnation_share c h :
  share_rumor (decide_equal_incarnation c h) = bool_decide (rank c < rank h)%Z.
Proof. by destruct c, h. Qed.

(** [decide_insert] does not panic and shares exactly the newer beliefs. *)
Lemma decide_insert_spec m h ml :
  wf ml ->
  exists d, decide_insert m h ml = Return d /\
    share_rumor d = match view ml (m_id m) with
                    | None => true
                    | Some old => bool_decide (newer (m_incarnation m, h) old)
                    end.
Proof.
  intros Hwf. unfold decide_insert, view.
  destruct (members ml !! m_id m) as [cur|] eqn:Hm; cbn; [|by eexists].
  rewrite (wf_ids _ Hwf _ _ Hm).
  destruct (wf_health _ Hwf (m_id m)) as [ch Hch]; [by rewrite Hm|]. rewrite Hch; cbn.
  unfold newer; cbn. case_decide; [|case_decide]; eexists; (split; [reflexivity|]).
  - symmetry. apply bool_decide_eq_false_2. lia.
  - symmetry. apply bool_decide_eq_true_2. lia.
  - etrans; [apply (decide_equal_incarnation_share ch h)|]. apply bool_decide_ext. lia.
Qed.

(** The state a shared rumor leads to. *)
Definition shared (now : Z) (m : Member) (h : Health) (d : decision) (ml : t) : t :=
  mk (<[m_id m := m]> (members ml)) (<[m_id m := h]> (health ml))
     (let s := if start_suspicion d then <[m_id m := now]> (suspect ml) else suspect ml in
      if stop_suspicion d then delete (m_id m) s else s)
     (if stop_departure d then delete (m_id m) (depart ml) else depart ml)
     (initial_members ml) (u64_add (update_counter ml) 1).

Lemma insert_unfold now m h ml d :
  decide_insert m h ml = Return d ->
  insert now m h ml = Return (if share_rumor d then shared now m h d ml else ml, share_rumor d).
Proof.
  unfold insert. intros ->. cbn. destruct d as [[] [] [] []]; done.
Qed.

Lemma shared_wf now m h d ml : wf ml -> wf (shared now m h d ml).
Proof.
  intros [Hid Hh Hs Hc]. split; cbn.
  - intros id m'. rewrite lookup_insert_Some. naive_solver.
  - intros id. rewrite !lookup_insert_is_Some. destruct (decide (m_id m = id)); naive_solver.
  - intros id Hid'. rewrite lookup_insert_is_Some. destruct (decide (m_id m = id)) as [|Hne]; [by left|].
    right. split; [done|]. apply Hs. destruct (start_suspicion d), (stop_suspicion d); cbn in Hid';
      rewrite ?lookup_delete_ne, ?lookup_insert_ne in Hid' by done; done.
  - apply u64_add_range.
Qed.

Lemma shared_view now m h d ml id :
  view (shared now m h d ml) id =
  if decide (m_id m = id) then Some (m_incarnation m, h) else view ml id.
Proof.
  unfold view; cbn. destruct (decide (m_id m = id)) as [<-|Hne].
  - by rewrite !lookup_insert_eq.
  - by rewrite !lookup_insert_ne.
Qed.

(** [insert] keeps the invariant and computes [join] on the view. *)
Lemma insert_step now m h ml :
  wf ml ->
  Returns (insert now m h ml) (fun '(ml', b) =>
    wf ml' /\
    (forall id, view ml' id = join_at id (view ml id) (now, m, h)) /\
    (b = false -> ml' = ml) /\
    (b = true -> update_counter ml' = u64_add (update_counter ml) 1) /\
    (b = true <-> forall old, view ml (m_id m) = Some old -> newer (m_incarnation m, h) old)).
Proof.
  intros Hwf. destruct (decide_insert_spec m h ml Hwf) as [d [Hd Hshare]].
  eapply Returns_intro; [by apply insert_unfold|]. cbn.
  destruct (share_rumor d) eqn:Hb.
  - split; [by apply shared_wf|]. split.
    { intros id. rewrite shared_view. case_decide as Heq; [|done]. subst id.
      unfold join. destruct (view ml (m_id m)) as [old|]; [|done].
      symmetry in Hshare. apply bool_decide_eq_true in Hshare. by rewrite decide_True. }
    split; [done|]. split; [done|]. split; [|done]. intros _ old Hold.
    rewrite Hold in Hshare. symmetry in Hshare. by apply bool_decide_eq_true in Hshare.
  - split; [done|]. destruct (view ml (m_id m)) as [old|] eqn:Hold; [|done].
    symmetry in Hshare. apply bool_decide_eq_false in Hshare. split.
    { intros id. case_decide as Heq; [|done]. subst id. rewrite Hold; cbn. by rewrite decide_False. }
    split; [done|]. split; [done|]. split; [done|]. intros Hall. by specialize (Hall _ eq_refl).
Qed.

Lemma insert_wf now m h ml : wf ml -> Returns (insert now m h ml) (fun r => wf r.1).
Proof. intros Hwf. eapply Returns_mono; [by apply insert_step|]. intros [ml' b] H; apply H. Qed.

Lemma insert_health_by_id_wf now id h ml : wf ml -> wf (insert_health_by_id now id h ml).1.
Proof.
  intros [Hid Hh Hs Hc]. unfold insert_health_by_id. case_decide; [done|].
  case_decide; split; cbn; try done; try apply u64_add_range; intros id'.
  all: rewrite ?lookup_insert_is_Some; destruct (decide (id = id')); naive_solver.
Qed.

Lemma expire_wf id ml : wf ml -> wf (expire id ml).
Proof.
  intros [Hid Hh Hs Hc]. split; cbn; try done. intros id'. rewrite lookup_delete_is_Some. naive_solver.
Qed.

Lemma depart_at_wf now id ml : wf ml -> wf (depart_at now id ml).
Proof. by intros [Hid Hh Hs Hc]. Qed.

Lemma depart_remove_wf id ml : wf ml -> wf (depart_remove id ml).
Proof. by intros [Hid Hh Hs Hc]. Qed.

Lemma insert_all_view l ml :
  wf ml ->
  Returns (insert_all l ml) (fun ml' => wf ml' /\
    forall id, view ml' id = foldl (join_at id) (view ml id) l).
Proof.
  revert ml. induction l as [|[[now m] h] l IH]; intros ml Hwf; [done|].
  unfold insert_all; cbn. pose proof (insert_step now m h ml Hwf) as Hs.
  destruct (insert now m h ml) as [[ml1 b]|]; [|done]. destruct Hs as (Hwf1 & Hv & _). cbn.
  eapply Returns_mono; [by apply (IH ml1)|]. intros ml' [Hwf' Hv']. split; [done|].
  intros id. rewrite Hv', Hv. done.
Qed.

Lemma join_at_comm id v r1 r2 : join_at id (join_at id v r1) r2 = join_at id (join_at id v r2) r1.
Proof.
  destruct r1 as [[n1 m1] h1], r2 as [[n2 m2] h2]; cbn.
  repeat case_decide; try done. f_equal. apply join_comm.
Qed.

Lemma elem_of_values {V} (m : gmap string V) v : v ∈ values m <-> exists k, m !! k = Some v.
Proof.
  unfold values. rewrite list_elem_of_fmap. split.
  - intros ([k v'] & -> & H). exists k. by apply elem_of_map_to_list.
  - intros [k H]. exists (k, v). split; [done|]. by apply elem_of_map_to_list.
Qed.

(** With ids as keys, the values of the member table have distinct ids. *)
Lemma values_ids_NoDup ml : wf ml -> NoDup (m_id <$> values (members ml)).
Proof.
  intros Hwf. unfold values. rewrite <- list_fmap_compose.
  assert ((m_id ∘ snd) <$> map_to_list (members ml) = (map_to_list (members ml)).*1) as ->.
  { apply list_fmap_ext. intros i [k m] H. cbn.
    apply list_elem_of_lookup_2, elem_of_map_to_list in H. by eapply wf_ids. }
  apply NoDup_fst_map_to_list.
Qed.

Lemma elem_of_check_list o ml x m :
  m ∈ check_list o ml x <-> m_id m <> x /\ exists k, members ml !! k = Some m.
Proof. unfold check_list. by rewrite elem_of_permute, list_elem_of_filter, elem_of_values. Qed.

(** *** Properties *)

(** C4: [MemberList::insert] refines the SWIM update rule.  On a well-formed list it
    never panics, keeps the list well formed, and replaces the belief about the
    member exactly when the heard (incarnation, health) is lexicographically newer,
    with Alive < Suspect < Confirmed < Departed; the returned flag says whether that
    happened, nothing at all changes when it is false, and the update counter moves by
    one (modulo 2^64) when it is true. *)
Theorem insert_refines_join now m h ml :
  wf ml ->
  Returns (insert now m h ml) (fun '(ml', b) =>
    wf ml' /\
    (forall id, view ml' id =
       if decide (m_id m = id) then Some (join (view ml id) (m_incarnation m, h)) else view ml id) /\
    (b = false -> ml' = ml) /\
    (b = true -> update_counter ml' = u64_add (update_counter ml) 1) /\
    (b = true <-> forall old, view ml (m_id m) = Some old -> newer (m_incarnation m, h) old)).
Proof. apply insert_step. Qed.

Lemma insert_refines_join_witness :
  let m := mkMember "a" 1 "10.0.0.1" 9638 9638 false false in
  wf new /\ Returns (insert 5 m Suspect new) (fun '(ml', b) =>
    b = true /\ view ml' "a" = Some (1%Z, Suspect)).
Proof.
  intros m. split; [apply new_wf|].
  eapply Returns_mono; [apply (insert_refines_join 5 m Suspect new), new_wf|].
  intros [ml' b] (_ & Hv & _ & _ & Hb). split; [by apply Hb|].
  by rewrite Hv.
Defined.

(** C5: Membership gossip converges: two peers that start from lists with the same view and
    hear the same membership rumors, in any order and at any times, do not panic and end
    with the same incarnation and health for every member. *)
Theorem membership_converges l1 l2 ml1 ml2 :
  wf ml1 -> wf ml2 ->
  (forall id, view ml1 id = view ml2 id) ->
  (fun '(_, m, h) => (m, h)) <$> l1 ≡ₚ (fun '(_, m, h) => (m, h)) <$> (l2 : list heard) ->
  exists ml1' ml2', insert_all l1 ml1 = Return ml1' /\ insert_all l2 ml2 = Return ml2' /\
    forall id, view ml1' id = view ml2' id.
Proof.
  intros Hwf1 Hwf2 Hv Hp.
  destruct (Returns_inv _ _ (insert_all_view l1 ml1 Hwf1)) as (ml1' & E1 & _ & H1).
  destruct (Returns_inv _ _ (insert_all_view l2 ml2 Hwf2)) as (ml2' & E2 & _ & H2).
  exists ml1', ml2'. split_and!; [done|done|]. intros id. rewrite H1, H2, Hv.
  assert (forall l v, foldl (join_at id) v l =
    foldl (join_at id) v ((fun '(_, m, h) => (0%Z, m, h)) <$> l)) as Htime.
  { clear. intros l. induction l as [|[[n m] h] l IH]; intros v; [done|]. apply IH. }
  rewrite (Htime l1), (Htime l2). apply foldl_comm_perm; [apply join_at_comm|].
  apply (Permutation_map (fun '(m, h) => (0%Z, m, h))) in Hp. rewrite !map_map in Hp.
  erewrite (list_fmap_ext _ _ l1), (list_fmap_ext _ _ l2); [exact Hp|..]; by intros ? [[? ?] ?] ?.
Qed.

Lemma membership_converges_witness :
  let m i := mkMember "a" i "10.0.0.1" 9638 9638 false false in
  exists ml1' ml2',
    insert_all [(0%Z, m 1%Z, Alive); (1%Z, m 0%Z, Confirmed)] new = Return ml1' /\
    insert_all [(7%Z, m 0%Z, Confirmed); (8%Z, m 1%Z, Alive)] new = Return ml2' /\
    forall id, view ml1' id = view ml2' id.
Proof.
  intros m.
  apply (membership_converges [(0%Z, m 1%Z, Alive); (1%Z, m 0%Z, Confirmed)]
          [(7%Z, m 0%Z, Confirmed); (8%Z, m 1%Z, Alive)]);
    [apply new_wf|apply new_wf|done|apply Permutation_swap].
Defined.

(** The indirect probe asks at most five members, all distinct, none of them the sender
    or the target and each believed alive, and it asks all of the eligible ones when there
    are no more than five, whatever order the shuffle gives. *)
Theorem pingreq_targets_spec o ml sending target :
  wf ml ->
  let ts := pingreq_targets o ml sending target in
  let eligible := filter (fun m => m_id m <> sending /\ m_id m <> target /\
                                   health ml !! m_id m = Some Alive) (values (members ml)) in
  NoDup (m_id <$> ts) /\ (forall m, m ∈ ts -> m ∈ eligible) /\
  length ts = (length eligible `min` 5)%nat.
Proof.
  intros Hwf ts eligible.
  assert (forall l : list Member,
    filter (fun m => m_id m <> sending /\ m_id m <> target /\ check_health_of_by_id ml (m_id m) Alive = true) l =
    filter (fun m => m_id m <> sending /\ m_id m <> target /\ health ml !! m_id m = Some Alive) l) as Hext.
  { intros l. apply list_filter_iff. intros m. unfold check_health_of_by_id.
    destruct (health ml !! m_id m); rewrite ?bool_decide_eq_true; naive_solver. }
  assert (ts = take 5 (filter (fun m => m_id m <> sending /\ m_id m <> target /\
    health ml !! m_id m = Some Alive) (permute o (values (members ml))))) as -> by (unfold ts, pingreq_targets; by rewrite Hext).
  set (f := filter _ (permute o _)).
  assert (f ≡ₚ eligible) as Hp by (unfold f; by rewrite permute_perm).
  split_and!.
  - apply (sublist_fmap_NoDup _ _ _ (sublist_take f 5)). rewrite Hp.
    apply (sublist_fmap_NoDup _ _ _ (sublist_filter _ _)). by apply values_ids_NoDup.
  - intros m Hm. rewrite <- Hp. by apply (sublist_subseteq _ _ (sublist_take f 5)).
  - rewrite length_take, Hp. lia.
Qed.

Lemma pingreq_targets_spec_witness :
  let ms := (fun i => (0%Z, mkMember i 0 "" 0 0 false false, Alive)) <$> ["a"; "b"; "c"; "d"] in
  exists ml, insert_all ms new = Return ml /\ length (pingreq_targets rev_order ml "a" "b") = 2%nat.
Proof.
  intros ms. destruct (Returns_inv _ _ (insert_all_view ms new new_wf)) as (ml & E & Hwf & _).
  exists ml. split; [done|].
  destruct (pingreq_targets_spec rev_order ml "a" "b" Hwf) as (_ & _ & ->).
  by injection E as <-.
Defined.

End MemberList.
