(* ===== verification/Messages.v ===== *)
(** * The gossip messages

    Models the messages of [components/butterfly/protocols/swim.proto], as the
    generated [components/butterfly/src/message/swim.rs] declares them.  A
    protobuf field is modelled by the value its getter returns: an absent
    optional field reads as its default, which is also what every setter-free
    constructor ([Default]) gives here.  The byte encoding is protobuf's. *)

From S2P Require Import Prelude Member.
Local Open Scope string_scope.
Local Open Scope list_scope.

(** ** Enumerations *)
Inductive Rumor_Type :=
| RT_Member | RT_Service | RT_Election | RT_ServiceConfig | RT_ServiceFile
| RT_Fake | RT_Fake2 | RT_ElectionUpdate | RT_Departure.

(** The wire number of a rumor type. *)
Definition rumor_type_value (t : Rumor_Type) : Z :=
  match t with
  | RT_Member => 1 | RT_Service => 2 | RT_Election => 3 | RT_ServiceConfig => 4
  | RT_ServiceFile => 5 | RT_Fake => 6 | RT_Fake2 => 7 | RT_ElectionUpdate => 8
  | RT_Departure => 9
  end.

Definition rumor_type_from_i32 (v : Z) : option Rumor_Type :=
  match v with
  | 1%Z => Some RT_Member | 2%Z => Some RT_Service | 3%Z => Some RT_Election
  | 4%Z => Some RT_ServiceConfig | 5%Z => Some RT_ServiceFile | 6%Z => Some RT_Fake
  | 7%Z => Some RT_Fake2 | 8%Z => Some RT_ElectionUpdate | 9%Z => Some RT_Departure
  | _ => None
  end.

#[export] Instance Rumor_Type_eq_dec : EqDecision Rumor_Type.
Proof. solve_decision. Defined.
#[export] Program Instance Rumor_Type_countable : Countable Rumor_Type :=
  inj_countable rumor_type_value rumor_type_from_i32 _.
Next Obligation. by intros []. Qed.

Inductive Election_Status := Running | NoQuorum | Finished.
#[export] Instance Election_Status_eq_dec : EqDecision Election_Status.
Proof. solve_decision. Defined.

Inductive Swim_Type := PING | ACK | PINGREQ.
#[export] Instance Swim_Type_eq_dec : EqDecision Swim_Type.
Proof. solve_decision. Defined.

(** ** Rumor payloads *)
Record ProtoElection := mkElection {
  el_member_id : string;
  el_service_group : string;
  el_term : Z;
  el_suitability : Z;
  el_status : Election_Status;
  el_votes : list string;
}.

Record SysInfo := mkSysInfo {
  sys_ip : string;
  sys_hostname : string;
  sys_gossip_ip : string;
  sys_gossip_port : Z;
  sys_http_gateway_ip : string;
  sys_http_gateway_port : Z;
}.

Record ProtoService := mkService {
  sv_member_id : string;
  sv_service_group : string;
  sv_incarnation : Z;
  sv_initialized : bool;
  sv_pkg : string;
  sv_cfg : bytes;
  sv_sys : SysInfo;
}.

Record ProtoServiceConfig := mkServiceConfig {
  sc_service_group : string;
  sc_incarnation : Z;
  sc_encrypted : bool;
  sc_config : bytes;
}.

Record ProtoServiceFile := mkServiceFile {
  sf_service_group : string;
  sf_incarnation : Z;
  sf_encrypted : bool;
  sf_filename : string;
  sf_body : bytes;
}.

Record ProtoDeparture := mkDeparture { dp_member_id : string }.

#[export] Instance ProtoElection_eq_dec : EqDecision ProtoElection.
Proof. solve_decision. Defined.
#[export] Instance SysInfo_eq_dec : EqDecision SysInfo.
Proof. solve_decision. Defined.
#[export] Instance ProtoService_eq_dec : EqDecision ProtoService.
Proof. solve_decision. Defined.
#[export] Instance ProtoServiceConfig_eq_dec : EqDecision ProtoServiceConfig.
Proof. solve_decision. Defined.
#[export] Instance ProtoServiceFile_eq_dec : EqDecision ProtoServiceFile.
Proof. solve_decision. Defined.
#[export] Instance ProtoDeparture_eq_dec : EqDecision ProtoDeparture.
Proof. solve_decision. Defined.

Definition default_election : ProtoElection := mkElection "" "" 0 0 Running [].
Definition default_sys_info : SysInfo := mkSysInfo "127.0.0.1" "localhost" "127.0.0.1" 0 "127.0.0.1" 0.
Definition default_service : ProtoService := mkService "" "" 0 false "" [] default_sys_info.
Definition default_service_config : ProtoServiceConfig := mkServiceConfig "" 0 false [].
Definition default_service_file : ProtoServiceFile := mkServiceFile "" 0 false "" [].
Definition default_departure : ProtoDeparture := mkDeparture "".
Definition default_proto_member : Member := mkMember "" 0 "" 0 0 false false.
Definition default_membership : Membership := mkMembership default_proto_member ALIVE.

(** ** [Rumor]: a type, a sender and one payload *)
Inductive Rumor_payload :=
| PMember (m : Membership)
| PService (s : ProtoService)
| PServiceConfig (c : ProtoServiceConfig)
| PServiceFile (f : ProtoServiceFile)
| PElection (e : ProtoElection)
| PDeparture (d : ProtoDeparture).

Record ProtoRumor := mkRumor {
  ru_type : Rumor_Type;
  ru_tag : list string;
  ru_from_id : string;
  ru_payload : option Rumor_payload;
}.

(** The getters: a payload of another kind reads as the default message. *)
Definition get_member (r : ProtoRumor) : Membership :=
  match ru_payload r with Some (PMember m) => m | _ => default_membership end.
Definition get_service (r : ProtoRumor) : ProtoService :=
  match ru_payload r with Some (PService s) => s | _ => default_service end.
Definition get_service_config (r : ProtoRumor) : ProtoServiceConfig :=
  match ru_payload r with Some (PServiceConfig c) => c | _ => default_service_config end.
Definition get_service_file (r : ProtoRumor) : ProtoServiceFile :=
  match ru_payload r with Some (PServiceFile f) => f | _ => default_service_file end.
Definition get_election (r : ProtoRumor) : ProtoElection :=
  match ru_payload r with Some (PElection e) => e | _ => default_election end.
Definition get_departure (r : ProtoRumor) : ProtoDeparture :=
  match ru_payload r with Some (PDeparture d) => d | _ => default_departure end.

Definition set_payload (p : Rumor_payload) (r : ProtoRumor) : ProtoRumor :=
  mkRumor (ru_type r) (ru_tag r) (ru_from_id r) (Some p).
Definition set_field_type (t : Rumor_Type) (r : ProtoRumor) : ProtoRumor :=
  mkRumor t (ru_tag r) (ru_from_id r) (ru_payload r).

(** ** [Swim]: the probe messages *)
Record Ping := mkPing { ping_from : Member; ping_forward_to : option Member }.
Record Ack := mkAck { ack_from : Member; ack_forward_to : option Member }.
Record PingReq := mkPingReq { pingreq_from : Member; pingreq_target : Member }.

Inductive Swim_payload :=
| SPing (p : Ping)
| SAck (a : Ack)
| SPingReq (r : PingReq).

Record Swim := mkSwim {
  swim_type : Swim_Type;
  swim_payload : option Swim_payload;
  swim_membership : list Membership;
}.

Definition get_ping (s : Swim) : Ping :=
  match swim_payload s with Some (SPing p) => p | _ => mkPing default_proto_member None end.
Definition get_ack (s : Swim) : Ack :=
  match swim_payload s with Some (SAck a) => a | _ => mkAck default_proto_member None end.
Definition get_pingreq (s : Swim) : PingReq :=
  match swim_payload s with Some (SPingReq r) => r | _ => mkPingReq default_proto_member default_proto_member end.

(** ** [Wire]: the envelope *)
Record Wire := mkWire {
  wire_encrypted : bool;
  wire_nonce : bytes;
  wire_payload : bytes;
}.
