(* ===== verification/Rumor.v ===== *)
(** * Rumors and rumor stores

    Models [components/butterfly/src/rumor/mod.rs]: the key of a rumor, the
    [Rumor] trait as a type class, and the generic [RumorStore].  The laws the
    store needs from a rumor kind are a second class, [LawfulRumor]; kinds whose
    merge keeps the higher incarnation are [VersionedRumor]s.  The theorems about
    the store are proved against these classes and the kinds discharge them. *)

From S2P Require Import Prelude Member Messages.
Local Open Scope string_scope.
Local Open Scope list_scope.

(** ** [RumorKey] *)
Module RumorKey.
Record t := mk {
  kind : Rumor_Type;
  id : string;
  key : string;
}.

#[global] Instance t_eq_dec : EqDecision t.
Proof. solve_decision. Defined.
#[global] Program Instance t_countable : Countable t :=
  inj_countable' (fun k => (kind k, id k, key k)) (fun '(a, b, c) => mk a b c) _.
Next Obligation. by intros []. Qed.

Definition new (kind : Rumor_Type) (id key : string) : t := mk kind id key.

(** The printable form. *)
Definition to_key (k : t) : string :=
  if decide (0 < String.length (key k))%nat then id k +:+ "-" +:+ key k else id k.

(** [From<Member> for RumorKey]. *)
Definition from_member (m : Member) : t := new RT_Member (m_id m) "".
End RumorKey.

(** ** The [Rumor] trait *)
Class Rumor (T : Type) := {
  rumor_kind : T -> Rumor_Type;
  rumor_key : T -> string;
  rumor_id : T -> string;
  rumor_merge : T -> T -> T * bool;
}.

(** [From<&T> for RumorKey]. *)
Definition rumor_key_of `{Rumor T} (r : T) : RumorKey.t :=
  RumorKey.new (rumor_kind r) (rumor_id r) (rumor_key r).

(** Two rumors compete for the same slot of a store. *)
Definition same_slot `{Rumor T} (a b : T) : Prop :=
  rumor_key a = rumor_key b /\ rumor_id a = rumor_id b.

(** A merge never moves a rumor to another slot. *)
Class LawfulRumor (T : Type) `{Rumor T} := {
  merge_slot : forall a b : T, same_slot a b -> same_slot (rumor_merge a b).1 a;
}.

(** Rumors for which the higher incarnation wins. *)
Class VersionedRumor (T : Type) `{Rumor T} := {
  version : T -> Z;
  merge_version : forall a b : T, same_slot a b ->
    rumor_merge a b = if decide (version a < version b)%Z then (b, true) else (a, false);
}.

#[export] Instance versioned_lawful `{VersionedRumor T} : LawfulRumor T.
Proof.
  split. intros a b Hs. rewrite merge_version by done. case_decide; [|done].
  by destruct Hs.
Qed.

(** ** [RumorStore] *)
Module RumorStore.
Record t (T : Type) := mk {
  entries : gmap string (gmap string T);
  update_counter : Z;
}.
Arguments mk {T} _ _.
Arguments entries {T} _.
Arguments update_counter {T} _.

Inductive error := NonExistentRumor (member_id key : string).

Section store.
  Context {T : Type} `{Rumor T}.
  Implicit Types (r : T) (st : t T).

Definition default_store : t T := mk ∅ 0.
Definition new (counter : Z) : t T := mk ∅ counter.

(** Clears the store and resets the counter, returning its previous value. *)
Definition clear (st : t T) : t T * Z := (mk ∅ 0, update_counter st).

Definition get_update_counter (st : t T) : Z := update_counter st.

Definition len (st : t T) : nat := sum_list_with size (map_to_list (entries st)).*2.
Definition len_for_key (st : t T) (key : string) : nat := from_option size 0%nat (entries st !! key).

Definition increment_update_counter (st : t T) : t T := mk (entries st) (u64_add (update_counter st) 1).

(** [entry(key).or_insert(..)], then [entry(id)]: merge into the rumor that is
    there, or store the new one. *)
Definition insert (r : T) (st : t T) : t T * bool :=
  let rumors := default ∅ (entries st !! rumor_key r) in
  let '(stored, result) :=
    match rumors !! rumor_id r with
    | Some old => rumor_merge old r
    | None => (r, true)
    end in
  let st := mk (<[rumor_key r := <[rumor_id r := stored]> rumors]> (entries st)) (update_counter st) in
  (if result then increment_update_counter st else st, result).

Definition remove (key id : string) (st : t T) : t T :=
  match entries st !! key with
  | Some rumors => mk (<[key := delete id rumors]> (entries st)) (update_counter st)
  | None => st
  end.

(** The keys and their rumors, as [with_keys] iterates over them. *)
Definition keys (o : order) (st : t T) : list (string * gmap string T) :=
  permute o (map_to_list (entries st)).

(** The rumors under a key, as [with_rumors] iterates over them. *)
Definition rumors_of (o : order) (st : t T) (key : string) : list T :=
  match entries st !! key with
  | Some rumors => permute o (map_to_list rumors).*2
  | None => []
  end.

(** What [with_rumor] passes to its closure. *)
Definition get (st : t T) (key member_id : string) : option T :=
  rumors ← entries st !! key; rumors !! member_id.

(** [write_to_bytes], given the encoder of the rumor kind. *)
Definition write_to_bytes {E} (encode : T -> result E bytes) (st : t T) (key member_id : string)
  : result (E + error) bytes :=
  match get st key member_id with
  | Some rumor => match encode rumor with Ok b => Ok b | Err e => Err (inl e) end
  | None => Err (inr (NonExistentRumor member_id key))
  end.

Definition contains_rumor (st : t T) (key id : string) : bool :=
  match get st key id with Some _ => true | None => false end.

(** *** Invariant and equivalence *)
Record wf (st : t T) : Prop := {
  wf_slot : forall k i r, get st k i = Some r -> rumor_key r = k /\ rumor_id r = i;
  wf_counter : is_u64 (update_counter st);
}.

(** Stores that hold the same rumors: inner maps left empty by [remove] and the
    counter do not matter. *)
Definition store_equiv (st1 st2 : t T) : Prop := forall k i, get st1 k i = get st2 k i.

Definition insert_all (rs : list T) (st : t T) : t T :=
  foldl (fun st r => (insert r st).1) st rs.

(** What [insert] stores in the slot of [r], given what was there, and its result. *)
Definition slot_after (old : option T) (r : T) : T * bool :=
  match old with Some old => rumor_merge old r | None => (r, true) end.

(** *** Lemmas *)
#[global] Instance store_equiv_equivalence : Equivalence store_equiv.
Proof. split; [by intros st k i|by intros s1 s2 E k i|intros s1 s2 s3 E1 E2 k i; by rewrite E1]. Qed.

Lemma insert_result r st : (insert r st).2 = (slot_after (get st (rumor_key r) (rumor_id r)) r).2.
Proof.
  unfold insert, slot_after, get. destruct (entries st !! rumor_key r) as [m|]; cbn.
  - destruct (m !! rumor_id r) as [old|]; [|done]. by destruct (rumor_merge old r) as [? []].
  - by rewrite lookup_empty.
Qed.

Lemma insert_entries r st :
  entries (insert r st).1 =
  <[rumor_key r := <[rumor_id r := (slot_after (get st (rumor_key r) (rumor_id r)) r).1]>
                     (default ∅ (entries st !! rumor_key r))]> (entries st).
Proof.
  unfold insert, slot_after, get. destruct (entries st !! rumor_key r) as [m|]; cbn.
  - destruct (m !! rumor_id r) as [old|]; [|done]. by destruct (rumor_merge old r) as [? []].
  - by rewrite lookup_empty.
Qed.

Lemma insert_counter r st :
  update_counter (insert r st).1 =
  if (insert r st).2 then u64_add (update_counter st) 1 else update_counter st.
Proof.
  unfold insert. destruct (default ∅ (entries st !! rumor_key r) !! rumor_id r) as [old|]; [|done].
  by destruct (rumor_merge old r) as [? []].
Qed.

Lemma get_insert r st k i :
  get (insert r st).1 k i =
  if decide (rumor_key r = k /\ rumor_id r = i)
  then Some (slot_after (get st (rumor_key r) (rumor_id r)) r).1 else get st k i.
Proof.
  unfold get at 1. rewrite insert_entries.
  destruct (decide (rumor_key r = k)) as [<-|Hk].
  - rewrite lookup_insert_eq; cbn. destruct (decide (rumor_id r = i)) as [<-|Hi].
    + by rewrite lookup_insert_eq, decide_True.
    + rewrite lookup_insert_ne, decide_False by naive_solver. unfold get.
      by destruct (entries st !! rumor_key r).
  - by rewrite lookup_insert_ne, decide_False by naive_solver.
Qed.

Lemma get_remove key id st k i :
  get (remove key id st) k i = if decide (key = k /\ id = i) then None else get st k i.
Proof.
  unfold get, remove. destruct (entries st !! key) as [m|] eqn:Hm; cbn.
  - destruct (decide (key = k)) as [<-|Hk].
    + rewrite lookup_insert_eq, Hm; cbn. destruct (decide (id = i)) as [<-|Hi].
      * by rewrite lookup_delete_eq, decide_True.
      * by rewrite lookup_delete_ne, decide_False by naive_solver.
    + by rewrite lookup_insert_ne, decide_False by naive_solver.
  - case_decide as Hd; [|done]. destruct Hd as [<- _]. by rewrite Hm.
Qed.

#[global] Instance insert_proper : Proper ((=) ==> store_equiv ==> store_equiv) (fun r st => (insert r st).1).
Proof. intros r ? <- s1 s2 E k i. rewrite !get_insert, !E. done. Qed.

#[global] Instance remove_proper : Proper ((=) ==> (=) ==> store_equiv ==> store_equiv) remove.
Proof. intros k ? <- i ? <- s1 s2 E k' i'. by rewrite !get_remove, E. Qed.

Lemma store_new_wf c : is_u64 c -> wf (new c).
Proof. intros Hc. split; [|done]. intros k i r. by cbn. Qed.

Lemma clear_wf st : wf (clear st).1.
Proof. apply store_new_wf. by vm_compute. Qed.

Lemma remove_wf k i st : wf st -> wf (remove k i st).
Proof.
  intros [Hs Hc]. split.
  - intros k' i' r. rewrite get_remove. case_decide; [done|]. apply Hs.
  - unfold remove. by destruct (entries st !! k).
Qed.

Lemma slot_after_slot `{!LawfulRumor T} st r :
  wf st -> same_slot (slot_after (get st (rumor_key r) (rumor_id r)) r).1 r.
Proof.
  intros Hwf. destruct (get st _ _) as [old|] eqn:Hold; [|done]. cbn.
  apply wf_slot in Hold as Hslot; [|done].
  destruct (merge_slot old r Hslot) as [Hk Hi]. destruct Hslot. split; congruence.
Qed.

Lemma store_insert_wf `{!LawfulRumor T} r st : wf st -> wf (insert r st).1.
Proof.
  intros Hwf. split.
  - intros k i r'. rewrite get_insert. case_decide as Hd; [|by apply wf_slot].
    intros [= <-]. destruct Hd as [<- <-]. by apply slot_after_slot.
  - rewrite insert_counter. destruct (insert r st).2; [apply u64_add_range|by apply wf_counter].
Qed.

Lemma insert_all_wf `{!LawfulRumor T} rs st : wf st -> wf (insert_all rs st).
Proof. intros Hwf. apply (foldl_inv wf); [done|]. intros; by apply store_insert_wf. Qed.

(** The rumors under one key have distinct ids. *)
Lemma rumors_of_ids_NoDup o st key : wf st -> NoDup (rumor_id <$> rumors_of o st key).
Proof.
  intros Hwf. unfold rumors_of. destruct (entries st !! key) as [m|] eqn:Hm; [|constructor].
  rewrite permute_perm, <- list_fmap_compose.
  assert ((rumor_id ∘ snd) <$> map_to_list m = (map_to_list m).*1) as ->.
  { apply list_fmap_ext. intros j [i r] Hj. apply list_elem_of_lookup_2, elem_of_map_to_list in Hj. cbn.
    apply (wf_slot _ Hwf key i r). unfold get. rewrite Hm. done. }
  apply NoDup_fst_map_to_list.
Qed.

Lemma elem_of_rumors_of o st key r :
  wf st -> r ∈ rumors_of o st key <-> get st key (rumor_id r) = Some r /\ rumor_key r = key.
Proof.
  intros Hwf. unfold rumors_of. split.
  - destruct (entries st !! key) as [m|] eqn:Hm; [|by intros ?%not_elem_of_nil].
    rewrite elem_of_permute, list_elem_of_fmap. intros ([i r'] & -> & Hin).
    apply elem_of_map_to_list in Hin. cbn.
    assert (get st key i = Some r') as Hg by (unfold get; by rewrite Hm).
    destruct (wf_slot _ Hwf _ _ _ Hg) as [Hk Hi]. by rewrite Hi.
  - intros [Hg Hk]. unfold get in Hg. destruct (entries st !! key) as [m|]; [|done]. cbn in Hg.
    rewrite elem_of_permute, list_elem_of_fmap. exists (rumor_id r, r). split; [done|].
    by apply elem_of_map_to_list.
Qed.

(** *** The slots of a store of versioned rumors *)
Section versioned.
  Context `{!VersionedRumor T}.

(** The rumors that compete for a slot: the one stored and the ones heard. *)
Definition candidate (st : t T) (rs : list T) (k i : string) (r : T) : Prop :=
  get st k i = Some r \/ (r ∈ rs /\ rumor_key r = k /\ rumor_id r = i).

(** [w] wins the slot: it is a candidate and none has a higher version. *)
Definition winner (st : t T) (rs : list T) (k i : string) (w : option T) : Prop :=
  match w with
  | Some w => candidate st rs k i w /\ forall r, candidate st rs k i r -> (version r <= version w)%Z
  | None => forall r, ~ candidate st rs k i r
  end.

Lemma slot_after_version old r :
  (forall o, old = Some o -> same_slot o r) ->
  ((slot_after old r).1 = r \/ old = Some (slot_after old r).1) /\
  (version r <= version (slot_after old r).1)%Z /\
  (forall o, old = Some o -> (version o <= version (slot_after old r).1)%Z).
Proof.
  intros Hs. destruct old as [old|]; cbn; [|by split; [left|]].
  rewrite merge_version by auto. case_decide; cbn; (split; [by auto|]); (split; [lia|]);
    intros o [= <-]; lia.
Qed.

Lemma insert_all_winner rs st k i : wf st -> winner st rs k i (get (insert_all rs st) k i).
Proof.
  revert st. induction rs as [|r rs IH]; intros st Hwf; cbn.
  { unfold winner, candidate. destruct (get st k i) as [w|].
    - split; [by left|]. intros r [[= <-]|[Hin _]]; [done|by apply not_elem_of_nil in Hin].
    - intros r [?|[Hin _]]; [done|by apply not_elem_of_nil in Hin]. }
  specialize (IH _ (store_insert_wf r st Hwf)).
  destruct (slot_after_version (get st (rumor_key r) (rumor_id r)) r) as (Hfrom & Hr & Hold).
  { intros o Ho. by apply wf_slot in Ho. }
  assert (forall x, candidate (insert r st).1 rs k i x -> candidate st (r :: rs) k i x) as Hin.
  { intros x [Hx|(Hx & Hs)]; [|by right; set_solver]. rewrite get_insert in Hx. case_decide as Hd; [|by left].
    destruct Hd as [<- <-]. injection Hx as <-. destruct Hfrom as [E|E]; [right; rewrite E; set_solver|by left]. }
  assert (forall x, candidate st (r :: rs) k i x ->
    exists y, candidate (insert r st).1 rs k i y /\ (version x <= version y)%Z) as Hout.
  { intros x Hx. destruct (decide (rumor_key r = k /\ rumor_id r = i)) as [[<- <-]|Hd].
    - destruct Hx as [Hx|(Hx & Hk & Hi)].
      + eexists; split; [left; by rewrite get_insert, decide_True|]. by apply Hold.
      + apply elem_of_cons in Hx as [->|Hx]; [|by exists x; split; [right|]].
        eexists; split; [left; by rewrite get_insert, decide_True|]. done.
    - exists x; split; [|done]. destruct Hx as [Hx|(Hx & Hk & Hi)].
      + left. by rewrite get_insert, decide_False.
      + right. apply elem_of_cons in Hx as [->|Hx]; [|done]. naive_solver. }
  unfold winner in *. destruct (get _ k i) as [w|].
  - destruct IH as [Hw Hmax]. split; [by apply Hin|]. intros x Hx. destruct (Hout x Hx) as (y & Hy & ?).
    specialize (Hmax y Hy). lia.
  - intros x Hx. destruct (Hout x Hx) as (y & Hy & _). by apply (IH y).
Qed.

(** Rumors that agree in slot and version are the same rumor. *)
Definition consistent (st : t T) (rs : list T) : Prop :=
  forall k i a b, candidate st rs k i a -> candidate st rs k i b -> version a = version b -> a = b.

Lemma winner_unique st rs k i w1 w2 :
  consistent st rs -> winner st rs k i w1 -> winner st rs k i w2 -> w1 = w2.
Proof.
  intros Hc. destruct w1 as [w1|], w2 as [w2|]; cbn; try naive_solver.
  intros [H1 M1] [H2 M2]. f_equal. apply (Hc k i); [done..|].
  specialize (M1 _ H2). specialize (M2 _ H1). lia.
Qed.

Lemma candidate_ext st1 st2 rs1 rs2 k i r :
  store_equiv st1 st2 -> (forall r, r ∈ rs1 <-> r ∈ rs2) ->
  candidate st1 rs1 k i r <-> candidate st2 rs2 k i r.
Proof. intros E Hrs. unfold candidate. by rewrite E, Hrs. Qed.

Lemma winner_ext st1 st2 rs1 rs2 k i w :
  store_equiv st1 st2 -> (forall r, r ∈ rs1 <-> r ∈ rs2) ->
  winner st1 rs1 k i w -> winner st2 rs2 k i w.
Proof.
  intros E Hrs. assert (forall r, candidate st1 rs1 k i r <-> candidate st2 rs2 k i r) as Hc.
  { intros r. by apply candidate_ext. }
  unfold winner. destruct w as [w|]; setoid_rewrite Hc; done.
Qed.
End versioned.
End store.
End RumorStore.

(** ** Properties of the store *)

(** Functional behaviour of [RumorStore::insert] for every rumor kind whose merge keeps the
    slot: the rumors of a well-formed store stay in the slot of their own key and id; the
    slot of the inserted rumor then holds the rumor itself when it was free and the merge with
    the previous one otherwise, every other slot is untouched, the result says whether the slot
    was free or the merge reported a change, and the update counter moves by one modulo 2^64
    exactly then. *)
Theorem rumor_store_insert_spec `{LawfulRumor T} (r : T) (st : RumorStore.t T) :
  RumorStore.wf st ->
  let '(st', changed) := RumorStore.insert r st in
  let old := RumorStore.get st (rumor_key r) (rumor_id r) in
  RumorStore.wf st' /\
  RumorStore.get st' (rumor_key r) (rumor_id r) =
    Some (match old with Some old => (rumor_merge old r).1 | None => r end) /\
  (forall k i, ~ (rumor_key r = k /\ rumor_id r = i) -> RumorStore.get st' k i = RumorStore.get st k i) /\
  changed = match old with Some old => (rumor_merge old r).2 | None => true end /\
  RumorStore.get_update_counter st' =
    if changed then u64_add (RumorStore.get_update_counter st) 1 else RumorStore.get_update_counter st.
Proof.
  intros Hwf. pose proof (RumorStore.store_insert_wf r st Hwf) as Hwf'.
  pose proof (RumorStore.insert_result r st) as Hb. pose proof (RumorStore.insert_counter r st) as Hc.
  pose proof (RumorStore.get_insert r st) as Hg.
  destruct (RumorStore.insert r st) as [st' b]. cbn [fst snd] in *. split_and!.
  - done.
  - rewrite Hg, decide_True by done. by destruct (RumorStore.get st _ _).
  - intros k i Hne. by rewrite Hg, decide_False.
  - rewrite Hb. by destruct (RumorStore.get st _ _).
  - done.
Qed.

(** C7: Rumor stores converge.  For every kind in which the higher incarnation wins, two peers
    whose stores hold the same rumors and that hear the same set of rumors, each any number of
    times and in any order, end with stores that hold the same rumors, provided no two distinct
    rumors carry the same slot and incarnation. *)
Theorem rumor_stores_converge `{VersionedRumor T} (rs1 rs2 : list T) (st1 st2 : RumorStore.t T) :
  RumorStore.wf st1 -> RumorStore.wf st2 ->
  RumorStore.store_equiv st1 st2 ->
  (forall r, r ∈ rs1 <-> r ∈ rs2) ->
  RumorStore.consistent st1 rs1 ->
  RumorStore.store_equiv (RumorStore.insert_all rs1 st1) (RumorStore.insert_all rs2 st2).
Proof.
  intros Hwf1 Hwf2 E Hrs Hc k i.
  apply (RumorStore.winner_unique st1 rs1 k i); [done|by apply RumorStore.insert_all_winner|].
  apply (RumorStore.winner_ext st2 st1 rs2 rs1); [by symmetry|naive_solver|].
  by apply RumorStore.insert_all_winner.
Qed.
