(* ===== verification/Heat.v ===== *)
(** * Rumor heat

    Models [components/butterfly/src/rumor/heat.rs]: how often each tracked
    rumor has been sent to each member, which rumors are still hot for a member,
    and the effect of sending them. *)

From S2P Require Import Prelude Member Messages Rumor.
Local Open Scope string_scope.
Local Open Scope list_scope.

Module RumorHeat.
Definition RUMOR_COOL_DOWN_LIMIT : Z := 2.

Abbreviation t := (gmap RumorKey.t (gmap string Z)).

Definition default_heat : t := ∅.

(** Add a rumor to track, or reset the counts of one already tracked. *)
Definition start_hot_rumor (rk : RumorKey.t) (h : t) : t := <[rk := ∅]> h.

(** The closure mapped over the entries: the rumor and its count for [id]. *)
Definition rumor_heat (id : string) (e : RumorKey.t * gmap string Z) : RumorKey.t * Z :=
  (e.1, default 0%Z (e.2 !! id)).

(** The hot rumors of a member, coldest first; [o] is the iteration order of the map. *)
Definition currently_hot_rumors (o : order) (id : string) (h : t) : list RumorKey.t :=
  let heats := filter (fun e => (e.2 < RUMOR_COOL_DOWN_LIMIT)%Z)
                 (rumor_heat id <$> permute o (map_to_list h)) in
  (sort_by (fun e1 e2 => (e2.2 <=? e1.2)%Z) heats).*1.

(** One iteration of the loop of [cool_rumors]. *)
Definition cool_rumor (id : string) (h : t) (rk : RumorKey.t) : t :=
  match h !! rk with
  | Some heat_map =>
      match heat_map !! id with
      | Some heat => <[rk := <[id := u64_add heat 1]> heat_map]> h
      | None => <[rk := <[id := 1%Z]> heat_map]> h
      end
  | None => h
  end.

Definition cool_rumors (id : string) (rumors : list RumorKey.t) (h : t) : t :=
  if decide (0 < length rumors)%nat then foldl (cool_rumor id) h rumors else h.

(** *** The count of a tracked rumor for a member *)
Definition heat_of (h : t) (rk : RumorKey.t) (id : string) : option Z :=
  m ← h !! rk; Some (default 0%Z (m !! id)).

(** *** Lemmas *)
Lemma heat_of_start rk h rk' id :
  heat_of (start_hot_rumor rk h) rk' id = if decide (rk = rk') then Some 0%Z else heat_of h rk' id.
Proof.
  unfold heat_of, start_hot_rumor. case_decide as Hd.
  - subst. rewrite lookup_insert_eq. cbn. by rewrite lookup_empty.
  - by rewrite lookup_insert_ne.
Qed.

Lemma elem_of_heats o id h e :
  e ∈ filter (fun e => (e.2 < RUMOR_COOL_DOWN_LIMIT)%Z) (rumor_heat id <$> permute o (map_to_list h)) <->
  heat_of h e.1 id = Some e.2 /\ (e.2 < RUMOR_COOL_DOWN_LIMIT)%Z.
Proof.
  rewrite list_elem_of_filter, list_elem_of_fmap. unfold heat_of. split.
  - intros (Hlt & [k m] & -> & Hin). apply elem_of_permute, elem_of_map_to_list in Hin. cbn.
    rewrite Hin. done.
  - destruct e as [k n]; cbn. destruct (h !! k) as [m|] eqn:Hk; cbn; [|by intros [? ?]].
    intros [[= <-] Hlt]. split; [done|]. exists (k, m). split; [done|].
    by apply elem_of_permute, elem_of_map_to_list.
Qed.

Lemma elem_of_hot o id h rk :
  rk ∈ currently_hot_rumors o id h <->
  exists n, heat_of h rk id = Some n /\ (n < RUMOR_COOL_DOWN_LIMIT)%Z.
Proof.
  unfold currently_hot_rumors. rewrite list_elem_of_fmap. split.
  - intros ([k n] & -> & He). rewrite elem_of_sort_by in He. apply elem_of_heats in He. by exists n.
  - intros (n & Hn). exists (rk, n). split; [done|]. by apply elem_of_sort_by, elem_of_heats.
Qed.

Lemma NoDup_hot o id h : NoDup (currently_hot_rumors o id h).
Proof.
  unfold currently_hot_rumors. rewrite sort_by_perm.
  apply (sublist_fmap_NoDup _ _ _ (sublist_filter _ _)).
  rewrite <- list_fmap_compose. change (fst ∘ rumor_heat id) with (@fst RumorKey.t (gmap string Z)).
  rewrite permute_perm. apply NoDup_fst_map_to_list.
Qed.

Lemma heat_of_cool_rumor id h rk rk' id' :
  heat_of (cool_rumor id h rk) rk' id' =
  if decide (rk = rk' /\ id = id') then (fun n => match h !! rk ≫= (.!! id) with
                                                | Some _ => u64_add n 1 | None => 1%Z end) <$> heat_of h rk' id'
  else heat_of h rk' id'.
Proof.
  unfold heat_of, cool_rumor. destruct (h !! rk) as [m|] eqn:Hm; cbn.
  2: { case_decide as Hd; [|done]. destruct Hd as [<- <-]. by rewrite Hm. }
  destruct (m !! id) as [n|] eqn:Hn; cbn.
  all: destruct (decide (rk = rk')) as [<-|Hr];
    [|rewrite decide_False by naive_solver; by rewrite lookup_insert_ne].
  all: rewrite lookup_insert_eq, Hm; cbn; destruct (decide (id = id')) as [<-|Hi].
  all: try (rewrite lookup_insert_eq, decide_True by done; cbn; by rewrite ?Hn).
  all: by rewrite lookup_insert_ne, decide_False by naive_solver.
Qed.

(** Counts that are still below the limit do not wrap. *)
Lemma heat_of_cool_small id h rk n :
  heat_of h rk id = Some n -> (0 <= n < RUMOR_COOL_DOWN_LIMIT)%Z ->
  heat_of (cool_rumor id h rk) rk id = Some (n + 1)%Z.
Proof.
  intros Hn Hr. rewrite heat_of_cool_rumor, decide_True, Hn by done. cbn. f_equal.
  unfold heat_of in Hn. destruct (h !! rk) as [m|]; [|done]. cbn in *.
  destruct (m !! id) as [k|]; cbn in Hn; injection Hn as <-; [|done].
  apply u64_add_small. unfold is_u64, u64_modulus, RUMOR_COOL_DOWN_LIMIT in *. lia.
Qed.

Lemma heat_of_cool_other id h rk rk' id' :
  ~ (rk = rk' /\ id = id') -> heat_of (cool_rumor id h rk) rk' id' = heat_of h rk' id'.
Proof. intros Hne. by rewrite heat_of_cool_rumor, decide_False. Qed.

Lemma heat_of_cool_not_in id rks h rk' id' :
  ~ (rk' ∈ rks /\ id = id') -> heat_of (foldl (cool_rumor id) h rks) rk' id' = heat_of h rk' id'.
Proof.
  revert h. induction rks as [|rk rks IH]; intros h Hne; [done|]. cbn.
  rewrite IH by set_solver. apply heat_of_cool_other. set_solver.
Qed.

Lemma cool_rumors_foldl id rks h : cool_rumors id rks h = foldl (cool_rumor id) h rks.
Proof. unfold cool_rumors. case_decide; [done|]. by destruct rks; [|cbn in *; lia]. Qed.

Lemma heat_of_cool_rumors id rks h rk n :
  NoDup rks -> rk ∈ rks -> heat_of h rk id = Some n -> (0 <= n < RUMOR_COOL_DOWN_LIMIT)%Z ->
  heat_of (cool_rumors id rks h) rk id = Some (n + 1)%Z.
Proof.
  rewrite cool_rumors_foldl. revert h. induction rks as [|k rks IH]; intros h Hnd Hin Hn Hr.
  { by apply not_elem_of_nil in Hin. }
  apply NoDup_cons in Hnd as [Hk Hnd]. cbn. destruct (decide (k = rk)) as [->|Hne].
  - rewrite heat_of_cool_not_in by naive_solver. by apply heat_of_cool_small.
  - apply IH; [done|set_solver| |done]. by rewrite heat_of_cool_other by naive_solver.
Qed.

(** *** Rounds of gossip

    What the push threads do with the heat: look up the hot rumors of a member,
    send them, cool them.  [Start] is a rumor that arrived or changed. *)
Inductive event :=
| Start (rk : RumorKey.t)
| Gossip (o : order) (id : string).

Definition step (h : t) (e : event) : t :=
  match e with
  | Start rk => start_hot_rumor rk h
  | Gossip o id => cool_rumors id (currently_hot_rumors o id h) h
  end.

(** How many of the rounds with [id] send [rk]. *)
Fixpoint sends (rk : RumorKey.t) (id : string) (h : t) (es : list event) : nat :=
  match es with
  | [] => 0
  | e :: es =>
      match e with
      | Gossip o id' => if decide (id' = id /\ rk ∈ currently_hot_rumors o id' h) then 1 else 0
      | Start _ => 0
      end + sends rk id (step h e) es
  end.

(** How many rounds with [id] there are. *)
Fixpoint rounds (id : string) (es : list event) : nat :=
  match es with
  | [] => 0
  | Gossip _ id' :: es => (if decide (id' = id) then 1 else 0) + rounds id es
  | Start _ :: es => rounds id es
  end.

Lemma step_heat_other rk id h e :
  (forall rk', e = Start rk' -> rk' <> rk) -> (forall o, e <> Gossip o id) ->
  heat_of (step h e) rk id = heat_of h rk id.
Proof.
  destruct e as [rk'|o id']; cbn; intros Hs Hg.
  - rewrite heat_of_start, decide_False; [done|]. by apply Hs.
  - rewrite cool_rumors_foldl. apply heat_of_cool_not_in. intros [_ ->]. by apply (Hg o).
Qed.

Lemma sends_from rk id h es n :
  (forall rk', Start rk' ∈ es -> rk' <> rk) ->
  heat_of h rk id = Some n -> (0 <= n <= RUMOR_COOL_DOWN_LIMIT)%Z ->
  Z.of_nat (sends rk id h es) = Z.min (Z.of_nat (rounds id es)) (RUMOR_COOL_DOWN_LIMIT - n).
Proof.
  revert h n. induction es as [|e es IH]; intros h n Hs Hn Hr.
  { cbn. lia. }
  assert (forall rk', Start rk' ∈ es -> rk' <> rk) as Hs' by set_solver.
  destruct e as [rk'|o id']; cbn [sends rounds].
  - apply IH; [done| |done]. rewrite step_heat_other; [done| |done]. intros ? [= <-]. apply Hs. set_solver.
  - destruct (decide (id' = id)) as [->|Hne].
    2: { rewrite decide_False by naive_solver. apply IH; [done| |done].
         rewrite step_heat_other; [done|done|]. congruence. }
    destruct (decide (n < RUMOR_COOL_DOWN_LIMIT)%Z) as [Hlt|Hge].
    + assert (rk ∈ currently_hot_rumors o id h) as Hhot by (apply elem_of_hot; eauto).
      rewrite decide_True by done.
      rewrite !Nat2Z.inj_add, (IH _ (n + 1)%Z); [lia|done| |lia].
      apply heat_of_cool_rumors; [apply NoDup_hot|done|done|lia].
    + rewrite decide_False, !Nat2Z.inj_add, (IH _ n); [lia|done| |done|].
      * cbn. rewrite cool_rumors_foldl, heat_of_cool_not_in; [done|].
        intros [Hin _]. apply elem_of_hot in Hin as (n' & Hn' & ?). assert (n' = n) as -> by congruence. lia.
      * intros [_ Hin]. apply elem_of_hot in Hin as (n' & Hn' & ?). assert (n' = n) as -> by congruence. lia.
Qed.
End RumorHeat.

(** ** Properties *)

(** [currently_hot_rumors] returns each tracked rumor that was sent to the member fewer than
    [RUMOR_COOL_DOWN_LIMIT] times exactly once and no other rumor, and lists them coldest first:
    the counts along the list never increase, whatever the iteration order of the map. *)
Theorem hot_rumors_spec o id h :
  let hot := RumorHeat.currently_hot_rumors o id h in
  NoDup hot /\
  (forall rk, rk ∈ hot <-> exists n, RumorHeat.heat_of h rk id = Some n /\ (n < RumorHeat.RUMOR_COOL_DOWN_LIMIT)%Z) /\
  Sorted (fun a b => forall x y, RumorHeat.heat_of h a id = Some x -> RumorHeat.heat_of h b id = Some y -> (y <= x)%Z) hot.
Proof.
  split_and!; [apply RumorHeat.NoDup_hot|apply RumorHeat.elem_of_hot|].
  unfold RumorHeat.currently_hot_rumors. set (l := filter _ _).
  assert (forall e, e ∈ sort_by (fun e1 e2 => (e2.2 <=? e1.2)%Z) l -> RumorHeat.heat_of h e.1 id = Some e.2) as He.
  { intros e. rewrite elem_of_sort_by. intros He. by apply RumorHeat.elem_of_heats in He as [? _]. }
  pose proof (sort_by_sorted (fun e1 e2 : RumorKey.t * Z => (e2.2 <=? e1.2)%Z) l) as Hs.
  revert Hs He. induction (sort_by _ l) as [|e s IH]; intros Hs He; cbn; [constructor|].
  assert (Sorted (fun a b => (b.2 <=? a.2)%Z = true) (e :: s)) as Hsort by (apply Hs; intros; lia).
  apply Sorted_inv in Hsort as [Hsort Hhd]. constructor.
  - apply IH; [done|]. intros; apply He; set_solver.
  - destruct s as [|e' s]; cbn; constructor. intros x y. inversion Hhd; subst.
    rewrite !He by set_solver. intros [= <-] [= <-]. lia.
Qed.

(** Once a rumor is started it is sent to each member in the first two rounds with that
    member and in no later one: over any sequence of rounds and of other rumors starting, the
    number of sends is the smaller of the number of rounds with the member and
    [RUMOR_COOL_DOWN_LIMIT]; starting the rumor again starts the count afresh. *)
Theorem rumor_sent_twice rk id h es :
  (forall rk', RumorHeat.Start rk' ∈ es -> rk' <> rk) ->
  Z.of_nat (RumorHeat.sends rk id (RumorHeat.start_hot_rumor rk h) es) =
  Z.min (Z.of_nat (RumorHeat.rounds id es)) RumorHeat.RUMOR_COOL_DOWN_LIMIT.
Proof.
  intros Hs. rewrite (RumorHeat.sends_from rk id _ es 0); [lia|done| |done].
  by rewrite RumorHeat.heat_of_start, decide_True.
Qed.

Lemma rumor_sent_twice_witness :
  let rk := RumorKey.new RT_Service "m" "svc.grp" in
  let es := [RumorHeat.Gossip id_order "a"; RumorHeat.Gossip rev_order "b"; RumorHeat.Gossip id_order "a";
             RumorHeat.Gossip id_order "a"] in
  Z.of_nat (RumorHeat.sends rk "a" (RumorHeat.start_hot_rumor rk ∅) es) = 2%Z.
Proof.
  intros rk es. rewrite (rumor_sent_twice rk "a" ∅ es); [reflexivity|].
  intros rk' Hin. unfold es in Hin. rewrite !elem_of_cons, elem_of_nil in Hin. by destruct_or?.
Defined.
