(* ===== verification/Kinds.v ===== *)
(** * Service, configuration, file and departure rumors

    Models [service.rs], [service_config.rs], [service_file.rs] and
    [departure.rs] of [components/butterfly/src/rumor/].  Each kind is a newtype
    over the [Rumor] message and dereferences to its payload.  TOML encoding and
    decoding, UTF-8 decoding and the box encryption of [core::crypto] are
    parameters. *)

From S2P Require Import Prelude Regex ServiceGroup Ident Member Messages Rumor.
Local Open Scope string_scope.
Local Open Scope list_scope.

(** [a >= b] as [PartialOrd] provides it from [partial_cmp]. *)
Definition ge_of (c : option comparison) : bool :=
  match c with Some Gt | Some Eq => true | _ => false end.

(** The errors of [error.rs] that the kinds return. *)
Inductive kind_error (E : Type) :=
| HabitatCore (e : E)
| ServiceConfigNotUtf8 (service_group : string)
| ServiceConfigDecode (service_group : string).
Arguments HabitatCore {E} e.
Arguments ServiceConfigNotUtf8 {E} service_group.
Arguments ServiceConfigDecode {E} service_group.

(** ** [Service] *)
Module Service.
Record t := mk { proto : ProtoRumor }.

Definition deref (s : t) : ProtoService := get_service (proto s).
Definition member_id (s : t) : string := sv_member_id (deref s).
Definition service_group (s : t) : string := sv_service_group (deref s).
Definition incarnation (s : t) : Z := sv_incarnation (deref s).

Definition partial_cmp (self other : t) : option comparison :=
  if decide (member_id self <> member_id other \/ service_group self <> service_group other)
  then None
  else Some (Z.compare (incarnation self) (incarnation other)).

Definition eqb (self other : t) : bool :=
  bool_decide (member_id self = member_id other) &&
  bool_decide (service_group self = service_group other) &&
  bool_decide (incarnation self = incarnation other).

(** [Service::new]; both [assert!]s and the [expect] on the TOML encoder can panic. *)
Definition new `{!RegexEngine} {Table} (to_vec : Table -> option bytes)
  (mid : string) (package : PackageIdent.t) (sg : ServiceGroup.t) (sys : SysInfo)
  (cfg : option Table) : outcome t :=
  if negb (PackageIdent.fully_qualified package)
  then Panic "Service constructor requires a fully qualified package identifier"
  else
    sgs ← ServiceGroup.service sg;
    if negb (String.eqb sgs (PackageIdent.name package))
    then Panic "Service constructor requires the given package name to match the service group's name"
    else
      c ← match cfg with
          | Some cfg => expect "Struct should serialize to bytes" (to_vec cfg)
          | None => Return []
          end;
      Return (mk (mkRumor RT_Service [] mid (Some (PService
        (mkService mid (ServiceGroup.as_str sg) 0 false (PackageIdent.to_string package) c sys))))).

(** If the other incarnation is newer than the one we have, it wins. *)
Definition merge (self other : t) : t * bool :=
  if ge_of (partial_cmp self other) then (self, false) else (other, true).

#[global] Instance rumor : Rumor t := {
  rumor_kind _ := RT_Service;
  rumor_key := service_group;
  rumor_id := member_id;
  rumor_merge := merge;
}.
End Service.

(** ** [ServiceConfig] *)
Module ServiceConfig.
Record t := mk { proto : ProtoRumor }.

Definition deref (s : t) : ProtoServiceConfig := get_service_config (proto s).
Definition service_group (s : t) : string := sc_service_group (deref s).
Definition incarnation (s : t) : Z := sc_incarnation (deref s).

Definition partial_cmp (self other : t) : option comparison :=
  if decide (service_group self <> service_group other) then None
  else Some (Z.compare (incarnation self) (incarnation other)).

Definition eqb (self other : t) : bool :=
  bool_decide (service_group self = service_group other) &&
  bool_decide (incarnation self = incarnation other) &&
  bool_decide (sc_encrypted (deref self) = sc_encrypted (deref other)) &&
  bool_decide (sc_config (deref self) = sc_config (deref other)).

Definition new (mid : string) (sg : ServiceGroup.t) (config : bytes) : t :=
  mk (mkRumor RT_ServiceConfig [] mid (Some (PServiceConfig
    (mkServiceConfig (ServiceGroup.as_str sg) 0 false config)))).

(** [DerefMut]: write the payload back. *)
Definition update (f : ProtoServiceConfig -> ProtoServiceConfig) (s : t) : t :=
  mk (set_payload (PServiceConfig (f (deref s))) (proto s)).

Section crypto.
  Context {E Value : Type}.
  Context (encrypt_with : bytes -> result E bytes) (decrypt_with : bytes -> result E bytes).
  Context (from_utf8 : bytes -> option string) (toml_from_str : string -> option Value).

(** [encrypt] takes the configuration out before it encrypts: on an error the
    rumor is left with an empty one. *)
Definition encrypt (self : t) : t * result E unit :=
  let config := sc_config (deref self) in
  let self := update (fun p => mkServiceConfig (sc_service_group p) (sc_incarnation p) (sc_encrypted p) []) self in
  match encrypt_with config with
  | Ok c => (update (fun p => mkServiceConfig (sc_service_group p) (sc_incarnation p) true c) self, Ok ())
  | Err e => (self, Err e)
  end.

Definition parse_config (self : t) (encoded : string) : result (kind_error E) Value :=
  match toml_from_str encoded with
  | Some v => Ok v
  | None => Err (ServiceConfigDecode (service_group self))
  end.

Definition config (self : t) : result (kind_error E) Value :=
  bytes ← (if sc_encrypted (deref self)
           then match decrypt_with (sc_config (deref self)) with Ok b => Ok b | Err e => Err (HabitatCore e) end
           else Ok (sc_config (deref self)));
  match from_utf8 bytes with
  | Some encoded => parse_config self encoded
  | None => Err (ServiceConfigNotUtf8 (service_group self))
  end.
End crypto.

Definition merge (self other : t) : t * bool :=
  if ge_of (partial_cmp self other) then (self, false) else (other, true).

#[global] Instance rumor : Rumor t := {
  rumor_kind _ := RT_ServiceConfig;
  rumor_key := service_group;
  rumor_id _ := "service_config";
  rumor_merge := merge;
}.
End ServiceConfig.

(** ** [ServiceFile] *)
Module ServiceFile.
Record t := mk { proto : ProtoRumor }.

Definition deref (s : t) : ProtoServiceFile := get_service_file (proto s).
Definition service_group (s : t) : string := sf_service_group (deref s).
Definition incarnation (s : t) : Z := sf_incarnation (deref s).
Definition filename (s : t) : string := sf_filename (deref s).

Definition partial_cmp (self other : t) : option comparison :=
  if decide (service_group self <> service_group other) then None
  else Some (Z.compare (incarnation self) (incarnation other)).

Definition eqb (self other : t) : bool :=
  bool_decide (service_group self = service_group other) &&
  bool_decide (incarnation self = incarnation other) &&
  bool_decide (sf_encrypted (deref self) = sf_encrypted (deref other)) &&
  bool_decide (filename self = filename other) &&
  bool_decide (sf_body (deref self) = sf_body (deref other)).

Definition new (mid : string) (sg : ServiceGroup.t) (fname : string) (body : bytes) : t :=
  mk (mkRumor RT_ServiceFile [] mid (Some (PServiceFile
    (mkServiceFile (ServiceGroup.as_str sg) 0 false fname body)))).

Definition update (f : ProtoServiceFile -> ProtoServiceFile) (s : t) : t :=
  mk (set_payload (PServiceFile (f (deref s))) (proto s)).

Section crypto.
  Context {E : Type}.
  Context (encrypt_with : bytes -> result E bytes) (decrypt_with : bytes -> result E bytes).

Definition encrypt (self : t) : t * result E unit :=
  let body := sf_body (deref self) in
  let self := update (fun p => mkServiceFile (sf_service_group p) (sf_incarnation p) (sf_encrypted p) (sf_filename p) []) self in
  match encrypt_with body with
  | Ok c => (update (fun p => mkServiceFile (sf_service_group p) (sf_incarnation p) true (sf_filename p) c) self, Ok ())
  | Err e => (self, Err e)
  end.

Definition body (self : t) : result (kind_error E) bytes :=
  if sf_encrypted (deref self)
  then match decrypt_with (sf_body (deref self)) with Ok b => Ok b | Err e => Err (HabitatCore e) end
  else Ok (sf_body (deref self)).
End crypto.

Definition merge (self other : t) : t * bool :=
  if ge_of (partial_cmp self other) then (self, false) else (other, true).

#[global] Instance rumor : Rumor t := {
  rumor_kind _ := RT_ServiceFile;
  rumor_key := service_group;
  rumor_id := filename;
  rumor_merge := merge;
}.
End ServiceFile.

(** ** [Departure] *)
Module Departure.
Record t := mk { proto : ProtoRumor }.

Definition deref (s : t) : ProtoDeparture := get_departure (proto s).
Definition member_id (s : t) : string := dp_member_id (deref s).

Definition partial_cmp (self other : t) : option comparison :=
  if decide (member_id self <> member_id other) then None
  else Some (String.compare (member_id self) (member_id other)).

Definition eqb (self other : t) : bool := bool_decide (member_id self = member_id other).

Definition new (mid : string) : t :=
  mk (mkRumor RT_Departure [] "butterflyclient" (Some (PDeparture (mkDeparture mid)))).

(** Nothing is ever taken from the other rumor. *)
Definition merge (self other : t) : t * bool :=
  if ge_of (partial_cmp self other) then (self, false) else (self, true).

#[global] Instance rumor : Rumor t := {
  rumor_kind _ := RT_Departure;
  rumor_key _ := "departure";
  rumor_id := member_id;
  rumor_merge := merge;
}.
End Departure.

(** ** The kinds discharge the interface of the store *)
Lemma string_compare_refl s : String.compare s s = Eq.
Proof. pose proof (String.compare_antisym s s) as H. by destruct (String.compare s s). Qed.

Lemma ge_of_compare a b : ge_of (Some (Z.compare a b)) = negb (bool_decide (a < b)%Z).
Proof. cbn. destruct (Z.compare_spec a b); case_bool_decide; done || lia. Qed.

Ltac solve_versioned :=
  rewrite decide_False by (intros Hn; destruct_or?; congruence); rewrite ge_of_compare;
  case_bool_decide; cbn; [rewrite decide_True by done|rewrite decide_False by done]; done.

#[export] Instance Service_versioned : VersionedRumor Service.t.
Proof.
  exists Service.incarnation. intros a b [Hk Hi]. cbn in Hk, Hi.
  change (rumor_merge a b) with (Service.merge a b).
  unfold Service.merge, Service.partial_cmp. solve_versioned.
Defined.

#[export] Instance ServiceConfig_versioned : VersionedRumor ServiceConfig.t.
Proof.
  exists ServiceConfig.incarnation. intros a b [Hk Hi]. cbn in Hk, Hi.
  change (rumor_merge a b) with (ServiceConfig.merge a b).
  unfold ServiceConfig.merge, ServiceConfig.partial_cmp. solve_versioned.
Defined.

#[export] Instance ServiceFile_versioned : VersionedRumor ServiceFile.t.
Proof.
  exists ServiceFile.incarnation. intros a b [Hk Hi]. cbn in Hk, Hi.
  change (rumor_merge a b) with (ServiceFile.merge a b).
  unfold ServiceFile.merge, ServiceFile.partial_cmp. solve_versioned.
Defined.

(** A departure is never superseded: all rumors of a slot count as the same version. *)
Lemma departure_merge (a b : Departure.t) : same_slot a b -> rumor_merge a b = (a, false).
Proof.
  intros [_ Hi]. cbn in Hi. change (rumor_merge a b) with (Departure.merge a b).
  unfold Departure.merge, Departure.partial_cmp.
  rewrite decide_False by (intros ?; congruence). rewrite Hi, string_compare_refl. done.
Qed.

#[export] Instance Departure_versioned : VersionedRumor Departure.t.
Proof. exists (fun _ => 0%Z). intros a b Hs. by rewrite departure_merge. Defined.

(** ** Witnesses for the store, at service configurations *)
Definition example_config (i : Z) (c : bytes) : ServiceConfig.t :=
  ServiceConfig.mk (mkRumor RT_ServiceConfig [] "m" (Some (PServiceConfig (mkServiceConfig "svc.grp" i false c)))).

Lemma rumor_store_insert_spec_witness :
  let st := (RumorStore.insert (example_config 1 []) (RumorStore.new 0)).1 in
  RumorStore.wf st /\
  RumorStore.get (RumorStore.insert (example_config 2 []) st).1 "svc.grp" "service_config" = Some (example_config 2 []).
Proof.
  intros st. assert (RumorStore.wf st) as Hwf by (apply RumorStore.store_insert_wf, RumorStore.store_new_wf; by vm_compute).
  split; [done|].
  pose proof (rumor_store_insert_spec (example_config 2 []) st Hwf) as H.
  destruct (RumorStore.insert (example_config 2 []) st) as [st' b]. destruct H as (_ & H & _). exact H.
Defined.

Lemma rumor_stores_converge_witness :
  let a := example_config 1 [] in
  let b := example_config 2 [Byte.x01] in
  RumorStore.store_equiv (RumorStore.insert_all [a; b] (RumorStore.new 0))
    (RumorStore.insert_all [b; a; b] (RumorStore.new 7)).
Proof.
  intros a b. apply (rumor_stores_converge [a; b] [b; a; b]);
    [apply RumorStore.store_new_wf; by vm_compute..|done| |].
  - intros r. rewrite !elem_of_cons. naive_solver.
  - intros k i x y [Hx|(Hx & _)] [Hy|(Hy & _)]; try done.
    rewrite !elem_of_cons, elem_of_nil in Hx, Hy. destruct_or?; subst; done.
Defined.

(** ** Properties *)

(** [ServiceFile::encrypt] and [ServiceFile::body] are inverse when decryption inverts
    encryption: after a successful [encrypt] the rumor is marked encrypted, keeps its group,
    file name and incarnation, and [body] returns the original bytes.  When encryption fails
    the error is returned and the rumor is left unencrypted with an empty body. *)
Theorem service_file_encrypt_body {E} (enc dec : bytes -> result E bytes) (f : ServiceFile.t) :
  (forall b c, enc b = Ok c -> dec c = Ok b) ->
  sf_encrypted (ServiceFile.deref f) = false ->
  let '(f', r) := ServiceFile.encrypt enc f in
  same_slot f' f /\ ServiceFile.incarnation f' = ServiceFile.incarnation f /\
  match r with
  | Ok _ => sf_encrypted (ServiceFile.deref f') = true /\
            ServiceFile.body dec f' = ServiceFile.body dec f
  | Err _ => ServiceFile.body dec f' = Ok []
  end.
Proof.
  intros Hinv Hplain. unfold ServiceFile.encrypt, ServiceFile.body.
  destruct (enc (sf_body (ServiceFile.deref f))) as [c|e] eqn:He; cbn; rewrite Hplain.
  - apply Hinv in He. rewrite He. done.
  - done.
Qed.

Lemma service_file_encrypt_body_witness :
  let f := ServiceFile.new "m" (ServiceGroup.mk "svc.grp") "a.txt" [Byte.x01] in
  let '(f', r) := ServiceFile.encrypt (E := unit) (fun b => Ok (rev b)) f in
  r = Ok () /\ ServiceFile.body (E := unit) (fun b => Ok (rev b)) f' = Ok [Byte.x01].
Proof.
  intros f.
  pose proof (service_file_encrypt_body (E := unit) (fun b => Ok (rev b)) (fun b => Ok (rev b)) f) as H.
  destruct (ServiceFile.encrypt _ f) as [f' r] eqn:E. injection E as <- <-.
  destruct H as (_ & _ & _ & H); [|done|by split; [|rewrite H]].
  intros b c [= <-]. by rewrite rev_involutive.
Defined.
