(* ===== verification/Election.v ===== *)
(** * Leader elections

    Models [components/butterfly/src/rumor/election.rs]: the election rumor, its
    votes, and the merge that decides which of two elections survives.  All
    members gossip one election per service group; the one with the greatest
    (suitability, member id) takes over the votes of the others. *)

From S2P Require Import Prelude ServiceGroup Messages Rumor Ident Kinds.
Local Open Scope string_scope.
Local Open Scope list_scope.

(** [a >= b] on strings, which Rust compares bytewise. *)
Definition str_geb (a b : string) : bool :=
  match String.compare a b with Lt => false | _ => true end.

(** ** [Election] *)
Module Election.
Record t := mk { proto : ProtoRumor }.

Definition deref (e : t) : ProtoElection := get_election (proto e).
Definition member_id (e : t) : string := el_member_id (deref e).
Definition service_group (e : t) : string := el_service_group (deref e).
Definition term (e : t) : Z := el_term (deref e).
Definition suitability (e : t) : Z := el_suitability (deref e).
Definition status (e : t) : Election_Status := el_status (deref e).
Definition votes (e : t) : list string := el_votes (deref e).

(** [DerefMut]: the payload is written back. *)
Definition update (f : ProtoElection -> ProtoElection) (e : t) : t :=
  mk (set_payload (PElection (f (deref e))) (proto e)).
Definition set_term (n : Z) : t -> t :=
  update (fun p => mkElection (el_member_id p) (el_service_group p) n (el_suitability p) (el_status p) (el_votes p)).
Definition set_status (s : Election_Status) : t -> t :=
  update (fun p => mkElection (el_member_id p) (el_service_group p) (el_term p) (el_suitability p) s (el_votes p)).
Definition set_votes (v : list string) : t -> t :=
  update (fun p => mkElection (el_member_id p) (el_service_group p) (el_term p) (el_suitability p) (el_status p) v).

Definition new (mid : string) (sg : ServiceGroup.t) (suit : Z) : t :=
  mk (mkRumor RT_Election [] mid (Some (PElection
    (mkElection mid (ServiceGroup.as_str sg) 0 suit Running [mid])))).

Definition insert_vote (mid : string) (e : t) : t :=
  if decide (mid ∈ votes e) then e else set_votes (votes e ++ [mid]) e.

(** Steal all the votes from another election for ourselves. *)
Definition steal_votes (self other : t) : t := foldl (fun e x => insert_vote x e) self (votes other).

Definition running : t -> t := set_status Running.
Definition finish : t -> t := set_status Finished.
Definition no_quorum : t -> t := set_status NoQuorum.
Definition is_finished (e : t) : bool := bool_decide (status e = Finished).

(** Equality ignores the sender. *)
Definition eqb (self other : t) : bool :=
  bool_decide (service_group self = service_group other) &&
  bool_decide (member_id self = member_id other) &&
  bool_decide (suitability self = suitability other) &&
  bool_decide (votes self = votes other) &&
  bool_decide (status self = status other) && bool_decide (term self = term other).

Definition merge (self other : t) : t * bool :=
  if eqb self other then (self, false)
  else if bool_decide (term other >= term self)%Z && bool_decide (status other = Finished)
  then (other, true)
  else if bool_decide (term other = term self) && bool_decide (status self = Finished)
  then (self, false)
  else if bool_decide (term self > term other)%Z then (self, true)
  else if bool_decide (suitability self > suitability other)%Z then (steal_votes self other, true)
  else if bool_decide (suitability other > suitability self)%Z then (steal_votes other self, true)
  else if str_geb (member_id self) (member_id other) then (steal_votes self other, true)
  else (steal_votes other self, true).

#[global] Instance rumor : Rumor t := {
  rumor_kind _ := RT_Election;
  rumor_key := service_group;
  rumor_id _ := "election";
  rumor_merge := merge;
}.
End Election.

(** ** [ElectionUpdate] *)
Module ElectionUpdate.
Record t := mk { inner : Election.t }.

(** Forwarding through the newtype, as [DerefMut] does. *)
Definition map (f : Election.t -> Election.t) (e : t) : t := mk (f (inner e)).

Definition from_proto (pr : ProtoRumor) : t := mk (Election.mk (set_field_type RT_ElectionUpdate pr)).

Definition new (mid : string) (sg : ServiceGroup.t) (suit : Z) : t :=
  mk (Election.mk (set_field_type RT_ElectionUpdate (Election.proto (Election.new mid sg suit)))).

Definition merge (self other : t) : t * bool :=
  let '(e, b) := Election.merge (inner self) (inner other) in (mk e, b).

#[global] Instance rumor : Rumor t := {
  rumor_kind _ := RT_ElectionUpdate;
  rumor_key e := Election.service_group (inner e);
  rumor_id _ := "election";
  rumor_merge := merge;
}.
End ElectionUpdate.

(** ** Lemmas *)
Lemma str_geb_total a b : str_geb a b = false -> str_geb b a = true.
Proof.
  unfold str_geb. rewrite (String.compare_antisym b a).
  by destruct (String.compare a b).
Qed.

Lemma str_geb_refl a : str_geb a a = true.
Proof. unfold str_geb. by rewrite string_compare_refl. Qed.

Lemma str_geb_antisym a b : str_geb a b = true -> str_geb b a = true -> a = b.
Proof.
  unfold str_geb. rewrite (String.compare_antisym b a).
  destruct (String.compare a b) eqn:E; try done. by apply String.compare_eq_iff in E.
Qed.

Lemma str_geb_trans a b c : str_geb a b = true -> str_geb b c = true -> str_geb a c = true.
Proof.
  unfold str_geb. intros Hab Hbc.
  pose proof (string_compare_trans c b a) as H.
  rewrite (String.compare_antisym c b), (String.compare_antisym b a), (String.compare_antisym c a) in H.
  destruct (String.compare a b), (String.compare b c), (String.compare a c); cbn in *; try done.
  all: specialize (H ltac:(done) ltac:(done)); done.
Qed.

Section election_lemmas.
  Implicit Types (e a b : Election.t).

Lemma insert_vote_fields x e :
  Election.member_id (Election.insert_vote x e) = Election.member_id e /\
  Election.service_group (Election.insert_vote x e) = Election.service_group e /\
  Election.term (Election.insert_vote x e) = Election.term e /\
  Election.suitability (Election.insert_vote x e) = Election.suitability e /\
  Election.status (Election.insert_vote x e) = Election.status e.
Proof. unfold Election.insert_vote. by case_decide. Qed.

Lemma elem_of_insert_vote x e v :
  v ∈ Election.votes (Election.insert_vote x e) <-> v = x \/ v ∈ Election.votes e.
Proof.
  unfold Election.insert_vote. case_decide; [naive_solver|]. cbn. set_solver.
Qed.

Lemma NoDup_insert_vote x e :
  NoDup (Election.votes e) -> NoDup (Election.votes (Election.insert_vote x e)).
Proof.
  intros Hnd. unfold Election.insert_vote. case_decide; [done|]. cbn.
  apply NoDup_app. split_and!; [done|set_solver|apply NoDup_singleton].
Qed.

(** Stealing votes keeps everything but the votes. *)
Lemma steal_votes_fields a b :
  Election.member_id (Election.steal_votes a b) = Election.member_id a /\
  Election.service_group (Election.steal_votes a b) = Election.service_group a /\
  Election.term (Election.steal_votes a b) = Election.term a /\
  Election.suitability (Election.steal_votes a b) = Election.suitability a /\
  Election.status (Election.steal_votes a b) = Election.status a.
Proof.
  unfold Election.steal_votes. apply (foldl_inv (fun e =>
    Election.member_id e = Election.member_id a /\ Election.service_group e = Election.service_group a /\
    Election.term e = Election.term a /\ Election.suitability e = Election.suitability a /\
    Election.status e = Election.status a)); [done|].
  intros e x _. destruct (insert_vote_fields x e) as (-> & -> & -> & -> & ->). done.
Qed.

Lemma elem_of_steal_votes a b v :
  v ∈ Election.votes (Election.steal_votes a b) <-> v ∈ Election.votes a \/ v ∈ Election.votes b.
Proof.
  unfold Election.steal_votes. generalize (Election.votes b). intros l. revert a.
  induction l as [|x l IH]; intros a; cbn; [set_solver|].
  rewrite IH, elem_of_insert_vote. set_solver.
Qed.

Lemma NoDup_steal_votes a b :
  NoDup (Election.votes a) -> NoDup (Election.votes (Election.steal_votes a b)).
Proof.
  intros Hnd. unfold Election.steal_votes.
  apply (foldl_inv (fun e => NoDup (Election.votes e))); [done|]. intros; by apply NoDup_insert_vote.
Qed.

Lemma eqb_spec a b :
  Election.eqb a b = true <->
  Election.service_group a = Election.service_group b /\ Election.member_id a = Election.member_id b /\
  Election.suitability a = Election.suitability b /\ Election.votes a = Election.votes b /\
  Election.status a = Election.status b /\ Election.term a = Election.term b.
Proof. unfold Election.eqb. rewrite !andb_true_iff, !bool_decide_eq_true. naive_solver. Qed.

(** [a] wins against [b]: more suitable, or as suitable with an id that sorts no lower. *)
Definition wins (a b : Election.t) : Prop :=
  (Election.suitability b < Election.suitability a)%Z \/
  (Election.suitability a = Election.suitability b /\
   str_geb (Election.member_id a) (Election.member_id b) = true).

#[global] Instance wins_dec a b : Decision (wins a b).
Proof. unfold wins. apply _. Defined.

(** Two elections agree on who is elected. *)
Definition same_leader (a b : Election.t) : Prop :=
  Election.member_id a = Election.member_id b /\ Election.suitability a = Election.suitability b.

#[global] Instance same_leader_equivalence : Equivalence same_leader.
Proof. split; unfold same_leader; [done|intros a b; naive_solver|intros a b c; intuition congruence]. Qed.

#[global] Instance wins_proper : Proper (same_leader ==> same_leader ==> iff) wins.
Proof. intros a a' [H1 H2] b b' [H3 H4]. unfold wins. by rewrite H1, H2, H3, H4. Qed.

Lemma wins_refl a : wins a a.
Proof. right. split; [done|apply str_geb_refl]. Qed.

Lemma wins_total a b : ~ wins a b -> wins b a.
Proof.
  unfold wins. intros Hn. destruct (Z.lt_trichotomy (Election.suitability a) (Election.suitability b)) as [?|[E|?]].
  - by left.
  - right. split; [done|]. apply str_geb_total. destruct (str_geb _ _) eqn:Hg; [|done]. exfalso. apply Hn. by right.
  - exfalso. apply Hn. by left.
Qed.

Lemma wins_trans a b c : wins a b -> wins b c -> wins a c.
Proof.
  unfold wins. intros [?|[E1 G1]] [?|[E2 G2]]; [left; lia|left; lia|left; lia|].
  right. split; [lia|]. by eapply str_geb_trans.
Qed.

Lemma wins_antisym a b : wins a b -> wins b a -> same_leader a b.
Proof.
  unfold wins. intros [?|[E1 G1]] [?|[E2 G2]]; try lia. split; [|done]. by apply str_geb_antisym.
Qed.

(** Unfinished elections of one term: the winner takes the votes of both. *)
Lemma merge_unfinished a b :
  Election.term a = Election.term b ->
  Election.status a <> Finished -> Election.status b <> Finished ->
  let w := if decide (wins a b) then a else b in
  let c := (Election.merge a b).1 in
  same_leader c w /\ Election.status c = Election.status w /\ Election.term c = Election.term a /\
  (forall v, v ∈ Election.votes c <-> v ∈ Election.votes a \/ v ∈ Election.votes b) /\
  (NoDup (Election.votes a) -> NoDup (Election.votes b) -> NoDup (Election.votes c)).
Proof.
  intros Ht Ha Hb. unfold Election.merge.
  destruct (Election.eqb a b) eqn:Heq.
  { apply eqb_spec in Heq as (_ & Hm & Hs & Hv & Hst & _). cbn.
    rewrite decide_True by (right; rewrite Hm; split; [done|apply str_geb_refl]).
    rewrite <- Hv. naive_solver. }
  rewrite (bool_decide_eq_false_2 (Election.status b = _)), (bool_decide_eq_false_2 (Election.status a = _)) by done.
  rewrite !andb_false_r, (bool_decide_eq_false_2 (_ > _)%Z) by lia.
  assert (forall x y, Election.term x = Election.term a ->
    (forall v, v ∈ Election.votes x \/ v ∈ Election.votes y <-> v ∈ Election.votes a \/ v ∈ Election.votes b) ->
    let c := Election.steal_votes x y in
    same_leader c x /\ Election.status c = Election.status x /\ Election.term c = Election.term a /\
    (forall v, v ∈ Election.votes c <-> v ∈ Election.votes a \/ v ∈ Election.votes b) /\
    (NoDup (Election.votes x) -> NoDup (Election.votes c))) as Hsteal.
  { intros x y Hx Hv c. destruct (steal_votes_fields x y) as (E1 & _ & E3 & E4 & E5).
    split; [done|]. split; [done|]. split; [unfold c; congruence|]. split; [|apply NoDup_steal_votes].
    intros v. rewrite <- Hv. apply elem_of_steal_votes. }
  destruct (decide (wins a b)) as [Hw|Hw].
  - destruct (Hsteal a b) as (? & ? & ? & ? & ?); [done|done|].
    destruct Hw as [Hw|[Hw Hg]].
    + rewrite (bool_decide_eq_true_2 (_ > _)%Z) by lia. cbn. auto 10.
    + rewrite !(bool_decide_eq_false_2 (_ > _)%Z) by lia. rewrite Hg. cbn. auto 10.
  - destruct (Hsteal b a) as (? & ? & ? & ? & ?); [done|by intros v; rewrite (Logic.or_comm (v ∈ Election.votes b))|].
    apply wins_total in Hw as Hw'. destruct Hw' as [Hw'|[Hw' Hg]].
    + rewrite (bool_decide_eq_false_2 (_ > _)%Z), (bool_decide_eq_true_2 (_ > _)%Z) by lia. cbn. auto 10.
    + rewrite !(bool_decide_eq_false_2 (_ > _)%Z) by lia.
      destruct (str_geb (Election.member_id a) (Election.member_id b)) eqn:Hg'; [|cbn; auto 10].
      exfalso. apply Hw. by right.
Qed.

(** The winner of a list of elections. *)
Definition merge_all (e : Election.t) (es : list Election.t) : Election.t :=
  foldl (fun a b => (Election.merge a b).1) e es.

Lemma merge_all_unfinished e es :
  Election.status e <> Finished ->
  (forall x, x ∈ es -> Election.term x = Election.term e /\ Election.status x <> Finished) ->
  let c := merge_all e es in
  (exists w, w ∈ e :: es /\ same_leader c w) /\
  (forall x, x ∈ e :: es -> wins c x) /\
  Election.term c = Election.term e /\ Election.status c <> Finished /\
  (forall v, v ∈ Election.votes c <-> exists x, x ∈ e :: es /\ v ∈ Election.votes x).
Proof.
  revert e. induction es as [|b es IH]; intros e Hst Hes c.
  { unfold c, merge_all; cbn. split_and!; try done.
    - exists e. split; [set_solver|done].
    - intros x Hx. apply list_elem_of_singleton in Hx as ->. apply wins_refl.
    - set_solver. }
  destruct (Hes b) as [Htb Hsb]; [set_solver|].
  destruct (merge_unfinished e b) as (Hl & Hs' & Ht' & Hv' & _); [done..|].
  set (a := (Election.merge e b).1) in *.
  assert (Election.status a <> Finished) as Hsa by (rewrite Hs'; by case_decide).
  destruct (IH a Hsa) as ((w & Hw & Hlw) & Hmax & Ht & Hs & Hv).
  { intros x Hx. rewrite Ht'. apply Hes. set_solver. }
  change (merge_all a es) with c in *.
  assert (wins a e /\ wins a b) as [Hae Hab].
  { rewrite !Hl. case_decide as Hd; [by split; [apply wins_refl|]|].
    split; [by apply wins_total|apply wins_refl]. }
  split_and!.
  - apply elem_of_cons in Hw as [->|Hw]; [|exists w; set_solver].
    exists (if decide (wins e b) then e else b). split; [case_decide; set_solver|]. by etrans.
  - intros x Hx. rewrite !elem_of_cons in Hx.
    assert (wins c a) as Hca by (apply Hmax; set_solver).
    destruct Hx as [->|[->|Hx]]; [by eapply wins_trans..|]. apply Hmax. set_solver.
  - congruence.
  - done.
  - intros v. rewrite Hv. setoid_rewrite elem_of_cons. setoid_rewrite elem_of_cons.
    split.
    + intros (x & [->|Hx] & Hvx); [|naive_solver]. apply Hv' in Hvx. naive_solver.
    + intros (x & [->|[->|Hx]] & Hvx); [exists a|exists a|naive_solver]; rewrite Hv'; auto.
Qed.

(** Terms never go back, and a finished election is only given up for a later term. *)
Lemma merge_terms a b :
  let c := (Election.merge a b).1 in
  (Election.term a <= Election.term c)%Z /\
  (Election.status a = Finished ->
   (Election.term a < Election.term c)%Z \/ Election.status c = Finished).
Proof.
  unfold Election.merge.
  destruct (steal_votes_fields a b) as (_ & _ & Ea & _ & Sa).
  destruct (steal_votes_fields b a) as (_ & _ & Eb & _ & Sb).
  destruct (Election.eqb a b); [cbn; split; [lia|by right]|].
  repeat (case_bool_decide; cbn [andb fst]); try (destruct (str_geb _ _); cbn [fst]);
    rewrite ?Ea, ?Sa, ?Eb, ?Sb; split; try lia; try (intros; by right);
    intros; left; (lia || (assert (Election.term a <> Election.term b) by congruence; lia)).
Qed.
End election_lemmas.

#[export] Instance Election_lawful : LawfulRumor Election.t.
Proof.
  split. intros a b [Hk _]. cbn in *. split; [|done].
  destruct (steal_votes_fields a b) as (_ & Ea & _), (steal_votes_fields b a) as (_ & Eb & _).
  change (Election.service_group (Election.merge a b).1 = Election.service_group a). unfold Election.merge.
  repeat case_match; cbn; congruence.
Qed.

#[export] Instance ElectionUpdate_lawful : LawfulRumor ElectionUpdate.t.
Proof.
  split. intros [a] [b] [Hk _]. cbn in *.
  destruct (merge_slot a b) as [Hs _]; [by split|]. split; [|done]. cbn in *.
  unfold ElectionUpdate.merge; cbn. by destruct (Election.merge a b).
Qed.

(** ** Properties *)

(** C6: There can be only one: peers that merge the same set of unfinished elections of one
    term, in any order and with any repetitions, agree on the member elected, on its suitability
    and on the set of votes it holds; the elected election is one of those merged, wins against
    all of them (greater suitability, then greater member id), and holds exactly the votes cast
    in any of them. *)
Theorem elections_converge e1 es1 e2 es2 :
  (forall x, x ∈ e1 :: es1 <-> x ∈ e2 :: es2) ->
  (forall x, x ∈ e1 :: es1 -> Election.term x = Election.term e1 /\ Election.status x <> Finished) ->
  let c1 := merge_all e1 es1 in
  let c2 := merge_all e2 es2 in
  same_leader c1 c2 /\
  (exists w, w ∈ e1 :: es1 /\ same_leader c1 w) /\
  (forall x, x ∈ e1 :: es1 -> wins c1 x) /\
  (forall v, v ∈ Election.votes c1 <-> exists x, x ∈ e1 :: es1 /\ v ∈ Election.votes x) /\
  (forall v, v ∈ Election.votes c1 <-> v ∈ Election.votes c2).
Proof.
  intros Hset Hall c1 c2.
  destruct (merge_all_unfinished e1 es1) as ((w1 & Hw1 & Hl1) & Hm1 & _ & _ & Hv1).
  { apply Hall. set_solver. }
  { intros x Hx. apply Hall. set_solver. }
  assert (e2 ∈ e1 :: es1) as He2 by (apply Hset; set_solver).
  destruct (merge_all_unfinished e2 es2) as ((w2 & Hw2 & Hl2) & Hm2 & _ & _ & Hv2).
  { by apply Hall. }
  { intros x Hx. destruct (Hall x) as [-> ?]; [apply Hset; set_solver|]. split; [|done].
    symmetry. by apply Hall. }
  split_and?; [|by exists w1|done|done|].
  - apply wins_antisym.
    + unfold c2. rewrite Hl2. by apply Hm1, Hset.
    + unfold c1. rewrite Hl1. by apply Hm2, Hset.
  - intros v. unfold c1, c2. rewrite Hv1, Hv2. by setoid_rewrite Hset.
Qed.

Lemma elections_converge_witness :
  let sg := ServiceGroup.mk "svc.grp" in
  let a := Election.new "a" sg 1 in
  let b := Election.new "b" sg 1 in
  let c := Election.new "c" sg 0 in
  Election.member_id (merge_all a [b; c]) = "b" /\ same_leader (merge_all a [b; c]) (merge_all c [a; b; a]).
Proof.
  intros sg a b c. split; [reflexivity|].
  apply (elections_converge a [b; c] c [a; b; a]).
  - intros x. rewrite !elem_of_cons. naive_solver.
  - intros x. rewrite !elem_of_cons, elem_of_nil. intros Hx. destruct_or?; subst; done.
Defined.

(** Merging never takes an election back to an earlier term, and gives up a finished
    election only for one of a later term or for another finished one. *)
Theorem election_merge_terms a b :
  (Election.term a <= Election.term (rumor_merge a b).1)%Z /\
  (Election.is_finished a = true ->
   (Election.term a < Election.term (rumor_merge a b).1)%Z \/
   Election.is_finished (rumor_merge a b).1 = true).
Proof.
  unfold Election.is_finished. destruct (merge_terms a b) as [H1 H2]. split; [done|].
  rewrite !bool_decide_eq_true. exact H2.
Qed.

(** Two finished elections of the same term that differ replace each other: each merge
    adopts the other one and reports a change, so two peers that hold them swap them for as
    long as they gossip them to each other. *)
Theorem finished_elections_swap a b :
  Election.is_finished a = true -> Election.is_finished b = true ->
  Election.term a = Election.term b -> Election.eqb a b = false ->
  rumor_merge a b = (b, true) /\ rumor_merge b a = (a, true).
Proof.
  unfold Election.is_finished. rewrite !bool_decide_eq_true. intros Ha Hb Ht Hne.
  assert (Election.eqb b a = false) as Hne'.
  { apply not_true_iff_false. intros Heq. apply not_true_iff_false in Hne. apply Hne.
    apply eqb_spec. apply eqb_spec in Heq. intuition congruence. }
  cbn. unfold Election.merge. rewrite Hne, Hne', !Ht, Ha, Hb.
  rewrite !(bool_decide_eq_true_2 (_ >= _)%Z) by lia. done.
Qed.

Lemma finished_elections_swap_witness :
  let sg := ServiceGroup.mk "svc.grp" in
  let a := Election.finish (Election.new "a" sg 1) in
  let b := Election.finish (Election.new "b" sg 1) in
  rumor_merge a b = (b, true) /\ rumor_merge b a = (a, true).
Proof. intros sg a b. apply (finished_elections_swap a b); reflexivity. Defined.

(** An election that is ahead in term is kept as it is, but the merge reports a change, so
    the store counts an update although nothing in it was mutated. *)
Theorem stale_election_reports_change (e old : Election.t) st :
  RumorStore.get st (Election.service_group e) "election" = Some old ->
  (Election.term e < Election.term old)%Z ->
  let '(st', changed) := RumorStore.insert e st in
  changed = true /\ RumorStore.store_equiv st' st /\
  RumorStore.get_update_counter st' = u64_add (RumorStore.get_update_counter st) 1.
Proof.
  intros Hget Hlt.
  assert (rumor_merge old e = (old, true)) as Hm.
  { cbn. unfold Election.merge. destruct (Election.eqb old e) eqn:Heq.
    { apply eqb_spec in Heq. lia. }
    rewrite (bool_decide_eq_false_2 (_ >= _)%Z), (bool_decide_eq_false_2 (Election.term _ = _)),
      (bool_decide_eq_true_2 (_ > _)%Z) by lia.
    done. }
  pose proof (RumorStore.insert_result e st) as Hr. pose proof (RumorStore.insert_counter e st) as Hc.
  pose proof (RumorStore.get_insert e st) as Hg.
  cbn [rumor_key rumor_id Election.rumor] in *. rewrite Hget in *. cbn [RumorStore.slot_after] in *.
  rewrite Hm in *. destruct (RumorStore.insert e st) as [st' b]. cbn [fst snd] in *. subst b.
  split; [done|]. split; [|done]. intros k i. rewrite Hg. case_decide as Hd; [|done].
  destruct Hd as [<- <-]. by rewrite Hget.
Qed.

Lemma stale_election_reports_change_witness :
  let sg := ServiceGroup.mk "svc.grp" in
  let old := Election.set_term 3 (Election.new "a" sg 1) in
  let st := (RumorStore.insert old (RumorStore.new 0)).1 in
  (RumorStore.insert (Election.new "b" sg 1) st).2 = true.
Proof.
  intros sg old st.
  pose proof (stale_election_reports_change (Election.new "b" sg 1) old st eq_refl ltac:(reflexivity)) as H.
  destruct (RumorStore.insert _ st) as [st' b]. apply H.
Defined.
