(* ===== verification/Server.v ===== *)
(** * The Butterfly server

    Models the state of [Server] in [components/butterfly/src/server/mod.rs] and
    every operation on it that is not socket or thread plumbing: inserting members,
    healths and rumors of each kind, quorum, and running elections.  The fields that
    only carry configuration (addresses, trace, data file path, ring key) are not
    part of the state.  The [Suitability] lookup is a parameter; [SteadyTime::now()]
    and the iteration orders of the hash maps are arguments. *)

From S2P Require Import Prelude Regex ServiceGroup Ident Member Messages Rumor Heat Kinds Election.
Local Open Scope string_scope.
Local Open Scope list_scope.

Module Server.
Record t := mk {
  name : string;
  member_id : string;
  member : Member;
  member_list : MemberList.t;
  rumor_heat : RumorHeat.t;
  service_store : RumorStore.t Service.t;
  service_config_store : RumorStore.t ServiceConfig.t;
  service_file_store : RumorStore.t ServiceFile.t;
  election_store : RumorStore.t Election.t;
  update_store : RumorStore.t ElectionUpdate.t;
  departure_store : RumorStore.t Departure.t;
  socket : bool;
  departed : bool;
  pause : bool;
  swim_rounds : Z;
  gossip_rounds : Z;
  blacklist : gset string;
}.

(** Field updates. *)
Definition set_member (v : Member) (s : t) : t :=
  mk (name s) (member_id s) v (member_list s) (rumor_heat s) (service_store s)
    (service_config_store s) (service_file_store s) (election_store s) (update_store s)
    (departure_store s) (socket s) (departed s) (pause s) (swim_rounds s) (gossip_rounds s)
    (blacklist s).
Definition set_member_list (v : MemberList.t) (s : t) : t :=
  mk (name s) (member_id s) (member s) v (rumor_heat s) (service_store s)
    (service_config_store s) (service_file_store s) (election_store s) (update_store s)
    (departure_store s) (socket s) (departed s) (pause s) (swim_rounds s) (gossip_rounds s)
    (blacklist s).
Definition set_rumor_heat (v : RumorHeat.t) (s : t) : t :=
  mk (name s) (member_id s) (member s) (member_list s) v (service_store s)
    (service_config_store s) (service_file_store s) (election_store s) (update_store s)
    (departure_store s) (socket s) (departed s) (pause s) (swim_rounds s) (gossip_rounds s)
    (blacklist s).
Definition set_service_store (v : RumorStore.t Service.t) (s : t) : t :=
  mk (name s) (member_id s) (member s) (member_list s) (rumor_heat s) v
    (service_config_store s) (service_file_store s) (election_store s) (update_store s)
    (departure_store s) (socket s) (departed s) (pause s) (swim_rounds s) (gossip_rounds s)
    (blacklist s).
Definition set_service_config_store (v : RumorStore.t ServiceConfig.t) (s : t) : t :=
  mk (name s) (member_id s) (member s) (member_list s) (rumor_heat s) (service_store s) v
    (service_file_store s) (election_store s) (update_store s) (departure_store s)
    (socket s) (departed s) (pause s) (swim_rounds s) (gossip_rounds s) (blacklist s).
Definition set_service_file_store (v : RumorStore.t ServiceFile.t) (s : t) : t :=
  mk (name s) (member_id s) (member s) (member_list s) (rumor_heat s) (service_store s)
    (service_config_store s) v (election_store s) (update_store s) (departure_store s)
    (socket s) (departed s) (pause s) (swim_rounds s) (gossip_rounds s) (blacklist s).
Definition set_election_store (v : RumorStore.t Election.t) (s : t) : t :=
  mk (name s) (member_id s) (member s) (member_list s) (rumor_heat s) (service_store s)
    (service_config_store s) (service_file_store s) v (update_store s) (departure_store s)
    (socket s) (departed s) (pause s) (swim_rounds s) (gossip_rounds s) (blacklist s).
Definition set_update_store (v : RumorStore.t ElectionUpdate.t) (s : t) : t :=
  mk (name s) (member_id s) (member s) (member_list s) (rumor_heat s) (service_store s)
    (service_config_store s) (service_file_store s) (election_store s) v (departure_store s)
    (socket s) (departed s) (pause s) (swim_rounds s) (gossip_rounds s) (blacklist s).
Definition set_departure_store (v : RumorStore.t Departure.t) (s : t) : t :=
  mk (name s) (member_id s) (member s) (member_list s) (rumor_heat s) (service_store s)
    (service_config_store s) (service_file_store s) (election_store s) (update_store s) v
    (socket s) (departed s) (pause s) (swim_rounds s) (gossip_rounds s) (blacklist s).
Definition set_departed (v : bool) (s : t) : t :=
  mk (name s) (member_id s) (member s) (member_list s) (rumor_heat s) (service_store s)
    (service_config_store s) (service_file_store s) (election_store s) (update_store s)
    (departure_store s) (socket s) v (pause s) (swim_rounds s) (gossip_rounds s)
    (blacklist s).
Definition set_pause (v : bool) (s : t) : t :=
  mk (name s) (member_id s) (member s) (member_list s) (rumor_heat s) (service_store s)
    (service_config_store s) (service_file_store s) (election_store s) (update_store s)
    (departure_store s) (socket s) (departed s) v (swim_rounds s) (gossip_rounds s)
    (blacklist s).
Definition set_swim_rounds (v : Z) (s : t) : t :=
  mk (name s) (member_id s) (member s) (member_list s) (rumor_heat s) (service_store s)
    (service_config_store s) (service_file_store s) (election_store s) (update_store s)
    (departure_store s) (socket s) (departed s) (pause s) v (gossip_rounds s) (blacklist s).
Definition set_gossip_rounds (v : Z) (s : t) : t :=
  mk (name s) (member_id s) (member s) (member_list s) (rumor_heat s) (service_store s)
    (service_config_store s) (service_file_store s) (election_store s) (update_store s)
    (departure_store s) (socket s) (departed s) (pause s) (swim_rounds s) v (blacklist s).
Definition set_blacklist (v : gset string) (s : t) : t :=
  mk (name s) (member_id s) (member s) (member_list s) (rumor_heat s) (service_store s)
    (service_config_store s) (service_file_store s) (election_store s) (update_store s)
    (departure_store s) (socket s) (departed s) (pause s) (swim_rounds s) (gossip_rounds s)
    v.

(** ** Construction and bookkeeping *)
Inductive io_error := IoError (msg : string) | AddrNotAvailable.
Inductive error := CannotBind (e : io_error).

(** [new], given the port each address resolves to. *)
Definition new (swim_addr gossip_addr : result io_error (option Z)) (m : Member) (nm : option string)
  : result error t :=
  match swim_addr, gossip_addr with
  | Ok (Some swim), Ok (Some gossip) =>
      let m := mkMember (m_id m) (m_incarnation m) (m_address m) swim gossip (m_persistent m) (m_departed m) in
      Ok (mk (default (m_id m) nm) (m_id m) m MemberList.new RumorHeat.default_heat
            RumorStore.default_store RumorStore.default_store RumorStore.default_store
            RumorStore.default_store RumorStore.default_store RumorStore.default_store
            false false false 0 0 ∅)
  | Err e, _ => Err (CannotBind e)
  | _, Err e => Err (CannotBind e)
  | _, _ => Err (CannotBind AddrNotAvailable)
  end.

Definition isize_max : Z := 2 ^ 63 - 1.

(** Add one to a round counter, starting over from 0 when it would overflow an [isize]. *)
Definition next_round (r : Z) : Z := if decide (r = isize_max) then 0%Z else (r + 1)%Z.
Definition update_swim_round (s : t) : t := set_swim_rounds (next_round (swim_rounds s)) s.
Definition update_gossip_round (s : t) : t := set_gossip_rounds (next_round (gossip_rounds s)) s.

Definition need_peer_seeding (s : t) : bool := bool_decide (MemberList.members (member_list s) = ∅).

Definition add_to_blacklist (id : string) (s : t) : t := set_blacklist ({[id]} ∪ blacklist s) s.
Definition remove_from_blacklist (id : string) (s : t) : t := set_blacklist (blacklist s ∖ {[id]}) s.
Definition check_blacklist (s : t) (id : string) : bool := bool_decide (id ∈ blacklist s).

Definition do_pause (s : t) : t := set_pause true s.
Definition paused (s : t) : bool := pause s.
Definition is_departed (s : t) : bool := departed s.

(** [self.rumor_heat.start_hot_rumor(rk)]. *)
Definition start_hot (rk : RumorKey.t) (s : t) : t :=
  set_rumor_heat (RumorHeat.start_hot_rumor rk (rumor_heat s)) s.

(** ** Membership *)
Definition insert_member (now : Z) (m : Member) (h : Health) (s : t) : outcome t :=
  let rk := RumorKey.from_member m in
  r ← MemberList.insert now m h (member_list s);
  let '(ml, b) := (r : MemberList.t * bool) in
  let s := set_member_list ml s in
  Return (if b then start_hot rk s else s).

Definition insert_health (now : Z) (m : Member) (h : Health) (s : t) : t :=
  let rk := RumorKey.from_member m in
  let '(ml, b) := MemberList.insert_health now m h (member_list s) in
  let s := set_member_list ml s in
  if b then start_hot rk s else s.

(** A rumor that we are not alive is refuted by raising our incarnation. *)
Definition insert_member_from_rumor (now : Z) (m : Member) (h : Health) (s : t) : outcome t :=
  let rk := RumorKey.from_member m in
  let refute := bool_decide (m_id m = member_id s) && bool_decide (h <> Alive) in
  let s := if refute
           then set_member (set_incarnation (u64_add (m_incarnation (member s)) 1) (member s)) s
           else s in
  let h := if refute then Alive else h in
  r ← MemberList.insert now m h (member_list s);
  let '(ml, b) := (r : MemberList.t * bool) in
  let s := set_member_list ml s in
  Return (if b || refute then start_hot rk s else s).

Definition insert_member_from_rumors (now : Z) (ms : list (Member * Health)) (s : t) : outcome t :=
  for_each (fun '(m, h) s => insert_member_from_rumor now m h s) ms s.

(** ** Rumors *)
Definition insert_health_departed (now : Z) (id : string) (s : t) : t :=
  let '(ml, b) := MemberList.insert_health_by_id now id Departed (member_list s) in
  let s := set_member_list ml s in
  if b then
    let s := set_member_list (MemberList.depart_remove id (member_list s)) s in
    start_hot (RumorKey.new RT_Member id "") s
  else s.

(** A service of a new member takes the place of the first Confirmed member of
    the group, which is marked as departed. *)
Definition insert_service (o : order) (now : Z) (service : Service.t) (s : t) : t :=
  let rk := rumor_key_of service in
  let s :=
    if negb (RumorStore.contains_rumor (service_store s) (RumorKey.key rk) (RumorKey.id rk)) then
      let entries := filter (fun r => MemberList.check_health_of_by_id (member_list s) (Service.member_id r) Confirmed = true)
                       (RumorStore.rumors_of o (service_store s) (RumorKey.key rk)) in
      let entries := sort_by (fun a b => str_geb (Service.member_id b) (Service.member_id a)) entries in
      foldl (fun s r => insert_health_departed now (Service.member_id r) s) s (take 1 entries)
    else s in
  let '(st, b) := RumorStore.insert service (service_store s) in
  let s := set_service_store st s in
  if b then start_hot rk s else s.

Definition insert_service_config (c : ServiceConfig.t) (s : t) : t :=
  let rk := rumor_key_of c in
  let '(st, b) := RumorStore.insert c (service_config_store s) in
  let s := set_service_config_store st s in
  if b then start_hot rk s else s.

Definition insert_service_file (f : ServiceFile.t) (s : t) : t :=
  let rk := rumor_key_of f in
  let '(st, b) := RumorStore.insert f (service_file_store s) in
  let s := set_service_file_store st s in
  if b then start_hot rk s else s.

Definition insert_departure (now : Z) (d : Departure.t) (s : t) : t :=
  let rk := rumor_key_of d in
  let s := if String.eqb (member_id s) (Departure.member_id d) then set_departed true s else s in
  let s := insert_health_departed now (Departure.member_id d) s in
  let '(st, b) := RumorStore.insert d (departure_store s) in
  let s := set_departure_store st s in
  if b then start_hot rk s else s.

(** ** Quorum *)

(** The alive members that run a service of the group. *)
Definition get_electorate (o : order) (s : t) (key : string) : list string :=
  Service.member_id <$>
    filter (fun r => MemberList.check_health_of_by_id (member_list s) (Service.member_id r) Alive = true)
      (RumorStore.rumors_of o (service_store s) key).

Definition get_total_population (o : order) (s : t) (key : string) : nat :=
  length (filter (fun r => MemberList.check_in_voting_population_by_id (member_list s) (Service.member_id r) = true)
            (RumorStore.rumors_of o (service_store s) key)).

Definition check_quorum (o : order) (s : t) (key : string) : bool :=
  let electorate := get_electorate o s key in
  let total_population := get_total_population o s key in
  let alive_population := length electorate in
  if decide (total_population < 3)%nat then false
  else bool_decide (total_population `div` 2 + 1 <= alive_population)%nat.

(** ** Elections *)
Section elections.
  Context `{!RegexEngine} (suitability_lookup : ServiceGroup.t -> Z).

Definition start_election (o : order) (sg : ServiceGroup.t) (term : Z) (s : t) : t :=
  let suitability := suitability_lookup sg in
  let e := Election.new (member_id s) sg suitability in
  let e := Election.set_term term e in
  let ek := rumor_key_of e in
  let e := if negb (check_quorum o s (rumor_key e)) then Election.no_quorum e else e in
  let s := set_election_store (RumorStore.insert e (election_store s)).1 s in
  start_hot ek s.

Definition start_update_election (o : order) (sg : ServiceGroup.t) (suitability term : Z) (s : t) : t :=
  let e := ElectionUpdate.new (member_id s) sg suitability in
  let e := ElectionUpdate.map (Election.set_term term) e in
  let ek := rumor_key_of e in
  let e := if negb (check_quorum o s (rumor_key e)) then ElectionUpdate.map Election.no_quorum e else e in
  let s := set_update_store (RumorStore.insert e (update_store s)).1 s in
  start_hot ek s.

(** The server has the same code twice, for elections and for update elections:
    [insert_election] and [insert_update_election] differ in the store they use, in
    the function that starts an election and in the newtype around it, and so do the
    two halves of [restart_elections].  These differences are an [election_kind]. *)
Record election_kind := ElectionKind {
  rumor_type : Type;
  is_rumor : Rumor rumor_type;
  ek_inner : rumor_type -> Election.t;
  ek_map : (Election.t -> Election.t) -> rumor_type -> rumor_type;
  ek_store : t -> RumorStore.t rumor_type;
  ek_set_store : RumorStore.t rumor_type -> t -> t;
  ek_start : order -> ServiceGroup.t -> Z -> t -> t;
}.

Definition leader_election : election_kind :=
  ElectionKind Election.t Election.rumor (fun e => e) (fun f => f) election_store set_election_store
    start_election.

Definition update_election : election_kind :=
  ElectionKind ElectionUpdate.t ElectionUpdate.rumor ElectionUpdate.inner ElectionUpdate.map
    update_store set_update_store (fun o sg term => start_update_election o sg 0 term).

#[local] Existing Instance is_rumor.

(** The votes of the election that come from the electorate, counted as the loop does. *)
Definition num_votes (electorate votes : list string) : nat :=
  length (filter (fun v => v ∈ electorate) votes).

(** If we are the member that the election is voting for, check whether it is over. *)
Definition check_finished (o : order) (s : t) (e : Election.t) : Election.t :=
  if String.eqb (member_id s) (Election.member_id e) then
    if check_quorum o s (Election.service_group e) then
      let electorate := get_electorate o s (Election.service_group e) in
      if decide (num_votes electorate (Election.votes e) = length electorate) then Election.finish e else e
    else Election.no_quorum e
  else e.

(** Before an election that is not finished is stored its status is recomputed. *)
Definition refresh_status (o : order) (s : t) (e : Election.t) : Election.t :=
  if negb (Election.is_finished e) then
    if check_quorum o s (Election.service_group e) then Election.running e else Election.no_quorum e
  else e.

(** The end of the handlers: store the rumor and start spreading it. *)
Definition store_election (k : election_kind) (rk : RumorKey.t) (e : rumor_type k) (s : t) : t :=
  let '(st, b) := RumorStore.insert e (ek_store k s) in
  let s := ek_set_store k st s in
  if b then start_hot rk s else s.

(** [insert_election] and [insert_update_election], as one step (the code takes the lock of the
    store for each of its operations); a service group that does not
    parse ends the handler early. *)
Definition insert_election_kind (k : election_kind) (o : order) (election : rumor_type k) (s : t) : outcome t :=
  let rk := rumor_key_of election in
  let key := Election.service_group (ek_inner k election) in
  if RumorStore.contains_rumor (service_store s) key (member_id s) then
    if RumorStore.contains_rumor (ek_store k s) (rumor_key election) (rumor_id election) then
      ce ← expect "called `Option::unwrap()` on a `None` value"
             (RumorStore.get (ek_store k s) (rumor_key election) (rumor_id election));
      let new_term := bool_decide (Election.term (ek_inner k election) > Election.term (ek_inner k ce))%Z in
      let restarted :=
        if new_term then
          let s := ek_set_store k (RumorStore.remove (rumor_key election) (rumor_id election) (ek_store k s)) s in
          match ServiceGroup.from_str key with
          | Ok sg => inl (ek_start k o sg (Election.term (ek_inner k election)) s)
          | Err _ => inr s
          end
        else inl s in
      match restarted with
      | inr s => Return s
      | inl s =>
          let election := ek_map k (check_finished o s) election in
          Return (store_election k rk (ek_map k (refresh_status o s) election) s)
      end
    else
      match ServiceGroup.from_str key with
      | Ok sg =>
          let s := ek_start k o sg (Election.term (ek_inner k election)) s in
          Return (store_election k rk (ek_map k (refresh_status o s) election) s)
      | Err _ => Return s
      end
  else Return (store_election k rk election s).

Definition insert_election (o : order) (e : Election.t) (s : t) : outcome t :=
  insert_election_kind leader_election o e s.
Definition insert_update_election (o : order) (e : ElectionUpdate.t) (s : t) : outcome t :=
  insert_election_kind update_election o e s.

(** The closure [restart_elections] runs on every key of a store: the elections that
    we lead without quorum, or whose leader is confirmed dead. *)
Definition needs_restart (k : election_kind) (o : order) (s : t) (service_group : string)
  (rumors : gmap string (rumor_type k)) : outcome (option (string * Z)) :=
  if RumorStore.contains_rumor (service_store s) service_group (member_id s) then
    election ← expect "Lost an election struct between looking it up and reading it." (rumors !! "election");
    let e := ek_inner k election in
    if Election.is_finished e && String.eqb (Election.member_id e) (member_id s) then
      if negb (check_quorum o s (rumor_key election)) then Return (Some (service_group, Election.term e))
      else Return None
    else if Election.is_finished e then
      if MemberList.check_health_of_by_id (member_list s) (Election.member_id e) Confirmed
      then Return (Some (service_group, Election.term e))
      else Return None
    else Return None
  else Return None.

Definition elections_to_restart (k : election_kind) (o : order) (s : t) : outcome (list (string * Z)) :=
  for_each (fun '(sg, rumors) acc => r ← needs_restart k o s sg rumors; Return (acc ++ option_list r))
    (RumorStore.keys o (ek_store k s)) [].

(** The restarting loop; the [bool] is false when a group did not parse and the whole
    function returned. *)
Fixpoint restart_loop (k : election_kind) (o : order) (l : list (string * Z)) (s : t) : t * bool :=
  match l with
  | [] => (s, true)
  | (service_group, old_term) :: l =>
      match ServiceGroup.from_str service_group with
      | Ok sg =>
          let term := u64_add old_term 1 in
          let s := ek_set_store k (RumorStore.remove service_group "election" (ek_store k s)) s in
          restart_loop k o l (ek_start k o sg term s)
      | Err _ => (s, false)
      end
  end.

(** One step, as [insert_election_kind]: no other thread takes an election away between the
    lookup and the reading. *)
Definition restart_elections (o : order) (s : t) : outcome t :=
  elections ← elections_to_restart leader_election o s;
  update_elections ← elections_to_restart update_election o s;
  let '(s, continue) := restart_loop leader_election o elections s in
  Return (if continue : bool then (restart_loop update_election o update_elections s).1 else s).
End elections.
End Server.
