(* ===== verification/ServerProofs.v ===== *)
(** * Properties of the Butterfly server

    The invariant of the server state and that every handler keeps it without
    panicking; quorum; when an election finishes; restarting elections; the
    refutation of rumors about ourselves.  The definitions are in [Server.v]. *)

From S2P Require Import Prelude Regex ServiceGroup Ident Member Messages Rumor Heat Kinds Election Server.
Local Open Scope string_scope.
Local Open Scope list_scope.
Import Server.

(** ** The invariant *)

(** Every group an election store knows holds its election: [restart_elections] and the
    census rely on it. *)
Definition election_slots {T} (st : RumorStore.t T) : Prop :=
  forall k m, RumorStore.entries st !! k = Some m -> is_Some (m !! "election").

Record wf (s : Server.t) : Prop := {
  wf_member_list : MemberList.wf (member_list s);
  wf_services : RumorStore.wf (service_store s);
  wf_configs : RumorStore.wf (service_config_store s);
  wf_files : RumorStore.wf (service_file_store s);
  wf_elections : RumorStore.wf (election_store s);
  wf_updates : RumorStore.wf (update_store s);
  wf_departures : RumorStore.wf (departure_store s);
  wf_election_slots : election_slots (election_store s);
  wf_update_slots : election_slots (update_store s);
}.

Lemma election_slots_insert `{Rumor T} (r : T) st :
  rumor_id r = "election" -> election_slots st -> election_slots (RumorStore.insert r st).1.
Proof.
  intros Hid Hs k m. rewrite RumorStore.insert_entries, Hid.
  destruct (decide (rumor_key r = k)) as [<-|Hne].
  - rewrite lookup_insert_eq. intros [= <-]. rewrite lookup_insert_eq. by eexists.
  - rewrite lookup_insert_ne by done. apply Hs.
Qed.

(** Removing an election and storing one for the same group leaves no empty slot. *)
Lemma election_slots_replace `{Rumor T} (r : T) k st :
  rumor_id r = "election" -> rumor_key r = k -> election_slots st ->
  election_slots (RumorStore.insert r (RumorStore.remove k "election" st)).1.
Proof.
  intros Hid Hk Hs k' m. rewrite RumorStore.insert_entries, Hid, Hk.
  destruct (decide (k = k')) as [<-|Hne].
  - rewrite lookup_insert_eq. intros [= <-]. rewrite lookup_insert_eq. by eexists.
  - rewrite lookup_insert_ne by done. unfold RumorStore.remove.
    destruct (RumorStore.entries st !! k) eqn:E; cbn; [rewrite lookup_insert_ne by done|]; apply Hs.
Qed.

Lemma start_hot_wf rk s : wf s -> wf (start_hot rk s).
Proof. by intros []. Qed.

Lemma set_member_list_wf ml s : wf s -> MemberList.wf ml -> wf (set_member_list ml s).
Proof. by intros []. Qed.

#[export] Hint Resolve start_hot_wf set_member_list_wf : habitat.

(** *** Membership and plain rumors *)
Lemma insert_member_wf now m h s : wf s -> Returns (insert_member now m h s) wf.
Proof.
  intros Hwf. unfold insert_member.
  eapply Returns_bind; [apply MemberList.insert_wf, Hwf|]. intros [ml b] Hml. cbn in Hml.
  destruct b; cbn; auto with habitat.
Qed.

Lemma insert_member_from_rumor_wf now m h s : wf s -> Returns (insert_member_from_rumor now m h s) wf.
Proof.
  intros Hwf. unfold insert_member_from_rumor. set (refute := _ && _).
  set (s1 := if refute then _ else s). assert (wf s1) as Hwf1 by (unfold s1; by destruct refute, Hwf).
  eapply Returns_bind; [apply MemberList.insert_wf, Hwf1|]. intros [ml b] Hml. cbn in Hml.
  destruct b, refute; cbn; auto with habitat.
Qed.

Lemma insert_health_wf now m h s : wf s -> wf (insert_health now m h s).
Proof.
  intros Hwf. unfold insert_health, MemberList.insert_health.
  pose proof (MemberList.insert_health_by_id_wf now (m_id m) h _ (wf_member_list _ Hwf)).
  destruct (MemberList.insert_health_by_id _ _ _ _) as [ml []]; cbn in *; auto with habitat.
Qed.

Lemma insert_health_departed_wf now id s : wf s -> wf (insert_health_departed now id s).
Proof.
  intros Hwf. unfold insert_health_departed.
  pose proof (MemberList.insert_health_by_id_wf now id Departed _ (wf_member_list _ Hwf)).
  destruct (MemberList.insert_health_by_id _ _ _ _) as [ml []]; cbn in *; auto with habitat.
  apply start_hot_wf. apply set_member_list_wf; [auto with habitat|]. by apply MemberList.depart_remove_wf.
Qed.

Lemma insert_service_wf o now sv s : wf s -> wf (insert_service o now sv s).
Proof.
  intros Hwf. unfold insert_service. set (s1 := if negb _ then _ else s).
  assert (wf s1) as Hwf1.
  { unfold s1. case_match; [|done]. apply (foldl_inv wf); [done|]. intros; by apply insert_health_departed_wf. }
  clearbody s1. pose proof (RumorStore.store_insert_wf sv _ (wf_services _ Hwf1)).
  destruct (RumorStore.insert sv (service_store s1)) as [st []]; cbn in *; by destruct Hwf1.
Qed.

Lemma insert_service_config_wf c s : wf s -> wf (insert_service_config c s).
Proof.
  intros Hwf. unfold insert_service_config.
  pose proof (RumorStore.store_insert_wf c _ (wf_configs _ Hwf)).
  destruct (RumorStore.insert c _) as [st []]; cbn in *; by destruct Hwf.
Qed.

Lemma insert_service_file_wf f s : wf s -> wf (insert_service_file f s).
Proof.
  intros Hwf. unfold insert_service_file.
  pose proof (RumorStore.store_insert_wf f _ (wf_files _ Hwf)).
  destruct (RumorStore.insert f _) as [st []]; cbn in *; by destruct Hwf.
Qed.

Lemma insert_departure_wf now d s : wf s -> wf (insert_departure now d s).
Proof.
  intros Hwf. unfold insert_departure. set (s0 := if String.eqb _ _ then _ else s).
  assert (wf s0) as Hwf0 by (unfold s0; destruct (String.eqb _ _); by destruct Hwf).
  pose proof (insert_health_departed_wf now (Departure.member_id d) s0 Hwf0) as Hwf1.
  set (s1 := insert_health_departed _ _ _) in *. clearbody s1.
  pose proof (RumorStore.store_insert_wf d _ (wf_departures _ Hwf1)).
  destruct (RumorStore.insert d _) as [st []]; cbn in *; by destruct Hwf1.
Qed.

(** *** The two kinds of election obey the same laws *)
Section elections.
  Context `{!RegexEngine} (suitability_lookup : ServiceGroup.t -> Z).
  #[local] Existing Instance is_rumor.

(** A new election of ours: for the group, with the term, our vote and not finished. *)
Record own_election (s : Server.t) (sg : ServiceGroup.t) (term : Z) (e : Election.t) : Prop := {
  own_group : Election.service_group e = ServiceGroup.as_str sg;
  own_member : Election.member_id e = member_id s;
  own_term : Election.term e = term;
  own_votes : Election.votes e = [member_id s];
  own_status : Election.is_finished e = false;
}.

Record lawful_kind (k : election_kind) : Prop := {
  lk_lawful : @LawfulRumor (rumor_type k) (is_rumor k);
  lk_key : forall r, @rumor_key _ (is_rumor k) r = Election.service_group (ek_inner k r);
  lk_id : forall r, @rumor_id _ (is_rumor k) r = "election";
  lk_merge : forall a b, ek_inner k (@rumor_merge _ (is_rumor k) a b).1 =
                         (Election.merge (ek_inner k a) (ek_inner k b)).1;
  lk_map : forall f r, ek_inner k (ek_map k f r) = f (ek_inner k r);
  lk_get_set : forall st s, ek_store k (ek_set_store k st s) = st;
  lk_frame : forall st s, member_list (ek_set_store k st s) = member_list s /\
               service_store (ek_set_store k st s) = service_store s /\
               member_id (ek_set_store k st s) = member_id s;
  lk_hot : forall rk s, ek_store k (start_hot rk s) = ek_store k s;
  lk_wf : forall st s, wf s -> RumorStore.wf st -> election_slots st -> wf (ek_set_store k st s);
  lk_wf_store : forall s, wf s -> @RumorStore.wf _ (is_rumor k) (ek_store k s) /\ election_slots (ek_store k s);
  lk_start : forall o sg term s, exists e rk, own_election s sg term (ek_inner k e) /\
               ek_start k o sg term s =
               start_hot rk (ek_set_store k (@RumorStore.insert _ (is_rumor k) e (ek_store k s)).1 s);
  lk_remove_wf : forall st st' s, wf (ek_set_store k st' s) -> wf (ek_set_store k st' (ek_set_store k st s));
}.

Lemma own_election_new s sg suit term b :
  own_election s sg term
    (let e := Election.set_term term (Election.new (member_id s) sg suit) in
     if b : bool then Election.no_quorum e else e).
Proof. by destruct b. Qed.

Lemma leader_election_lawful : lawful_kind (leader_election suitability_lookup).
Proof.
  split; try done; cbn.
  - apply Election_lawful.
  - intros st s []. by split.
  - intros s []. done.
  - intros o sg term s. unfold start_election. eexists _, _. split; [|done]. apply own_election_new.
Qed.

Lemma update_election_lawful : lawful_kind update_election.
Proof.
  split; try done; cbn.
  - apply ElectionUpdate_lawful.
  - intros a b. unfold ElectionUpdate.merge. by destruct (Election.merge _ _).
  - intros st s []. by split.
  - intros s []. done.
  - intros o sg term s. unfold start_update_election. eexists _, _. split; [|done].
    destruct (negb _); cbn; by split.
Qed.

Lemma parsed_group_text v sg : ServiceGroup.from_str v = Ok sg -> ServiceGroup.as_str sg = v.
Proof. intros Hv. by apply from_str_sound in Hv as [? _]. Qed.

(** A service group name the handlers can parse. *)
Definition parses (v : string) : Prop := exists sg, ServiceGroup.from_str v = Ok sg.

Section one_kind.
  Context (k : election_kind) (Hk : lawful_kind k).

Lemma kind_insert_wf (e : rumor_type k) s :
  wf s -> wf (ek_set_store k (RumorStore.insert e (ek_store k s)).1 s).
Proof.
  intros Hwf. destruct (lk_wf_store _ Hk _ Hwf) as [Hst Hsl]. apply (lk_wf _ Hk); [done| |].
  - apply (@RumorStore.store_insert_wf _ _ (lk_lawful _ Hk)), Hst.
  - apply election_slots_insert; [by apply (lk_id _ Hk)|done].
Qed.

Lemma kind_start_wf o sg term s : wf s -> wf (ek_start k o sg term s).
Proof.
  intros Hwf. destruct (lk_start _ Hk o sg term s) as (e & rk & _ & ->).
  by apply start_hot_wf, kind_insert_wf.
Qed.

Lemma kind_replace_wf o sg term key s :
  wf s -> ServiceGroup.from_str key = Ok sg ->
  wf (ek_start k o sg term (ek_set_store k (RumorStore.remove key "election" (ek_store k s)) s)).
Proof.
  intros Hwf Hsg. set (s1 := ek_set_store k _ s).
  destruct (lk_start _ Hk o sg term s1) as (e & rk & He & ->).
  destruct (lk_wf_store _ Hk _ Hwf) as [Hst Hsl].
  apply start_hot_wf. unfold s1. apply (lk_remove_wf _ Hk). rewrite (lk_get_set _ Hk).
  apply (lk_wf _ Hk); [done| |].
  - apply (@RumorStore.store_insert_wf _ _ (lk_lawful _ Hk)), RumorStore.remove_wf, Hst.
  - apply election_slots_replace; [by apply (lk_id _ Hk)| |done].
    rewrite (lk_key _ Hk), (own_group _ _ _ _ He). by apply parsed_group_text.
Qed.

Lemma store_election_wf rk e s : wf s -> wf (store_election k rk e s).
Proof.
  intros Hwf. unfold store_election. pose proof (kind_insert_wf e s Hwf).
  destruct (RumorStore.insert e (ek_store k s)) as [st []]; cbn in *; auto with habitat.
Qed.

Lemma insert_election_kind_wf o e s :
  wf s -> parses (Election.service_group (ek_inner k e)) -> Returns (insert_election_kind k o e s) wf.
Proof.
  intros Hwf [sg Hsg]. unfold insert_election_kind.
  rewrite (lk_key _ Hk), (lk_id _ Hk), Hsg. set (key := Election.service_group (ek_inner k e)) in *.
  destruct (RumorStore.contains_rumor (service_store s) key (member_id s)); [|by apply store_election_wf].
  destruct (RumorStore.contains_rumor (ek_store k s) key "election") eqn:Hc.
  - unfold RumorStore.contains_rumor in Hc.
    destruct (RumorStore.get (ek_store k s) key "election") as [ce|]; [|done]. cbn.
    case_bool_decide; cbn; apply store_election_wf; [by apply kind_replace_wf|done].
  - by apply store_election_wf, kind_start_wf.
Qed.

Lemma needs_restart_returns o s sg rumors :
  is_Some (rumors !! "election") -> Returns (needs_restart k o s sg rumors) (fun _ => True).
Proof.
  intros [e He]. unfold needs_restart. rewrite He. cbn.
  repeat (case_match; try done).
Qed.

Lemma elections_to_restart_returns o s : wf s -> Returns (elections_to_restart k o s) (fun _ => True).
Proof.
  intros Hwf. destruct (lk_wf_store _ Hk _ Hwf) as [_ Hsl].
  apply (for_each_inv (fun _ => True)); [done|]. intros [sg m] acc Hin _.
  apply elem_of_permute, elem_of_map_to_list in Hin. apply Hsl in Hin.
  eapply Returns_bind; [by apply needs_restart_returns|]. done.
Qed.

Lemma restart_loop_wf o l s : wf s -> wf (restart_loop k o l s).1.
Proof.
  revert s. induction l as [|[key term] l IH]; intros s Hwf; [done|]. cbn.
  destruct (ServiceGroup.from_str key) eqn:Hsg; [|done]. by apply IH, kind_replace_wf.
Qed.
End one_kind.

Lemma insert_election_wf o e s :
  wf s -> parses (Election.service_group e) -> Returns (insert_election suitability_lookup o e s) wf.
Proof. apply (insert_election_kind_wf _ leader_election_lawful o e). Qed.

Lemma insert_update_election_wf o e s :
  wf s -> parses (Election.service_group (ElectionUpdate.inner e)) -> Returns (insert_update_election o e s) wf.
Proof. apply (insert_election_kind_wf _ update_election_lawful o e). Qed.

Lemma restart_elections_wf o s : wf s -> Returns (restart_elections suitability_lookup o s) wf.
Proof.
  intros Hwf. unfold restart_elections.
  eapply Returns_bind; [by apply elections_to_restart_returns; [apply leader_election_lawful|]|]. intros es _.
  eapply Returns_bind; [by apply elections_to_restart_returns; [apply update_election_lawful|]|]. intros us _.
  pose proof (restart_loop_wf _ leader_election_lawful o es s Hwf) as H1.
  destruct (restart_loop _ o es s) as [s1 []]; cbn in *; [|done].
  by apply restart_loop_wf; [apply update_election_lawful|].
Qed.
End elections.

(** ** Quorum *)

(** The members of a group that count towards quorum. *)
Definition population (o : order) (s : Server.t) (key : string) : list string :=
  Service.member_id <$>
    filter (fun r => MemberList.check_in_voting_population_by_id (member_list s) (Service.member_id r) = true)
      (RumorStore.rumors_of o (service_store s) key).

Lemma population_length o s key : length (population o s key) = get_total_population o s key.
Proof. unfold population, get_total_population. by rewrite length_fmap. Qed.

Lemma group_ids_NoDup (P : Service.t -> Prop) `{!forall r, Decision (P r)} o s key :
  wf s -> NoDup (Service.member_id <$> filter P (RumorStore.rumors_of o (service_store s) key)).
Proof.
  intros Hwf. apply (sublist_fmap_NoDup _ _ _ (sublist_filter _ _)).
  exact (RumorStore.rumors_of_ids_NoDup o (service_store s) key (wf_services _ Hwf)).
Qed.

Lemma electorate_NoDup o s key : wf s -> NoDup (get_electorate o s key).
Proof. intros Hwf. by apply group_ids_NoDup. Qed.

Lemma electorate_in_population o s key x : x ∈ get_electorate o s key -> x ∈ population o s key.
Proof.
  unfold get_electorate, population. rewrite !list_elem_of_fmap. intros (r & -> & Hr).
  exists r. split; [done|]. rewrite list_elem_of_filter in *. destruct Hr as [Hr ?]. split; [|done].
  unfold MemberList.check_health_of_by_id, MemberList.check_in_voting_population_by_id in *.
  destruct (MemberList.health _ !! _) as [[]|]; done.
Qed.

Lemma check_quorum_iff o s key :
  check_quorum o s key = true <->
  (3 <= length (population o s key))%nat /\
  (length (population o s key) < 2 * length (get_electorate o s key))%nat.
Proof.
  unfold check_quorum. rewrite population_length. set (n := get_total_population o s key).
  pose proof (Nat.div_mod n 2 ltac:(lia)) as Hdiv. pose proof (Nat.mod_upper_bound n 2 ltac:(lia)).
  case_decide; [split; [done|lia]|]. rewrite bool_decide_eq_true. lia.
Qed.

(** The quorum of a group depends on the services and the healths only. *)
Lemma electorate_frame o s s' key :
  member_list s = member_list s' -> service_store s = service_store s' ->
  get_electorate o s key = get_electorate o s' key /\ check_quorum o s key = check_quorum o s' key.
Proof.
  intros Hm Hs. assert (get_electorate o s key = get_electorate o s' key) as He.
  { unfold get_electorate. by rewrite Hm, Hs. }
  split; [done|]. unfold check_quorum. rewrite He. unfold get_total_population. by rewrite Hm, Hs.
Qed.

(** ** When an election finishes *)
Section finish.
  Context `{!RegexEngine}.
  #[local] Existing Instance is_rumor.

(** [f] has the leader and the term of [e]. *)
Definition led_as (f e : Election.t) : Prop :=
  Election.member_id f = Election.member_id e /\ Election.term f = Election.term e.

(** A merge finishes nothing: the finished election is one of the two. *)
Lemma merge_finished_source a b :
  let c := (Election.merge a b).1 in
  Election.is_finished c = true ->
  Election.is_finished a = true /\ led_as c a \/ Election.is_finished b = true /\ led_as c b.
Proof.
  unfold Election.is_finished, led_as. rewrite !bool_decide_eq_true. unfold Election.merge.
  destruct (steal_votes_fields a b) as (Ma & _ & Ta & _ & Sa), (steal_votes_fields b a) as (Mb & _ & Tb & _ & Sb).
  destruct (Election.eqb a b); cbn [fst]; [by left|].
  repeat (case_bool_decide; cbn [andb fst]); try (destruct (str_geb _ _); cbn [fst]);
    rewrite ?Ma, ?Ta, ?Sa, ?Mb, ?Tb, ?Sb; auto.
Qed.

Lemma merge_not_finished a b :
  Election.is_finished a = false -> Election.is_finished b = false ->
  Election.is_finished (Election.merge a b).1 = false.
Proof.
  intros Ha Hb. apply not_true_iff_false. intros [[Hf _]|[Hf _]]%merge_finished_source; congruence.
Qed.

(** An election of a later term stays. *)
Lemma merge_later_stays a b : (Election.term b < Election.term a)%Z -> (Election.merge a b).1 = a.
Proof.
  intros Ht. unfold Election.merge. destruct (Election.eqb a b); [done|].
  rewrite (bool_decide_eq_false_2 (_ >= _)%Z), (bool_decide_eq_false_2 (Election.term b = _)),
    (bool_decide_eq_true_2 (_ > _)%Z) by lia. done.
Qed.

(** A finished election of the same or a later term takes the slot. *)
Lemma merge_finished_wins a b :
  Election.is_finished b = true -> (Election.term a <= Election.term b)%Z ->
  let c := (Election.merge a b).1 in
  Election.is_finished c = true /\ Election.member_id c = Election.member_id b /\ Election.term c = Election.term b.
Proof.
  unfold Election.is_finished. rewrite bool_decide_eq_true. intros Hb Ht. unfold Election.merge.
  destruct (Election.eqb a b) eqn:Heq.
  - apply eqb_spec in Heq as (_ & ? & _ & _ & Hs & ?). cbn. rewrite Hs, Hb. done.
  - rewrite (bool_decide_eq_true_2 (_ >= _)%Z), (bool_decide_eq_true_2 (Election.status b = _)) by (lia || done).
    cbn. by rewrite Hb.
Qed.

Lemma refresh_same o s e : Election.is_finished (refresh_status o s e) = Election.is_finished e.
Proof.
  unfold refresh_status. destruct (Election.is_finished e) eqn:E; cbn; [done|]. by destruct (check_quorum _ _ _).
Qed.

Lemma refresh_finished o s e : Election.is_finished e = true -> refresh_status o s e = e.
Proof. unfold refresh_status. by intros ->. Qed.

(** This server may finish the election: it is the member elected, it has quorum, and the loop
    counts as many votes of the electorate as there are electors. *)
Definition may_finish (o : order) (s : Server.t) (e : Election.t) : Prop :=
  let key := Election.service_group e in
  member_id s = Election.member_id e /\ check_quorum o s key = true /\
  num_votes (get_electorate o s key) (Election.votes e) = length (get_electorate o s key).

(** When no vote is repeated, all electors have voted. *)
Lemma may_finish_covers o s e :
  wf s -> may_finish o s e -> NoDup (Election.votes e) ->
  forall v, v ∈ get_electorate o s (Election.service_group e) -> v ∈ Election.votes e.
Proof. intros Hwf (_ & _ & Hn) Hnd. apply NoDup_count_covers; [done|done|by apply electorate_NoDup]. Qed.

Lemma check_finished_source o s e :
  Election.is_finished (check_finished o s e) = true -> Election.is_finished e = true \/ may_finish o s e.
Proof.
  unfold check_finished, may_finish. destruct (String.eqb_spec (member_id s) (Election.member_id e)); [|by left].
  destruct (check_quorum _ _ _) eqn:Hq; [|done]. case_decide; [by right|by left].
Qed.

Lemma check_finished_complete o s e :
  wf s -> NoDup (Election.votes e) -> member_id s = Election.member_id e ->
  check_quorum o s (Election.service_group e) = true ->
  (forall v, v ∈ get_electorate o s (Election.service_group e) -> v ∈ Election.votes e) ->
  check_finished o s e = Election.finish e.
Proof.
  intros Hwf Hnd Hm Hq Hall. unfold check_finished. rewrite Hm, String.eqb_refl, Hq.
  rewrite decide_True; [done|]. apply NoDup_count_full; [done|by apply electorate_NoDup|done].
Qed.

Section one_kind.
  Context (k : election_kind) (Hk : lawful_kind k).

(** The election of a group, whatever the kind. *)
Definition stored (s : Server.t) (key : string) : option Election.t :=
  ek_inner k <$> RumorStore.get (ek_store k s) key "election".

Lemma stored_store_election rk e s :
  stored (store_election k rk e s) (Election.service_group (ek_inner k e)) =
  Some (match stored s (Election.service_group (ek_inner k e)) with
        | Some old => (Election.merge old (ek_inner k e)).1
        | None => ek_inner k e
        end).
Proof.
  unfold store_election, stored.
  pose proof (RumorStore.get_insert e (ek_store k s) (Election.service_group (ek_inner k e)) "election") as Hg.
  rewrite (lk_key _ Hk), (lk_id _ Hk), decide_True in Hg by done.
  destruct (RumorStore.insert e (ek_store k s)) as [st b]. cbn [fst] in Hg.
  assert (ek_store k (if b then start_hot rk (ek_set_store k st s) else ek_set_store k st s) = st) as ->.
  { destruct b; rewrite ?(lk_hot _ Hk); apply (lk_get_set _ Hk). }
  rewrite Hg. cbn. f_equal. unfold RumorStore.slot_after.
  destruct (RumorStore.get (ek_store k s) _ _) as [old|]; cbn; [|done]. apply (lk_merge _ Hk).
Qed.

Lemma kind_start_frame o sg term s :
  member_list (ek_start k o sg term s) = member_list s /\
  service_store (ek_start k o sg term s) = service_store s /\
  member_id (ek_start k o sg term s) = member_id s.
Proof. destruct (lk_start _ Hk o sg term s) as (e & rk & _ & ->). apply (lk_frame _ Hk). Qed.

(** A started election merges with the one stored, if any. *)
Lemma kind_start_stored o sg term s :
  exists own, own_election s sg term own /\
    stored (ek_start k o sg term s) (ServiceGroup.as_str sg) =
    Some (match stored s (ServiceGroup.as_str sg) with
          | Some old => (Election.merge old own).1 | None => own end).
Proof.
  destruct (lk_start _ Hk o sg term s) as (e & rk & He & ->). exists (ek_inner k e). split; [done|].
  unfold stored. rewrite (lk_hot _ Hk), (lk_get_set _ Hk), RumorStore.get_insert.
  pose proof (own_group _ _ _ _ He) as Hg. rewrite (lk_key _ Hk), (lk_id _ Hk), decide_True by done.
  cbn. f_equal. rewrite Hg. unfold RumorStore.slot_after.
  destruct (RumorStore.get (ek_store k s) _ _) as [old|]; cbn; [|done]. apply (lk_merge _ Hk).
Qed.

(** Where a finished election comes from when another one is stored. *)
Lemma store_finished_source rk e s f :
  let key := Election.service_group (ek_inner k e) in
  stored (store_election k rk e s) key = Some f -> Election.is_finished f = true ->
  (exists old, stored s key = Some old /\ Election.is_finished old = true /\ led_as f old) \/
  Election.is_finished (ek_inner k e) = true /\ led_as f (ek_inner k e).
Proof.
  intros key. unfold key. rewrite stored_store_election. intros [= <-].
  destruct (stored s _) as [old|]; [|by right]. intros [[? ?]|?]%merge_finished_source; [|by right].
  left. by exists old.
Qed.

Lemma check_finished_group o s e : Election.service_group (check_finished o s e) = Election.service_group e.
Proof. unfold check_finished. by repeat case_match. Qed.

Lemma refresh_status_group o s e : Election.service_group (refresh_status o s e) = Election.service_group e.
Proof. unfold refresh_status. by repeat case_match. Qed.

Lemma check_finished_led o s e : led_as (check_finished o s e) e.
Proof. unfold check_finished, led_as. by repeat case_match. Qed.

Lemma refresh_status_led o s e : led_as (refresh_status o s e) e.
Proof. unfold refresh_status, led_as. by repeat case_match. Qed.

Lemma led_as_trans f g e : led_as f g -> led_as g e -> led_as f e.
Proof. unfold led_as. intros [-> ->]. done. Qed.

(** A server that differs in neither members nor services may finish the same elections. *)
Lemma may_finish_frame o s s1 e :
  member_list s1 = member_list s -> service_store s1 = service_store s -> member_id s1 = member_id s ->
  may_finish o s1 e -> may_finish o s e.
Proof.
  intros Hm Hs Hid. unfold may_finish. cbn zeta. rewrite Hid.
  destruct (electorate_frame o s1 s (Election.service_group e) Hm Hs) as [-> ->]. done.
Qed.

(** The two reasons for a finished election [f] that is not the one of the store: the election
    arrived finished, or this server finished it. *)
Definition finished_here (o : order) (s : Server.t) (e f : Election.t) : Prop :=
  led_as f e /\ (Election.is_finished e = true \/ may_finish o s e).

(** The end of the handler, after the store was prepared. *)
Lemma close_election_source o rk e s s1 f :
  let key := Election.service_group (ek_inner k e) in
  member_list s1 = member_list s -> service_store s1 = service_store s -> member_id s1 = member_id s ->
  stored (store_election k rk (ek_map k (refresh_status o s1) (ek_map k (check_finished o s1) e)) s1) key = Some f ->
  Election.is_finished f = true ->
  (exists old, stored s1 key = Some old /\ Election.is_finished old = true /\ led_as f old) \/
  finished_here o s (ek_inner k e) f.
Proof.
  intros key Hm Hs Hid. set (e2 := ek_map k _ _).
  assert (ek_inner k e2 = refresh_status o s1 (check_finished o s1 (ek_inner k e))) as He2
    by (unfold e2; by rewrite !(lk_map _ Hk)).
  assert (key = Election.service_group (ek_inner k e2)) as ->
    by (rewrite He2, refresh_status_group; symmetry; apply check_finished_group).
  intros Hf Hfin. apply store_finished_source in Hf as [?|[Hfe Hled]]; [by left| |done]. right.
  rewrite He2 in Hfe, Hled. rewrite refresh_same in Hfe. split.
  - eapply led_as_trans; [exact Hled|]. eapply led_as_trans; [apply refresh_status_led|apply check_finished_led].
  - apply check_finished_source in Hfe as [?|?]; [by left|right]. by apply (may_finish_frame o s s1).
Qed.

Lemma stored_removed key s :
  stored (ek_set_store k (RumorStore.remove key "election" (ek_store k s)) s) key = None.
Proof. unfold stored. rewrite (lk_get_set _ Hk), RumorStore.get_remove, decide_True; done. Qed.

(** The state in which the election of a new term was started. *)
Lemma restarted_state o sg term key s :
  wf s -> ServiceGroup.from_str key = Ok sg ->
  let s1 := ek_start k o sg term (ek_set_store k (RumorStore.remove key "election" (ek_store k s)) s) in
  wf s1 /\ member_list s1 = member_list s /\ service_store s1 = service_store s /\ member_id s1 = member_id s /\
  exists own, stored s1 key = Some own /\ own_election s sg term own.
Proof.
  intros Hwf Hsg. set (s0 := ek_set_store k _ s). intros s1. split; [by apply kind_replace_wf|].
  destruct (kind_start_frame o sg term s0) as (Hm & Hs & Hi).
  destruct (lk_frame _ Hk (RumorStore.remove key "election" (ek_store k s)) s) as (Hm0 & Hs0 & Hid).
  unfold s1. rewrite Hm, Hs, Hi. split_and!; [done..|].
  destruct (kind_start_stored o sg term s0) as (own & Hown & Hst).
  assert (stored s0 key = None) as Hnone by apply stored_removed.
  rewrite (parsed_group_text _ _ Hsg), Hnone in Hst. exists own. split; [done|].
  destruct Hown as [? Ho ? Hv ?]. unfold s0 in Ho, Hv. rewrite Hid in Ho, Hv. by split.
Qed.

Lemma restarted_other o sg term key key' s :
  ServiceGroup.from_str key = Ok sg -> key' <> key ->
  stored (ek_start k o sg term (ek_set_store k (RumorStore.remove key "election" (ek_store k s)) s)) key' =
  stored s key'.
Proof.
  intros Hsg Hne. set (s0 := ek_set_store k _ s).
  destruct (lk_start _ Hk o sg term s0) as (e & rk & He & ->).
  unfold stored. rewrite (lk_hot _ Hk), (lk_get_set _ Hk), RumorStore.get_insert.
  rewrite (lk_key _ Hk), (own_group _ _ _ _ He), (parsed_group_text _ _ Hsg), decide_False by naive_solver.
  unfold s0. by rewrite (lk_get_set _ Hk), RumorStore.get_remove, decide_False by naive_solver.
Qed.

Lemma finish_safe_kind o e s s' f :
  let key := Election.service_group (ek_inner k e) in
  wf s -> insert_election_kind k o e s = Return s' -> stored s' key = Some f -> Election.is_finished f = true ->
  (exists old, stored s key = Some old /\ Election.is_finished old = true /\ led_as f old) \/
  finished_here o s (ek_inner k e) f.
Proof.
  intros key Hwf. unfold insert_election_kind. fold key.
  rewrite (lk_key _ Hk), (lk_id _ Hk). fold key.
  destruct (RumorStore.contains_rumor (service_store s) key (member_id s)).
  2: { intros [= <-] Hf Hfin. apply store_finished_source in Hf as [?|[? ?]]; [by left|right; by split; [|left]|done]. }
  unfold RumorStore.contains_rumor.
  destruct (RumorStore.get (ek_store k s) key "election") as [ce|] eqn:Hce; cbn.
  - case_bool_decide as Hnew.
    + destruct (ServiceGroup.from_str key) as [sg|] eqn:Hsg; intros [= <-] Hf Hfin.
      * destruct (restarted_state o sg (Election.term (ek_inner k e)) key s Hwf Hsg)
          as (? & ? & ? & ? & own & Hown & Hos).
        eapply close_election_source in Hf as [(old & Hold & Hfo & _)|?]; [|by right|done..].
        fold key in Hold. rewrite Hown in Hold. injection Hold as <-. rewrite (own_status _ _ _ _ Hos) in Hfo. done.
      * by rewrite stored_removed in Hf.
    + intros [= <-] Hf Hfin. by eapply close_election_source.
  - destruct (ServiceGroup.from_str key) as [sg|] eqn:Hsg; intros [= <-] Hf Hfin.
    + right. destruct (kind_start_stored o sg (Election.term (ek_inner k e)) s) as (own & Hown & Hst).
      rewrite (parsed_group_text _ _ Hsg) in Hst.
      assert (stored s key = None) as Hnone by (unfold stored; by rewrite Hce).
      rewrite Hnone in Hst.
      set (e2 := ek_map k _ _) in Hf. set (s1 := ek_start k _ _ _ _) in *.
      assert (ek_inner k e2 = refresh_status o s1 (ek_inner k e)) as He2 by (unfold e2; by rewrite (lk_map _ Hk)).
      assert (Election.service_group (ek_inner k e2) = key) as Hkey by (rewrite He2; apply refresh_status_group).
      rewrite <- Hkey in Hf, Hst. apply store_finished_source in Hf as [(old & Hold & Hfo & _)|[Hfe Hled]]; [| |done].
      * rewrite Hst in Hold. injection Hold as <-. rewrite (own_status _ _ _ _ Hown) in Hfo. done.
      * rewrite He2 in Hfe, Hled. rewrite refresh_same in Hfe. split; [|by left].
        eapply led_as_trans; [exact Hled|apply refresh_status_led].
    + by (unfold stored in Hf; rewrite Hce in Hf).
Qed.

Lemma finish_complete_kind o e ce s :
  let key := Election.service_group (ek_inner k e) in
  wf s -> parses key -> NoDup (Election.votes (ek_inner k e)) ->
  RumorStore.contains_rumor (service_store s) key (member_id s) = true ->
  stored s key = Some ce -> (Election.term ce <= Election.term (ek_inner k e))%Z ->
  member_id s = Election.member_id (ek_inner k e) -> check_quorum o s key = true ->
  (forall v, v ∈ get_electorate o s key -> v ∈ Election.votes (ek_inner k e)) ->
  Returns (insert_election_kind k o e s) (fun s' => exists f, stored s' key = Some f /\
    Election.is_finished f = true /\ Election.member_id f = member_id s /\
    Election.term f = Election.term (ek_inner k e)).
Proof.
  intros key Hwf [sg Hsg] Hnd Hsvc Hce Ht Hme Hq Hall.
  unfold insert_election_kind. fold key. rewrite (lk_key _ Hk), (lk_id _ Hk), Hsvc, Hsg. fold key.
  unfold stored in Hce. unfold RumorStore.contains_rumor.
  destruct (RumorStore.get (ek_store k s) key "election") as [c|] eqn:Hget; [|done]. cbn in *. injection Hce as <-.
  set (b := bool_decide (_ > _)%Z).
  pose (s1 := if b then ek_start k o sg (Election.term (ek_inner k e))
                (ek_set_store k (RumorStore.remove key "election" (ek_store k s)) s) else s).
  assert (wf s1 /\ member_list s1 = member_list s /\ service_store s1 = service_store s /\
    member_id s1 = member_id s /\ exists old, stored s1 key = Some old /\
    (Election.term old <= Election.term (ek_inner k e))%Z) as (Hwf1 & Hm & Hs & Hid & old & Hold & Hto).
  { unfold s1. destruct b.
    - destruct (restarted_state o sg (Election.term (ek_inner k e)) key s Hwf Hsg) as (? & ? & ? & ? & own & ? & Ho).
      split_and!; try done. exists own. split; [done|]. rewrite (own_term _ _ _ _ Ho). done.
    - split_and!; try done. exists (ek_inner k c). unfold stored. rewrite Hget. done. }
  destruct (electorate_frame o s1 s key Hm Hs) as [He Hq1].
  assert (check_finished o s1 (ek_inner k e) = Election.finish (ek_inner k e)) as Hcf.
  { apply check_finished_complete; [done|done|congruence|by fold key; rewrite Hq1|]. fold key. by rewrite He. }
  assert (forall s2, s2 = s1 -> exists f,
    stored (store_election k (rumor_key_of e) (ek_map k (refresh_status o s2) (ek_map k (check_finished o s2) e)) s2) key = Some f /\
    Election.is_finished f = true /\ Election.member_id f = member_id s /\ Election.term f = Election.term (ek_inner k e)) as Hgoal.
  { intros s2 ->. set (e2 := ek_map k _ _).
    assert (ek_inner k e2 = Election.finish (ek_inner k e)) as He2.
    { unfold e2. rewrite !(lk_map _ Hk), Hcf. by apply refresh_finished. }
    assert (Election.service_group (ek_inner k e2) = key) as Hkey by (by rewrite He2).
    rewrite <- Hkey, stored_store_election. eexists. split; [done|]. rewrite Hkey, Hold, He2.
    destruct (merge_finished_wins old (Election.finish (ek_inner k e))) as (-> & -> & ->); [done|done|].
    split_and!; [done| |done]. by rewrite Hme. }
  unfold s1 in Hgoal. destruct b; cbn; by apply Hgoal.
Qed.

(** Against an election of a later term, the one that arrives is dropped. *)
Lemma earlier_term_dropped o e ce s :
  let key := Election.service_group (ek_inner k e) in
  RumorStore.contains_rumor (service_store s) key (member_id s) = true ->
  stored s key = Some ce -> (Election.term (ek_inner k e) < Election.term ce)%Z ->
  Returns (insert_election_kind k o e s) (fun s' => stored s' key = Some ce).
Proof.
  intros key Hsvc Hce Ht. pose proof Hce as Hce'. unfold insert_election_kind. fold key. rewrite (lk_key _ Hk), (lk_id _ Hk), Hsvc. fold key.
  unfold stored in Hce'. unfold RumorStore.contains_rumor.
  destruct (RumorStore.get (ek_store k s) key "election") as [c|]; [|done]. cbn in *. injection Hce' as Hc. rewrite Hc.
  rewrite bool_decide_eq_false_2 by lia. cbn. set (e2 := ek_map k _ _).
  assert (ek_inner k e2 = refresh_status o s (check_finished o s (ek_inner k e))) as He2 by (unfold e2; by rewrite !(lk_map _ Hk)).
  assert (Election.service_group (ek_inner k e2) = key) as Hkey by (rewrite He2, refresh_status_group; apply check_finished_group).
  assert (Election.term (ek_inner k e2) = Election.term (ek_inner k e)) as Hte.
  { rewrite He2. eapply led_as_trans; [apply refresh_status_led|apply check_finished_led]. }
  rewrite <- Hkey, stored_store_election, Hkey, Hce. f_equal. apply merge_later_stays. lia.
Qed.

(** The first election a server hears of is not finished by it. *)
Lemma first_election_kept_open o e s :
  let key := Election.service_group (ek_inner k e) in
  parses key -> RumorStore.contains_rumor (service_store s) key (member_id s) = true -> stored s key = None ->
  Returns (insert_election_kind k o e s) (fun s' => exists f, stored s' key = Some f /\
    Election.is_finished f = Election.is_finished (ek_inner k e)).
Proof.
  intros key [sg Hsg] Hsvc Hnone. unfold insert_election_kind. fold key. rewrite (lk_key _ Hk), (lk_id _ Hk), Hsvc, Hsg. fold key.
  unfold RumorStore.contains_rumor. pose proof Hnone as Hget. unfold stored in Hget.
  destruct (RumorStore.get (ek_store k s) key "election") as [c|]; [done|]. cbn.
  destruct (kind_start_stored o sg (Election.term (ek_inner k e)) s) as (own & Hown & Hst).
  rewrite (parsed_group_text _ _ Hsg), Hnone in Hst. set (s1 := ek_start k _ _ _ _) in *. set (e2 := ek_map k _ _).
  assert (ek_inner k e2 = refresh_status o s1 (ek_inner k e)) as He2 by (unfold e2; by rewrite (lk_map _ Hk)).
  assert (Election.service_group (ek_inner k e2) = key) as Hkey by (rewrite He2; apply refresh_status_group).
  rewrite <- Hkey, stored_store_election, Hkey, Hst. eexists. split; [done|]. rewrite <- (refresh_same o s1 (ek_inner k e)), <- He2.
  destruct (Election.is_finished (ek_inner k e2)) eqn:Hfin.
  - apply merge_finished_wins; [done|]. rewrite (own_term _ _ _ _ Hown), He2.
    destruct (refresh_status_led o s1 (ek_inner k e)) as [_ ->]. done.
  - apply merge_not_finished; [apply Hown|done].
Qed.
End one_kind.
End finish.

(** ** Restarting elections *)
Section restart.
  Context `{!RegexEngine} (suitability_lookup : ServiceGroup.t -> Z).
  #[local] Existing Instance is_rumor.

(** The election of a group must be held again: we lead it and lost quorum, or
    another member leads it and is confirmed dead. *)
Definition lost_leader (o : order) (s : Server.t) (e : Election.t) : bool :=
  Election.is_finished e &&
  (if String.eqb (Election.member_id e) (member_id s)
   then negb (check_quorum o s (Election.service_group e))
   else MemberList.check_health_of_by_id (member_list s) (Election.member_id e) Confirmed).

Section one_kind.
  Context (k : election_kind) (Hk : lawful_kind k).

Definition to_restart (o : order) (s : Server.t) (entry : string * gmap string (rumor_type k)) : option (string * Z) :=
  e ← entry.2 !! "election";
  if RumorStore.contains_rumor (service_store s) entry.1 (member_id s) && lost_leader o s (ek_inner k e)
  then Some (entry.1, Election.term (ek_inner k e)) else None.

Lemma needs_restart_eq o s key m :
  is_Some (m !! "election") -> needs_restart k o s key m = Return (to_restart o s (key, m)).
Proof.
  intros [e He]. unfold needs_restart, to_restart, lost_leader. cbn. rewrite He. cbn. rewrite (lk_key _ Hk).
  destruct (RumorStore.contains_rumor _ _ _), (Election.is_finished _), (String.eqb _ _); cbn; try done.
  all: repeat case_match; done.
Qed.

Lemma elections_to_restart_eq o s :
  wf s -> elections_to_restart k o s = Return (omap (to_restart o s) (RumorStore.keys o (ek_store k s))).
Proof.
  intros Hwf. destruct (lk_wf_store _ Hk _ Hwf) as [_ Hsl]. unfold elections_to_restart.
  assert (forall e, e ∈ RumorStore.keys o (ek_store k s) -> is_Some (e.2 !! "election")) as Hin.
  { intros [key m] Hin. apply elem_of_permute, elem_of_map_to_list in Hin. by apply Hsl in Hin. }
  revert Hin. generalize (RumorStore.keys o (ek_store k s)). intros l.
  assert (forall acc, (forall e, e ∈ l -> is_Some (e.2 !! "election")) ->
    for_each (fun '(sg, rumors) acc => r ← needs_restart k o s sg rumors; Return (acc ++ option_list r)) l acc =
    Return (acc ++ omap (to_restart o s) l)) as Hgen.
  { induction l as [|[key m] l IH]; intros acc Hin; cbn; [by rewrite app_nil_r|].
    rewrite needs_restart_eq by (apply (Hin (key, m)); set_solver). cbn [mbind outcome_bind].
    rewrite IH by set_solver. rewrite <- app_assoc. f_equal. f_equal.
    by destruct (to_restart o s (key, m)). }
  apply (Hgen []).
Qed.

Lemma elem_of_to_restart o s key term :
  wf s -> (key, term) ∈ omap (to_restart o s) (RumorStore.keys o (ek_store k s)) <->
  exists e, stored k s key = Some e /\ term = Election.term e /\ lost_leader o s e = true /\
    RumorStore.contains_rumor (service_store s) key (member_id s) = true.
Proof.
  intros Hwf. rewrite list_elem_of_omap. unfold stored, RumorStore.get, to_restart. split.
  - intros ([key' m] & Hin & Hr). apply elem_of_permute, elem_of_map_to_list in Hin. cbn in Hr.
    destruct (m !! "election") as [e|] eqn:He; [|done]. cbn in Hr.
    destruct (_ && _) eqn:Hb; [|done]. injection Hr as -> <-. apply andb_true_iff in Hb as [? ?].
    exists (ek_inner k e). rewrite Hin. cbn. by rewrite He.
  - intros (e & He & -> & Hl & Hc). destruct (RumorStore.entries (ek_store k s) !! key) as [m|] eqn:Hm; [|done].
    cbn in He. destruct (m !! "election") as [e'|] eqn:He'; [|done]. cbn in He. injection He as <-.
    exists (key, m). split; [by apply elem_of_permute, elem_of_map_to_list|]. cbn [fst snd]. rewrite He'. cbn [mbind option_bind].
    by rewrite Hc, Hl.
Qed.

Lemma to_restart_NoDup o s : NoDup (omap (to_restart o s) (RumorStore.keys o (ek_store k s))).*1.
Proof.
  eapply sublist_NoDup; [|apply (sublist_omap _ fst fst)].
  - unfold RumorStore.keys. rewrite permute_perm. apply NoDup_fst_map_to_list.
  - intros [key m] [key' term]. unfold to_restart. cbn. destruct (m !! "election"); [|done]. cbn.
    destruct (_ && _); [|done]. by intros [= -> _].
Qed.

(** The loop replaces exactly the listed elections. *)
Lemma restart_loop_stored o l s :
  wf s -> NoDup l.*1 -> (forall x, x ∈ l.*1 -> parses x) ->
  let r := restart_loop k o l s in
  r.2 = true /\ wf r.1 /\ member_list r.1 = member_list s /\ service_store r.1 = service_store s /\
  member_id r.1 = member_id s /\
  (forall key, key ∉ l.*1 -> stored k r.1 key = stored k s key) /\
  (forall key term, (key, term) ∈ l -> exists own sg, stored k r.1 key = Some own /\
     ServiceGroup.from_str key = Ok sg /\ own_election s sg (u64_add term 1) own).
Proof.
  revert s. induction l as [|[key term] l IH]; intros s Hwf Hnd Hp; cbn; [set_solver|].
  apply NoDup_cons in Hnd as [Hnew Hnd].
  destruct (Hp key) as [sg Hsg]; [cbn; set_solver|]. rewrite Hsg.
  destruct (restarted_state k Hk o sg (u64_add term 1) key s Hwf Hsg) as (Hwf1 & Hm & Hs & Hid & own & Hown & Ho).
  set (s1 := ek_start _ _ _ _ _) in *.
  destruct (IH s1 Hwf1 Hnd) as (Hr & Hwf2 & Hm2 & Hs2 & Hid2 & Hsame & Hnew2).
  { intros x Hx. apply Hp. cbn. set_solver. }
  split_and!; [done|done|congruence|congruence|congruence| |].
  - intros key' Hk'. rewrite Hsame by set_solver. apply (restarted_other k Hk); [done|]. cbn in Hk'. set_solver.
  - intros key' term' Hin. apply elem_of_cons in Hin as [[= -> ->]|Hin].
    + exists own, sg. rewrite Hsame by done. done.
    + destruct (Hnew2 _ _ Hin) as (own' & sg' & ? & ? & Ho'). exists own', sg'. split_and!; [done|done|].
      destruct Ho' as [? Hm' ? Hv' ?]. rewrite Hid in Hm', Hv'. by split.
Qed.
End one_kind.

Lemma update_loop_frame o l s :
  election_store (restart_loop update_election o l s).1 = election_store s.
Proof.
  revert s. induction l as [|[key term] l IH]; intros s; cbn; [done|].
  destruct (ServiceGroup.from_str key); [|done]. by rewrite IH.
Qed.

Lemma leader_stored s key :
  stored (leader_election suitability_lookup) s key = RumorStore.get (election_store s) key "election".
Proof. unfold stored. cbn. by destruct (RumorStore.get _ _ _). Qed.
End restart.

(** ** The server as a state machine *)
Section machine.
  Context `{!RegexEngine} (suitability_lookup : ServiceGroup.t -> Z).

(** What the threads of a server and its owner do to it. *)
Inductive event :=
| EMember (now : Z) (m : Member) (h : Health)
| EMemberRumors (now : Z) (ms : list (Member * Health))
| EHealth (now : Z) (m : Member) (h : Health)
| EService (o : order) (now : Z) (sv : Service.t)
| EServiceConfig (c : ServiceConfig.t)
| EServiceFile (f : ServiceFile.t)
| EDeparture (now : Z) (d : Departure.t)
| EStartElection (o : order) (sg : ServiceGroup.t) (term : Z)
| EElection (o : order) (e : Election.t)
| EUpdateElection (o : order) (e : ElectionUpdate.t)
| ERestartElections (o : order).

Definition handle (ev : event) (s : Server.t) : outcome Server.t :=
  match ev with
  | EMember now m h => insert_member now m h s
  | EMemberRumors now ms => insert_member_from_rumors now ms s
  | EHealth now m h => Return (insert_health now m h s)
  | EService o now sv => Return (insert_service o now sv s)
  | EServiceConfig c => Return (insert_service_config c s)
  | EServiceFile f => Return (insert_service_file f s)
  | EDeparture now d => Return (insert_departure now d s)
  | EStartElection o sg term => Return (start_election suitability_lookup o sg term s)
  | EElection o e => insert_election suitability_lookup o e s
  | EUpdateElection o e => insert_update_election o e s
  | ERestartElections o => restart_elections suitability_lookup o s
  end.

(** Elections name service groups that parse. *)
Definition well_formed_event (ev : event) : Prop :=
  match ev with
  | EElection _ e => parses (Election.service_group e)
  | EUpdateElection _ e => parses (Election.service_group (ElectionUpdate.inner e))
  | _ => True
  end.

Inductive step : Server.t -> Server.t -> Prop :=
| step_event ev s s' : well_formed_event ev -> handle ev s = Return s' -> step s s'.

Lemma handle_wf ev s : wf s -> well_formed_event ev -> Returns (handle ev s) wf.
Proof.
  intros Hwf Hev. destruct ev; cbn in *.
  - by apply insert_member_wf.
  - apply (for_each_inv wf); [done|]. intros [m h] s' _ ?. by apply insert_member_from_rumor_wf.
  - by apply insert_health_wf.
  - by apply insert_service_wf.
  - by apply insert_service_config_wf.
  - by apply insert_service_file_wf.
  - by apply insert_departure_wf.
  - by apply (kind_start_wf _ (leader_election_lawful suitability_lookup)).
  - by apply insert_election_wf.
  - by apply insert_update_election_wf.
  - by apply restart_elections_wf.
Qed.

Lemma new_server_wf swim gossip m nm s : Server.new swim gossip m nm = Ok s -> wf s.
Proof.
  unfold Server.new. intros Hnew. destruct swim as [[swim|]|], gossip as [[gossip|]|]; try done. injection Hnew as <-.
  split; cbn; try (apply RumorStore.store_new_wf; by vm_compute); [apply MemberList.new_wf|..];
    intros k m'; cbn; by rewrite lookup_empty.
Qed.

Lemma reachable_wf s0 s : wf s0 -> rtc step s0 s -> wf s.
Proof.
  intros Hwf Hr. induction Hr as [|s1 s2 s3 [ev ? ? Hev Hh] _ IH]; [done|]. apply IH.
  pose proof (handle_wf ev _ Hwf Hev) as Hret. by rewrite Hh in Hret.
Qed.

Definition run (evs : list event) (s : Server.t) : outcome Server.t := for_each handle evs s.

Lemma run_wf evs s : wf s -> Forall well_formed_event evs -> Returns (run evs s) wf.
Proof.
  intros Hwf Hev. apply (for_each_inv wf); [done|]. intros ev s' Hin Hwf'.
  apply handle_wf; [done|]. by eapply Forall_forall in Hev.
Qed.
End machine.

(** *** What each handler leaves alone *)

(** The configuration and file stores, which only their own rumors touch. *)
Definition configuration (s : Server.t) : RumorStore.t ServiceConfig.t * RumorStore.t ServiceFile.t :=
  (Server.service_config_store s, Server.service_file_store s).

Lemma insert_member_configuration now m h s s' :
  Server.insert_member now m h s = Return s' -> configuration s' = configuration s.
Proof.
  unfold Server.insert_member. destruct (MemberList.insert _ _ _ _) as [[ml b]|]; [|done].
  cbn. intros [= <-]. by destruct b.
Qed.

Lemma insert_health_departed_configuration now id s :
  configuration (Server.insert_health_departed now id s) = configuration s.
Proof. unfold Server.insert_health_departed. by destruct (MemberList.insert_health_by_id _ _ _ _) as [ml []]. Qed.

Lemma insert_service_configuration o now sv s : configuration (Server.insert_service o now sv s) = configuration s.
Proof.
  unfold Server.insert_service. set (s1 := if negb _ then _ else s).
  assert (configuration s1 = configuration s) as <-.
  { unfold s1. destruct (negb _); [|done]. apply (foldl_inv (fun x => configuration x = configuration s)); [done|].
    intros x r _ Hx. by rewrite insert_health_departed_configuration. }
  by destruct (RumorStore.insert sv _) as [st []].
Qed.

Lemma insert_departure_configuration now d s : configuration (Server.insert_departure now d s) = configuration s.
Proof.
  unfold Server.insert_departure. set (s0 := if String.eqb _ _ then _ else s).
  assert (configuration s0 = configuration s) as <- by (unfold s0; by destruct (String.eqb _ _)).
  rewrite <- (insert_health_departed_configuration now (Departure.member_id d) s0).
  by destruct (RumorStore.insert d _) as [st []].
Qed.

Lemma insert_election_kind_configuration `{!RegexEngine} k o e s s' :
  (forall st s, configuration (Server.ek_set_store k st s) = configuration s) ->
  (forall sg term s, configuration (Server.ek_start k o sg term s) = configuration s) ->
  Server.insert_election_kind k o e s = Return s' -> configuration s' = configuration s.
Proof.
  intros Hset Hstart.
  assert (forall rk x s, configuration (Server.store_election k rk x s) = configuration s) as Hst.
  { intros rk x s0. unfold Server.store_election. destruct (RumorStore.insert _ _) as [st []]; cbn; apply Hset. }
  unfold Server.insert_election_kind.
  destruct (RumorStore.contains_rumor (Server.service_store s) _ _); [|intros [= <-]; apply Hst].
  destruct (RumorStore.contains_rumor (Server.ek_store k s) _ _).
  - destruct (expect _ _) as [ce|]; [|done]. cbn [mbind outcome_bind].
    destruct (bool_decide _); [destruct (ServiceGroup.from_str _)|]; intros [= <-];
      rewrite ?Hst, ?Hstart, ?Hset; done.
  - destruct (ServiceGroup.from_str _); intros [= <-]; rewrite ?Hst, ?Hstart; done.
Qed.

(** *** A concrete ring: three members that run the service of one group *)
Definition ex_member (id : string) : Member := mkMember id 0 "10.0.0.1" 9638 9638 false false.
Definition ex_service (sg id : string) : Service.t :=
  Service.mk (mkRumor RT_Service [] id (Some (PService (mkService id sg 0 false "o/svc/1/1" [] default_sys_info)))).
Definition ex_join (sg id : string) : list event :=
  [EMember 0 (ex_member id) Alive; EService id_order 0 (ex_service sg id)].
Definition ex_new : Server.t :=
  Server.mk "a" "a" (ex_member "a") MemberList.new RumorHeat.default_heat
    RumorStore.default_store RumorStore.default_store RumorStore.default_store
    RumorStore.default_store RumorStore.default_store RumorStore.default_store
    false false false 0 0 ∅.
Definition ex_group : ServiceGroup.t := ServiceGroup.mk "svc.grp".
Definition ex_events : list event :=
  ex_join "svc.grp" "a" ++ ex_join "svc.grp" "b" ++ ex_join "svc.grp" "c" ++ [EStartElection id_order ex_group 0].
Definition ex_run (evs : list event) : Server.t :=
  match @run reference_engine (fun _ => 1%Z) evs ex_new with Return s => s | Panic _ => ex_new end.

Lemma ex_new_wf : wf ex_new.
Proof. by apply (new_server_wf (Ok (Some 9638%Z)) (Ok (Some 9638%Z)) (ex_member "a") None). Qed.

Lemma ex_run_wf evs : Forall (@well_formed_event reference_engine) evs -> wf (ex_run evs).
Proof.
  intros Hev. unfold ex_run. pose proof (run_wf (fun _ => 1%Z) evs _ ex_new_wf Hev) as Hr.
  by destruct (run _ _ _).
Qed.

(** The election of the example with the votes of everyone. *)
Definition ex_election : Election.t := Election.set_votes ["a"; "b"; "c"] (Election.new "a" ex_group 1).

(** ** Properties *)

(** C1: The server never panics.  From a freshly created server, through any sequence of member,
    health, service, configuration, file, departure and election events whose elections name
    groups that parse, the reached state satisfies the invariant (members and rumors filed under
    their own ids, a health for every member, an election in every slot of the election stores)
    and every further such event is handled without panicking. *)
Theorem server_never_panics `{!RegexEngine} suitability_lookup swim gossip m nm s0 s ev :
  Server.new swim gossip m nm = Ok s0 ->
  rtc (step suitability_lookup) s0 s ->
  well_formed_event ev ->
  wf s /\ exists s', handle suitability_lookup ev s = Return s' /\ wf s'.
Proof.
  intros Hnew Hr Hev. pose proof (reachable_wf _ _ _ (new_server_wf _ _ _ _ _ Hnew) Hr) as Hwf.
  split; [done|]. by apply Returns_inv, handle_wf.
Qed.

Lemma server_never_panics_witness :
  let RE := reference_engine in
  let ev := EElection rev_order ex_election in
  wf ex_new /\ exists s', handle (fun _ => 1%Z) ev ex_new = Return s' /\ wf s'.
Proof.
  intros RE ev.
  apply (server_never_panics (fun _ => 1%Z) (Ok (Some 9638%Z)) (Ok (Some 9638%Z)) (ex_member "a") None ex_new ex_new ev);
    [reflexivity|apply rtc_refl|]. exists ex_group. vm_compute. reflexivity.
Defined.

(** Quorums intersect: two servers that count the same members of a group (by their healths)
    and that both have quorum for it have an alive member of the group in common, and each
    quorum is at least three members strong with more than half of them alive. *)
Theorem quorums_intersect o1 o2 s1 s2 key :
  wf s1 -> wf s2 ->
  (forall id, id ∈ population o1 s1 key <-> id ∈ population o2 s2 key) ->
  check_quorum o1 s1 key = true -> check_quorum o2 s2 key = true ->
  (3 <= length (population o1 s1 key))%nat /\
  (length (population o1 s1 key) < 2 * length (get_electorate o1 s1 key))%nat /\
  exists id, id ∈ get_electorate o1 s1 key /\ id ∈ get_electorate o2 s2 key.
Proof.
  intros Hwf1 Hwf2 Hpop Hq1 Hq2. apply check_quorum_iff in Hq1 as [? ?], Hq2 as [? ?].
  split_and!; [done|done|].
  apply (majorities_intersect (population o1 s1 key)); [by apply electorate_NoDup..| | |].
  - apply electorate_in_population.
  - intros x Hx. apply Hpop. by apply electorate_in_population.
  - assert (population o1 s1 key ≡ₚ population o2 s2 key) as Hp.
    { apply NoDup_Permutation; [by apply group_ids_NoDup..|done]. }
    apply Permutation_length in Hp. lia.
Qed.

Lemma quorums_intersect_witness :
  let s := ex_run ex_events in
  exists id, id ∈ get_electorate id_order s "svc.grp" /\ id ∈ get_electorate rev_order s "svc.grp".
Proof.
  intros s. assert (wf s) as Hwf by (apply ex_run_wf; repeat constructor).
  apply (quorums_intersect id_order rev_order s s "svc.grp"); [done|done| |vm_compute; reflexivity..].
  intros id. unfold population. by rewrite !(list_elem_of_fmap _ (filter _ _)); setoid_rewrite list_elem_of_filter;
    setoid_rewrite (RumorStore.elem_of_rumors_of _ _ _ _ (wf_services _ Hwf)).
Defined.

(** C2: An election finishes only with the consent of the electorate.  When a finished election
    is stored after an election (or update election) was handled, whatever was stored before and
    whatever the votes, then it is the finished one that was stored before, or the one that
    arrived and was already finished, or this server has finished it: it is the member elected, it
    has quorum for the group, it counted as many votes of alive members of the group as there are,
    and if no vote is repeated, every alive member of the group has voted for it. *)
Theorem election_finish_safe `{!RegexEngine} suitability_lookup k o (e : rumor_type k) s s' f :
  (k = leader_election suitability_lookup \/ k = update_election) ->
  let key := Election.service_group (ek_inner k e) in
  wf s -> insert_election_kind k o e s = Return s' -> stored k s' key = Some f -> Election.is_finished f = true ->
  (exists old, stored k s key = Some old /\ Election.is_finished old = true /\ led_as f old) \/
  led_as f (ek_inner k e) /\
  (Election.is_finished (ek_inner k e) = true \/
   member_id s = Election.member_id (ek_inner k e) /\ check_quorum o s key = true /\
   num_votes (get_electorate o s key) (Election.votes (ek_inner k e)) = length (get_electorate o s key) /\
   (NoDup (Election.votes (ek_inner k e)) ->
    forall v, v ∈ get_electorate o s key -> v ∈ Election.votes (ek_inner k e))).
Proof.
  intros Hk. assert (lawful_kind k) as Hl.
  { destruct Hk as [-> | ->]; [apply leader_election_lawful|apply update_election_lawful]. }
  intros key Hwf Hs' Hf Hfin.
  destruct (finish_safe_kind k Hl o e s s' f Hwf Hs' Hf Hfin) as [?|[Hled [?|Hm]]]; [by left|right; auto..].
  split; [done|]. right. pose proof Hm as (? & ? & ?). split_and!; [done..|]. intros Hnd. by apply may_finish_covers.
Qed.

Lemma election_finish_safe_witness :
  let RE := reference_engine in
  let s := ex_run ex_events in
  member_id s = "a" /\ check_quorum id_order s "svc.grp" = true /\
  forall v, v ∈ get_electorate id_order s "svc.grp" -> v ∈ ["a"; "b"; "c"].
Proof.
  intros RE s. assert (wf s) as Hwf by (apply ex_run_wf; repeat constructor).
  assert (parses "svc.grp") as Hp by (exists ex_group; vm_compute; reflexivity).
  destruct (Returns_inv _ _ (insert_election_wf (fun _ => 1%Z) id_order ex_election s Hwf Hp)) as (s' & Hs' & _).
  assert (RumorStore.get (election_store s') "svc.grp" "election" = Some (Election.finish ex_election)) as Hf.
  { revert Hs'. vm_compute. by intros [= <-]. }
  destruct (election_finish_safe (fun _ => 1%Z) (leader_election (fun _ => 1%Z)) id_order ex_election s s'
           (Election.finish ex_election)) as [(old & Hold & Hfo & _)|[_ [Hfe|(H1 & H2 & _ & H3)]]];
    [by left|done|done|by rewrite leader_stored|reflexivity|exfalso..|].
  - revert Hold Hfo. rewrite leader_stored. vm_compute. by intros [= <-].
  - vm_compute in Hfe. discriminate Hfe.
  - split; [exact H1|]. split; [exact H2|]. apply H3. apply (bool_decide_unpack _). vm_compute. exact I.
Defined.



(** [restart_elections] does what its comment says and nothing else: for a group this server
    runs, an election that is finished and whose leader is this server without quorum, or another
    member confirmed dead, is replaced by a new unfinished election of this server in the next term;
    every other election stays as it is.  All groups in the store must parse. *)
Theorem restart_elections_spec `{!RegexEngine} suitability_lookup o s :
  wf s ->
  (forall key, is_Some (RumorStore.entries (election_store s) !! key) -> parses key) ->
  Returns (restart_elections suitability_lookup o s) (fun s' => wf s' /\
    forall key e, RumorStore.get (election_store s) key "election" = Some e ->
    if RumorStore.contains_rumor (service_store s) key (member_id s) && lost_leader o s e
    then exists own sg, RumorStore.get (election_store s') key "election" = Some own /\
           ServiceGroup.from_str key = Ok sg /\ own_election s sg (u64_add (Election.term e) 1) own
    else RumorStore.get (election_store s') key "election" = Some e).
Proof.
  intros Hwf Hp. pose proof (leader_election_lawful suitability_lookup) as Hk.
  pose proof (restart_elections_wf suitability_lookup o s Hwf) as Hret.
  unfold restart_elections in *. rewrite (elections_to_restart_eq _ Hk) in * by done. cbn [mbind outcome_bind] in *.
  destruct (elections_to_restart update_election o s) as [us|]; [|done]. cbn [mbind outcome_bind] in *.
  set (l := omap _ _) in *.
  assert (forall x, x ∈ l.*1 -> exists term, (x, term) ∈ l) as Hfst.
  { intros x. rewrite list_elem_of_fmap. intros ([y term] & -> & ?). by exists term. }
  destruct (restart_loop_stored suitability_lookup _ Hk o l s) as (Hb & _ & _ & _ & _ & Hsame & Hnew);
    [done|apply to_restart_NoDup| |].
  { intros x (term & Hx)%Hfst. apply (elem_of_to_restart _ o s x term Hwf) in Hx as (e & He & _).
    rewrite leader_stored in He. apply Hp. unfold RumorStore.get in He.
    destruct (RumorStore.entries _ !! x); [by eexists|done]. }
  destruct (restart_loop (leader_election suitability_lookup) o l s) as [s1 b]. cbn [fst snd] in *. subst b.
  cbn [Returns] in *. split; [done|]. intros key e He. rewrite update_loop_frame.
  rewrite <- (leader_stored suitability_lookup s1 key). rewrite <- (leader_stored suitability_lookup s key) in He.
  destruct (_ && _) eqn:Hc.
  - apply andb_true_iff in Hc as [? ?]. apply Hnew. apply elem_of_to_restart; [done|]. by exists e.
  - rewrite Hsame; [done|]. intros (term & Hin)%Hfst.
    apply (elem_of_to_restart _ o s key term Hwf) in Hin as (e' & He' & _ & Hl & Hc').
    assert (e' = e) as -> by congruence. by rewrite Hl, Hc' in Hc.
Qed.

Lemma restart_elections_spec_witness :
  let RE := reference_engine in
  let e := Election.finish (Election.set_votes ["a"; "b"; "c"] (Election.new "b" ex_group 1)) in
  let s := ex_run (ex_events ++ [EElection id_order e; EHealth 5 (ex_member "b") Confirmed]) in
  Returns (restart_elections (fun _ => 1%Z) id_order s) (fun s' => exists own,
    RumorStore.get (election_store s') "svc.grp" "election" = Some own /\
    Election.member_id own = "a" /\ Election.term own = 1%Z).
Proof.
  intros RE e s. assert (parses "svc.grp") as Hp by (exists ex_group; vm_compute; reflexivity).
  assert (wf s) as Hwf.
  { apply ex_run_wf. apply Forall_app. split; [repeat constructor|]. constructor; [exact Hp|]. repeat constructor. }
  eapply Returns_mono; [apply (restart_elections_spec (fun _ => 1%Z) id_order s Hwf)|].
  - intros key [m Hm]. assert (dom (RumorStore.entries (election_store s)) = {["svc.grp"]}) as Hd
      by (vm_compute; reflexivity).
    apply elem_of_dom_2 in Hm. rewrite Hd in Hm. apply elem_of_singleton in Hm as ->. done.
  - intros s' [_ Hspec]. specialize (Hspec "svc.grp" e).
    assert (RumorStore.contains_rumor (service_store s) "svc.grp" (member_id s) && lost_leader id_order s e = true)
      as Hc by (vm_compute; reflexivity).
    rewrite Hc in Hspec. destruct Hspec as (own & sg & Hown & _ & Ho); [vm_compute; reflexivity|].
    exists own. split; [done|]. destruct Ho as [_ -> -> _ _]. split; reflexivity.
Defined.

(** A malformed election wedges the server.  When this server runs a service in a group whose
    name does not parse and holds an election for it, an election of a later term makes the handler
    drop the stored election and give up; the group is left without an election and the next
    [restart_elections] panics. *)
Theorem malformed_election_breaks_restart `{!RegexEngine} suitability_lookup o o' (e ce : Election.t) err s :
  ServiceGroup.from_str (Election.service_group e) = Err err ->
  RumorStore.contains_rumor (service_store s) (Election.service_group e) (member_id s) = true ->
  RumorStore.get (election_store s) (Election.service_group e) "election" = Some ce ->
  (Election.term ce < Election.term e)%Z ->
  exists s', insert_election suitability_lookup o e s = Return s' /\
    RumorStore.get (election_store s') (Election.service_group e) "election" = None /\
    ~ election_slots (election_store s') /\
    exists msg, restart_elections suitability_lookup o' s' = Panic msg.
Proof.
  intros Herr Hsvc Hce Ht. set (key := Election.service_group e) in *.
  set (s' := set_election_store (RumorStore.remove key "election" (election_store s)) s).
  assert (insert_election suitability_lookup o e s = Return s') as Hins.
  { unfold insert_election, insert_election_kind. cbn. fold key. rewrite Hsvc.
    unfold RumorStore.contains_rumor. rewrite Hce. cbn. rewrite bool_decide_eq_true_2 by lia. by rewrite Herr. }
  exists s'. split; [done|]. split; [by cbn; rewrite RumorStore.get_remove, decide_True|].
  unfold RumorStore.get in Hce. destruct (RumorStore.entries (election_store s) !! key) as [m|] eqn:Hm; [|done].
  assert (RumorStore.entries (election_store s') !! key = Some (delete "election" m)) as Hm'.
  { cbn. unfold RumorStore.remove. rewrite Hm. cbn. by rewrite lookup_insert_eq. }
  split; [intros Hsl; apply Hsl in Hm' as [? Hd]; by rewrite lookup_delete_eq in Hd|].
  assert (exists msg, elections_to_restart (leader_election suitability_lookup) o' s' = Panic msg) as [msg Hmsg].
  { apply (for_each_panic _ (key, delete "election" m)).
    - by apply elem_of_permute, elem_of_map_to_list.
    - intros acc. unfold needs_restart. change (service_store s') with (service_store s).
      change (member_id s') with (member_id s). rewrite Hsvc, lookup_delete_eq. by eexists. }
  exists msg. unfold restart_elections. by rewrite Hmsg.
Qed.

Lemma malformed_election_breaks_restart_witness :
  let RE := reference_engine in
  let sg := ServiceGroup.mk "foo#svc.grp" in
  let s := ex_run (ex_join "foo#svc.grp" "a" ++ [EStartElection id_order sg 0]) in
  let e := Election.set_term 1 (Election.new "b" sg 1) in
  ServiceGroup.validate "foo#svc.grp" = Ok () /\
  exists s', insert_election (fun _ => 1%Z) id_order e s = Return s' /\
    RumorStore.get (election_store s') "foo#svc.grp" "election" = None /\
    ~ election_slots (election_store s') /\
    exists msg, restart_elections (fun _ => 1%Z) id_order s' = Panic msg.
Proof.
  intros RE sg s e. split; [vm_compute; reflexivity|].
  eapply (malformed_election_breaks_restart (fun _ => 1%Z) id_order id_order e); [vm_compute; reflexivity..|].
  reflexivity.
Defined.

(** Rumors of our death are refuted: on hearing that this server is not alive it raises its own
    incarnation by one (modulo 2^64), keeps itself alive in its member list if it was, and restarts
    the rumor about itself so that every member hears it again. *)
Theorem death_rumor_is_refuted now m h s :
  wf s -> m_id m = member_id s -> h <> Alive ->
  Returns (insert_member_from_rumor now m h s) (fun s' =>
    m_incarnation (member s') = u64_add (m_incarnation (member s)) 1 /\
    (MemberList.health_of_by_id (member_list s) (member_id s) <> Some Suspect ->
     MemberList.health_of_by_id (member_list s) (member_id s) <> Some Confirmed ->
     MemberList.health_of_by_id (member_list s) (member_id s) <> Some Departed ->
     MemberList.health_of_by_id (member_list s') (member_id s) = Some Alive) /\
    forall id, RumorHeat.heat_of (rumor_heat s') (RumorKey.from_member m) id = Some 0%Z).
Proof.
  intros Hwf Hid Hh. unfold insert_member_from_rumor.
  rewrite (bool_decide_eq_true_2 (m_id m = _)), (bool_decide_eq_true_2 (h <> _)) by done. cbn [andb].
  set (s1 := set_member _ s).
  pose proof (MemberList.insert_step now m Alive (member_list s) (wf_member_list _ Hwf)) as Hstep.
  change (member_list s1) with (member_list s).
  destruct (MemberList.insert now m Alive (member_list s)) as [[ml b]|]; [|done].
  cbn [mbind outcome_bind]. destruct Hstep as (Hwf' & Hview & _). rewrite orb_true_r. cbn [Returns].
  split_and!.
  - done.
  - intros H1 H2 H3. specialize (Hview (m_id m)). unfold MemberList.join_at in Hview.
    rewrite decide_True in Hview by done. rewrite <- Hid in *. cbn.
    unfold MemberList.health_of_by_id, MemberList.view in *.
    destruct (MemberList.members ml !! m_id m) as [m1|]; [|done]. cbn in Hview.
    destruct (MemberList.health ml !! m_id m) as [h1|]; [|done]. cbn in Hview. f_equal.
    destruct (MemberList.members (member_list s) !! m_id m) as [m0|] eqn:Hm0; cbn in Hview; [|congruence].
    destruct (MemberList.health (member_list s) !! m_id m) as [h0|] eqn:Hh0; cbn in Hview; [|congruence].
    destruct h0; try done. case_decide; congruence.
  - intros id. etrans; [apply RumorHeat.heat_of_start|]. by rewrite decide_True.
Qed.

Lemma death_rumor_is_refuted_witness :
  let s := ex_run ex_events in
  Returns (insert_member_from_rumor 9 (ex_member "a") Confirmed s) (fun s' =>
    m_incarnation (member s') = 1%Z /\ MemberList.health_of_by_id (member_list s') "a" = Some Alive).
Proof.
  intros s. assert (wf s) as Hwf by (apply ex_run_wf; repeat constructor).
  eapply Returns_mono; [apply (death_rumor_is_refuted 9 (ex_member "a") Confirmed s Hwf); done|].
  intros s' (Hi & Hh & _). split; [by rewrite Hi|]. by apply Hh; vm_compute.
Defined.

(** *** A new service takes the place of a confirmed member *)

(** The confirmed members of a group. *)
Definition confirmed_in_group (o : order) (s : Server.t) (key : string) : list string :=
  Service.member_id <$>
    filter (fun r => MemberList.check_health_of_by_id (member_list s) (Service.member_id r) Confirmed = true)
      (RumorStore.rumors_of o (service_store s) key).

Lemma str_leb_total a b : str_geb b a = true \/ str_geb a b = true.
Proof. destruct (str_geb b a) eqn:E; [by left|]. right. by apply str_geb_total. Qed.

Lemma insert_service_member_list o now sv s :
  member_list (insert_service o now sv s) =
  member_list (if RumorStore.contains_rumor (service_store s) (Service.service_group sv) (Service.member_id sv) then s
               else foldl (fun s r => insert_health_departed now (Service.member_id r) s) s
                 (take 1 (sort_by (fun a b => str_geb (Service.member_id b) (Service.member_id a))
                   (filter (fun r => MemberList.check_health_of_by_id (member_list s) (Service.member_id r) Confirmed = true)
                      (RumorStore.rumors_of o (service_store s) (Service.service_group sv)))))).
Proof.
  unfold insert_service. cbn.
  destruct (RumorStore.contains_rumor _ _ _); cbn; destruct (RumorStore.insert _ _) as [st []]; done.
Qed.

Lemma insert_health_departed_spec now id s :
  MemberList.health (member_list s) !! id = Some Confirmed ->
  let ml := member_list (insert_health_departed now id s) in
  MemberList.health ml = <[id := Departed]> (MemberList.health (member_list s)) /\
  MemberList.members ml = MemberList.members (member_list s) /\
  MemberList.depart ml = delete id (MemberList.depart (member_list s)).
Proof.
  intros Hh. unfold insert_health_departed, MemberList.insert_health_by_id.
  rewrite decide_False by congruence. done.
Qed.

(** A service heard for the first time takes the place of a confirmed member of its group: the
    confirmed member of the group with the least id, and only that one, is marked as departed and
    its departure timer is dropped; when the group has no confirmed member, or the rumor is already
    known, the member list is left alone. *)
Theorem insert_service_departs_one_confirmed o now sv s :
  let key := Service.service_group sv in
  let ml := member_list (insert_service o now sv s) in
  if RumorStore.contains_rumor (service_store s) key (Service.member_id sv) ||
     bool_decide (confirmed_in_group o s key = [])
  then ml = member_list s
  else exists id, id ∈ confirmed_in_group o s key /\
    (forall x, x ∈ confirmed_in_group o s key -> str_geb x id = true) /\
    MemberList.health ml = <[id := Departed]> (MemberList.health (member_list s)) /\
    MemberList.members ml = MemberList.members (member_list s) /\
    MemberList.depart ml = delete id (MemberList.depart (member_list s)).
Proof.
  intros key ml. unfold ml. rewrite insert_service_member_list. fold key.
  destruct (RumorStore.contains_rumor _ _ _); cbn [orb]; [done|].
  unfold confirmed_in_group. set (l := filter _ _).
  destruct (sort_by _ l) as [|r l'] eqn:Hs.
  { rewrite bool_decide_eq_true_2; [done|].
    pose proof (sort_by_perm (fun a b => str_geb (Service.member_id b) (Service.member_id a)) l) as Hp.
    rewrite Hs in Hp. apply Permutation_nil in Hp. by rewrite Hp. }
  apply sort_by_head in Hs as [Hr Hmin].
  2: { intros a b. apply str_leb_total. }
  2: { intros a b c Hab Hbc. by eapply str_geb_trans. }
  rewrite bool_decide_eq_false_2 by (intros Hnil; apply fmap_nil_inv in Hnil; rewrite Hnil in Hr; by apply not_elem_of_nil in Hr).
  exists (Service.member_id r). split; [by apply list_elem_of_fmap_2|]. split.
  { intros x. rewrite list_elem_of_fmap. intros (y & -> & Hy). by apply Hmin. }
  apply insert_health_departed_spec. apply list_elem_of_filter in Hr as [Hr _].
  unfold MemberList.check_health_of_by_id in Hr.
  destruct (MemberList.health _ !! _) as [h|]; [|done]. apply bool_decide_eq_true in Hr. by subst.
Qed.
