(* ===== verification/DatFile.v ===== *)
(** * The data file

    Models [components/butterfly/src/rumor/dat_file.rs]: the header, the framing of
    members and rumors, [write] and [read_into].  A file is its list of bytes and a
    reader is a position in it; I/O errors other than the end of the file are not
    modelled.  The protobuf encoding is a parameter with its round trip as the only
    law; [codec_reference] shows that the law can hold.  A loop over the frames of a
    section takes the number of bytes of the file as fuel, which is enough because
    every frame takes at least eight bytes ([read_loop_frames] below never runs out). *)

From S2P Require Import Prelude Regex ServiceGroup Ident Member Messages Rumor Heat Kinds Election Server ServerProofs.
Local Open Scope string_scope.
Local Open Scope list_scope.

(** ** Little-endian 64-bit integers ([byteorder::LittleEndian]) *)
Definition byte_of_Z (z : Z) : Byte.byte := default Byte.x00 (Strings.Byte.of_N (Z.to_N (z `mod` 256))).
Definition Z_of_byte (b : Byte.byte) : Z := Z.of_N (Strings.Byte.to_N b).

Fixpoint le_bytes (n : nat) (z : Z) : bytes :=
  match n with
  | O => []
  | S n => byte_of_Z z :: le_bytes n (z / 256)
  end.
Definition write_u64 (z : Z) : bytes := le_bytes 8 z.

Definition read_le (l : bytes) : Z := foldr (fun b acc => Z_of_byte b + 256 * acc)%Z 0%Z l.
Definition read_u64 (l : bytes) : Z := read_le l.

(** [&l[a..b]] of a slice that is long enough. *)
Definition slice (a b : nat) (l : bytes) : bytes := take (b - a) (drop a l).

(** ** [Header] *)
Module Header.
Record t := mk {
  member_len : Z;
  service_len : Z;
  service_config_len : Z;
  service_file_len : Z;
  election_len : Z;
  update_len : Z;
  departure_len : Z;
}.

Definition default_header : t := mk 0 0 0 0 0 0 0.

(** [mem::size_of::<Header>()]: seven [u64]s. *)
Definition size_of : nat := 56.

Definition from_bytes (b : bytes) (version : Z) : Z * t :=
  if (version =? 1)%Z then
    (48%Z, mk (read_u64 (slice 0 8 b)) (read_u64 (slice 8 16 b)) (read_u64 (slice 16 24 b))
             (read_u64 (slice 24 32 b)) (read_u64 (slice 32 40 b)) (read_u64 (slice 40 48 b)) 0)
  else
    (read_u64 (slice 0 8 b),
     mk (read_u64 (slice 8 16 b)) (read_u64 (slice 16 24 b)) (read_u64 (slice 24 32 b))
        (read_u64 (slice 32 40 b)) (read_u64 (slice 40 48 b)) (read_u64 (slice 48 56 b))
        (read_u64 (slice 56 64 b))).

Definition write_to_bytes (h : t) : bytes :=
  write_u64 (Z.of_nat (size_of + 8)) ++
  write_u64 (member_len h) ++ write_u64 (service_len h) ++ write_u64 (service_config_len h) ++
  write_u64 (service_file_len h) ++ write_u64 (election_len h) ++ write_u64 (update_len h) ++
  write_u64 (departure_len h).
End Header.

(** ** Reading *)
Inductive dat_error := UnexpectedEof | ProtobufError | OutOfFuel.

(** [reader.read_exact] of [n] bytes at a position. *)
Definition read_exact (file : bytes) (pos : nat) (n : Z) : result dat_error (bytes * nat) :=
  if decide (Z.of_nat pos + n <= Z.of_nat (length file))%Z
  then Ok (take (Z.to_nat n) (drop pos file), pos + Z.to_nat n)%nat
  else Err UnexpectedEof.

Definition header_from_file (file : bytes) (pos : nat) (version : Z) : result dat_error (Z * Header.t) :=
  let n := if (version =? 1)%Z then Header.size_of else (Header.size_of + 8)%nat in
  r ← read_exact file pos (Z.of_nat n);
  Ok (Header.from_bytes (fst (r : bytes * nat)) version).

(** The protobuf library, as far as the data file relies on it. *)
Class Codec := {
  encode_membership : Membership -> bytes;
  decode_membership : bytes -> option Membership;
  encode_rumor : ProtoRumor -> bytes;
  decode_rumor : bytes -> option ProtoRumor;
  decode_encode_membership : forall m, decode_membership (encode_membership m) = Some m;
  decode_encode_rumor : forall r, decode_rumor (encode_rumor r) = Some r;
}.

Module DatFile.
Definition HEADER_VERSION : Byte.byte := Byte.x02.

(** [header_size] and [header] of the struct. *)
Definition member_offset (header_size : Z) : Z := 1 + header_size.
Definition service_offset (hs : Z) (h : Header.t) : Z := member_offset hs + Header.member_len h.
Definition service_config_offset (hs : Z) (h : Header.t) : Z := service_offset hs h + Header.service_len h.
Definition service_file_offset (hs : Z) (h : Header.t) : Z := service_config_offset hs h + Header.service_config_len h.
Definition election_offset (hs : Z) (h : Header.t) : Z := service_file_offset hs h + Header.service_file_len h.
Definition update_offset (hs : Z) (h : Header.t) : Z := election_offset hs h + Header.election_len h.
Definition departure_offset (hs : Z) (h : Header.t) : Z := update_offset hs h + Header.update_len h.

(** What a frame does to the server; [None] when it does not decode. *)
Definition frame_handler : Type := bytes -> option (Server.t -> outcome Server.t).

(** One of the loops of [read_into]: frames up to [len] bytes.  The server keeps
    what was inserted before an error. *)
Fixpoint read_loop (fuel : nat) (file : bytes) (len : Z) (handler : frame_handler)
  (pos : nat) (bytes_read : Z) (s : Server.t) : outcome (Server.t * result dat_error nat) :=
  match fuel with
  | O => Return (s, Err OutOfFuel)
  | S fuel =>
      if (bytes_read >=? len)%Z then Return (s, Ok pos)
      else
        match read_exact file pos 8 with
        | Err e => Return (s, Err e)
        | Ok (size_buf, pos) =>
            let rumor_size := read_u64 size_buf in
            match read_exact file pos rumor_size with
            | Err e => Return (s, Err e)
            | Ok (rumor_buf, pos) =>
                match handler rumor_buf with
                | None => Return (s, Err ProtobufError)
                | Some act =>
                    s ← act s;
                    read_loop fuel file len handler pos (u64_add bytes_read (8 + rumor_size)) s
                end
            end
        end
  end.

Section codec.
  Context `{!RegexEngine} `{!Codec} (suitability_lookup : ServiceGroup.t -> Z) (o : order) (now : Z).

(** The bodies of the seven loops. *)
Definition on_membership : frame_handler := fun b =>
  (fun ms => Server.insert_member now (ms_member ms) (health_from_proto (ms_health ms))) <$> decode_membership b.
Definition on_service : frame_handler := fun b =>
  (fun r s => Return (Server.insert_service o now (Service.mk r) s)) <$> decode_rumor b.
Definition on_service_config : frame_handler := fun b =>
  (fun r s => Return (Server.insert_service_config (ServiceConfig.mk r) s)) <$> decode_rumor b.
Definition on_service_file : frame_handler := fun b =>
  (fun r s => Return (Server.insert_service_file (ServiceFile.mk r) s)) <$> decode_rumor b.
Definition on_election : frame_handler := fun b =>
  (fun r => Server.insert_election suitability_lookup o (Election.mk r)) <$> decode_rumor b.
Definition on_update : frame_handler := fun b =>
  (fun r => Server.insert_update_election o (ElectionUpdate.mk (Election.mk r))) <$> decode_rumor b.
Definition on_departure : frame_handler := fun b =>
  (fun r s => Return (Server.insert_departure now (Departure.mk r) s)) <$> decode_rumor b.

(** Run the loops one after the other until one fails. *)
Fixpoint read_sections (file : bytes) (sections : list (Z * frame_handler)) (pos : nat) (s : Server.t)
  : outcome (Server.t * result dat_error nat) :=
  match sections with
  | [] => Return (s, Ok pos)
  | (len, handler) :: sections =>
      r ← read_loop (S (length file)) file len handler pos 0 s;
      match r with
      | (s, Err e) => Return (s, Err e)
      | (s, Ok pos) => read_sections file sections pos s
      end
  end.

Definition sections (version : Z) (h : Header.t) : list (Z * frame_handler) :=
  [(Header.member_len h, on_membership); (Header.service_len h, on_service);
   (Header.service_config_len h, on_service_config); (Header.service_file_len h, on_service_file);
   (Header.election_len h, on_election); (Header.update_len h, on_update)] ++
  if (version >=? 2)%Z then [(Header.departure_len h, on_departure)] else [].

Definition read_into (file : bytes) (s : Server.t) : outcome (Server.t * result dat_error unit) :=
  match read_exact file 0 1 with
  | Err e => Return (s, Err e)
  | Ok (vb, pos) =>
      let version := read_le vb in
      match header_from_file file pos version with
      | Err e => Return (s, Err e)
      | Ok (header_size, header) =>
          r ← read_sections file (sections version header) (Z.to_nat (member_offset header_size)) s;
          let '(s, res) := (r : Server.t * result dat_error nat) in
          Return (s, match res with Ok _ => Ok () | Err e => Err e end)
      end
  end.

(** ** Writing *)
Definition frame (b : bytes) : bytes := write_u64 (Z.of_nat (length b)) ++ b.

(** The memberships [write_member_list] writes. *)
Definition memberships (ml : MemberList.t) : list Membership :=
  omap (fun m => MemberList.membership_for ml (m_id m)) (permute o (MemberList.values (MemberList.members ml))).

(** The rumors [write_rumor_store] writes. *)
Definition store_rumors {T} (st : RumorStore.t T) : list T :=
  entries ← permute o (MemberList.values (RumorStore.entries st)); permute o (MemberList.values entries).

Definition write_member_list (ml : MemberList.t) : bytes := mjoin (frame ∘ encode_membership <$> memberships ml).
Definition write_rumor_store {T} (proto : T -> ProtoRumor) (st : RumorStore.t T) : bytes :=
  mjoin (frame ∘ encode_rumor ∘ proto <$> store_rumors st).

(** The version and the space reserved for the header. *)
Definition init : bytes := HEADER_VERSION :: replicate (Header.size_of + 8) Byte.x00.

(** [seek] back to the second byte and overwrite. *)
Definition write_header (h : Header.t) (file : bytes) : bytes :=
  take 1 file ++ Header.write_to_bytes h ++ drop (1 + length (Header.write_to_bytes h)) file.

(** [write]: the contents the temporary file is renamed with. *)
Definition write (s : Server.t) : bytes :=
  let ms := write_member_list (Server.member_list s) in
  let svc := write_rumor_store Service.proto (Server.service_store s) in
  let cfg := write_rumor_store ServiceConfig.proto (Server.service_config_store s) in
  let files := write_rumor_store ServiceFile.proto (Server.service_file_store s) in
  let els := write_rumor_store Election.proto (Server.election_store s) in
  let upds := write_rumor_store (Election.proto ∘ ElectionUpdate.inner) (Server.update_store s) in
  let deps := write_rumor_store Departure.proto (Server.departure_store s) in
  let len b := Z.of_nat (length (b : bytes)) in
  let header := Header.mk (len ms) (len svc) (len cfg) (len files) (len els) (len upds) (len deps) in
  write_header header (init ++ ms ++ svc ++ cfg ++ files ++ els ++ upds ++ deps).
End codec.
End DatFile.

(** * Properties of the data file

    Reading back what was written, the restored stores, and the version 1 header.
    The definitions are in [DatFile.v]. *)

Import DatFile.

(** ** Integers *)
Lemma Z_of_byte_of_Z z : Z_of_byte (byte_of_Z z) = (z `mod` 256)%Z.
Proof.
  unfold Z_of_byte, byte_of_Z. pose proof (Z.mod_pos_bound z 256 ltac:(lia)) as Hb.
  destruct (Strings.Byte.of_N (Z.to_N (z `mod` 256))) as [b|] eqn:E; cbn.
  - apply Strings.Byte.to_of_N in E. rewrite E. lia.
  - apply Strings.Byte.of_N_None_iff in E. lia.
Qed.

Lemma length_le_bytes n z : length (le_bytes n z) = n.
Proof. revert z; induction n as [|n IH]; intros z; cbn; [done|]. by rewrite IH. Qed.

Lemma read_le_bytes n z : read_le (le_bytes n z) = (z `mod` 256 ^ Z.of_nat n)%Z.
Proof.
  revert z; induction n as [|n IH]; intros z; [cbn; by rewrite Z.mod_1_r|].
  change (read_le (le_bytes (S n) z)) with (Z_of_byte (byte_of_Z z) + 256 * read_le (le_bytes n (z / 256)))%Z.
  rewrite IH, Z_of_byte_of_Z, Nat2Z.inj_succ, Z.pow_succ_r by lia.
  rewrite Z.rem_mul_r by lia. done.
Qed.

Lemma read_write_u64 z : is_u64 z -> read_u64 (write_u64 z) = z.
Proof. intros Hz. unfold read_u64, write_u64. rewrite read_le_bytes. by apply Z.mod_small. Qed.

Lemma length_write_u64 z : length (write_u64 z) = 8%nat.
Proof. apply length_le_bytes. Qed.

(** ** The header *)
Definition header_ok (h : Header.t) : Prop :=
  is_u64 (Header.member_len h) /\ is_u64 (Header.service_len h) /\ is_u64 (Header.service_config_len h) /\
  is_u64 (Header.service_file_len h) /\ is_u64 (Header.election_len h) /\ is_u64 (Header.update_len h) /\
  is_u64 (Header.departure_len h).

Lemma length_header h : length (Header.write_to_bytes h) = 64%nat.
Proof. unfold Header.write_to_bytes. by rewrite !length_app, !length_write_u64. Qed.

Lemma header_round_trip h :
  header_ok h -> Header.from_bytes (Header.write_to_bytes h) 2 = (64%Z, h).
Proof.
  intros (H1 & H2 & H3 & H4 & H5 & H6 & H7).
  change (Header.from_bytes (Header.write_to_bytes h) 2) with
    (read_u64 (write_u64 64),
     Header.mk (read_u64 (write_u64 (Header.member_len h))) (read_u64 (write_u64 (Header.service_len h)))
       (read_u64 (write_u64 (Header.service_config_len h))) (read_u64 (write_u64 (Header.service_file_len h)))
       (read_u64 (write_u64 (Header.election_len h))) (read_u64 (write_u64 (Header.update_len h)))
       (read_u64 (write_u64 (Header.departure_len h)))).
  rewrite !read_write_u64 by done. by destruct h.
Qed.

(** ** Frames *)
Lemma read_exact_at pre x post n :
  Z.of_nat (length x) = n ->
  read_exact (pre ++ x ++ post) (length pre) n = Ok (x, length pre + length x)%nat.
Proof.
  intros <-. unfold read_exact. rewrite decide_True by (rewrite !length_app; lia).
  rewrite Nat2Z.id, drop_app_length, take_app_length. done.
Qed.

Lemma length_frame b : length (frame b) = (8 + length b)%nat.
Proof. unfold frame. by rewrite length_app, length_write_u64. Qed.

(** The loop reads exactly the frames of its section and runs their actions in order. *)
Lemma read_loop_frames handler act bs fuel pre post b0 s :
  (forall b, b ∈ bs -> handler b = Some (act b)) ->
  let body := mjoin (frame <$> bs) in
  is_u64 (b0 + Z.of_nat (length body)) -> (0 <= b0)%Z -> (length bs < fuel)%nat ->
  read_loop fuel (pre ++ body ++ post) (b0 + Z.of_nat (length body)) handler (length pre) b0 s =
  s' ← for_each act bs s; Return (s', Ok (length pre + length body)%nat).
Proof.
  revert fuel pre b0 s. induction bs as [|b bs IH]; intros fuel pre b0 s Hact body Hu H0 Hfuel.
  { destruct fuel; [cbn in *; lia|]. unfold body. cbn. rewrite Z.add_0_r, Nat.add_0_r.
    rewrite (proj2 (Z.geb_le _ _)) by lia. done. }
  destruct fuel as [|fuel]; [cbn in *; lia|].
  set (rest := mjoin (frame <$> bs)) in *.
  assert (body = write_u64 (Z.of_nat (length b)) ++ b ++ rest) as Hbody.
  { change body with (frame b ++ rest). unfold frame. by rewrite app_assoc. }
  assert (length body = 8 + length b + length rest)%nat as Hlen.
  { rewrite Hbody, !length_app, length_write_u64. lia. }
  cbn [read_loop]. assert ((b0 >=? b0 + Z.of_nat (length body))%Z = false) as -> by lia.
  assert (is_u64 (Z.of_nat (length b))) as Hub by (unfold is_u64 in *; lia).
  replace (pre ++ body ++ post) with (pre ++ write_u64 (Z.of_nat (length b)) ++ (b ++ rest ++ post))
    by (rewrite Hbody, <- !app_assoc; done).
  rewrite read_exact_at by (by rewrite length_write_u64). cbv beta iota zeta.
  rewrite read_write_u64 by done.
  replace (pre ++ write_u64 (Z.of_nat (length b)) ++ b ++ rest ++ post)
    with ((pre ++ write_u64 (Z.of_nat (length b))) ++ b ++ rest ++ post) by (by rewrite <- app_assoc).
  rewrite <- (length_app pre). rewrite read_exact_at by done. cbv beta iota zeta.
  rewrite Hact by set_solver. cbn [for_each].
  destruct (act b s) as [s1|msg]; [|done]. cbn [mbind outcome_bind].
  replace ((pre ++ write_u64 (Z.of_nat (length b))) ++ b ++ rest ++ post)
    with (((pre ++ write_u64 (Z.of_nat (length b))) ++ b) ++ rest ++ post) by (by rewrite <- !app_assoc).
  rewrite <- (length_app (pre ++ _) b).
  assert (u64_add b0 (8 + Z.of_nat (length b)) = b0 + (8 + Z.of_nat (length b)))%Z as ->
    by (apply u64_add_small; unfold is_u64 in *; lia).
  replace (b0 + Z.of_nat (length body))%Z with (b0 + (8 + Z.of_nat (length b)) + Z.of_nat (length rest))%Z by lia.
  rewrite (IH fuel); [|set_solver| |lia|cbn in *; lia].
  - destruct (for_each act bs s1); [|done]. cbn [mbind outcome_bind].
    rewrite !length_app, length_write_u64, Hlen. do 3 f_equal. lia.
  - unfold is_u64 in *. lia.
Qed.

(** The fuel of a section is the length of the file. *)
Lemma frames_length bs : (length bs <= length (mjoin (frame <$> bs)))%nat.
Proof.
  induction bs as [|b bs IH]; [done|]. change (mjoin (frame <$> b :: bs)) with (frame b ++ mjoin (frame <$> bs)).
  rewrite length_app, length_frame. cbn. lia.
Qed.

Lemma for_each_fmap {A B S} (f : B -> S -> outcome S) (g : A -> B) l s :
  for_each f (g <$> l) s = for_each (fun x => f (g x)) l s.
Proof. revert s; induction l as [|x l IH]; intros s; [done|]. cbn. destruct (f (g x) s); cbn; [apply IH|done]. Qed.

Lemma for_each_ext {A S} (f g : A -> S -> outcome S) l s :
  (forall x s, x ∈ l -> f x s = g x s) -> for_each f l s = for_each g l s.
Proof.
  revert s; induction l as [|x l IH]; intros s Hfg; [done|]. cbn. rewrite Hfg by set_solver.
  destruct (g x s); cbn; [|done]. apply IH. set_solver.
Qed.

(** The action of a frame that decodes. *)
Definition act_of (handler : frame_handler) (b : bytes) : Server.t -> outcome Server.t :=
  default (fun s => Return s) (handler b).

(** The loops read the sections one after the other. *)
Lemma read_sections_frames (secs : list (frame_handler * list bytes)) pre post s :
  let body := mjoin ((fun '(_, bs) => mjoin (frame <$> bs)) <$> secs) in
  let file := pre ++ body ++ post in
  (forall h bs b, (h, bs) ∈ secs -> b ∈ bs -> is_Some (h b)) ->
  is_u64 (Z.of_nat (length file)) ->
  read_sections file ((fun '(h, bs) => (Z.of_nat (length (mjoin (frame <$> bs))), h)) <$> secs) (length pre) s =
  s' ← for_each (fun '(h, bs) => for_each (act_of h) bs) secs s; Return (s', Ok (length pre + length body)%nat).
Proof.
  revert pre s. induction secs as [|[h bs] secs IH]; intros pre s body file Hdec Hu.
  { unfold body; cbn. by rewrite Nat.add_0_r. }
  set (body2 := mjoin ((fun '(_, bs) => mjoin (frame <$> bs)) <$> secs)) in *.
  assert (body = mjoin (frame <$> bs) ++ body2) as Hbody by done.
  assert (file = pre ++ mjoin (frame <$> bs) ++ (body2 ++ post)) as Hfile
    by (unfold file; by rewrite Hbody, <- !app_assoc).
  pose proof (frames_length bs) as Hfl.
  assert (length file = length pre + length (mjoin (frame <$> bs)) + length (body2 ++ post))%nat as Hlf
    by (rewrite Hfile, !length_app; lia).
  cbn [fmap list_fmap read_sections for_each].
  rewrite Hfile at 2. change (Z.of_nat (length (mjoin (frame <$> bs)))) with (0 + Z.of_nat (length (mjoin (frame <$> bs))))%Z.
  rewrite (read_loop_frames h (act_of h)); cycle 1.
  { intros b Hb. unfold act_of. destruct (Hdec h bs b) as [f Hf]; [set_solver|done|]. by rewrite Hf. }
  { unfold is_u64 in *. lia. }
  { lia. }
  { lia. }
  destruct (for_each (act_of h) bs s) as [s1|msg]; [|done]. cbn [mbind outcome_bind].
  replace file with ((pre ++ mjoin (frame <$> bs)) ++ body2 ++ post) by (rewrite Hfile, <- app_assoc; done).
  rewrite <- length_app, IH.
  - destruct (for_each _ secs s1); [|done]. cbn [mbind outcome_bind]. rewrite Hbody, !length_app.
    do 3 f_equal. lia.
  - intros h' bs' b Hin. apply Hdec. set_solver.
  - replace ((pre ++ mjoin (frame <$> bs)) ++ body2 ++ post) with file by (rewrite Hfile, <- app_assoc; done). done.
Qed.

Section codec.
  Context `{!RegexEngine} `{!Codec} (suitability_lookup : ServiceGroup.t -> Z) (o1 o2 : order) (now : Z).

(** What reading the file of [s1] into [s2] amounts to. *)
Definition restore (s1 s2 : Server.t) : outcome Server.t :=
  s ← for_each (fun ms => Server.insert_member now (ms_member ms) (health_from_proto (ms_health ms)))
        (memberships o1 (Server.member_list s1)) s2;
  s ← for_each (fun r s => Return (Server.insert_service o2 now r s)) (store_rumors o1 (Server.service_store s1)) s;
  s ← for_each (fun r s => Return (Server.insert_service_config r s)) (store_rumors o1 (Server.service_config_store s1)) s;
  s ← for_each (fun r s => Return (Server.insert_service_file r s)) (store_rumors o1 (Server.service_file_store s1)) s;
  s ← for_each (Server.insert_election suitability_lookup o2) (store_rumors o1 (Server.election_store s1)) s;
  s ← for_each (Server.insert_update_election o2) (store_rumors o1 (Server.update_store s1)) s;
  for_each (fun r s => Return (Server.insert_departure now r s)) (store_rumors o1 (Server.departure_store s1)) s.

(** The sections of the file of a server. *)
Definition file_sections (s1 : Server.t) : list (frame_handler * list bytes) :=
  [(on_membership now, encode_membership <$> memberships o1 (Server.member_list s1));
   (on_service o2 now, encode_rumor ∘ Service.proto <$> store_rumors o1 (Server.service_store s1));
   (on_service_config, encode_rumor ∘ ServiceConfig.proto <$> store_rumors o1 (Server.service_config_store s1));
   (on_service_file, encode_rumor ∘ ServiceFile.proto <$> store_rumors o1 (Server.service_file_store s1));
   (on_election suitability_lookup o2, encode_rumor ∘ Election.proto <$> store_rumors o1 (Server.election_store s1));
   (on_update o2, encode_rumor ∘ (Election.proto ∘ ElectionUpdate.inner) <$> store_rumors o1 (Server.update_store s1));
   (on_departure now, encode_rumor ∘ Departure.proto <$> store_rumors o1 (Server.departure_store s1))].

Lemma sections_decode s1 h bs b : (h, bs) ∈ file_sections s1 -> b ∈ bs -> is_Some (h b).
Proof.
  unfold file_sections. rewrite !elem_of_cons, elem_of_nil. intros Hin Hb.
  destruct_or?; simplify_eq; apply list_elem_of_fmap in Hb as (x & -> & _); cbn;
    unfold on_membership, on_service, on_service_config, on_service_file, on_election, on_update, on_departure;
    rewrite ?decode_encode_membership, ?decode_encode_rumor; by eexists.
Qed.

(** Running the frames of a section is running the handler on what was encoded. *)
Lemma section_act {A} (h : frame_handler) (enc : A -> bytes) (f : A -> Server.t -> outcome Server.t) l s :
  (forall x, h (enc x) = Some (f x)) -> for_each (act_of h) (enc <$> l) s = for_each f l s.
Proof.
  intros Hh. rewrite for_each_fmap. apply for_each_ext. intros x s' _. unfold act_of. by rewrite Hh.
Qed.

Lemma sections_restore s1 s2 :
  for_each (fun '(h, bs) => for_each (act_of h) bs) (file_sections s1) s2 = restore s1 s2.
Proof.
  unfold file_sections, restore. cbn [for_each].
  rewrite (section_act _ _ (fun ms => Server.insert_member now (ms_member ms) (health_from_proto (ms_health ms))))
    by (intros x; unfold on_membership; by rewrite decode_encode_membership).
  destruct (for_each _ _ s2) as [a|]; [|done]. cbn [mbind outcome_bind].
  rewrite (section_act _ _ (fun r s => Return (Server.insert_service o2 now r s)))
    by (intros []; unfold on_service; cbn; by rewrite decode_encode_rumor).
  destruct (for_each _ _ a) as [b|]; [|done]. cbn [mbind outcome_bind].
  rewrite (section_act _ _ (fun r s => Return (Server.insert_service_config r s)))
    by (intros []; unfold on_service_config; cbn; by rewrite decode_encode_rumor).
  destruct (for_each _ _ b) as [c|]; [|done]. cbn [mbind outcome_bind].
  rewrite (section_act _ _ (fun r s => Return (Server.insert_service_file r s)))
    by (intros []; unfold on_service_file; cbn; by rewrite decode_encode_rumor).
  destruct (for_each _ _ c) as [d|]; [|done]. cbn [mbind outcome_bind].
  rewrite (section_act _ _ (Server.insert_election suitability_lookup o2))
    by (intros []; unfold on_election; cbn; by rewrite decode_encode_rumor).
  destruct (for_each _ _ d) as [e|]; [|done]. cbn [mbind outcome_bind].
  rewrite (section_act _ _ (Server.insert_update_election o2))
    by (intros [[]]; unfold on_update; cbn; by rewrite decode_encode_rumor).
  destruct (for_each _ _ e) as [f|]; [|done]. cbn [mbind outcome_bind].
  rewrite (section_act _ _ (fun r s => Return (Server.insert_departure now r s)))
    by (intros []; unfold on_departure; cbn; by rewrite decode_encode_rumor).
  by destruct (for_each _ _ f).
Qed.

(** The file: version, header, sections. *)
Definition file_header (s1 : Server.t) : Header.t :=
  let len b := Z.of_nat (length (b : bytes)) in
  Header.mk (len (write_member_list o1 (Server.member_list s1)))
    (len (write_rumor_store o1 Service.proto (Server.service_store s1)))
    (len (write_rumor_store o1 ServiceConfig.proto (Server.service_config_store s1)))
    (len (write_rumor_store o1 ServiceFile.proto (Server.service_file_store s1)))
    (len (write_rumor_store o1 Election.proto (Server.election_store s1)))
    (len (write_rumor_store o1 (Election.proto ∘ ElectionUpdate.inner) (Server.update_store s1)))
    (len (write_rumor_store o1 Departure.proto (Server.departure_store s1))).

Lemma write_header_init h rest :
  write_header h (init ++ rest) = [HEADER_VERSION] ++ Header.write_to_bytes h ++ rest.
Proof. unfold write_header. by rewrite length_header. Qed.

Lemma write_layout s1 :
  write o1 s1 = [HEADER_VERSION] ++ Header.write_to_bytes (file_header s1) ++
    mjoin ((fun '(_, bs) => mjoin (frame <$> bs)) <$> file_sections s1).
Proof.
  unfold write. fold (file_header s1). rewrite write_header_init. f_equal. f_equal.
  unfold file_sections. cbn [fmap list_fmap mjoin list_join]. rewrite app_nil_r.
  unfold write_member_list, write_rumor_store. by rewrite !list_fmap_compose.
Qed.

Lemma sections_lengths s1 :
  (fun '(h, bs) => (Z.of_nat (length (mjoin (frame <$> bs))), h)) <$> file_sections s1 =
  sections suitability_lookup o2 now 2 (file_header s1).
Proof.
  unfold file_sections, sections, file_header, write_member_list, write_rumor_store. cbn [fmap list_fmap].
  by rewrite !list_fmap_compose.
Qed.

Lemma file_header_ok s1 : is_u64 (Z.of_nat (length (write o1 s1))) -> header_ok (file_header s1).
Proof.
  intros Hu. unfold write in Hu. fold (file_header s1) in Hu. rewrite write_header_init in Hu.
  rewrite !length_app in Hu. unfold header_ok, file_header. cbn [Header.member_len Header.service_len
    Header.service_config_len Header.service_file_len Header.election_len Header.update_len Header.departure_len].
  unfold is_u64 in *. lia.
Qed.

Lemma read_write s1 s2 :
  is_u64 (Z.of_nat (length (write o1 s1))) ->
  read_into suitability_lookup o2 now (write o1 s1) s2 = s' ← restore s1 s2; Return (s', Ok ()).
Proof.
  intros Hu. pose proof (file_header_ok s1 Hu) as Hh. unfold read_into.
  rewrite write_layout in *. set (body := mjoin _) in *. set (hd := Header.write_to_bytes _) in *.
  set (file := [HEADER_VERSION] ++ hd ++ body) in *.
  assert (read_exact file 0 1 = Ok ([HEADER_VERSION], 1%nat)) as ->
    by exact (read_exact_at [] [HEADER_VERSION] (hd ++ body) 1 eq_refl).
  cbv beta iota zeta.
  change (read_le [HEADER_VERSION]) with 2%Z. unfold header_from_file.
  assert (read_exact file 1 (Z.of_nat (Header.size_of + 8)) = Ok (hd, (1 + length hd)%nat)) as Hrd.
  { apply (read_exact_at [HEADER_VERSION] hd body). unfold hd. by rewrite length_header. }
  change (if (2 =? 1)%Z then Header.size_of else (Header.size_of + 8)%nat) with (Header.size_of + 8)%nat.
  rewrite Hrd. cbn [mbind result_bind fst]. unfold hd at 1. rewrite header_round_trip by done. cbv beta iota zeta.
  rewrite <- sections_lengths.
  assert (file = ([HEADER_VERSION] ++ hd) ++ body ++ []) as Hfile by (by rewrite app_nil_r, <- app_assoc).
  rewrite Hfile in *.
  assert (Z.to_nat (member_offset 64) = length ([HEADER_VERSION] ++ hd)) as ->
    by (unfold hd; by rewrite length_app, length_header).
  unfold body. rewrite read_sections_frames; [|apply sections_decode|done].
  rewrite sections_restore. by destruct (restore s1 s2).
Qed.
End codec.

(** ** What is restored *)
Lemma elem_of_store_rumors {T} o (st : RumorStore.t T) r :
  r ∈ store_rumors o st <-> exists k i, RumorStore.get st k i = Some r.
Proof.
  unfold store_rumors, RumorStore.get. rewrite list_elem_of_bind. setoid_rewrite elem_of_permute.
  setoid_rewrite MemberList.elem_of_values. split.
  - intros (m & [i Hi] & [k Hk]). exists k, i. by rewrite Hk.
  - intros (k & i & Hg). destruct (RumorStore.entries st !! k) as [m|] eqn:Hm; [|done]. eauto.
Qed.

(** Inserting the rumors of a well-formed store into an empty one rebuilds it. *)
Lemma insert_all_rebuilds `{VersionedRumor T} o (st st0 : RumorStore.t T) :
  RumorStore.wf st -> RumorStore.wf st0 -> (forall k i, RumorStore.get st0 k i = None) ->
  RumorStore.store_equiv (RumorStore.insert_all (store_rumors o st) st0) st.
Proof.
  intros Hwf Hwf0 Hempty k i.
  assert (forall r, RumorStore.candidate st0 (store_rumors o st) k i r <-> RumorStore.get st k i = Some r) as Hc.
  { intros r. unfold RumorStore.candidate. rewrite Hempty, elem_of_store_rumors. split.
    - intros [?|((k' & i' & Hg) & <- & <-)]; [done|].
      destruct (RumorStore.wf_slot _ Hwf _ _ _ Hg) as [-> ->]. done.
    - intros Hg. right. split; [by eauto|]. by apply (RumorStore.wf_slot _ Hwf). }
  pose proof (RumorStore.insert_all_winner (store_rumors o st) st0 k i Hwf0) as Hw.
  unfold RumorStore.winner in Hw. destruct (RumorStore.get (RumorStore.insert_all _ _) k i) as [w|].
  - destruct Hw as [Hw _]. apply Hc in Hw. by rewrite Hw.
  - destruct (RumorStore.get st k i) as [r|] eqn:Hg; [|done]. exfalso. by apply (Hw r), Hc.
Qed.

(** A loop keeps an invariant when each of its steps does. *)
Lemma for_each_keeps {A} (f : A -> Server.t -> outcome Server.t) l s c :
  (forall x s s', f x s = Return s' -> configuration s' = configuration s) ->
  (forall x s, x ∈ l -> wf s -> Returns (f x s) wf) ->
  wf s -> configuration s = c ->
  Returns (for_each f l s) (fun s' => wf s' /\ configuration s' = c).
Proof.
  intros Hf Hwf Hs Hc. apply (for_each_inv (fun s' => wf s' /\ configuration s' = c)); [done|].
  intros x s0 Hx [Hs0 Hc0]. pose proof (Hwf x s0 Hx Hs0) as Hr. pose proof (Hf x s0) as Hfx.
  destruct (f x s0) as [s1|]; [|done]. split; [done|]. rewrite (Hfx s1) by done. done.
Qed.

Lemma insert_configs l s :
  wf s -> Returns (for_each (fun r s => Return (Server.insert_service_config r s)) l s) (fun s' => wf s' /\
    configuration s' = (RumorStore.insert_all l (Server.service_config_store s), Server.service_file_store s)).
Proof.
  revert s. induction l as [|r l IH]; intros s Hwf; [done|]. cbn.
  eapply Returns_mono; [by apply IH, insert_service_config_wf|]. intros s' [Hs' Hc]. split; [done|]. rewrite Hc.
  unfold Server.insert_service_config. by destruct (RumorStore.insert r _) as [st []].
Qed.

Lemma insert_files l s :
  wf s -> Returns (for_each (fun r s => Return (Server.insert_service_file r s)) l s) (fun s' => wf s' /\
    configuration s' = (Server.service_config_store s, RumorStore.insert_all l (Server.service_file_store s))).
Proof.
  revert s. induction l as [|r l IH]; intros s Hwf; [done|]. cbn.
  eapply Returns_mono; [by apply IH, insert_service_file_wf|]. intros s' [Hs' Hc]. split; [done|]. rewrite Hc.
  unfold Server.insert_service_file. by destruct (RumorStore.insert r _) as [st []].
Qed.

Section restore.
  Context `{!RegexEngine} `{!Codec} (suitability_lookup : ServiceGroup.t -> Z) (o1 o2 : order) (now : Z).

(** The groups of the elections of a server parse. *)
Definition elections_parse (s : Server.t) : Prop :=
  (forall key e, RumorStore.get (Server.election_store s) key "election" = Some e -> parses key) /\
  (forall key e, RumorStore.get (Server.update_store s) key "election" = Some e -> parses key).

Lemma restore_configuration s1 s2 :
  wf s1 -> wf s2 -> elections_parse s1 ->
  Returns (restore suitability_lookup o1 o2 now s1 s2) (fun s' => wf s' /\
    configuration s' =
      (RumorStore.insert_all (store_rumors o1 (Server.service_config_store s1)) (Server.service_config_store s2),
       RumorStore.insert_all (store_rumors o1 (Server.service_file_store s1)) (Server.service_file_store s2))).
Proof.
  intros Hwf1 Hwf2 [He Hu]. unfold restore.
  eapply Returns_bind.
  { apply (for_each_keeps _ _ _ (configuration s2)); [|intros; by apply insert_member_wf|done|done].
    intros x s s'. apply insert_member_configuration. }
  intros a [Hwa Hca]. eapply Returns_bind.
  { apply (for_each_keeps _ _ _ (configuration s2)); [|intros; by apply insert_service_wf|done|done].
    intros x s s' [= <-]. apply insert_service_configuration. }
  intros b [Hwb Hcb]. eapply (Returns_bind _ _ (fun c => wf c /\ configuration c =
    (RumorStore.insert_all (store_rumors o1 (Server.service_config_store s1)) (Server.service_config_store s2),
     Server.service_file_store s2))).
  { injection Hcb as <- <-. by apply insert_configs. }
  intros c [Hwc Hcc]. eapply (Returns_bind _ _ (fun d => wf d /\ configuration d =
    (RumorStore.insert_all (store_rumors o1 (Server.service_config_store s1)) (Server.service_config_store s2),
     RumorStore.insert_all (store_rumors o1 (Server.service_file_store s1)) (Server.service_file_store s2)))).
  { injection Hcc as <- <-. by apply insert_files. }
  set (conf := (RumorStore.insert_all _ _, RumorStore.insert_all _ _)).
  intros d [Hwd Hcd]. eapply Returns_bind.
  { apply (for_each_keeps _ _ _ conf); [| |done|done].
    - intros x s s'. by apply insert_election_kind_configuration.
    - intros x s Hx Hs. apply insert_election_wf; [done|]. apply elem_of_store_rumors in Hx as (key & i & Hg).
      destruct (RumorStore.wf_slot _ (wf_elections _ Hwf1) _ _ _ Hg) as [Hk Hi]. cbn in Hk, Hi. subst i.
      rewrite Hk. by eapply He. }
  intros e [Hwe Hce]. eapply Returns_bind.
  { apply (for_each_keeps _ _ _ conf); [| |done|done].
    - intros x s s'. by apply insert_election_kind_configuration.
    - intros x s Hx Hs. apply insert_update_election_wf; [done|]. apply elem_of_store_rumors in Hx as (key & i & Hg).
      destruct (RumorStore.wf_slot _ (wf_updates _ Hwf1) _ _ _ Hg) as [Hk Hi]. cbn in Hk, Hi. subst i.
      rewrite Hk. by eapply Hu. }
  intros f [Hwf Hcf].
  apply (for_each_keeps _ _ _ conf); [|intros; by apply insert_departure_wf|done|done].
  intros x s s' [= <-]. apply insert_departure_configuration.
Qed.
End restore.

(** ** A codec with the law *)

(** Bits of a number, one per byte; every message is numbered by [Countable]. *)
Fixpoint bits (p : positive) : bytes :=
  match p with
  | xH => []
  | xO p => Byte.x00 :: bits p
  | xI p => Byte.x01 :: bits p
  end.
Definition unbits (b : bytes) : positive :=
  foldr (fun b p => match b with Byte.x01 => xI p | _ => xO p end) xH b.

Lemma unbits_bits p : unbits (bits p) = p.
Proof. unfold unbits. induction p as [p IH|p IH|]; cbn [bits foldr]; [by rewrite IH..|done]. Qed.

#[local] Program Instance byte_countable : Countable Byte.byte :=
  inj_countable Strings.Byte.to_N Strings.Byte.of_N _.
Next Obligation. intros b. apply Strings.Byte.of_to_N. Qed.
#[local] Program Instance Member_countable : Countable Member :=
  inj_countable' (fun m => (m_id m, m_incarnation m, m_address m, m_swim_port m, m_gossip_port m, m_persistent m, m_departed m))
    (fun '(a, b, c, d, e, f, g) => mkMember a b c d e f g) _.
Next Obligation. by intros []. Qed.
#[local] Instance Membership_Health_eq_dec : EqDecision Membership_Health.
Proof. solve_decision. Defined.
#[local] Program Instance Membership_Health_countable : Countable Membership_Health :=
  inj_countable (fun h => match h with ALIVE => 1 | SUSPECT => 2 | CONFIRMED => 3 | DEPARTED => 4 end%Z) proto_health_from_i32 _.
Next Obligation. by intros []. Qed.
#[local] Instance Membership_eq_dec : EqDecision Membership.
Proof. solve_decision. Defined.
#[local] Program Instance Membership_countable : Countable Membership :=
  inj_countable' (fun m => (ms_member m, ms_health m)) (fun '(a, b) => mkMembership a b) _.
Next Obligation. by intros []. Qed.
Definition status_number (s : Election_Status) : nat :=
  match s with Running => 0 | NoQuorum => 1 | Finished => 2 end.
Definition status_of_number (n : nat) : Election_Status :=
  match n with 0 => Running | 1 => NoQuorum | _ => Finished end.
#[local] Program Instance Election_Status_countable : Countable Election_Status :=
  inj_countable' status_number status_of_number _.
Next Obligation. by intros []. Qed.
#[local] Program Instance ProtoElection_countable : Countable ProtoElection :=
  inj_countable' (fun e => (el_member_id e, el_service_group e, el_term e, el_suitability e, el_status e, el_votes e))
    (fun '(a, b, c, d, e, f) => mkElection a b c d e f) _.
Next Obligation. by intros []. Qed.
#[local] Program Instance SysInfo_countable : Countable SysInfo :=
  inj_countable' (fun e => (sys_ip e, sys_hostname e, sys_gossip_ip e, sys_gossip_port e, sys_http_gateway_ip e, sys_http_gateway_port e))
    (fun '(a, b, c, d, e, f) => mkSysInfo a b c d e f) _.
Next Obligation. by intros []. Qed.
#[local] Program Instance ProtoService_countable : Countable ProtoService :=
  inj_countable' (fun e => (sv_member_id e, sv_service_group e, sv_incarnation e, sv_initialized e, sv_pkg e, sv_cfg e, sv_sys e))
    (fun '(a, b, c, d, e, f, g) => mkService a b c d e f g) _.
Next Obligation. by intros []. Qed.
#[local] Program Instance ProtoServiceConfig_countable : Countable ProtoServiceConfig :=
  inj_countable' (fun e => (sc_service_group e, sc_incarnation e, sc_encrypted e, sc_config e))
    (fun '(a, b, c, d) => mkServiceConfig a b c d) _.
Next Obligation. by intros []. Qed.
#[local] Program Instance ProtoServiceFile_countable : Countable ProtoServiceFile :=
  inj_countable' (fun e => (sf_service_group e, sf_incarnation e, sf_encrypted e, sf_filename e, sf_body e))
    (fun '(a, b, c, d, e) => mkServiceFile a b c d e) _.
Next Obligation. by intros []. Qed.
#[local] Program Instance ProtoDeparture_countable : Countable ProtoDeparture :=
  inj_countable' dp_member_id mkDeparture _.
Next Obligation. by intros []. Qed.
#[local] Instance Rumor_payload_eq_dec : EqDecision Rumor_payload.
Proof. solve_decision. Defined.
Definition payload_sum (p : Rumor_payload)
  : (Membership + (ProtoService + ProtoServiceConfig)) + (ProtoServiceFile + (ProtoElection + ProtoDeparture)) :=
  match p with
  | PMember m => inl (inl m) | PService s => inl (inr (inl s)) | PServiceConfig c => inl (inr (inr c))
  | PServiceFile f => inr (inl f) | PElection e => inr (inr (inl e)) | PDeparture d => inr (inr (inr d))
  end.
Definition payload_of_sum
  (p : (Membership + (ProtoService + ProtoServiceConfig)) + (ProtoServiceFile + (ProtoElection + ProtoDeparture)))
  : Rumor_payload :=
  match p with
  | inl (inl m) => PMember m | inl (inr (inl s)) => PService s | inl (inr (inr c)) => PServiceConfig c
  | inr (inl f) => PServiceFile f | inr (inr (inl e)) => PElection e | inr (inr (inr d)) => PDeparture d
  end.
#[local] Program Instance Rumor_payload_countable : Countable Rumor_payload :=
  inj_countable' payload_sum payload_of_sum _.
Next Obligation. by intros []. Qed.
#[local] Instance ProtoRumor_eq_dec : EqDecision ProtoRumor.
Proof. solve_decision. Defined.
#[local] Program Instance ProtoRumor_countable : Countable ProtoRumor :=
  inj_countable' (fun r => (ru_type r, ru_tag r, ru_from_id r, ru_payload r)) (fun '(a, b, c, d) => mkRumor a b c d) _.
Next Obligation. by intros []. Qed.

#[local] Program Definition codec_reference : Codec := {|
  encode_membership m := bits (encode m);
  decode_membership b := decode (unbits b);
  encode_rumor r := bits (encode r);
  decode_rumor b := decode (unbits b);
|}.
Next Obligation. intros m. cbn. by rewrite unbits_bits, decode_encode. Qed.
Next Obligation. intros r. cbn. by rewrite unbits_bits, decode_encode. Qed.

(** ** Properties *)

(** C37: Reading back the data file of a server is inserting what it held: for any protobuf codec
    that decodes what it encodes, and a file of fewer than 2^64 bytes, [read_into] of what [write]
    produced succeeds and does to the reading server exactly what inserting the memberships and then
    the service, configuration, file, election, update election and departure rumors one by one
    does; no frame is lost, repeated or misread and the loops end. *)
Theorem dat_file_round_trip `{!RegexEngine} `{!Codec} suitability_lookup o1 o2 now s1 s2 :
  is_u64 (Z.of_nat (length (write o1 s1))) ->
  read_into suitability_lookup o2 now (write o1 s1) s2 =
  s' ← restore suitability_lookup o1 o2 now s1 s2; Return (s', Ok ()).
Proof. apply read_write. Qed.

Lemma dat_file_round_trip_witness :
  let RE := reference_engine in
  let CR := codec_reference in
  read_into (fun _ => 1%Z) id_order 0 (write id_order ex_new) ex_new =
  s' ← restore (fun _ => 1%Z) id_order id_order 0 ex_new ex_new; Return (s', Ok ()).
Proof.
  intros RE CR. apply (dat_file_round_trip (fun _ => 1%Z) id_order id_order 0 ex_new ex_new).
  vm_compute. split; [discriminate|reflexivity].
Defined.

(** The data file keeps the configuration: reading the file of a server into one that holds no
    configuration or file rumors yet neither panics nor fails, and afterwards both servers hold
    the same service configuration and service file rumors. *)
Theorem dat_file_restores_configuration `{!RegexEngine} `{!Codec} suitability_lookup o1 o2 now s1 s2 :
  wf s1 -> wf s2 -> elections_parse s1 ->
  (forall k i, RumorStore.get (Server.service_config_store s2) k i = None) ->
  (forall k i, RumorStore.get (Server.service_file_store s2) k i = None) ->
  is_u64 (Z.of_nat (length (write o1 s1))) ->
  Returns (read_into suitability_lookup o2 now (write o1 s1) s2) (fun '(s', r) =>
    r = Ok () /\ wf s' /\
    RumorStore.store_equiv (Server.service_config_store s') (Server.service_config_store s1) /\
    RumorStore.store_equiv (Server.service_file_store s') (Server.service_file_store s1)).
Proof.
  intros Hwf1 Hwf2 Hp Hc Hf Hu. rewrite read_write by done.
  eapply Returns_bind; [by apply restore_configuration|]. intros s' [Hwf' Hconf]. injection Hconf as Hc' Hf'. cbn. rewrite Hc', Hf'.
  split_and!; [done|done|..]; apply insert_all_rebuilds; try done; by destruct Hwf1, Hwf2.
Qed.

Lemma dat_file_restores_configuration_witness :
  let RE := reference_engine in
  let CR := codec_reference in
  let s1 := Server.insert_service_config (example_config 3 [Byte.x41]) ex_new in
  Returns (read_into (fun _ => 1%Z) id_order 0 (write id_order s1) ex_new) (fun '(s', r) =>
    RumorStore.get (Server.service_config_store s') "svc.grp" "service_config" = Some (example_config 3 [Byte.x41])).
Proof.
  intros RE CR s1. eapply Returns_mono.
  - apply (dat_file_restores_configuration (fun _ => 1%Z) id_order id_order 0 s1 ex_new).
    + apply insert_service_config_wf, ex_new_wf.
    + apply ex_new_wf.
    + split; intros key e; cbn; by intros ?.
    + done.
    + done.
    + vm_compute. split; [discriminate|reflexivity].
  - intros [s' r] (_ & _ & He & _). rewrite He. reflexivity.
Defined.

(** Restoring the data file turns confirmed members into departed ones.  The services of a group
    are inserted into a server that has the healths already, and every insertion of a service it did
    not know marks a confirmed member of the group as departed: a ring in which [b] is confirmed
    dead, read back from its data file, has [b] departed. *)
Theorem restore_departs_confirmed `{!Codec} :
  let RE := reference_engine in
  let s1 := ex_run (ex_join "svc.grp" "a" ++ ex_join "svc.grp" "b" ++ ex_join "svc.grp" "c" ++
                    [EHealth 5 (ex_member "b") Confirmed]) in
  wf s1 /\
  MemberList.health_of_by_id (Server.member_list s1) "b" = Some Confirmed /\
  (is_u64 (Z.of_nat (length (write rev_order s1))) ->
   Returns (read_into (fun _ => 1%Z) id_order 9 (write rev_order s1) ex_new) (fun '(s', r) =>
     r = Ok () /\ MemberList.health_of_by_id (Server.member_list s') "b" = Some Departed)).
Proof.
  intros RE s1. split; [apply ex_run_wf; repeat constructor|]. split; [vm_compute; reflexivity|].
  intros Hu. rewrite read_write by done. clear Hu. vm_compute. split; reflexivity.
Qed.

(** A version 1 file whose body is shorter than eight bytes cannot be read: the reader asks
    for 56 header bytes although a version 1 header has 48, so the file of a server that had
    nothing to store is rejected with an end-of-file error before anything is restored. *)
Theorem version_1_without_body_fails `{!RegexEngine} `{!Codec} suitability_lookup o now header body s :
  length header = 48%nat -> (length body < 8)%nat ->
  read_into suitability_lookup o now ([Byte.x01] ++ header ++ body) s = Return (s, Err UnexpectedEof).
Proof.
  intros Hh Hb. unfold read_into. set (file := [Byte.x01] ++ header ++ body).
  assert (read_exact file 0 1 = Ok ([Byte.x01], 1%nat)) as ->
    by exact (read_exact_at [] [Byte.x01] (header ++ body) 1 eq_refl).
  cbv beta iota zeta. change (read_le [Byte.x01]) with 1%Z.
  assert (header_from_file file 1 1 = Err UnexpectedEof) as ->; [|done].
  unfold header_from_file, read_exact. rewrite decide_False; [done|].
  unfold file. rewrite !length_app, Hh. unfold Header.size_of. cbn. lia.
Qed.

Lemma version_1_without_body_fails_witness :
  let RE := reference_engine in
  let CR := codec_reference in
  read_into (fun _ => 1%Z) id_order 0 ([Byte.x01] ++ replicate 48 Byte.x00 ++ []) ex_new =
  Return (ex_new, Err UnexpectedEof).
Proof.
  intros RE CR. apply (version_1_without_body_fails (fun _ => 1%Z) id_order 0 (replicate 48 Byte.x00) [] ex_new);
    [reflexivity|cbn; lia].
Defined.
