(* ===== verification/Gossip.v ===== *)
(** * Envelopes, timing and expiry

    Models [components/butterfly/src/message/mod.rs] (the wire envelope),
    [server/timing.rs] and the expiry thread of [server/expire.rs].  The symmetric
    encryption of [core::crypto] and the protobuf encoding of the envelope are
    parameters.  Times are milliseconds of the steady clock; [i64] sums and products
    of the timing are kept as integers (the values in use are far below the bound). *)

From S2P Require Import Prelude Regex ServiceGroup Ident Member Messages Rumor Heat Kinds Election Server.
Local Open Scope string_scope.
Local Open Scope list_scope.

(** ** The wire envelope *)
Inductive wire_error (E : Type) := CryptoError (e : E) | WireProtobufError.
Arguments CryptoError {E} e.
Arguments WireProtobufError {E}.

Section wire.
  Context {Key E : Type}.
  Context (encrypt : Key -> bytes -> result E (bytes * bytes)) (decrypt : Key -> bytes -> bytes -> result E bytes).
  Context (encode_wire : Wire -> bytes) (decode_wire : bytes -> option Wire).

Definition generate_wire (payload : bytes) (ring_key : option Key) : result (wire_error E) bytes :=
  match ring_key with
  | Some k =>
      match encrypt k payload with
      | Ok (nonce, encrypted_payload) => Ok (encode_wire (mkWire true nonce encrypted_payload))
      | Err e => Err (CryptoError e)
      end
  | None => Ok (encode_wire (mkWire false [] payload))
  end.

Definition unwrap_wire (payload : bytes) (ring_key : option Key) : result (wire_error E) bytes :=
  match decode_wire payload with
  | None => Err WireProtobufError
  | Some wire =>
      match ring_key with
      | Some k =>
          match decrypt k (wire_nonce wire) (wire_payload wire) with
          | Ok p => Ok p
          | Err e => Err (CryptoError e)
          end
      | None => Ok (wire_payload wire)
      end
  end.
End wire.

(** ** Timing *)
Module Timing.
Definition PING_TIMING_DEFAULT_MS : Z := 1000.
Definition PINGREQ_TIMING_DEFAULT_MS : Z := 2100.
Definition SUSPICION_TIMEOUT_DEFAULT_PROTOCOL_PERIODS : Z := 3.
Definition GOSSIP_PERIOD_DEFAULT_MS : Z := 1000.
Definition DEPARTURE_TIMEOUT_DEFAULT_MS : Z := 259200000.

Record t := new {
  ping_ms : Z;
  pingreq_ms : Z;
  gossip_period_ms : Z;
  suspicion_timeout_protocol_periods : Z;
  departure_timeout_ms : Z;
}.

Definition default_timing : t :=
  new PING_TIMING_DEFAULT_MS PINGREQ_TIMING_DEFAULT_MS GOSSIP_PERIOD_DEFAULT_MS
    SUSPICION_TIMEOUT_DEFAULT_PROTOCOL_PERIODS DEPARTURE_TIMEOUT_DEFAULT_MS.

Definition gossip_timeout (now : Z) (tm : t) : Z := now + gossip_period_ms tm.
Definition protocol_period_ms (tm : t) : Z := ping_ms tm + pingreq_ms tm.
Definition ping_timeout (now : Z) (tm : t) : Z := now + ping_ms tm.
Definition pingreq_timeout (now : Z) (tm : t) : Z := now + pingreq_ms tm.
Definition next_protocol_period (now : Z) (tm : t) : Z := now + (ping_ms tm + pingreq_ms tm).
Definition suspicion_timeout_duration (tm : t) : Z := protocol_period_ms tm * suspicion_timeout_protocol_periods tm.
Definition departure_timeout_duration (tm : t) : Z := departure_timeout_ms tm.
End Timing.

(** ** Expiry of suspects and of confirmed members *)
Module Expire.
Section pass.
  Context (timing : Timing.t) (o : order) (now : Z).
  Implicit Type (s : Server.t).

(** The health and the existence check both closures end with. *)
Definition mark (id : string) (h : Health) (msg : string) (s : Server.t) : outcome Server.t :=
  let s := Server.set_member_list (MemberList.insert_health_by_id now id h (Server.member_list s)).1 s in
  _ ← expect msg (MemberList.members (Server.member_list s) !! id);
  Return s.

(** [with_suspects]: the entries are those of the table when the loop starts. *)
Definition expired (s : Server.t) : list string :=
  fst <$> filter (fun e => (now >= snd e + Timing.suspicion_timeout_duration timing)%Z) (MemberList.suspects o (Server.member_list s)).

Definition expire_one (s : Server.t) (mid : string) : Server.t :=
  let ml := MemberList.expire mid (Server.member_list s) in
  let ml := MemberList.depart_at now mid ml in
  Server.start_hot (RumorKey.new RT_Member mid "") (Server.set_member_list ml s).

Definition expire_suspects (s : Server.t) : outcome Server.t :=
  let l := expired s in
  s ← for_each (fun id => mark id Confirmed "Member does not exist when expiring it") l s;
  Return (foldl expire_one s l).

Definition departed (s : Server.t) : list string :=
  fst <$> filter (fun e => (now >= snd e + Timing.departure_timeout_duration timing)%Z) (MemberList.departures o (Server.member_list s)).

Definition depart_one (s : Server.t) (mid : string) : Server.t :=
  let ml := MemberList.depart_remove mid (Server.member_list s) in
  Server.start_hot (RumorKey.new RT_Member mid "") (Server.set_member_list ml s).

Definition expire_departures (s : Server.t) : outcome Server.t :=
  let l := departed s in
  s ← for_each (fun id => mark id Departed "Member does not exist when departing it") l s;
  Return (foldl depart_one s l).

(** One iteration of the thread. *)
Definition run_once (s : Server.t) : outcome Server.t :=
  s ← expire_suspects s; expire_departures s.
End pass.
End Expire.

(** ** Lemmas on expiry *)
Section expire_lemmas.
  Context (timing : Timing.t) (o : order) (now : Z).
  Implicit Types (ml : MemberList.t) (s : Server.t).

(** Every running timer belongs to a known member. *)
Definition timers_known ml : Prop :=
  forall id, is_Some (MemberList.suspect ml !! id) \/ is_Some (MemberList.depart ml !! id) ->
  is_Some (MemberList.members ml !! id).

(** The two lists of a pass, as predicates on the tables. *)
Definition suspicion_over ml (id : string) : Prop :=
  exists t, MemberList.suspect ml !! id = Some t /\ (now >= t + Timing.suspicion_timeout_duration timing)%Z.
Definition departure_over ml (id : string) : Prop :=
  exists t, MemberList.depart ml !! id = Some t /\ (now >= t + Timing.departure_timeout_duration timing)%Z.

Lemma elem_of_expired s id : id ∈ Expire.expired timing o now s <-> suspicion_over (Server.member_list s) id.
Proof.
  unfold Expire.expired, MemberList.suspects, suspicion_over. rewrite list_elem_of_fmap.
  setoid_rewrite list_elem_of_filter. setoid_rewrite elem_of_permute. split.
  - intros ([i t] & -> & ? & Hin). exists t. split; [by apply elem_of_map_to_list|done].
  - intros (t & Ht & ?). exists (id, t). split_and!; [done|done|by apply elem_of_map_to_list].
Qed.

Lemma elem_of_departed s id : id ∈ Expire.departed timing o now s <-> departure_over (Server.member_list s) id.
Proof.
  unfold Expire.departed, MemberList.departures, departure_over. rewrite list_elem_of_fmap.
  setoid_rewrite list_elem_of_filter. setoid_rewrite elem_of_permute. split.
  - intros ([i t] & -> & ? & Hin). exists t. split; [by apply elem_of_map_to_list|done].
  - intros (t & Ht & ?). exists (id, t). split_and!; [done|done|by apply elem_of_map_to_list].
Qed.

(** What marking a list of known members leaves of the member list. *)
Definition marked (l : list string) (h : Health) ml ml' : Prop :=
  MemberList.members ml' = MemberList.members ml /\ MemberList.suspect ml' = MemberList.suspect ml /\
  MemberList.depart ml' = MemberList.depart ml /\
  forall id, MemberList.health ml' !! id = if decide (id ∈ l) then Some h else MemberList.health ml !! id.

Lemma mark_spec id h msg s :
  h <> Suspect -> is_Some (MemberList.members (Server.member_list s) !! id) ->
  Returns (Expire.mark now id h msg s) (fun s' => marked [id] h (Server.member_list s) (Server.member_list s')).
Proof.
  intros Hh [m Hm]. unfold Expire.mark, MemberList.insert_health_by_id.
  assert (forall i, i ∈ [id] <-> i = id) as Hin by (intros; apply list_elem_of_singleton).
  destruct (decide (MemberList.health (Server.member_list s) !! id = Some h)) as [Heq|Hne].
  - cbn. rewrite Hm. cbn. split_and!; try done. intros i. case_decide as Hi; [|done].
    apply Hin in Hi as ->. done.
  - rewrite (decide_False (P := h = Suspect)) by done. cbn. rewrite Hm. cbn.
    split_and!; try done. intros i. cbn. case_decide as Hi.
    + apply Hin in Hi as ->. by rewrite lookup_insert_eq.
    + rewrite lookup_insert_ne; [done|]. intros <-. apply Hi. by apply Hin.
Qed.

Lemma mark_all_spec l h msg s :
  h <> Suspect -> (forall id, id ∈ l -> is_Some (MemberList.members (Server.member_list s) !! id)) ->
  Returns (for_each (fun id => Expire.mark now id h msg) l s)
    (fun s' => marked l h (Server.member_list s) (Server.member_list s')).
Proof.
  intros Hh. revert s. induction l as [|x l IH]; intros s Hl; cbn [for_each].
  { done. }
  eapply Returns_bind; [apply mark_spec; [done|apply Hl; set_solver]|].
  intros s1 (Hm1 & Hs1 & Hd1 & Hh1). eapply Returns_mono.
  - apply IH. intros id Hid. rewrite Hm1. apply Hl. set_solver.
  - intros s2 (Hm2 & Hs2 & Hd2 & Hh2). split_and!; [congruence|congruence|congruence|].
    intros id. rewrite Hh2, Hh1. destruct (decide (id ∈ l)).
    + rewrite decide_True by set_solver. done.
    + destruct (decide (id ∈ [x])); [rewrite decide_True by set_solver|rewrite decide_False by set_solver]; done.
Qed.

(** The tables after the second loop of each half. *)
Lemma expire_all_spec l s :
  let ml := Server.member_list s in
  let ml' := Server.member_list (foldl (Expire.expire_one now) s l) in
  MemberList.members ml' = MemberList.members ml /\ MemberList.health ml' = MemberList.health ml /\
  (forall id, MemberList.suspect ml' !! id = if decide (id ∈ l) then None else MemberList.suspect ml !! id) /\
  (forall id, MemberList.depart ml' !! id = if decide (id ∈ l) then Some now else MemberList.depart ml !! id).
Proof.
  revert s. induction l as [|x l IH]; intros s ml ml'.
  { done. }
  unfold ml'. cbn [foldl]. destruct (IH (Expire.expire_one now s x)) as (-> & -> & Hs & Hd).
  split_and!; [done|done|..]; intros id; [rewrite Hs|rewrite Hd]; cbn.
  - destruct (decide (id ∈ l)); [rewrite decide_True by set_solver; done|].
    destruct (decide (x = id)) as [<-|Hne].
    + rewrite lookup_delete_eq, decide_True by set_solver. done.
    + rewrite lookup_delete_ne, decide_False by set_solver. done.
  - destruct (decide (id ∈ l)); [rewrite decide_True by set_solver; done|].
    destruct (decide (x = id)) as [<-|Hne].
    + rewrite lookup_insert_eq, decide_True by set_solver. done.
    + rewrite lookup_insert_ne, decide_False by set_solver. done.
Qed.

Lemma depart_all_spec l s :
  let ml := Server.member_list s in
  let ml' := Server.member_list (foldl Expire.depart_one s l) in
  MemberList.members ml' = MemberList.members ml /\ MemberList.health ml' = MemberList.health ml /\
  MemberList.suspect ml' = MemberList.suspect ml /\
  (forall id, MemberList.depart ml' !! id = if decide (id ∈ l) then None else MemberList.depart ml !! id).
Proof.
  revert s. induction l as [|x l IH]; intros s ml ml'.
  { done. }
  unfold ml'. cbn [foldl]. destruct (IH (Expire.depart_one s x)) as (-> & -> & -> & Hd).
  split_and!; [done|done|done|]. intros id. rewrite Hd. cbn.
  destruct (decide (id ∈ l)); [rewrite decide_True by set_solver; done|].
  destruct (decide (x = id)) as [<-|Hne].
  + rewrite lookup_delete_eq, decide_True by set_solver. done.
  + rewrite lookup_delete_ne, decide_False by set_solver. done.
Qed.

#[global] Instance suspicion_over_dec ml id : Decision (suspicion_over ml id).
Proof.
  unfold suspicion_over. destruct (MemberList.suspect ml !! id) as [t|].
  - destruct (decide (now >= t + Timing.suspicion_timeout_duration timing)%Z); [left; by exists t|right].
    by intros (? & [= <-] & ?).
  - right. by intros (? & ? & ?).
Defined.

#[global] Instance departure_over_dec ml id : Decision (departure_over ml id).
Proof.
  unfold departure_over. destruct (MemberList.depart ml !! id) as [t|].
  - destruct (decide (now >= t + Timing.departure_timeout_duration timing)%Z); [left; by exists t|right].
    by intros (? & [= <-] & ?).
  - right. by intros (? & ? & ?).
Defined.

Lemma expire_suspects_spec s :
  timers_known (Server.member_list s) ->
  Returns (Expire.expire_suspects timing o now s) (fun s' =>
    let ml := Server.member_list s in
    let ml' := Server.member_list s' in
    MemberList.members ml' = MemberList.members ml /\
    (forall id, MemberList.health ml' !! id = if decide (suspicion_over ml id) then Some Confirmed else MemberList.health ml !! id) /\
    (forall id, MemberList.suspect ml' !! id = if decide (suspicion_over ml id) then None else MemberList.suspect ml !! id) /\
    (forall id, MemberList.depart ml' !! id = if decide (suspicion_over ml id) then Some now else MemberList.depart ml !! id)).
Proof.
  intros Hk. unfold Expire.expire_suspects. set (l := Expire.expired timing o now s).
  assert (forall id, id ∈ l <-> suspicion_over (Server.member_list s) id) as Hl by apply elem_of_expired.
  eapply Returns_bind.
  { apply mark_all_spec; [done|]. intros id (t & Ht & _)%Hl. apply Hk. left. by eexists. }
  intros s1 (Hm & Hs & Hd & Hh). destruct (expire_all_spec l s1) as (Hm2 & Hh2 & Hs2 & Hd2). cbn.
  split_and!; [congruence|..]; intros id; [rewrite Hh2, Hh|rewrite Hs2, Hs|rewrite Hd2, Hd];
    apply decide_ext; apply Hl.
Qed.

Lemma expire_departures_spec s :
  timers_known (Server.member_list s) ->
  Returns (Expire.expire_departures timing o now s) (fun s' =>
    let ml := Server.member_list s in
    let ml' := Server.member_list s' in
    MemberList.members ml' = MemberList.members ml /\ MemberList.suspect ml' = MemberList.suspect ml /\
    (forall id, MemberList.health ml' !! id = if decide (departure_over ml id) then Some Departed else MemberList.health ml !! id) /\
    (forall id, MemberList.depart ml' !! id = if decide (departure_over ml id) then None else MemberList.depart ml !! id)).
Proof.
  intros Hk. unfold Expire.expire_departures. set (l := Expire.departed timing o now s).
  assert (forall id, id ∈ l <-> departure_over (Server.member_list s) id) as Hl by apply elem_of_departed.
  eapply Returns_bind.
  { apply mark_all_spec; [done|]. intros id (t & Ht & _)%Hl. apply Hk. right. by eexists. }
  intros s1 (Hm & Hs & Hd & Hh). destruct (depart_all_spec l s1) as (Hm2 & Hh2 & Hs2 & Hd2). cbn.
  split_and!; [congruence|congruence|..]; intros id; [rewrite Hh2, Hh|rewrite Hd2, Hd];
    apply decide_ext; apply Hl.
Qed.
End expire_lemmas.

(** One pass of the expiry thread. *)
Lemma run_once_spec timing o now s :
  timers_known (Server.member_list s) -> (0 < Timing.departure_timeout_duration timing)%Z ->
  Returns (Expire.run_once timing o now s) (fun s' =>
    let ml := Server.member_list s in
    let ml' := Server.member_list s' in
    MemberList.members ml' = MemberList.members ml /\
    (forall id, MemberList.health ml' !! id =
       if decide (suspicion_over timing now ml id) then Some Confirmed
       else if decide (departure_over timing now ml id) then Some Departed else MemberList.health ml !! id) /\
    (forall id, MemberList.suspect ml' !! id =
       if decide (suspicion_over timing now ml id) then None else MemberList.suspect ml !! id) /\
    (forall id, MemberList.depart ml' !! id =
       if decide (suspicion_over timing now ml id) then Some now
       else if decide (departure_over timing now ml id) then None else MemberList.depart ml !! id)).
Proof.
  intros Hk Hpos. unfold Expire.run_once. eapply Returns_bind; [by apply expire_suspects_spec|].
  intros s1 (Hm1 & Hh1 & Hs1 & Hd1). cbn in *.
  assert (timers_known (Server.member_list s1)) as Hk1.
  { intros id. rewrite Hm1, Hs1, Hd1. case_decide as Hc; [|apply Hk].
    intros _. destruct Hc as (t & Ht & _). apply Hk. left. by eexists. }
  assert (forall id, departure_over timing now (Server.member_list s1) id <->
    ~ suspicion_over timing now (Server.member_list s) id /\ departure_over timing now (Server.member_list s) id) as Hov.
  { intros id. unfold departure_over. rewrite Hd1. case_decide as Hc.
    - split; [|by intros [? _]]. intros (t & [= <-] & ?). lia.
    - naive_solver. }
  eapply Returns_mono; [by apply expire_departures_spec|]. intros s2 (Hm2 & Hs2 & Hh2 & Hd2). cbn in *.
  split_and!; [congruence| |by intros; rewrite Hs2|].
  - intros id. rewrite Hh2, Hh1. destruct (decide (departure_over _ _ (Server.member_list s1) id)) as [Hd|Hd];
      rewrite Hov in Hd; repeat case_decide; naive_solver.
  - intros id. rewrite Hd2, Hd1. destruct (decide (departure_over _ _ (Server.member_list s1) id)) as [Hd|Hd];
      rewrite Hov in Hd; repeat case_decide; naive_solver.
Qed.

(** A member that comes back keeps its timers. *)
Lemma recovery_keeps_timers now m ml inc0 h0 :
  MemberList.wf ml -> MemberList.view ml (m_id m) = Some (inc0, h0) -> (inc0 < m_incarnation m)%Z ->
  Returns (MemberList.insert now m Alive ml) (fun '(ml', _) =>
    MemberList.view ml' (m_id m) = Some (m_incarnation m, Alive) /\
    MemberList.suspect ml' = MemberList.suspect ml /\ MemberList.depart ml' = MemberList.depart ml /\
    forall id, is_Some (MemberList.members ml !! id) -> is_Some (MemberList.members ml' !! id)).
Proof.
  intros Hwf Hv Hlt. unfold MemberList.view in Hv.
  destruct (MemberList.members ml !! m_id m) as [cur|] eqn:Hm; [|done]. cbn in Hv.
  destruct (MemberList.health ml !! m_id m) as [ch|] eqn:Hh; [|done]. cbn in Hv. injection Hv as <- <-.
  assert (MemberList.decide_insert m Alive ml = Return (MemberList.Decide true false false false)) as Hd.
  { unfold MemberList.decide_insert. rewrite Hm, decide_False, decide_True by lia. done. }
  eapply Returns_intro; [by apply MemberList.insert_unfold|]. cbn [MemberList.share_rumor]. split_and!; try done.
  - rewrite MemberList.shared_view, decide_True; done.
  - intros id Hid. cbn. rewrite lookup_insert_is_Some. destruct (decide (m_id m = id)); auto.
Qed.

(** ** Properties *)

(** Envelopes are opened by the key that sealed them: with a protobuf codec and a cipher that
    invert what they produce, [unwrap_wire] returns the payload given to [generate_wire] when
    both sides use the same ring key, or none. *)
Theorem wire_round_trip {Key E} (encrypt : Key -> bytes -> result E (bytes * bytes))
    (decrypt : Key -> bytes -> bytes -> result E bytes) (encode_wire : Wire -> bytes) (decode_wire : bytes -> option Wire)
    (key : option Key) payload b :
  (forall w, decode_wire (encode_wire w) = Some w) ->
  (forall k p n c, encrypt k p = Ok (n, c) -> decrypt k n c = Ok p) ->
  generate_wire encrypt encode_wire payload key = Ok b ->
  unwrap_wire decrypt decode_wire b key = Ok payload.
Proof.
  intros Hw Hc. unfold generate_wire, unwrap_wire. destruct key as [k|].
  - destruct (encrypt k payload) as [[n c]|] eqn:He; [|done]. intros [= <-]. rewrite Hw. cbn.
    by rewrite (Hc _ _ _ _ He).
  - intros [= <-]. by rewrite Hw.
Qed.

(** A codec with the law: the flag, the length of the nonce in unary, the nonce, the payload. *)
Definition simple_encode_wire (w : Wire) : bytes :=
  (if wire_encrypted w then Byte.x01 else Byte.x00) ::
  map (fun _ => Byte.x01) (wire_nonce w) ++ Byte.x00 :: wire_nonce w ++ wire_payload w.
Fixpoint count_ones (n : nat) (b : bytes) : nat * bytes :=
  match b with
  | Byte.x01 :: b => count_ones (S n) b
  | _ :: b => (n, b)
  | [] => (n, [])
  end.
Definition simple_decode_wire (b : bytes) : option Wire :=
  match b with
  | f :: b => let '(n, b) := count_ones 0 b in
              Some (mkWire (match f with Byte.x01 => true | _ => false end) (take n b) (drop n b))
  | [] => None
  end.

Lemma count_ones_map n (l rest : bytes) :
  count_ones n (map (fun _ => Byte.x01) l ++ Byte.x00 :: rest) = ((n + length l)%nat, rest).
Proof.
  revert n. induction l as [|x l IH]; intros n; cbn; [by rewrite Nat.add_0_r|]. rewrite IH. f_equal. lia.
Qed.

Lemma simple_wire_law w : simple_decode_wire (simple_encode_wire w) = Some w.
Proof.
  destruct w as [e n p]. unfold simple_decode_wire, simple_encode_wire. cbn [wire_encrypted wire_nonce wire_payload].
  rewrite count_ones_map. cbn [Nat.add]. rewrite take_app_length, drop_app_length. by destruct e.
Qed.

Lemma wire_round_trip_witness :
  let encrypt := fun (k : Byte.byte) (p : bytes) => Ok ([k], k :: p) : result unit (bytes * bytes) in
  let decrypt := fun (k : Byte.byte) (n c : bytes) => Ok (tail c) : result unit bytes in
  unwrap_wire decrypt simple_decode_wire (simple_encode_wire (mkWire true [Byte.x07] [Byte.x07; Byte.x05]))
    (Some Byte.x07) = Ok [Byte.x05].
Proof.
  intros encrypt decrypt.
  apply (wire_round_trip encrypt decrypt simple_encode_wire simple_decode_wire (Some Byte.x07) [Byte.x05]);
    [apply simple_wire_law| |reflexivity].
  intros k p n c [= <- <-]. reflexivity.
Defined.

(** A pass of the expiry thread, on a server whose timers belong to known members, does not
    panic and does exactly this, for every member: if its suspicion timer ran out it becomes
    confirmed, the timer is dropped and a departure timer is started; otherwise, if its departure
    timer ran out, it becomes departed and that timer is dropped; otherwise nothing changes. *)
Theorem expire_pass_spec timing o now s :
  timers_known (Server.member_list s) -> (0 < Timing.departure_timeout_duration timing)%Z ->
  Returns (Expire.run_once timing o now s) (fun s' =>
    let ml := Server.member_list s in
    let ml' := Server.member_list s' in
    MemberList.members ml' = MemberList.members ml /\
    (forall id, MemberList.health ml' !! id =
       if decide (suspicion_over timing now ml id) then Some Confirmed
       else if decide (departure_over timing now ml id) then Some Departed else MemberList.health ml !! id) /\
    (forall id, MemberList.suspect ml' !! id =
       if decide (suspicion_over timing now ml id) then None else MemberList.suspect ml !! id) /\
    (forall id, MemberList.depart ml' !! id =
       if decide (suspicion_over timing now ml id) then Some now
       else if decide (departure_over timing now ml id) then None else MemberList.depart ml !! id)).
Proof. apply run_once_spec. Qed.

(** Recovery does not stop the timers.  A member that was suspected or confirmed and is heard of
    as alive with a higher incarnation is believed alive, but its suspicion and departure timers
    keep running: once the suspicion timer is over the expiry thread confirms the member as dead,
    and once the departure timer is over it departs it. *)
Theorem timers_outlive_recovery timing now1 m s inc0 h0 :
  MemberList.wf (Server.member_list s) -> timers_known (Server.member_list s) ->
  (0 < Timing.departure_timeout_duration timing)%Z ->
  MemberList.view (Server.member_list s) (m_id m) = Some (inc0, h0) -> (inc0 < m_incarnation m)%Z ->
  Returns (Server.insert_member now1 m Alive s) (fun s1 =>
    MemberList.view (Server.member_list s1) (m_id m) = Some (m_incarnation m, Alive) /\
    forall o now2, Returns (Expire.run_once timing o now2 s1) (fun s2 =>
      (suspicion_over timing now2 (Server.member_list s) (m_id m) ->
       MemberList.health_of_by_id (Server.member_list s2) (m_id m) = Some Confirmed) /\
      (MemberList.suspect (Server.member_list s) !! m_id m = None ->
       departure_over timing now2 (Server.member_list s) (m_id m) ->
       MemberList.health_of_by_id (Server.member_list s2) (m_id m) = Some Departed))).
Proof.
  intros Hwf Hk Hpos Hv Hlt. unfold Server.insert_member.
  eapply Returns_bind; [by eapply recovery_keeps_timers|]. intros [ml b] (Hv' & Hs & Hd & Hm).
  assert (forall rk s', Server.member_list (if b then Server.start_hot rk s' else s') = Server.member_list s') as Hif
    by (by destruct b).
  cbn [Returns]. rewrite Hif. cbn [Server.member_list Server.set_member_list]. split; [done|]. intros o now2.
  eapply Returns_mono; [apply run_once_spec; [|done]|].
  - rewrite Hif. cbn. intros id. rewrite Hs, Hd. intros Hid. by apply Hm, Hk.
  - intros s2 (_ & Hh & _). rewrite Hif in Hh. cbn in Hh.
    assert (suspicion_over timing now2 ml (m_id m) <-> suspicion_over timing now2 (Server.member_list s) (m_id m)) as E1
      by (unfold suspicion_over; by rewrite Hs).
    assert (departure_over timing now2 ml (m_id m) <-> departure_over timing now2 (Server.member_list s) (m_id m)) as E2
      by (unfold departure_over; by rewrite Hd).
    unfold MemberList.health_of_by_id. rewrite Hh. split.
    + intros Hover. by rewrite decide_True by (by apply E1).
    + intros Hn Hover. rewrite decide_False, decide_True; [done|by apply E2|].
      rewrite E1. intros (? & ? & ?). congruence.
Qed.

(** A member suspected since time 0. *)
Definition ex_suspected : Server.t :=
  let m := mkMember "b" 0 "10.0.0.2" 9638 9638 false false in
  Server.set_member_list (MemberList.mk {["b" := m]} {["b" := Suspect]} {["b" := 0%Z]} ∅ [] 1)
    (Server.mk "a" "a" (default_member "a") MemberList.new RumorHeat.default_heat
      RumorStore.default_store RumorStore.default_store RumorStore.default_store
      RumorStore.default_store RumorStore.default_store RumorStore.default_store false false false 0 0 ∅).

Lemma ex_suspected_known : timers_known (Server.member_list ex_suspected).
Proof.
  intros id. cbn. intros [[t Ht]|[t Ht]]; [|by rewrite lookup_empty in Ht].
  apply lookup_singleton_Some in Ht as [<- _]. by eexists.
Qed.

Lemma ex_suspected_wf : MemberList.wf (Server.member_list ex_suspected).
Proof.
  split; cbn; [| | |by vm_compute].
  - intros id m Hm. by apply lookup_singleton_Some in Hm as [<- <-].
  - intros id [m Hm]. apply lookup_singleton_Some in Hm as [<- _]. by eexists.
  - intros id [m Hm]. apply lookup_singleton_Some in Hm as [<- _]. by eexists.
Qed.

Lemma expire_pass_spec_witness :
  Returns (Expire.run_once Timing.default_timing rev_order 10000 ex_suspected) (fun s' =>
    MemberList.health (Server.member_list s') !! "b" = Some Confirmed).
Proof.
  eapply Returns_mono; [apply (expire_pass_spec Timing.default_timing rev_order 10000 ex_suspected);
    [apply ex_suspected_known|reflexivity]|].
  intros s' (_ & Hh & _). rewrite Hh. vm_compute. reflexivity.
Defined.

Lemma timers_outlive_recovery_witness :
  let m := mkMember "b" 1 "10.0.0.2" 9638 9638 false false in
  Returns (Server.insert_member 5 m Alive ex_suspected) (fun s1 =>
    MemberList.view (Server.member_list s1) "b" = Some (1%Z, Alive) /\
    Returns (Expire.run_once Timing.default_timing id_order 10000 s1) (fun s2 =>
      MemberList.health_of_by_id (Server.member_list s2) "b" = Some Confirmed)).
Proof.
  intros m. eapply Returns_mono.
  - apply (timers_outlive_recovery Timing.default_timing 5 m ex_suspected 0 Suspect);
      [apply ex_suspected_wf|apply ex_suspected_known|reflexivity|reflexivity|reflexivity].
  - intros s1 [Hv Hx]. split; [done|]. eapply Returns_mono; [apply (Hx id_order 10000%Z)|].
    intros s2 [Hc _]. apply Hc. exists 0%Z. split; [reflexivity|]. by vm_compute.
Defined.
