(* ===== verification/Swim.v ===== *)
(** * The SWIM failure detector

    Models [components/butterfly/src/server/outbound.rs] and [inbound.rs], and
    [Server::set_departed].  An operation returns the new server and the messages it
    put on the socket.  Parsing and printing socket addresses are parameters, and so is
    [packet], the protobuf encoding of a message followed by [generate_wire] ([None] when
    either fails, in which case nothing is sent).  The acks that arrive while a probe
    waits are given as lists, in the order of arrival. *)

From stdpp Require Import pretty.
From S2P Require Import Prelude Regex ServiceGroup Ident Member Messages Rumor Heat Kinds Election Server ServerProofs.
Local Open Scope string_scope.
Local Open Scope list_scope.

(** ** Outbound messages *)

(** A message on the socket. *)
Record Sent (Addr : Type) := mkSent { sent_to : Addr; sent_swim : Swim; sent_payload : bytes }.
Arguments mkSent {Addr} _ _ _.
Arguments sent_to {Addr} _.
Arguments sent_swim {Addr} _.
Arguments sent_payload {Addr} _.

(** The membership rumors a message to [target] carries, and the cooling of their heat. *)
Definition hot_member_rumors (o : order) (s : Server.t) (target : Member) : list RumorKey.t :=
  take 5 (filter (fun r => RumorKey.kind r = RT_Member)
            (RumorHeat.currently_hot_rumors o (m_id target) (Server.rumor_heat s))).

Definition populate_membership_rumors (o : order) (s : Server.t) (target : Member) : Server.t * list Membership :=
  let ml := Server.member_list s in
  let always :=
    if MemberList.contains_member ml (m_id target)
    then option_list (MemberList.membership_for ml (m_id target)) else [] in
  let rumors := hot_member_rumors o s target in
  let entries := always ++ omap (fun rk => MemberList.membership_for ml (RumorKey.to_key rk)) rumors in
  let s := if negb (MemberList.persistent_and_confirmed ml target)
           then Server.set_rumor_heat (RumorHeat.cool_rumors (m_id target) rumors (Server.rumor_heat s)) s
           else s in
  (s, entries).

Section swim.
  Context {Addr : Type} (parse_addr : string -> option Addr) (ip_of : Addr -> string).
  Context (packet : Swim -> option bytes).

Definition socket_address_string (address : string) (port : Z) : string := address +:+ ":" +:+ pretty port.

Definition swim_socket_address (m : Member) : outcome Addr :=
  expect "Cannot parse member address" (parse_addr (socket_address_string (m_address m) (m_swim_port m))).

(** [write_to_bytes], [generate_wire] and [send_to]. *)
Definition send_to (addr : Addr) (swim : Swim) : list (Sent Addr) :=
  match packet swim with Some payload => [mkSent addr swim payload] | None => [] end.

Definition pingreq (o : order) (s : Server.t) (pingreq_target target : Member) : outcome (Server.t * list (Sent Addr)) :=
  addr ← swim_socket_address pingreq_target;
  let req := mkPingReq (Server.member s) target in
  let '(s, entries) := populate_membership_rumors o s target in
  Return (s, send_to addr (mkSwim PINGREQ (Some (SPingReq req)) entries)).

Definition ping (o : order) (s : Server.t) (target : Member) (addr : Addr) (forward_to : option Member)
  : Server.t * list (Sent Addr) :=
  let p := mkPing (Server.member s) forward_to in
  let '(s, entries) := populate_membership_rumors o s target in
  (s, send_to addr (mkSwim PING (Some (SPing p)) entries)).

Definition forward_ack (addr : Addr) (swim : Swim) : list (Sent Addr) := send_to addr swim.

Definition ack (o : order) (s : Server.t) (target : Member) (addr : Addr) (forward_to : option Member)
  : Server.t * list (Sent Addr) :=
  let a := mkAck (Server.member s) forward_to in
  let '(s, entries) := populate_membership_rumors o s target in
  (s, send_to addr (mkSwim ACK (Some (SAck a)) entries)).

(** ** Probing *)

(** The member an ack names, with the address it came from unless it was forwarded. *)
Definition ack_member (real_addr : Addr) (swim : Swim) : Member :=
  let a := get_ack swim in
  match ack_forward_to a with
  | Some _ => ack_from a
  | None => set_address (ip_of real_addr) (ack_from a)
  end.

(** Alive, unless the sender says it has departed. *)
Definition reported_health (m : Member) : Health := if m_departed m then Departed else Alive.

(** The acks [recv_ack] takes from the channel until the one it waits for; the result is
    false when the timeout comes first.  What is left in the channel is returned too. *)
Fixpoint recv_ack (now : Z) (member : Member) (acks : list (Addr * Swim)) (s : Server.t)
  : outcome (Server.t * list (Addr * Swim) * bool) :=
  match acks with
  | [] => Return (s, [], false)
  | (real_addr, swim) :: acks =>
      let m := ack_member real_addr swim in
      s ← Server.insert_member now m (reported_health m) s;
      if decide (m_id member <> m_id m) then recv_ack now member acks s
      else Return (s, acks, true)
  end.

(** The PingReqs of a probe. *)
Definition pingreq_all (o : order) (s : Server.t) (member : Member) : outcome (Server.t * list (Sent Addr)) :=
  for_each (fun target acc =>
      r ← pingreq o (fst (acc : Server.t * list (Sent Addr))) target member;
      Return (fst (r : Server.t * list (Sent Addr)), snd acc ++ snd r))
    (MemberList.pingreq_targets o (Server.member_list s) (Server.member_id s) (m_id member)) (s, []).

(** [probe]: ping, wait, ask others to ping, wait, suspect.  [acks1] and [acks2] are the acks
    that arrive during the two waits. *)
Definition probe (o : order) (now : Z) (member : Member) (acks1 acks2 : list (Addr * Swim)) (s : Server.t)
  : outcome (Server.t * list (Sent Addr)) :=
  addr ← swim_socket_address member;
  let '(s, sent1) := ping o s member addr None in
  r ← recv_ack now member acks1 s;
  let '(s, _, got) := (r : Server.t * list (Addr * Swim) * bool) in
  if got : bool then Return (s, sent1)
  else
    r ← pingreq_all o s member;
    let '(s, sent2) := (r : Server.t * list (Sent Addr)) in
    r ← recv_ack now member acks2 s;
    let '(s, _, got) := (r : Server.t * list (Addr * Swim) * bool) in
    if got : bool then Return (s, sent1 ++ sent2)
    else
      s ← Server.insert_member now member Suspect s;
      Return (s, sent1 ++ sent2).

(** The start of an iteration of the outbound thread: until more than half of the initial
    members are known, the initial members are pinged. *)
Definition ping_initial_members (o : order) (have_members : bool) (s : Server.t)
  : outcome (Server.t * bool * list (Sent Addr)) :=
  let ml := Server.member_list s in
  let num_initial := MemberList.len_initial_members ml in
  if have_members then Return (s, true, [])
  else if decide (num_initial = 0%nat) then Return (s, false, [])
  else if decide (num_initial / 2 + 1 <= MemberList.len ml)%nat then Return (s, true, [])
  else
    r ← for_each (fun m acc =>
          addr ← swim_socket_address m;
          let '(s, sent) := ping o (fst (acc : Server.t * list (Sent Addr))) m addr None in
          Return (s, snd acc ++ sent))
        (MemberList.initial_members ml) (s, []);
    let '(s, sent) := (r : Server.t * list (Sent Addr)) in
    Return (s, false, sent).

(** The members a round of the outbound thread may probe, checked when their turn comes. *)
Definition round_members (o : order) (s : Server.t) : list Member :=
  MemberList.check_list o (Server.member_list s) (m_id (Server.member s)).

(** ** Inbound messages *)
Definition received_members (msg : Swim) : list (Member * Health) :=
  (fun m => (ms_member m, health_from_proto (ms_health m))) <$> swim_membership msg.

Definition process_pingreq (o : order) (addr : Addr) (msg : Swim) (s : Server.t) : outcome (Server.t * list (Sent Addr)) :=
  match MemberList.members (Server.member_list s) !! m_id (pingreq_target (get_pingreq msg)) with
  | None => Return (s, [])
  | Some target =>
      let from := set_address (ip_of addr) (pingreq_from (get_pingreq msg)) in
      taddr ← swim_socket_address target;
      Return (ping o s target taddr (Some from))
  end.

(** What [process_ack] does: forward the ack, or hand it to the outbound thread and take the rumors in. *)
Definition process_ack (now : Z) (addr : Addr) (msg : Swim) (s : Server.t)
  : outcome (Server.t * list (Sent Addr) * option (Addr * Swim)) :=
  let a := get_ack msg in
  let deliver :=
    let passed := mkSwim (swim_type msg) (swim_payload msg) [] in
    s ← Server.insert_member_from_rumors now (received_members msg) s;
    Return (s, [], Some (addr, passed)) in
  match ack_forward_to a with
  | Some fwd =>
      if negb (String.eqb (Server.member_id s) (m_id fwd)) then
        match parse_addr (socket_address_string (m_address fwd) (m_swim_port fwd)) with
        | None => Return (s, [], None)
        | Some forward_to_addr =>
            let a := mkAck (set_address (ip_of addr) (ack_from a)) (ack_forward_to a) in
            Return (s, forward_ack forward_to_addr (mkSwim (swim_type msg) (Some (SAck a)) (swim_membership msg)), None)
        end
      else deliver
  | None => deliver
  end.

Definition process_ping (o : order) (now : Z) (addr : Addr) (msg : Swim) (s : Server.t) : outcome (Server.t * list (Sent Addr)) :=
  let p := get_ping msg in
  let '(s, sent) := ack o s (ping_from p) addr (ping_forward_to p) in
  let from := set_address (ip_of addr) (ping_from p) in
  s ← Server.insert_member now from (reported_health from) s;
  s ← Server.insert_member_from_rumors now (received_members msg) s;
  Return (s, sent).

(** The dispatch of the inbound thread on a message that was decoded. *)
Definition receive (o : order) (now : Z) (addr : Addr) (msg : Swim) (s : Server.t)
  : outcome (Server.t * list (Sent Addr) * option (Addr * Swim)) :=
  match swim_type msg with
  | PING =>
      if Server.check_blacklist s (m_id (ping_from (get_ping msg))) then Return (s, [], None)
      else
        r ← process_ping o now addr msg s;
        Return (fst (r : Server.t * list (Sent Addr)), snd r, None)
  | ACK =>
      if Server.check_blacklist s (m_id (ack_from (get_ack msg))) && bool_decide (ack_forward_to (get_ack msg) = None)
      then Return (s, [], None)
      else process_ack now addr msg s
  | PINGREQ =>
      if Server.check_blacklist s (m_id (pingreq_from (get_pingreq msg))) then Return (s, [], None)
      else
        r ← process_pingreq o addr msg s;
        Return (fst (r : Server.t * list (Sent Addr)), snd r, None)
  end.

(** ** Leaving: [Server::set_departed] *)
Definition set_departed (o : order) (now : Z) (s : Server.t) : outcome (Server.t * list (Sent Addr)) :=
  if Server.socket s then
    let m := set_member_departed true
               (set_incarnation (u64_add (m_incarnation (Server.member s)) 1) (Server.member s)) in
    let s := Server.set_member m s in
    let s := Server.set_member_list (MemberList.insert_health_by_id now (m_id m) Departed (Server.member_list s)).1 s in
    for_each (fun target acc =>
        addr ← swim_socket_address target;
        let '(s, sent) := ack o (fst (acc : Server.t * list (Sent Addr))) target addr None in
        Return (s, snd acc ++ sent))
      (take 10 (MemberList.check_list o (Server.member_list s) (m_id m))) (s, [])
  else Return (s, []).
End swim.

(** ** Lemmas *)
Lemma populate_frame o s target :
  let s' := (populate_membership_rumors o s target).1 in
  Server.member_list s' = Server.member_list s /\ Server.member s' = Server.member s /\
  Server.member_id s' = Server.member_id s.
Proof. unfold populate_membership_rumors. by destruct (negb _). Qed.

Lemma populate_wf o s target : wf s -> wf (populate_membership_rumors o s target).1.
Proof. unfold populate_membership_rumors. destruct (negb _); [|done]. by intros []. Qed.

(** Populating a message changes the counts of the target only. *)
Lemma populate_heat_other o s target rk id :
  id <> m_id target ->
  RumorHeat.heat_of (Server.rumor_heat (populate_membership_rumors o s target).1) rk id =
  RumorHeat.heat_of (Server.rumor_heat s) rk id.
Proof.
  intros Hne. unfold populate_membership_rumors. destruct (negb _); [|done]. cbn [fst Server.rumor_heat Server.set_rumor_heat].
  rewrite RumorHeat.cool_rumors_foldl. apply RumorHeat.heat_of_cool_not_in. naive_solver.
Qed.

Lemma populate_heat_target o s target rk n :
  MemberList.persistent_and_confirmed (Server.member_list s) target = false ->
  rk ∈ hot_member_rumors o s target ->
  RumorHeat.heat_of (Server.rumor_heat s) rk (m_id target) = Some n -> (0 <= n)%Z ->
  RumorHeat.heat_of (Server.rumor_heat (populate_membership_rumors o s target).1) rk (m_id target) = Some (n + 1)%Z.
Proof.
  intros Hpc Hin Hn H0. unfold populate_membership_rumors. rewrite Hpc. cbn [fst negb Server.rumor_heat Server.set_rumor_heat].
  assert (rk ∈ RumorHeat.currently_hot_rumors o (m_id target) (Server.rumor_heat s)) as Hhot.
  { unfold hot_member_rumors in Hin. apply (sublist_subseteq _ _ (sublist_take _ 5)) in Hin.
    by apply list_elem_of_filter in Hin as [_ ?]. }
  apply RumorHeat.elem_of_hot in Hhot as (n' & Hn' & Hlt). assert (n' = n) as -> by congruence.
  apply RumorHeat.heat_of_cool_rumors; [|done|done|lia].
  unfold hot_member_rumors. eapply sublist_NoDup; [|apply sublist_take].
  apply NoDup_filter, RumorHeat.NoDup_hot.
Qed.

Section swim_lemmas.
  Context {Addr : Type} (parse_addr : string -> option Addr) (ip_of : Addr -> string).
  Context (packet : Swim -> option bytes).
  (** Addresses are set from sockets, and parse. *)
  Hypothesis addresses_parse : forall a p, is_Some (parse_addr (socket_address_string a p)).

Lemma swim_socket_address_total m : exists a, swim_socket_address parse_addr m = Return a.
Proof.
  unfold swim_socket_address. destruct (addresses_parse (m_address m) (m_swim_port m)) as [a ->]. by exists a.
Qed.

Lemma ping_frame o s target (addr : Addr) fwd :
  Server.member_list (ping packet o s target addr fwd).1 = Server.member_list s /\
  (wf s -> wf (ping packet o s target addr fwd).1).
Proof.
  unfold ping. pose proof (populate_frame o s target) as (Hm & _). pose proof (populate_wf o s target) as Hw.
  by destruct (populate_membership_rumors o s target).
Qed.

Lemma ack_frame o s target (addr : Addr) fwd :
  Server.member_list (ack packet o s target addr fwd).1 = Server.member_list s /\
  (wf s -> wf (ack packet o s target addr fwd).1).
Proof.
  unfold ack. pose proof (populate_frame o s target) as (Hm & _). pose proof (populate_wf o s target) as Hw.
  by destruct (populate_membership_rumors o s target).
Qed.

Lemma pingreq_frame o s pt target :
  Returns (pingreq parse_addr packet o s pt target) (fun '(s', _) =>
    Server.member_list s' = Server.member_list s /\ (wf s -> wf s')).
Proof.
  unfold pingreq. destruct (swim_socket_address_total pt) as [a ->]. cbn [mbind outcome_bind].
  pose proof (populate_frame o s target) as (Hm & _). pose proof (populate_wf o s target) as Hw.
  by destruct (populate_membership_rumors o s target).
Qed.

Lemma pingreq_all_frame o s member :
  Returns (pingreq_all parse_addr packet o s member) (fun '(s', _) =>
    Server.member_list s' = Server.member_list s /\ (wf s -> wf s')).
Proof.
  unfold pingreq_all.
  eapply Returns_mono.
  - apply (for_each_inv (fun acc => Server.member_list acc.1 = Server.member_list s /\ (wf s -> wf acc.1))); [done|].
    intros t [s1 sent] _ [Hm Hw]. cbn [fst snd] in *. eapply Returns_bind; [apply pingreq_frame|].
    intros [s2 sent2] [Hm2 Hw2]. cbn. split; [congruence|auto].
  - by intros [s' sent].
Qed.

End swim_lemmas.

(** [insert_member] on the view, and on the invariant. *)
Lemma insert_member_view now m h s :
  wf s -> Returns (Server.insert_member now m h s) (fun s' => wf s' /\
    forall id, MemberList.view (Server.member_list s') id =
      MemberList.join_at id (MemberList.view (Server.member_list s) id) (now, m, h)).
Proof.
  intros Hwf. pose proof (insert_member_wf now m h s Hwf) as Hw. unfold Server.insert_member in *.
  pose proof (MemberList.insert_step now m h _ (wf_member_list _ Hwf)) as Hs.
  destruct (MemberList.insert now m h (Server.member_list s)) as [[ml b]|]; [|done].
  cbn [mbind outcome_bind Returns] in *. destruct Hs as (_ & Hv & _). split; [done|]. by destruct b.
Qed.

Section recv.
  Context {Addr : Type} (ip_of : Addr -> string).

(** Acks from other members do not answer a probe, and change what is believed of others only. *)
Lemma recv_ack_others now member acks s :
  wf s -> (forall a, a ∈ acks -> m_id (ack_member ip_of a.1 a.2) <> m_id member) ->
  Returns (recv_ack ip_of now member acks s) (fun '(s', rest, got) => wf s' /\ got = false /\
    MemberList.view (Server.member_list s') (m_id member) = MemberList.view (Server.member_list s) (m_id member)).
Proof.
  revert s. induction acks as [|[addr swim] acks IH]; intros s Hwf Hne; cbn [recv_ack]; [done|].
  assert (m_id (ack_member ip_of addr swim) <> m_id member) as Hn by (apply (Hne (addr, swim)); set_solver).
  eapply Returns_bind; [by apply insert_member_view|]. intros s1 [Hwf1 Hv1].
  rewrite decide_True by done. eapply Returns_mono; [apply IH; [done|set_solver]|].
  intros [[s2 rest] got] (? & ? & ->). split_and!; [done|done|]. rewrite Hv1. unfold MemberList.join_at.
  by rewrite decide_False.
Qed.

(** The ack that is waited for ends the wait. *)
Lemma recv_ack_found now member before addr swim after s :
  wf s -> (forall a, a ∈ before -> m_id (ack_member ip_of a.1 a.2) <> m_id member) ->
  let m := ack_member ip_of addr swim in
  m_id m = m_id member ->
  Returns (recv_ack ip_of now member (before ++ (addr, swim) :: after) s) (fun '(s', rest, got) => wf s' /\ got = true /\
    MemberList.view (Server.member_list s') (m_id member) =
      Some (MemberList.join (MemberList.view (Server.member_list s) (m_id member)) (m_incarnation m, reported_health m))).
Proof.
  intros Hwf Hne m Hm. revert s Hwf. induction before as [|[addr' swim'] before IH]; intros s Hwf; cbn [app recv_ack].
  - eapply Returns_bind; [by apply insert_member_view|]. intros s1 [Hwf1 Hv1].
    rewrite decide_False by (fold m; congruence). cbn. split_and!; [done|done|].
    rewrite Hv1. unfold MemberList.join_at. fold m. by rewrite decide_True.
  - assert (m_id (ack_member ip_of addr' swim') <> m_id member) as Hn by (apply (Hne (addr', swim')); set_solver).
    eapply Returns_bind; [by apply insert_member_view|]. intros s1 [Hwf1 Hv1].
    rewrite decide_True by done. eapply Returns_mono; [apply IH; [set_solver|done]|].
    intros [[s2 rest] got] (? & ? & ->). split_and!; [done|done|]. rewrite Hv1. unfold MemberList.join_at.
    by rewrite decide_False.
Qed.
End recv.

(** ** Properties *)

(** A probe suspects exactly the members that do not answer.  When no ack from the probed member
    arrives in either wait, the member is afterwards believed suspect at the incarnation that was
    probed, unless something newer was already believed; when its ack arrives in the first wait,
    whatever arrives before or after it, the belief about it is updated with what the ack says
    (alive, or departed) and it is not suspected.  Nothing panics as long as addresses parse. *)
Theorem probe_spec {Addr} (parse_addr : string -> option Addr) ip_of packet o now member acks1 acks2 s :
  (forall a p, is_Some (parse_addr (socket_address_string a p))) -> wf s ->
  let id := m_id member in
  let belief s := MemberList.view (Server.member_list s) id in
  ((forall a, a ∈ acks1 ++ acks2 -> m_id (ack_member ip_of a.1 a.2) <> id) ->
   Returns (probe parse_addr ip_of packet o now member acks1 acks2 s) (fun '(s', _) => wf s' /\
     belief s' = Some (MemberList.join (belief s) (m_incarnation member, Suspect)))) /\
  (forall before addr swim after, acks1 = before ++ (addr, swim) :: after ->
   (forall a, a ∈ before -> m_id (ack_member ip_of a.1 a.2) <> id) ->
   let m := ack_member ip_of addr swim in
   m_id m = id ->
   Returns (probe parse_addr ip_of packet o now member acks1 acks2 s) (fun '(s', _) => wf s' /\
     belief s' = Some (MemberList.join (belief s) (m_incarnation m, reported_health m)))).
Proof.
  intros Hparse Hwf id belief.
  assert (exists a, swim_socket_address parse_addr member = Return a) as [a Ha] by by apply swim_socket_address_total.
  destruct (ping_frame packet o s member a None) as [Hm1 Hw1]. specialize (Hw1 Hwf).
  split.
  - intros Hne. unfold probe. rewrite Ha. cbn [mbind outcome_bind].
    destruct (ping packet o s member a None) as [s1 sent1]. cbn [fst] in *.
    eapply Returns_bind; [eapply recv_ack_others; [done|]; intros x Hx; apply Hne; set_solver|].
    intros [[s2 rest] got] (Hwf2 & -> & Hv2). cbv beta iota zeta.
    eapply Returns_bind; [by apply (pingreq_all_frame parse_addr packet Hparse)|]. intros [s3 sent2] [Hm3 Hw3]. cbv beta iota zeta.
    eapply Returns_bind; [eapply recv_ack_others; [by apply Hw3|]; intros x Hx; apply Hne; set_solver|].
    intros [[s4 rest'] got] (Hwf4 & -> & Hv4). cbv beta iota zeta.
    eapply Returns_bind; [by apply insert_member_view|]. intros s5 [Hwf5 Hv5]. cbn.
    split; [done|]. unfold belief. rewrite Hv5. unfold MemberList.join_at. rewrite decide_True by done.
    unfold id. by rewrite Hv4, Hm3, Hv2, Hm1.
  - intros before addr swim after -> Hne m Hm. unfold probe. rewrite Ha. cbn [mbind outcome_bind].
    destruct (ping packet o s member a None) as [s1 sent1]. cbn [fst] in *.
    eapply Returns_bind; [by apply recv_ack_found|].
    intros [[s2 rest] got] (Hwf2 & -> & Hv2). cbn. split; [done|]. unfold belief, id. by rewrite Hv2, Hm1.
Qed.

Lemma probe_spec_witness :
  let s := ex_run ex_events in
  Returns (probe (fun a => Some a) (fun a => a) (fun _ => Some []) id_order 7 (ex_member "b") [] [] s)
    (fun '(s', _) => MemberList.view (Server.member_list s') "b" = Some (0%Z, Suspect)).
Proof.
  intros s. assert (wf s) as Hwf by (apply ex_run_wf; repeat constructor).
  destruct (probe_spec (fun a => Some a) (fun a => a) (fun _ => Some []) id_order 7 (ex_member "b") [] [] s) as [H _];
    [by eexists|done|].
  eapply Returns_mono; [apply H; intros x Hx; by apply not_elem_of_nil in Hx|].
  intros [s' sent] [_ Hv]. cbn [m_id ex_member] in Hv. rewrite Hv. vm_compute. reflexivity.
Defined.

(** Every message the inbound thread accepts is handled without panicking and leaves the server's
    invariant intact, a message from a blacklisted sender (other than a forwarded ack) changes
    nothing and is not answered, and an ack to be forwarded to another member leaves the server
    unchanged and is passed on with the address it was received from. *)
Theorem receive_safe {Addr} (parse_addr : string -> option Addr) ip_of packet o now addr msg s :
  (forall a p, is_Some (parse_addr (socket_address_string a p))) -> wf s ->
  Returns (receive parse_addr ip_of packet o now addr msg s) (fun '(s', sent, to_outbound) =>
    wf s' /\
    (swim_type msg = PING -> Server.check_blacklist s (m_id (ping_from (get_ping msg))) = true ->
     s' = s /\ sent = [] /\ to_outbound = None) /\
    (forall fwd, swim_type msg = ACK -> ack_forward_to (get_ack msg) = Some fwd -> m_id fwd <> Server.member_id s ->
     s' = s /\ to_outbound = None /\ forall x, x ∈ sent ->
       get_ack (sent_swim x) = mkAck (set_address (ip_of addr) (ack_from (get_ack msg))) (Some fwd))).
Proof.
  intros Hparse Hwf. unfold receive. destruct (swim_type msg) eqn:Hty.
  - destruct (Server.check_blacklist s _) eqn:Hbl; [done|].
    eapply (Returns_bind _ _ (fun r => wf (fst (r : Server.t * list (Sent Addr))))); [|by intros [s' sent]].
    unfold process_ping. destruct (ack_frame packet o s (ping_from (get_ping msg)) addr (ping_forward_to (get_ping msg))) as [_ Hw].
    destruct (ack packet o s _ addr _) as [s1 sent]. cbn [fst] in Hw.
    eapply Returns_bind; [by apply insert_member_wf, Hw|]. intros s2 Hwf2.
    eapply Returns_bind; [|by intros s3 ?; exact H].
    apply (for_each_inv wf); [done|]. intros [m h] s' _ ?. by apply insert_member_from_rumor_wf.
  - assert (Returns (s' ← Server.insert_member_from_rumors now (received_members msg) s;
              Return (s', [] : list (Sent Addr), Some (addr, mkSwim (swim_type msg) (swim_payload msg) [])))
              (fun '(s', _, _) => wf s')) as Hdeliver.
    { eapply Returns_bind; [|by intros s' ?; exact H].
      apply (for_each_inv wf); [done|]. intros [m h] s' _ ?. by apply insert_member_from_rumor_wf. }
    destruct (_ && _) eqn:Hbl.
    { apply andb_true_iff in Hbl as [_ Hbl]. apply bool_decide_eq_true in Hbl. cbn. split_and!; [done|done|]. congruence. }
    unfold process_ack. destruct (ack_forward_to (get_ack msg)) as [fwd|] eqn:Hf.
    + destruct (String.eqb_spec (Server.member_id s) (m_id fwd)) as [Heq|Hne]; cbn [negb].
      * eapply Returns_mono; [exact Hdeliver|]. intros [[s' sent] out] ?. split_and!; [done|done|].
        intros fwd' _ [= <-]. congruence.
      * destruct (Hparse (m_address fwd) (m_swim_port fwd)) as [fa ->]. cbn. split_and!; [done|done|].
        intros fwd' _ [= <-] _. split_and!; [done|done|]. intros x. unfold forward_ack, send_to.
        destruct (packet _); [|by intros ?%not_elem_of_nil]. intros ->%list_elem_of_singleton. cbn. done.
    + eapply Returns_mono; [exact Hdeliver|]. by intros [[s' sent] out] ?.
  - destruct (Server.check_blacklist s _) eqn:Hbl; [done|].
    eapply (Returns_bind _ _ (fun r => wf (fst (r : Server.t * list (Sent Addr))))); [|by intros [s' sent]].
    unfold process_pingreq. destruct (MemberList.members _ !! _) as [target|]; [|done].
    assert (exists a, swim_socket_address parse_addr target = Return a) as [a ->] by by apply swim_socket_address_total.
    cbn [mbind outcome_bind Returns]. by apply ping_frame.
Qed.

Lemma receive_safe_witness :
  let s := ex_run ex_events in
  let msg := mkSwim PING (Some (SPing (mkPing (ex_member "b") None))) [mkMembership (ex_member "a") CONFIRMED] in
  Returns (receive (fun a => Some a) (fun a => a) (fun _ => Some []) id_order 7 "10.0.0.2" msg s)
    (fun '(s', sent, _) => wf s').
Proof.
  intros s msg. assert (wf s) as Hwf by (apply ex_run_wf; repeat constructor).
  eapply Returns_mono; [apply (receive_safe (fun a => Some a) (fun a => a) (fun _ => Some []) id_order 7 "10.0.0.2" msg s);
    [by eexists|done]|].
  by intros [[s' sent] out] [? _].
Defined.

(** A PingReq cools the wrong rumors: the message goes to the member asked to ping, but the
    rumors it carries are chosen and cooled for the unresponsive target; the counts of the
    member that gets them do not move, and those of the target, which gets nothing, do. *)
Theorem pingreq_cools_the_target {Addr} (parse_addr : string -> option Addr) packet o s helper target :
  (forall a p, is_Some (parse_addr (socket_address_string a p))) -> m_id helper <> m_id target ->
  Returns (pingreq parse_addr packet o s helper target) (fun '(s', sent) =>
    (forall rk, RumorHeat.heat_of (Server.rumor_heat s') rk (m_id helper) = RumorHeat.heat_of (Server.rumor_heat s) rk (m_id helper)) /\
    (forall rk n, MemberList.persistent_and_confirmed (Server.member_list s) target = false ->
       rk ∈ hot_member_rumors o s target ->
       RumorHeat.heat_of (Server.rumor_heat s) rk (m_id target) = Some n -> (0 <= n)%Z ->
       RumorHeat.heat_of (Server.rumor_heat s') rk (m_id target) = Some (n + 1)%Z) /\
    forall x, x ∈ sent -> parse_addr (socket_address_string (m_address helper) (m_swim_port helper)) = Some (sent_to x)).
Proof.
  intros Hparse Hne. unfold pingreq, swim_socket_address.
  destruct (Hparse (m_address helper) (m_swim_port helper)) as [a Ha]. rewrite Ha. cbn [mbind outcome_bind expect].
  pose proof (populate_heat_other o s target) as Hother. pose proof (populate_heat_target o s target) as Htarget.
  destruct (populate_membership_rumors o s target) as [s' entries]. cbn [fst Returns] in *. split_and!.
  - intros rk. by apply Hother.
  - intros rk n. apply Htarget.
  - intros x. unfold send_to. destruct (packet _); [|by intros ?%not_elem_of_nil].
    by intros ->%list_elem_of_singleton.
Qed.

Lemma pingreq_cools_the_target_witness :
  let s := ex_run ex_events in
  let rk := RumorKey.new RT_Member "a" "" in
  Returns (pingreq (fun a => Some a) (fun _ => Some []) id_order s (ex_member "c") (ex_member "b")) (fun '(s', _) =>
    RumorHeat.heat_of (Server.rumor_heat s') rk "c" = Some 0%Z /\
    RumorHeat.heat_of (Server.rumor_heat s') rk "b" = Some 1%Z).
Proof.
  intros s rk.
  eapply Returns_mono; [apply (pingreq_cools_the_target (fun a => Some a) (fun _ => Some []) id_order s (ex_member "c") (ex_member "b"));
    [by eexists|done]|].
  intros [s' sent] (Hc & Hb & _). cbn [m_id ex_member] in *. split.
  - rewrite Hc. vm_compute. reflexivity.
  - apply (Hb rk 0%Z); [vm_compute; reflexivity| |vm_compute; reflexivity|done].
    apply (bool_decide_unpack _). vm_compute. exact I.
Defined.
