(* ===== verification/Push.v ===== *)
(** * Gossiping rumors

    Models [components/butterfly/src/server/push.rs] (which rumors are sent to whom, and
    their cooling) and the dispatch of [pull.rs].  The ZeroMQ sockets, the protobuf
    encoding and the envelope are parameters: whether the connection to a member
    succeeds, and which rumors can be encoded.  The worker threads of a fanout handle
    different members, whose counts are separate, so they are run one after the other. *)

From S2P Require Import Prelude Regex ServiceGroup Ident Member Messages Rumor Heat Kinds Election Server ServerProofs.
Local Open Scope string_scope.
Local Open Scope list_scope.

Definition FANOUT : nat := 5.

(** [FANOUT]-sized chunks, as [drain(0..drain_length)] takes them. *)
Fixpoint chunks {A} (fuel : nat) (l : list A) : list (list A) :=
  match fuel with
  | O => []
  | S fuel =>
      if decide (length l = 0%nat) then []
      else
        let drain_length := if decide (FANOUT <= length l)%nat then FANOUT else length l in
        take drain_length l :: chunks fuel (drop drain_length l)
  end.

(** Given a rumor key, the rumor about the member it names. *)
Definition create_member_rumor (s : Server.t) (rk : RumorKey.t) : outcome (option ProtoRumor) :=
  match MemberList.members (Server.member_list s) !! RumorKey.to_key rk with
  | None => Return None
  | Some m =>
      h ← expect "called `Option::unwrap()` on a `None` value"
            (MemberList.health_of_by_id (Server.member_list s) (RumorKey.to_key rk));
      Return (Some (mkRumor RT_Member [] (Server.member_id s) (Some (PMember (mkMembership m (health_to_proto h))))))
  end.

(** The rumor a key stands for; [None] when it is not there any more. *)
Definition rumor_for (s : Server.t) (rk : RumorKey.t) : outcome (option ProtoRumor) :=
  let k := RumorKey.key rk in
  let i := RumorKey.id rk in
  match RumorKey.kind rk with
  | RT_Member => create_member_rumor s rk
  | RT_Service => Return (Service.proto <$> RumorStore.get (Server.service_store s) k i)
  | RT_ServiceConfig => Return (ServiceConfig.proto <$> RumorStore.get (Server.service_config_store s) k i)
  | RT_ServiceFile => Return (ServiceFile.proto <$> RumorStore.get (Server.service_file_store s) k i)
  | RT_Departure => Return (Departure.proto <$> RumorStore.get (Server.departure_store s) k i)
  | RT_Election => Return (Election.proto <$> RumorStore.get (Server.election_store s) k i)
  | RT_ElectionUpdate =>
      Return ((Election.proto ∘ ElectionUpdate.inner) <$> RumorStore.get (Server.update_store s) k i)
  | RT_Fake | RT_Fake2 => Return None
  end.

Section push.
  Context (sendable : ProtoRumor -> bool) (connects : Member -> bool).

(** The rumors put on the socket, in order. *)
Definition messages (s : Server.t) (rumors : list RumorKey.t) : outcome (list ProtoRumor) :=
  for_each (fun rk acc =>
      r ← rumor_for s rk;
      Return (acc ++ filter (fun p => sendable p = true) (option_list r)))
    rumors [].

Definition send_rumors (member : Member) (rumors : list RumorKey.t) (s : Server.t)
  : outcome (Server.t * list ProtoRumor) :=
  if connects member then
    sent ← messages s rumors;
    Return (Server.set_rumor_heat (RumorHeat.cool_rumors (m_id member) rumors (Server.rumor_heat s)) s, sent)
  else Return (s, []).

(** The body of the fanout loop for one member. *)
Definition push_to (o : order) (member : Member) (s : Server.t) : outcome (Server.t * list ProtoRumor) :=
  if Server.check_blacklist s (m_id member) then Return (s, [])
  else if MemberList.pingable (Server.member_list s) member &&
          negb (MemberList.persistent_and_confirmed (Server.member_list s) member) then
    let rumors := RumorHeat.currently_hot_rumors o (m_id member) (Server.rumor_heat s) in
    if decide (0 < length rumors)%nat then send_rumors member rumors s else Return (s, [])
  else Return (s, []).

(** One iteration of the push thread: every other member, a chunk at a time. *)
Definition push_round (o : order) (s : Server.t) : outcome (Server.t * list (Member * list ProtoRumor)) :=
  let s := Server.update_gossip_round s in
  let check_list := MemberList.check_list o (Server.member_list s) (Server.member_id s) in
  for_each (fun chunk acc =>
      for_each (fun m acc =>
          r ← push_to o m (fst (acc : Server.t * list (Member * list ProtoRumor)));
          Return (fst (r : Server.t * list ProtoRumor), snd acc ++ [(m, snd r)])) chunk acc)
    (chunks (length check_list) check_list) (s, []).
End push.

(** ** Pull *)
Section pull.
  Context `{!RegexEngine} (suitability_lookup : ServiceGroup.t -> Z).

(** The dispatch on a rumor that was decoded. *)
Definition receive_rumor (o : order) (now : Z) (proto : ProtoRumor) (s : Server.t) : outcome Server.t :=
  if Server.check_blacklist s (ru_from_id proto) then Return s
  else
    match ru_type proto with
    | RT_Member =>
        let m := get_member proto in
        Server.insert_member_from_rumor now (ms_member m) (health_from_proto (ms_health m)) s
    | RT_Service => Return (Server.insert_service o now (Service.mk proto) s)
    | RT_ServiceConfig => Return (Server.insert_service_config (ServiceConfig.mk proto) s)
    | RT_ServiceFile => Return (Server.insert_service_file (ServiceFile.mk proto) s)
    | RT_Election => Server.insert_election suitability_lookup o (Election.mk proto) s
    | RT_ElectionUpdate => Server.insert_update_election o (ElectionUpdate.from_proto proto) s
    | RT_Departure => Return (Server.insert_departure now (Departure.mk proto) s)
    | RT_Fake | RT_Fake2 => Return s
    end.
End pull.

(** ** Lemmas *)
Lemma insert_member_from_rumor_frame now m h s s' :
  Server.insert_member_from_rumor now m h s = Return s' ->
  configuration s' = configuration s /\ Server.blacklist s' = Server.blacklist s.
Proof.
  unfold Server.insert_member_from_rumor. set (refute := _ && _).
  destruct (MemberList.insert _ _ _ _) as [[ml b]|]; [|done]. cbn. intros [= <-].
  by destruct b, refute.
Qed.

(** The blacklist is the owner's: no rumor changes it. *)
Lemma insert_health_departed_blacklist now id s :
  Server.blacklist (Server.insert_health_departed now id s) = Server.blacklist s.
Proof. unfold Server.insert_health_departed. by destruct (MemberList.insert_health_by_id _ _ _ _) as [ml []]. Qed.

Lemma insert_service_blacklist o now sv s : Server.blacklist (Server.insert_service o now sv s) = Server.blacklist s.
Proof.
  unfold Server.insert_service. set (s1 := if negb _ then _ else s).
  assert (Server.blacklist s1 = Server.blacklist s) as <-.
  { unfold s1. destruct (negb _); [|done]. apply (foldl_inv (fun x => Server.blacklist x = Server.blacklist s)); [done|].
    intros x r _ Hx. by rewrite insert_health_departed_blacklist. }
  by destruct (RumorStore.insert sv _) as [st []].
Qed.

Lemma insert_departure_blacklist now d s : Server.blacklist (Server.insert_departure now d s) = Server.blacklist s.
Proof.
  unfold Server.insert_departure. set (s0 := if String.eqb _ _ then _ else s).
  assert (Server.blacklist s0 = Server.blacklist s) as <- by (unfold s0; by destruct (String.eqb _ _)).
  rewrite <- (insert_health_departed_blacklist now (Departure.member_id d) s0).
  by destruct (RumorStore.insert d _) as [st []].
Qed.

Lemma insert_election_kind_blacklist `{!RegexEngine} k o e s s' :
  (forall st s, Server.blacklist (Server.ek_set_store k st s) = Server.blacklist s) ->
  (forall sg term s, Server.blacklist (Server.ek_start k o sg term s) = Server.blacklist s) ->
  Server.insert_election_kind k o e s = Return s' -> Server.blacklist s' = Server.blacklist s.
Proof.
  intros Hset Hstart.
  assert (forall rk x s, Server.blacklist (Server.store_election k rk x s) = Server.blacklist s) as Hst.
  { intros rk x s0. unfold Server.store_election. destruct (RumorStore.insert _ _) as [st []]; cbn; apply Hset. }
  unfold Server.insert_election_kind.
  destruct (RumorStore.contains_rumor (Server.service_store s) _ _); [|intros [= <-]; apply Hst].
  destruct (RumorStore.contains_rumor (Server.ek_store k s) _ _).
  - destruct (expect _ _) as [ce|]; [|done]. cbn [mbind outcome_bind].
    destruct (bool_decide _); [destruct (ServiceGroup.from_str _)|]; intros [= <-];
      rewrite ?Hst, ?Hstart, ?Hset; done.
  - destruct (ServiceGroup.from_str _); intros [= <-]; rewrite ?Hst, ?Hstart; done.
Qed.

(** The configuration store of [s'] is at least as recent as that of [s]. *)
Definition at_least_as_recent (s s' : Server.t) : Prop :=
  forall k i r, RumorStore.get (Server.service_config_store s) k i = Some r ->
  exists r', RumorStore.get (Server.service_config_store s') k i = Some r' /\
    (ServiceConfig.incarnation r <= ServiceConfig.incarnation r')%Z.

#[global] Instance at_least_as_recent_preorder : PreOrder at_least_as_recent.
Proof.
  split.
  - intros s k i r Hr. by exists r.
  - intros s1 s2 s3 H12 H23 k i r Hr. destruct (H12 _ _ _ Hr) as (r2 & Hr2 & ?).
    destruct (H23 _ _ _ Hr2) as (r3 & Hr3 & ?). exists r3. split; [done|lia].
Qed.

Lemma same_configuration_recent s s' : configuration s' = configuration s -> at_least_as_recent s s'.
Proof. intros [= Hc _] k i r Hr. exists r. by rewrite Hc. Qed.

(** Inserting a configuration brings the store to at least its incarnation. *)
Lemma insert_service_config_recent c s :
  wf s ->
  at_least_as_recent s (Server.insert_service_config c s) /\
  exists r', RumorStore.get (Server.service_config_store (Server.insert_service_config c s))
               (rumor_key c) (rumor_id c) = Some r' /\
    (ServiceConfig.incarnation c <= ServiceConfig.incarnation r')%Z.
Proof.
  intros Hwf. assert (Server.service_config_store (Server.insert_service_config c s) =
    (RumorStore.insert c (Server.service_config_store s)).1) as Hst.
  { unfold Server.insert_service_config. by destruct (RumorStore.insert c _) as [st []]. }
  destruct (RumorStore.slot_after_version (RumorStore.get (Server.service_config_store s) (rumor_key c) (rumor_id c)) c)
    as (_ & Hc & Hold).
  { intros old Hold. by apply (RumorStore.wf_slot _ (wf_configs _ Hwf)). }
  split.
  - intros k i r Hr. rewrite Hst, RumorStore.get_insert. case_decide as Hd; [|by exists r].
    destruct Hd as [<- <-]. eexists. split; [done|]. by apply Hold.
  - rewrite Hst, RumorStore.get_insert, decide_True by done. eexists. split; [done|]. exact Hc.
Qed.

Section transfer.
  Context `{!RegexEngine} (suitability_lookup : ServiceGroup.t -> Z).

(** Rumors of elections name groups that parse. *)
Definition well_formed_rumor (p : ProtoRumor) : Prop :=
  match ru_type p with
  | RT_Election | RT_ElectionUpdate => parses (el_service_group (get_election p))
  | _ => True
  end.

Lemma receive_rumor_wf o now p s :
  wf s -> well_formed_rumor p -> Returns (receive_rumor suitability_lookup o now p s) wf.
Proof.
  intros Hwf Hp. unfold receive_rumor, well_formed_rumor in *. destruct (Server.check_blacklist _ _); [done|].
  destruct (ru_type p); cbn.
  - by apply insert_member_from_rumor_wf.
  - by apply insert_service_wf.
  - by apply insert_election_wf.
  - by apply insert_service_config_wf.
  - by apply insert_service_file_wf.
  - done.
  - done.
  - apply insert_update_election_wf; [done|]. by destruct p.
  - by apply insert_departure_wf.
Qed.

Lemma receive_rumor_frame o now p s s' :
  wf s -> receive_rumor suitability_lookup o now p s = Return s' ->
  at_least_as_recent s s' /\ Server.blacklist s' = Server.blacklist s.
Proof.
  intros Hwf. unfold receive_rumor. destruct (Server.check_blacklist _ _); [by intros [= <-]|].
  destruct (ru_type p).
  - intros Hr. apply insert_member_from_rumor_frame in Hr as [? ?]. split; [by apply same_configuration_recent|done].
  - intros [= <-]. split; [apply same_configuration_recent, insert_service_configuration|apply insert_service_blacklist].
  - intros Hr. split; [apply same_configuration_recent|]; revert Hr;
      [by apply insert_election_kind_configuration|by apply insert_election_kind_blacklist].
  - intros [= <-]. split; [by apply insert_service_config_recent|].
    unfold Server.insert_service_config. by destruct (RumorStore.insert _ _) as [st []].
  - intros [= <-]. unfold Server.insert_service_file. destruct (RumorStore.insert _ _) as [st []];
      (split; [by apply same_configuration_recent|done]) || idtac.
    all: split; [|done]; intros k i r Hr; by exists r.
  - by intros [= <-].
  - by intros [= <-].
  - intros Hr. split; [apply same_configuration_recent|]; revert Hr;
      [by apply insert_election_kind_configuration|by apply insert_election_kind_blacklist].
  - intros [= <-]. split; [apply same_configuration_recent, insert_departure_configuration|apply insert_departure_blacklist].
Qed.

(** Receiving a list of rumors that contains a configuration. *)
Lemma receive_all_config o now ps s c :
  wf s -> Forall well_formed_rumor ps -> Server.blacklist s = ∅ ->
  ServiceConfig.proto c ∈ ps -> ru_type (ServiceConfig.proto c) = RT_ServiceConfig ->
  Returns (for_each (receive_rumor suitability_lookup o now) ps s) (fun s' => wf s' /\ at_least_as_recent s s' /\
    exists r', RumorStore.get (Server.service_config_store s') (rumor_key c) (rumor_id c) = Some r' /\
      (ServiceConfig.incarnation c <= ServiceConfig.incarnation r')%Z).
Proof.
  intros Hwf Hps Hbl Hin Hty.
  assert (forall ps s, wf s -> Forall well_formed_rumor ps -> Server.blacklist s = ∅ ->
    Returns (for_each (receive_rumor suitability_lookup o now) ps s) (fun s' => wf s' /\ at_least_as_recent s s')) as Hmono.
  { clear. intros ps. induction ps as [|p ps IH]; intros s Hwf Hps Hbl; [done|]. cbn.
    apply Forall_cons in Hps as [Hp Hps]. pose proof (receive_rumor_wf o now p s Hwf Hp) as Hw.
    destruct (receive_rumor suitability_lookup o now p s) as [s1|] eqn:Hr; [|done]. cbn in *.
    apply receive_rumor_frame in Hr as [Hrec Hbl1]; [|done].
    eapply Returns_mono; [apply IH; [done|done|congruence]|]. intros s2 [? ?]. split; [done|]. by etrans. }
  revert s Hwf Hbl. induction ps as [|p ps IH]; intros s Hwf Hbl; [by apply not_elem_of_nil in Hin|].
  apply Forall_cons in Hps as [Hp Hps]. cbn. pose proof (receive_rumor_wf o now p s Hwf Hp) as Hw.
  destruct (receive_rumor suitability_lookup o now p s) as [s1|] eqn:Hr; [|done]. cbn in Hw |- *.
  pose proof (receive_rumor_frame _ _ _ _ _ Hwf Hr) as [Hrec Hbl1].
  apply elem_of_cons in Hin as [<-|Hin].
  2: { eapply Returns_mono; [apply IH; [done|done|done|congruence]|]. intros s2 (? & ? & ?).
       split; [done|]. split; [by etrans|done]. }
  - unfold receive_rumor in Hr. rewrite Hty in Hr. unfold Server.check_blacklist in Hr.
    rewrite bool_decide_eq_false_2 in Hr by (rewrite Hbl; set_solver). injection Hr as <-.
    replace (ServiceConfig.mk (ServiceConfig.proto c)) with c in * by (by destruct c).
    destruct (insert_service_config_recent c s Hwf) as (_ & r' & Hr' & Hle).
    eapply Returns_mono; [apply Hmono; [done|done|congruence]|]. intros s2 [? Hrec2].
    split; [done|]. split; [by etrans|].
    destruct (Hrec2 _ _ _ Hr') as (r2 & ? & ?). exists r2. split; [done|lia].
Qed.
End transfer.

(** Every rumor a key stands for is among the messages, and nothing else is. *)
Lemma rumor_for_total s rk : wf s -> exists r, rumor_for s rk = Return r.
Proof.
  intros Hwf. unfold rumor_for. destruct (RumorKey.kind rk); try by eexists.
  unfold create_member_rumor, MemberList.health_of_by_id.
  destruct (MemberList.members (Server.member_list s) !! RumorKey.to_key rk) as [m|] eqn:Hm; [|by eexists].
  destruct (MemberList.wf_health _ (wf_member_list _ Hwf) (RumorKey.to_key rk)) as [h Hh]; [by rewrite Hm|].
  rewrite Hh. by eexists.
Qed.

Lemma messages_spec sendable s rumors :
  wf s -> Returns (messages sendable s rumors) (fun sent => forall p,
    p ∈ sent <-> sendable p = true /\ exists rk, rk ∈ rumors /\ rumor_for s rk = Return (Some p)).
Proof.
  intros Hwf. unfold messages.
  assert (forall acc, Returns (for_each (fun rk acc => r ← rumor_for s rk;
      Return (acc ++ filter (fun p => sendable p = true) (option_list r))) rumors acc) (fun sent => forall p,
    p ∈ sent <-> p ∈ acc \/ (sendable p = true /\ exists rk, rk ∈ rumors /\ rumor_for s rk = Return (Some p)))) as Hgen.
  { induction rumors as [|rk rumors IH]; intros acc; cbn [for_each].
    - cbn. intros p. split; [by left|]. intros [?|(_ & rk & Hrk & _)]; [done|by apply not_elem_of_nil in Hrk].
    - destruct (rumor_for_total s rk Hwf) as [r Hr]. rewrite Hr. cbn [mbind outcome_bind].
      eapply Returns_mono; [apply IH|]. cbv beta. intros sent Hsent p. rewrite Hsent, elem_of_app, list_elem_of_filter.
      setoid_rewrite elem_of_cons. destruct r as [q|]; cbn.
      + rewrite list_elem_of_singleton. split.
        * intros [[?|[? ->]]|(? & rk' & ? & ?)]; [by left|right; eauto|right; eauto].
        * intros [?|(? & rk' & [->|?] & Hrk')]; [auto| |right; eauto].
          left. right. split; [done|]. congruence.
      + rewrite elem_of_nil. split.
        * intros [[?|[_ []]]|(? & rk' & ? & ?)]; [by left|right; eauto].
        * intros [?|(? & rk' & [->|?] & Hrk')]; [auto|congruence|right; eauto]. }
  eapply Returns_mono; [apply (Hgen [])|]. cbv beta. intros sent Hsent p. rewrite Hsent, elem_of_nil. naive_solver.
Qed.

(** ** Properties *)

(** C36: A round of gossip brings a peer up to date: when a server pushes its hot rumors to a member and
    that member receives them all, then for every service configuration that was hot for the member it
    afterwards holds the same group's configuration at the same or a later incarnation; neither
    side panics, provided the elections the sender holds name groups that parse. *)
Theorem gossip_transfers_configuration `{!RegexEngine} suitability_lookup sendable connects o1 o2 now m a b r :
  wf a -> wf b -> Server.blacklist b = ∅ ->
  (forall rk p, rumor_for a rk = Return (Some p) -> well_formed_rumor p) ->
  Server.check_blacklist a (m_id m) = false ->
  MemberList.pingable (Server.member_list a) m = true ->
  MemberList.persistent_and_confirmed (Server.member_list a) m = false ->
  connects m = true -> sendable (ServiceConfig.proto r) = true ->
  ru_type (ServiceConfig.proto r) = RT_ServiceConfig ->
  RumorStore.get (Server.service_config_store a) (rumor_key r) (rumor_id r) = Some r ->
  rumor_key_of r ∈ RumorHeat.currently_hot_rumors o1 (m_id m) (Server.rumor_heat a) ->
  Returns (push_to sendable connects o1 m a) (fun '(a', sent) =>
    Returns (for_each (receive_rumor suitability_lookup o2 now) sent b) (fun b' => wf b' /\
      exists r', RumorStore.get (Server.service_config_store b') (rumor_key r) (rumor_id r) = Some r' /\
        (ServiceConfig.incarnation r <= ServiceConfig.incarnation r')%Z)).
Proof.
  intros Hwa Hwb Hbl Hgood Hba Hping Hpc Hcon Hsend Hty Hget Hhot.
  unfold push_to. rewrite Hba, Hping, Hpc. cbn [andb negb]. set (rumors := RumorHeat.currently_hot_rumors _ _ _) in *.
  rewrite decide_True by (destruct rumors; [by apply not_elem_of_nil in Hhot|cbn; lia]).
  unfold send_rumors. rewrite Hcon. eapply Returns_bind; [by apply messages_spec|]. cbv beta. intros sent Hsent. cbn [Returns].
  eapply Returns_mono; [apply (receive_all_config suitability_lookup o2 now sent b r); [done| |done| |done]|].
  - apply Forall_forall. intros p (_ & rk & _ & Hp)%Hsent. by eapply Hgood.
  - apply Hsent. split; [done|]. exists (rumor_key_of r). split; [done|]. cbn.
    change (Return (ServiceConfig.proto <$> RumorStore.get (Server.service_config_store a) (rumor_key r) (rumor_id r)) =
            Return (Some (ServiceConfig.proto r))).
    by rewrite Hget.
  - intros b' (? & _ & ?). done.
Qed.

Lemma gossip_transfers_configuration_witness :
  let RE := reference_engine in
  let a := Server.insert_service_config (example_config 3 [Byte.x41]) (ex_run (ex_join "svc.grp" "b")) in
  Returns (push_to (fun _ => true) (fun _ => true) id_order (ex_member "b") a) (fun '(a', sent) =>
    Returns (for_each (receive_rumor (fun _ => 1%Z) id_order 9) sent ex_new) (fun b' => wf b' /\
      exists r', RumorStore.get (Server.service_config_store b') "svc.grp" "service_config" = Some r' /\
        (3 <= ServiceConfig.incarnation r')%Z)).
Proof.
  intros RE a.
  apply (gossip_transfers_configuration (fun _ => 1%Z) (fun _ => true) (fun _ => true) id_order id_order 9 (ex_member "b")
           a ex_new (example_config 3 [Byte.x41])); try (vm_compute; reflexivity).
  - apply insert_service_config_wf, ex_run_wf. repeat constructor.
  - apply ex_new_wf.
  - intros rk p. unfold rumor_for, well_formed_rumor. destruct (RumorKey.kind rk).
    + unfold create_member_rumor. destruct (MemberList.members _ !! _); [|done]. destruct (expect _ _); [|done].
      cbn. by intros [= <-].
    + unfold RumorStore.get. assert (RumorStore.entries (Server.service_store a) =
        {["svc.grp" := {["b" := ex_service "svc.grp" "b"]}]}) as -> by (vm_compute; reflexivity).
      intros Hp. destruct ({["svc.grp" := {["b" := ex_service "svc.grp" "b"]}]} !! RumorKey.key rk) as [x|] eqn:Hk; [|done].
      apply lookup_singleton_Some in Hk as [_ <-]. cbn in Hp.
      destruct ({["b" := ex_service "svc.grp" "b"]} !! RumorKey.id rk) as [y|] eqn:Hi; [|done].
      apply lookup_singleton_Some in Hi as [_ <-]. cbn in Hp. injection Hp as <-. done.
    + done.
    + unfold RumorStore.get. assert (RumorStore.entries (Server.service_config_store a) =
        {["svc.grp" := {["service_config" := example_config 3 [Byte.x41]]}]}) as -> by (vm_compute; reflexivity).
      intros Hp. destruct ({["svc.grp" := {["service_config" := example_config 3 [Byte.x41]]}]} !! RumorKey.key rk) as [x|] eqn:Hk; [|done].
      apply lookup_singleton_Some in Hk as [_ <-]. cbn in Hp.
      destruct ({["service_config" := example_config 3 [Byte.x41]]} !! RumorKey.id rk) as [y|] eqn:Hi; [|done].
      apply lookup_singleton_Some in Hi as [_ <-]. cbn in Hp. injection Hp as <-. done.
    + done.
    + done.
    + done.
    + done.
    + done.
  - apply (bool_decide_unpack _). vm_compute. exact I.
Defined.
