(* ===== verification/Census.v ===== *)
(** * The census of the Supervisor

    Models [components/sup/src/census.rs]: the picture of the service groups that a
    Supervisor builds from the member list and the rumor stores of its Butterfly server.
    A census group is kept for every service group heard of; its members are ordered by
    id ([BTreeMap]).  TOML and UTF-8 decoding and the decryption of [core::crypto] are
    parameters.  The loops over hash maps take the iteration order as an argument. *)

From S2P Require Import Prelude Regex ServiceGroup Ident Member Messages Rumor Heat Kinds Election Server ServerProofs.
Local Open Scope string_scope.
Local Open Scope list_scope.

(** The entries of a [BTreeMap] keyed by strings, in the order of their keys. *)
Definition btree_iter {V} (m : gmap string V) : list (string * V) :=
  sort_by (fun a b => str_geb b.1 a.1) (map_to_list m).
Definition btree_values {V} (m : gmap string V) : list V := (btree_iter m).*2.

(** The cast [as u32] of an [i32]. *)
Definition as_u32 (z : Z) : Z := z `mod` 2 ^ 32.

(** ** [ElectionStatus] *)
Module ElectionStatus.
Inductive t := None_ | ElectionInProgress | ElectionNoQuorum | ElectionFinished.

#[global] Instance t_eq_dec : EqDecision t.
Proof. solve_decision. Defined.

Definition default : t := None_.

Definition to_string (s : t) : string :=
  match s with
  | ElectionInProgress => "in-progress"
  | ElectionNoQuorum => "no-quorum"
  | ElectionFinished => "finished"
  | None_ => "none"
  end.

Inductive error := BadElectionStatus (value : string).

Definition from_str (value : string) : result error t :=
  let v := to_lowercase value in
  if String.eqb v "in-progress" then Ok ElectionInProgress
  else if String.eqb v "no-quorum" then Ok ElectionNoQuorum
  else if String.eqb v "finished" then Ok ElectionFinished
  else if String.eqb v "none" then Ok None_
  else Err (BadElectionStatus value).

(** [From<Election_Status>]. *)
Definition from (v : Election_Status) : t :=
  match v with
  | Running => ElectionInProgress
  | NoQuorum => ElectionNoQuorum
  | Finished => ElectionFinished
  end.
End ElectionStatus.

(** ** [CensusMember] *)
Module CensusMember.
Record t (Table : Type) := mk {
  member_id : string;
  pkg : option PackageIdent.t;
  application : option string;
  environment : option string;
  service : string;
  group : string;
  org : option string;
  persistent : bool;
  leader : bool;
  follower : bool;
  update_leader : bool;
  update_follower : bool;
  election_is_running : bool;
  election_is_no_quorum : bool;
  election_is_finished : bool;
  update_election_is_running : bool;
  update_election_is_no_quorum : bool;
  update_election_is_finished : bool;
  sys : SysInfo;
  alive : bool;
  suspect : bool;
  confirmed : bool;
  departed : bool;
  cfg : Table;
}.
Arguments mk {Table}.
Arguments member_id {Table}.
Arguments pkg {Table}.
Arguments application {Table}.
Arguments environment {Table}.
Arguments service {Table}.
Arguments group {Table}.
Arguments org {Table}.
Arguments persistent {Table}.
Arguments leader {Table}.
Arguments follower {Table}.
Arguments update_leader {Table}.
Arguments update_follower {Table}.
Arguments election_is_running {Table}.
Arguments election_is_no_quorum {Table}.
Arguments election_is_finished {Table}.
Arguments update_election_is_running {Table}.
Arguments update_election_is_no_quorum {Table}.
Arguments update_election_is_finished {Table}.
Arguments sys {Table}.
Arguments alive {Table}.
Arguments suspect {Table}.
Arguments confirmed {Table}.
Arguments departed {Table}.
Arguments cfg {Table}.

(** A member is updated from five sources, each of which owns some of the fields; these are
    the field updates of each. *)
Section fields.
  Context {Table : Type}.
  Implicit Types cm : t Table.

Definition set_identity (id : string) (p : option PackageIdent.t) (app env : option string)
    (svc grp : string) (o : option string) (si : SysInfo) (c : Table) (cm : t Table) : t Table :=
  mk id p app env svc grp o (persistent cm) (leader cm) (follower cm) (update_leader cm)
    (update_follower cm) (election_is_running cm) (election_is_no_quorum cm)
    (election_is_finished cm) (update_election_is_running cm) (update_election_is_no_quorum cm)
    (update_election_is_finished cm) si (alive cm) (suspect cm) (confirmed cm) (departed cm) c.

Definition set_election (lead foll running no_quorum finished : bool) (cm : t Table) : t Table :=
  mk (member_id cm) (pkg cm) (application cm) (environment cm) (service cm) (group cm) (org cm)
    (persistent cm) lead foll (update_leader cm) (update_follower cm) running no_quorum finished
    (update_election_is_running cm) (update_election_is_no_quorum cm)
    (update_election_is_finished cm) (sys cm) (alive cm) (suspect cm) (confirmed cm) (departed cm)
    (cfg cm).

Definition set_update_election (lead foll running no_quorum finished : bool) (cm : t Table) : t Table :=
  mk (member_id cm) (pkg cm) (application cm) (environment cm) (service cm) (group cm) (org cm)
    (persistent cm) (leader cm) (follower cm) lead foll (election_is_running cm)
    (election_is_no_quorum cm) (election_is_finished cm) running no_quorum finished (sys cm)
    (alive cm) (suspect cm) (confirmed cm) (departed cm) (cfg cm).

Definition set_contact (pers : bool) (si : SysInfo) (cm : t Table) : t Table :=
  mk (member_id cm) (pkg cm) (application cm) (environment cm) (service cm) (group cm) (org cm)
    pers (leader cm) (follower cm) (update_leader cm) (update_follower cm) (election_is_running cm)
    (election_is_no_quorum cm) (election_is_finished cm) (update_election_is_running cm)
    (update_election_is_no_quorum cm) (update_election_is_finished cm) si (alive cm) (suspect cm)
    (confirmed cm) (departed cm) (cfg cm).

Definition set_health (al su co de : bool) (cm : t Table) : t Table :=
  mk (member_id cm) (pkg cm) (application cm) (environment cm) (service cm) (group cm) (org cm)
    (persistent cm) (leader cm) (follower cm) (update_leader cm) (update_follower cm)
    (election_is_running cm) (election_is_no_quorum cm) (election_is_finished cm)
    (update_election_is_running cm) (update_election_is_no_quorum cm)
    (update_election_is_finished cm) (sys cm) al su co de (cfg cm).
End fields.

Section operations.
  Context {Table : Type} (table_default : Table) (toml_from_slice : bytes -> option Table).
  Context `{!RegexEngine}.

Definition default : t Table :=
  mk "" None None None "" "" None false false false false false false false false false false false
    default_sys_info false false false false table_default.

(** The accessors of the service group unwrap, so this can panic. *)
Definition update_from_service_rumor (sg : ServiceGroup.t) (rumor : Service.t) (cm : t Table)
  : outcome (t Table) :=
  svc ← ServiceGroup.service sg;
  grp ← ServiceGroup.group sg;
  o ← ServiceGroup.org sg;
  ae ← ServiceGroup.application_environment sg;
  appenv ← match ae with
           | Some appenv =>
               app ← ApplicationEnvironment.application appenv;
               env ← ApplicationEnvironment.environment appenv;
               Return (Some app, Some env)
           | None => Return (application cm, environment cm)
           end;
  let p := match PackageIdent.from_str (sv_pkg (Service.deref rumor)) with
           | Ok ident => Some ident
           | Err _ => pkg cm
           end in
  Return (set_identity (Service.member_id rumor) p appenv.1 appenv.2 svc grp
            (match o with Some o => Some o | None => org cm end)
            (sv_sys (Service.deref rumor))
            (from_option id table_default (toml_from_slice (sv_cfg (Service.deref rumor)))) cm).

(** Returns whether the member is the leader. *)
Definition update_from_election_rumor (election : Election.t) (cm : t Table) : t Table * bool :=
  let running := bool_decide (Election.status election = Running) in
  let no_quorum := bool_decide (Election.status election = NoQuorum) in
  let finished := bool_decide (Election.status election = Finished) in
  let '(lead, foll) :=
    if finished
    then if String.eqb (member_id cm) (Election.member_id election) then (true, false) else (false, true)
    else (leader cm, follower cm) in
  (set_election lead foll running no_quorum finished cm, lead).

Definition update_from_election_update_rumor (election : ElectionUpdate.t) (cm : t Table) : t Table * bool :=
  let election := ElectionUpdate.inner election in
  let running := bool_decide (Election.status election = Running) in
  let no_quorum := bool_decide (Election.status election = NoQuorum) in
  let finished := bool_decide (Election.status election = Finished) in
  let '(lead, foll) :=
    if finished
    then if String.eqb (member_id cm) (Election.member_id election) then (true, false) else (false, true)
    else (update_leader cm, update_follower cm) in
  (set_update_election lead foll running no_quorum finished cm, lead).

Definition update_from_member (m : Member) (cm : t Table) : t Table :=
  let si := sys cm in
  set_contact true (mkSysInfo (sys_ip si) (sys_hostname si) (m_address m) (as_u32 (m_gossip_port m))
                      (sys_http_gateway_ip si) (sys_http_gateway_port si)) cm.

Definition update_from_health (h : Health) (cm : t Table) : t Table :=
  match h with
  | Alive => set_health true false false false cm
  | Suspect => set_health false true false false cm
  | Confirmed => set_health false false true false cm
  | Departed => set_health false false false true cm
  end.
End operations.
End CensusMember.

(** ** [CensusGroup] *)
Module ServiceFileEntry.
Record t := mk { filename : string; incarnation : Z; body : bytes }.
Definition default : t := mk "" 0 [].
End ServiceFileEntry.

Module ServiceConfigEntry.
Record t (Value : Type) := mk { incarnation : Z; value : Value }.
Arguments mk {Value}.
Arguments incarnation {Value}.
Arguments value {Value}.
End ServiceConfigEntry.

Module CensusGroup.
Record t (Table Value : Type) := mk {
  service_group : ServiceGroup.t;
  election_status : ElectionStatus.t;
  update_election_status : ElectionStatus.t;
  leader_id : option string;
  service_config : option (ServiceConfigEntry.t Value);
  local_member_id : string;
  population : gmap string (CensusMember.t Table);
  update_leader_id : option string;
  changed_files : list string;
  service_files : gmap string ServiceFileEntry.t;
}.
Arguments mk {Table Value}.
Arguments service_group {Table Value}.
Arguments election_status {Table Value}.
Arguments update_election_status {Table Value}.
Arguments leader_id {Table Value}.
Arguments service_config {Table Value}.
Arguments local_member_id {Table Value}.
Arguments population {Table Value}.
Arguments update_leader_id {Table Value}.
Arguments changed_files {Table Value}.
Arguments service_files {Table Value}.

Section operations.
  Context {Table Value E : Type} (table_default : Table) (toml_from_slice : bytes -> option Table).
  Context (decrypt_with : bytes -> result E bytes).
  Context (from_utf8 : bytes -> option string) (toml_from_str : string -> option Value).
  Context `{!RegexEngine}.
  Abbreviation group := (t Table Value).
  Abbreviation member := (CensusMember.t Table).

Definition new (sg : ServiceGroup.t) (local : string) : group :=
  mk sg ElectionStatus.None_ ElectionStatus.None_ None None local ∅ None [] ∅.

Definition set_population (p : gmap string member) (g : group) : group :=
  mk (service_group g) (election_status g) (update_election_status g) (leader_id g)
    (service_config g) (local_member_id g) p (update_leader_id g) (changed_files g) (service_files g).

(** The census member of the running Supervisor. *)
Definition me (g : group) : option member := population g !! local_member_id g.

Definition leader (g : group) : option member :=
  match leader_id g with Some id => population g !! id | None => None end.
Definition update_leader (g : group) : option member :=
  match update_leader_id g with Some id => population g !! id | None => None end.

Definition members (g : group) : list member := btree_values (population g).

Definition changed_service_files (g : group) : outcome (list ServiceFileEntry.t) :=
  for_each (fun f fs => file ← expect "unwrap" (service_files g !! f); Return (fs ++ [file]))
    (changed_files g) [].

(** [Iterator::position]. *)
Fixpoint position {A} (p : A -> bool) (l : list A) : option nat :=
  match l with
  | [] => None
  | x :: l => if p x then Some 0%nat else S <$> position p l
  end.

(** The previous alive peer: the one to the left in the list ordered by id, or the last one. *)
Definition previous_peer (g : group) : outcome (option member) :=
  let alive_members := filter (fun cm => CensusMember.alive cm = true) (btree_values (population g)) in
  match me g with
  | None => Return None
  | Some my =>
      if decide (length alive_members <= 1)%nat then Return None
      else
        match position (fun cm => String.eqb (CensusMember.member_id cm) (CensusMember.member_id my))
                alive_members with
        | Some idx =>
            let i := if decide (idx <= 0)%nat then (length alive_members - 1)%nat else (idx - 1)%nat in
            Some <$> expect "index out of bounds" (alive_members !! i)
        | None => Return None
        end
  end.

Definition update_from_service_rumors (o : order) (rumors : gmap string Service.t) (g : group)
  : outcome group :=
  for_each (fun (e : string * Service.t) g =>
      let '(member_id, service_rumor) := e in
      let is_self := bool_decide (member_id = local_member_id g) in
      let member := match population g !! member_id with
                    | Some m => m
                    | None => CensusMember.set_health is_self false false false
                                (CensusMember.default table_default)
                    end in
      member ← CensusMember.update_from_service_rumor table_default toml_from_slice
                 (service_group g) service_rumor member;
      Return (set_population (<[member_id := member]> (population g)) g))
    (permute o (map_to_list rumors)) g.

Definition update_from_election_rumor (election : Election.t) (g : group) : group :=
  let update := CensusMember.update_from_election_rumor election in
  let lead := foldl (fun (l : option string) (cm : member) =>
                if (update cm).2 then Some (CensusMember.member_id (update cm).1) else l)
                None (btree_values (population g)) in
  mk (service_group g) (ElectionStatus.from (Election.status election)) (update_election_status g)
    lead (service_config g) (local_member_id g) (fst ∘ update <$> population g)
    (update_leader_id g) (changed_files g) (service_files g).

Definition update_from_election_update_rumor (election : ElectionUpdate.t) (g : group) : group :=
  let update := CensusMember.update_from_election_update_rumor election in
  let lead := foldl (fun (l : option string) (cm : member) =>
                if (update cm).2 then Some (CensusMember.member_id (update cm).1) else l)
                None (btree_values (population g)) in
  mk (service_group g) (election_status g)
    (ElectionStatus.from (Election.status (ElectionUpdate.inner election)))
    (leader_id g) (service_config g) (local_member_id g) (fst ∘ update <$> population g)
    lead (changed_files g) (service_files g).

(** A configuration that cannot be decoded is ignored. *)
Definition update_from_service_config_rumor (sc : ServiceConfig.t) (g : group) : group :=
  match ServiceConfig.config decrypt_with from_utf8 toml_from_str sc with
  | Ok config =>
      let fresh := match service_config g with
                   | None => true
                   | Some cur => bool_decide (ServiceConfig.incarnation sc > ServiceConfigEntry.incarnation cur)%Z
                   end in
      if fresh
      then mk (service_group g) (election_status g) (update_election_status g) (leader_id g)
             (Some (ServiceConfigEntry.mk (ServiceConfig.incarnation sc) config))
             (local_member_id g) (population g) (update_leader_id g) (changed_files g) (service_files g)
      else g
  | Err _ => g
  end.

Definition set_files (changed : list string) (files : gmap string ServiceFileEntry.t) (g : group) : group :=
  mk (service_group g) (election_status g) (update_election_status g) (leader_id g)
    (service_config g) (local_member_id g) (population g) (update_leader_id g) changed files.

(** One iteration of the loop of [update_from_service_file_rumors]. *)
Definition update_file (r : ServiceFile.t) (g : group) : group :=
  let filename := ServiceFile.filename r in
  let file := match service_files g !! filename with
              | Some f => f
              | None => ServiceFileEntry.default
              end in
  let g := set_files (changed_files g) (<[filename := file]> (service_files g)) g in
  if decide (ServiceFile.incarnation r > ServiceFileEntry.incarnation file)%Z
  then match ServiceFile.body decrypt_with r with
       | Ok body =>
           set_files (changed_files g ++ [filename])
             (<[filename := ServiceFileEntry.mk filename (ServiceFile.incarnation r) body]> (service_files g)) g
       | Err _ => g
       end
  else g.

Definition update_from_service_file_rumors (o : order) (rumors : gmap string ServiceFile.t) (g : group)
  : group :=
  foldl (fun g (e : string * ServiceFile.t) => update_file e.2 g)
    (set_files [] (service_files g) g) (permute o (map_to_list rumors)).
End operations.
End CensusGroup.

(** ** [CensusRing] *)
Module CensusRing.
Record t (Table Value : Type) := mk {
  changed : bool;
  census_groups : gmap ServiceGroup.t (CensusGroup.t Table Value);
  local_member_id : string;
  last_service_counter : Z;
  last_election_counter : Z;
  last_election_update_counter : Z;
  last_membership_counter : Z;
  last_service_config_counter : Z;
  last_service_file_counter : Z;
}.
Arguments mk {Table Value}.
Arguments changed {Table Value}.
Arguments census_groups {Table Value}.
Arguments local_member_id {Table Value}.
Arguments last_service_counter {Table Value}.
Arguments last_election_counter {Table Value}.
Arguments last_election_update_counter {Table Value}.
Arguments last_membership_counter {Table Value}.
Arguments last_service_config_counter {Table Value}.
Arguments last_service_file_counter {Table Value}.

Section operations.
  Context {Table Value E : Type} (table_default : Table) (toml_from_slice : bytes -> option Table).
  Context (decrypt_with : bytes -> result E bytes).
  Context (from_utf8 : bytes -> option string) (toml_from_str : string -> option Value).
  Context `{!RegexEngine}.
  Abbreviation ring := (t Table Value).
  Abbreviation groups := (gmap ServiceGroup.t (CensusGroup.t Table Value)).

Definition new (local : string) : ring := mk false ∅ local 0 0 0 0 0 0.

Definition set_changed (c : bool) (r : ring) : ring :=
  mk c (census_groups r) (local_member_id r) (last_service_counter r) (last_election_counter r)
    (last_election_update_counter r) (last_membership_counter r) (last_service_config_counter r)
    (last_service_file_counter r).

Definition census_group_for (r : ring) (sg : ServiceGroup.t) : option (CensusGroup.t Table Value) :=
  census_groups r !! sg.

(** [entry(sg).or_insert(CensusGroup::new(..))]. *)
Definition group_entry (local : string) (sg : ServiceGroup.t) (gs : groups) : CensusGroup.t Table Value :=
  match gs !! sg with Some g => g | None => CensusGroup.new sg local end.

(** The message of [service_group_from_str] goes to the log. *)
Definition service_group_from_str (v : string) : result core_error ServiceGroup.t := ServiceGroup.from_str v.

Definition populate_services (o : order) (local : string) (st : RumorStore.t Service.t) (gs : groups)
  : outcome groups :=
  for_each (fun (e : string * gmap string Service.t) gs =>
      match service_group_from_str e.1 with
      | Ok sg =>
          g ← CensusGroup.update_from_service_rumors table_default toml_from_slice o e.2
                (group_entry local sg gs);
          Return (<[sg := g]> gs)
      | Err _ => Return gs
      end)
    (RumorStore.keys o st) gs.

(** What is known of a member goes to its entry in every group. *)
Definition update_member (m : Member) (h : Health) (g : CensusGroup.t Table Value) : CensusGroup.t Table Value :=
  match CensusGroup.population g !! m_id m with
  | Some cm =>
      CensusGroup.set_population
        (<[m_id m := CensusMember.update_from_health h (CensusMember.update_from_member m cm)]>
           (CensusGroup.population g)) g
  | None => g
  end.

Definition populate_members (o : order) (ml : MemberList.t) (gs : groups) : outcome groups :=
  for_each (fun (m : Member) (gs : groups) =>
      health ← expect "unwrap" (MemberList.health_of ml m);
      Return (update_member m health <$> gs))
    (permute o (MemberList.values (MemberList.members ml))) gs.

Definition populate_census (o : order) (local : string) (st : RumorStore.t Service.t) (ml : MemberList.t)
    (gs : groups) : outcome groups :=
  gs ← populate_services o local st gs;
  populate_members o ml gs.

(** The election is unwrapped before the group is parsed. *)
Definition update_from_election_store (o : order) (st : RumorStore.t Election.t) (gs : groups)
  : outcome groups :=
  for_each (fun (e : string * gmap string Election.t) gs =>
      election ← expect "unwrap" (e.2 !! "election");
      match service_group_from_str e.1 with
      | Ok sg =>
          match gs !! sg with
          | Some g => Return (<[sg := CensusGroup.update_from_election_rumor election g]> gs)
          | None => Return gs
          end
      | Err _ => Return gs
      end)
    (RumorStore.keys o st) gs.

Definition update_from_election_update_store (o : order) (st : RumorStore.t ElectionUpdate.t) (gs : groups)
  : outcome groups :=
  for_each (fun (e : string * gmap string ElectionUpdate.t) gs =>
      match service_group_from_str e.1 with
      | Ok sg =>
          match gs !! sg with
          | Some g =>
              election ← expect "unwrap" (e.2 !! "election");
              Return (<[sg := CensusGroup.update_from_election_update_rumor election g]> gs)
          | None => Return gs
          end
      | Err _ => Return gs
      end)
    (RumorStore.keys o st) gs.

Definition update_from_service_config (o : order) (st : RumorStore.t ServiceConfig.t) (gs : groups) : groups :=
  foldl (fun (gs : groups) (e : string * gmap string ServiceConfig.t) =>
      match service_group_from_str e.1 with
      | Ok sg =>
          match e.2 !! "service_config" with
          | Some sc =>
              match gs !! sg with
              | Some g => <[sg := CensusGroup.update_from_service_config_rumor
                                    decrypt_with from_utf8 toml_from_str sc g]> gs
              | None => gs
              end
          | None => gs
          end
      | Err _ => gs
      end)
    gs (RumorStore.keys o st).

Definition update_from_service_files (o : order) (local : string) (st : RumorStore.t ServiceFile.t)
    (gs : groups) : groups :=
  foldl (fun (gs : groups) (e : string * gmap string ServiceFile.t) =>
      match service_group_from_str e.1 with
      | Ok sg => <[sg := CensusGroup.update_from_service_file_rumors decrypt_with o e.2
                           (group_entry local sg gs)]> gs
      | Err _ => gs
      end)
    gs (RumorStore.keys o st).

(** Some counter of the stores moved since the last update. *)
Definition stale (services : RumorStore.t Service.t) (elections : RumorStore.t Election.t)
    (updates : RumorStore.t ElectionUpdate.t) (ml : MemberList.t)
    (configs : RumorStore.t ServiceConfig.t) (files : RumorStore.t ServiceFile.t) (r : ring) : bool :=
  bool_decide (RumorStore.get_update_counter services > last_service_counter r)%Z ||
  bool_decide (MemberList.get_update_counter ml > last_membership_counter r)%Z ||
  bool_decide (RumorStore.get_update_counter elections > last_election_counter r)%Z ||
  bool_decide (RumorStore.get_update_counter updates > last_election_update_counter r)%Z ||
  bool_decide (RumorStore.get_update_counter configs > last_service_config_counter r)%Z ||
  bool_decide (RumorStore.get_update_counter files > last_service_file_counter r)%Z.

(** If any rumor is new, the census is rebuilt from all the stores. *)
Definition update_from_rumors (o : order) (services : RumorStore.t Service.t)
    (elections : RumorStore.t Election.t) (updates : RumorStore.t ElectionUpdate.t)
    (ml : MemberList.t) (configs : RumorStore.t ServiceConfig.t)
    (files : RumorStore.t ServiceFile.t) (r : ring) : outcome ring :=
  if stale services elections updates ml configs files r then
    let local := local_member_id r in
    gs ← populate_census o local services ml (census_groups r);
    gs ← update_from_election_store o elections gs;
    gs ← update_from_election_update_store o updates gs;
    let gs := update_from_service_config o configs gs in
    let gs := update_from_service_files o local files gs in
    Return (mk true gs local (RumorStore.get_update_counter services)
              (RumorStore.get_update_counter elections) (RumorStore.get_update_counter updates)
              (MemberList.get_update_counter ml) (RumorStore.get_update_counter configs)
              (RumorStore.get_update_counter files))
  else Return (set_changed false r).

(** The stores of a server, as the Supervisor's manager passes them. *)
Definition update_from_server (o : order) (s : Server.t) (r : ring) : outcome ring :=
  update_from_rumors o (Server.service_store s) (Server.election_store s) (Server.update_store s)
    (Server.member_list s) (Server.service_config_store s) (Server.service_file_store s) r.
End operations.
End CensusRing.
