(* ===== verification/CensusProofs.v ===== *)
(** * Properties of the census

    What an update leaves in the census, whatever the iteration orders: the invariant of
    the groups and the absence of panics, the members and their health, the leaders, the
    changed files, and the previous peer.  The definitions are in [Census.v]. *)

From S2P Require Import Prelude Regex ServiceGroup Ident Member Messages Rumor Heat Kinds Election Server ServerProofs Census.
Local Open Scope string_scope.
Local Open Scope list_scope.

(** ** Loops over the keys of a store *)

(** The rumors a store holds for a service group, when its name parses. *)
Definition group_rumors `{!RegexEngine} {T} (st : RumorStore.t T) (sg : ServiceGroup.t)
  : option (gmap string T) :=
  match ServiceGroup.from_str (ServiceGroup.as_str sg) with
  | Ok _ => RumorStore.entries st !! ServiceGroup.as_str sg
  | Err _ => None
  end.

Lemma from_str_as_str `{!RegexEngine} v sg :
  ServiceGroup.from_str v = Ok sg -> v = ServiceGroup.as_str sg.
Proof. by intros [<- _]%from_str_sound. Qed.

Lemma elem_of_keys `{Rumor T} o (st : RumorStore.t T) k m :
  (k, m) ∈ RumorStore.keys o st <-> RumorStore.entries st !! k = Some m.
Proof. unfold RumorStore.keys. by rewrite elem_of_permute, elem_of_map_to_list. Qed.

Lemma NoDup_keys `{Rumor T} o (st : RumorStore.t T) : NoDup (RumorStore.keys o st).*1.
Proof. unfold RumorStore.keys. rewrite permute_perm. apply NoDup_fst_map_to_list. Qed.

(** A loop that treats every group once, on its own: [P] says what becomes of the entry of
    a group with the given rumors. *)
Lemma for_each_groups `{!RegexEngine} {M G} (step : string * M -> gmap ServiceGroup.t G -> outcome (gmap ServiceGroup.t G))
    (P : ServiceGroup.t -> M -> option G -> option G -> Prop) l gs0 :
  NoDup l.*1 ->
  (forall k m gs, (k, m) ∈ l ->
    match ServiceGroup.from_str k with
    | Ok sg => gs !! sg = gs0 !! sg ->
               Returns (step (k, m) gs) (fun gs' => P sg m (gs !! sg) (gs' !! sg) /\
                 forall sg', sg' <> sg -> gs' !! sg' = gs !! sg')
    | Err _ => step (k, m) gs = Return gs
    end) ->
  Returns (for_each step l gs0) (fun gs => forall sg,
    (exists m, (ServiceGroup.as_str sg, m) ∈ l /\
       ServiceGroup.from_str (ServiceGroup.as_str sg) = Ok sg /\ P sg m (gs0 !! sg) (gs !! sg)) \/
    ((ServiceGroup.as_str sg ∉ l.*1 \/ is_ok (ServiceGroup.from_str (ServiceGroup.as_str sg)) = false) /\
     gs !! sg = gs0 !! sg)).
Proof.
  revert gs0. induction l as [|[k m] l IH]; intros gs0 Hnd Hstep.
  { intros sg. right. split; [left; set_solver|done]. }
  cbn in Hnd. apply NoDup_cons in Hnd as [Hk Hnd]. cbn [for_each].
  pose proof (Hstep k m gs0 ltac:(set_solver)) as Hs.
  destruct (ServiceGroup.from_str k) as [sg0|e] eqn:Hparse.
  - pose proof (from_str_as_str _ _ Hparse) as ->.
    eapply Returns_bind; [by apply Hs|]. cbn beta. intros gs1 [HP Hother].
    eapply Returns_mono.
    { apply IH; [done|]. intros k' m' gs Hin. specialize (Hstep k' m' gs ltac:(set_solver)).
      destruct (ServiceGroup.from_str k') as [sg'|] eqn:Hp'; [|done].
      intros Heq. apply Hstep. rewrite Heq, Hother; [done|]. intros ->.
      apply from_str_as_str in Hp' as ->. apply Hk, list_elem_of_fmap. by exists (ServiceGroup.as_str sg0, m'). }
    cbn beta. intros gs Hgs sg. destruct (decide (sg = sg0)) as [->|Hne].
    + left. exists m. split_and!; [set_solver|done|].
      destruct (Hgs sg0) as [(m' & Hin & _)|[_ ->]]; [|done].
      exfalso. apply Hk, list_elem_of_fmap. by exists (ServiceGroup.as_str sg0, m').
    + rewrite <- (Hother sg Hne). destruct (Hgs sg) as [(m' & Hin & ?)|[Hn ?]]; [left|right].
      * exists m'. split; [set_solver|done].
      * split; [|done]. destruct Hn as [Hn|Hn]; [|by right]. left. cbn.
        rewrite not_elem_of_cons. split; [|done]. intros E. apply Hne.
        by destruct sg, sg0; cbn in E; subst.
  - rewrite Hs. cbn. eapply Returns_mono.
    { apply IH; [done|]. intros k' m' gs Hin. apply Hstep. set_solver. }
    cbn beta. intros gs Hgs sg. destruct (Hgs sg) as [(m' & Hin & ?)|[Hn ?]]; [left|right].
    + exists m'. split; [set_solver|done].
    + split; [|done]. destruct (decide (ServiceGroup.as_str sg = k)) as [<-|Hne].
      * right. by rewrite Hparse.
      * destruct Hn as [Hn|]; [left; set_solver|by right].
Qed.

(** The same for a loop over a whole store. *)
Lemma for_each_store `{!RegexEngine} `{Rumor T} {G}
    (step : string * gmap string T -> gmap ServiceGroup.t G -> outcome (gmap ServiceGroup.t G))
    (P : ServiceGroup.t -> gmap string T -> option G -> option G -> Prop) o (st : RumorStore.t T) gs0 :
  (forall k m gs, RumorStore.entries st !! k = Some m ->
    match ServiceGroup.from_str k with
    | Ok sg => gs !! sg = gs0 !! sg ->
               Returns (step (k, m) gs) (fun gs' => P sg m (gs !! sg) (gs' !! sg) /\
                 forall sg', sg' <> sg -> gs' !! sg' = gs !! sg')
    | Err _ => step (k, m) gs = Return gs
    end) ->
  Returns (for_each step (RumorStore.keys o st) gs0) (fun gs => forall sg,
    match group_rumors st sg with
    | Some m => ServiceGroup.from_str (ServiceGroup.as_str sg) = Ok sg /\ P sg m (gs0 !! sg) (gs !! sg)
    | None => gs !! sg = gs0 !! sg
    end).
Proof.
  intros Hstep. eapply Returns_mono.
  { apply (for_each_groups step P); [apply NoDup_keys|]. intros k m gs Hin%elem_of_keys. by apply Hstep. }
  cbn beta. intros gs Hgs sg. unfold group_rumors. destruct (Hgs sg) as [(m & Hin & Hp & HP)|[Hn ?]].
  - apply elem_of_keys in Hin. by rewrite Hp, Hin.
  - destruct (ServiceGroup.from_str _) eqn:Hp; [|done].
    destruct (RumorStore.entries st !! _) as [m|] eqn:Hm; [|done]. exfalso.
    destruct Hn as [Hn|?]; [|done]. apply Hn, list_elem_of_fmap. exists (ServiceGroup.as_str sg, m).
    split; [done|]. by apply elem_of_keys.
Qed.

(** ** The invariant *)

(** At most one of the four health flags is set. *)
Definition flags_ok {Table} (cm : CensusMember.t Table) : Prop :=
  (Nat.b2n (CensusMember.alive cm) + Nat.b2n (CensusMember.suspect cm) +
   Nat.b2n (CensusMember.confirmed cm) + Nat.b2n (CensusMember.departed cm) <= 1)%nat.

(** A group is filed under its own name, which parses; members are filed under their ids;
    [leader_id] and [update_leader_id] name exactly the members flagged as leaders, so there
    is at most one of each; changed files are known files. *)
Record group_wf `{!RegexEngine} {Table Value} (local : string) (sg : ServiceGroup.t) (g : CensusGroup.t Table Value) : Prop := {
  gw_name : CensusGroup.service_group g = sg;
  gw_parses : ServiceGroup.from_str (ServiceGroup.as_str sg) = Ok sg;
  gw_local : CensusGroup.local_member_id g = local;
  gw_ids : forall id cm, CensusGroup.population g !! id = Some cm -> CensusMember.member_id cm = id;
  gw_flags : forall id cm, CensusGroup.population g !! id = Some cm -> flags_ok cm;
  gw_leader : forall id, CensusGroup.leader_id g = Some id <->
    exists cm, CensusGroup.population g !! id = Some cm /\ CensusMember.leader cm = true;
  gw_update_leader : forall id, CensusGroup.update_leader_id g = Some id <->
    exists cm, CensusGroup.population g !! id = Some cm /\ CensusMember.update_leader cm = true;
  gw_changed : forall f, f ∈ CensusGroup.changed_files g -> is_Some (CensusGroup.service_files g !! f);
}.

Definition groups_wf `{!RegexEngine} {Table Value} (local : string)
    (gs : gmap ServiceGroup.t (CensusGroup.t Table Value)) : Prop :=
  forall sg g, gs !! sg = Some g -> group_wf local sg g.

Definition ring_wf `{!RegexEngine} {Table Value} (r : CensusRing.t Table Value) : Prop :=
  groups_wf (CensusRing.local_member_id r) (CensusRing.census_groups r).

Lemma new_group_wf `{!RegexEngine} {Table Value} local sg :
  ServiceGroup.from_str (ServiceGroup.as_str sg) = Ok sg ->
  group_wf local sg (CensusGroup.new (Table := Table) (Value := Value) sg local).
Proof.
  intros Hsg. split; cbn; try done; [| |intros f Hf; by apply not_elem_of_nil in Hf];
    (intros id; split; [done|]; intros (cm & Hcm & _); by rewrite lookup_empty in Hcm).
Qed.

(** A population that differs from that of [g] in what the elections do not own. *)
Lemma set_population_wf `{!RegexEngine} {Table Value} local sg (g : CensusGroup.t Table Value) p :
  group_wf local sg g ->
  (forall id cm, p !! id = Some cm -> CensusMember.member_id cm = id /\ flags_ok cm) ->
  (forall id cm, CensusGroup.population g !! id = Some cm -> exists cm', p !! id = Some cm' /\
     CensusMember.leader cm' = CensusMember.leader cm /\
     CensusMember.update_leader cm' = CensusMember.update_leader cm) ->
  (forall id cm, p !! id = Some cm -> CensusGroup.population g !! id = None ->
     CensusMember.leader cm = false /\ CensusMember.update_leader cm = false) ->
  group_wf local sg (CensusGroup.set_population p g).
Proof.
  intros Hg Hp Hold Hnew. destruct Hg. split; cbn; try done.
  - naive_solver.
  - naive_solver.
  - intros id. rewrite gw_leader0. split.
    + intros (cm & Hcm & ?). destruct (Hold _ _ Hcm) as (cm' & ? & ? & ?). exists cm'. naive_solver congruence.
    + intros (cm & Hcm & ?). destruct (CensusGroup.population g !! id) as [cm0|] eqn:E.
      * destruct (Hold _ _ E) as (cm' & ? & ? & ?). exists cm0. naive_solver congruence.
      * destruct (Hnew _ _ Hcm E). congruence.
  - intros id. rewrite gw_update_leader0. split.
    + intros (cm & Hcm & ?). destruct (Hold _ _ Hcm) as (cm' & ? & ? & ?). exists cm'. naive_solver congruence.
    + intros (cm & Hcm & ?). destruct (CensusGroup.population g !! id) as [cm0|] eqn:E.
      * destruct (Hold _ _ E) as (cm' & ? & ? & ?). exists cm0. naive_solver congruence.
      * destruct (Hnew _ _ Hcm E). congruence.
Qed.

(** ** Services *)
Section services.
  Context {Table Value : Type} (table_default : Table) (toml_from_slice : bytes -> option Table).
  Context `{!RegexEngine}.
  Implicit Types (g : CensusGroup.t Table Value) (cm : CensusMember.t Table).
  Abbreviation update_service := (CensusMember.update_from_service_rumor table_default toml_from_slice).

(** The entry a rumor of member [id] updates. *)
Definition service_entry (g : CensusGroup.t Table Value) (id : string) : CensusMember.t Table :=
  match CensusGroup.population g !! id with
  | Some cm => cm
  | None => CensusMember.set_health (bool_decide (id = CensusGroup.local_member_id g)) false false false
              (CensusMember.default table_default)
  end.

(** A service rumor gives the member its id and the names of the group, and leaves what the
    elections and the member list own. *)
Lemma update_service_spec sg r cm :
  ServiceGroup.from_str (ServiceGroup.as_str sg) = Ok sg ->
  Returns (update_service sg r cm) (fun cm' =>
    CensusMember.member_id cm' = Service.member_id r /\
    ServiceGroup.service sg = Return (CensusMember.service cm') /\
    ServiceGroup.group sg = Return (CensusMember.group cm') /\
    CensusMember.sys cm' = sv_sys (Service.deref r) /\
    CensusMember.leader cm' = CensusMember.leader cm /\
    CensusMember.update_leader cm' = CensusMember.update_leader cm /\
    CensusMember.alive cm' = CensusMember.alive cm /\
    CensusMember.suspect cm' = CensusMember.suspect cm /\
    CensusMember.confirmed cm' = CensusMember.confirmed cm /\
    CensusMember.departed cm' = CensusMember.departed cm).
Proof.
  intros Hsg. pose proof Hsg as (_ & ae & svc & grp & o & Hae & Hs & Hg & Ho & Hv)%from_str_sound.
  destruct (from_str_parses ae svc grp o Hae Hs Hg Ho) as [Hp (R1 & R2 & R3 & R4)].
  rewrite <- Hv in *. rewrite Hp in Hsg. injection Hsg as Esg. rewrite Esg in *.
  unfold CensusMember.update_from_service_rumor. rewrite R1, R2, R3, R4. cbn.
  destruct ae as [ae|]; [|by cbn].
  pose proof (Hae ae eq_refl) as (_ & app & env & Happ & Henv & Hf)%ae_from_str_ok.
  assert (captures AE_FROM_STR_RE (ApplicationEnvironment.as_str ae) =
    Some (ae_caps (to_chars app) (to_chars env))) as Hc.
  { apply ae_captures. exists (to_chars app), (to_chars env). split_and!; [done..| |done].
    by rewrite Hf, <- (to_of_chars (ae_text _ _)), ae_text_format, !of_to_chars. }
  unfold ApplicationEnvironment.application, ApplicationEnvironment.environment. rewrite Hc. by cbn.
Qed.

(** The loop over the rumors of one group. *)
Lemma update_service_rumors_loop sg local l g0 g :
  group_wf local sg g0 -> NoDup l.*1 ->
  (forall id r, (id, r) ∈ l -> Service.member_id r = id) ->
  (exists p, g = CensusGroup.set_population p g0) ->
  (forall id, id ∈ l.*1 -> CensusGroup.population g !! id = CensusGroup.population g0 !! id) ->
  Returns (for_each (fun (e : string * Service.t) g =>
      let '(member_id, service_rumor) := e in
      member ← update_service (CensusGroup.service_group g) service_rumor (service_entry g member_id);
      Return (CensusGroup.set_population (<[member_id := member]> (CensusGroup.population g)) g)) l g)
    (fun g' => exists p, g' = CensusGroup.set_population p g0 /\
      (forall id, id ∉ l.*1 -> p !! id = CensusGroup.population g !! id) /\
      (forall id r, (id, r) ∈ l -> exists cm, p !! id = Some cm /\
         update_service sg r (service_entry g0 id) = Return cm)).
Proof.
  intros Hg0. revert g. induction l as [|[id r] l IH]; intros g Hnd Hid [p ->] Hpop.
  { exists p. split_and!; [done..|]. intros id r Hin. by apply not_elem_of_nil in Hin. }
  cbn in Hnd. apply NoDup_cons in Hnd as [Hk Hnd]. cbn [for_each].
  assert (service_entry (CensusGroup.set_population p g0) id = service_entry g0 id) as ->.
  { unfold service_entry. rewrite (Hpop id ltac:(cbn; set_solver)). done. }
  change (CensusGroup.service_group (CensusGroup.set_population p g0)) with (CensusGroup.service_group g0).
  rewrite (gw_name _ _ _ Hg0).
  pose proof (update_service_spec sg r (service_entry g0 id) (gw_parses _ _ _ Hg0)) as Hu.
  apply Returns_inv in Hu as (cm & Hu & _). rewrite Hu. cbn.
  eapply Returns_mono.
  { apply IH; [done|set_solver|by eexists|].
    intros id' Hid'. cbn. rewrite lookup_insert_ne by (intros ->; done).
    apply (Hpop id'). cbn. set_solver. }
  cbn beta. intros g' (p' & -> & Hout & Hin). exists p'. split_and!; [done|..].
  - intros id' Hid'. cbn in Hid'. rewrite Hout by set_solver. cbn. rewrite lookup_insert_ne; [done|set_solver].
  - intros id' r' [[= -> ->]|Hin']%elem_of_cons; [|by apply Hin].
    exists cm. split; [|done]. rewrite Hout by done. cbn. apply lookup_insert_eq.
Qed.

(** What the service rumors of a group make of it. *)
Definition services_applied (sg : ServiceGroup.t) (m : gmap string Service.t)
    (g0 g : CensusGroup.t Table Value) : Prop :=
  exists p, g = CensusGroup.set_population p g0 /\
    forall id, match m !! id with
               | Some r => exists cm, p !! id = Some cm /\ update_service sg r (service_entry g0 id) = Return cm
               | None => p !! id = CensusGroup.population g0 !! id
               end.

Lemma update_from_service_rumors_spec o sg local m g :
  group_wf local sg g -> (forall id r, m !! id = Some r -> Service.member_id r = id) ->
  Returns (CensusGroup.update_from_service_rumors table_default toml_from_slice o m g)
    (services_applied sg m g).
Proof.
  intros Hg Hm. eapply Returns_mono.
  { apply (update_service_rumors_loop sg local _ g g Hg).
    - rewrite permute_perm. apply NoDup_fst_map_to_list.
    - intros id r. rewrite elem_of_permute, elem_of_map_to_list. apply Hm.
    - exists (CensusGroup.population g). by destruct g.
    - done. }
  cbn beta. intros g' (p & -> & Hout & Hin). exists p. split; [done|]. intros id.
  destruct (m !! id) as [r|] eqn:E.
  - apply Hin. by rewrite elem_of_permute, elem_of_map_to_list.
  - apply Hout. rewrite permute_perm. intros ([] & -> & Hi)%list_elem_of_fmap.
    apply elem_of_map_to_list in Hi. cbn in *. congruence.
Qed.

Lemma services_applied_wf local sg m g0 g :
  group_wf local sg g0 -> (forall id r, m !! id = Some r -> Service.member_id r = id) ->
  services_applied sg m g0 g -> group_wf local sg g.
Proof.
  intros Hg Hm (p & -> & Hp). 
  assert (Hentry : forall id, flags_ok (service_entry g0 id)).
  { intros id. unfold service_entry. destruct (CensusGroup.population g0 !! id) eqn:E; [by eapply gw_flags|].
    unfold flags_ok; cbn. case_bool_decide; cbn; lia. }
  assert (Hupd : forall id r cm, m !! id = Some r -> update_service sg r (service_entry g0 id) = Return cm ->
    CensusMember.member_id cm = id /\ flags_ok cm /\
    CensusMember.leader cm = CensusMember.leader (service_entry g0 id) /\
    CensusMember.update_leader cm = CensusMember.update_leader (service_entry g0 id)).
  { intros id r cm Hr Hu.
    pose proof (update_service_spec sg r (service_entry g0 id) (gw_parses _ _ _ Hg)) as Hs.
    rewrite Hu in Hs. destruct Hs as (-> & _ & _ & _ & -> & -> & Ha & Hsu & Hc & Hd).
    split_and!; [by apply Hm| |done..]. unfold flags_ok. rewrite Ha, Hsu, Hc, Hd. apply Hentry. }
  apply set_population_wf; [done|..].
  - intros id cm Hcm. specialize (Hp id). destruct (m !! id) as [r|] eqn:E.
    + destruct Hp as (cm' & ? & Hu). simplify_eq. destruct (Hupd _ _ _ E Hu) as (? & ? & _). done.
    + rewrite Hp in Hcm. split; [by eapply gw_ids|by eapply gw_flags].
  - intros id cm Hcm. specialize (Hp id). destruct (m !! id) as [r|] eqn:E.
    + destruct Hp as (cm' & ? & Hu). exists cm'. destruct (Hupd _ _ _ E Hu) as (_ & _ & -> & ->).
      unfold service_entry. by rewrite Hcm.
    + exists cm. by rewrite Hp.
  - intros id cm Hcm Hnone. specialize (Hp id). destruct (m !! id) as [r|] eqn:E; [|congruence].
    destruct Hp as (cm' & ? & Hu). simplify_eq. destruct (Hupd _ _ _ E Hu) as (_ & _ & -> & ->).
    unfold service_entry. by rewrite Hnone.
Qed.
End services.

(** ** Populating the groups *)
Section populate.
  Context {Table Value : Type} (table_default : Table) (toml_from_slice : bytes -> option Table).
  Context `{!RegexEngine}.
  Implicit Types (g : CensusGroup.t Table Value) (gs : gmap ServiceGroup.t (CensusGroup.t Table Value)).

(** The group an [entry(..).or_insert(..)] starts from. *)
Definition entry_of (local : string) (sg : ServiceGroup.t) (g : option (CensusGroup.t Table Value))
  : CensusGroup.t Table Value :=
  match g with Some g => g | None => CensusGroup.new sg local end.

Lemma entry_of_wf local sg gs :
  ServiceGroup.from_str (ServiceGroup.as_str sg) = Ok sg -> groups_wf local gs ->
  group_wf local sg (entry_of local sg (gs !! sg)).
Proof.
  intros Hsg Hgs. destruct (gs !! sg) as [g|] eqn:E; cbn; [by apply Hgs|by apply new_group_wf].
Qed.

Lemma group_rumors_ids `{Rumor T} (st : RumorStore.t T) sg m :
  RumorStore.wf st -> group_rumors st sg = Some m ->
  forall id r, m !! id = Some r -> rumor_id r = id.
Proof.
  intros Hst. unfold group_rumors. destruct (ServiceGroup.from_str _); [|done]. intros Hm id r Hr.
  eapply (RumorStore.wf_slot _ Hst (ServiceGroup.as_str sg)). unfold RumorStore.get. by rewrite Hm.
Qed.

(** What the services make of the groups. *)
Definition services_populated (local : string) (st : RumorStore.t Service.t)
    (gs gs' : gmap ServiceGroup.t (CensusGroup.t Table Value)) : Prop :=
  forall sg, match group_rumors st sg with
             | Some m => ServiceGroup.from_str (ServiceGroup.as_str sg) = Ok sg /\
                 exists g, gs' !! sg = Some g /\
                   services_applied table_default toml_from_slice sg m (entry_of local sg (gs !! sg)) g
             | None => gs' !! sg = gs !! sg
             end.

Lemma populate_services_spec o local st gs :
  groups_wf local gs -> RumorStore.wf st ->
  Returns (CensusRing.populate_services table_default toml_from_slice o local st gs) (fun gs' =>
    services_populated local st gs gs' /\ groups_wf local gs').
Proof.
  intros Hgs Hst. eapply Returns_mono.
  { apply (for_each_store _ (fun sg m old new => exists g, new = Some g /\
      services_applied table_default toml_from_slice sg m (entry_of local sg old) g)).
    intros k m gs1 Hk. cbn [fst snd]. unfold CensusRing.service_group_from_str.
    destruct (ServiceGroup.from_str k) as [sg|] eqn:Hp; [|done]. intros Hold.
    pose proof (from_str_as_str _ _ Hp) as ->.
    change (CensusRing.group_entry local sg gs1) with (entry_of local sg (gs1 !! sg)). rewrite Hold.
    eapply Returns_bind.
    { apply (update_from_service_rumors_spec _ _ o sg local); [by apply entry_of_wf|].
      intros id r Hr. eapply (RumorStore.wf_slot _ Hst (ServiceGroup.as_str sg)).
      unfold RumorStore.get. by rewrite Hk. }
    cbn beta. intros g Hg. cbn. split; [|intros; by apply lookup_insert_ne].
    exists g. by rewrite lookup_insert_eq. }
  cbn beta. intros gs' Hgs'. split.
  - intros sg. specialize (Hgs' sg). by destruct (group_rumors st sg).
  - intros sg g Hg. specialize (Hgs' sg). destruct (group_rumors st sg) as [m|] eqn:Hm.
    + destruct Hgs' as (Hp & g' & Hg' & Happ). rewrite Hg' in Hg. injection Hg as <-.
      eapply services_applied_wf; [by apply entry_of_wf| |done]. by apply (group_rumors_ids _ _ _ Hst Hm).
    + rewrite Hgs' in Hg. by apply Hgs.
Qed.

(** What the member list says of a member of a group. *)
Definition refresh (ml : MemberList.t) (id : string) (cm : CensusMember.t Table) : CensusMember.t Table :=
  match MemberList.members ml !! id, MemberList.health_of_by_id ml id with
  | Some m, Some h => CensusMember.update_from_health h (CensusMember.update_from_member m cm)
  | _, _ => cm
  end.

Lemma update_member_population m h g id :
  CensusGroup.population (CensusRing.update_member m h g) !! id =
  (if decide (m_id m = id)
   then fun cm => CensusMember.update_from_health h (CensusMember.update_from_member m cm)
   else fun cm => cm) <$> CensusGroup.population g !! id.
Proof.
  unfold CensusRing.update_member. case_decide as Hd; [subst id|].
  - destruct (CensusGroup.population g !! m_id m) as [cm|] eqn:E; cbn; [|by rewrite E].
    by rewrite lookup_insert_eq.
  - destruct (CensusGroup.population g !! m_id m) as [cm|] eqn:E; cbn;
      [rewrite lookup_insert_ne by done|]; by destruct (CensusGroup.population g !! id).
Qed.

Lemma update_member_rest m h g :
  exists p, CensusRing.update_member m h g = CensusGroup.set_population p g.
Proof.
  unfold CensusRing.update_member. case_match; [by eexists|].
  exists (CensusGroup.population g). by destruct g.
Qed.

(** The loop over the members does this to each group. *)
Definition refresh_list (ml : MemberList.t) (l : list Member) (g : CensusGroup.t Table Value)
  : CensusGroup.t Table Value :=
  foldl (fun g m => match MemberList.health_of ml m with
                    | Some h => CensusRing.update_member m h g
                    | None => g
                    end) g l.

Lemma populate_members_loop ml l gs :
  (forall m, m ∈ l -> is_Some (MemberList.health_of ml m)) ->
  for_each (fun (m : Member) gs =>
      health ← expect "unwrap" (MemberList.health_of ml m);
      Return (CensusRing.update_member m health <$> gs)) l gs =
  Return (refresh_list ml l <$> gs).
Proof.
  revert gs. induction l as [|m l IH]; intros gs Hl; cbn; [by rewrite map_fmap_id|].
  destruct (Hl m ltac:(set_solver)) as [h Hh]. rewrite Hh. cbn. rewrite IH by set_solver.
  rewrite <- map_fmap_compose. f_equal. apply map_fmap_ext. intros; cbn. by rewrite Hh.
Qed.

Lemma refresh_list_spec ml l g :
  MemberList.wf ml -> NoDup (m_id <$> l) -> (forall m, m ∈ l -> MemberList.members ml !! m_id m = Some m) ->
  exists p, refresh_list ml l g = CensusGroup.set_population p g /\
    forall id, p !! id = (if decide (id ∈ m_id <$> l) then refresh ml id else fun cm => cm) <$>
                           CensusGroup.population g !! id.
Proof.
  intros Hml. revert g. induction l as [|m l IH]; intros g Hnd Hl.
  { exists (CensusGroup.population g). split; [by destruct g|]. intros id.
    rewrite decide_False by (cbn; set_solver). by destruct (_ !! id). }
  cbn in Hnd. apply NoDup_cons in Hnd as [Hm Hnd].
  assert (MemberList.members ml !! m_id m = Some m) as Hmem by (apply Hl; set_solver).
  destruct (MemberList.wf_health _ Hml (m_id m) ltac:(by eexists)) as [h Hh].
  cbn. unfold MemberList.health_of. rewrite Hh.
  destruct (IH (CensusRing.update_member m h g)) as (p & Heq & Hp); [done|set_solver|].
  destruct (update_member_rest m h g) as [p' Hp']. exists p. split.
  { unfold refresh_list in Heq. unfold MemberList.health_of in Heq. by rewrite Heq, Hp'. }
  intros id. rewrite Hp, update_member_population.
  destruct (CensusGroup.population g !! id) as [cm|] eqn:E; [|by repeat case_decide].
  destruct (decide (m_id m = id)) as [<-|Hne].
  - rewrite decide_False by done. rewrite decide_True by set_solver. cbn.
    unfold refresh, MemberList.health_of_by_id. by rewrite Hmem, Hh.
  - cbn. f_equal. destruct (decide (id ∈ m_id <$> l)).
    + by rewrite decide_True by set_solver.
    + by rewrite decide_False by set_solver.
Qed.

Lemma refresh_keeps ml id (cm : CensusMember.t Table) :
  CensusMember.member_id (refresh ml id cm) = CensusMember.member_id cm /\
  CensusMember.leader (refresh ml id cm) = CensusMember.leader cm /\
  CensusMember.update_leader (refresh ml id cm) = CensusMember.update_leader cm /\
  (flags_ok cm -> flags_ok (refresh ml id cm)).
Proof.
  unfold refresh. destruct (MemberList.members ml !! id) as [m|]; [|done].
  destruct (MemberList.health_of_by_id ml id) as [[]|]; try done; cbn; split_and!; try done;
    intros _; unfold flags_ok; cbn; lia.
Qed.

(** What the member list makes of the groups. *)
Definition members_populated (ml : MemberList.t) (gs gs' : gmap ServiceGroup.t (CensusGroup.t Table Value)) : Prop :=
  forall sg, match gs !! sg with
             | Some g => exists p, gs' !! sg = Some (CensusGroup.set_population p g) /\
                           forall id, p !! id = refresh ml id <$> CensusGroup.population g !! id
             | None => gs' !! sg = None
             end.

(** The members the loop visits: each of the list once. *)
Lemma listed_members o ml (l := permute o (MemberList.values (MemberList.members ml))) :
  MemberList.wf ml -> NoDup (m_id <$> l) /\ (forall m, m ∈ l -> MemberList.members ml !! m_id m = Some m) /\
    (forall id, is_Some (MemberList.members ml !! id) -> id ∈ m_id <$> l).
Proof.
  intros Hml. subst l. unfold MemberList.values. split_and!.
  - rewrite permute_perm, <- list_fmap_compose.
    assert (m_id ∘ snd <$> map_to_list (MemberList.members ml) = (map_to_list (MemberList.members ml)).*1) as ->;
      [|apply NoDup_fst_map_to_list].
    apply list_fmap_ext. intros j [id m] Hj%list_elem_of_lookup_2. apply elem_of_map_to_list in Hj.
    by apply (MemberList.wf_ids _ Hml).
  - intros m. rewrite elem_of_permute.
    intros ([id m'] & -> & Hin%elem_of_map_to_list)%list_elem_of_fmap. cbn in *.
    by rewrite (MemberList.wf_ids _ Hml _ _ Hin).
  - intros id [m Hm]. apply list_elem_of_fmap. exists m. split; [by rewrite (MemberList.wf_ids _ Hml _ _ Hm)|].
    rewrite elem_of_permute, list_elem_of_fmap. exists (id, m). by rewrite elem_of_map_to_list.
Qed.

Lemma members_populated_wf local ml gs gs' :
  groups_wf local gs -> members_populated ml gs gs' -> groups_wf local gs'.
Proof.
  intros Hgs Hpop sg g' Hg'. specialize (Hpop sg). destruct (gs !! sg) as [g|] eqn:E; [|congruence].
  destruct Hpop as (p & Hg2 & Hp). rewrite Hg2 in Hg'. injection Hg' as <-.
  pose proof (Hgs _ _ E) as Hg. apply set_population_wf; [done|..].
  - intros id cm. rewrite Hp. destruct (CensusGroup.population g !! id) as [cm0|] eqn:E0; [|done].
    intros [= <-]. destruct (refresh_keeps ml id cm0) as (-> & _ & _ & Hf).
    split; [by eapply gw_ids|]. eapply Hf, gw_flags; done.
  - intros id cm Hcm. exists (refresh ml id cm). rewrite Hp, Hcm.
    destruct (refresh_keeps ml id cm) as (_ & -> & -> & _). done.
  - intros id cm. rewrite Hp. intros H1 H2. by rewrite H2 in H1.
Qed.

Lemma populate_members_spec o local ml gs :
  groups_wf local gs -> MemberList.wf ml ->
  Returns (CensusRing.populate_members o ml gs) (fun gs' => members_populated ml gs gs' /\ groups_wf local gs').
Proof.
  intros Hgs Hml. unfold CensusRing.populate_members.
  destruct (listed_members o ml Hml) as (Hnd & Hl & Hdom).
  set (l := permute o (MemberList.values (MemberList.members ml))) in *.
  rewrite populate_members_loop.
  2:{ intros m Hm. apply (MemberList.wf_health _ Hml). rewrite (Hl _ Hm). by eexists. }
  cbn. assert (members_populated ml gs (refresh_list ml l <$> gs)) as Hpop;
    [|split; [done|]; by eapply members_populated_wf].
  intros sg. rewrite lookup_fmap. destruct (gs !! sg) as [g|] eqn:E; [|done].
  destruct (refresh_list_spec ml l g Hml Hnd Hl) as (p & Heq & Hp). exists p. cbn. rewrite Heq.
  split; [done|]. intros id. rewrite Hp. case_decide as Hd; [done|].
  destruct (CensusGroup.population g !! id) as [cm|]; [|done]. cbn. f_equal. unfold refresh.
  destruct (MemberList.members ml !! id) as [m|] eqn:Em; [|done]. destruct Hd. apply Hdom. by eexists.
Qed.
End populate.

(** ** Leaders *)
Lemma elem_of_btree_values {V} (m : gmap string V) x :
  x ∈ btree_values m <-> exists k, m !! k = Some x.
Proof.
  unfold btree_values, btree_iter. rewrite list_elem_of_fmap. setoid_rewrite elem_of_sort_by. split.
  - intros ([k y] & -> & Hin%elem_of_map_to_list). by exists k.
  - intros [k Hk]. exists (k, x). by rewrite elem_of_map_to_list.
Qed.

(** Keeping the last element that satisfies a test. *)
Lemma foldl_last_spec {A} (p : A -> bool) (f : A -> string) l acc :
  match foldl (fun (r : option string) x => if p x then Some (f x) else r) acc l with
  | Some y => (exists x, x ∈ l /\ p x = true /\ f x = y) \/ (acc = Some y /\ forall x, x ∈ l -> p x = false)
  | None => acc = None /\ forall x, x ∈ l -> p x = false
  end.
Proof.
  revert acc. induction l as [|x l IH]; intros acc; cbn.
  { destruct acc; [right|]; (split; [done|]; intros x Hx; by apply not_elem_of_nil in Hx). }
  specialize (IH (if p x then Some (f x) else acc)). destruct (foldl _ _ l) as [y|].
  - destruct IH as [(z & Hz & ? & ?)|[Hacc Hl]]; [left; exists z; split; [set_solver|done]|].
    destruct (p x) eqn:Hpx.
    + injection Hacc as <-. left. exists x. split; [set_solver|done].
    + right. split; [done|]. intros z [->|?]%elem_of_cons; [done|by apply Hl].
  - destruct IH as [Hacc Hl]. destruct (p x) eqn:Hpx; [done|]. split; [done|].
    intros z [->|?]%elem_of_cons; [done|by apply Hl].
Qed.

(** The last flagged member of a population with at most one flagged member. *)
Lemma leader_fold {Table} (pop : gmap string (CensusMember.t Table)) (flag : CensusMember.t Table -> bool)
    (name : CensusMember.t Table -> string) :
  (forall id cm, pop !! id = Some cm -> name cm = id) ->
  (forall id id' cm cm', pop !! id = Some cm -> flag cm = true -> pop !! id' = Some cm' -> flag cm' = true -> id = id') ->
  forall id, foldl (fun (l : option string) cm => if flag cm then Some (name cm) else l) None (btree_values pop) = Some id <->
    exists cm, pop !! id = Some cm /\ flag cm = true.
Proof.
  intros Hids Huniq id. pose proof (foldl_last_spec flag name (btree_values pop) None) as Hf.
  destruct (foldl _ _ _) as [y|].
  - destruct Hf as [(cm & Hin & Hcm & Hy)|[? _]]; [|done].
    apply elem_of_btree_values in Hin as [k Hk]. rewrite (Hids _ _ Hk) in Hy. subst y. split.
    + intros [= ->]. by exists cm.
    + intros (cm' & Hcm' & ?). f_equal. by apply (Huniq _ _ cm cm').
  - destruct Hf as [_ Hf]. split; [done|]. intros (cm & Hcm & Hflag).
    rewrite (Hf cm) in Hflag; [done|]. apply elem_of_btree_values. by exists id.
Qed.

Section elections.
  Context {Table Value : Type}.
  Context `{!RegexEngine}.
  Implicit Types (g : CensusGroup.t Table Value) (cm : CensusMember.t Table).

(** The leadership an election gives to a member that had [was]. *)
Definition leads (e : Election.t) (id : string) (was : bool) : bool :=
  if decide (Election.status e = Finished) then String.eqb id (Election.member_id e) else was.

Lemma update_election_member e cm :
  let '(cm', lead) := CensusMember.update_from_election_rumor e cm in
  CensusMember.member_id cm' = CensusMember.member_id cm /\
  CensusMember.leader cm' = lead /\
  lead = leads e (CensusMember.member_id cm) (CensusMember.leader cm) /\
  CensusMember.follower cm' =
    (if decide (Election.status e = Finished) then negb lead else CensusMember.follower cm) /\
  CensusMember.update_leader cm' = CensusMember.update_leader cm /\
  CensusMember.service cm' = CensusMember.service cm /\
  CensusMember.group cm' = CensusMember.group cm /\
  CensusMember.sys cm' = CensusMember.sys cm /\
  CensusMember.alive cm' = CensusMember.alive cm /\ CensusMember.suspect cm' = CensusMember.suspect cm /\
  CensusMember.confirmed cm' = CensusMember.confirmed cm /\ CensusMember.departed cm' = CensusMember.departed cm.
Proof.
  unfold CensusMember.update_from_election_rumor, leads.
  destruct (decide (Election.status e = Finished)) as [E|E].
  - rewrite (bool_decide_eq_true_2 _ E). by destruct (String.eqb _ _).
  - by rewrite (bool_decide_eq_false_2 _ E).
Qed.

Lemma update_election_update_member e cm :
  let '(cm', lead) := CensusMember.update_from_election_update_rumor e cm in
  CensusMember.member_id cm' = CensusMember.member_id cm /\
  CensusMember.update_leader cm' = lead /\
  lead = leads (ElectionUpdate.inner e) (CensusMember.member_id cm) (CensusMember.update_leader cm) /\
  CensusMember.leader cm' = CensusMember.leader cm /\
  CensusMember.follower cm' = CensusMember.follower cm /\
  CensusMember.service cm' = CensusMember.service cm /\
  CensusMember.group cm' = CensusMember.group cm /\
  CensusMember.sys cm' = CensusMember.sys cm /\
  CensusMember.alive cm' = CensusMember.alive cm /\ CensusMember.suspect cm' = CensusMember.suspect cm /\
  CensusMember.confirmed cm' = CensusMember.confirmed cm /\ CensusMember.departed cm' = CensusMember.departed cm.
Proof.
  unfold CensusMember.update_from_election_update_rumor, leads.
  destruct (decide (Election.status (ElectionUpdate.inner e) = Finished)) as [E|E].
  - rewrite (bool_decide_eq_true_2 _ E). by destruct (String.eqb _ _).
  - by rewrite (bool_decide_eq_false_2 _ E).
Qed.

(** At most one member leads after an election when at most one led before. *)
Lemma leads_unique e id id' was was' :
  leads e id was = true -> leads e id' was' = true ->
  (was = true -> was' = true -> id = id') -> id = id'.
Proof.
  unfold leads. case_decide; [|auto]. intros ->%String.eqb_eq ->%String.eqb_eq. done.
Qed.

(** The member an election loop records: the one flagged afterwards. *)
Lemma elected_leader e (update : CensusMember.t Table -> CensusMember.t Table * bool)
    (flag : CensusMember.t Table -> bool) (pop : gmap string (CensusMember.t Table)) lid :
  (forall id cm, pop !! id = Some cm -> CensusMember.member_id cm = id) ->
  (forall id, lid = Some id <-> exists cm, pop !! id = Some cm /\ flag cm = true) ->
  (forall cm, CensusMember.member_id (update cm).1 = CensusMember.member_id cm /\
     flag (update cm).1 = (update cm).2 /\ (update cm).2 = leads e (CensusMember.member_id cm) (flag cm)) ->
  forall id, foldl (fun (l : option string) cm =>
      if (update cm).2 then Some (CensusMember.member_id (update cm).1) else l) None (btree_values pop) = Some id <->
    exists cm, (fst ∘ update <$> pop) !! id = Some cm /\ flag cm = true.
Proof.
  intros Hids Hlid Hu id.
  rewrite (leader_fold pop (fun cm => (update cm).2) (fun cm => CensusMember.member_id (update cm).1)).
  - setoid_rewrite lookup_fmap_Some. split.
    + intros (cm & Hcm & Hl). exists (update cm).1. destruct (Hu cm) as (_ & -> & _). eauto.
    + intros (? & (cm & <- & Hcm) & Hl). exists cm. destruct (Hu cm) as (_ & <- & _). done.
  - intros i cm Hcm. destruct (Hu cm) as [-> _]. by apply Hids.
  - intros i j cm cm' Hi Hli Hj Hlj.
    destruct (Hu cm) as (_ & _ & E), (Hu cm') as (_ & _ & E'). rewrite E in Hli. rewrite E' in Hlj.
    rewrite (Hids _ _ Hi) in Hli. rewrite (Hids _ _ Hj) in Hlj.
    eapply leads_unique; [done..|]. intros Hl Hl'.
    assert (lid = Some i) as E1 by (apply Hlid; eauto).
    assert (lid = Some j) as E2 by (apply Hlid; eauto). congruence.
Qed.

(** Updating every member of a population in fields a flag does not depend on. *)
Lemma fmap_flag (f : CensusMember.t Table -> CensusMember.t Table) (flag : CensusMember.t Table -> bool)
    (pop : gmap string (CensusMember.t Table)) id :
  (forall cm, flag (f cm) = flag cm) ->
  (exists cm, (f <$> pop) !! id = Some cm /\ flag cm = true) <->
  (exists cm, pop !! id = Some cm /\ flag cm = true).
Proof.
  intros Hf. setoid_rewrite lookup_fmap_Some. split.
  - intros (? & (cm & <- & Hcm) & Hl). exists cm. by rewrite Hf in Hl.
  - intros (cm & Hcm & Hl). exists (f cm). rewrite Hf. eauto.
Qed.

Lemma update_election_kept e cm (cm' := (CensusMember.update_from_election_rumor e cm).1) :
  CensusMember.member_id cm' = CensusMember.member_id cm /\
  CensusMember.update_leader cm' = CensusMember.update_leader cm /\ (flags_ok cm -> flags_ok cm').
Proof.
  subst cm'. pose proof (update_election_member e cm) as Hu.
  destruct (CensusMember.update_from_election_rumor e cm) as [cm' lead]. cbn [fst].
  destruct Hu as (-> & _ & _ & _ & -> & _ & _ & _ & Ha & Hs & Hc & Hd).
  unfold flags_ok. cbn. by rewrite Ha, Hs, Hc, Hd.
Qed.

Lemma update_election_update_kept e cm (cm' := (CensusMember.update_from_election_update_rumor e cm).1) :
  CensusMember.member_id cm' = CensusMember.member_id cm /\
  CensusMember.leader cm' = CensusMember.leader cm /\ (flags_ok cm -> flags_ok cm').
Proof.
  subst cm'. pose proof (update_election_update_member e cm) as Hu.
  destruct (CensusMember.update_from_election_update_rumor e cm) as [cm' lead]. cbn [fst].
  destruct Hu as (-> & _ & _ & -> & _ & _ & _ & _ & Ha & Hs & Hc & Hd).
  unfold flags_ok. cbn. by rewrite Ha, Hs, Hc, Hd.
Qed.

Lemma update_from_election_rumor_wf local sg e g :
  group_wf local sg g -> group_wf local sg (CensusGroup.update_from_election_rumor e g).
Proof.
  intros Hg. split; cbn; try apply Hg.
  - intros id cm. rewrite lookup_fmap_Some. intros (cm0 & <- & Hcm). unfold compose.
    destruct (update_election_kept e cm0) as [-> _]. by eapply gw_ids.
  - intros id cm. rewrite lookup_fmap_Some. intros (cm0 & <- & Hcm). unfold compose.
    destruct (update_election_kept e cm0) as (_ & _ & Hf). by eapply Hf, gw_flags.
  - apply (elected_leader e _ _ _ (CensusGroup.leader_id g) (gw_ids _ _ _ Hg) (gw_leader _ _ _ Hg)).
    intros cm. pose proof (update_election_member e cm) as Hu.
    destruct (CensusMember.update_from_election_rumor e cm). naive_solver.
  - intros id. rewrite fmap_flag; [apply Hg|]. intros cm. apply update_election_kept.
Qed.

Lemma update_from_election_update_rumor_wf local sg e g :
  group_wf local sg g -> group_wf local sg (CensusGroup.update_from_election_update_rumor e g).
Proof.
  intros Hg. split; cbn; try apply Hg.
  - intros id cm. rewrite lookup_fmap_Some. intros (cm0 & <- & Hcm). unfold compose.
    destruct (update_election_update_kept e cm0) as [-> _]. by eapply gw_ids.
  - intros id cm. rewrite lookup_fmap_Some. intros (cm0 & <- & Hcm). unfold compose.
    destruct (update_election_update_kept e cm0) as (_ & _ & Hf). by eapply Hf, gw_flags.
  - intros id. rewrite fmap_flag; [apply Hg|]. intros cm. apply update_election_update_kept.
  - apply (elected_leader (ElectionUpdate.inner e) _ _ _ (CensusGroup.update_leader_id g)
      (gw_ids _ _ _ Hg) (gw_update_leader _ _ _ Hg)).
    intros cm. pose proof (update_election_update_member e cm) as Hu.
    destruct (CensusMember.update_from_election_update_rumor e cm). naive_solver.
Qed.

(** What a store makes of the groups when it holds one rumor per group, under the id [slot]. *)
Definition slot_applied {T} (slot : string) (st : RumorStore.t T)
    (update : T -> CensusGroup.t Table Value -> CensusGroup.t Table Value)
    (gs gs' : gmap ServiceGroup.t (CensusGroup.t Table Value)) : Prop :=
  forall sg, gs' !! sg =
    match group_rumors st sg ≫= (.!! slot) with
    | Some e => update e <$> gs !! sg
    | None => gs !! sg
    end.

Lemma slot_applied_wf {T} slot (st : RumorStore.t T) update local gs gs' :
  (forall sg e g, group_wf local sg g -> group_wf local sg (update e g)) ->
  groups_wf local gs -> slot_applied slot st update gs gs' -> groups_wf local gs'.
Proof.
  intros Hu Hgs Happ sg g. rewrite Happ. destruct (_ ≫= _) as [e|]; [|apply Hgs].
  intros (g0 & Hg0 & ->)%fmap_Some. by apply Hu, Hgs.
Qed.

Lemma slot_applied_None {T} slot (st : RumorStore.t T)
    (update : T -> CensusGroup.t Table Value -> CensusGroup.t Table Value) gs gs' sg :
  slot_applied slot st update gs gs' -> gs !! sg = None -> gs' !! sg = None.
Proof. intros Happ Hg. rewrite Happ, Hg. by case_match. Qed.

Lemma update_from_election_store_spec o st gs :
  election_slots st ->
  Returns (CensusRing.update_from_election_store o st gs)
    (slot_applied "election" st CensusGroup.update_from_election_rumor gs).
Proof.
  intros Hst. eapply Returns_mono.
  { apply (for_each_store _ (fun sg m old new => exists e, m !! "election" = Some e /\
      new = CensusGroup.update_from_election_rumor e <$> old)).
    intros k m gs1 Hk. cbn [fst snd]. unfold CensusRing.service_group_from_str.
    destruct (Hst _ _ Hk) as [e He]. rewrite He. cbn.
    destruct (ServiceGroup.from_str k) as [sg|] eqn:Hp; [|done]. intros _.
    destruct (gs1 !! sg) as [g|] eqn:E; cbn.
    - split; [exists e; by rewrite lookup_insert_eq|]. intros; by apply lookup_insert_ne.
    - split; [exists e; by rewrite E|done]. }
  cbn beta. intros gs' Hgs sg. specialize (Hgs sg). destruct (group_rumors st sg) as [m|]; [|done].
  destruct Hgs as (_ & e & He & ->). cbn. by rewrite He.
Qed.

Lemma update_from_election_update_store_spec o st gs :
  election_slots st ->
  Returns (CensusRing.update_from_election_update_store o st gs)
    (slot_applied "election" st CensusGroup.update_from_election_update_rumor gs).
Proof.
  intros Hst. eapply Returns_mono.
  { apply (for_each_store _ (fun sg m old new => exists e, m !! "election" = Some e /\
      new = CensusGroup.update_from_election_update_rumor e <$> old)).
    intros k m gs1 Hk. cbn [fst snd]. unfold CensusRing.service_group_from_str.
    destruct (Hst _ _ Hk) as [e He].
    destruct (ServiceGroup.from_str k) as [sg|] eqn:Hp; [|done]. intros _.
    destruct (gs1 !! sg) as [g|] eqn:E; cbn; rewrite ?He; cbn.
    - split; [exists e; by rewrite lookup_insert_eq|]. intros; by apply lookup_insert_ne.
    - split; [exists e; by rewrite E|done]. }
  cbn beta. intros gs' Hgs sg. specialize (Hgs sg). destruct (group_rumors st sg) as [m|]; [|done].
  destruct Hgs as (_ & e & He & ->). cbn. by rewrite He.
Qed.
End elections.

(** ** Configurations and files *)
Section configurations.
  Context {Table Value E : Type} (decrypt_with : bytes -> result E bytes).
  Context (from_utf8 : bytes -> option string) (toml_from_str : string -> option Value).
  Context `{!RegexEngine}.
  Implicit Types (g : CensusGroup.t Table Value) (gs : gmap ServiceGroup.t (CensusGroup.t Table Value)).
  Abbreviation update_config := (CensusGroup.update_from_service_config_rumor decrypt_with from_utf8 toml_from_str).

Lemma update_config_rest sc g :
  exists c, update_config sc g = CensusGroup.mk (CensusGroup.service_group g) (CensusGroup.election_status g)
    (CensusGroup.update_election_status g) (CensusGroup.leader_id g) c (CensusGroup.local_member_id g)
    (CensusGroup.population g) (CensusGroup.update_leader_id g) (CensusGroup.changed_files g)
    (CensusGroup.service_files g).
Proof.
  unfold CensusGroup.update_from_service_config_rumor.
  destruct (ServiceConfig.config _ _ _ sc) as [v|]; [|exists (CensusGroup.service_config g); by destruct g].
  cbn zeta. case_match; [by eexists|exists (CensusGroup.service_config g); by destruct g].
Qed.

Lemma update_config_wf local sg sc g : group_wf local sg g -> group_wf local sg (update_config sc g).
Proof. destruct (update_config_rest sc g) as [c ->]. by intros []. Qed.

Lemma update_from_service_config_spec o st gs :
  slot_applied "service_config" st update_config gs
    (CensusRing.update_from_service_config decrypt_with from_utf8 toml_from_str o st gs).
Proof.
  unfold CensusRing.update_from_service_config. set (step := fun _ _ => _).
  enough (Returns (for_each (fun e gs => Return (step gs e)) (RumorStore.keys o st) gs)
    (slot_applied "service_config" st update_config gs)) as Hr by (by rewrite for_each_foldl in Hr).
  eapply Returns_mono.
  { apply (for_each_store _ (fun sg m old new => new =
      match m !! "service_config" with Some sc => update_config sc <$> old | None => old end)).
    intros k m gs1 Hk. unfold step, CensusRing.service_group_from_str. cbn [fst snd].
    destruct (ServiceGroup.from_str k) as [sg|] eqn:Hp; [|done]. intros _. cbn.
    destruct (m !! "service_config") as [sc|]; [|done].
    destruct (gs1 !! sg) as [g|] eqn:Eg; [|by rewrite Eg].
    rewrite lookup_insert_eq. split; [done|]. intros; by apply lookup_insert_ne. }
  cbn beta. intros gs' Hgs sg. specialize (Hgs sg). destruct (group_rumors st sg) as [m|]; [|done].
  by destruct Hgs as (_ & ->).
Qed.

End configurations.

Section files.
  Context {Table Value E : Type} (decrypt_with : bytes -> result E bytes).
  Context `{!RegexEngine}.
  Implicit Types (g : CensusGroup.t Table Value) (gs : gmap ServiceGroup.t (CensusGroup.t Table Value)).

(** What a file rumor makes of the known file, and whether it counts as a change. *)
Definition file_after (old : option ServiceFileEntry.t) (r : ServiceFile.t) : ServiceFileEntry.t * bool :=
  let file := match old with Some f => f | None => ServiceFileEntry.default end in
  if decide (ServiceFileEntry.incarnation file < ServiceFile.incarnation r)%Z
  then match ServiceFile.body decrypt_with r with
       | Ok body => (ServiceFileEntry.mk (ServiceFile.filename r) (ServiceFile.incarnation r) body, true)
       | Err _ => (file, false)
       end
  else (file, false).

Lemma update_file_eq r g :
  let '(file, fresh) := file_after (CensusGroup.service_files g !! ServiceFile.filename r) r in
  CensusGroup.update_file decrypt_with r g =
  CensusGroup.set_files (CensusGroup.changed_files g ++ if fresh then [ServiceFile.filename r] else [])
    (<[ServiceFile.filename r := file]> (CensusGroup.service_files g)) g.
Proof.
  unfold file_after, CensusGroup.update_file.
  set (file := match CensusGroup.service_files g !! _ with Some f => f | None => _ end).
  destruct (decide (_ < _)%Z); [rewrite decide_True by lia|rewrite decide_False by lia; by rewrite app_nil_r].
  destruct (ServiceFile.body decrypt_with r); cbn; [by rewrite insert_insert_eq|by rewrite app_nil_r].
Qed.

(** The files of a group after the rumors [l], and the names of the changed ones. *)
Definition files_applied (l : list (string * ServiceFile.t)) (changed : list string)
    (files0 files : gmap string ServiceFileEntry.t) : Prop :=
  NoDup changed /\
  (forall f, f ∈ changed <-> exists r, (f, r) ∈ l /\ (file_after (files0 !! f) r).2 = true) /\
  (forall f r, (f, r) ∈ l -> files !! f = Some (file_after (files0 !! f) r).1) /\
  (forall f, f ∉ l.*1 -> files !! f = files0 !! f).

Lemma update_files_loop l g :
  NoDup l.*1 -> (forall f r, (f, r) ∈ l -> ServiceFile.filename r = f) ->
  exists changed files,
    foldl (fun g (e : string * ServiceFile.t) => CensusGroup.update_file decrypt_with e.2 g) g l =
      CensusGroup.set_files (CensusGroup.changed_files g ++ changed) files g /\
    files_applied l changed (CensusGroup.service_files g) files.
Proof.
  revert g. induction l as [|[f r] l IH]; intros g Hnd Hl.
  { exists [], (CensusGroup.service_files g). split; [rewrite app_nil_r; by destruct g|].
    unfold files_applied. split_and!; [constructor|..|done]; [|set_solver].
    intros f. split; [set_solver|]. intros (r & Hin & _). by apply not_elem_of_nil in Hin. }
  cbn in Hnd. apply NoDup_cons in Hnd as [Hf Hnd].
  assert (ServiceFile.filename r = f) as Hr by (apply Hl; set_solver).
  assert (Hother : forall f' r', (f', r') ∈ l -> f <> f').
  { intros f' r' Hin ->. apply Hf, list_elem_of_fmap. by exists (f', r'). }
  cbn [foldl snd]. pose proof (update_file_eq r g) as Hu. rewrite Hr in Hu.
  destruct (file_after (CensusGroup.service_files g !! f) r) as [file fresh] eqn:Efile. rewrite Hu. clear Hu.
  edestruct (IH (CensusGroup.set_files (CensusGroup.changed_files g ++ if fresh then [f] else [])
    (<[f := file]> (CensusGroup.service_files g)) g)) as (changed & files & -> & Hcd & Hc & Hin & Hout);
    [done|set_solver|].
  cbn in *.
  exists ((if fresh then [f] else []) ++ changed), files. split; [by rewrite app_assoc|].
  assert (Hkeep : forall f' r', (f', r') ∈ l ->
    file_after (<[f:=file]> (CensusGroup.service_files g) !! f') r' = file_after (CensusGroup.service_files g !! f') r').
  { intros f' r' H'. by rewrite lookup_insert_ne by (by eapply Hother). }
  split_and!.
  - assert (f ∉ changed) by (rewrite Hc; intros (r' & H' & _); by apply (Hother _ _ H')).
    destruct fresh; cbn; [by constructor|done].
  - intros f'. rewrite elem_of_app, Hc. split.
    + intros [H'|(r' & H' & ?)].
      * destruct fresh; [|by apply not_elem_of_nil in H']. apply list_elem_of_singleton in H' as ->.
        exists r. rewrite Efile. split; [set_solver|done].
      * exists r'. rewrite Hkeep in * by done. split; [set_solver|done].
    + intros (r' & [[= -> ->]|H']%elem_of_cons & Hfr).
      * rewrite Efile in Hfr. cbn in Hfr. subst fresh. left. set_solver.
      * right. exists r'. by rewrite Hkeep by done.
  - intros f' r' [[= -> ->]|H']%elem_of_cons.
    + rewrite Hout by done. rewrite lookup_insert_eq, Efile. done.
    + rewrite (Hin _ _ H'). by rewrite Hkeep.
  - intros f' H'. cbn in H'. rewrite Hout by set_solver. apply lookup_insert_ne. set_solver.
Qed.

Lemma update_from_service_file_rumors_spec o m g :
  (forall f r, m !! f = Some r -> ServiceFile.filename r = f) ->
  exists changed files,
    CensusGroup.update_from_service_file_rumors decrypt_with o m g = CensusGroup.set_files changed files g /\
    files_applied (map_to_list m) changed (CensusGroup.service_files g) files.
Proof.
  intros Hm. unfold CensusGroup.update_from_service_file_rumors.
  destruct (update_files_loop (permute o (map_to_list m)) (CensusGroup.set_files [] (CensusGroup.service_files g) g))
    as (changed & files & -> & Hcd & Hc & Hin & Hout).
  - rewrite permute_perm. apply NoDup_fst_map_to_list.
  - intros f r. rewrite elem_of_permute, elem_of_map_to_list. apply Hm.
  - exists changed, files. split; [done|]. cbn in *. unfold files_applied.
    assert (Hel : forall f r, (f, r) ∈ permute o (map_to_list m) <-> (f, r) ∈ map_to_list m)
      by (intros; apply elem_of_permute).
    setoid_rewrite Hel in Hc. setoid_rewrite Hel in Hin. split_and!; [done..|].
    intros f Hf. apply Hout. by rewrite permute_perm.
Qed.

Lemma update_files_wf local sg o m g :
  (forall f r, m !! f = Some r -> ServiceFile.filename r = f) -> group_wf local sg g ->
  group_wf local sg (CensusGroup.update_from_service_file_rumors decrypt_with o m g).
Proof.
  intros Hm Hg. destruct (update_from_service_file_rumors_spec o m g Hm) as (changed & files & -> & _ & Hc & Hin & _).
  destruct Hg. split; cbn; try done. intros f (r & Hr & _)%Hc. rewrite (Hin _ _ Hr). by eexists.
Qed.

(** What the file rumors make of the groups. *)
Definition files_populated (o : order) (local : string) (st : RumorStore.t ServiceFile.t)
    (gs gs' : gmap ServiceGroup.t (CensusGroup.t Table Value)) : Prop :=
  forall sg, gs' !! sg =
    match group_rumors st sg with
    | Some m => Some (CensusGroup.update_from_service_file_rumors decrypt_with o m (entry_of local sg (gs !! sg)))
    | None => gs !! sg
    end.

Lemma update_from_service_files_spec o local st gs :
  files_populated o local st gs (CensusRing.update_from_service_files decrypt_with o local st gs).
Proof.
  unfold CensusRing.update_from_service_files. set (step := fun _ _ => _).
  enough (Returns (for_each (fun e gs => Return (step gs e)) (RumorStore.keys o st) gs)
    (files_populated o local st gs)) as Hr by (by rewrite for_each_foldl in Hr).
  eapply Returns_mono.
  { apply (for_each_store _ (fun sg m old new => new =
      Some (CensusGroup.update_from_service_file_rumors decrypt_with o m (entry_of local sg old)))).
    intros k m gs1 Hk. unfold step, CensusRing.service_group_from_str. cbn [fst snd].
    destruct (ServiceGroup.from_str k) as [sg|] eqn:Hp; [|done]. intros _. cbn.
    rewrite lookup_insert_eq. split; [done|]. intros; by apply lookup_insert_ne. }
  cbn beta. intros gs' Hgs sg. specialize (Hgs sg). destruct (group_rumors st sg) as [m|]; [|done].
  by destruct Hgs as (_ & ->).
Qed.

Lemma files_populated_wf o local st gs gs' :
  RumorStore.wf st -> groups_wf local gs -> files_populated o local st gs gs' -> groups_wf local gs'.
Proof.
  intros Hst Hgs Hf sg g. rewrite Hf. destruct (group_rumors st sg) as [m|] eqn:Hm; [|apply Hgs].
  intros [= <-]. apply update_files_wf; [by apply (group_rumors_ids _ _ _ Hst Hm)|].
  apply entry_of_wf; [|done]. unfold group_rumors in Hm.
  destruct (ServiceGroup.from_str _) as [sg'|] eqn:Hp; [|done].
  apply from_str_as_str in Hp as E'. by destruct sg, sg'; cbn in *; subst.
Qed.
End files.

(** ** A whole update *)
Section update.
  Context {Table Value E : Type} (table_default : Table) (toml_from_slice : bytes -> option Table).
  Context (decrypt_with : bytes -> result E bytes).
  Context (from_utf8 : bytes -> option string) (toml_from_str : string -> option Value).
  Context `{!RegexEngine}.
  Implicit Types (r : CensusRing.t Table Value) (gs : gmap ServiceGroup.t (CensusGroup.t Table Value)).
  Abbreviation update_server :=
    (CensusRing.update_from_server table_default toml_from_slice decrypt_with from_utf8 toml_from_str).

(** Some counter of the stores of a server moved since the last update. *)
Definition behind (s : Server.t) (r : CensusRing.t Table Value) : bool :=
  CensusRing.stale (Server.service_store s) (Server.election_store s) (Server.update_store s)
    (Server.member_list s) (Server.service_config_store s) (Server.service_file_store s) r.

(** The steps of an update: the groups after the services and members, after both kinds of
    elections, and after the configurations and files. *)
Record updated (o : order) (s : Server.t) (local : string)
    (gs gs1 gs2 gs3 gs4 gs5 gs6 : gmap ServiceGroup.t (CensusGroup.t Table Value)) : Prop := {
  up_services : services_populated table_default toml_from_slice local (Server.service_store s) gs gs1;
  up_members : members_populated (Server.member_list s) gs1 gs2;
  up_elections : slot_applied "election" (Server.election_store s) CensusGroup.update_from_election_rumor gs2 gs3;
  up_updates : slot_applied "election" (Server.update_store s) CensusGroup.update_from_election_update_rumor gs3 gs4;
  up_configs : slot_applied "service_config" (Server.service_config_store s)
    (CensusGroup.update_from_service_config_rumor decrypt_with from_utf8 toml_from_str) gs4 gs5;
  up_files : files_populated decrypt_with o local (Server.service_file_store s) gs5 gs6;
  up_wf : groups_wf local gs1 /\ groups_wf local gs2 /\ groups_wf local gs6;
}.

Lemma update_from_server_spec o s r :
  wf s -> ring_wf r -> behind s r = true ->
  Returns (update_server o s r) (fun r' =>
    CensusRing.changed r' = true /\ ring_wf r' /\ behind s r' = false /\
    exists gs1 gs2 gs3 gs4 gs5, updated o s (CensusRing.local_member_id r) (CensusRing.census_groups r)
      gs1 gs2 gs3 gs4 gs5 (CensusRing.census_groups r')).
Proof.
  intros Hs Hr Hb. unfold CensusRing.update_from_server, CensusRing.update_from_rumors.
  unfold behind in Hb. rewrite Hb. unfold CensusRing.populate_census.
  apply (Returns_bind _ _ (fun gs2 => exists gs1, services_populated table_default toml_from_slice
      (CensusRing.local_member_id r) (Server.service_store s) (CensusRing.census_groups r) gs1 /\
    groups_wf (CensusRing.local_member_id r) gs1 /\ members_populated (Server.member_list s) gs1 gs2 /\
    groups_wf (CensusRing.local_member_id r) gs2)).
  { eapply Returns_bind; [apply (populate_services_spec _ _ o _ _ _ Hr (wf_services _ Hs))|].
    cbn beta. intros gs1 [Hg1 Hw1]. eapply Returns_mono.
    { apply (populate_members_spec o _ _ _ Hw1 (wf_member_list _ Hs)). }
    cbn beta. intros gs2 [Hg2 Hw2]. by exists gs1. }
  intros gs2 (gs1 & Hg1 & Hw1 & Hg2 & Hw2).
  eapply Returns_bind; [apply (update_from_election_store_spec o _ gs2 (wf_election_slots _ Hs))|].
  intros gs3 Hg3.
  eapply Returns_bind; [apply (update_from_election_update_store_spec o _ gs3 (wf_update_slots _ Hs))|].
  intros gs4 Hg4. cbn [Returns].
  pose proof (slot_applied_wf _ _ _ _ _ _ (fun _ _ _ => update_from_election_rumor_wf _ _ _ _) Hw2 Hg3) as Hw3.
  pose proof (slot_applied_wf _ _ _ _ _ _ (fun _ _ _ => update_from_election_update_rumor_wf _ _ _ _) Hw3 Hg4) as Hw4.
  pose proof (update_from_service_config_spec decrypt_with from_utf8 toml_from_str o
    (Server.service_config_store s) gs4) as Hg5.
  pose proof (slot_applied_wf _ _ _ _ _ _ (fun _ _ _ => update_config_wf _ _ _ _ _ _ _) Hw4 Hg5) as Hw5.
  set (gs5 := CensusRing.update_from_service_config _ _ _ _ _ _) in *.
  pose proof (update_from_service_files_spec decrypt_with o (CensusRing.local_member_id r)
    (Server.service_file_store s) gs5) as Hg6.
  pose proof (files_populated_wf _ _ _ _ _ _ (wf_files _ Hs) Hw5 Hg6) as Hw6.
  split_and!; [done|exact Hw6| |].
  - unfold behind, CensusRing.stale. cbn. rewrite !bool_decide_eq_false_2 by lia. done.
  - exists gs1, gs2, gs3, gs4, gs5. by split.
Qed.

(** What the elections leave alone in a member. *)
Definition flags_of (cm : CensusMember.t Table) : bool * bool * bool * bool :=
  (CensusMember.alive cm, CensusMember.suspect cm, CensusMember.confirmed cm, CensusMember.departed cm).
Definition health_flags (h : Health) : bool * bool * bool * bool :=
  match h with
  | Alive => (true, false, false, false)
  | Suspect => (false, true, false, false)
  | Confirmed => (false, false, true, false)
  | Departed => (false, false, false, true)
  end.
Definition profile (cm : CensusMember.t Table) :=
  (CensusMember.member_id cm, CensusMember.service cm, CensusMember.group cm, CensusMember.sys cm, flags_of cm).

(** The steps after the member list keep the groups and the profiles of their members. *)
Lemma slot_applied_profiles {T} slot (st : RumorStore.t T)
    (update : T -> CensusGroup.t Table Value -> CensusGroup.t Table Value) gs gs' sg g :
  (forall e g id, profile <$> CensusGroup.population (update e g) !! id = profile <$> CensusGroup.population g !! id) ->
  slot_applied slot st update gs gs' -> gs !! sg = Some g ->
  exists g', gs' !! sg = Some g' /\
    forall id, profile <$> CensusGroup.population g' !! id = profile <$> CensusGroup.population g !! id.
Proof.
  intros Hu Happ Hg. rewrite Happ, Hg. destruct (_ ≫= _) as [e|]; [|by exists g].
  exists (update e g). split; [done|apply Hu].
Qed.

Lemma election_profiles e (g : CensusGroup.t Table Value) id :
  profile <$> CensusGroup.population (CensusGroup.update_from_election_rumor e g) !! id =
  profile <$> CensusGroup.population g !! id.
Proof.
  cbn. rewrite lookup_fmap. destruct (CensusGroup.population g !! id) as [cm|]; [|done]. cbn. f_equal.
  pose proof (update_election_member e cm) as Hu.
  destruct (CensusMember.update_from_election_rumor e cm). unfold profile, flags_of. cbn. naive_solver congruence.
Qed.

Lemma election_update_profiles e (g : CensusGroup.t Table Value) id :
  profile <$> CensusGroup.population (CensusGroup.update_from_election_update_rumor e g) !! id =
  profile <$> CensusGroup.population g !! id.
Proof.
  cbn. rewrite lookup_fmap. destruct (CensusGroup.population g !! id) as [cm|]; [|done]. cbn. f_equal.
  pose proof (update_election_update_member e cm) as Hu.
  destruct (CensusMember.update_from_election_update_rumor e cm). unfold profile, flags_of. cbn. naive_solver congruence.
Qed.

Lemma group_rumors_parses {T} (st : RumorStore.t T) sg m :
  group_rumors st sg = Some m -> ServiceGroup.from_str (ServiceGroup.as_str sg) = Ok sg.
Proof.
  unfold group_rumors. destruct (ServiceGroup.from_str _) as [sg'|] eqn:Hp; [|done]. intros _.
  apply from_str_as_str in Hp as E'. by destruct sg, sg'; cbn in *; subst.
Qed.

(** Configurations and files keep everything the census says of members and leaders. *)
Lemma updated_tail o s local gs gs1 gs2 gs3 gs4 gs5 gs6 sg g :
  updated o s local gs gs1 gs2 gs3 gs4 gs5 gs6 -> gs4 !! sg = Some g -> wf s ->
  exists g', gs6 !! sg = Some g' /\ CensusGroup.population g' = CensusGroup.population g /\
    CensusGroup.leader_id g' = CensusGroup.leader_id g /\
    CensusGroup.election_status g' = CensusGroup.election_status g.
Proof.
  intros [_ _ _ _ H5 H6 _] Hg Hs.
  assert (exists g5, gs5 !! sg = Some g5 /\ CensusGroup.population g5 = CensusGroup.population g /\
    CensusGroup.leader_id g5 = CensusGroup.leader_id g /\
    CensusGroup.election_status g5 = CensusGroup.election_status g) as (g5 & Hg5 & Hp & Hl & He).
  { rewrite H5, Hg. destruct (_ ≫= _) as [sc|]; [|by exists g]. cbn. eexists. split; [done|].
    by destruct (update_config_rest decrypt_with from_utf8 toml_from_str sc g) as [c ->]. }
  rewrite H6, Hg5. destruct (group_rumors _ sg) as [m|] eqn:Hm; [|by exists g5]. cbn. eexists. split; [done|].
  destruct (update_from_service_file_rumors_spec decrypt_with o m g5) as (ch & fs & -> & _); [|done].
  by apply (group_rumors_ids _ _ _ (wf_files _ Hs) Hm).
Qed.

Lemma updated_profiles o s local gs gs1 gs2 gs3 gs4 gs5 gs6 sg g :
  updated o s local gs gs1 gs2 gs3 gs4 gs5 gs6 -> gs2 !! sg = Some g -> wf s ->
  exists g', gs6 !! sg = Some g' /\
    forall id, profile <$> CensusGroup.population g' !! id = profile <$> CensusGroup.population g !! id.
Proof.
  intros Hup Hg Hs.
  destruct (slot_applied_profiles _ _ _ _ _ _ _ election_profiles (up_elections _ _ _ _ _ _ _ _ _ _ Hup) Hg)
    as (g3 & Hg3 & Hp3).
  destruct (slot_applied_profiles _ _ _ _ _ _ _ election_update_profiles (up_updates _ _ _ _ _ _ _ _ _ _ Hup) Hg3)
    as (g4 & Hg4 & Hp4).
  destruct (updated_tail _ _ _ _ _ _ _ _ _ _ _ _ Hup Hg4 Hs) as (g6 & Hg6 & Hp6 & _).
  exists g6. split; [done|]. intros id. by rewrite Hp6, Hp4, Hp3.
Qed.

(** What an update makes of a service heard of. *)
Definition member_shown (s : Server.t) (sg : ServiceGroup.t) (rumor : Service.t) (cm : CensusMember.t Table) : Prop :=
  CensusMember.member_id cm = Service.member_id rumor /\
  ServiceGroup.service sg = Return (CensusMember.service cm) /\
  ServiceGroup.group sg = Return (CensusMember.group cm) /\
  match MemberList.members (Server.member_list s) !! Service.member_id rumor with
  | Some m => sys_gossip_ip (CensusMember.sys cm) = m_address m /\
      sys_gossip_port (CensusMember.sys cm) = as_u32 (m_gossip_port m) /\
      exists h, MemberList.health_of (Server.member_list s) m = Some h /\ flags_of cm = health_flags h
  | None => CensusMember.sys cm = sv_sys (Service.deref rumor)
  end.

Lemma get_group_rumors `{Rumor T} (st : RumorStore.t T) sg id (r : T) :
  ServiceGroup.from_str (ServiceGroup.as_str sg) = Ok sg ->
  RumorStore.get st (ServiceGroup.as_str sg) id = Some r <->
  exists m, group_rumors st sg = Some m /\ m !! id = Some r.
Proof.
  intros Hsg. unfold RumorStore.get, group_rumors. rewrite Hsg.
  destruct (RumorStore.entries st !! _) as [m|]; naive_solver.
Qed.

(** A member of the group after the member list was read, by its service rumor. *)
Lemma populated_member o s local gs gs1 gs2 gs3 gs4 gs5 gs6 sg m id rumor :
  updated o s local gs gs1 gs2 gs3 gs4 gs5 gs6 -> wf s ->
  group_rumors (Server.service_store s) sg = Some m -> m !! id = Some rumor ->
  exists g cm, gs2 !! sg = Some g /\ CensusGroup.population g !! id = Some cm /\ member_shown s sg rumor cm.
Proof.
  intros Hup Hs Hm Hr. pose proof (up_services _ _ _ _ _ _ _ _ _ _ Hup sg) as H1. rewrite Hm in H1.
  destruct H1 as (Hsg & g1 & Hg1 & p & -> & Hp). specialize (Hp id). rewrite Hr in Hp.
  destruct Hp as (cm & Hcm & Hu).
  pose proof (group_rumors_ids _ _ _ (wf_services _ Hs) Hm _ _ Hr) as Hid. cbn in Hid.
  pose proof (update_service_spec table_default toml_from_slice sg rumor
    (service_entry table_default (entry_of local sg (gs !! sg)) id) Hsg) as Hspec.
  rewrite Hu in Hspec. destruct Hspec as (Hmid & Hsvc & Hgrp & Hsys & _).
  pose proof (up_members _ _ _ _ _ _ _ _ _ _ Hup sg) as H2. rewrite Hg1 in H2.
  destruct H2 as (p2 & Hg2 & Hp2). eexists _, _. split; [done|]. cbn.
  rewrite Hp2. cbn. rewrite Hcm. split; [done|]. unfold member_shown, refresh. rewrite Hid.
  destruct (MemberList.members (Server.member_list s) !! id) as [mem|] eqn:Emem.
  - destruct (MemberList.wf_health _ (wf_member_list _ Hs) id ltac:(by eexists)) as [h Hh].
    unfold MemberList.health_of_by_id, MemberList.health_of.
    rewrite (MemberList.wf_ids _ (wf_member_list _ Hs) _ _ Emem), Hh, <- Hid.
    destruct h; cbn; naive_solver.
  - by rewrite <- Hid.
Qed.

(** The members of a group after an update were heard of or known before. *)
Lemma updated_members_known o s local gs gs1 gs2 gs3 gs4 gs5 gs6 sg g id :
  updated o s local gs gs1 gs2 gs3 gs4 gs5 gs6 -> wf s ->
  gs6 !! sg = Some g -> is_Some (CensusGroup.population g !! id) ->
  (exists m rumor, group_rumors (Server.service_store s) sg = Some m /\ m !! id = Some rumor) \/
  exists g0, gs !! sg = Some g0 /\ is_Some (CensusGroup.population g0 !! id).
Proof.
  intros Hup Hs Hg Hpop. destruct (gs2 !! sg) as [g2|] eqn:E2.
  - destruct (updated_profiles _ _ _ _ _ _ _ _ _ _ _ _ Hup E2 Hs) as (g' & Hg' & Hprof).
    rewrite Hg' in Hg. injection Hg as ->. specialize (Hprof id). destruct Hpop as [cm Hcm].
    rewrite Hcm in Hprof. destruct (CensusGroup.population g2 !! id) as [cm2|] eqn:Ecm2; [|done].
    pose proof (up_members _ _ _ _ _ _ _ _ _ _ Hup sg) as H2.
    destruct (gs1 !! sg) as [g1|] eqn:E1; [|congruence]. destruct H2 as (p2 & Hg2 & Hp2).
    rewrite Hg2 in E2. injection E2 as <-. cbn in Ecm2. rewrite Hp2 in Ecm2.
    pose proof (up_services _ _ _ _ _ _ _ _ _ _ Hup sg) as H1.
    destruct (group_rumors (Server.service_store s) sg) as [m|] eqn:Hm.
    + destruct H1 as (_ & ? & Hg1 & p & -> & Hp). rewrite E1 in Hg1. injection Hg1 as ->.
      specialize (Hp id). destruct (m !! id) as [r|] eqn:Er; [left; eauto|right].
      cbn in Ecm2. rewrite Hp in Ecm2. destruct (gs !! sg) as [g0|]; [|done].
      exists g0. split; [done|]. cbn in Ecm2. destruct (CensusGroup.population g0 !! id); [by eexists|done].
    + right. exists g1. rewrite <- H1. split; [done|]. destruct (CensusGroup.population g1 !! id); [by eexists|done].
  - pose proof (slot_applied_None _ _ _ _ _ _ (up_elections _ _ _ _ _ _ _ _ _ _ Hup) E2) as E3.
    pose proof (slot_applied_None _ _ _ _ _ _ (up_updates _ _ _ _ _ _ _ _ _ _ Hup) E3) as E4.
    pose proof (slot_applied_None _ _ _ _ _ _ (up_configs _ _ _ _ _ _ _ _ _ _ Hup) E4) as E5.
    pose proof (up_files _ _ _ _ _ _ _ _ _ _ Hup sg) as H6.
    rewrite E5 in H6. rewrite H6 in Hg. destruct (group_rumors (Server.service_file_store s) sg) as [m|] eqn:Hm; [|done].
    apply (inj Some) in Hg as <-.
    destruct (update_from_service_file_rumors_spec decrypt_with o m (entry_of (Table := Table) (Value := Value) local sg None))
      as (ch & fs & Hf & _); [by apply (group_rumors_ids _ _ _ (wf_files _ Hs) Hm)|].
    rewrite Hf in Hpop. cbn in Hpop. rewrite lookup_empty in Hpop. by destruct Hpop.
Qed.

(** Updating the census from the stores of a well-formed server never panics, whatever
    the iteration orders of the hash maps: every [unwrap] on elections, healths and the
    parts of service groups succeeds.  It keeps the invariant, by which each group has at
    most one leader and one update leader, [leader_id] and [update_leader_id] name them, no
    member has two healths and every changed file is known.  It reports a change exactly
    when a counter of the stores moved since the last update, and a second update from the
    same stores reports none and changes nothing. *)
Theorem census_update_safe o s r :
  wf s -> ring_wf r ->
  Returns (update_server o s r) (fun r' =>
    ring_wf r' /\ CensusRing.changed r' = behind s r /\
    update_server o s r' = Return (CensusRing.set_changed false r')).
Proof.
  intros Hs Hr. destruct (behind s r) eqn:Hb.
  - eapply Returns_mono; [by apply update_from_server_spec|]. cbn beta.
    intros r' (Hc & Hw & Hb' & _). split_and!; [done..|].
    unfold CensusRing.update_from_server, CensusRing.update_from_rumors.
    unfold behind in Hb'. by rewrite Hb'.
  - unfold CensusRing.update_from_server, CensusRing.update_from_rumors.
    unfold behind in Hb. rewrite Hb. cbn. split_and!; [done..|].
    assert (forall c, CensusRing.stale (Server.service_store s) (Server.election_store s) (Server.update_store s)
      (Server.member_list s) (Server.service_config_store s) (Server.service_file_store s)
      (CensusRing.set_changed c r) = false) as Hc by done.
    by rewrite Hc.
Qed.

(** After an update that found something new, every service the server has heard of
    (for a service group whose name parses) is a member of its census group: with its id,
    the service and group names of the group, and, when the member list knows the member,
    with exactly the health flag of the member list and the gossip address of the member.
    And nobody else is in the census: a member was heard of or was there before. *)
Theorem census_members_spec o s r :
  wf s -> ring_wf r -> behind s r = true ->
  Returns (update_server o s r) (fun r' => forall sg id,
    ServiceGroup.from_str (ServiceGroup.as_str sg) = Ok sg ->
    (forall rumor, RumorStore.get (Server.service_store s) (ServiceGroup.as_str sg) id = Some rumor ->
       exists g cm, CensusRing.census_group_for r' sg = Some g /\
         CensusGroup.population g !! id = Some cm /\ member_shown s sg rumor cm) /\
    (forall g, CensusRing.census_group_for r' sg = Some g -> is_Some (CensusGroup.population g !! id) ->
       is_Some (RumorStore.get (Server.service_store s) (ServiceGroup.as_str sg) id) \/
       exists g0, CensusRing.census_group_for r sg = Some g0 /\ is_Some (CensusGroup.population g0 !! id))).
Proof.
  intros Hs Hr Hb. eapply Returns_mono; [by apply update_from_server_spec|]. cbn beta.
  intros r' (_ & _ & _ & gs1 & gs2 & gs3 & gs4 & gs5 & Hup) sg id Hsg. split.
  - intros rumor (m & Hm & Hrumor)%get_group_rumors; [|done].
    destruct (populated_member _ _ _ _ _ _ _ _ _ _ _ _ _ _ Hup Hs Hm Hrumor) as (g2 & cm2 & Hg2 & Hcm2 & Hshown).
    destruct (updated_profiles _ _ _ _ _ _ _ _ _ _ _ _ Hup Hg2 Hs) as (g & Hg & Hprof).
    specialize (Hprof id). rewrite Hcm2 in Hprof.
    destruct (CensusGroup.population g !! id) as [cm|] eqn:Hcm; [|done].
    exists g, cm. split_and!; [done..|]. injection Hprof as E1 E2 E3 E4 E5 E6 E7 E8.
    unfold member_shown, flags_of in *. by rewrite E1, E2, E3, E4, E5, E6, E7, E8.
  - intros g Hg Hpop.
    destruct (updated_members_known _ _ _ _ _ _ _ _ _ _ _ _ _ Hup Hs Hg Hpop) as [(m & rr & Hm & Hrr)|?]; [left|by right].
    exists rr. apply get_group_rumors; [done|]. eauto.
Qed.

(** A known group, or one with services, is there when the elections are read, with its old leader. *)
Lemma populated_group o s local gs gs1 gs2 gs3 gs4 gs5 gs6 sg :
  updated o s local gs gs1 gs2 gs3 gs4 gs5 gs6 ->
  is_Some (gs !! sg) \/ is_Some (group_rumors (Server.service_store s) sg) ->
  exists g, gs2 !! sg = Some g /\ CensusGroup.leader_id g = gs !! sg ≫= CensusGroup.leader_id.
Proof.
  intros Hup Hknown.
  assert (exists g1, gs1 !! sg = Some g1 /\ CensusGroup.leader_id g1 = gs !! sg ≫= CensusGroup.leader_id)
    as (g1 & Hg1 & Hl1).
  { pose proof (up_services _ _ _ _ _ _ _ _ _ _ Hup sg) as H1.
    destruct (group_rumors _ sg) as [m|] eqn:Hm.
    - destruct H1 as (_ & g1 & Hg1 & p & -> & _). eexists. split; [done|]. by destruct (gs !! sg).
    - destruct Hknown as [[g Hg]|[]]; [|done]. exists g. by rewrite H1, Hg. }
  pose proof (up_members _ _ _ _ _ _ _ _ _ _ Hup sg) as H2. rewrite Hg1 in H2.
  destruct H2 as (p & Hg2 & _). eexists. split; [done|]. done.
Qed.

(** The leader a group records for an election. *)
Lemma election_leader local sg e (g : CensusGroup.t Table Value) (g' := CensusGroup.update_from_election_rumor e g) :
  group_wf local sg g ->
  if decide (Election.status e = Finished)
  then (forall id, CensusGroup.leader_id g' = Some id <->
          id = Election.member_id e /\ is_Some (CensusGroup.population g' !! id)) /\
       forall id cm, CensusGroup.population g' !! id = Some cm ->
         CensusMember.leader cm = bool_decide (id = Election.member_id e) /\
         CensusMember.follower cm = negb (CensusMember.leader cm)
  else CensusGroup.leader_id g' = CensusGroup.leader_id g.
Proof.
  intros Hg. pose proof (update_from_election_rumor_wf local sg e g Hg) as Hg'.
  change (group_wf local sg g') in Hg'.
  assert (Hm : forall id cm, CensusGroup.population g' !! id = Some cm -> exists cm0,
    CensusGroup.population g !! id = Some cm0 /\
    CensusMember.leader cm = leads e id (CensusMember.leader cm0) /\
    CensusMember.follower cm =
      (if decide (Election.status e = Finished) then negb (CensusMember.leader cm) else CensusMember.follower cm0)).
  { intros id cm (cm0 & <- & Hcm0)%lookup_fmap_Some. exists cm0. unfold compose.
    pose proof (update_election_member e cm0) as Hu. destruct (CensusMember.update_from_election_rumor e cm0).
    rewrite (gw_ids _ _ _ Hg _ _ Hcm0) in Hu. cbn. naive_solver. }
  unfold leads in Hm. case_decide as Hfin.
  - assert (Hl : forall id cm, CensusGroup.population g' !! id = Some cm ->
      CensusMember.leader cm = bool_decide (id = Election.member_id e) /\
      CensusMember.follower cm = negb (CensusMember.leader cm)).
    { intros id cm Hcm. destruct (Hm _ _ Hcm) as (_ & _ & -> & ->). split; [|done].
      destruct (String.eqb_spec id (Election.member_id e)); [by rewrite bool_decide_eq_true_2|by rewrite bool_decide_eq_false_2]. }
    split; [|done]. intros id. rewrite (gw_leader _ _ _ Hg'). split.
    + intros (cm & Hcm & Hlead). destruct (Hl _ _ Hcm) as [Hb _]. rewrite Hlead in Hb.
      symmetry in Hb. apply bool_decide_eq_true in Hb. split; [done|by eexists].
    + intros (-> & cm & Hcm). exists cm. split; [done|]. destruct (Hl _ _ Hcm) as [-> _].
      by apply bool_decide_eq_true_2.
  - apply option_eq. intros id. rewrite (gw_leader _ _ _ Hg), (gw_leader _ _ _ Hg'). split.
    + intros (cm & Hcm & Hlead). destruct (Hm _ _ Hcm) as (cm0 & ? & Hl & _). exists cm0. split; congruence.
    + intros (cm & Hcm & Hlead). exists (CensusMember.update_from_election_rumor e cm).1.
      split; [cbn; by rewrite lookup_fmap, Hcm|]. pose proof (update_election_member e cm) as Hu.
      destruct (CensusMember.update_from_election_rumor e cm). cbn [fst].
      destruct Hu as (_ & -> & -> & _). unfold leads. by rewrite decide_False.
Qed.

(** The elections of package updates leave the leader of the group alone. *)
Lemma update_election_keeps_leader e (g : CensusGroup.t Table Value)
    (g' := CensusGroup.update_from_election_update_rumor e g) :
  CensusGroup.leader_id g' = CensusGroup.leader_id g /\
  CensusGroup.election_status g' = CensusGroup.election_status g /\
  forall id, (fun cm => (CensusMember.leader cm, CensusMember.follower cm)) <$> CensusGroup.population g' !! id =
             (fun cm => (CensusMember.leader cm, CensusMember.follower cm)) <$> CensusGroup.population g !! id.
Proof.
  split_and!; [done..|]. intros id. cbn. rewrite lookup_fmap.
  destruct (CensusGroup.population g !! id) as [cm|]; [|done]. cbn. f_equal.
  pose proof (update_election_update_member e cm) as Hu.
  destruct (CensusMember.update_from_election_update_rumor e cm). cbn. naive_solver congruence.
Qed.

(** The groups between the elections and the end of an update agree on leaders. *)
Lemma updated_leaders o s local gs gs1 gs2 gs3 gs4 gs5 gs6 sg g :
  updated o s local gs gs1 gs2 gs3 gs4 gs5 gs6 -> wf s -> gs3 !! sg = Some g ->
  exists g', gs6 !! sg = Some g' /\ CensusGroup.leader_id g' = CensusGroup.leader_id g /\
    CensusGroup.election_status g' = CensusGroup.election_status g /\
    forall id, (fun cm => (CensusMember.leader cm, CensusMember.follower cm)) <$> CensusGroup.population g' !! id =
               (fun cm => (CensusMember.leader cm, CensusMember.follower cm)) <$> CensusGroup.population g !! id.
Proof.
  intros Hup Hs Hg. pose proof (up_updates _ _ _ _ _ _ _ _ _ _ Hup sg) as H4. rewrite Hg in H4.
  assert (exists g4, gs4 !! sg = Some g4 /\ CensusGroup.leader_id g4 = CensusGroup.leader_id g /\
    CensusGroup.election_status g4 = CensusGroup.election_status g /\
    forall id, (fun cm => (CensusMember.leader cm, CensusMember.follower cm)) <$> CensusGroup.population g4 !! id =
               (fun cm => (CensusMember.leader cm, CensusMember.follower cm)) <$> CensusGroup.population g !! id)
    as (g4 & Hg4 & Hl4 & He4 & Hp4).
  { rewrite H4. destruct (_ ≫= _) as [e|]; [|by exists g]. cbn [fmap option_fmap option_map].
    eexists. split; [done|]. apply update_election_keeps_leader. }
  destruct (updated_tail _ _ _ _ _ _ _ _ _ _ _ _ Hup Hg4 Hs) as (g6 & Hg6 & Hp6 & Hl6 & He6).
  exists g6. rewrite Hp6, Hl6, He6. done.
Qed.

(** After an update, a census group (known before, or with a service) for which the server
    holds an election shows the status of that election.  If it is finished, the leader is
    the elected member if it is in the group, nobody otherwise, that member alone is marked
    as leader and all the others as followers; until it is finished the group keeps the
    leader it had before. *)
Theorem census_leader_spec o s r :
  wf s -> ring_wf r -> behind s r = true ->
  Returns (update_server o s r) (fun r' => forall sg e,
    ServiceGroup.from_str (ServiceGroup.as_str sg) = Ok sg ->
    RumorStore.get (Server.election_store s) (ServiceGroup.as_str sg) "election" = Some e ->
    is_Some (CensusRing.census_group_for r sg) \/
      (exists id, is_Some (RumorStore.get (Server.service_store s) (ServiceGroup.as_str sg) id)) ->
    exists g, CensusRing.census_group_for r' sg = Some g /\
      CensusGroup.election_status g = ElectionStatus.from (Election.status e) /\
      if decide (Election.status e = Finished)
      then CensusGroup.leader g = CensusGroup.population g !! Election.member_id e /\
           forall id cm, CensusGroup.population g !! id = Some cm ->
             CensusMember.leader cm = bool_decide (id = Election.member_id e) /\
             CensusMember.follower cm = negb (CensusMember.leader cm)
      else CensusGroup.leader_id g = CensusRing.census_group_for r sg ≫= CensusGroup.leader_id).
Proof.
  intros Hs Hr Hb. eapply Returns_mono; [by apply update_from_server_spec|]. cbn beta.
  intros r' (_ & _ & _ & gs1 & gs2 & gs3 & gs4 & gs5 & Hup) sg e Hsg He Hknown.
  destruct (populated_group _ _ _ _ _ _ _ _ _ _ sg Hup) as (g2 & Hg2 & Hl2).
  { destruct Hknown as [?|(id & rumor & Hrm)]; [by left|right].
    apply get_group_rumors in Hrm as (m & ? & _); [by eexists|done]. }
  apply get_group_rumors in He as (me & Hme & He); [|done].
  pose proof (up_elections _ _ _ _ _ _ _ _ _ _ Hup sg) as H3. rewrite Hme, Hg2 in H3. cbn in H3. rewrite He in H3.
  destruct (up_wf _ _ _ _ _ _ _ _ _ _ Hup) as (_ & Hw2 & _).
  pose proof (election_leader _ _ e g2 (Hw2 _ _ Hg2)) as Hlead.
  destruct (updated_leaders _ _ _ _ _ _ _ _ _ _ _ _ Hup Hs H3) as (g & Hg & Hl & Hst & Hfl).
  exists g. split; [done|]. split; [by rewrite Hst|].
  set (g3 := CensusGroup.update_from_election_rumor e g2) in *. clearbody g3.
  destruct (decide (Election.status e = Finished)) as [Hfin|Hfin].
  - destruct Hlead as [Hlid Hflags]. split.
    + unfold CensusGroup.leader. rewrite Hl. destruct (CensusGroup.leader_id g3) as [id|] eqn:Eid.
      * by destruct (proj1 (Hlid id) eq_refl) as [-> _].
      * specialize (Hfl (Election.member_id e)).
        destruct (CensusGroup.population g !! Election.member_id e) as [cm|]; [|done]. exfalso.
        destruct (CensusGroup.population g3 !! Election.member_id e) eqn:E3; [|done].
        assert (None = Some (Election.member_id e)) as Hc; [|discriminate Hc].
        apply Hlid. rewrite E3. split; [done|by eexists].
    + intros id cm Hcm. specialize (Hfl id). rewrite Hcm in Hfl.
      destruct (CensusGroup.population g3 !! id) as [cm3|] eqn:E3; [|done]. injection Hfl as -> ->. by apply Hflags.
  - by rewrite Hl, Hlead.
Qed.
End update.

(** ** The previous peer *)
Lemma position_Some {A} (p : A -> bool) l i :
  CensusGroup.position p l = Some i ->
  exists l1 x l2, l = l1 ++ x :: l2 /\ length l1 = i /\ p x = true /\ forall y, y ∈ l1 -> p y = false.
Proof.
  revert i. induction l as [|x l IH]; intros i; [done|]. cbn. destruct (p x) eqn:Hx.
  - intros [= <-]. exists [], x, l. split_and!; [done..|]. intros y Hy. by apply not_elem_of_nil in Hy.
  - destruct (CensusGroup.position p l) as [j|]; [|done]. cbn. intros [= <-].
    destruct (IH j eq_refl) as (l1 & y & l2 & -> & <- & ? & Hl1). exists (x :: l1), y, l2.
    split_and!; [done..|]. intros z [->|?]%elem_of_cons; [done|by apply Hl1].
Qed.

Lemma position_None {A} (p : A -> bool) l :
  CensusGroup.position p l = None -> forall y, y ∈ l -> p y = false.
Proof.
  induction l as [|x l IH]; cbn; [intros _ y Hy; by apply not_elem_of_nil in Hy|].
  destruct (p x) eqn:Hx; [done|]. destruct (CensusGroup.position p l); [done|].
  intros _ y [->|?]%elem_of_cons; [done|by apply IH].
Qed.

(** The ids of a population in the order of the map, strictly increasing. *)
Definition str_lt (a b : string) : Prop := str_geb a b = false.

Lemma btree_iter_sorted {V} (m : gmap string V) :
  StronglySorted (fun a b : string * V => str_lt a.1 b.1) (btree_iter m).
Proof.
  assert (StronglySorted (fun a b : string * V => str_geb b.1 a.1 = true) (btree_iter m)) as Hs.
  { apply Sorted_StronglySorted; [intros a b c H1 H2; cbn in *; by eapply str_geb_trans|].
    apply (sort_by_sorted (fun a b : string * V => str_geb b.1 a.1)). intros a b.
    destruct (str_geb b.1 a.1) eqn:E; [by left|right]. by apply str_geb_total. }
  assert (NoDup (btree_iter m).*1) as Hnd.
  { unfold btree_iter. rewrite sort_by_perm. apply NoDup_fst_map_to_list. }
  induction Hs as [|a l Hs IH Ha]; [constructor|]. cbn in Hnd. apply NoDup_cons in Hnd as [Hnot Hnd].
  constructor; [by apply IH|]. rewrite Forall_forall in *. intros b Hb. unfold str_lt.
  destruct (str_geb a.1 b.1) eqn:E; [|done]. exfalso. apply Hnot, list_elem_of_fmap.
  exists b. split; [|done]. by apply str_geb_antisym; [|apply Ha].
Qed.

Section previous_peer.
  Context {Table Value : Type}.
  Context `{!RegexEngine}.
  Implicit Types (g : CensusGroup.t Table Value) (cm : CensusMember.t Table).

Definition alive_members (g : CensusGroup.t Table Value) : list (CensusMember.t Table) :=
  filter (fun cm => CensusMember.alive cm = true) (btree_values (CensusGroup.population g)).

(** A member of this id is in the group and alive. *)
Definition alive_id (g : CensusGroup.t Table Value) (id : string) : Prop :=
  exists cm, CensusGroup.population g !! id = Some cm /\ CensusMember.alive cm = true.

Lemma elem_of_alive_members local sg g cm :
  group_wf local sg g ->
  cm ∈ alive_members g <->
  CensusGroup.population g !! CensusMember.member_id cm = Some cm /\ CensusMember.alive cm = true.
Proof.
  intros Hg. unfold alive_members. rewrite list_elem_of_filter, elem_of_btree_values. split.
  - intros (? & k & Hk). by rewrite (gw_ids _ _ _ Hg _ _ Hk).
  - intros [? ?]. split; [done|by eexists].
Qed.

Definition id_lt (a b : CensusMember.t Table) : Prop :=
  str_lt (CensusMember.member_id a) (CensusMember.member_id b).

Lemma alive_members_sorted local sg g :
  group_wf local sg g ->
  StronglySorted id_lt (alive_members g).
Proof.
  intros Hg. unfold alive_members, btree_values.
  assert (forall e, e ∈ btree_iter (CensusGroup.population g) -> CensusMember.member_id e.2 = e.1) as Hid.
  { intros [k cm]. unfold btree_iter. rewrite elem_of_sort_by, elem_of_map_to_list. apply (gw_ids _ _ _ Hg). }
  pose proof (btree_iter_sorted (CensusGroup.population g)) as Hs. revert Hid Hs.
  generalize (btree_iter (CensusGroup.population g)). intros l Hid Hs.
  induction Hs as [|[k cm] l Hs IH Ha]; [constructor|]. cbn [fmap list_fmap snd].
  assert (StronglySorted id_lt
    (filter (fun cm => CensusMember.alive cm = true) l.*2)) by (apply IH; set_solver).
  rewrite filter_cons. case_decide; [|done]. constructor; [done|]. apply Forall_forall.
  intros cm' [_ ([k' ?] & -> & Hin)%list_elem_of_fmap]%list_elem_of_filter. cbn.
  pose proof (Hid (k, cm) ltac:(set_solver)) as E1. pose proof (Hid _ (list_elem_of_further _ _ _ Hin)) as E2.
  cbn in E1, E2. unfold id_lt. rewrite E1, E2. eapply Forall_forall in Ha; [|exact Hin]. exact Ha.
Qed.

(** Splitting a strictly sorted list at an element. *)
Lemma sorted_split (l1 l2 : list (CensusMember.t Table)) x q :
  StronglySorted id_lt (l1 ++ x :: l2) ->
  q ∈ l1 ++ x :: l2 ->
  (q ∈ l1 /\ str_lt (CensusMember.member_id q) (CensusMember.member_id x)) \/ q = x \/
  (q ∈ l2 /\ str_lt (CensusMember.member_id x) (CensusMember.member_id q)).
Proof.
  intros Hs [Hq|[->|Hq]%elem_of_cons]%elem_of_app.
  - left. split; [done|]. apply (StronglySorted_app_1_elem_of id_lt _ _ _ _ Hs); [done|set_solver].
  - by right; left.
  - right; right. split; [done|]. apply StronglySorted_app_1_r in Hs. apply StronglySorted_inv in Hs as [_ Hs].
    eapply Forall_forall in Hs; [|exact Hq]. exact Hs.
Qed.

Lemma str_lt_asym a b : str_lt a b -> str_lt b a -> False.
Proof. unfold str_lt. intros H1 H2%str_geb_total. congruence. Qed.

Lemma str_lt_irrefl a : ~ str_lt a a.
Proof. unfold str_lt. by rewrite str_geb_refl. Qed.

(** The element before position [idx] of a sorted list, or the last one. *)
Lemma previous_in_sorted (l : list (CensusMember.t Table)) local idx
    (i := if decide (idx <= 0)%nat then (length l - 1)%nat else (idx - 1)%nat) :
  StronglySorted id_lt l ->
  CensusGroup.position (fun cm => String.eqb (CensusMember.member_id cm) local) l = Some idx ->
  (1 < length l)%nat ->
  exists x p, l !! i = Some p /\ x ∈ l /\ CensusMember.member_id x = local /\ p ∈ l /\ p <> x /\
    ((str_lt (CensusMember.member_id p) local /\
      forall q, q ∈ l -> str_lt (CensusMember.member_id q) local ->
        q = p \/ str_lt (CensusMember.member_id q) (CensusMember.member_id p)) \/
     ((forall q, q ∈ l -> q = x \/ str_lt local (CensusMember.member_id q)) /\
      (forall q, q ∈ l -> q = p \/ str_lt (CensusMember.member_id q) (CensusMember.member_id p)))).
Proof.
  intros Hs (l1 & x & l2 & -> & Hidx & <-%String.eqb_eq & _)%position_Some Hlen. exists x.
  assert (x ∈ l1 ++ x :: l2) as Hx by set_solver. subst i.
  destruct (decide (idx <= 0)%nat) as [Hz|Hz].
  - destruct l1; [|cbn in *; lia]. cbn [app] in *.
    destruct l2 as [|p l2 _] using rev_ind; [cbn in Hlen; lia|]. exists p.
    rewrite app_comm_cons in *. rewrite length_app, Nat.add_sub, list_lookup_middle by done.
    assert (p ∈ (x :: l2) ++ [p]) as Hp by set_solver.
    split_and!; [done..| |].
    { intros ->. apply (str_lt_irrefl (CensusMember.member_id x)).
      apply (StronglySorted_app_1_elem_of id_lt _ _ _ _ Hs); set_solver. }
    right. split.
    + intros q Hq. destruct (sorted_split [] (l2 ++ [p]) x q Hs Hq) as [[?%not_elem_of_nil _]|[?|[_ ?]]];
        [done|by left|by right].
    + intros q Hq. destruct (sorted_split (x :: l2) [] p q Hs Hq) as [[_ ?]|[?|[?%not_elem_of_nil _]]];
        [by right|by left|done].
  - destruct l1 as [|p l1 _] using rev_ind; [cbn in *; lia|]. rewrite length_app in Hidx. cbn in Hidx.
    exists p. rewrite <- app_assoc in *. cbn [app] in *.
    assert (p ∈ l1 ++ p :: x :: l2) as Hp by set_solver.
    assert (str_lt (CensusMember.member_id p) (CensusMember.member_id x)) as Hlt.
    { apply StronglySorted_app_1_r, StronglySorted_inv in Hs as [_ Hs]. by apply Forall_cons in Hs as [? _]. }
    split_and!; [apply list_lookup_middle; lia|done..| |].
    { intros ->. by eapply str_lt_irrefl. }
    left. split; [done|]. intros q Hq Hqx.
    destruct (sorted_split l1 (x :: l2) p q Hs Hq) as [[_ ?]|[?|[Hq2 _]]]; [by right|by left|]. exfalso.
    change (l1 ++ p :: x :: l2) with (l1 ++ [p] ++ x :: l2) in *. rewrite app_assoc in Hs, Hq.
    destruct (sorted_split (l1 ++ [p]) l2 x q Hs Hq) as [[Hq1 _]|[->|[_ ?]]].
    + eapply str_lt_irrefl, (StronglySorted_app_1_elem_of id_lt _ _ q q Hs); [done|set_solver].
    + by eapply str_lt_irrefl.
    + by eapply str_lt_asym.
Qed.

(** [p] is the alive member to the left of [local] in the circle of ids: the greatest below it,
    or the greatest of all when there is none below. *)
Definition left_neighbour (g : CensusGroup.t Table Value) (p local : string) : Prop :=
  alive_id g p /\ p <> local /\
  ((str_lt p local /\ forall q, alive_id g q -> str_lt q local -> q = p \/ str_lt q p) \/
   ((forall q, alive_id g q -> q = local \/ str_lt local q) /\
    (forall q, alive_id g q -> q = p \/ str_lt q p))).

(** [previous_peer] never panics.  It answers with the left neighbour of this Supervisor in
    the circle of alive members ordered by id, as the record of the census for it, and with
    nothing exactly when this Supervisor is not an alive member or no other member is alive. *)
Theorem previous_peer_spec local sg g :
  group_wf local sg g ->
  Returns (CensusGroup.previous_peer g) (fun r =>
    match r with
    | Some p => alive_id g local /\ CensusGroup.population g !! CensusMember.member_id p = Some p /\
                left_neighbour g (CensusMember.member_id p) local
    | None => ~ alive_id g local \/ forall q, alive_id g q -> q = local
    end).
Proof.
  intros Hg. unfold CensusGroup.previous_peer, CensusGroup.me. rewrite (gw_local _ _ _ Hg).
  fold (alive_members g).
  assert (Hin : forall q, alive_id g q <-> exists cm, cm ∈ alive_members g /\ CensusMember.member_id cm = q).
  { intros q. unfold alive_id. setoid_rewrite (elem_of_alive_members _ _ _ _ Hg). split.
    - intros (cm & Hcm & ?). exists cm. by rewrite (gw_ids _ _ _ Hg _ _ Hcm).
    - intros (cm & [? ?] & <-). by exists cm. }
  pose proof (alive_members_sorted _ _ _ Hg) as Hs.
  destruct (CensusGroup.population g !! local) as [my|] eqn:Hmy.
  2:{ left. intros (cm & ? & _). congruence. }
  pose proof (gw_ids _ _ _ Hg _ _ Hmy) as Hmyid.
  assert (Hid : forall a b, a ∈ alive_members g -> b ∈ alive_members g ->
    CensusMember.member_id a = CensusMember.member_id b -> a = b).
  { intros a b [Ha _]%(elem_of_alive_members _ _ _ _ Hg) [Hb _]%(elem_of_alive_members _ _ _ _ Hg) E.
    rewrite E in Ha. congruence. }
  rewrite Hmyid. case_decide as Hlen.
  { destruct (alive_members g) as [|x [|]] eqn:E; [| |cbn in Hlen; lia].
    - left. intros (cm & Hcm & _)%Hin. by apply not_elem_of_nil in Hcm.
    - destruct (decide (CensusMember.member_id x = local)) as [Hx|Hx].
      + right. intros q (cm & ->%list_elem_of_singleton & <-)%Hin. done.
      + left. by intros (cm & ->%list_elem_of_singleton & ?)%Hin. }
  destruct (CensusGroup.position _ (alive_members g)) as [idx|] eqn:Hpos.
  - destruct (previous_in_sorted _ local idx Hs Hpos ltac:(lia)) as (x & p & -> & Hx & Hxid & Hp & Hne & Hleft).
    cbn. pose proof Hp as [Hpp Hpa]%(elem_of_alive_members _ _ _ _ Hg).
    split_and!; [apply Hin; eauto|done|]. unfold left_neighbour. split_and!.
    + apply Hin. eauto.
    + intros E. apply Hne, Hid; [done..|congruence].
    + destruct Hleft as [[Hlt Hmax]|[Hmin Hmax]]; [left|right].
      * split; [done|]. intros q (cm & Hcm & <-)%Hin Hq. destruct (Hmax _ Hcm Hq) as [->|?]; [by left|by right].
      * split; intros q (cm & Hcm & <-)%Hin.
        -- destruct (Hmin _ Hcm) as [->|?]; [by left|by right].
        -- destruct (Hmax _ Hcm) as [->|?]; [by left|by right].
  - left. intros (cm & Hcm & Hcmid)%Hin. pose proof (position_None _ _ Hpos _ Hcm) as Hn. cbn in Hn.
    rewrite Hcmid, String.eqb_refl in Hn. done.
Qed.
End previous_peer.

(** ** Changed files *)
Section changed_files.
  Context {Table Value E : Type} (decrypt_with : bytes -> result E bytes).
  Implicit Types (g : CensusGroup.t Table Value).

Lemma lookup_all_returns (files : gmap string ServiceFileEntry.t) l acc :
  (forall f, f ∈ l -> is_Some (files !! f)) ->
  for_each (fun f fs => file ← expect "unwrap" (files !! f); Return (fs ++ [file])) l acc =
  Return (acc ++ omap (fun f => files !! f) l).
Proof.
  revert acc. induction l as [|f l IH]; intros acc Hc; cbn; [by rewrite app_nil_r|].
  destruct (Hc f ltac:(set_solver)) as [file Hfile]. rewrite Hfile. cbn.
  rewrite IH by set_solver. by rewrite <- app_assoc.
Qed.

Lemma NoDup_omap_names {A B} (f : A -> option B) (name : B -> A) l :
  NoDup l -> (forall x y, x ∈ l -> f x = Some y -> name y = x) -> NoDup (name <$> omap f l).
Proof.
  induction 1 as [|x l Hx Hnd IH]; intros Hf; [constructor|]. cbn.
  assert (NoDup (name <$> omap f l)) by (apply IH; set_solver).
  destruct (f x) as [y|] eqn:Hy; [|done]. cbn. constructor; [|done].
  rewrite (Hf x y) by (done || set_solver). intros (z & -> & (w & Hw & Hz)%list_elem_of_omap)%list_elem_of_fmap.
  rewrite (Hf w z) in Hx by (done || set_solver). done.
Qed.

(** The incarnation a group knows of a file; 0 for an unknown file. *)
Definition known_incarnation (g : CensusGroup.t Table Value) (f : string) : Z :=
  from_option ServiceFileEntry.incarnation 0%Z (CensusGroup.service_files g !! f).

(** When a rumor changes a file, and what it leaves otherwise. *)
Lemma file_after_fresh g f r file :
  ServiceFile.filename r = f ->
  file_after decrypt_with (CensusGroup.service_files g !! f) r = (file, true) <->
  exists b, (known_incarnation g f < ServiceFile.incarnation r)%Z /\
    ServiceFile.body decrypt_with r = Ok b /\ file = ServiceFileEntry.mk f (ServiceFile.incarnation r) b.
Proof.
  intros Hname. unfold file_after, known_incarnation. rewrite Hname. split.
  - intros Hf. destruct (ServiceFile.body decrypt_with r) as [b|] eqn:Hb; [exists b|];
      destruct (CensusGroup.service_files g !! f); cbn in *; case_decide; by simplify_eq.
  - intros (b & Hlt & Hb & ->).
    destruct (CensusGroup.service_files g !! f); cbn in *; rewrite decide_True by lia; by rewrite Hb.
Qed.

Lemma file_after_kept old r file :
  file_after decrypt_with old r = (file, false) -> file = from_option id ServiceFileEntry.default old.
Proof. unfold file_after. destruct old; cbn; repeat case_match; by intros; simplify_eq. Qed.

(** Reading the file rumors of a group leaves as its changed files exactly those whose
    rumor has a higher incarnation than the one known and can be decrypted, each once, with
    the name, incarnation and decrypted body of the rumor; looking them up never panics.  A
    file is never replaced by an older one, and only changed files are replaced.  A file
    nobody knows counts as known with incarnation 0, so a first upload with incarnation 0
    is not a change and only leaves an empty, nameless entry. *)
Theorem census_files_spec o m g :
  (forall f r, m !! f = Some r -> ServiceFile.filename r = f) ->
  let g' := CensusGroup.update_from_service_file_rumors decrypt_with o m g in
  let fresh f file := (exists r b, m !! f = Some r /\ (known_incarnation g f < ServiceFile.incarnation r)%Z /\
    ServiceFile.body decrypt_with r = Ok b /\ file = ServiceFileEntry.mk f (ServiceFile.incarnation r) b) in
  Returns (CensusGroup.changed_service_files g') (fun fs =>
    NoDup (ServiceFileEntry.filename <$> fs) /\
    forall file, file ∈ fs <-> exists f, fresh f file) /\
  forall f, (exists file, fresh f file /\ CensusGroup.service_files g' !! f = Some file) \/
    ((forall file, ~ fresh f file) /\ (f ∉ CensusGroup.changed_files g') /\
     CensusGroup.service_files g' !! f =
       if decide (CensusGroup.service_files g !! f = None /\ is_Some (m !! f))
       then Some ServiceFileEntry.default else CensusGroup.service_files g !! f).
Proof.
  intros Hm g' fresh. unfold g'.
  destruct (update_from_service_file_rumors_spec decrypt_with o m g Hm) as (changed & files & -> & Hnd & Hc & Hin & Hout).
  assert (Hmap : forall f r, (f, r) ∈ map_to_list m <-> m !! f = Some r) by (intros; apply elem_of_map_to_list).
  assert (Hfresh : forall f file, fresh f file <-> exists r, m !! f = Some r /\
    file_after decrypt_with (CensusGroup.service_files g !! f) r = (file, true)).
  { intros f file. unfold fresh. split; intros (r & H); exists r; pose proof (file_after_fresh g f r file);
      naive_solver. }
  assert (Hname : forall f file, f ∈ changed -> files !! f = Some file -> fresh f file).
  { intros f file (r & Hr & Hb)%Hc Hf. apply Hfresh. exists r. split; [by apply Hmap|].
    rewrite (Hin _ _ Hr) in Hf. by destruct (file_after _ _ _); cbn in *; simplify_eq. }
  assert (Hgot : forall f file, fresh f file -> f ∈ changed /\ files !! f = Some file).
  { intros f file (r & Hr & Hf)%Hfresh. apply Hmap in Hr. rewrite (Hin _ _ Hr), Hc. split; [exists r|]; by rewrite Hf. }
  split.
  - unfold CensusGroup.changed_service_files. cbn. rewrite lookup_all_returns; cbn.
    2:{ intros f (r & Hr & _)%Hc. rewrite (Hin _ _ Hr). by eexists. }
    split.
    + apply NoDup_omap_names; [done|]. intros f file Hf Hfile.
      by destruct (Hname f file Hf Hfile) as (r & b & _ & _ & _ & ->).
    + intros file. rewrite list_elem_of_omap. split.
      * intros (f & Hf & Hfile). exists f. by apply Hname.
      * intros (f & Hf). exists f. by apply Hgot.
  - intros f. cbn. destruct (m !! f) as [r|] eqn:Hr.
    + pose proof (proj2 (Hmap _ _) Hr) as Hr'. rewrite (Hin _ _ Hr').
      destruct (file_after decrypt_with (CensusGroup.service_files g !! f) r) as [file []] eqn:Hf.
      * left. exists file. split; [apply Hfresh; eauto|done].
      * right. split_and!.
        -- intros file' (r' & ? & ?)%Hfresh. congruence.
        -- intros (r' & Hr2%Hmap & ?)%Hc. replace r' with r in * by congruence. by rewrite Hf in *.
        -- cbn. rewrite (file_after_kept _ _ _ Hf). destruct (CensusGroup.service_files g !! f) as [old|].
           ++ by rewrite decide_False by naive_solver.
           ++ by rewrite decide_True by (split; [done|by eexists]).
    + right. split_and!.
      * intros file (r & ? & _)%Hfresh. congruence.
      * intros (r' & Hr2%Hmap & ?)%Hc. congruence.
      * rewrite decide_False by (intros [_ []]; done). apply Hout.
        intros ([f' r'] & -> & ?%Hmap)%list_elem_of_fmap. cbn in *. congruence.
Qed.
End changed_files.

(** ** Witnesses: the census of a ring of three members with a finished election *)
Definition ex_ring : CensusRing.t unit unit := CensusRing.new "a".
Definition ex_finished : Server.t := ex_run (ex_events ++ [EElection id_order ex_election]).
Definition ex_update (s : Server.t) (r : CensusRing.t unit unit) : outcome (CensusRing.t unit unit) :=
  @CensusRing.update_from_server unit unit unit tt (fun _ => Some tt) (fun b => Ok b) (fun _ => Some "")
    (fun _ => Some tt) reference_engine rev_order s r.

Lemma ex_finished_wf : wf ex_finished.
Proof.
  apply ex_run_wf. repeat constructor; try done. exists ex_group. vm_compute. reflexivity.
Qed.

Lemma ex_ring_wf : @ring_wf reference_engine _ _ ex_ring.
Proof. intros sg g Hg. cbn in Hg. by rewrite lookup_empty in Hg. Qed.

(** The group of the example after the update. *)
Definition ex_census_group : CensusGroup.t unit unit :=
  match ex_update ex_finished ex_ring with
  | Return r => from_option id (CensusGroup.new ex_group "a") (CensusRing.census_group_for r ex_group)
  | Panic _ => CensusGroup.new ex_group "a"
  end.

Lemma census_update_safe_witness :
  Returns (ex_update ex_finished ex_ring) (fun r' =>
    @ring_wf reference_engine _ _ r' /\ CensusRing.changed r' = true /\
    ex_update ex_finished r' = Return (CensusRing.set_changed false r')).
Proof.
  exact (@census_update_safe unit unit unit tt (fun _ => Some tt) (fun b => Ok b) (fun _ => Some "")
    (fun _ => Some tt) reference_engine rev_order ex_finished ex_ring ex_finished_wf ex_ring_wf).
Defined.

Lemma census_members_spec_witness :
  Returns (ex_update ex_finished ex_ring) (fun r' => exists g cm,
    CensusRing.census_group_for r' ex_group = Some g /\ CensusGroup.population g !! "b" = Some cm /\
    @member_shown unit reference_engine ex_finished ex_group (ex_service "svc.grp" "b") cm).
Proof.
  eapply Returns_mono.
  - exact (@census_members_spec unit unit unit tt (fun _ => Some tt) (fun b => Ok b) (fun _ => Some "")
      (fun _ => Some tt) reference_engine rev_order ex_finished ex_ring ex_finished_wf ex_ring_wf
      ltac:(vm_compute; reflexivity)).
  - cbn beta. intros r' H. destruct (H ex_group "b") as [Hm _]; [vm_compute; reflexivity|].
    apply Hm. vm_compute. reflexivity.
Defined.

Lemma census_leader_spec_witness :
  Returns (ex_update ex_finished ex_ring) (fun r' => exists g,
    CensusRing.census_group_for r' ex_group = Some g /\
    CensusGroup.election_status g = ElectionStatus.ElectionFinished /\
    CensusGroup.leader g = CensusGroup.population g !! "a").
Proof.
  eapply Returns_mono.
  - exact (@census_leader_spec unit unit unit tt (fun _ => Some tt) (fun b => Ok b) (fun _ => Some "")
      (fun _ => Some tt) reference_engine rev_order ex_finished ex_ring ex_finished_wf ex_ring_wf
      ltac:(vm_compute; reflexivity)).
  - cbn beta. intros r' H. destruct (H ex_group (Election.finish ex_election)) as (g & Hg & Hst & Hl & _).
    + vm_compute. reflexivity.
    + vm_compute. reflexivity.
    + right. exists "a". eexists. vm_compute. reflexivity.
    + by exists g.
Defined.

Lemma ex_census_group_wf : @group_wf reference_engine _ _ "a" ex_group ex_census_group.
Proof.
  destruct (Returns_inv _ _ (@update_from_server_spec unit unit unit tt (fun _ => Some tt) (fun b => Ok b)
    (fun _ => Some "") (fun _ => Some tt) reference_engine rev_order ex_finished ex_ring ex_finished_wf ex_ring_wf
    ltac:(vm_compute; reflexivity))) as (r' & Hr' & _ & Hw & _).
  unfold ex_census_group. fold (ex_update ex_finished ex_ring) in Hr'. rewrite Hr'.
  destruct (CensusRing.census_group_for r' ex_group) as [g|] eqn:E.
  - cbn. assert (CensusRing.local_member_id r' = "a") as <- by (revert Hr'; vm_compute; by intros [= <-]).
    by apply Hw.
  - apply new_group_wf. vm_compute. reflexivity.
Qed.

Lemma previous_peer_spec_witness :
  Returns (CensusGroup.previous_peer ex_census_group) (fun p =>
    match p with
    | Some p => left_neighbour ex_census_group (CensusMember.member_id p) "a"
    | None => False
    end).
Proof.
  pose proof (@previous_peer_spec unit unit reference_engine "a" ex_group ex_census_group ex_census_group_wf) as H.
  destruct (CensusGroup.previous_peer ex_census_group) as [[p|]|] eqn:E; [|exfalso|done].
  - apply H.
  - revert E. vm_compute. discriminate.
Defined.

Lemma census_files_spec_witness :
  let f := ServiceFile.mk (mkRumor RT_ServiceFile [] "m" (Some (PServiceFile
             (mkServiceFile "svc.grp" 1 false "a.txt" [Byte.x01])))) in
  let g := CensusGroup.new (Table := unit) (Value := unit) ex_group "a" in
  Returns (CensusGroup.changed_service_files
    (CensusGroup.update_from_service_file_rumors (E := unit) (fun b => Ok b) id_order {["a.txt" := f]} g))
    (fun fs => ServiceFileEntry.mk "a.txt" 1 [Byte.x01] ∈ fs).
Proof.
  intros f g. destruct (census_files_spec (E := unit) (fun b => Ok b) id_order {["a.txt" := f]} g) as [H _].
  - intros n r. rewrite lookup_singleton_Some. by intros [<- <-].
  - eapply Returns_mono; [exact H|]. cbn beta. intros fs [_ Hfs]. apply Hfs.
    exists "a.txt", f, [Byte.x01]. split_and!; [apply lookup_singleton_eq|by vm_compute|done..].
Defined.
