(* ===== verification/Updater.v ===== *)
(** * Package updates

    Models [components/sup/src/manager/service_updater.rs] and [Service::update_package] of
    [components/sup/src/manager/service/mod.rs].  A receiver is identified with the worker
    thread at its other end; what [try_recv] finds, and what the installations of a worker
    answer, are inputs. *)

From Stdlib Require Import Ascii.
From S2P Require Import Prelude Regex Text ServiceGroup Ident Target Metadata Install InstallProofs ServiceSpec SpecWatcher Manager Member Messages Rumor Heat Kinds Election Server ServerProofs Census CensusProofs.
Local Open Scope string_scope.
Local Open Scope list_scope.

(** ** Workers: [Worker] of the updater *)
Module UpdateWorker.
Record t := mk {
  current : PackageIdent.t;
  spec_ident : PackageIdent.t;
  builder_url : string;
  channel : string;
}.

Definition new (service : SupService.t) : t :=
  mk (Pkg.ident (SupService.pkg service)) (SupService.spec_ident service) (SupService.bldr_url service)
    (SupService.channel service).

Definition set_current (i : PackageIdent.t) (self : t) : t := mk i (spec_ident self) (builder_url self) (channel self).

Definition MIN_ALLOWED_FREQUENCY : Z := 60000.
Definition DEFAULT_FREQUENCY : Z := MIN_ALLOWED_FREQUENCY.

(** [str::parse::<i64>] *)
Definition i64_min : Z := - 2 ^ 63.
Definition i64_max : Z := 2 ^ 63 - 1.

Fixpoint i64_digits (sign acc : Z) (s : chars) : option Z :=
  match s with
  | [] => Some acc
  | c :: s =>
      d ← digit c;
      let acc := (acc * 10 + sign * d)%Z in
      if bool_decide (i64_min <= acc <= i64_max)%Z then i64_digits sign acc s else None
  end.

Definition parse_i64 (s : string) : option Z :=
  match to_chars s with
  | [] => None
  | c :: t =>
      if Ascii.eqb c "-" then match t with [] => None | _ => i64_digits (-1) 0 t end
      else if Ascii.eqb c "+" then match t with [] => None | _ => i64_digits 1 0 t end
      else i64_digits 1 0 (c :: t)
  end.

(** [frequency] and [bypass] are the two environment variables. *)
Definition update_period (frequency bypass : option string) : Z :=
  match frequency with
  | None => DEFAULT_FREQUENCY
  | Some val =>
      match parse_i64 val with
      | None => DEFAULT_FREQUENCY
      | Some num =>
          if (bool_decide (is_Some bypass) && bool_decide (0 < num)%Z) || bool_decide (MIN_ALLOWED_FREQUENCY <= num)%Z
          then num
          else MIN_ALLOWED_FREQUENCY
      end
  end.

(** The rounds of the two loops: the answers of the installations, one per period.  The
    result is the worker after the package that ends the loop, and that package; [None] while
    no answer has ended it. *)
Fixpoint run_once (answers : list (result sup_error PackageInstall.t)) (self : t) : t * option PackageInstall.t :=
  match answers with
  | [] => (self, None)
  | Ok package :: _ => (set_current (PackageInstall.ident package) self, Some package)
  | Err _ :: answers => run_once answers self
  end.

Fixpoint run_poll `{!RegexEngine} (answers : list (result sup_error PackageInstall.t)) (self : t)
    : outcome (t * option PackageInstall.t) :=
  match answers with
  | [] => Return (self, None)
  | Ok package :: answers =>
      newer ← ident_lt (current self) (PackageInstall.ident package);
      if (newer : bool) then Return (set_current (PackageInstall.ident package) self, Some package)
      else run_poll answers self
  | Err _ :: answers => run_poll answers self
  end.

(** The thread a receiver is connected to: its worker and the package it was told to fetch. *)
Record Receiver := mkReceiver { worker : t; target : option PackageIdent.t }.

Definition start (self : t) (ident : option PackageIdent.t) : Receiver := mkReceiver self ident.
End UpdateWorker.

(** What [try_recv] returns. *)
Inductive received :=
| Package (package : PackageInstall.t)
| Empty
| Disconnected.

(** ** States *)
Inductive LeaderState := LPolling (rx : UpdateWorker.Receiver) | LWaiting.
Inductive FollowerState := FWaiting | FUpdating (rx : UpdateWorker.Receiver).
Inductive RollingState :=
| AwaitingElection
| InElection
| Leader (st : LeaderState)
| Follower (st : FollowerState).
Inductive UpdaterState := AtOnce (rx : UpdateWorker.Receiver) | Rolling (st : RollingState).

Module ServiceUpdater.
Record t := mk {
  states : gmap ServiceGroup.t UpdaterState;
  butterfly : Server.t;
}.

Definition new (butterfly : Server.t) : t := mk ∅ butterfly.

Definition set_state (sg : ServiceGroup.t) (st : UpdaterState) (self : t) : t :=
  mk (<[sg := st]> (states self)) (butterfly self).

Definition add (service : SupService.t) (self : t) : t * bool :=
  let sg := SupService.service_group service in
  match SupService.update_strategy service with
  | UpdateStrategy.None => (self, false)
  | UpdateStrategy.AtOnce =>
      (match states self !! sg with
       | Some _ => self
       | None => set_state sg (AtOnce (UpdateWorker.start (UpdateWorker.new service) None)) self
       end, true)
  | UpdateStrategy.Rolling =>
      (match states self !! sg with
       | Some _ => self
       | None => set_state sg (Rolling AwaitingElection) self
       end, true)
  end.

Definition set_pkg (pkg : Pkg.t) (s : SupService.t) : SupService.t :=
  SupService.mk (SupService.service_group s) (SupService.bldr_url s) (SupService.channel s) (SupService.spec_file s)
    (SupService.spec_ident s) (SupService.start_style s) (SupService.topology s) (SupService.update_strategy s) pkg
    false (SupService.binds s) (SupService.config_from s) (SupService.svc_encrypted_password s) (SupService.composite s).

Section with_census.
  Context {Table Value : Type} `{!RegexEngine} (env : environment).
  Abbreviation ring := (CensusRing.t Table Value).

(** [Service::update_package]: the service is left as it is when the package cannot be
    loaded. *)
Definition update_package (package : PackageInstall.t) (service : SupService.t) : outcome SupService.t :=
  r ← Pkg.from_install (disk env) (users env package) (env_vars env package) package;
  Return (match r with
          | Ok pkg =>
              match templates env package (SupService.config_from service) with
              | Ok _ => set_pkg pkg service
              | Err _ => service
              end
          | Err _ => service
          end).

(** [members().iter().any(..)] of a waiting update leader. *)
Fixpoint any_differs (me : option (CensusMember.t Table)) (l : list (CensusMember.t Table)) : outcome bool :=
  match l with
  | [] => Return false
  | cm :: l =>
      p ← expect "unwrap" (CensusMember.pkg cm);
      m ← expect "unwrap" me;
      q ← expect "unwrap" (CensusMember.pkg m);
      if decide (p <> q) then Return true else any_differs me l
  end.

Definition check_at_once (recv : received) (rx : UpdateWorker.Receiver) (service : SupService.t) (self : t)
    : outcome (t * SupService.t * bool) :=
  let sg := SupService.service_group service in
  match recv with
  | Package package => service ← update_package package service; Return (self, service, true)
  | Empty => Return (self, service, false)
  | Disconnected => Return (set_state sg (AtOnce (UpdateWorker.start (UpdateWorker.new service) None)) self, service, false)
  end.

Definition check_awaiting (o : order) (service : SupService.t) (census_ring : ring) (self : t)
    : outcome (t * SupService.t * bool) :=
  let sg := SupService.service_group service in
  let elect suitability :=
    mk (<[sg := Rolling InElection]> (states self)) (Server.start_update_election o sg suitability 0 (butterfly self)) in
  match CensusRing.census_group_for census_ring sg with
  | None => Return (self, service, false)
  | Some census_group =>
      if decide (SupService.topology service = Topology.Leader) then
        match CensusGroup.me census_group, CensusGroup.leader census_group with
        | Some me, Some leader =>
            let suitability := if decide (CensusMember.member_id me = CensusMember.member_id leader)
                               then 0%Z else (u64_modulus - 1)%Z in
            Return (elect suitability, service, false)
        | _, _ => Return (self, service, false)
        end
      else Return (elect 0%Z, service, false)
  end.

Definition check_in_election (service : SupService.t) (census_ring : ring) (self : t)
    : outcome (t * SupService.t * bool) :=
  let sg := SupService.service_group service in
  match CensusRing.census_group_for census_ring sg with
  | None => Return (self, service, false)
  | Some census_group =>
      match CensusGroup.me census_group, CensusGroup.update_leader census_group with
      | Some me, Some leader =>
          if decide (CensusMember.member_id me = CensusMember.member_id leader)
          then Return (set_state sg (Rolling (Leader LWaiting)) self, service, false)
          else Return (set_state sg (Rolling (Follower FWaiting)) self, service, false)
      | _, _ => Return (self, service, false)
      end
  end.

Definition check_leader (recv : received) (state : LeaderState) (service : SupService.t) (census_ring : ring) (self : t)
    : outcome (t * SupService.t * bool) :=
  let sg := SupService.service_group service in
  match state with
  | LPolling rx =>
      match recv with
      | Package package =>
          service ← update_package package service;
          Return (set_state sg (Rolling (Leader LWaiting)) self, service, true)
      | Empty => Return (self, service, false)
      | Disconnected =>
          Return (set_state sg (Rolling (Leader (LPolling (UpdateWorker.start (UpdateWorker.new service) None)))) self, service, false)
      end
  | LWaiting =>
      match CensusRing.census_group_for census_ring sg with
      | Some census_group =>
          differs ← any_differs (CensusGroup.me census_group) (CensusGroup.members census_group);
          if (differs : bool) then Return (self, service, false)
          else Return (set_state sg (Rolling (Leader (LPolling (UpdateWorker.start (UpdateWorker.new service) None)))) self, service, false)
      | None => Panic "Expected census list to have service group"
      end
  end.

Definition check_follower (recv : received) (state : FollowerState) (service : SupService.t) (census_ring : ring) (self : t)
    : outcome (t * SupService.t * bool) :=
  let sg := SupService.service_group service in
  match state with
  | FWaiting =>
      match CensusRing.census_group_for census_ring sg with
      | Some census_group =>
          peer ← CensusGroup.previous_peer census_group;
          match CensusGroup.update_leader census_group, peer, CensusGroup.me census_group with
          | Some leader, Some peer, Some me =>
              if decide (CensusMember.pkg leader = CensusMember.pkg me) then Return (self, service, false)
              else if decide (CensusMember.pkg leader <> CensusMember.pkg peer) then Return (self, service, false)
              else Return (set_state sg (Rolling (Follower (FUpdating
                     (UpdateWorker.start (UpdateWorker.new service) (CensusMember.pkg leader))))) self, service, false)
          | _, _, _ => Return (self, service, false)
          end
      | None => Panic "Expected census list to have service group"
      end
  | FUpdating rx =>
      match CensusRing.census_group_for census_ring sg with
      | Some census_group =>
          match recv with
          | Package package =>
              service ← update_package package service;
              Return (set_state sg (Rolling (Follower FWaiting)) self, service, true)
          | Empty => Return (self, service, false)
          | Disconnected =>
              leader ← expect "unwrap" (CensusGroup.update_leader census_group);
              Return (set_state sg (Rolling (Follower (FUpdating
                (UpdateWorker.start (UpdateWorker.new service) (CensusMember.pkg leader))))) self, service, false)
          end
      | None => Panic "Expected census list to have service group"
      end
  end.

Definition check_for_updated_package (o : order) (recv : received) (service : SupService.t) (census_ring : ring) (self : t)
    : outcome (t * SupService.t * bool) :=
  match states self !! SupService.service_group service with
  | Some (AtOnce rx) => check_at_once recv rx service self
  | Some (Rolling AwaitingElection) => check_awaiting o service census_ring self
  | Some (Rolling InElection) => check_in_election service census_ring self
  | Some (Rolling (Leader state)) => check_leader recv state service census_ring self
  | Some (Rolling (Follower state)) => check_follower recv state service census_ring self
  | None => Return (self, service, false)
  end.
End with_census.
End ServiceUpdater.

(** * Package updates: properties

    A rolling update goes round the ring one member at a time; the update leader waits for
    all members; workers fetch newer packages only, no more often than allowed. *)

(** ** The ring *)
Section ring.
  Context {Table Value : Type} `{!RegexEngine}.
  Implicit Types (g : CensusGroup.t Table Value) (cm : CensusMember.t Table).

(** The census of a group as the Supervisor of the member [id] has it. *)
Definition seen_from (id : string) g : CensusGroup.t Table Value :=
  CensusGroup.mk (CensusGroup.service_group g) (CensusGroup.election_status g) (CensusGroup.update_election_status g)
    (CensusGroup.leader_id g) (CensusGroup.service_config g) id (CensusGroup.population g)
    (CensusGroup.update_leader_id g) (CensusGroup.changed_files g) (CensusGroup.service_files g).

Lemma position_at (l : list (CensusMember.t Table)) k x :
  NoDup (CensusMember.member_id <$> l) -> l !! k = Some x ->
  CensusGroup.position (fun cm => String.eqb (CensusMember.member_id cm) (CensusMember.member_id x)) l = Some k.
Proof.
  revert k. induction l as [|y l IH]; intros k Hnd Hk; [done|]. cbn in Hnd. apply NoDup_cons in Hnd as [Hy Hnd].
  destruct k as [|k]; cbn in *.
  - injection Hk as ->. by rewrite String.eqb_refl.
  - destruct (String.eqb_spec (CensusMember.member_id y) (CensusMember.member_id x)) as [E|_].
    + destruct Hy. rewrite E. apply list_elem_of_fmap_2. by eapply list_elem_of_lookup_2.
    + by rewrite (IH k).
Qed.

Lemma alive_members_nodup local sg g :
  group_wf local sg g -> NoDup (CensusMember.member_id <$> alive_members g).
Proof.
  intros Hg. pose proof (alive_members_sorted _ _ _ Hg) as Hs. induction Hs as [|x l Hs IH Hx]; [constructor|].
  cbn. constructor; [|done]. intros (y & E & Hy)%list_elem_of_fmap. eapply Forall_forall in Hx; [|exact Hy].
  unfold id_lt in Hx. rewrite E in Hx. by eapply str_lt_irrefl.
Qed.

(** The previous peer of the member at position [k] of the list of alive members. *)
Lemma previous_peer_at local sg g k x :
  group_wf local sg g -> alive_members g !! k = Some x -> (1 < length (alive_members g))%nat ->
  CensusGroup.previous_peer (seen_from (CensusMember.member_id x) g) =
  Return (alive_members g !! (if decide (k <= 0)%nat then (length (alive_members g) - 1)%nat else (k - 1)%nat)).
Proof.
  intros Hg Hk Hlen. unfold CensusGroup.previous_peer, CensusGroup.me. cbn [seen_from CensusGroup.population CensusGroup.local_member_id].
  pose proof (list_elem_of_lookup_2 _ _ _ Hk) as [Hx _]%(elem_of_alive_members _ _ _ _ Hg). rewrite Hx.
  fold (alive_members g). rewrite decide_False by lia.
  rewrite (position_at _ k x (alive_members_nodup _ _ _ Hg) Hk).
  assert (is_Some (alive_members g !! (if decide (k <= 0)%nat then (length (alive_members g) - 1)%nat else (k - 1)%nat))) as [p Hp].
  { apply lookup_lt_is_Some. apply lookup_lt_Some in Hk. case_decide; lia. }
  by rewrite Hp.
Qed.

(** Counting from some member [l], the previous peer of every other is the one before it. *)
Lemma previous_in_ring local sg g l1 l l2 c x d :
  group_wf local sg g -> alive_members g = l1 ++ l :: l2 -> l2 ++ l1 = c ++ x :: d ->
  CensusGroup.previous_peer (seen_from (CensusMember.member_id x) g) = Return (last (l :: c)).
Proof.
  intros Hg HL Hr.
  assert (Hlast : last (l :: c) = (l :: l2 ++ l1) !! length c).
  { rewrite Hr, app_comm_cons, lookup_app_l by (cbn; lia). rewrite last_lookup. by rewrite Nat.pred_succ || done. }
  assert (Hlen : length (l2 ++ l1) = S (length c + length d)) by (rewrite Hr, length_app; cbn; lia).
  assert (Hx : (l2 ++ l1) !! length c = Some x) by (rewrite Hr; by apply list_lookup_middle).
  rewrite length_app in Hlen. rewrite Hlast. destruct (decide (length c < length l2)%nat) as [Hc|Hc].
  - rewrite lookup_app_l in Hx by done.
    rewrite (previous_peer_at local sg g (length l1 + S (length c)) x Hg); rewrite HL.
    + rewrite decide_False by lia. f_equal. replace (length l1 + S (length c) - 1)%nat with (length l1 + length c)%nat by lia.
      rewrite lookup_app_r by lia. replace (length l1 + length c - length l1)%nat with (length c) by lia.
      rewrite app_comm_cons, lookup_app_l by (cbn; lia). done.
    + rewrite lookup_app_r by lia. by replace (length l1 + S (length c) - length l1)%nat with (S (length c)) by lia.
    + rewrite length_app. cbn. lia.
  - rewrite lookup_app_r in Hx by lia. set (k := (length c - length l2)%nat) in *.
    rewrite (previous_peer_at local sg g k x Hg); rewrite HL.
    + f_equal. rewrite app_comm_cons. case_decide.
      * rewrite length_app. cbn [length]. rewrite lookup_app_r, lookup_app_l by (cbn; lia). f_equal. lia.
      * rewrite lookup_app_l, lookup_app_r by (apply lookup_lt_Some in Hx; cbn; lia). f_equal. cbn. lia.
    + rewrite lookup_app_l by (by apply lookup_lt_Some in Hx). done.
    + rewrite length_app. cbn. lia.
Qed.

(** ** Rolling updates *)
Section rolling.
  Context (env : environment) (o : order).

(** What a waiting follower does, from what its census shows. *)
Lemma follower_waiting_spec recv (service : SupService.t) (ring : CensusRing.t Table Value) self g leader me peer :
  ServiceUpdater.states self !! SupService.service_group service = Some (Rolling (Follower FWaiting)) ->
  CensusRing.census_group_for ring (SupService.service_group service) = Some g ->
  CensusGroup.update_leader g = Some leader -> CensusGroup.me g = Some me ->
  CensusGroup.previous_peer g = Return peer ->
  ServiceUpdater.check_for_updated_package env o recv service ring self =
  Return (match peer with
          | Some peer =>
              if decide (CensusMember.pkg me <> CensusMember.pkg leader /\ CensusMember.pkg peer = CensusMember.pkg leader)
              then ServiceUpdater.set_state (SupService.service_group service)
                     (Rolling (Follower (FUpdating (UpdateWorker.start (UpdateWorker.new service) (CensusMember.pkg leader))))) self
              else self
          | None => self
          end, service, false).
Proof.
  intros Hst Hr Hl Hm Hp. unfold ServiceUpdater.check_for_updated_package, ServiceUpdater.check_follower.
  rewrite Hst, Hr, Hp. cbn [mbind outcome_bind]. rewrite Hl, Hm. destruct peer as [peer|]; [|done].
  destruct (decide (CensusMember.pkg leader = CensusMember.pkg me)) as [E|E].
  { rewrite decide_False by naive_solver. done. }
  destruct (decide (CensusMember.pkg leader = CensusMember.pkg peer)) as [E'|E'].
  - rewrite (decide_False (P := CensusMember.pkg leader <> CensusMember.pkg peer)) by naive_solver.
    by rewrite decide_True by naive_solver.
  - rewrite (decide_True (P := CensusMember.pkg leader <> CensusMember.pkg peer)) by naive_solver.
    by rewrite decide_False by naive_solver.
Qed.

(** A Supervisor of an alive member finds its previous peer, or that there is none. *)
Lemma previous_peer_returns local sg g x :
  group_wf local sg g -> x ∈ alive_members g ->
  exists p, CensusGroup.previous_peer (seen_from (CensusMember.member_id x) g) = Return p.
Proof.
  intros Hg Hx. destruct (decide (length (alive_members g) <= 1)%nat) as [Hle|Hgt].
  - exists None. unfold CensusGroup.previous_peer, CensusGroup.me. cbn [seen_from CensusGroup.population CensusGroup.local_member_id].
    apply (elem_of_alive_members _ _ _ _ Hg) in Hx as [-> _]. fold (alive_members g). by rewrite decide_True.
  - apply list_elem_of_lookup in Hx as [k Hk]. rewrite (previous_peer_at _ _ _ _ _ Hg Hk) by lia. by eexists.
Qed.

(** C21: a rolling update updates one member at a time, in the order of the ring.  Counting the
    alive members from the update leader on, let those up to some point run the leader's
    package and those after it not.  Then, of all the Supervisors that wait as followers, the
    one of the first member that does not run it starts to fetch exactly the leader's package,
    and every other keeps waiting; when all run it, every one does. *)
Theorem rolling_update_one_at_a_time local sg g l1 leader l2 us ns :
  group_wf local sg g -> CensusGroup.update_leader g = Some leader ->
  alive_members g = l1 ++ leader :: l2 -> l2 ++ l1 = us ++ ns ->
  (forall u, u ∈ us -> CensusMember.pkg u = CensusMember.pkg leader) ->
  (forall n, n ∈ ns -> CensusMember.pkg n <> CensusMember.pkg leader) ->
  forall x recv service (ring : CensusRing.t Table Value) self, x ∈ alive_members g ->
    ServiceUpdater.states self !! SupService.service_group service = Some (Rolling (Follower FWaiting)) ->
    CensusRing.census_group_for ring (SupService.service_group service) = Some (seen_from (CensusMember.member_id x) g) ->
    ServiceUpdater.check_for_updated_package env o recv service ring self =
    Return (if decide (CensusMember.member_id <$> head ns = Some (CensusMember.member_id x))
            then ServiceUpdater.set_state (SupService.service_group service)
                   (Rolling (Follower (FUpdating (UpdateWorker.start (UpdateWorker.new service) (CensusMember.pkg leader))))) self
            else self, service, false).
Proof.
  intros Hg Hl HL Hr Hus Hns x recv service ring self Hx Hst Hring.
  assert (Hme : CensusGroup.me (seen_from (CensusMember.member_id x) g) = Some x)
    by (by apply (elem_of_alive_members _ _ _ _ Hg) in Hx as [? _]).
  assert (Hin : forall y, y ∈ us ++ ns -> y ∈ alive_members g) by (intros y; rewrite <- Hr, HL; set_solver).
  assert (Hid : forall y, y ∈ alive_members g -> CensusMember.member_id y = CensusMember.member_id x -> y = x).
  { intros y [Hy _]%(elem_of_alive_members _ _ _ _ Hg) E.
    apply (elem_of_alive_members _ _ _ _ Hg) in Hx as [Hx _]. rewrite E in Hy. congruence. }
  assert (Hhead : CensusMember.member_id <$> head ns = Some (CensusMember.member_id x) <-> head ns = Some x).
  { destruct ns as [|n ns]; cbn; [done|]. split; [|by intros [= ->]]. intros [= E]. f_equal. apply Hid; [|done].
    apply Hin. set_solver. }
  destruct (decide (CensusMember.pkg x = CensusMember.pkg leader)) as [Hpkg|Hpkg].
  - destruct (previous_peer_returns _ _ _ _ Hg Hx) as [p Hp].
    rewrite (follower_waiting_spec recv service ring self _ leader x p Hst Hring Hl Hme Hp).
    rewrite (decide_False (P := CensusMember.member_id <$> head ns = Some (CensusMember.member_id x))).
    + destruct p; [|done]. by rewrite decide_False by naive_solver.
    + rewrite Hhead. intros E. apply (Hns x); [|done]. destruct ns; [done|]. injection E as ->. left.
  - assert (x ∈ ns) as Hxn.
    { rewrite HL in Hx. assert (x = leader \/ x ∈ us ++ ns) as [->|[Hu|?]%elem_of_app] by (rewrite <- Hr; set_solver); [done| |done].
      by apply Hus in Hu. }
    apply list_elem_of_split in Hxn as (e & f & ->). rewrite app_assoc in Hr.
    pose proof (previous_in_ring _ _ _ _ _ _ _ _ _ Hg HL Hr) as Hp.
    rewrite (follower_waiting_spec recv service ring self _ leader x (last (leader :: us ++ e)) Hst Hring Hl Hme Hp).
    destruct e as [|y e] using rev_ind; [|clear IHe].
    + rewrite app_nil_r. rewrite (decide_True (P := CensusMember.member_id <$> head _ = _)) by done.
      destruct us as [|u us _] using rev_ind; [cbn [last app]; by rewrite decide_True by naive_solver|].
      rewrite app_comm_cons, last_snoc. rewrite decide_True; [done|]. split; [done|]. apply Hus. set_solver.
    + rewrite app_assoc, app_comm_cons, last_snoc. rewrite decide_False.
      2: { intros [_ Hy]. apply (Hns y); [set_solver|done]. }
      rewrite (decide_False (P := CensusMember.member_id <$> head _ = _)); [done|]. rewrite Hhead. intros E.
      pose proof (alive_members_nodup _ _ _ Hg) as Hnd. rewrite HL in Hnd.
      assert (NoDup ((us ++ (e ++ [y])) ++ x :: f)) as Hnd'.
      { rewrite <- Hr. apply (NoDup_fmap_1 CensusMember.member_id). rewrite fmap_app, Permutation_app_comm, <- fmap_app.
        rewrite fmap_app, fmap_cons, <- Permutation_middle in Hnd. apply NoDup_cons in Hnd as [_ Hnd]. by rewrite fmap_app. }
      apply NoDup_app in Hnd' as (_ & Hd & _). apply (Hd x); [|set_solver]. apply elem_of_app. right.
      destruct e; cbn in E; injection E as ->; left.
Qed.

(** The update leader looks for a new package only when every member of the census, alive or
    not, runs its own: it then starts to poll, and it keeps waiting at the first member with
    another package, dead ones included.  A member without a package before that member makes
    the code panic. *)
Theorem update_leader_waits recv service (ring : CensusRing.t Table Value) self g me p :
  ServiceUpdater.states self !! SupService.service_group service = Some (Rolling (Leader LWaiting)) ->
  CensusRing.census_group_for ring (SupService.service_group service) = Some g ->
  CensusGroup.me g = Some me -> CensusMember.pkg me = Some p ->
  let check := ServiceUpdater.check_for_updated_package env o recv service ring self in
  ((forall cm, cm ∈ CensusGroup.members g -> CensusMember.pkg cm = Some p) ->
   check = Return (ServiceUpdater.set_state (SupService.service_group service)
             (Rolling (Leader (LPolling (UpdateWorker.start (UpdateWorker.new service) None)))) self, service, false)) /\
  (forall ms1 cm ms2, CensusGroup.members g = ms1 ++ cm :: ms2 ->
   (forall m, m ∈ ms1 -> CensusMember.pkg m = Some p) ->
   match CensusMember.pkg cm with
   | None => exists msg, check = Panic msg
   | Some q => q <> p -> check = Return (self, service, false)
   end).
Proof.
  intros Hst Hr Hm Hp check. unfold check, ServiceUpdater.check_for_updated_package, ServiceUpdater.check_leader.
  rewrite Hst, Hr, Hm.
  assert (Hskip : forall ms1 ms2, (forall m, m ∈ ms1 -> CensusMember.pkg m = Some p) ->
    ServiceUpdater.any_differs (Some me) (ms1 ++ ms2) = ServiceUpdater.any_differs (Some me) ms2).
  { induction ms1 as [|m ms1 IH]; intros ms2 Hall; [done|]. cbn. rewrite (Hall m) by set_solver. rewrite Hp.
    cbn [mbind outcome_bind expect]. rewrite decide_False by tauto. apply IH. set_solver. }
  split.
  - intros Hall. rewrite <- (app_nil_r (CensusGroup.members g)), Hskip by done. done.
  - intros ms1 cm ms2 -> Hall. rewrite Hskip by done. cbn [ServiceUpdater.any_differs].
    destruct (CensusMember.pkg cm) as [q|]; [|by eexists]. intros Hne. cbn [mbind outcome_bind expect]. rewrite Hp. cbn [mbind outcome_bind expect].
    by rewrite decide_True.
Qed.

(** An update strategy outlives the service it was registered for.  While the updater has a
    state for a service group, registering a service of that group changes nothing, whatever
    its strategy; so a service that was restarted with the strategy [none], after having run
    with [at-once], is still updated. *)
Theorem stale_update_strategy package pkg service (ring : CensusRing.t Table Value) self rx :
  ServiceUpdater.states self !! SupService.service_group service = Some (AtOnce rx) ->
  SupService.update_strategy service = UpdateStrategy.None ->
  Pkg.from_install (disk env) (users env package) (env_vars env package) package = Return (Ok pkg) ->
  templates env package (SupService.config_from service) = Ok tt ->
  forall service',
    SupService.service_group service' = SupService.service_group service ->
    (ServiceUpdater.add service' self).1 = self /\
    ServiceUpdater.check_for_updated_package env o (Package package) service ring (ServiceUpdater.add service' self).1 =
      Return (self, ServiceUpdater.set_pkg pkg service, true).
Proof.
  intros Hst _ Hp Ht service' Hsg. assert (Hadd : (ServiceUpdater.add service' self).1 = self).
  { unfold ServiceUpdater.add. rewrite Hsg, Hst. by destruct (SupService.update_strategy service'). }
  split; [done|]. rewrite Hadd. unfold ServiceUpdater.check_for_updated_package. rewrite Hst.
  unfold ServiceUpdater.check_at_once, ServiceUpdater.update_package. rewrite Hp. cbn [mbind outcome_bind].
  by rewrite Ht.
Qed.
End rolling.
End ring.

(** ** Workers: [Worker] of the updater *)

Lemma i64_digits_range sign acc s n :
  (UpdateWorker.i64_min <= acc <= UpdateWorker.i64_max)%Z -> UpdateWorker.i64_digits sign acc s = Some n ->
  (UpdateWorker.i64_min <= n <= UpdateWorker.i64_max)%Z.
Proof.
  revert acc. induction s as [|c s IH]; intros acc Ha; cbn; [by intros [= <-]|].
  destruct (digit c) as [d|]; cbn; [|done]. case_bool_decide as Hb; [|done]. by apply IH.
Qed.

Lemma parse_i64_range s n : UpdateWorker.parse_i64 s = Some n -> (UpdateWorker.i64_min <= n <= UpdateWorker.i64_max)%Z.
Proof.
  unfold UpdateWorker.parse_i64. destruct (to_chars s) as [|c t]; [done|].
  assert (H0 : (UpdateWorker.i64_min <= 0 <= UpdateWorker.i64_max)%Z) by (unfold UpdateWorker.i64_min, UpdateWorker.i64_max; lia).
  destruct (Ascii.eqb c "-"); [destruct t; [done|by apply i64_digits_range]|].
  destruct (Ascii.eqb c "+"); [destruct t; [done|by apply i64_digits_range]|]. by apply i64_digits_range.
Qed.

(** The update period.  It is a positive 64-bit number; without the bypass it is at least a
    minute, and with it the number that was asked for if that is positive; a text that is no
    number gives the default. *)
Theorem update_period_bounds frequency bypass :
  (0 < UpdateWorker.update_period frequency bypass <= UpdateWorker.i64_max)%Z /\
  (bypass = None -> (UpdateWorker.MIN_ALLOWED_FREQUENCY <= UpdateWorker.update_period frequency bypass)%Z) /\
  match frequency ≫= UpdateWorker.parse_i64 with
  | None => UpdateWorker.update_period frequency bypass = UpdateWorker.DEFAULT_FREQUENCY
  | Some num =>
      UpdateWorker.update_period frequency bypass =
        if decide (UpdateWorker.MIN_ALLOWED_FREQUENCY <= num \/ is_Some bypass /\ 0 < num)%Z
               then num else UpdateWorker.MIN_ALLOWED_FREQUENCY
  end.
Proof.
  unfold UpdateWorker.update_period, UpdateWorker.DEFAULT_FREQUENCY.
  assert (Hmin : (0 < UpdateWorker.MIN_ALLOWED_FREQUENCY <= UpdateWorker.i64_max)%Z) by (unfold UpdateWorker.MIN_ALLOWED_FREQUENCY, UpdateWorker.i64_max; lia).
  destruct frequency as [v|]; cbn; [|split_and!; (done || lia)].
  destruct (UpdateWorker.parse_i64 v) as [num|] eqn:E; cbn; [|split_and!; (done || lia)].
  pose proof (parse_i64_range _ _ E) as Hr.
  destruct (decide (UpdateWorker.MIN_ALLOWED_FREQUENCY <= num \/ is_Some bypass /\ 0 < num)%Z) as [Hd|Hd].
  - assert ((bool_decide (is_Some bypass) && bool_decide (0 < num)%Z) || bool_decide (UpdateWorker.MIN_ALLOWED_FREQUENCY <= num)%Z = true) as ->.
    { destruct Hd as [Hd|[Hb Hd]]; [by rewrite (bool_decide_eq_true_2 _ Hd), orb_true_r|].
      by rewrite (bool_decide_eq_true_2 _ Hb), (bool_decide_eq_true_2 _ Hd). }
    split_and!; [lia|lia| |done]. intros ->. destruct Hd as [?|[[? [=]] _]]. done.
  - assert ((bool_decide (is_Some bypass) && bool_decide (0 < num)%Z) || bool_decide (UpdateWorker.MIN_ALLOWED_FREQUENCY <= num)%Z = false) as ->.
    { apply orb_false_intro; [|apply bool_decide_eq_false_2; tauto].
      destruct (decide (is_Some bypass)) as [Hb|Hb]; [|by rewrite (bool_decide_eq_false_2 _ Hb)].
      rewrite (bool_decide_eq_false_2 (0 < num)%Z) by tauto. apply andb_false_r. }
    split_and!; (done || lia).
Qed.

(** A polling worker ends with the first package that is strictly newer than the one it
    started from, which it then takes for the current one, and goes on as long as there is
    none; it never panics, and failed installations do not end it. *)
Theorem poll_fetches_newer `{!RegexEngine} answers w :
  Returns (UpdateWorker.run_poll answers w) (fun r =>
    match r.2 with
    | Some package => r.1 = UpdateWorker.set_current (PackageInstall.ident package) w /\
        ident_lt (UpdateWorker.current w) (PackageInstall.ident package) = Return true /\
        exists before after, answers = before ++ Ok package :: after /\
          forall q, Ok q ∈ before -> ident_lt (UpdateWorker.current w) (PackageInstall.ident q) = Return false
    | None => r.1 = w /\ forall q, Ok q ∈ answers -> ident_lt (UpdateWorker.current w) (PackageInstall.ident q) = Return false
    end).
Proof.
  induction answers as [|[package|e] answers IH]; cbn.
  - split; [done|]. by intros q ?%not_elem_of_nil.
  - destruct (ident_lt_total (UpdateWorker.current w) (PackageInstall.ident package)) as [c Hc]. rewrite Hc. cbn.
    destruct c; cbn; [split_and!; [done..|]; by exists [], answers; split; [|intros q ?%not_elem_of_nil]|].
    eapply Returns_mono; [exact IH|]. cbn beta. intros [w' [p|]]; cbn.
    + intros (? & ? & before & after & -> & Hb). split_and!; [done..|]. exists (Ok package :: before), after.
      split; [done|]. intros q [[= ->]|Hq]%elem_of_cons; [done|by apply Hb].
    + intros [? Hq]. split; [done|]. intros q [[= ->]|Hin]%elem_of_cons; [done|by apply Hq].
  - eapply Returns_mono; [exact IH|]. cbn beta. intros [w' [p|]]; cbn.
    + intros (? & ? & before & after & -> & Hb). split_and!; [done..|]. exists (Err e :: before), after.
      split; [done|]. intros q [[=]|Hq]%elem_of_cons. by apply Hb.
    + intros [? Hq]. split; [done|]. intros q [[=]|Hin]%elem_of_cons. by apply Hq.
Qed.

(** ** An example: three members, the first of which has updated *)
Module UpdaterExample.
#[local] Existing Instance reference_engine.

Definition app (release : string) : PackageIdent.t := PackageIdent.mk "acme" "app" (Some "1.2.0") (Some release).
Definition sg : ServiceGroup.t := ServiceGroup.mk "app.default".

Definition member (id : string) (pkg : option PackageIdent.t) (leads alive : bool) : CensusMember.t unit :=
  CensusMember.mk id pkg None None "app" "default" None true false false leads (negb leads) false false false
    false false true default_sys_info alive false (negb alive) false tt.

Definition group (ms : list (CensusMember.t unit)) : CensusGroup.t unit unit :=
  CensusGroup.mk sg ElectionStatus.None_ ElectionStatus.ElectionFinished None None "a"
    (list_to_map ((fun cm => (CensusMember.member_id cm, cm)) <$> ms)) (Some "a") [] ∅.

Definition g : CensusGroup.t unit unit :=
  group [member "a" (Some (app "2")) true true; member "b" (Some (app "1")) false true; member "c" (Some (app "1")) false true].

Lemma g_members id cm : CensusGroup.population g !! id = Some cm ->
  id = "a" /\ cm = member "a" (Some (app "2")) true true \/
  id = "b" /\ cm = member "b" (Some (app "1")) false true \/ id = "c" /\ cm = member "c" (Some (app "1")) false true.
Proof.
  unfold g, group. cbn [CensusGroup.population]. intros Hid%elem_of_list_to_map_2.
  cbn [fmap list_fmap CensusMember.member_id member] in Hid. repeat apply elem_of_cons in Hid as [[= -> ->]|Hid]; [naive_solver..|].
  by apply not_elem_of_nil in Hid.
Qed.

Lemma g_wf : group_wf "a" sg g.
Proof.
  split; [reflexivity|vm_compute; reflexivity|reflexivity|..].
  - intros id cm [[-> ->]|[[-> ->]|[-> ->]]]%g_members; reflexivity.
  - intros id cm [[-> ->]|[[-> ->]|[-> ->]]]%g_members; unfold flags_ok; cbn; lia.
  - intros id. split; [intros [=]|]. intros (cm & [[_ ->]|[[_ ->]|[_ ->]]]%g_members & [=]).
  - intros id. split.
    + intros [= <-]. eexists. split; reflexivity.
    + intros (cm & [[-> ->]|[[_ ->]|[_ ->]]]%g_members & Hl); [reflexivity|discriminate Hl..].
  - intros f Hf. by apply not_elem_of_nil in Hf.
Qed.

Definition ring (id : string) : CensusRing.t unit unit := CensusRing.mk false {[sg := seen_from id g]} id 0 0 0 0 0 0.

Definition package : Pkg.t := Pkg.mk (app "1") "hab" "hab" [] [] ∅ "1.2.0" "1" [].

Definition service (strategy : UpdateStrategy.t) : SupService.t :=
  SupService.mk sg "https://bldr.habitat.sh" "stable" "app.spec" (PackageIdent.mk "acme" "app" None None)
    StartStyle.Persistent Topology.Standalone strategy package true [] None None None.

Definition updater (st : UpdaterState) : ServiceUpdater.t := ServiceUpdater.mk {[sg := st]} ex_new.

Definition env : environment :=
  Environment (Dir []) Platform.Linux [] None (fun _ => Ok ("hab", "hab")) (fun _ => Ok tt) (fun _ _ => Ok tt) (fun _ => true).

Definition svc : SupService.t := service UpdateStrategy.Rolling.
Definition waiting : ServiceUpdater.t := updater (Rolling (Follower FWaiting)).

(** It is the turn of [b], not of [c]. *)
Lemma rolling_update_one_at_a_time_witness :
  ServiceUpdater.check_for_updated_package env id_order Empty svc (ring "b") waiting =
    Return (ServiceUpdater.set_state sg (Rolling (Follower (FUpdating (UpdateWorker.start (UpdateWorker.new svc) (Some (app "2")))))) waiting, svc, false) /\
  ServiceUpdater.check_for_updated_package env id_order Empty svc (ring "c") waiting = Return (waiting, svc, false).
Proof.
  pose proof (fun x => rolling_update_one_at_a_time env id_order "a" sg g []
    (member "a" (Some (app "2")) true true)
    [member "b" (Some (app "1")) false true; member "c" (Some (app "1")) false true] []
    [member "b" (Some (app "1")) false true; member "c" (Some (app "1")) false true]
    g_wf eq_refl ltac:(vm_compute; reflexivity) eq_refl
    ltac:(intros u Hu; exfalso; exact (not_elem_of_nil u Hu))
    ltac:(intros n [->|[->|Hn%not_elem_of_nil]%elem_of_cons]%elem_of_cons; [discriminate|discriminate|destruct Hn])
    x Empty svc) as H.
  assert (Ha : forall id cm, CensusGroup.population g !! id = Some cm -> CensusMember.member_id cm = id ->
    CensusMember.alive cm = true -> cm ∈ alive_members g).
  { intros id cm Hid <- Hal. apply (elem_of_alive_members "a" sg g cm g_wf). split; [exact Hid|exact Hal]. }
  split.
  - apply (H (member "b" (Some (app "1")) false true) (ring "b") waiting); [|reflexivity|reflexivity].
    apply (Ha "b"); reflexivity.
  - apply (H (member "c" (Some (app "1")) false true) (ring "c") waiting); [|reflexivity|reflexivity].
    apply (Ha "c"); reflexivity.
Defined.

(** A dead member with an old package keeps the update leader waiting. *)
Definition g_dead : CensusGroup.t unit unit := group [member "a" (Some (app "2")) true true; member "b" (Some (app "1")) false false].

Lemma update_leader_waits_witness :
  ServiceUpdater.check_for_updated_package env id_order Empty svc
    (CensusRing.mk false {[sg := g_dead]} "a" 0 0 0 0 0 0) (updater (Rolling (Leader LWaiting))) =
  Return (updater (Rolling (Leader LWaiting)), svc, false).
Proof.
  destruct (update_leader_waits env id_order Empty svc (CensusRing.mk false {[sg := g_dead]} "a" 0 0 0 0 0 0)
    (updater (Rolling (Leader LWaiting))) g_dead (member "a" (Some (app "2")) true true) (app "2")
    ltac:(vm_compute; reflexivity) ltac:(vm_compute; reflexivity) ltac:(vm_compute; reflexivity) eq_refl) as [_ H].
  apply (H [member "a" (Some (app "2")) true true] (member "b" (Some (app "1")) false false) []).
  - vm_compute. reflexivity.
  - intros m ->%list_elem_of_singleton. reflexivity.
  - discriminate.
Defined.

Definition newer : PackageInstall.t := PackageInstall.mk (app "2") [] [] [].

Lemma stale_update_strategy_witness :
  let self := updater (AtOnce (UpdateWorker.start (UpdateWorker.new svc) None)) in
  let pkg := Pkg.mk (app "2") "hab" "hab" [] [] ∅ "1.2.0" "2" [] in
  ServiceUpdater.check_for_updated_package env id_order (Package newer) (service UpdateStrategy.None) (ring "b")
    (ServiceUpdater.add (service UpdateStrategy.None) self).1 =
  Return (self, ServiceUpdater.set_pkg pkg (service UpdateStrategy.None), true).
Proof.
  intros self pkg. apply (stale_update_strategy env id_order newer pkg (service UpdateStrategy.None) (ring "b") self
    (UpdateWorker.start (UpdateWorker.new svc) None)); vm_compute; reflexivity.
Defined.
End UpdaterExample.
