(* ===== verification/Petgraph.v ===== *)
(** * Directed graphs

    The package graph is kept in a graph of the [petgraph] crate, which is not part of the
    repository.  The class [Petgraph] has the operations the sources call and what its
    documentation promises of them, in terms of the number of nodes and the list of edges
    (parallel edges are allowed; their order means nothing).  [reference_graph] is a
    concrete instance, which shows that the promises can be kept. *)

From S2P Require Import Prelude.
Local Open Scope list_scope.

(** ** Reachability over a list of edges *)
Definition edge (es : list (nat * nat)) (a b : nat) : Prop := (a, b) ∈ es.

Definition acyclic (es : list (nat * nat)) : Prop := forall n, ~ tc (edge es) n n.

(** No element of the list has an edge to one before it. *)
Definition topological (es : list (nat * nat)) (l : list nat) : Prop :=
  StronglySorted (fun a b => ~ edge es b a) l.

Definition edges_in_range (n : nat) (es : list (nat * nat)) : Prop :=
  forall a b, edge es a b -> (a < n)%nat /\ (b < n)%nat.

#[export] Instance edge_proper : Proper ((≡ₚ) ==> (=) ==> (=) ==> iff) edge.
Proof. intros es es' Hp a ? <- b ? <-. unfold edge. by rewrite Hp. Qed.

Lemma tc_mono {A} (R S : relation A) x y : (forall a b, R a b -> S a b) -> tc R x y -> tc S x y.
Proof. intros H. induction 1; [by apply tc_once, H|by eapply tc_l; [apply H|]]. Qed.

Lemma rtc_mono {A} (R S : relation A) x y : (forall a b, R a b -> S a b) -> rtc R x y -> rtc S x y.
Proof. intros H. induction 1; [done|by eapply rtc_l; [apply H|]]. Qed.

Lemma acyclic_incl es es' : (forall a b, edge es' a b -> edge es a b) -> acyclic es -> acyclic es'.
Proof. intros Hi Ha n Hn. apply (Ha n). by eapply tc_mono. Qed.

#[export] Instance acyclic_proper : Proper ((≡ₚ) ==> iff) acyclic.
Proof.
  intros es es' Hp. split; apply acyclic_incl; intros a b; unfold edge; by rewrite Hp.
Qed.

#[export] Instance edges_in_range_proper : Proper ((=) ==> (≡ₚ) ==> iff) edges_in_range.
Proof. intros n ? <- es es' Hp. unfold edges_in_range. by setoid_rewrite Hp. Qed.

Lemma rtc_in_range n es a b : edges_in_range n es -> (a < n)%nat -> rtc (edge es) a b -> (b < n)%nat.
Proof. intros Hr Ha. induction 1 as [|a b c Hab _ IH]; [done|]. by apply IH, (Hr a b). Qed.

(** A path goes through the new edge or does without it. *)
Lemma tc_add_edge es a b x y :
  tc (edge ((a, b) :: es)) x y ->
  tc (edge es) x y \/ (rtc (edge es) x a /\ rtc (edge es) b y).
Proof.
  induction 1 as [x y Hxy|x y z Hxy Hyz IH].
  - apply elem_of_cons in Hxy as [[= -> ->]|Hxy]; [right|left; by apply tc_once]. by split.
  - apply elem_of_cons in Hxy as [[= -> ->]|Hxy].
    + right. split; [done|]. destruct IH as [IH|[_ IH]]; [by apply tc_rtc|done].
    + destruct IH as [IH|[IH1 IH2]]; [left; by eapply tc_l|right; split; [by eapply rtc_l|done]].
Qed.

Lemma acyclic_add_edge es a b :
  acyclic es -> acyclic ((a, b) :: es) <-> ~ rtc (edge es) b a.
Proof.
  intros Ha. split.
  - intros Hc Hba. apply (Hc a). eapply tc_rtc_r; [apply tc_once; by left|].
    eapply rtc_mono; [|exact Hba]. intros; by right.
  - intros Hn n Hc%tc_add_edge. destruct Hc as [Hc|[H1 H2]]; [by apply (Ha n)|].
    apply Hn. by etransitivity.
Qed.

Lemma StronglySorted_weaken {A} (R S : relation A) l :
  (forall a b, R a b -> S a b) -> StronglySorted R l -> StronglySorted S l.
Proof.
  intros HRS. induction 1 as [|a l Hs IH Ha]; constructor; [done|].
  eapply Forall_impl; [exact Ha|]. intros b. apply HRS.
Qed.

Lemma StronglySorted_sublist {A} (R : relation A) l l' :
  l' `sublist_of` l -> StronglySorted R l -> StronglySorted R l'.
Proof.
  induction 1 as [|x l1 l2 Hl IH|x l1 l2 Hl IH]; intros Hs; [constructor| |].
  - apply StronglySorted_inv in Hs as [Hs Hx]. constructor; [by apply IH|].
    apply Forall_forall. intros y Hy. eapply Forall_forall in Hx; [exact Hx|].
    eapply elem_of_submseteq; [exact Hy|]. by apply sublist_submseteq.
  - apply IH. by apply StronglySorted_inv in Hs as [? _].
Qed.

(** In a topological order of an acyclic graph an edge goes forward. *)
Lemma topological_edge es l i j a b :
  acyclic es -> topological es l -> l !! i = Some a -> l !! j = Some b -> edge es a b -> (i < j)%nat.
Proof.
  intros Ha Ht Hi Hj Hab. destruct (decide (i < j)%nat) as [|Hij]; [done|exfalso].
  destruct (decide (i = j)) as [->|Hne].
  { assert (a = b) as -> by congruence. by apply (Ha b), tc_once. }
  unfold topological in Ht. rewrite <- (take_drop_middle _ _ _ Hj) in Ht.
  apply StronglySorted_app_1_r, StronglySorted_inv in Ht as [_ Ht].
  eapply Forall_forall in Ht; [by apply Ht, Hab|]. apply (list_elem_of_lookup_2 _ (i - S j)).
  rewrite lookup_drop. by replace (S j + (i - S j))%nat with i by lia.
Qed.

(** ** The interface *)
Class Petgraph := {
  graph : Type;
  edge_index : Type;
  new_graph : graph;
  add_node : graph -> graph * nat;
  extend_with_edges : graph -> list (nat * nat) -> graph;
  find_edge : graph -> nat -> nat -> option edge_index;
  remove_edge : graph -> edge_index -> option graph;
  neighbors_incoming : graph -> nat -> list nat;
  node_count : graph -> nat;
  edge_count : graph -> nat;
  connected_components : graph -> nat;
  is_cyclic_directed : graph -> bool;
  toposort : graph -> option (list nat);
  bfs : graph -> nat -> list nat;
  (** The edges of a graph; only the laws mention them. *)
  edges : graph -> list (nat * nat);
  new_graph_spec : node_count new_graph = 0%nat /\ edges new_graph = [];
  (** A new node gets the next index. *)
  add_node_spec : forall g, (add_node g).2 = node_count g /\
    node_count (add_node g).1 = S (node_count g) /\ edges (add_node g).1 ≡ₚ edges g;
  extend_with_edges_spec : forall g es, edges_in_range (node_count g) es ->
    node_count (extend_with_edges g es) = node_count g /\ edges (extend_with_edges g es) ≡ₚ es ++ edges g;
  find_edge_spec : forall g a b, is_Some (find_edge g a b) <-> edge (edges g) a b;
  remove_edge_spec : forall g a b e, find_edge g a b = Some e -> exists g', remove_edge g e = Some g' /\
    node_count g' = node_count g /\ edges g ≡ₚ (a, b) :: edges g';
  neighbors_incoming_spec : forall g n,
    neighbors_incoming g n ≡ₚ (filter (fun e => e.2 = n) (edges g)).*1;
  edge_count_spec : forall g, edge_count g = length (edges g);
  is_cyclic_directed_spec : forall g, edges_in_range (node_count g) (edges g) ->
    is_cyclic_directed g = false <-> acyclic (edges g);
  toposort_spec : forall g, edges_in_range (node_count g) (edges g) -> acyclic (edges g) ->
    exists l, toposort g = Some l /\ l ≡ₚ seq 0 (node_count g) /\ topological (edges g) l;
  (** A walk from a node visits what it reaches, once. *)
  bfs_spec : forall g n, edges_in_range (node_count g) (edges g) -> (n < node_count g)%nat ->
    NoDup (bfs g n) /\ forall m, m ∈ bfs g n <-> rtc (edge (edges g)) n m;
}.

(** ** A reference instance: the number of nodes and the list of edges *)
Module Reference.
Record t := mk { nodes : nat; edge_list : list (nat * nat) }.

Definition successors (es : list (nat * nat)) (s : list nat) : list nat :=
  (filter (fun e => e.1 ∈ s) es).*2.

(** Adds the successors until nothing is new. *)
Fixpoint saturate (fuel : nat) (es : list (nat * nat)) (s : list nat) : list nat :=
  match fuel with
  | 0%nat => s
  | S fuel =>
      match remove_dups (filter (fun x => x ∉ s) (successors es s)) with
      | [] => s
      | new => saturate fuel es (s ++ new)
      end
  end.

Definition reach (g : t) (n : nat) : list nat := saturate (nodes g) (edge_list g) [n].

(** How many nodes reach [n]. *)
Definition depth (g : t) (n : nat) : nat := length (filter (fun m => n ∈ reach g m) (seq 0 (nodes g))).

Definition cyclic (g : t) : bool :=
  bool_decide (Exists (fun e => e.1 ∈ reach g e.2) (edge_list g)).

Definition order_nodes (g : t) : list nat :=
  sort_by (fun a b => bool_decide (depth g a <= depth g b)%nat) (seq 0 (nodes g)).

Fixpoint remove_one (e : nat * nat) (es : list (nat * nat)) : list (nat * nat) :=
  match es with
  | [] => []
  | e' :: es => if decide (e' = e) then es else e' :: remove_one e es
  end.

Lemma remove_one_spec e es : e ∈ es -> es ≡ₚ e :: remove_one e es.
Proof.
  induction es as [|e' es IH]; intros Hin; [by apply not_elem_of_nil in Hin|]. cbn.
  case_decide as Hd; [by subst|]. apply elem_of_cons in Hin as [->|Hin]; [done|].
  rewrite (IH Hin) at 1. apply Permutation_swap.
Qed.

Lemma elem_of_successors es s x : x ∈ successors es s <-> exists y, y ∈ s /\ edge es y x.
Proof.
  unfold successors. rewrite list_elem_of_fmap. setoid_rewrite list_elem_of_filter. split.
  - intros ([y z] & -> & Hy & Hin). by exists y.
  - intros (y & Hy & Hin). by exists (y, x).
Qed.

(** What [saturate] returns: the nodes reachable from [s], once each, when the fuel covers
    the nodes not in [s]. *)
Lemma saturate_spec fuel n es s :
  edges_in_range n es -> NoDup s -> (forall x, x ∈ s -> (x < n)%nat) -> (n <= fuel + length s)%nat ->
  NoDup (saturate fuel es s) /\
  forall m, m ∈ saturate fuel es s <-> exists x, x ∈ s /\ rtc (edge es) x m.
Proof.
  intros Hr. revert s. induction fuel as [|fuel IH]; intros s Hnd Hs Hf; cbn.
  - split; [done|]. intros m. split; [by exists m|]. intros (x & Hx & Hxm).
    assert (forall y, (y < n)%nat -> y ∈ s) as Hall.
    { intros y Hy. assert (seq 0 n ⊆+ s) as Hsub.
      { assert (s ≡ₚ seq 0 n) as ->; [|done]. apply submseteq_length_Permutation.
        - apply NoDup_submseteq; [done|]. intros z Hz. apply elem_of_seq. specialize (Hs z Hz). lia.
        - rewrite length_seq. cbn in Hf. lia. }
      eapply elem_of_submseteq; [|exact Hsub]. apply elem_of_seq. lia. }
    apply Hall. eapply rtc_in_range; [done| |exact Hxm]. by apply Hs.
  - destruct (remove_dups _) as [|y new] eqn:Enew.
    + split; [done|]. intros m. split; [by exists m|]. intros (x & Hx & Hxm).
      induction Hxm as [x|x z m Hxz _ IHm]; [done|]. apply IHm.
      destruct (decide (z ∈ s)) as [|Hz]; [done|]. exfalso.
      assert (z ∈ remove_dups (filter (fun x => x ∉ s) (successors es s))) as Hin.
      { rewrite elem_of_remove_dups, list_elem_of_filter, elem_of_successors. eauto. }
      rewrite Enew in Hin. by apply not_elem_of_nil in Hin.
    + assert (Hnew : forall z, z ∈ y :: new <-> (z ∉ s) /\ exists x, x ∈ s /\ edge es x z).
      { intros z. rewrite <- Enew, elem_of_remove_dups, list_elem_of_filter, elem_of_successors. done. }
      assert (NoDup (y :: new)) as Hndn by (rewrite <- Enew; apply NoDup_remove_dups).
      destruct (IH (s ++ y :: new)) as [H1 H2].
      * apply NoDup_app. split_and!; [done| |done]. intros z Hz Hz'. by apply Hnew in Hz' as [? _].
      * intros z [Hz|(_ & x & _ & Hz)%Hnew]%elem_of_app; [by apply Hs|]. by apply (Hr x z).
      * rewrite length_app. cbn. lia.
      * split; [done|]. intros m. rewrite H2. split.
        -- intros (z & [Hz|(_ & x & Hx & Hz)%Hnew]%elem_of_app & Hm); [by exists z|].
           exists x. split; [done|]. by eapply rtc_l.
        -- intros (x & Hx & Hm). exists x. split; [apply elem_of_app; by left|done].
Qed.

Lemma reach_spec g n :
  edges_in_range (nodes g) (edge_list g) -> (n < nodes g)%nat ->
  NoDup (reach g n) /\ forall m, m ∈ reach g n <-> rtc (edge (edge_list g)) n m.
Proof.
  intros Hr Hn. destruct (saturate_spec (nodes g) (nodes g) (edge_list g) [n]) as [H1 H2].
  - done.
  - apply NoDup_singleton.
  - by intros x ->%list_elem_of_singleton.
  - lia.
  - split; [done|]. intros m. unfold reach. rewrite H2. split.
    + by intros (x & ->%list_elem_of_singleton & ?).
    + intros ?. exists n. split; [set_solver|done].
Qed.

Lemma cyclic_spec g :
  edges_in_range (nodes g) (edge_list g) -> cyclic g = false <-> acyclic (edge_list g).
Proof.
  intros Hr. unfold cyclic. rewrite bool_decide_eq_false, Exists_exists. split.
  - intros Hn n Hc. apply Hn. assert (exists b, edge (edge_list g) n b /\ rtc (edge (edge_list g)) b n) as (b & Hb & Hbn).
    { inversion Hc; subst; [by exists n|]. eexists. split; [done|]. by apply tc_rtc. }
    exists (n, b). split; [done|]. cbn. apply reach_spec; [done| |done]. by apply (Hr n b).
  - intros Ha ([a b] & Hin & Hre). cbn in Hre. apply (Ha a).
    apply reach_spec in Hre; [|done|by apply (Hr a b)]. eapply tc_rtc_r; [by apply tc_once|done].
Qed.

(** An edge goes to a deeper node when there are no cycles. *)
Lemma depth_edge g a b :
  edges_in_range (nodes g) (edge_list g) -> acyclic (edge_list g) -> edge (edge_list g) a b ->
  (depth g a < depth g b)%nat.
Proof.
  intros Hr Ha Hab. destruct (Hr a b Hab) as [Hna Hnb]. unfold depth.
  assert (Hsub : filter (fun m => a ∈ reach g m) (seq 0 (nodes g)) ++ [b] ⊆+
                 filter (fun m => b ∈ reach g m) (seq 0 (nodes g))).
  { apply NoDup_submseteq.
    - apply NoDup_app. split_and!; [apply NoDup_filter, NoDup_seq| |apply NoDup_singleton].
      intros m [Hm _]%list_elem_of_filter ->%list_elem_of_singleton.
      apply reach_spec in Hm; [|done..]. apply (Ha b). by eapply tc_rtc_l; [|apply tc_once].
    - intros m [[Hm Hseq]%list_elem_of_filter| ->%list_elem_of_singleton]%elem_of_app; apply list_elem_of_filter.
      + split; [|done]. apply elem_of_seq in Hseq. apply reach_spec; [done|lia|].
        apply reach_spec in Hm; [|done|lia]. by eapply rtc_r.
      + split; [by apply reach_spec|]. apply elem_of_seq. lia. }
  apply submseteq_length in Hsub. rewrite length_app in Hsub. cbn in Hsub. lia.
Qed.

Lemma order_nodes_topological g :
  edges_in_range (nodes g) (edge_list g) -> acyclic (edge_list g) -> topological (edge_list g) (order_nodes g).
Proof.
  intros Hr Ha. unfold topological.
  assert (StronglySorted (fun a b => bool_decide (depth g a <= depth g b)%nat = true) (order_nodes g)) as Hs.
  { apply Sorted_StronglySorted; [intros x y z; rewrite !bool_decide_eq_true; lia|].
    apply sort_by_sorted. intros x y. rewrite !bool_decide_eq_true. lia. }
  eapply StronglySorted_weaken; [|exact Hs]. intros a b Hab Hba.
  apply bool_decide_eq_true in Hab. apply (depth_edge _ _ _ Hr Ha) in Hba. lia.
Qed.
End Reference.

Program Definition reference_graph : Petgraph := {|
  graph := Reference.t;
  edge_index := nat * nat;
  new_graph := Reference.mk 0 [];
  add_node g := (Reference.mk (S (Reference.nodes g)) (Reference.edge_list g), Reference.nodes g);
  extend_with_edges g es := Reference.mk (Reference.nodes g) (es ++ Reference.edge_list g);
  find_edge g a b := if decide ((a, b) ∈ Reference.edge_list g) then Some (a, b) else None;
  remove_edge g e := Some (Reference.mk (Reference.nodes g) (Reference.remove_one e (Reference.edge_list g)));
  neighbors_incoming g n := (filter (fun e => e.2 = n) (Reference.edge_list g)).*1;
  node_count := Reference.nodes;
  edge_count g := length (Reference.edge_list g);
  connected_components _ := 0%nat;
  is_cyclic_directed := Reference.cyclic;
  toposort g := Some (Reference.order_nodes g);
  bfs := Reference.reach;
  edges := Reference.edge_list;
|}.
Next Obligation. done. Qed.
Next Obligation. done. Qed.
Next Obligation. done. Qed.
Next Obligation. intros g a b. cbn. unfold edge. case_decide; split; done || by intros []. Qed.
Next Obligation.
  intros g a b e He. cbn in *. case_decide; [|done]. injection He as <-. eexists. split_and!; [done..|].
  by apply Reference.remove_one_spec.
Qed.
Next Obligation. done. Qed.
Next Obligation. done. Qed.
Next Obligation. intros g. apply Reference.cyclic_spec. Qed.
Next Obligation.
  intros g Hr Ha. eexists. split_and!; [done|apply sort_by_perm|by apply Reference.order_nodes_topological].
Qed.
Next Obligation. intros g n. apply Reference.reach_spec. Qed.
