(* ===== verification/PackageGraph.v ===== *)
(** * The package graph

    Models [components/builder-core/src/package_graph.rs] and [rdeps.rs]: the graph of the
    packages known to the builder, with an edge from a dependency to each package that needs
    it, and the computation of what must be rebuilt when a package changes.  Packages count
    by their short name ([origin/name]); only the dependencies of the latest release are in
    the graph.  The graph itself is a parameter ([Petgraph]).  Indices are [usize] values
    bounded by the number of packages and are kept as natural numbers. *)

From S2P Require Import Prelude Regex ServiceGroup Ident Petgraph.
From Stdlib Require Import Ascii.
Local Open Scope string_scope.
Local Open Scope list_scope.

(** The message [JobGraphPackage]. *)
Record JobGraphPackage := mkJobGraphPackage {
  jp_ident : string;
  jp_target : string;
  jp_deps : list string;
}.

(** ** Reverse dependencies *)
Inductive GraphErr := GraphCyclic.

(** The [while] loop of [rdeps]: [rest] is the topological order from [curr] on.  Running off
    its end would be an index out of bounds. *)
Fixpoint collect (rest : list nat) (bfs_set : gset nat) (v : list nat) : outcome (list nat) :=
  if decide (bfs_set = ∅) then Return v
  else
    match rest with
    | [] => Panic "index out of bounds"
    | x :: rest =>
        if decide (x ∈ bfs_set) then collect rest (bfs_set ∖ {[x]}) (v ++ [x])
        else collect rest bfs_set v
    end.

Section rdeps.
  Context `{!Petgraph}.

Definition rdeps (g : graph) (n : nat) : outcome (result GraphErr (list nat)) :=
  if is_cyclic_directed g then Return (Err GraphCyclic)
  else
    t ← expect "unwrap" (toposort g);
    let topo_map : gmap nat nat := foldl (fun m (e : nat * nat) => <[e.2 := e.1]> m) ∅ (imap pair t) in
    curr ← expect "unwrap" (topo_map !! n);
    let bfs_set : gset nat := list_to_set (bfs g n) ∖ {[n]} in
    Ok <$> collect (drop curr t) bfs_set [].
End rdeps.

(** [short_name]: the first two parts of an identifier. *)
Definition short_name (name : string) : outcome string :=
  match split "/"%char name with
  | o :: n :: _ => Return (o +:+ "/" +:+ n)
  | _ => Panic "assertion failed: parts.len() >= 2"
  end.

Module PackageGraph.
Section with_graph.
  Context `{!Petgraph, !RegexEngine}.

Record t := mk {
  package_max : nat;
  package_map : gmap string (nat * nat);
  latest_map : gmap string PackageIdent.t;
  package_names : list string;
  the_graph : graph;
}.

Definition new : t := mk 0 ∅ ∅ [] new_graph.

Definition set_graph (g : graph) (pg : t) : t :=
  mk (package_max pg) (package_map pg) (latest_map pg) (package_names pg) g.

Definition set_latest (sn : string) (i : PackageIdent.t) (pg : t) : t :=
  mk (package_max pg) (package_map pg) (<[sn := i]> (latest_map pg)) (package_names pg) (the_graph pg).

Definition generate_id (name : string) (pg : t) : outcome (t * (nat * nat)) :=
  sn ← short_name name;
  match package_map pg !! sn with
  | Some val => Return (pg, val)
  | None =>
      let names := package_names pg ++ [sn] in
      if decide (names !! package_max pg = Some sn) then
        let '(g, node_index) := add_node (the_graph pg) in
        Return (mk (package_max pg + 1) (<[sn := (package_max pg, node_index)]> (package_map pg))
                  (latest_map pg) names g, (package_max pg, node_index))
      else Panic "assertion failed: self.package_names[self.package_max] == short_name"
  end.

(** [find_edge(..).unwrap()], then [remove_edge(..).unwrap()]. *)
Definition remove_between (a b : nat) (g : graph) : outcome graph :=
  e ← expect "unwrap" (find_edge g a b);
  expect "unwrap" (remove_edge g e).

(** The loop over the dependencies in [check_extend], which stops at the first cycle. *)
Fixpoint try_deps (pg : t) (pkg_node : nat) (deps : list string) (g : graph) (dep_nodes : list nat)
  : outcome (graph * list nat * bool) :=
  match deps with
  | [] => Return (g, dep_nodes, false)
  | dep :: deps =>
      sn ← short_name dep;
      match package_map pg !! sn with
      | Some (_, dep_node) =>
          let g := extend_with_edges g [(dep_node, pkg_node)] in
          let dep_nodes := dep_nodes ++ [dep_node] in
          if is_cyclic_directed g then Return (g, dep_nodes, true)
          else try_deps pg pkg_node deps g dep_nodes
      | None => try_deps pg pkg_node deps g dep_nodes
      end
  end.

Definition check_extend (package : JobGraphPackage) (pg : t) : outcome (t * bool) :=
  sn ← short_name (jp_ident package);
  match package_map pg !! sn with
  | None => Return (pg, true)
  | Some (_, pkg_node) =>
      let saved_nodes := neighbors_incoming (the_graph pg) pkg_node in
      g ← for_each (fun n g => remove_between n pkg_node g) saved_nodes (the_graph pg);
      r ← try_deps pg pkg_node (jp_deps package) g [];
      let '(g, dep_nodes, circular_dep) := (r : graph * list nat * bool) in
      g ← for_each (fun n g => remove_between n pkg_node g) dep_nodes g;
      let g := foldl (fun g n => extend_with_edges g [(n, pkg_node)]) g saved_nodes in
      Return (set_graph g pg, negb circular_dep)
  end.

(** Whether the dependencies are to be added, after the bookkeeping of the latest release. *)
Definition update_latest (sn : string) (pkg_ident : PackageIdent.t) (pkg_node : nat) (pg : t)
  : outcome (t * bool) :=
  match latest_map pg !! sn with
  | Some latest =>
      skip_update ← ident_lt pkg_ident latest;
      if (skip_update : bool) then Return (pg, false)
      else
        g ← for_each (fun n g => remove_between n pkg_node g)
              (neighbors_incoming (the_graph pg) pkg_node) (the_graph pg);
        Return (set_latest sn pkg_ident (set_graph g pg), true)
  | None => Return (set_latest sn pkg_ident pg, true)
  end.

Definition add_dep (pkg_node : nat) (dep : string) (pg : t) : outcome t :=
  r ← generate_id dep pg;
  let '(pg, (_, dep_node)) := (r : t * (nat * nat)) in
  let g := extend_with_edges (the_graph pg) [(dep_node, pkg_node)] in
  if is_cyclic_directed g
  then g ← remove_between dep_node pkg_node g; Return (set_graph g pg)
  else Return (set_graph g pg).

Definition extend (package : JobGraphPackage) (pg : t) : outcome (t * (nat * nat)) :=
  let name := jp_ident package in
  r ← generate_id name pg;
  let '(pg, (pkg_id, pkg_node)) := (r : t * (nat * nat)) in
  if decide (pkg_id <> pkg_node) then Panic "assertion failed: pkg_id == pkg_node.index()"
  else
    match PackageIdent.from_str name with
    | Err _ => Panic "unwrap"
    | Ok pkg_ident =>
        sn ← short_name name;
        r ← update_latest sn pkg_ident pkg_node pg;
        let '(pg, add_deps) := (r : t * bool) in
        pg ← (if add_deps then for_each (add_dep pkg_node) (jp_deps package) pg else Return pg);
        Return (pg, (node_count (the_graph pg), edge_count (the_graph pg)))
    end.

Definition build (packages : list JobGraphPackage) (pg : t) : outcome (t * (nat * nat)) :=
  if decide (package_max pg <> 0%nat) then Panic "assertion failed: self.package_max == 0"
  else
    pg ← for_each (fun p pg => fst <$> extend p pg) packages pg;
    Return (pg, (node_count (the_graph pg), edge_count (the_graph pg))).

(** The reverse dependencies of a package, by name and latest identifier. *)
Definition rdeps_of (pg : t) (name : string) : outcome (option (list (string * string))) :=
  match package_map pg !! name with
  | Some (_, pkg_node) =>
      r ← rdeps (the_graph pg) pkg_node;
      match r with
      | Ok deps =>
          v ← for_each (fun n v =>
                nm ← expect "index out of bounds" (package_names pg !! n);
                ident ← expect "unwrap" (latest_map pg !! nm);
                Return (v ++ [(nm, PackageIdent.to_string ident)])) deps [];
          Return (Some v)
      | Err _ => Panic "Error: GraphCyclic"
      end
  | None => Return None
  end.

Definition contains (phrase s : string) : bool :=
  match String.index 0 phrase s with Some _ => true | None => false end.

Definition search (pg : t) (phrase : string) : list string :=
  filter (fun s => contains phrase s = true) (package_names pg).

Definition latest (o : order) (pg : t) : list string :=
  PackageIdent.to_string <$> permute o (map_to_list (latest_map pg)).*2.

Definition resolve (pg : t) (name : string) : option string :=
  PackageIdent.to_string <$> latest_map pg !! name.

Record Stats := mkStats {
  st_node_count : nat;
  st_edge_count : nat;
  st_connected_comp : nat;
  st_is_cyclic : bool;
}.

Definition stats (pg : t) : Stats :=
  mkStats (node_count (the_graph pg)) (edge_count (the_graph pg))
    (connected_components (the_graph pg)) (is_cyclic_directed (the_graph pg)).

(** The [max] packages with the most reverse dependencies.  The heap pops a greatest entry by
    count; which of equal ones is decided by the order. *)
Definition top (o : order) (pg : t) (max : nat) : outcome (list (string * nat)) :=
  heap ← for_each (fun (e : string * (nat * nat)) heap =>
           r ← rdeps (the_graph pg) e.2.2;
           match r with
           | Ok v => Return (heap ++ [(e.2.1, length v)])
           | Err _ => Panic "Error: GraphCyclic"
           end) (permute o (map_to_list (package_map pg))) [];
  for_each (fun (he : nat * nat) v =>
      nm ← expect "index out of bounds" (package_names pg !! he.1);
      Return (v ++ [(nm, he.2)]))
    (take max (sort_by (fun a b : nat * nat => bool_decide (b.2 <= a.2)%nat) heap)) [].
End with_graph.
Arguments t {_}.
End PackageGraph.
