(* ===== verification/PackageGraphProofs.v ===== *)
(** * Properties of the package graph

    The graph stays acyclic and consistent with the tables around it; [check_extend] leaves
    it as it was and predicts [extend]; [rdeps] returns the transitive dependents in an order
    in which they can be built.  The definitions are in [PackageGraph.v]. *)

From Stdlib Require Import Ascii.
From S2P Require Import Prelude Regex ServiceGroup Ident Target Petgraph PackageGraph.
Local Open Scope string_scope.
Local Open Scope list_scope.

Import PackageGraph.

(** ** Reverse dependencies *)

Lemma filter_none {A} (P : A -> Prop) `{!forall x, Decision (P x)} l :
  (forall x, x ∈ l -> ~ P x) -> filter P l = [].
Proof.
  induction l as [|x l IH]; intros Hl; [done|].
  rewrite filter_cons, decide_False by (apply Hl; set_solver). apply IH. set_solver.
Qed.

(** The loop finds the elements of the set in the order of the list. *)
Lemma collect_spec rest (S : gset nat) v :
  NoDup rest -> (forall x, x ∈ S -> x ∈ rest) ->
  collect rest S v = Return (v ++ filter (fun x => x ∈ S) rest).
Proof.
  revert S v. induction rest as [|x rest IH]; intros S v Hnd HS.
  { cbn. rewrite decide_True; [by rewrite app_nil_r|].
    apply set_eq. intros x. split; [|set_solver]. intros Hx%HS. by apply not_elem_of_nil in Hx. }
  apply NoDup_cons in Hnd as [Hx Hnd]. rewrite filter_cons. cbn [collect].
  destruct (decide (S = ∅)) as [->|Hne].
  { rewrite decide_False by set_solver. rewrite filter_none by set_solver. by rewrite app_nil_r. }
  destruct (decide (x ∈ S)) as [HxS|HxS].
  - rewrite IH; [|done|set_solver]. rewrite <- app_assoc. do 2 f_equal. cbn. f_equal.
    clear -Hx. induction rest as [|y rest IH]; [done|]. rewrite !filter_cons.
    rewrite not_elem_of_cons in Hx. destruct Hx as [Hy Hx].
    destruct (decide (y ∈ S)); [rewrite decide_True by set_solver|rewrite decide_False by set_solver];
      rewrite IH by done; done.
  - apply IH; [done|]. intros y Hy. specialize (HS y Hy). apply elem_of_cons in HS as [->|]; done.
Qed.

(** The table from nodes to their position. *)
Lemma topo_map_spec (t : list nat) n i :
  NoDup t ->
  (foldl (fun (m : gmap nat nat) (e : nat * nat) => <[e.2 := e.1]> m) ∅ (imap pair t)) !! n = Some i <->
  t !! i = Some n.
Proof.
  revert n i. induction t as [|x t IH] using rev_ind; intros n i Hnd; [done|].
  rewrite imap_app, foldl_app. cbn. rewrite Nat.add_0_r.
  apply NoDup_app in Hnd as (Hnd & Hx & _). destruct (decide (x = n)) as [->|Hne].
  - rewrite lookup_insert_eq. split.
    + intros [= <-]. by rewrite list_lookup_middle.
    + intros Hi. f_equal. destruct (decide (i < length t)%nat) as [Hlt|Hge].
      * rewrite lookup_app_l in Hi by done. apply list_elem_of_lookup_2 in Hi. by apply Hx in Hi; set_solver.
      * apply lookup_lt_Some in Hi. rewrite length_app in Hi. cbn in Hi. lia.
  - rewrite lookup_insert_ne by done. rewrite IH by done. split.
    + intros Hi. by rewrite lookup_app_l by (by eapply lookup_lt_Some).
    + intros Hi. apply lookup_app_Some in Hi as [Hi|[_ Hi]]; [done|].
      apply list_lookup_singleton_Some in Hi as [_ <-]. done.
Qed.

Lemma topological_tc es l i j a b :
  acyclic es -> (forall c, (exists x, edge es x c) -> c ∈ l) -> NoDup l ->
  topological es l -> tc (edge es) a b -> l !! i = Some a -> l !! j = Some b -> (i < j)%nat.
Proof.
  intros Hac Hin Hnd Ht Hab. revert i. induction Hab as [a b Hab|a c b Hacb _ IH]; intros i Hi Hj.
  - by apply (topological_edge es l i j a b).
  - destruct (list_elem_of_lookup_1 l c) as [k Hk]; [apply Hin; eauto|].
    assert (i < k)%nat by (by apply (topological_edge es l i k a c)). assert (k < j)%nat by (by apply IH). lia.
Qed.

Lemma rtc_tc_or_eq {A} (R : relation A) x y : rtc R x y <-> x = y \/ tc R x y.
Proof.
  split.
  - intros [->|(z & Hxz & Hzy)]%rtc_inv; [by left|right]. by eapply tc_rtc_r; [apply tc_once|].
  - intros [->|H]; [done|by apply tc_rtc].
Qed.

Section rdeps_spec.
  Context `{!Petgraph}.

(** [rdeps] on an acyclic graph: everything reached from [n] but [n] itself, once, and a node
    only after all its predecessors in the list. *)
Lemma rdeps_spec g n :
  edges_in_range (node_count g) (edges g) -> acyclic (edges g) -> (n < node_count g)%nat ->
  exists v, rdeps g n = Return (Ok v) /\ NoDup v /\ (forall m, m ∈ v <-> tc (edge (edges g)) n m) /\
    topological (edges g) v.
Proof.
  intros Hr Ha Hn. unfold rdeps. rewrite (proj2 (is_cyclic_directed_spec g Hr) Ha).
  destruct (toposort_spec g Hr Ha) as (t & -> & Hperm & Ht). cbn.
  destruct (bfs_spec g n Hr Hn) as [_ Hbfs].
  assert (NoDup t) as Hnd by (rewrite Hperm; apply NoDup_seq).
  assert (Hall : forall m, (m < node_count g)%nat -> m ∈ t).
  { intros m Hm. rewrite Hperm. apply elem_of_seq. lia. }
  destruct (list_elem_of_lookup_1 t n (Hall n Hn)) as [curr Hcurr].
  rewrite (proj2 (topo_map_spec t n curr Hnd) Hcurr). cbn [expect mbind outcome_bind].
  set (S := list_to_set (bfs g n) ∖ {[n]} : gset nat).
  assert (HS : forall m, m ∈ S <-> tc (edge (edges g)) n m).
  { intros m. unfold S. rewrite elem_of_difference, elem_of_list_to_set, Hbfs, rtc_tc_or_eq, elem_of_singleton.
    split; [intros [[->|] ?]; done|]. intros Hm. split; [by right|]. intros ->. by apply (Ha n). }
  assert (Hafter : forall m, tc (edge (edges g)) n m -> m ∈ drop curr t).
  { intros m Hm. assert (m ∈ t) as [j Hj]%list_elem_of_lookup.
    { apply Hall. eapply rtc_in_range; [done|exact Hn|by apply tc_rtc]. }
    assert (curr < j)%nat.
    { eapply (topological_tc (edges g) t curr j n m); try done.
      intros c [x Hxc]. by apply Hall, (Hr x c). }
    apply (list_elem_of_lookup_2 _ (j - curr)). rewrite lookup_drop.
    by replace (curr + (j - curr))%nat with j by lia. }
  assert (NoDup (drop curr t)) as Hndd by (eapply sublist_NoDup; [exact Hnd|apply sublist_drop]).
  rewrite collect_spec.
  - cbn. eexists. split; [done|]. split_and!.
    + by apply NoDup_filter.
    + intros m. rewrite list_elem_of_filter, HS. split; [by intros [? _]|]. auto.
    + eapply StronglySorted_sublist; [|exact Ht].
      etransitivity; [apply sublist_filter|apply sublist_drop].
  - done.
  - intros m Hm%HS. auto.
Qed.
End rdeps_spec.

(** ** The invariant *)
Section package_graph.
  Context `{!Petgraph, !RegexEngine}.
  Implicit Types (pg : PackageGraph.t) (g : graph).

(** Names, ids and nodes are the same numbering; the graph is acyclic; a package with
    dependencies has a latest release, filed under its short name. *)
Record wf (pg : PackageGraph.t) : Prop := {
  wf_max : package_max pg = length (package_names pg);
  wf_nodes : node_count (the_graph pg) = length (package_names pg);
  wf_map : forall sn i j, package_map pg !! sn = Some (i, j) <-> package_names pg !! i = Some sn /\ j = i;
  wf_range : edges_in_range (node_count (the_graph pg)) (edges (the_graph pg));
  wf_acyclic : acyclic (edges (the_graph pg));
  wf_targets : forall a b, edge (edges (the_graph pg)) a b ->
    exists nm, package_names pg !! b = Some nm /\ is_Some (latest_map pg !! nm);
  wf_latest : forall nm i, latest_map pg !! nm = Some i ->
    nm ∈ package_names pg /\ nm = PackageIdent.origin i +:+ "/" +:+ PackageIdent.name i;
}.

(** Graphs that differ in the order of their edges. *)
Definition same_edges (g g' : graph) : Prop :=
  node_count g = node_count g' /\ edges g ≡ₚ edges g'.

#[global] Instance same_edges_equivalence : Equivalence same_edges.
Proof.
  split; [by split|intros ? ? [? ?]; by split|].
  intros g1 g2 g3 [H1 H2] [H3 H4]. split; [congruence|by rewrite H2].
Qed.

Lemma wf_same_edges pg g :
  same_edges g (the_graph pg) -> wf pg -> wf (set_graph g pg).
Proof.
  intros [Hn He] Hwf. split; cbn; try apply Hwf.
  - rewrite Hn. apply Hwf.
  - rewrite Hn, He. apply Hwf.
  - rewrite He. apply Hwf.
  - intros a b. rewrite He. apply Hwf.
Qed.

Lemma graph_new_wf : wf PackageGraph.new.
Proof.
  destruct new_graph_spec as [Hn He]. split; cbn; rewrite ?Hn, ?He; try done.
  - intros sn i j. rewrite lookup_empty, lookup_nil. naive_solver.
  - intros a b Hab. by apply not_elem_of_nil in Hab.
  - intros n Hc. inversion Hc as [? ? He0|? ? ? He0]; by apply not_elem_of_nil in He0.
  - intros a b Hab. by apply not_elem_of_nil in Hab.
Qed.

(** An identifier that parses has a short name. *)
Lemma short_name_parsed v i :
  PackageIdent.from_str v = Ok i ->
  short_name v = Return (PackageIdent.origin i +:+ "/" +:+ PackageIdent.name i).
Proof.
  unfold PackageIdent.from_str, short_name.
  destruct (split "/"%char v) as [|o [|n [|x [|y [|z l]]]]]; try done; by intros [= <-].
Qed.

(** The node of a short name. *)
Definition node_of (pg : PackageGraph.t) (sn : string) (n : nat) : Prop := package_names pg !! n = Some sn.

Lemma node_of_inj pg sn n n' : wf pg -> node_of pg sn n -> node_of pg sn n' -> n = n'.
Proof.
  intros Hwf H1 H2. assert (package_map pg !! sn = Some (n, n)) as E1 by (by apply (wf_map _ Hwf)).
  assert (package_map pg !! sn = Some (n', n')) as E2 by (by apply (wf_map _ Hwf)). congruence.
Qed.

(** The graph [pg'] has the nodes of [pg] and perhaps more, none of which is connected. *)
Record extends (pg pg' : PackageGraph.t) : Prop := {
  ext_names : package_names pg `prefix_of` package_names pg';
  ext_latest : latest_map pg' = latest_map pg;
  ext_edges : edges (the_graph pg') ≡ₚ edges (the_graph pg);
}.

Lemma generate_id_spec name sn pg :
  wf pg -> short_name name = Return sn ->
  Returns (generate_id name pg) (fun r => exists n, r.2 = (n, n) /\ wf r.1 /\ extends pg r.1 /\
    node_of r.1 sn n /\ (package_map pg !! sn = None -> n = length (package_names pg)) /\
    (is_Some (package_map pg !! sn) -> r.1 = pg)).
Proof.
  intros Hwf Hsn. unfold generate_id. rewrite Hsn. cbn.
  destruct (package_map pg !! sn) as [[i j]|] eqn:E.
  - apply (wf_map _ Hwf) in E as [Hi ->]. cbn. exists i. by split_and!.
  - assert ((package_names pg ++ [sn]) !! package_max pg = Some sn) as Hlook
      by (rewrite (wf_max _ Hwf); by apply list_lookup_middle).
    rewrite decide_True by done.
    destruct (add_node_spec (the_graph pg)) as (Hix & Hcount & Hedges).
    destruct (add_node (the_graph pg)) as [g ix]. cbn in *. rewrite (wf_nodes _ Hwf) in Hix, Hcount.
    rewrite (wf_max _ Hwf), Hix in *. exists (length (package_names pg)).
    assert (Hnew : forall i, package_names pg !! i <> Some sn).
    { intros i Hi. assert (package_map pg !! sn = Some (i, i)) by (by apply (wf_map _ Hwf)). congruence. }
    split_and!; [done| | |by apply list_lookup_middle|done|by intros []].
    + split; cbn.
      * rewrite length_app. cbn. lia.
      * rewrite length_app. cbn. lia.
      * intros sn' i j. destruct (decide (sn = sn')) as [<-|Hne].
        -- rewrite lookup_insert_eq. split.
           ++ intros [= <- <-]. split; [by apply list_lookup_middle|done].
           ++ intros [Hi ->]. apply lookup_app_Some in Hi as [Hi|[Hge Hi]]; [by destruct (Hnew i)|].
              apply list_lookup_singleton_Some in Hi as [Hi _].
              by replace i with (length (package_names pg)) by lia.
        -- rewrite lookup_insert_ne by done. rewrite (wf_map _ Hwf). split; intros [Hi ->]; (split; [|done]).
           ++ by apply lookup_app_l_Some.
           ++ apply lookup_app_Some in Hi as [Hi|[_ Hi]]; [done|].
              by apply list_lookup_singleton_Some in Hi as [_ ?].
      * rewrite Hcount, Hedges. intros a b Hab. destruct (wf_range _ Hwf a b Hab) as [H1 H2].
        rewrite (wf_nodes _ Hwf) in *. lia.
      * rewrite Hedges. apply Hwf.
      * intros a b. rewrite Hedges. intros (nm & Hb & ?)%(wf_targets _ Hwf). exists nm.
        split; [by apply lookup_app_l_Some|done].
      * intros nm i Hi. destruct (wf_latest _ Hwf nm i Hi). split; [set_solver|done].
    + split; cbn; [by apply prefix_app_r|done..].
Qed.

(** ** Removing and adding edges *)
Lemma remove_between_spec a b g :
  edge (edges g) a b ->
  Returns (remove_between a b g) (fun g' => node_count g' = node_count g /\ edges g ≡ₚ (a, b) :: edges g').
Proof.
  intros He. unfold remove_between. apply find_edge_spec in He as [e He]. rewrite He. cbn.
  destruct (remove_edge_spec _ _ _ _ He) as (g' & -> & ? & ?). done.
Qed.

(** The edges from the nodes of a list to one node. *)
Definition edges_to (b : nat) (l : list nat) : list (nat * nat) := (fun a => (a, b)) <$> l.

Lemma remove_all_spec b l rest g :
  edges g ≡ₚ edges_to b l ++ rest ->
  Returns (for_each (fun n g => remove_between n b g) l g) (fun g' =>
    node_count g' = node_count g /\ edges g' ≡ₚ rest).
Proof.
  revert g. induction l as [|a l IH]; intros g Hg; [done|]. cbn in *.
  eapply Returns_bind; [apply remove_between_spec; unfold edge; rewrite Hg; by left|].
  cbn beta. intros g' [Hn He]. rewrite He in Hg. apply Permutation_cons_inv in Hg.
  eapply Returns_mono; [by apply IH|]. cbn beta. intros g'' [Hn' ?]. split; [congruence|done].
Qed.

Lemma add_all_spec b l g :
  edges_in_range (node_count g) (edges_to b l) ->
  node_count (foldl (fun g n => extend_with_edges g [(n, b)]) g l) = node_count g /\
  edges (foldl (fun g n => extend_with_edges g [(n, b)]) g l) ≡ₚ edges_to b l ++ edges g.
Proof.
  revert g. induction l as [|a l IH]; intros g Hr; [done|]. cbn.
  destruct (extend_with_edges_spec g [(a, b)]) as [Hn He].
  { intros x y Hxy%list_elem_of_singleton. injection Hxy as -> ->. apply Hr. by left. }
  destruct (IH (extend_with_edges g [(a, b)])) as [Hn' He'].
  { rewrite Hn. intros x y Hxy. apply Hr. by right. }
  split; [congruence|]. rewrite He', He. cbn. by rewrite Permutation_middle.
Qed.

Definition other_edges (b : nat) (es : list (nat * nat)) : list (nat * nat) := filter (fun e => e.2 <> b) es.

Lemma incoming_split g b :
  edges g ≡ₚ edges_to b (neighbors_incoming g b) ++ other_edges b (edges g).
Proof.
  unfold edges_to. rewrite (neighbors_incoming_spec g b), <- list_fmap_compose. unfold other_edges.
  induction (edges g) as [|[x y] es IH]; [done|]. rewrite !filter_cons. cbn [snd].
  destruct (decide (y = b)) as [->|Hne].
  - rewrite (decide_False (P := b <> b)) by auto. cbn. by rewrite <- IH.
  - rewrite decide_True by done. rewrite <- Permutation_middle. by rewrite <- IH.
Qed.

Lemma edge_other b es x y : edge (other_edges b es) x y <-> edge es x y /\ y <> b.
Proof. unfold edge, other_edges. rewrite list_elem_of_filter. cbn. tauto. Qed.

(** Taking the incoming edges of a node out of the graph. *)
Lemma remove_incoming_spec b g :
  Returns (for_each (fun n g => remove_between n b g) (neighbors_incoming g b) g) (fun g' =>
    node_count g' = node_count g /\ edges g' ≡ₚ other_edges b (edges g)).
Proof. apply remove_all_spec, incoming_split. Qed.

(** ** Extending the graph *)

(** Edges into [n] do not matter to what [n] reaches when there are no cycles. *)
Lemma rtc_from es es' n m :
  acyclic es' -> (forall x y, edge es' x y -> edge es x y \/ y = n) ->
  rtc (edge es') n m -> rtc (edge es) n m.
Proof.
  intros Ha Hi. revert m. apply rtc_ind_r; [done|]. intros x y Hnx Hxy IH.
  destruct (Hi x y Hxy) as [| ->]; [by eapply rtc_r|].
  destruct (Ha n). by eapply tc_rtc_l; [|apply tc_once].
Qed.

(** The state of the loop over the dependencies of the package [n], which started on [pg0]
    without edges into [n], after the dependencies [l]. *)
Record adding (n : nat) (pg0 : PackageGraph.t) (l : list string) (pg : PackageGraph.t) : Prop := {
  adding_wf : wf pg;
  adding_names : package_names pg0 `prefix_of` package_names pg;
  adding_latest : latest_map pg = latest_map pg0;
  adding_edges : forall a b, edge (edges (the_graph pg)) a b <->
    edge (edges (the_graph pg0)) a b \/
    (b = n /\ exists dep sn, dep ∈ l /\ short_name dep = Return sn /\ node_of pg sn a /\
      ~ rtc (edge (edges (the_graph pg0))) n a);
}.

Lemma node_of_prefix pg pg' sn a :
  package_names pg `prefix_of` package_names pg' -> node_of pg sn a -> node_of pg' sn a.
Proof. intros Hp Ha. by eapply prefix_lookup_Some. Qed.

Lemma node_in_range pg sn a : wf pg -> node_of pg sn a -> (a < node_count (the_graph pg))%nat.
Proof. intros Hwf Ha. rewrite (wf_nodes _ Hwf). by eapply lookup_lt_Some. Qed.

(** Every dependency of the list has a node. *)
Definition known (pg : PackageGraph.t) (l : list string) : Prop :=
  forall d, d ∈ l -> exists s a, short_name d = Return s /\ node_of pg s a.

Lemma known_prefix pg pg' l :
  package_names pg `prefix_of` package_names pg' -> known pg l -> known pg' l.
Proof.
  intros Hp Hk d Hd. destruct (Hk d Hd) as (s & a & ? & ?). exists s, a. split; [done|].
  by eapply node_of_prefix.
Qed.

(** New nodes change nothing of it. *)
Lemma adding_extends n pg0 l pg pg' :
  known pg l -> adding n pg0 l pg -> wf pg' -> extends pg pg' -> adding n pg0 l pg'.
Proof.
  intros Hk [Hwf Hpre Hlat Hes] Hwf' [Hn Hl He]. split; [done|by etransitivity|congruence|].
  intros a b. rewrite He, Hes. split; (intros [?|(-> & x & s & Hx & Hs & Ha & Hr)]; [by left|right]);
    (split; [done|]); exists x, s; split_and!; try done.
  - by eapply node_of_prefix.
  - destruct (Hk x Hx) as (s' & a' & Hs' & Ha'). assert (s' = s) as -> by congruence.
    assert (a = a') as -> by (eapply node_of_inj; [exact Hwf'|done|by eapply node_of_prefix]). done.
Qed.

(** What the loop does to the edges for a dependency with node [d]. *)
Lemma adding_step n nm pg0 l dep sn d pg g :
  node_of pg nm n -> is_Some (latest_map pg !! nm) ->
  short_name dep = Return sn -> node_of pg sn d -> adding n pg0 l pg ->
  node_count g = node_count (the_graph pg) -> acyclic (edges g) ->
  (forall a b, edge (edges g) a b <-> edge (edges (the_graph pg)) a b \/
     ((a, b) = (d, n) /\ ~ rtc (edge (edges (the_graph pg0))) n d)) ->
  adding n pg0 (l ++ [dep]) (set_graph g pg).
Proof.
  intros Hn Hnm Hsn Hd [Hwf Hpre Hlat Hes] Hc Hac He. split; cbn; [|done..|].
  - split; cbn; try apply Hwf.
    + rewrite Hc. apply Hwf.
    + rewrite Hc. intros a b [Hab|[[= -> ->] _]]%He; [by apply (wf_range _ Hwf)|].
      split; by eapply node_in_range.
    + done.
    + intros a b [Hab|[[= -> ->] _]]%He; [by apply (wf_targets _ Hwf a)|by exists nm].
  - intros a b. rewrite He, Hes. split.
    + intros [[?|(-> & x & s & ? & ?)]|[[= -> ->] ?]]; [by left|right..]; (split; [done|]).
      * exists x, s. split; [set_solver|done].
      * exists dep, sn. split; [set_solver|done].
    + intros [?|(-> & x & s & [Hx|Hx]%elem_of_app & Hs & Ha & Hr)]; [by left; left| |].
      * left. right. split; [done|]. by exists x, s.
      * apply list_elem_of_singleton in Hx as ->. right. assert (s = sn) as -> by congruence.
        assert (a = d) as -> by (by eapply node_of_inj). done.
Qed.

(** Adding an edge to [n] closes a cycle when [n] reached its source to begin with. *)
Lemma adding_cyclic n nm pg0 l sn d pg :
  node_of pg nm n -> node_of pg sn d -> adding n pg0 l pg ->
  let g := extend_with_edges (the_graph pg) [(d, n)] in
  node_count g = node_count (the_graph pg) /\ edges g ≡ₚ (d, n) :: edges (the_graph pg) /\
  (is_cyclic_directed g = false <-> acyclic (edges g)) /\
  (acyclic (edges g) <-> ~ rtc (edge (edges (the_graph pg0))) n d).
Proof.
  intros Hn Hd [Hwf _ _ Hes] g.
  assert (Hrange : edges_in_range (node_count (the_graph pg)) [(d, n)]).
  { intros x y Hxy%list_elem_of_singleton. injection Hxy as -> ->. split; by eapply node_in_range. }
  destruct (extend_with_edges_spec (the_graph pg) [(d, n)] Hrange) as [Hcount Hedges]. fold g in Hcount, Hedges.
  split_and!; [done|done| |].
  - apply is_cyclic_directed_spec. rewrite Hcount, Hedges.
    intros x y [[= -> ->]|Hxy]%elem_of_cons; [apply Hrange; by left|by apply (wf_range _ Hwf)].
  - rewrite Hedges. cbn. rewrite acyclic_add_edge by apply Hwf. apply not_iff_compat. split.
    + apply rtc_from; [apply Hwf|]. intros x y [|[-> _]]%Hes; auto.
    + apply rtc_mono. intros x y Hxy. apply Hes. by left.
Qed.

Lemma add_dep_spec n nm pg0 l dep sn pg :
  node_of pg0 nm n -> is_Some (latest_map pg0 !! nm) -> short_name dep = Return sn ->
  known pg l -> adding n pg0 l pg ->
  Returns (add_dep n dep pg) (fun pg' => adding n pg0 (l ++ [dep]) pg' /\ known pg' (l ++ [dep])).
Proof.
  intros Hn Hnm Hsn Hknown Had. unfold add_dep.
  eapply Returns_bind; [by apply generate_id_spec; [apply Had|]|]. cbn beta.
  intros [pg1 [i j]] (d & Hij & Hwf1 & Hext & Hd & _). cbn in *. injection Hij as -> ->.
  apply (adding_extends _ _ _ _ pg1) in Had; [|done..].
  assert (known pg1 (l ++ [dep])) as Hk.
  { intros x [Hx|Hx%list_elem_of_singleton]%elem_of_app; [|subst; eauto].
    by apply (known_prefix pg pg1 l); [apply Hext| |]. }
  assert (Hn1 : node_of pg1 nm n) by (by eapply node_of_prefix; [apply Had|]).
  assert (Hnm1 : is_Some (latest_map pg1 !! nm)) by (by rewrite (adding_latest _ _ _ _ Had)).
  destruct (adding_cyclic n nm pg0 l sn d pg1) as (Hc & He & Hcyc & Hr); [done..|].
  set (g := extend_with_edges (the_graph pg1) [(d, n)]) in *.
  destruct (is_cyclic_directed g) eqn:Ec.
  - eapply Returns_bind; [apply remove_between_spec; rewrite He; by left|]. cbn beta.
    intros g' [Hc' He']. cbn. rewrite He in He'. apply Permutation_cons_inv in He'. split; [|done].
    apply (adding_step n nm pg0 l dep sn d); try done; [congruence|rewrite <- He'; apply Hwf1|].
    assert (~ acyclic (edges g)) by (by rewrite <- Hcyc).
    intros a b. rewrite <- He'. tauto.
  - cbn. split; [|done]. assert (acyclic (edges g)) as Hac by (by apply Hcyc).
    apply (adding_step n nm pg0 l dep sn d); try done.
    intros a b. rewrite He. unfold edge. rewrite elem_of_cons. apply Hr in Hac. naive_solver.
Qed.

Lemma add_deps_spec n nm pg0 deps :
  wf pg0 -> node_of pg0 nm n -> is_Some (latest_map pg0 !! nm) ->
  (forall d, d ∈ deps -> exists sn, short_name d = Return sn) ->
  Returns (for_each (add_dep n) deps pg0) (fun pg' => adding n pg0 deps pg' /\ known pg' deps).
Proof.
  intros Hwf Hn Hnm Hdeps.
  apply (for_each_prefix (fun l pg => adding n pg0 l pg /\ known pg l)).
  - split; [|by intros d ?%not_elem_of_nil]. split; [done..|].
    intros a b. split; [by left|]. intros [|(_ & ? & ? & ?%not_elem_of_nil & _)]; done.
  - intros l1 x l2 pg Hl [Had Hk]. destruct (Hdeps x) as [sn Hsn]; [set_solver|]. by eapply add_dep_spec.
Qed.

(** Comparing identifiers does not panic. *)
(** The release [i] is older than the latest one known. *)
Definition older (pg : PackageGraph.t) (sn : string) (i : PackageIdent.t) : Prop :=
  exists l, latest_map pg !! sn = Some l /\ ident_lt i l = Return true.

Lemma set_latest_wf sn i n pg :
  wf pg -> node_of pg sn n -> sn = PackageIdent.origin i +:+ "/" +:+ PackageIdent.name i ->
  wf (set_latest sn i pg).
Proof.
  intros Hwf Hn Hsn. split; cbn; try apply Hwf.
  - intros a b (nm & Hb & Hs)%(wf_targets _ Hwf). exists nm. split; [done|].
    apply lookup_insert_is_Some'. by right.
  - intros nm j [[<- <-]|[_ Hj]]%lookup_insert_Some; [|by apply (wf_latest _ Hwf)].
    split; [by eapply list_elem_of_lookup_2|done].
Qed.

Lemma drop_incoming_wf n g pg :
  wf pg -> node_count g = node_count (the_graph pg) ->
  edges g ≡ₚ other_edges n (edges (the_graph pg)) -> wf (set_graph g pg).
Proof.
  intros Hwf Hc He. split; cbn; try apply Hwf.
  - rewrite Hc. apply Hwf.
  - rewrite Hc, He. intros a b [Hab _]%edge_other. by apply (wf_range _ Hwf).
  - rewrite He. eapply acyclic_incl; [|apply (wf_acyclic _ Hwf)]. by intros a b [? _]%edge_other.
  - intros a b. rewrite He. intros [Hab _]%edge_other. by apply (wf_targets _ Hwf a).
Qed.

Lemma update_latest_spec sn i n pg :
  wf pg -> node_of pg sn n -> sn = PackageIdent.origin i +:+ "/" +:+ PackageIdent.name i ->
  Returns (update_latest sn i n pg) (fun r =>
    (r = (pg, false) /\ older pg sn i) \/
    (r.2 = true /\ ~ older pg sn i /\ wf r.1 /\ package_names r.1 = package_names pg /\
     latest_map r.1 = <[sn := i]> (latest_map pg) /\
     forall a b, edge (edges (the_graph r.1)) a b <-> edge (edges (the_graph pg)) a b /\ b <> n)).
Proof.
  intros Hwf Hn Hsn. unfold update_latest, older. destruct (latest_map pg !! sn) as [l|] eqn:El.
  - destruct (ident_lt_total i l) as [[] Hlt]; rewrite Hlt; cbn.
    + left. eauto.
    + eapply Returns_bind; [apply remove_incoming_spec|]. cbn beta. intros g [Hc He]. right. cbn.
      split_and!; [done|by intros (? & [= <-] & ?); congruence| |done|done|].
      * apply (set_latest_wf sn i n (set_graph g pg)); [by eapply drop_incoming_wf|done..].
      * intros a b. rewrite He. apply edge_other.
  - cbn. right. split_and!; [done|by intros (? & ? & _)|by eapply set_latest_wf|done|done|].
    intros a b. split; [|by intros [? _]]. intros Hab. split; [done|]. intros ->.
    destruct (wf_targets _ Hwf _ _ Hab) as (nm & Hnm & Hl). rewrite Hn in Hnm. injection Hnm as <-.
    rewrite El in Hl. by destruct Hl.
Qed.

(** The package [a] needs the package [b], by short names. *)
Definition depends (pg : PackageGraph.t) (a b : string) : Prop :=
  exists i j, node_of pg a i /\ node_of pg b j /\ edge (edges (the_graph pg)) j i.

Lemma wf_node pg n : wf pg -> (n < node_count (the_graph pg))%nat -> exists sn, node_of pg sn n.
Proof. intros Hwf Hn. rewrite (wf_nodes _ Hwf) in Hn. by apply lookup_lt_is_Some. Qed.

Lemma tc_depends pg a b i j :
  wf pg -> node_of pg a i -> node_of pg b j ->
  tc (edge (edges (the_graph pg))) j i <-> tc (depends pg) a b.
Proof.
  intros Hwf Ha Hb. split.
  - intros Hji. revert b Hb. induction Hji as [j i Hji|j k i Hjk Hki IH]; intros b Hb.
    + apply tc_once. by exists i, j.
    + destruct (wf_node pg k) as [c Hc]; [done|by apply (wf_range _ Hwf j k)|].
      eapply tc_r; [by apply IH|]. by exists k, j.
  - intros Hab. revert i Ha. induction Hab as [a b (i' & j' & Ha' & Hb' & He)|a c b (i' & k & Ha' & Hc & He) _ IH];
      intros i Ha; assert (i = i') as -> by (by eapply node_of_inj).
    + assert (j = j') as -> by (by eapply node_of_inj). by apply tc_once.
    + eapply tc_r; [by apply IH|done].
Qed.

(** Packages that are not known yet have no part in the graph. *)
Lemma depends_new_nodes pg pg' : wf pg -> wf pg' -> extends pg pg' ->
  forall a b, depends pg' a b <-> depends pg a b.
Proof.
  intros Hwf Hwf' [Hn _ He] a b. unfold depends. setoid_rewrite He. split.
  - intros (i & j & Ha & Hb & Hji). exists i, j.
    destruct (wf_range _ Hwf j i Hji) as [Hj Hi]. rewrite (wf_nodes _ Hwf) in *.
    unfold node_of in *. destruct Hn as [k Hk]. rewrite Hk in Ha, Hb.
    rewrite lookup_app_l in Ha, Hb by done. done.
  - intros (i & j & Ha & Hb & Hji). exists i, j. split_and!; [by eapply node_of_prefix..|done].
Qed.

(** The short name of an identifier. *)
Definition ident_name (i : PackageIdent.t) : string := PackageIdent.origin i +:+ "/" +:+ PackageIdent.name i.

(** The messages the builder is given: the package and its dependencies parse. *)
Definition well_formed_package (p : JobGraphPackage) (i : PackageIdent.t) : Prop :=
  PackageIdent.from_str (jp_ident p) = Ok i /\
  forall d, d ∈ jp_deps p -> exists j, PackageIdent.from_str d = Ok j.

(** What a package depends on once [p] has been added, unless it is out of date. *)
Definition depends_after (pg : PackageGraph.t) (p : JobGraphPackage) (sn a b : string) : Prop :=
  (a <> sn /\ depends pg a b) \/
  (a = sn /\ b <> sn /\ ~ tc (depends pg) b sn /\ exists d, d ∈ jp_deps p /\ short_name d = Return b).

Lemma wf_self_reach pg a b i j :
  wf pg -> node_of pg a i -> node_of pg b j ->
  rtc (edge (edges (the_graph pg))) i j <-> b = a \/ tc (depends pg) b a.
Proof.
  intros Hwf Ha Hb. rewrite rtc_tc_or_eq, <- (tc_depends pg b a j i) by done. split; intros [E|?]; auto.
  - left. subst. unfold node_of in *. congruence.
  - left. subst. by eapply node_of_inj.
Qed.

Lemma depends_elem pg a b : depends pg a b -> a ∈ package_names pg.
Proof. intros (i & j & Hi & _). by eapply list_elem_of_lookup_2. Qed.

(** What the package [n] reaches, for nodes known or new, from [depends] before the edges
    into it were removed. *)
Lemma reach_depends pg es pg2 sn n c j :
  wf pg -> wf pg2 -> node_of pg sn n -> package_names pg `prefix_of` package_names pg2 ->
  (forall a b, edge es a b <-> edge (edges (the_graph pg)) a b /\ b <> n) ->
  node_of pg2 c j -> rtc (edge es) n j <-> c = sn \/ tc (depends pg) c sn.
Proof.
  intros Hwf Hwf2 Hn Hpre Hes Hj.
  assert (rtc (edge es) n j <-> rtc (edge (edges (the_graph pg))) n j) as ->.
  { split; [apply rtc_mono; intros x y Hxy; by apply Hes|].
    apply rtc_from; [apply Hwf|]. intros x y Hxy. rewrite Hes. destruct (decide (y = n)); auto. }
  destruct (decide (j < length (package_names pg))%nat) as [Hlt|Hge].
  { apply wf_self_reach; [done..|]. unfold node_of in *. destruct Hpre as [k Hp].
    rewrite Hp in Hj. by rewrite lookup_app_l in Hj. }
  assert (c ∉ package_names pg) as Hc.
  { intros [x Hx]%list_elem_of_lookup. assert (node_of pg2 c x) as Hx2 by (by eapply node_of_prefix).
    assert (x = j) as -> by (by eapply node_of_inj). apply lookup_lt_Some in Hx. lia. }
  split.
  - intros Hr. apply (rtc_in_range (length (package_names pg))) in Hr; [lia| |by eapply lookup_lt_Some].
    rewrite <- (wf_nodes _ Hwf). apply Hwf.
  - intros [->|Ht]; destruct Hc; [by eapply list_elem_of_lookup_2|].
    inversion Ht as [? ? Hd|? ? ? Hd]; subst; by apply depends_elem in Hd.
Qed.

Lemma depends_old pg pg2 i j a b :
  wf pg -> package_names pg `prefix_of` package_names pg2 -> edge (edges (the_graph pg)) j i ->
  node_of pg2 a i -> node_of pg2 b j -> node_of pg a i /\ node_of pg b j.
Proof.
  intros Hwf [k Hp] He Ha Hb. destruct (wf_range _ Hwf j i He) as [Hj Hi]. rewrite (wf_nodes _ Hwf) in *.
  unfold node_of in *. rewrite Hp, lookup_app_l in Ha, Hb by done. done.
Qed.

(** [depends] after the loop. *)
Lemma adding_depends pg pg1 pg2 sn n p :
  wf pg -> node_of pg sn n -> package_names pg1 = package_names pg ->
  (forall a b, edge (edges (the_graph pg1)) a b <-> edge (edges (the_graph pg)) a b /\ b <> n) ->
  adding n pg1 (jp_deps p) pg2 -> known pg2 (jp_deps p) ->
  forall a b, depends pg2 a b <-> depends_after pg p sn a b.
Proof.
  intros Hwf Hn Hnames Hes [Hwf2 Hpre _ Hes2] Hk a b. rewrite Hnames in Hpre.
  assert (Hn2 : node_of pg2 sn n) by (by eapply node_of_prefix).
  pose proof (fun c j => reach_depends pg _ pg2 sn n c j Hwf Hwf2 Hn Hpre Hes) as Hreach.
  unfold depends_after. split.
  - intros (i & j & Ha & Hb & He). apply Hes2 in He as [[He Hi]%Hes|(-> & d & c & Hd & Hc & Hcj & Hr)].
    + left. destruct (depends_old pg pg2 i j a b) as [Ha' Hb']; [done..|].
      split; [|by exists i, j]. intros ->. apply Hi. by apply (node_of_inj pg sn).
    + right. assert (a = sn) as -> by (unfold node_of in *; congruence).
      assert (c = b) as -> by (unfold node_of in *; congruence).
      rewrite (Hreach b j) in Hr by done. split_and!; eauto.
  - intros [[Ha (i & j & Hi & Hj & He)]|(-> & Hb & Ht & d & Hd & Hdb)].
    + exists i, j. split_and!; [by eapply node_of_prefix..|].
      apply Hes2. left. apply Hes. split; [done|]. intros ->. unfold node_of in *. congruence.
    + destruct (Hk d Hd) as (b' & j & Hb' & Hj). assert (b' = b) as -> by congruence.
      exists n, j. split_and!; [done..|]. apply Hes2. right. split; [done|]. exists d, b. split_and!; [done..|].
      rewrite (Hreach b j) by done. tauto.
Qed.

Lemma depends_after_new pg pg' p sn a b :
  wf pg -> wf pg' -> extends pg pg' -> depends_after pg' p sn a b <-> depends_after pg p sn a b.
Proof.
  intros Hwf Hwf' Hext. pose proof (depends_new_nodes pg pg' Hwf Hwf' Hext) as Hd. unfold depends_after.
  assert (tc (depends pg') b sn <-> tc (depends pg) b sn) as ->
    by (split; apply tc_mono; intros x y Hxy; by apply Hd).
  by rewrite Hd.
Qed.

(** The whole of [extend]. *)
Lemma extend_spec p i pg :
  wf pg -> well_formed_package p i ->
  Returns (extend p pg) (fun r => wf r.1 /\ r.2 = (node_count (the_graph r.1), edge_count (the_graph r.1)) /\
    ((older pg (ident_name i) i /\ latest_map r.1 = latest_map pg /\ forall a b, depends r.1 a b <-> depends pg a b) \/
     (~ older pg (ident_name i) i /\ latest_map r.1 = <[ident_name i := i]> (latest_map pg) /\
      forall a b, depends r.1 a b <-> depends_after pg p (ident_name i) a b))).
Proof.
  intros Hwf [Hi Hdeps]. pose proof (short_name_parsed _ _ Hi) as Hsn. fold (ident_name i) in Hsn.
  unfold extend. eapply Returns_bind; [by apply generate_id_spec|]. cbn beta.
  intros [pg1 [x y]] (n & Hxy & Hwf1 & Hext & Hn & _). cbn in *. injection Hxy as -> ->.
  rewrite decide_False by auto. rewrite Hi, Hsn. cbn.
  assert (older pg1 (ident_name i) i <-> older pg (ident_name i) i) as Hold
    by (unfold older; by rewrite (ext_latest _ _ Hext)).
  eapply Returns_bind; [by apply (update_latest_spec (ident_name i) i n pg1)|]. cbn beta.
  intros [pg2 add] [[[= -> ->] Ho]|(Hadd & Ho & Hwf2 & Hnames & Hlat & Hes)]; cbn in *.
  - split_and!; [done..|]. left. split_and!; [by apply Hold|apply Hext|by apply depends_new_nodes].
  - subst add. eapply Returns_bind; [apply (add_deps_spec n (ident_name i))|].
    + done.
    + unfold node_of. by rewrite Hnames.
    + rewrite Hlat. by rewrite lookup_insert_eq.
    + intros d (j & Hj)%Hdeps. eexists. by apply short_name_parsed.
    + cbn beta. intros pg3 [Had Hk]. cbn. split_and!; [apply Had|done|]. right. split_and!.
      * by rewrite <- Hold.
      * by rewrite (adding_latest _ _ _ _ Had), Hlat, (ext_latest _ _ Hext).
      * intros a b. rewrite <- (depends_after_new pg pg1) by done. by eapply adding_depends.
Qed.

(** ** The check before extending *)
(** Some known dependency is reached from [n]. *)
Definition blocked (pg : PackageGraph.t) (E : list (nat * nat)) (n : nat) (deps : list string) : Prop :=
  exists d sn i, d ∈ deps /\ short_name d = Return sn /\ node_of pg sn i /\ rtc (edge E) n i.

Lemma blocked_cons pg E n d sn deps :
  wf pg -> short_name d = Return sn ->
  blocked pg E n (d :: deps) <->
  (exists i, package_map pg !! sn = Some (i, i) /\ rtc (edge E) n i) \/ blocked pg E n deps.
Proof.
  intros Hwf Hsn. split.
  - intros (d' & sn' & i & [->|Hd]%elem_of_cons & Hs & Hi & Hr); [left|right; by exists d', sn', i].
    exists i. split; [|done]. apply (wf_map _ Hwf). by assert (sn' = sn) as -> by congruence.
  - intros [(i & [Hi _]%(wf_map _ Hwf) & Hr)|(d' & sn' & i & Hd & ?)].
    + exists d, sn, i. split_and!; [by left|done..].
    + exists d', sn', i. split; [by right|done].
Qed.

(** Trying one more edge into [n]. *)
Lemma try_edge n i g acc E :
  (n < node_count g)%nat -> (i < node_count g)%nat -> edges g ≡ₚ edges_to n acc ++ E ->
  edges_in_range (node_count g) (edges g) -> acyclic (edges g) ->
  let g' := extend_with_edges g [(i, n)] in
  node_count g' = node_count g /\ edges g' ≡ₚ edges_to n (acc ++ [i]) ++ E /\
  edges_in_range (node_count g) (edges g') /\
  (is_cyclic_directed g' = true <-> rtc (edge E) n i) /\ (is_cyclic_directed g' = false -> acyclic (edges g')).
Proof.
  intros Hn Hi He Hr Hac g'.
  assert (edges_in_range (node_count g) [(i, n)]) as Hin by (by intros x y [= -> ->]%list_elem_of_singleton).
  destruct (extend_with_edges_spec g [(i, n)] Hin) as [Hc' He']. fold g' in Hc', He'.
  assert (edges_in_range (node_count g') (edges g')) as Hr'.
  { rewrite Hc', He'. intros x y [[= -> ->]|Hxy]%elem_of_cons; [by apply Hin; left|by apply Hr]. }
  assert (Hreach : rtc (edge (edges g)) n i <-> rtc (edge E) n i).
  { split.
    - apply rtc_from; [done|]. intros x y. rewrite He. unfold edge, edges_to.
      rewrite elem_of_app, list_elem_of_fmap. intros [(z & [= -> ->] & _)|]; auto.
    - apply rtc_mono. intros x y Hxy. rewrite He. apply elem_of_app. by right. }
  pose proof (is_cyclic_directed_spec g' Hr') as Hspec. rewrite He' in Hspec. cbn in Hspec.
  rewrite acyclic_add_edge, Hreach in Hspec by done. split_and!; [done| |by rewrite <- Hc'| |].
  - rewrite He', He. unfold edges_to. rewrite fmap_app. cbn. rewrite <- app_assoc. cbn.
    by rewrite Permutation_middle.
  - rewrite <- Hreach in Hspec |- *. destruct (decide (i ∈ bfs g n)) as [Hb|Hb]; rewrite (proj2 (bfs_spec g n Hr Hn) i) in Hb;
      destruct (is_cyclic_directed g'); naive_solver.
  - intros Hfalse. rewrite He'. apply acyclic_add_edge; [done|]. rewrite Hreach. by apply Hspec.
Qed.

Lemma try_deps_spec pg n E deps : forall g acc,
  wf pg -> (n < node_count (the_graph pg))%nat ->
  (forall d, d ∈ deps -> exists sn, short_name d = Return sn) ->
  node_count g = node_count (the_graph pg) -> edges g ≡ₚ edges_to n acc ++ E ->
  edges_in_range (node_count g) (edges g) -> acyclic (edges g) ->
  Returns (try_deps pg n deps g acc) (fun r => let '(g', acc', c) := r in
    node_count g' = node_count (the_graph pg) /\ edges g' ≡ₚ edges_to n acc' ++ E /\
    (c = true <-> blocked pg E n deps)).
Proof.
  induction deps as [|d deps IH]; intros g acc Hwf Hn Hdeps Hc He Hr Hac.
  { cbn. split_and!; [done..|]. split; [done|]. by intros (? & ? & ? & ?%not_elem_of_nil & _). }
  cbn. destruct (Hdeps d) as [sn Hsn]; [by left|]. rewrite Hsn. cbn.
  assert (Hrest : forall d, d ∈ deps -> exists sn, short_name d = Return sn) by (intros x Hx; apply Hdeps; by right).
  pose proof (fun E => blocked_cons pg E n d sn deps Hwf Hsn) as Hcons.
  destruct (package_map pg !! sn) as [[i j]|] eqn:Em.
  - pose proof Em as [Hi ->]%(wf_map _ Hwf). fold (node_of pg sn i) in Hi.
    destruct (try_edge n i g acc E) as (Hc' & Hp & Hr' & Hcyc & Hac'); [by rewrite Hc| |done..|].
    { rewrite Hc. by eapply node_in_range. }
    destruct (is_cyclic_directed _) eqn:Ec.
    + cbn. split_and!; [congruence|done|]. rewrite Hcons. split; [intros _|done]. left. exists i.
      split; [done|]. by apply Hcyc.
    + eapply Returns_mono; [apply IH; try done; [congruence|by rewrite Hc'|by apply Hac']|].
      cbn beta. intros [[g2 acc2] c] (Hc2 & He2 & Hiff). split_and!; [done..|]. rewrite Hiff, Hcons.
      split; [by right|]. intros [(i' & [= <-] & Hi')|]; [|done]. apply Hcyc in Hi'. congruence.
  - eapply Returns_mono; [by apply IH|]. cbn beta. intros [[g2 acc2] c] (Hc2 & He2 & Hiff). split_and!; [done..|].
    rewrite Hiff, Hcons. split; [by right|]. by intros [(? & ? & _)|].
Qed.

Lemma set_graph_self pg : set_graph (the_graph pg) pg = pg.
Proof. by destruct pg. Qed.

Lemma depends_same_edges g pg a b :
  same_edges g (the_graph pg) -> depends (set_graph g pg) a b <-> depends pg a b.
Proof. intros [_ He]. unfold depends. cbn. by setoid_rewrite He. Qed.

(** The dependencies that [extend] would leave out: the package itself and what depends on it. *)
Definition circular (pg : PackageGraph.t) (p : JobGraphPackage) (sn : string) : Prop :=
  exists d b, d ∈ jp_deps p /\ short_name d = Return b /\ (b = sn \/ tc (depends pg) b sn).

Lemma blocked_circular pg p sn n es :
  wf pg -> node_of pg sn n ->
  (forall a b, edge es a b <-> edge (edges (the_graph pg)) a b /\ b <> n) ->
  blocked pg es n (jp_deps p) <-> circular pg p sn.
Proof.
  intros Hwf Hn Hes.
  pose proof (fun b j => reach_depends pg es pg sn n b j Hwf Hwf Hn (reflexivity _) Hes) as Hreach. split.
  - intros (d & b & i & Hd & Hb & Hi & Hr). exists d, b. split_and!; [done..|]. by apply (Hreach b i).
  - intros (d & b & Hd & Hb & Hor). assert (exists j, node_of pg b j) as [j Hj].
    { destruct Hor as [->|Ht]; [by exists n|].
      inversion Ht as [? ? Hx|? ? ? Hx]; subst; by apply depends_elem, list_elem_of_lookup in Hx. }
    exists d, b, j. split_and!; [done..|]. by apply (Hreach b j).
Qed.

Lemma check_extend_spec p i pg :
  wf pg -> well_formed_package p i ->
  Returns (check_extend p pg) (fun r => exists g, r.1 = set_graph g pg /\ same_edges g (the_graph pg) /\
    (r.2 = false <-> is_Some (package_map pg !! ident_name i) /\ circular pg p (ident_name i))).
Proof.
  intros Hwf [Hi Hdeps]. pose proof (short_name_parsed _ _ Hi) as Hsn. fold (ident_name i) in Hsn.
  unfold check_extend. rewrite Hsn. cbn.
  destruct (package_map pg !! ident_name i) as [[n' n]|] eqn:Em.
  2: { cbn. exists (the_graph pg). rewrite set_graph_self. split_and!; [done..|]. split; [done|]. by intros [[] _]. }
  pose proof Em as [Hn ->]%(wf_map _ Hwf). fold (node_of pg (ident_name i) n') in Hn.
  set (saved := neighbors_incoming (the_graph pg) n').
  eapply Returns_bind; [apply remove_incoming_spec|]. cbn beta. intros g1 [Hc1 He1].
  assert (Hes : forall a b, edge (edges g1) a b <-> edge (edges (the_graph pg)) a b /\ b <> n').
  { intros a b. rewrite He1. apply edge_other. }
  assert (n' < node_count (the_graph pg))%nat as Hlt by (by eapply node_in_range).
  assert (acyclic (edges g1)) by (eapply acyclic_incl; [|apply (wf_acyclic _ Hwf)]; by intros a b [? _]%Hes).
  eapply Returns_bind; [apply (try_deps_spec pg n' (edges g1) _ g1 [])|].
  all: try done.
  { intros d (j & Hj)%Hdeps. eexists. by apply short_name_parsed. }
  { rewrite Hc1. intros a b [Hab _]%Hes. by apply (wf_range _ Hwf). }
  cbn beta. intros [[g2 acc] c] (Hc2 & He2 & Hiff). cbn.
  eapply Returns_bind; [by apply (remove_all_spec n' acc (edges g1))|]. cbn beta. intros g3 [Hc3 He3]. cbn.
  assert (edges_in_range (node_count g3) (edges_to n' saved)) as Hsaved.
  { rewrite Hc3, Hc2. intros a b Hab. apply (wf_range _ Hwf). rewrite (incoming_split (the_graph pg) n').
    apply elem_of_app. by left. }
  destruct (add_all_spec n' saved g3 Hsaved) as [Hc4 He4]. eexists. split_and!; [done| |].
  - split; [congruence|]. rewrite He4, He3, He1. symmetry. apply incoming_split.
  - rewrite negb_false_iff, Hiff, (blocked_circular pg p (ident_name i)) by done. split; [by split|by intros [_ ?]].
Qed.

(** ** Building the graph *)
Lemma build_spec ps :
  (forall p, p ∈ ps -> exists i, well_formed_package p i) ->
  Returns (build ps PackageGraph.new) (fun r => wf r.1 /\
    r.2 = (node_count (the_graph r.1), edge_count (the_graph r.1))).
Proof.
  intros Hps. unfold build. rewrite decide_False by (cbn; auto).
  eapply Returns_bind; [apply (for_each_inv wf)|].
  - apply graph_new_wf.
  - intros p pg Hp Hwf. destruct (Hps p Hp) as [i Hi]. eapply Returns_bind; [by apply (extend_spec p i)|].
    cbn beta. intros r (Hr & _). exact Hr.
  - cbn beta. intros pg Hwf. done.
Qed.

(** ** Reverse dependencies by name *)
Definition label (pg : PackageGraph.t) (n : nat) : option (string * string) :=
  nm ← package_names pg !! n; i ← latest_map pg !! nm; Some (nm, PackageIdent.to_string i).

Lemma label_loop pg l v :
  (forall n, n ∈ l -> is_Some (label pg n)) ->
  for_each (fun n v => nm ← expect "index out of bounds" (package_names pg !! n);
                       ident ← expect "unwrap" (latest_map pg !! nm);
                       Return (v ++ [(nm, PackageIdent.to_string ident)])) l v
  = Return (v ++ omap (label pg) l).
Proof.
  revert v. induction l as [|n l IH]; intros v Hl; [by rewrite app_nil_r|]. cbn.
  destruct (Hl n) as [x Hx]; [by left|]. unfold label in Hx.
  change (omap (label pg) (n :: l)) with (match label pg n with Some y => y :: omap (label pg) l | None => omap (label pg) l end).
  unfold label at 1. destruct (package_names pg !! n) as [nm|]; [|done]. cbn in *.
  destruct (latest_map pg !! nm) as [i|]; [|done]. cbn. rewrite IH by (intros; apply Hl; by right).
  by rewrite <- app_assoc.
Qed.

Lemma tc_last {A} (R : relation A) x y : tc R x y -> exists z, R z y.
Proof. induction 1; eauto. Qed.

Lemma tc_edge_label pg n m :
  wf pg -> tc (edge (edges (the_graph pg))) n m -> is_Some (label pg m).
Proof.
  intros Hwf (a & Ha)%tc_last. destruct (wf_targets _ Hwf _ _ Ha) as (nm & Hnm & [i Hi]).
  unfold label. rewrite Hnm. cbn. rewrite Hi. cbn. eauto.
Qed.

Lemma label_node pg n nm s : label pg n = Some (nm, s) -> node_of pg nm n /\ resolve pg nm = Some s.
Proof.
  unfold label, node_of, resolve. destruct (package_names pg !! n) as [nm'|]; [|done]. cbn.
  destruct (latest_map pg !! nm') as [i|] eqn:E; [|done]. cbn. intros [= <- <-]. by rewrite E.
Qed.

(** [ns] are the names of [l], in order. *)
Lemma omap_label_names pg l :
  wf pg -> (forall n, n ∈ l -> is_Some (label pg n)) ->
  Forall2 (fun n e => node_of pg e.1 n /\ resolve pg e.1 = Some e.2) l (omap (label pg) l).
Proof.
  intros Hwf Hl. induction l as [|n l IH]; [constructor|].
  change (omap (label pg) (n :: l)) with (match label pg n with Some y => y :: omap (label pg) l | None => omap (label pg) l end).
  destruct (Hl n) as [[nm s] Hx]; [by left|]. rewrite Hx. constructor; [by apply label_node in Hx|].
  apply IH. intros; apply Hl; by right.
Qed.

Lemma Forall2_names_elem pg l v nm :
  wf pg -> Forall2 (fun n e => node_of pg e.1 n /\ resolve pg e.1 = Some e.2) l v ->
  nm ∈ v.*1 <-> exists n, n ∈ l /\ node_of pg nm n.
Proof.
  intros Hwf H2. induction H2 as [|n e l v [He _] _ IH]; cbn.
  - split; [by intros ?%not_elem_of_nil|]. by intros (? & ?%not_elem_of_nil & _).
  - rewrite elem_of_cons, IH. split.
    + intros [->|(m & ? & ?)]; [exists n; split; [by left|done]|exists m; split; [by right|done]].
    + intros (m & [->|Hm]%elem_of_cons & Hnm); [left|right; eauto]. unfold node_of in *. congruence.
Qed.

Lemma names_NoDup pg l v :
  wf pg -> Forall2 (fun n e => node_of pg e.1 n /\ resolve pg e.1 = Some e.2) l v -> NoDup l -> NoDup v.*1.
Proof.
  intros Hwf H2. induction H2 as [|n e l v [He _] H2 IH]; cbn; [constructor|].
  intros [Hn Hnd]%NoDup_cons. constructor; [|by apply IH].
  intros (m & Hm & Hm')%(Forall2_names_elem pg l); [|done..]. apply Hn. by assert (n = m) as -> by (by eapply node_of_inj).
Qed.

Lemma names_sorted pg l v :
  wf pg -> Forall2 (fun n e => node_of pg e.1 n /\ resolve pg e.1 = Some e.2) l v ->
  topological (edges (the_graph pg)) l -> StronglySorted (fun a b => ~ depends pg a b) v.*1.
Proof.
  intros Hwf H2. induction H2 as [|n e l v [He _] H2 IH]; cbn; [constructor|].
  intros [Hs Hn]%StronglySorted_inv. constructor; [by apply IH|]. apply Forall_forall.
  intros b (m & Hm & Hm')%(Forall2_names_elem pg l); [|done..]. intros (i & j & Hi & Hj & Hji).
  assert (i = n) as -> by (by eapply node_of_inj). assert (j = m) as -> by (by eapply node_of_inj).
  eapply Forall_forall in Hn; [|exact Hm]. done.
Qed.

Lemma rdeps_of_spec pg name :
  wf pg ->
  Returns (rdeps_of pg name) (fun r =>
    match r with
    | None => name ∉ package_names pg
    | Some v => NoDup v.*1 /\ (forall nm, nm ∈ v.*1 <-> tc (depends pg) nm name) /\
        (forall nm s, (nm, s) ∈ v -> resolve pg nm = Some s) /\
        StronglySorted (fun a b => ~ depends pg a b) v.*1
    end).
Proof.
  intros Hwf. unfold rdeps_of. destruct (package_map pg !! name) as [[n' n]|] eqn:Em.
  2: { cbn. intros [k Hk]%list_elem_of_lookup.
       assert (package_map pg !! name = Some (k, k)) by (by apply (wf_map _ Hwf)). congruence. }
  apply (wf_map _ Hwf) in Em as [Hn ->]. fold (node_of pg name n') in Hn.
  destruct (rdeps_spec (the_graph pg) n') as (l & -> & Hnd & Hl & Ht);
    [apply Hwf|apply Hwf|by eapply node_in_range|]. cbn.
  assert (forall m, m ∈ l -> is_Some (label pg m)) as Hlab by (intros m Hm%Hl; by eapply tc_edge_label).
  rewrite label_loop by done. cbn. pose proof (omap_label_names pg l Hwf Hlab) as H2. split_and!.
  - by eapply names_NoDup.
  - intros nm. rewrite (Forall2_names_elem pg l) by done. split.
    + intros (m & Hm%Hl & Hnm). by apply (tc_depends pg nm name m n').
    + intros Hd. assert (nm ∈ package_names pg) as [m Hm]%list_elem_of_lookup
        by (inversion Hd as [? ? Hx|? ? ? Hx]; subst; by apply depends_elem in Hx).
      exists m. split; [|done]. apply Hl. by apply (tc_depends pg nm name m n').
  - intros nm s [k Hk]%list_elem_of_lookup. destruct (Forall2_lookup_r _ _ _ _ _ H2 Hk) as (m & _ & _ & Hr). done.
  - by eapply names_sorted.
Qed.

Lemma unknown_not_circular pg b sn : wf pg -> package_map pg !! sn = None -> ~ tc (depends pg) b sn.
Proof.
  intros Hwf Hm (c & i & j & _ & Hj & _)%tc_last.
  assert (package_map pg !! sn = Some (j, j)) by (by apply (wf_map _ Hwf)). congruence.
Qed.

Lemma depends_after_same pg g p sn a b :
  same_edges g (the_graph pg) -> depends_after (set_graph g pg) p sn a b <-> depends_after pg p sn a b.
Proof.
  intros Hs. pose proof (fun x y => depends_same_edges g pg x y Hs) as Hd. unfold depends_after.
  assert (tc (depends (set_graph g pg)) b sn <-> tc (depends pg) b sn) as ->
    by (split; apply tc_mono; intros x y Hxy; by apply Hd).
  by rewrite Hd.
Qed.

(** [extend] on a package whose identifiers parse never panics and keeps the invariant (one
    numbering of names, ids and nodes; no cycles).  A release older than the one on record
    changes nothing.  Any other release becomes the latest, and the package then depends on
    exactly the dependencies listed that are not the package itself and do not already depend
    on it, directly or indirectly; nothing changes for other packages. *)
Theorem extend_records_dependencies p i pg :
  wf pg -> well_formed_package p i ->
  Returns (extend p pg) (fun r => wf r.1 /\ r.2 = (node_count (the_graph r.1), edge_count (the_graph r.1)) /\
    ((older pg (ident_name i) i /\ latest_map r.1 = latest_map pg /\ forall a b, depends r.1 a b <-> depends pg a b) \/
     (~ older pg (ident_name i) i /\ latest_map r.1 = <[ident_name i := i]> (latest_map pg) /\
      forall a b, depends r.1 a b <-> depends_after pg p (ident_name i) a b))).
Proof. apply extend_spec. Qed.

(** [check_extend] takes edges out of the graph, adds others and restores it, and predicts
    what [extend] would do with a release that is not out of date: for a package that is known
    it answers [true] exactly when every dependency listed would be recorded.  A package that
    is not known always passes; all its dependencies are then recorded but the package itself. *)
Theorem check_extend_predicts p i pg :
  wf pg -> well_formed_package p i -> ~ older pg (ident_name i) i ->
  Returns (r ← check_extend p pg; e ← extend p r.1; Return (r.2, e.1)) (fun r =>
    (is_Some (package_map pg !! ident_name i) ->
      r.1 = true <-> forall d b, d ∈ jp_deps p -> short_name d = Return b -> depends r.2 (ident_name i) b) /\
    (package_map pg !! ident_name i = None -> r.1 = true /\
      forall d b, d ∈ jp_deps p -> short_name d = Return b -> depends r.2 (ident_name i) b <-> b <> ident_name i)).
Proof.
  intros Hwf Hp Hold. eapply Returns_bind; [by apply (check_extend_spec p i)|]. cbn beta.
  intros [pg1 ok] (g & Hpg1 & Hg & Hok). cbn in *. subst pg1.
  eapply Returns_bind; [by apply (extend_spec p i); [apply wf_same_edges|]|]. cbn beta.
  intros [pg2 c] (_ & _ & [[Ho _]|(_ & _ & Hd)]); [done|]. cbn in *.
  assert (Hrec : forall d b, d ∈ jp_deps p -> short_name d = Return b ->
    depends pg2 (ident_name i) b <-> b <> ident_name i /\ ~ tc (depends pg) b (ident_name i)).
  { intros d b Hin Hb. rewrite Hd, depends_after_same by done. unfold depends_after. naive_solver. }
  split.
  - intros Hk. destruct ok.
    + split; [intros _|done]. intros d b Hin Hb. apply (Hrec d b); [done..|].
      assert (~ circular pg p (ident_name i)) as Hn by (intros Hc; by assert (true = false) by (by apply Hok)).
      split; intros ?; apply Hn; exists d, b; auto.
    + split; [done|]. intros Hall. destruct (proj1 Hok eq_refl) as [_ (d & b & Hin & Hb & Hor)].
      destruct (proj1 (Hrec d b Hin Hb) (Hall d b Hin Hb)). tauto.
  - intros Hk. split; [|].
    + destruct ok; [done|]. destruct (proj1 Hok eq_refl) as [Hsome _]. rewrite Hk in Hsome. by destruct Hsome.
    + intros d b Hin Hb. rewrite (Hrec d b) by done. pose proof (unknown_not_circular pg b (ident_name i) Hwf Hk). tauto.
Qed.

(** C32: a graph built from any packages that parse can be asked for the reverse dependencies of
    any package: the walk ends and does not panic, a package that is not known gives [None],
    and otherwise the answer lists exactly the packages that depend on it, directly or
    indirectly, once each with the identifier of its latest release, and no package before one
    it depends on. *)
Theorem build_rdeps ps name :
  (forall p, p ∈ ps -> exists i, well_formed_package p i) ->
  Returns (r ← build ps PackageGraph.new; v ← rdeps_of r.1 name; Return (r.1, v)) (fun r =>
    let '(pg, v) := r in
    wf pg /\
    match v with
    | None => name ∉ package_names pg
    | Some v => NoDup v.*1 /\ (forall nm, nm ∈ v.*1 <-> tc (depends pg) nm name) /\
        (forall nm s, (nm, s) ∈ v -> resolve pg nm = Some s) /\
        StronglySorted (fun a b => ~ depends pg a b) v.*1
    end).
Proof.
  intros Hps. eapply Returns_bind; [by apply build_spec|]. cbn beta. intros [pg c] [Hwf _]. cbn in *.
  eapply Returns_bind; [by apply (rdeps_of_spec pg name)|]. cbn beta. intros v Hv. by split.
Qed.
End package_graph.

(** ** Examples *)
Module PackageGraphExample.
Definition zlib := mkJobGraphPackage "core/zlib/1.2.8/20170101000000" "x86_64-linux" [].
Definition openssl := mkJobGraphPackage "core/openssl/1.0.2/20170101000000" "x86_64-linux" ["core/zlib/1.2.8"].
Definition nginx := mkJobGraphPackage "core/nginx/1.10/20170101000000" "x86_64-linux" ["core/zlib"; "core/openssl/1.0.2"].
Definition zlib_loop := mkJobGraphPackage "core/zlib/1.2.9/20170202000000" "x86_64-linux" ["core/nginx"].

Lemma parsed p i :
  PackageIdent.from_str (jp_ident p) = Ok i ->
  forallb (fun d => match PackageIdent.from_str d with Ok _ => true | Err _ => false end) (jp_deps p) = true ->
  well_formed_package p i.
Proof.
  intros Hi Hd. split; [done|]. intros d Hin. rewrite forallb_forall in Hd.
  specialize (Hd d (proj1 (list_elem_of_In _ _) Hin)). destruct (PackageIdent.from_str d); eauto; done.
Qed.

Lemma all_parsed p : p ∈ [zlib; openssl; nginx] -> exists i, well_formed_package p i.
Proof.
  rewrite !elem_of_cons, elem_of_nil.
  intros [->|[->|[->|[]]]]; eexists; apply parsed; vm_compute; reflexivity.
Qed.

#[local] Existing Instance reference_graph.
#[local] Existing Instance reference_engine.

Definition zlib_rdeps : list (string * string) :=
  [("core/openssl", "core/openssl/1.0.2/20170101000000"); ("core/nginx", "core/nginx/1.10/20170101000000")].

Lemma build_rdeps_witness :
  exists pg, wf pg /\ rdeps_of pg "core/zlib" = Return (Some zlib_rdeps) /\
    tc (depends pg) "core/nginx" "core/zlib" /\ ~ depends pg "core/openssl" "core/nginx".
Proof.
  pose proof (build_rdeps [zlib; openssl; nginx] "core/zlib" all_parsed) as H.
  assert (snd <$> (r ← build [zlib; openssl; nginx] PackageGraph.new;
                   v ← rdeps_of r.1 "core/zlib"; Return (r.1, v)) = Return (Some zlib_rdeps)) as Hv
    by (vm_compute; reflexivity).
  destruct (build [zlib; openssl; nginx] PackageGraph.new) as [[pg c]|]; [|done]. cbn in H, Hv.
  destruct (rdeps_of pg "core/zlib") as [v|] eqn:E; [|done]. cbn in H, Hv. injection Hv as ->.
  destruct H as (Hwf & _ & Hiff & _ & Hs). exists pg. split_and!; [exact Hwf|exact E| |].
  - apply Hiff. right. left.
  - apply StronglySorted_inv in Hs as [_ Hs]. eapply Forall_forall in Hs; [exact Hs|]. left.
Defined.

Definition known_packages : PackageGraph.t :=
  match build [zlib; openssl; nginx] PackageGraph.new with Return (pg, _) => pg | Panic _ => PackageGraph.new end.

Lemma known_packages_wf : wf known_packages.
Proof.
  pose proof (build_spec _ all_parsed) as H. apply Returns_inv in H as ([pg c] & E & Hwf & _).
  unfold known_packages. by rewrite E.
Qed.

Definition zlib_loop_ident := PackageIdent.mk "core" "zlib" (Some "1.2.9") (Some "20170202000000").

Lemma zlib_loop_newer : ~ older known_packages "core/zlib" zlib_loop_ident.
Proof. intros (l & Hl & Hlt). vm_compute in Hl. injection Hl as <-. vm_compute in Hlt. discriminate. Qed.

Lemma extend_records_dependencies_witness :
  Returns (extend zlib_loop known_packages) (fun r =>
    latest_map r.1 = <["core/zlib" := zlib_loop_ident]> (latest_map known_packages) /\
    ~ depends r.1 "core/zlib" "core/nginx").
Proof.
  assert (depends known_packages "core/nginx" "core/zlib") as Hd.
  { exists 2%nat, 0%nat. split_and!; [vm_compute; reflexivity..|]. refine (bool_decide_eq_true_1 ((0, 2)%nat ∈ edges (the_graph known_packages)) _). vm_compute. reflexivity. }
  eapply Returns_mono.
  - apply (extend_records_dependencies zlib_loop zlib_loop_ident known_packages);
      [exact known_packages_wf|apply parsed; vm_compute; reflexivity].
  - cbn beta. intros r (_ & _ & [[Ho _]|(_ & Hl & Hiff)]); [by destruct (zlib_loop_newer Ho)|].
    split; [exact Hl|]. rewrite Hiff. intros [[Hne _]|(_ & _ & Hn & _)]; [by apply Hne|].
    apply Hn. by apply tc_once.
Defined.

Lemma check_extend_predicts_witness :
  (fun r : PackageGraph.t * bool => r.2) <$> check_extend zlib_loop known_packages = Return false /\
  Returns (r ← check_extend zlib_loop known_packages; e ← extend zlib_loop r.1; Return (r.2, e.1)) (fun r =>
    r.1 = true <-> forall d b, d ∈ jp_deps zlib_loop -> short_name d = Return b -> depends r.2 "core/zlib" b).
Proof.
  split; [vm_compute; reflexivity|]. eapply Returns_mono.
  - apply (check_extend_predicts zlib_loop zlib_loop_ident known_packages);
      [exact known_packages_wf|apply parsed; vm_compute; reflexivity|exact zlib_loop_newer].
  - cbn beta. intros r [Hr _]. apply Hr. vm_compute. by eexists.
Defined.
End PackageGraphExample.

(** * The package graphs per target

    Models [components/builder-core/src/target_graph.rs]: one package graph for each target
    the builder supports. *)

(** ** A graph per target *)
Module TargetGraph.
Section with_graph.
  Context `{!Petgraph, !RegexEngine}.

Record TargetGraphStats := mkTargetGraphStats {
  target : PackageTarget.t;
  node_count : nat;
  edge_count : nat;
}.

Definition new : outcome (gmap PackageTarget.t PackageGraph.t) :=
  for_each (fun target_str graphs =>
      target ← expect "unwrap" (match PackageTarget.from_str target_str with Ok x => Some x | Err _ => None end);
      Return (<[target := PackageGraph.new]> graphs))
    ["x86_64-linux"; "x86_64-windows"] ∅.

(** [graph] and [graph_mut]: where the graph of a target text is kept. *)
Definition graph (self : gmap PackageTarget.t PackageGraph.t) (target_str : string) : option (PackageTarget.t * PackageGraph.t) :=
  match PackageTarget.from_str target_str with
  | Ok target => pair target <$> self !! target
  | Err _ => None
  end.

Definition extend_for (p : JobGraphPackage) (self : gmap PackageTarget.t PackageGraph.t) : outcome (gmap PackageTarget.t PackageGraph.t) :=
  match graph self (jp_target p) with
  | Some (target, g) => r ← PackageGraph.extend p g; Return (<[target := r.1]> self)
  | None => Return self
  end.

Definition build (o : order) (packages : list JobGraphPackage) (self : gmap PackageTarget.t PackageGraph.t) : outcome (gmap PackageTarget.t PackageGraph.t * list TargetGraphStats) :=
  self ← for_each extend_for packages self;
  Return (self, (fun e : PackageTarget.t * PackageGraph.t =>
    let stats := PackageGraph.stats e.2 in
    mkTargetGraphStats e.1 (PackageGraph.st_node_count stats) (PackageGraph.st_edge_count stats))
    <$> permute o (map_to_list self)).
End with_graph.
End TargetGraph.

(** ** Properties *)

Section target_graph.
  Context `{!Petgraph, !RegexEngine}.

(** The packages of one target. *)
Definition for_target (x : PackageTarget.t) (p : JobGraphPackage) : bool :=
  match PackageTarget.from_str (jp_target p) with Ok y => bool_decide (y = x) | Err _ => false end.

Definition supported : list PackageTarget.t :=
  [PackageTarget.mk Platform.Linux Architecture.X86_64; PackageTarget.mk Platform.Windows Architecture.X86_64].

Lemma new_spec : exists tg, TargetGraph.new = Return tg /\
  forall x, tg !! x = if decide (x ∈ supported) then Some PackageGraph.new else None.
Proof.
  eexists. split; [vm_compute PackageTarget.from_str; reflexivity|].
  intros [[] []]; reflexivity.
Qed.

(** The graph of a target after the packages [l]: that of its own packages alone. *)
Definition routed (l : list JobGraphPackage) (tg : gmap PackageTarget.t PackageGraph.t) : Prop :=
  forall x, if decide (x ∈ supported)
            then exists pg, tg !! x = Some pg /\ wf pg /\
              for_each (fun p pg => fst <$> PackageGraph.extend p pg)
                (filter (fun p => for_target x p = true) l) PackageGraph.new = Return pg
            else tg !! x = None.

Lemma extend_for_routed l p i tg :
  well_formed_package p i -> routed l tg -> Returns (TargetGraph.extend_for p tg) (routed (l ++ [p])).
Proof.
  intros Hp Hr. unfold TargetGraph.extend_for, TargetGraph.graph.
  assert (Hother : forall x, for_target x p = false ->
    filter (fun p => for_target x p = true) (l ++ [p]) = filter (fun p => for_target x p = true) l).
  { intros x Hx. rewrite filter_app, filter_cons, decide_False by congruence. by rewrite app_nil_r. }
  destruct (PackageTarget.from_str (jp_target p)) as [y|] eqn:Ey.
  2: { cbn. intros x. rewrite Hother; [apply Hr|]. unfold for_target. by rewrite Ey. }
  assert (Hfor : forall x, for_target x p = bool_decide (y = x)) by (intros; unfold for_target; by rewrite Ey).
  pose proof (Hr y) as Hy. destruct (decide (y ∈ supported)) as [Hin|Hin].
  - destruct Hy as (pg & Hl & Hwf & Hrun). rewrite Hl. cbn.
    pose proof (extend_spec p i pg Hwf Hp) as He. apply Returns_inv in He as ([pg' c] & He & Hwf' & _).
    rewrite He. cbn. intros x. specialize (Hr x). destruct (decide (y = x)) as [<-|Hne].
    + rewrite decide_True by done. exists pg'. split_and!; [by apply (lookup_insert_eq (M := gmap PackageTarget.t))|done|].
      rewrite filter_app, filter_cons, decide_True by (rewrite Hfor; by apply bool_decide_eq_true).
      rewrite for_each_app, Hrun. cbn. by rewrite He.
    + rewrite Hother by (rewrite Hfor; by apply bool_decide_eq_false).
      assert (<[y := pg']> tg !! x = tg !! x) as -> by (by apply (lookup_insert_ne (M := gmap PackageTarget.t))). done.
  - rewrite Hy. cbn. intros x. destruct (decide (y = x)) as [<-|Hne]; [by rewrite decide_False|].
    rewrite Hother by (rewrite Hfor; by apply bool_decide_eq_false). apply Hr.
Qed.

(** Building the graphs of all targets at once gives each supported target the graph of its
    own packages, and reports its size; packages for other targets, and those whose target
    does not parse, are ignored.  Nothing panics. *)
Theorem target_graph_build (o : order) ps :
  (forall p, p ∈ ps -> exists i, well_formed_package p i) ->
  Returns (tg ← TargetGraph.new; TargetGraph.build o ps tg) (fun r => length r.2 = 2%nat /\
    forall x, if decide (x ∈ supported)
              then exists pg c, PackageGraph.build (filter (fun p => for_target x p = true) ps) PackageGraph.new = Return (pg, c) /\
                wf pg /\ r.1 !! x = Some pg /\ TargetGraph.mkTargetGraphStats x c.1 c.2 ∈ r.2
              else r.1 !! x = None).
Proof.
  intros Hps. destruct new_spec as (tg & -> & Htg). cbn. unfold TargetGraph.build.
  eapply Returns_bind; [apply (for_each_prefix routed)|].
  - intros x. rewrite Htg. case_decide; [|done]. exists PackageGraph.new. split_and!; [done|apply graph_new_wf|done].
  - intros l1 p l2 tg' -> Hr. destruct (Hps p) as [i Hi]; [set_solver|]. by eapply extend_for_routed.
  - cbn beta. intros tg' Hr. cbn. split.
    + rewrite length_fmap, length_permute.
      rewrite length_map_to_list.
      assert (dom tg' = list_to_set supported) as Hdom.
      { apply set_eq. intros x. rewrite elem_of_dom, elem_of_list_to_set. specialize (Hr x).
        case_decide; [|rewrite Hr; split; [by intros []|done]]. destruct Hr as (pg & -> & _). by split. }
      rewrite <- size_dom, Hdom. reflexivity.
    + intros x. specialize (Hr x). case_decide; [|done]. destruct Hr as (pg & Hl & Hwf & Hrun).
      exists pg, (node_count (PackageGraph.the_graph pg), edge_count (PackageGraph.the_graph pg)). split_and!; [|done|done|].
      * unfold PackageGraph.build. rewrite decide_False by (cbn; auto). rewrite Hrun. done.
      * apply list_elem_of_fmap. exists (x, pg). split; [done|].
        rewrite elem_of_permute. by apply elem_of_map_to_list.
Qed.
End target_graph.

Section target_graph_example.
#[local] Existing Instance reference_graph.
#[local] Existing Instance reference_engine.

Lemma target_graph_build_witness :
  let ps := [PackageGraphExample.zlib; PackageGraphExample.openssl; PackageGraphExample.nginx] in
  Returns (tg ← TargetGraph.new; TargetGraph.build id_order ps tg) (fun r =>
    TargetGraph.mkTargetGraphStats (PackageTarget.mk Platform.Linux Architecture.X86_64) 3 3 ∈ r.2 /\
    TargetGraph.mkTargetGraphStats (PackageTarget.mk Platform.Windows Architecture.X86_64) 0 0 ∈ r.2).
Proof.
  intros ps. eapply Returns_mono.
  - apply (target_graph_build id_order ps). exact PackageGraphExample.all_parsed.
  - cbn beta. intros r [_ Hr].
    pose proof (Hr (PackageTarget.mk Platform.Linux Architecture.X86_64)) as (pg & c & E & _ & _ & H1).
    pose proof (Hr (PackageTarget.mk Platform.Windows Architecture.X86_64)) as (pg' & c' & E' & _ & _ & H2).
    apply (f_equal (fmap snd)) in E, E'. vm_compute in E, E'. injection E as <-. injection E' as <-.
    split; [exact H1|exact H2].
Defined.
End target_graph_example.
