(* ===== verification/FileWatcher.v ===== *)
(** * The file watcher

    Models [components/sup/src/manager/file_watcher.rs] on Unix: the watcher that follows a
    path through directories and symbolic links, watches every directory on the way and tells
    its callbacks when the file at the end appears, changes or goes away.

    A [Path] or [PathBuf] is the list of its components, as [Path] compares and hashes by
    components.  The file system, the results of the [notify] watcher and the events it sends
    are inputs; the calls of the watcher and of the callbacks are logged.  One walk of
    [process_path] reads one state of the file system.  Counters ([u32]) are natural numbers:
    they count watched items.  Loops take fuel ([OutOfFuel]); the debug output is left out. *)

From S2P Require Import Prelude.
Local Open Scope string_scope.
Local Open Scope list_scope.

(** ** Runs: loops that may not end and code that may panic *)
Inductive run (A : Type) : Type :=
| Done (a : A)
| Panicked (msg : string)
| OutOfFuel.
Arguments Done {A} a.
Arguments Panicked {A} msg.
Arguments OutOfFuel {A}.

#[export] Instance run_ret : MRet run := fun _ a => Done a.
#[export] Instance run_bind : MBind run := fun _ _ k c =>
  match c with Done a => k a | Panicked m => Panicked m | OutOfFuel => OutOfFuel end.

(** ** Paths *)
Inductive Component := RootDir | CurDir | ParentDir | Normal (name : string).

#[export] Instance Component_eq_dec : EqDecision Component.
Proof. solve_decision. Defined.

Definition component_code (c : Component) : nat + string :=
  match c with RootDir => inl 0%nat | CurDir => inl 1%nat | ParentDir => inl 2%nat | Normal s => inr s end.

Definition component_decode (x : nat + string) : option Component :=
  match x with
  | inl 0%nat => Some RootDir
  | inl 1%nat => Some CurDir
  | inl _ => Some ParentDir
  | inr s => Some (Normal s)
  end.

#[export] Instance Component_countable : Countable Component.
Proof. refine (inj_countable component_code component_decode _). by intros []. Defined.

Definition path : Type := list Component.

#[export] Instance path_eq_dec : EqDecision path := _.
#[export] Instance path_countable : Countable path := _.

Module Path.
Definition is_absolute (p : path) : bool := match p with RootDir :: _ => true | _ => false end.

(** [PathBuf::push]: an absolute path replaces; a leading [.] disappears behind a prefix. *)
Definition push (p q : path) : path :=
  if is_absolute q then q
  else match p, q with
       | _ :: _, CurDir :: q => p ++ q
       | _, _ => p ++ q
       end.

(** [push] of a file name. *)
Definition push_name (p : path) (name : string) : path := push p [Normal name].

Definition parent (p : path) : option path :=
  match last p with
  | None | Some RootDir => None
  | Some _ => Some (removelast p)
  end.

(** [PathBuf::pop] *)
Definition pop (p : path) : path := match parent p with Some q => q | None => p end.

Definition file_name (p : path) : option string :=
  match last p with Some (Normal s) => Some s | _ => None end.
End Path.

Module DirFileName.
Record t := mk { directory : path; file_name : string }.

Definition split_path (p : path) : option t :=
  match Path.parent p with
  | None => None
  | Some parent =>
      match Path.file_name p with
      | None => None
      | Some file_name => Some (mk parent file_name)
      end
  end.

Definition as_path (self : t) : path := Path.push_name (directory self) (file_name self).
End DirFileName.

Module SplitPath.
Record t := mk { directory : path; file_name : option string }.

Definition push (self : t) (name : string) : t * DirFileName.t :=
  let directory := match file_name self with
                   | Some file_name => Path.push_name (directory self) file_name
                   | None => directory self
                   end in
  (mk directory (Some name), DirFileName.mk directory name).
End SplitPath.

Record ProcessPathArgs := mkProcessPathArgs {
  pa_path : path;
  pa_path_rest : list string;
  pa_index : nat;
  pa_prev : option path;
}.

Record ChainLinkInfo := mkChainLinkInfo {
  cl_path : path;
  cl_prev : option path;
}.

Record PathsActionData := mkPathsActionData {
  pad_dir_file_name : DirFileName.t;
  pad_args : ProcessPathArgs;
}.

(** ** Watched items *)
Module Common.
Record t := mk {
  path : FileWatcher.path;
  dir_file_name : DirFileName.t;
  prev : option FileWatcher.path;
  next : option FileWatcher.path;
  index : nat;
  path_rest : list string;
}.

Definition set_next (n : option FileWatcher.path) (self : t) : t :=
  mk (path self) (dir_file_name self) (prev self) n (index self) (path_rest self).

Definition get_process_path_args (self : t) : ProcessPathArgs :=
  mkProcessPathArgs (DirFileName.directory (dir_file_name self))
    (DirFileName.file_name (dir_file_name self) :: path_rest self) (index self) (prev self).

Definition get_chain_link_info (self : t) : ChainLinkInfo := mkChainLinkInfo (path self) (prev self).

Definition get_paths_action_data (self : t) : PathsActionData :=
  mkPathsActionData (dir_file_name self) (get_process_path_args self).

Definition is_leaf (self : t) : bool := match path_rest self with [] => true | _ => false end.
End Common.

Module CommonGenerator.
Record t := mk {
  prev : option path;
  old_prev : option path;
  path : FileWatcher.path;
  split_path : SplitPath.t;
  index : nat;
  path_rest : list string;
}.

Definition new (args : ProcessPathArgs) : t :=
  mk (pa_prev args) None (pa_path args) (SplitPath.mk (pa_path args) None) (pa_index args) (pa_path_rest args).

Definition revert_previous (self : t) : t :=
  mk (old_prev self) (old_prev self) (path self) (split_path self) (index self) (path_rest self).

Definition set_path (p : FileWatcher.path) (self : t) : t :=
  mk (prev self) (old_prev self) p (SplitPath.mk p None) (index self) (path_rest self).

Definition prepend_to_path_rest (rest : list string) (self : t) : t :=
  mk (prev self) (old_prev self) (path self) (split_path self) (index self) (rest ++ path_rest self).

Definition get_new_common (self : t) : option (Common.t * t) :=
  match path_rest self with
  | [] => None
  | component :: rest =>
      let path := Path.push_name (path self) component in
      let '(split_path, dir_file_name) := SplitPath.push (split_path self) component in
      Some (Common.mk path dir_file_name (prev self) None (index self) rest,
            mk (Some path) (prev self) path split_path (S (index self)) rest)
  end.
End CommonGenerator.

Inductive WatchedFile :=
| Regular (c : Common.t)
| MissingRegular (c : Common.t)
| Symlink (c : Common.t)
| Directory (c : Common.t)
| MissingDirectory (c : Common.t).

Definition get_common (w : WatchedFile) : Common.t :=
  match w with
  | Regular c | MissingRegular c | Symlink c | Directory c | MissingDirectory c => c
  end.

(** Writing through [get_mut_common]. *)
Definition update_common (f : Common.t -> Common.t) (w : WatchedFile) : WatchedFile :=
  match w with
  | Regular c => Regular (f c)
  | MissingRegular c => MissingRegular (f c)
  | Symlink c => Symlink (f c)
  | Directory c => Directory (f c)
  | MissingDirectory c => MissingDirectory (f c)
  end.

Definition simplify_abs_path (abs_path : path) : path :=
  foldl (fun simple c =>
      match c with
      | CurDir => simple
      | ParentDir => Path.pop simple
      | c => Path.push simple [c]
      end) [] abs_path.

(** ** Actions *)
Inductive EventAction :=
| EA_Ignore
| EA_PlainChange (p : path)
| EA_RestartWatching
| EA_AddRegular (pad : PathsActionData)
| EA_DropRegular (pad : PathsActionData)
| EA_AddDirectory (pad : PathsActionData)
| EA_DropDirectory (pad : PathsActionData)
| EA_RewireSymlink (pad : PathsActionData)
| EA_DropSymlink (pad : PathsActionData)
| EA_SettlePath (p : path).

Inductive PathsAction :=
| NotifyFileAppeared (p : path)
| NotifyFileModified (p : path)
| NotifyFileDisappeared (p : path)
| DropWatch (p : path)
| AddPathToSettle (p : path)
| SettlePath (p : path)
| ProcessPathAfterSettle (args : ProcessPathArgs)
| RestartWatching.

Inductive BranchResult :=
| BR_AlreadyExists
| BR_NewInOldDirectory (i : ChainLinkInfo)
| BR_NewInNewDirectory (i : ChainLinkInfo) (directory : path).

Inductive LeafResult :=
| LR_NewInOldDirectory (i : ChainLinkInfo)
| LR_NewInNewDirectory (i : ChainLinkInfo) (directory : path).

(** ** The file system, as [symlink_metadata] and [read_link] show it *)
Inductive FileType := FT_Symlink | FT_File | FT_Dir | FT_Other.

Record FileSystem := mkFileSystem {
  symlink_metadata : path -> option FileType;
  read_link : path -> option path;
}.

(** ** The state of watching *)
Module Paths.
Record t := mk {
  paths : gmap path WatchedFile;
  dirs : gmap path nat;
  start_path : path;
  symlink_loop_catcher : gmap path path;
  real_file : option path;
  paths_to_settle : gset path;
  process_args_after_settle : option ProcessPathArgs;
}.

Definition new (simplified_abs_path : path) : t := mk ∅ ∅ simplified_abs_path ∅ None ∅ None.

Definition set_paths (x : gmap path WatchedFile) (s : t) : t :=
  mk x (dirs s) (start_path s) (symlink_loop_catcher s) (real_file s) (paths_to_settle s) (process_args_after_settle s).
Definition set_dirs (x : gmap path nat) (s : t) : t :=
  mk (paths s) x (start_path s) (symlink_loop_catcher s) (real_file s) (paths_to_settle s) (process_args_after_settle s).
Definition set_catcher (x : gmap path path) (s : t) : t :=
  mk (paths s) (dirs s) (start_path s) x (real_file s) (paths_to_settle s) (process_args_after_settle s).
Definition set_real_file (x : option path) (s : t) : t :=
  mk (paths s) (dirs s) (start_path s) (symlink_loop_catcher s) x (paths_to_settle s) (process_args_after_settle s).
Definition set_settle (x : gset path) (s : t) : t :=
  mk (paths s) (dirs s) (start_path s) (symlink_loop_catcher s) (real_file s) x (process_args_after_settle s).
Definition set_args (x : option ProcessPathArgs) (s : t) : t :=
  mk (paths s) (dirs s) (start_path s) (symlink_loop_catcher s) (real_file s) (paths_to_settle s) x.

(** The loop body of [path_for_processing]. *)
Definition add_component (c : Component) (acc : path * list string) : outcome (path * list string) :=
  let '(path, path_rest) := acc in
  match c with
  | RootDir => Return (Path.push path [RootDir], path_rest)
  | Normal c => Return (path, path_rest ++ [c])
  | CurDir | ParentDir => Panic "the path should be simplified"
  end.

Definition path_for_processing (simplified_abs_path : path) : outcome ProcessPathArgs :=
  r ← for_each add_component simplified_abs_path ([], []);
  let '(path, path_rest) := (r : FileWatcher.path * list string) in
  Return (mkProcessPathArgs path path_rest 0 None).

Definition setup_chain_link (i : ChainLinkInfo) (self : t) : t :=
  match cl_prev i with
  | Some previous =>
      match paths self !! previous with
      | Some w => set_paths (<[previous := update_common (Common.set_next (Some (cl_path i))) w]> (paths self)) self
      | None => self
      end
  | None => self
  end.

Definition handle_leaf_result (r : LeafResult) (self : t) (new_watches : list path) : t * list path :=
  match r with
  | LR_NewInNewDirectory i directory => (setup_chain_link i self, new_watches ++ [directory])
  | LR_NewInOldDirectory i => (setup_chain_link i self, new_watches)
  end.

Definition handle_branch_result (g : CommonGenerator.t) (r : BranchResult) (self : t) (new_watches : list path)
  : t * CommonGenerator.t * list path :=
  match r with
  | BR_AlreadyExists => (self, CommonGenerator.revert_previous g, new_watches)
  | BR_NewInNewDirectory i directory => (setup_chain_link i self, g, new_watches ++ [directory])
  | BR_NewInOldDirectory i => (setup_chain_link i self, g, new_watches)
  end.

Definition add_dir (d : DirFileName.t) (self : t) : t * bool :=
  let directory := DirFileName.directory d in
  match dirs self !! directory with
  | Some n => (set_dirs (<[directory := S n]> (dirs self)) self, false)
  | None => (set_dirs (<[directory := 1%nat]> (dirs self)) self, true)
  end.

Definition add_leaf_watched_file (w : WatchedFile) (self : t) : t * LeafResult :=
  let d := Common.dir_file_name (get_common w) in
  let '(self, needs_watch) := add_dir d self in
  let '(self, i) :=
    match paths self !! DirFileName.as_path d with
    | Some o => (self, Common.get_chain_link_info (get_common o))
    | None => (set_paths (<[DirFileName.as_path d := w]> (paths self)) self,
               Common.get_chain_link_info (get_common w))
    end in
  (self, if (needs_watch : bool) then LR_NewInNewDirectory i (DirFileName.directory d) else LR_NewInOldDirectory i).

Definition add_regular (c : Common.t) : t -> t * LeafResult := add_leaf_watched_file (Regular c).
Definition add_missing_regular (c : Common.t) : t -> t * LeafResult := add_leaf_watched_file (MissingRegular c).
Definition add_missing_directory (c : Common.t) : t -> t * LeafResult := add_leaf_watched_file (MissingDirectory c).

Definition get_or_add_branch_watched_file (w : WatchedFile) (self : t) : t * BranchResult :=
  match paths self !! Common.path (get_common w) with
  | Some _ => (self, BR_AlreadyExists)
  | None =>
      let d := Common.dir_file_name (get_common w) in
      let '(self, needs_watch) := add_dir d self in
      let i := Common.get_chain_link_info (get_common w) in
      let self := set_paths (<[DirFileName.as_path d := w]> (paths self)) self in
      (self, if (needs_watch : bool) then BR_NewInNewDirectory i (DirFileName.directory d) else BR_NewInOldDirectory i)
  end.

Definition get_or_add_directory (c : Common.t) : t -> t * BranchResult := get_or_add_branch_watched_file (Directory c).
Definition get_or_add_symlink (c : Common.t) : t -> t * BranchResult := get_or_add_branch_watched_file (Symlink c).

Definition symlink_loop (p : path) (path_rest : list string) (new_path : path) (new_path_rest : list string)
    (self : t) : t * bool :=
  let merged_path := foldl Path.push_name new_path (new_path_rest ++ path_rest) in
  match symlink_loop_catcher self !! p with
  | Some o => (self, bool_decide (o = merged_path))
  | None => (set_catcher (<[p := merged_path]> (symlink_loop_catcher self)) self, false)
  end.

(** The end of a walk that found nothing to go on with. *)
Definition add_missing (common : Common.t) (self : t) (new_watches : list path) : t * list path :=
  let '(self, r) := (if Common.is_leaf common then add_missing_regular common self
                     else add_missing_directory common self) in
  handle_leaf_result r self new_watches.

(** The target of a symlink, absolute and simplified. *)
Definition link_target (d : DirFileName.t) (target : path) : path :=
  simplify_abs_path (if Path.is_absolute target then target else Path.push (DirFileName.directory d) target).

(** How a round of the loop of [process_path] ends. *)
Inductive flow :=
| Break (r : t * list path)
| Continue (g : CommonGenerator.t) (self : t) (new_watches : list path).

(** One round of the loop of [process_path]. *)
Definition walk_body (fs : FileSystem) (g : CommonGenerator.t) (self : t) (new_watches : list path) : outcome flow :=
  match CommonGenerator.get_new_common g with
  | None => Return (Break (self, new_watches))
  | Some (common, g) =>
      match symlink_metadata fs (Common.path common) with
      | None => Return (Break (add_missing common self new_watches))
      | Some FT_Symlink =>
          match read_link fs (DirFileName.as_path (Common.dir_file_name common)) with
          | None => Return (Break (add_missing common self new_watches))
          | Some target =>
              args ← path_for_processing (link_target (Common.dir_file_name common) target);
              let '(self, is_loop) := symlink_loop (Common.path common) (Common.path_rest common)
                                        (pa_path args) (pa_path_rest args) self in
              if (is_loop : bool) then Return (Break (self, new_watches))
              else
                let '(self, r) := get_or_add_symlink common self in
                let '(self, g, new_watches) := handle_branch_result g r self new_watches in
                let g := CommonGenerator.set_path (pa_path args) g in
                let g := CommonGenerator.prepend_to_path_rest (pa_path_rest args) g in
                Return (Continue g self new_watches)
          end
      | Some ft =>
          if Common.is_leaf common then
            match ft with
            | FT_File =>
                let self := set_real_file (Some (Common.path common)) self in
                let '(self, r) := add_regular common self in
                Return (Break (handle_leaf_result r self new_watches))
            | _ =>
                let '(self, r) := add_missing_regular common self in
                Return (Break (handle_leaf_result r self new_watches))
            end
          else
            match ft with
            | FT_Dir =>
                let '(self, r) := get_or_add_directory common self in
                let '(self, g, new_watches) := handle_branch_result g r self new_watches in
                Return (Continue g self new_watches)
            | _ =>
                let '(self, r) := add_missing_directory common self in
                Return (Break (handle_leaf_result r self new_watches))
            end
      end
  end.

(** The loop of [process_path]. *)
Fixpoint walk (fuel : nat) (fs : FileSystem) (g : CommonGenerator.t) (self : t) (new_watches : list path)
  : run (t * list path) :=
  match fuel with
  | 0%nat => OutOfFuel
  | S fuel =>
      match walk_body fs g self new_watches with
      | Panic m => Panicked m
      | Return (Break r) => Done r
      | Return (Continue g self new_watches) => walk fuel fs g self new_watches
      end
  end.

Definition process_path (fuel : nat) (fs : FileSystem) (args : ProcessPathArgs) (self : t) : run (t * list path) :=
  walk fuel fs (CommonGenerator.new args) (set_real_file None self) [].

Definition generate_watch_paths (fuel : nat) (fs : FileSystem) (self : t) : run (t * list path) :=
  match path_for_processing (start_path self) with
  | Panic m => Panicked m
  | Return args => process_path fuel fs args self
  end.

(** The part of [drop_watch] that counts the directory down: whether to stop watching it. *)
Definition count_down (dir_path : path) (self : t) : t * bool :=
  match dirs self !! dir_path with
  | Some count => (set_dirs (<[dir_path := pred count]> (dirs self)) self, Nat.eqb (pred count) 0)
  | None => (self, false)
  end.

(** The part of [drop_watch] that cuts the link of the item before. *)
Definition unlink (prev : option path) (self : t) : t :=
  match prev with
  | Some prev =>
      match paths self !! prev with
      | Some w => set_paths (<[prev := update_common (Common.set_next None) w]> (paths self)) self
      | None => self
      end
  | None => self
  end.

Definition drop_watch (p : path) (self : t) : t * option path :=
  match paths self !! p with
  | None => (self, None)
  | Some w =>
      let common := get_common w in
      let self := set_paths (delete p (paths self)) self in
      let dir_path := DirFileName.directory (Common.dir_file_name common) in
      let '(self, unwatch_directory) := count_down dir_path self in
      let self := set_catcher (delete p (symlink_loop_catcher self)) self in
      let '(self, dir_to_unwatch) :=
        if (unwatch_directory : bool) then (set_dirs (delete dir_path (dirs self)) self, Some dir_path) else (self, None) in
      let self := set_real_file None self in
      (unlink (Common.prev common) self, dir_to_unwatch)
  end.

Definition add_path_to_settle (p : path) (self : t) : t := set_settle ({[p]} ∪ paths_to_settle self) self.
Definition settle_path (p : path) (self : t) : t := set_settle (paths_to_settle self ∖ {[p]}) self.

Definition set_process_args (args : ProcessPathArgs) (self : t) : t :=
  if match process_args_after_settle self with
     | Some old_args => Nat.ltb (pa_index args) (pa_index old_args)
     | None => true
     end
  then set_args (Some args) self else self.

(** [process_path_or_defer_if_unsettled], with [process_path_if_settled] in it. *)
Definition process_path_or_defer_if_unsettled (fuel : nat) (fs : FileSystem) (self : t) : run (t * option (list path)) :=
  match process_args_after_settle self with
  | Some args =>
      let self := set_args None self in
      if decide (paths_to_settle self = ∅) then
        r ← process_path fuel fs args self;
        let '(self, v) := (r : t * list path) in
        Done (set_args None self, Some v)
      else Done (set_args (Some args) self, None)
  | None => Done (set_args None self, None)
  end.

Definition reset (o : order) (self : t) : t * list path :=
  (mk ∅ ∅ (start_path self) ∅ (real_file self) ∅ None, permute o (map_to_list (dirs self)).*1).
End Paths.

(** ** Events *)
Inductive DebouncedEvent :=
| NoticeWrite (p : path)
| NoticeRemove (p : path)
| Create (p : path)
| Write (p : path)
| Chmod (p : path)
| Remove (p : path)
| Rename (from to : path)
| Rescan
| EventError (o : option path).

(** [notify::Error]; the other cases carry what went wrong. *)
Inductive NotifyErr := PathNotFound | WatchNotFound | OtherNotifyErr (msg : string).

Inductive WatcherError :=
| NotifyCreateError (e : NotifyErr)
| NotifyError (e : NotifyErr)
| RecvError
| IoError
| FileWatcherFileIsRoot.

(** What the outside does during one call: the file system, the answers of the watcher, and
    the iteration order of the table of directories. *)
Record Outside := mkOutside {
  fs : FileSystem;
  watch_answer : path -> option NotifyErr;
  unwatch_answer : path -> option NotifyErr;
  dirs_order : order;
}.

Inductive Callback :=
| CB_file_appeared (p : path)
| CB_file_modified (p : path)
| CB_file_disappeared (p : path)
| CB_event_in_directories (l : list path).

Inductive WatcherCall := W_watch (p : path) | W_unwatch (p : path).

Module FileWatcher.
Record t := mk {
  callbacks : list Callback;
  watcher : list WatcherCall;
  paths : Paths.t;
  initial_real_file : option path;
}.

Definition set_paths (x : Paths.t) (self : t) : t := mk (callbacks self) (watcher self) x (initial_real_file self).
Definition call_back (c : Callback) (self : t) : t :=
  mk (callbacks self ++ [c]) (watcher self) (paths self) (initial_real_file self).
Definition call_watcher (c : WatcherCall) (self : t) : t :=
  mk (callbacks self) (watcher self ++ [c]) (paths self) (initial_real_file self).

(** [for directory in directories { watcher.watch(..)?; }] *)
Fixpoint watch_all (out : Outside) (directories : list path) (self : t) : t * result WatcherError unit :=
  match directories with
  | [] => (self, Ok tt)
  | d :: directories =>
      let self := call_watcher (W_watch d) self in
      match watch_answer out d with
      | None => watch_all out directories self
      | Some e => (self, Err (NotifyError e))
      end
  end.

(** [watcher.unwatch], with the errors of a directory that is gone ignored. *)
Definition unwatch (out : Outside) (d : path) (self : t) : t * result WatcherError unit :=
  let self := call_watcher (W_unwatch d) self in
  match unwatch_answer out d with
  | None | Some PathNotFound | Some WatchNotFound => (self, Ok tt)
  | Some e => (self, Err (NotifyError e))
  end.

Fixpoint unwatch_all (out : Outside) (directories : list path) (self : t) : t * result WatcherError unit :=
  match directories with
  | [] => (self, Ok tt)
  | d :: directories =>
      let '(self, r) := unwatch out d self in
      match r with Ok _ => unwatch_all out directories self | Err e => (self, Err e) end
  end.

Definition watcher_path (cwd : option path) (p : path) : result WatcherError path :=
  match (if Path.is_absolute p then Some p else (fun cwd => Path.push cwd p) <$> cwd) with
  | None => Err IoError
  | Some abs_path =>
      let simplified_abs_path := simplify_abs_path abs_path in
      match DirFileName.split_path simplified_abs_path with
      | Some _ => Ok simplified_abs_path
      | None => Err FileWatcherFileIsRoot
      end
  end.

Definition create (fuel : nat) (out : Outside) (new_answer : option NotifyErr) (cwd : option path) (p : path)
  : run (result WatcherError t) :=
  match new_answer with
  | Some e => Done (Err (NotifyCreateError e))
  | None =>
      match watcher_path cwd p with
      | Err e => Done (Err e)
      | Ok start_path =>
          r ← Paths.generate_watch_paths fuel (fs out) (Paths.new start_path);
          let '(paths, directories) := (r : Paths.t * list path) in
          let '(self, r) := watch_all out directories (mk [] [] paths None) in
          match r with
          | Err e => Done (Err e)
          | Ok _ => Done (Ok (mk (callbacks self) (watcher self) paths (Paths.real_file paths)))
          end
      end
  end.

Definition event_paths (event : DebouncedEvent) : list path :=
  match event with
  | NoticeWrite p | Write p | Chmod p | NoticeRemove p | Remove p | Create p => [p]
  | Rename from to => [from; to]
  | Rescan => []
  | EventError (Some p) => [p]
  | EventError None => []
  end.

Definition event_dirs (paths : Paths.t) (l : list path) : list path :=
  omap (fun p =>
    match Paths.paths paths !! p with
    | Some w => Some (DirFileName.directory (Common.dir_file_name (get_common w)))
    | None =>
        match Paths.dirs paths !! p with
        | Some _ => Some p
        | None =>
            match DirFileName.split_path p with
            | Some df => match Paths.dirs paths !! DirFileName.directory df with
                         | Some _ => Some (DirFileName.directory df)
                         | None => None
                         end
            | None => None
            end
        end
    end) l.

Definition emit_directories_for_event (event : DebouncedEvent) (self : t) : t :=
  call_back (CB_event_in_directories (event_dirs (paths self) (event_paths event))) self.

Definition handle_process_path (fuel : nat) (out : Outside) (self : t)
  : run (t * result WatcherError (list PathsAction)) :=
  r ← Paths.process_path_or_defer_if_unsettled fuel (fs out) (paths self);
  let '(ps, o) := (r : Paths.t * option (list path)) in
  let self := set_paths ps self in
  match o with
  | None => Done (self, Ok [])
  | Some directories =>
      let '(self, w) := watch_all out directories self in
      match w with
      | Err e => Done (self, Err e)
      | Ok _ => Done (self, Ok (match Paths.real_file (paths self) with
                                | Some p => [NotifyFileAppeared p]
                                | None => []
                                end))
      end
  end.

(** The [while] loop of [drop_common]. *)
Fixpoint drop_chain (fuel : nat) (paths : Paths.t) (path_to_drop : option path) : run (list PathsAction) :=
  match path_to_drop with
  | None => Done []
  | Some p =>
      match fuel with
      | 0%nat => OutOfFuel
      | S fuel =>
          l ← drop_chain fuel paths
                match Paths.paths paths !! p with
                | Some w => Common.next (get_common w)
                | None => None
                end;
          Done (DropWatch p :: l)
      end
  end.

Definition drop_common (paths : Paths.t) (pad : PathsActionData) : run (list PathsAction) :=
  let path := DirFileName.as_path (pad_dir_file_name pad) in
  l ← drop_chain (S (size (Paths.paths paths))) paths (Some path);
  Done ([AddPathToSettle path] ++ l ++
        (match Paths.real_file paths with Some p => [NotifyFileDisappeared p] | None => [] end) ++
        [ProcessPathAfterSettle (pad_args pad)]).

Definition handle_notice_remove_event (paths : Paths.t) (p : path) : EventAction :=
  match Paths.paths paths !! p with
  | None => EA_Ignore
  | Some (Directory c) => EA_DropDirectory (Common.get_paths_action_data c)
  | Some (MissingRegular _) => EA_Ignore
  | Some (Regular c) => EA_DropRegular (Common.get_paths_action_data c)
  | Some (Symlink c) => EA_DropSymlink (Common.get_paths_action_data c)
  | Some (MissingDirectory _) => EA_Ignore
  end.

Definition handle_remove_event (paths : Paths.t) (p : path) : EventAction :=
  match Paths.paths paths !! p with
  | Some (Symlink _) | Some (Directory _) | Some (Regular _) => EA_RestartWatching
  | _ => EA_SettlePath p
  end.

Definition get_event_actions (paths : Paths.t) (event : DebouncedEvent) : list EventAction :=
  match event with
  | NoticeWrite _ => [EA_Ignore]
  | Write p | Chmod p =>
      [match Paths.paths paths !! p with Some (Regular _) => EA_PlainChange p | _ => EA_Ignore end]
  | NoticeRemove p => [handle_notice_remove_event paths p]
  | Remove p => [handle_remove_event paths p]
  | Create p =>
      [match Paths.paths paths !! p with
       | None => EA_Ignore
       | Some (MissingRegular c) => EA_AddRegular (Common.get_paths_action_data c)
       | Some (Regular _) | Some (Directory _) => EA_RestartWatching
       | Some (Symlink c) => EA_RewireSymlink (Common.get_paths_action_data c)
       | Some (MissingDirectory c) => EA_AddDirectory (Common.get_paths_action_data c)
       end]
  | Rename from to =>
      [handle_notice_remove_event paths to; EA_SettlePath to; handle_remove_event paths from]
  | Rescan => [EA_RestartWatching]
  | EventError _ => [EA_RestartWatching]
  end.

(** The body of the loop of [get_paths_actions]. *)
Definition translate (paths : Paths.t) (a : EventAction) : run (list PathsAction) :=
  match a with
  | EA_Ignore => Done []
  | EA_PlainChange p => Done [NotifyFileModified p]
  | EA_RestartWatching => Done [RestartWatching]
  | EA_AddRegular pad | EA_AddDirectory pad =>
      Done [DropWatch (DirFileName.as_path (pad_dir_file_name pad)); ProcessPathAfterSettle (pad_args pad)]
  | EA_DropRegular pad | EA_DropDirectory pad | EA_DropSymlink pad => drop_common paths pad
  | EA_RewireSymlink pad =>
      l ← drop_common paths pad;
      Done (l ++ [SettlePath (DirFileName.as_path (pad_dir_file_name pad))])
  | EA_SettlePath p => Done [SettlePath p]
  end.

Fixpoint translate_all (paths : Paths.t) (l : list EventAction) : run (list PathsAction) :=
  match l with
  | [] => Done []
  | a :: l => tmp ← translate paths a; rest ← translate_all paths l; Done (tmp ++ rest)
  end.

Definition get_paths_actions (paths : Paths.t) (event : DebouncedEvent) : run (list PathsAction) :=
  translate_all paths (get_event_actions paths event).

(** How many rounds an action can cause: its own, and those of the actions it adds. *)
Definition weight (a : PathsAction) : nat :=
  match a with SettlePath _ | ProcessPathAfterSettle _ => 2 | RestartWatching => 4 | _ => 1 end.

Definition total_weight (l : list PathsAction) : nat := sum_list_with weight l.

(** One round of the [while] loop of [handle_event]: the actions left to do. *)
Definition perform (fuel : nat) (out : Outside) (action : PathsAction) (actions : list PathsAction) (self : t)
  : run (t * result WatcherError (list PathsAction)) :=
  match action with
  | NotifyFileAppeared p => Done (call_back (CB_file_appeared p) self, Ok actions)
  | NotifyFileModified p => Done (call_back (CB_file_modified p) self, Ok actions)
  | NotifyFileDisappeared p => Done (call_back (CB_file_disappeared p) self, Ok actions)
  | DropWatch p =>
      let '(ps, o) := Paths.drop_watch p (paths self) in
      let self := set_paths ps self in
      match o with
      | Some dir_path =>
          let '(self, r) := unwatch out dir_path self in
          Done (self, match r with Ok _ => Ok actions | Err e => Err e end)
      | None => Done (self, Ok actions)
      end
  | AddPathToSettle p => Done (set_paths (Paths.add_path_to_settle p (paths self)) self, Ok actions)
  | SettlePath p =>
      r ← handle_process_path fuel out (set_paths (Paths.settle_path p (paths self)) self);
      let '(self, r) := (r : t * result WatcherError (list PathsAction)) in
      Done (self, match r with Ok l => Ok (actions ++ l) | Err e => Err e end)
  | ProcessPathAfterSettle args =>
      r ← handle_process_path fuel out (set_paths (Paths.set_process_args args (paths self)) self);
      let '(self, r) := (r : t * result WatcherError (list PathsAction)) in
      Done (self, match r with Ok l => Ok (actions ++ l) | Err e => Err e end)
  | RestartWatching =>
      let gone := match Paths.real_file (paths self) with Some p => [NotifyFileDisappeared p] | None => [] end in
      let '(ps, directories) := Paths.reset (dirs_order out) (paths self) in
      let '(self, r) := unwatch_all out directories (set_paths ps self) in
      match r with
      | Err e => Done (self, Err e)
      | Ok _ =>
          match Paths.path_for_processing (Paths.start_path (paths self)) with
          | Panic m => Panicked m
          | Return args => Done (self, Ok (gone ++ [ProcessPathAfterSettle args]))
          end
      end
  end.

(** The loop; [rounds] bounds the number of rounds, [fuel] that of each walk. *)
Fixpoint perform_all (rounds fuel : nat) (out : Outside) (actions : list PathsAction) (self : t)
  : run (t * result WatcherError unit) :=
  match actions with
  | [] => Done (self, Ok tt)
  | action :: actions =>
      match rounds with
      | 0%nat => OutOfFuel
      | S rounds =>
          r ← perform fuel out action actions self;
          let '(self, r) := (r : t * result WatcherError (list PathsAction)) in
          match r with
          | Ok actions => perform_all rounds fuel out actions self
          | Err e => Done (self, Err e)
          end
      end
  end.

Definition handle_event (fuel : nat) (out : Outside) (event : DebouncedEvent) (self : t)
  : run (t * result WatcherError unit) :=
  let self := emit_directories_for_event event self in
  actions ← get_paths_actions (paths self) event;
  perform_all (total_weight actions) fuel out actions self.

(** [single_iteration]; [None] is a channel that was closed. *)
Definition single_iteration (fuel : nat) (out : Outside) (event : option DebouncedEvent) (self : t)
  : run (t * result WatcherError unit) :=
  let self := match initial_real_file self with Some p => call_back (CB_file_appeared p) self | None => self end in
  let self := mk (callbacks self) (watcher self) (paths self) None in
  match event with
  | None => Done (self, Err RecvError)
  | Some event => handle_event fuel out event self
  end.
End FileWatcher.
