(* ===== verification/FileWatcherProofs.v ===== *)
(** * Walks of the file watcher

    What [process_path] finds: it agrees with the resolution of the path (a small reference
    semantics of path lookup), ends whenever the resolution does, and keeps the watched items a
    simple chain with the watched directories counted.  The definitions are in
    [FileWatcher.v]. *)

From S2P Require Import Prelude FileWatcher.
Local Open Scope string_scope.
Local Open Scope list_scope.

(** ** Absolute paths of plain names *)
Definition absolute (names : list string) : path := RootDir :: (Normal <$> names).

Lemma push_name_app p n : p <> [] -> Path.push_name p n = p ++ [Normal n].
Proof. by destruct p. Qed.

Lemma push_name_nonempty p n : Path.push_name p n <> [].
Proof. by destruct p. Qed.

Lemma push_name_inj p q n m : Path.push_name p n = Path.push_name q m -> p = q /\ n = m.
Proof.
  assert (forall p n, Path.push_name p n = p ++ [Normal n]) as H by (by intros []).
  rewrite !H. by intros [? [= ->]]%app_inj_tail.
Qed.

Lemma absolute_push names n : Path.push_name (absolute names) n = absolute (names ++ [n]).
Proof. unfold absolute, Path.push_name. cbn. by rewrite fmap_app. Qed.

Lemma absolute_push_all names rest : foldl Path.push_name (absolute names) rest = absolute (names ++ rest).
Proof.
  revert names. induction rest as [|n rest IH]; intros names; cbn [foldl]; [by rewrite app_nil_r|].
  by rewrite absolute_push, IH, <- app_assoc.
Qed.

#[export] Instance Normal_inj : Inj (=) (=) Normal.
Proof. by intros ? ? [=]. Qed.

Lemma absolute_inj l k : absolute l = absolute k -> l = k.
Proof. unfold absolute. intros [= H]. by apply (inj (fmap Normal)) in H. Qed.

Lemma absolute_pop names : exists names', Path.pop (absolute names) = absolute names'.
Proof.
  unfold Path.pop, Path.parent. destruct names as [|n names _] using rev_ind.
  - by exists [].
  - exists names. rewrite <- absolute_push, push_name_app by done.
    rewrite last_snoc, removelast_last. done.
Qed.

(** [simplify_abs_path] removes every [.] and [..]. *)
Lemma simplify_absolute p : Path.is_absolute p = true -> exists names, simplify_abs_path p = absolute names.
Proof.
  destruct p as [|[] p]; try done. intros _. unfold simplify_abs_path. cbn [foldl].
  change (Path.push [] [RootDir]) with (absolute []). generalize (@nil string) as names.
  induction p as [|c p IH]; intros names; cbn [foldl]; [by exists names|]. destruct c as [| | |n].
  - apply (IH []).
  - apply IH.
  - destruct (absolute_pop names) as [names' ->]. apply IH.
  - change (Path.push (absolute names) [Normal n]) with (Path.push_name (absolute names) n).
    rewrite absolute_push. apply IH.
Qed.

(** An absolute path of plain names is simple already. *)
Lemma simplify_id names : simplify_abs_path (absolute names) = absolute names.
Proof.
  unfold simplify_abs_path. unfold absolute at 1. cbn [foldl].
  change (Path.push [] [RootDir]) with (absolute []).
  assert (forall l pre, foldl (fun simple c => match c with CurDir => simple | ParentDir => Path.pop simple | c => Path.push simple [c] end)
    (absolute pre) (Normal <$> l) = absolute (pre ++ l)) as H; [|apply (H names [])].
  induction l as [|x l IH]; intros pre; cbn [foldl fmap list_fmap]; [by rewrite app_nil_r|].
  change (Path.push (absolute pre) [Normal x]) with (Path.push_name (absolute pre) x).
  rewrite absolute_push, IH. by rewrite <- app_assoc.
Qed.

Lemma path_for_processing_absolute names :
  Paths.path_for_processing (absolute names) = Return (mkProcessPathArgs [RootDir] names 0 None).
Proof.
  unfold Paths.path_for_processing, absolute. cbn.
  assert (forall l rest, for_each Paths.add_component (Normal <$> l) ([RootDir], rest) = Return ([RootDir], rest ++ l)) as H.
  { induction l as [|n l IH]; intros rest; cbn; [by rewrite app_nil_r|]. rewrite IH. by rewrite <- app_assoc. }
  change (Path.push [] [RootDir]) with [RootDir]. by rewrite H.
Qed.

Lemma link_target_absolute d target :
  Path.is_absolute (DirFileName.directory d) = true -> exists names, Paths.link_target d target = absolute names.
Proof.
  intros Hd. unfold Paths.link_target. apply simplify_absolute. destruct (Path.is_absolute target) eqn:E; [done|].
  unfold Path.push. rewrite E. destruct (DirFileName.directory d) as [|[] dir]; try done. by destruct target as [|[] ?].
Qed.

(** ** Resolution

    A reference semantics of looking up the names [rest] from the directory [names], with the
    number of lookups: the regular file found, if any.  As in the code, [..] in the target of
    a symlink is resolved in the text of the path. *)
Inductive resolves (fs : FileSystem) (names : list string) : list string -> nat -> option path -> Prop :=
| R_end : resolves fs names [] 0 None
| R_missing n rest :
    symlink_metadata fs (absolute (names ++ [n])) = None ->
    resolves fs names (n :: rest) 1 None
| R_file n :
    symlink_metadata fs (absolute (names ++ [n])) = Some FT_File ->
    resolves fs names [n] 1 (Some (absolute (names ++ [n])))
| R_not_a_file n ft :
    symlink_metadata fs (absolute (names ++ [n])) = Some ft -> ft <> FT_Symlink -> ft <> FT_File ->
    resolves fs names [n] 1 None
| R_not_a_directory n m rest ft :
    symlink_metadata fs (absolute (names ++ [n])) = Some ft -> ft <> FT_Symlink -> ft <> FT_Dir ->
    resolves fs names (n :: m :: rest) 1 None
| R_directory n m rest k res :
    symlink_metadata fs (absolute (names ++ [n])) = Some FT_Dir ->
    resolves fs (names ++ [n]) (m :: rest) k res ->
    resolves fs names (n :: m :: rest) (S k) res
| R_unreadable n rest :
    symlink_metadata fs (absolute (names ++ [n])) = Some FT_Symlink ->
    read_link fs (absolute (names ++ [n])) = None ->
    resolves fs names (n :: rest) 1 None
| R_symlink n rest target names' k res :
    symlink_metadata fs (absolute (names ++ [n])) = Some FT_Symlink ->
    read_link fs (absolute (names ++ [n])) = Some target ->
    Paths.link_target (DirFileName.mk (absolute names) n) target = absolute names' ->
    resolves fs [] (names' ++ rest) k res ->
    resolves fs names (n :: rest) (S k) res.

Lemma resolves_det fs names rest k res k' res' :
  resolves fs names rest k res -> resolves fs names rest k' res' -> k = k' /\ res = res'.
Proof.
  intros H. revert k' res'.
  induction H as [| | | | |names n m rest k res Hm _ IH| |names n rest target names1 k res Hm Hl Ht _ IH]; intros k' res' H'; inversion H'; simplify_eq; try done.
  - edestruct IH as [-> ->]; done.
  - assert (names' = names1) as -> by (apply absolute_inj; congruence). edestruct IH as [-> ->]; done.
Qed.

Lemma resolves_symlink_inv fs names n rest target names' k res :
  symlink_metadata fs (absolute (names ++ [n])) = Some FT_Symlink ->
  read_link fs (absolute (names ++ [n])) = Some target ->
  Paths.link_target (DirFileName.mk (absolute names) n) target = absolute names' ->
  resolves fs names (n :: rest) k res -> exists k', k = S k' /\ resolves fs [] (names' ++ rest) k' res.
Proof.
  intros Hm Hl Ht Hr. inversion Hr as [|? ? E|? E|? ? E|? ? ? ? E|? ? ? ? ? E|? ? E E'|? ? t x ? ? E E' Et Hr']; subst; try congruence.
  rewrite Hl in E'. injection E' as <-. rewrite Ht in Et. apply absolute_inj in Et as <-. eauto.
Qed.

(** ** The chain of watched items *)
Definition item_ok (p : path) (w : WatchedFile) : Prop :=
  Common.path (get_common w) = p /\
  exists names n, p = absolute (names ++ [n]) /\
    Common.dir_file_name (get_common w) = DirFileName.mk (absolute names) n.

(** The directory of an item. *)
Definition dir_of (p : path) : path := removelast p.

Lemma dir_of_absolute names n : dir_of (absolute (names ++ [n])) = absolute names.
Proof. unfold dir_of. rewrite <- absolute_push, push_name_app by done. apply removelast_last. Qed.

Lemma item_dir p w : item_ok p w -> DirFileName.directory (Common.dir_file_name (get_common w)) = dir_of p.
Proof. intros (_ & names & n & -> & ->). by rewrite dir_of_absolute. Qed.

Lemma item_as_path p w : item_ok p w -> DirFileName.as_path (Common.dir_file_name (get_common w)) = p.
Proof. intros (_ & names & n & -> & ->). apply absolute_push. Qed.

Lemma get_update_common f w : get_common (update_common f w) = f (get_common w).
Proof. by destruct w. Qed.

Lemma item_ok_set_next p w x : item_ok p w -> item_ok p (update_common (Common.set_next x) w).
Proof. unfold item_ok. rewrite get_update_common. done. Qed.

(** A segment of the chain, last item first: [base] is what comes before the segment, [next]
    what comes after, and the indices stay below [hi]. *)
Fixpoint segment (m : gmap path WatchedFile) (base next : option path) (hi : nat) (st : list path) : Prop :=
  match st with
  | [] => True
  | p :: st =>
      exists w, m !! p = Some w /\ item_ok p w /\ Common.next (get_common w) = next /\
        Common.prev (get_common w) = match st with q :: _ => Some q | [] => base end /\
        (Common.index (get_common w) < hi)%nat /\
        segment m base (Some p) (Common.index (get_common w)) st
  end.

Lemma segment_hi m base next hi hi' st : (hi <= hi')%nat -> segment m base next hi st -> segment m base next hi' st.
Proof.
  destruct st as [|p st]; [done|]. intros Hle (w & ? & ? & ? & ? & ? & ?). exists w. split_and!; try done. lia.
Qed.

Lemma segment_ext m m' base next hi st :
  (forall p, p ∈ st -> m' !! p = m !! p) -> segment m base next hi st -> segment m' base next hi st.
Proof.
  revert next hi. induction st as [|p st IH]; intros next hi Hm; [done|].
  intros (w & Hw & ? & ? & ? & ? & Hs). exists w. split_and!; try done.
  - rewrite Hm; [done|by left].
  - apply IH; [|done]. intros; apply Hm; by right.
Qed.

(** Splitting the chain at an item. *)
Lemma segment_app m base next hi front x back :
  segment m base next hi (front ++ x :: back) ->
  segment m (Some x) next hi front /\
  exists hi', (hi' <= hi)%nat /\ segment m base (match last front with Some p => Some p | None => next end) hi' (x :: back).
Proof.
  revert next hi. induction front as [|p front IH]; intros next hi.
  { intros H. split; [done|]. exists hi. split; [lia|done]. }
  change ((p :: front) ++ x :: back) with (p :: (front ++ x :: back)). cbn [segment].
  assert (match front ++ x :: back with q :: _ => Some q | [] => base end =
          match front with q :: _ => Some q | [] => Some x end) as -> by (by destruct front).
  assert (match last (p :: front) with Some q => Some q | None => next end =
          match last front with Some q => Some q | None => Some p end) as ->.
  { rewrite last_cons. by destruct (last front). }
  intros (w & ? & ? & ? & ? & Hlt & [H1 (hi' & Hle & H2)]%IH). split; [by exists w|]. exists hi'. split; [lia|done].
Qed.

(** Changing what comes after the segment. *)
Lemma segment_set_next m base next next' hi p w st :
  m !! p = Some w -> (p ∉ st) -> segment m base next hi (p :: st) ->
  segment (<[p := update_common (Common.set_next next') w]> m) base next' hi (p :: st).
Proof.
  intros Hp Hnot (w' & Hw & Hok & Hn & Hpr & Hlt & Hs). rewrite Hp in Hw. injection Hw as <-.
  exists (update_common (Common.set_next next') w). rewrite lookup_insert_eq, get_update_common.
  split_and!; try done; [by apply item_ok_set_next|].
  eapply segment_ext; [|exact Hs]. intros q Hq. apply lookup_insert_ne. set_solver.
Qed.

(** The item before another one. *)
Lemma segment_prev m next hi st p w q :
  segment m None next hi st -> p ∈ st -> m !! p = Some w -> Common.prev (get_common w) = Some q ->
  exists w', m !! q = Some w' /\ Common.next (get_common w') = Some p.
Proof.
  revert next hi. induction st as [|x st IH]; intros next hi; [by intros _ ?%not_elem_of_nil|].
  intros (w0 & Hw0 & _ & _ & Hpr & _ & Hs) [->|Hin]%elem_of_cons Hw Hq.
  - rewrite Hw0 in Hw. injection Hw as <-. rewrite Hpr in Hq. destruct st as [|y st]; [done|].
    injection Hq as ->. destruct Hs as (w' & ? & _ & ? & _). by exists w'.
  - by eapply IH.
Qed.

(** How many of the items are in a directory. *)
Definition count_in (d : path) (st : list path) : nat := length (filter (fun p => dir_of p = d) st).

(** The watched items are a chain, last item first, with indices below [hi]; a directory with
    items is watched, and its use count covers them. *)
Record chained (s : Paths.t) (st : list path) (hi : nat) : Prop := {
  ch_nodup : NoDup st;
  ch_dom : forall p, is_Some (Paths.paths s !! p) <-> p ∈ st;
  ch_links : segment (Paths.paths s) None None hi st;
  ch_dirs : forall d, (count_in d st <= default 0 (Paths.dirs s !! d))%nat;
}.

(** What a walk leaves alone. *)
Definition frame (s s' : Paths.t) : Prop :=
  Paths.start_path s' = Paths.start_path s /\ Paths.paths_to_settle s' = Paths.paths_to_settle s /\
  Paths.process_args_after_settle s' = Paths.process_args_after_settle s.

#[export] Instance frame_preorder : PreOrder frame.
Proof. split; [by intros|]. unfold frame. intros x y z. naive_solver congruence. Qed.

(** The directories added to the list are those that were not watched before. *)
Definition adds (s : Paths.t) (nw : list path) (s' : Paths.t) (nw' : list path) : Prop :=
  exists ds, nw' = nw ++ ds /\ NoDup ds /\ (forall d, d ∈ ds -> Paths.dirs s !! d = None) /\
    dom (Paths.dirs s') = dom (Paths.dirs s) ∪ list_to_set ds.

Lemma adds_refl s s' nw : Paths.dirs s' = Paths.dirs s -> adds s nw s' nw.
Proof.
  intros E. exists []. rewrite app_nil_r, E. split_and!; [done|constructor|by intros ? ?%not_elem_of_nil|set_solver].
Qed.

Lemma adds_trans s1 n1 s2 n2 s3 n3 : adds s1 n1 s2 n2 -> adds s2 n2 s3 n3 -> adds s1 n1 s3 n3.
Proof.
  intros (d1 & -> & Hn1 & Hd1 & E1) (d2 & -> & Hn2 & Hd2 & E2). exists (d1 ++ d2).
  assert (H2 : forall d, d ∈ d2 -> Paths.dirs s1 !! d = None /\ (d ∉ d1)).
  { intros d Hd. apply Hd2, not_elem_of_dom in Hd. rewrite E1 in Hd.
    apply not_elem_of_union in Hd as [? Hd]. split; [by apply not_elem_of_dom|]. by rewrite elem_of_list_to_set in Hd. }
  split_and!.
  - by rewrite app_assoc.
  - apply NoDup_app. split_and!; [done| |done]. intros d ? [_ ?]%H2. done.
  - intros d [?|[? _]%H2]%elem_of_app; auto.
  - rewrite E2, E1, list_to_set_app_L. set_solver.
Qed.

(** ** Adding items *)
Lemma add_dir_spec d s :
  Paths.add_dir d s =
    (Paths.set_dirs (<[DirFileName.directory d := S (default 0%nat (Paths.dirs s !! DirFileName.directory d))]> (Paths.dirs s)) s,
     bool_decide (Paths.dirs s !! DirFileName.directory d = None)).
Proof. unfold Paths.add_dir. by destruct (Paths.dirs s !! DirFileName.directory d). Qed.

(** The list of new watches after [add_dir]. *)
Definition push_new (s : Paths.t) (d : path) (nw : list path) : list path :=
  if bool_decide (Paths.dirs s !! d = None) then nw ++ [d] else nw.

Lemma adds_add_dir s s' d nw :
  Paths.dirs s' = <[d := S (default 0%nat (Paths.dirs s !! d))]> (Paths.dirs s) -> adds s nw s' (push_new s d nw).
Proof.
  intros E. unfold push_new, adds. rewrite E. case_bool_decide as Hd.
  - exists [d]. split_and!; [done|apply NoDup_singleton|by intros ? ->%list_elem_of_singleton|].
    rewrite dom_insert_L. set_solver.
  - exists []. rewrite app_nil_r. split_and!; [done|constructor|by intros ? ?%not_elem_of_nil|].
    rewrite dom_insert_L. apply not_eq_None_Some in Hd. apply elem_of_dom in Hd. set_solver.
Qed.

Lemma count_in_cons d p st : count_in d (p :: st) = ((if decide (dir_of p = d) then 1 else 0) + count_in d st)%nat.
Proof. unfold count_in. rewrite filter_cons. by case_decide. Qed.

(** A new item [w] at the end of the chain: counted, inserted and linked. *)
Definition append_item (p : path) (w : WatchedFile) (s : Paths.t) : Paths.t :=
  let d := dir_of p in
  let s := Paths.set_dirs (<[d := S (default 0%nat (Paths.dirs s !! d))]> (Paths.dirs s)) s in
  let s := Paths.set_paths (<[p := w]> (Paths.paths s)) s in
  Paths.setup_chain_link (Common.get_chain_link_info (get_common w)) s.

Lemma append_item_chained p w s st hi :
  chained s st hi -> Paths.paths s !! p = None -> item_ok p w ->
  Common.prev (get_common w) = head st -> Common.next (get_common w) = None ->
  (hi <= Common.index (get_common w))%nat ->
  chained (append_item p w s) (p :: st) (S (Common.index (get_common w))).
Proof.
  intros [Hnd Hdom Hseg Hdirs] Hp Hok Hprev Hnext Hhi.
  assert (p ∉ st) as Hnot by (rewrite <- Hdom, Hp; by intros []).
  assert (Hd : forall d, (count_in d (p :: st) <=
    default 0 (<[dir_of p := S (default 0%nat (Paths.dirs s !! dir_of p))]> (Paths.dirs s) !! d))%nat).
  { intros d. rewrite count_in_cons. specialize (Hdirs d). destruct (decide (dir_of p = d)) as [<-|Hne].
    - rewrite lookup_insert_eq. cbn. lia.
    - by rewrite lookup_insert_ne. }
  unfold append_item, Paths.setup_chain_link. cbn [Common.get_chain_link_info cl_prev cl_path]. rewrite Hprev.
  destruct st as [|q st]; cbn [head].
  - split; cbn -[segment]; [constructor; [done|constructor]| | |exact Hd].
    + intros x. rewrite list_elem_of_singleton. destruct (decide (p = x)) as [<-|Hne].
      * rewrite lookup_insert_eq. naive_solver.
      * rewrite lookup_insert_ne by done. rewrite Hdom, elem_of_nil. naive_solver.
    + exists w. rewrite lookup_insert_eq. split_and!; try done. lia.
  - destruct Hseg as (wq & Hq & Hseg). cbn [Paths.paths Paths.set_paths Paths.set_dirs].
    rewrite lookup_insert_ne by set_solver. rewrite Hq. split; cbn -[segment].
    + by constructor.
    + intros x. rewrite elem_of_cons. destruct (decide (q = x)) as [<-|Hqx].
      { rewrite lookup_insert_eq. split; [right; by left|by eexists]. }
      rewrite lookup_insert_ne by done. destruct (decide (p = x)) as [<-|Hne].
      * rewrite lookup_insert_eq. naive_solver.
      * rewrite lookup_insert_ne, Hdom by done. naive_solver.
    + exists w. rewrite lookup_insert_ne by set_solver. rewrite lookup_insert_eq. rewrite (proj1 Hok).
      split_and!; try done; [lia|]. apply (segment_hi _ _ _ hi _ (q :: st)); [done|].
      apply (segment_set_next _ None None _ hi q wq st); [by rewrite lookup_insert_ne by set_solver|by apply NoDup_cons in Hnd as [? _]|].
      eapply segment_ext; [|by exists wq]. intros y Hy. apply lookup_insert_ne. set_solver.
    + exact Hd.
Qed.

(** The directory of an item counted once more. *)
Definition count_dir (p : path) (s : Paths.t) : Paths.t :=
  Paths.set_dirs (<[dir_of p := S (default 0%nat (Paths.dirs s !! dir_of p))]> (Paths.dirs s)) s.

Lemma set_next_same w x : Common.next (get_common w) = x -> update_common (Common.set_next x) w = w.
Proof. intros <-. by destruct w as [[]|[]|[]|[]|[]]. Qed.

Lemma set_paths_same s : Paths.set_paths (Paths.paths s) s = s.
Proof. by destruct s. Qed.

(** Linking an item that is linked already. *)
Lemma relink_same s st hi p w :
  chained s st hi -> Paths.paths s !! p = Some w ->
  Paths.setup_chain_link (Common.get_chain_link_info (get_common w)) s = s.
Proof.
  intros Hch Hw. unfold Paths.setup_chain_link. cbn.
  assert (p ∈ st) as Hp by (apply (ch_dom _ _ _ Hch); eauto).
  destruct (Common.prev (get_common w)) as [q|] eqn:Hq; [|done].
  destruct (segment_prev _ _ _ _ _ _ _ (ch_links _ _ _ Hch) Hp Hw Hq) as (w' & Hw' & Hn). rewrite Hw'.
  assert (Common.path (get_common w) = p) as ->.
  { destruct Hch as [_ _ Hs _]. clear Hq Hn Hw' w' q. revert Hs. generalize (@None path) at 2 as nx. revert hi.
    induction st as [|x st IH]; intros hi nx; [by apply not_elem_of_nil in Hp|].
    intros (w0 & Hw0 & Hok & _ & _ & _ & Hs). apply elem_of_cons in Hp as [->|Hp]; [|by eapply IH].
    rewrite Hw in Hw0. injection Hw0 as <-. apply Hok. }
  rewrite set_next_same by done. rewrite insert_id by done. apply set_paths_same.
Qed.

Lemma chained_count_dir p s st hi : chained s st hi -> chained (count_dir p s) st hi.
Proof.
  intros [H1 H2 H3 H4]. split; cbn; try done. intros d. specialize (H4 d).
  destruct (decide (dir_of p = d)) as [<-|?]; [rewrite lookup_insert_eq; cbn; lia|by rewrite lookup_insert_ne].
Qed.

Lemma leaf_spec p w s st hi nw :
  chained s st hi -> item_ok p w ->
  (let '(s', r) := Paths.add_leaf_watched_file w s in Paths.handle_leaf_result r s' nw) =
  (match Paths.paths s !! p with Some _ => count_dir p s | None => append_item p w s end, push_new s (dir_of p) nw).
Proof.
  intros Hch Hok. unfold Paths.add_leaf_watched_file. rewrite add_dir_spec, (item_dir p w), (item_as_path p w) by done.
  fold (count_dir p s). change (Paths.paths (count_dir p s)) with (Paths.paths s).
  unfold push_new. destruct (Paths.paths s !! p) as [o|] eqn:Ho.
  - pose proof (relink_same (count_dir p s) st hi p o (chained_count_dir _ _ _ _ Hch) Ho) as E.
    case_bool_decide; cbn [Paths.handle_leaf_result]; by rewrite E.
  - case_bool_decide; done.
Qed.

Lemma branch_spec p w s st hi nw g :
  chained s st hi -> item_ok p w ->
  (let '(s', r) := Paths.get_or_add_branch_watched_file w s in Paths.handle_branch_result g r s' nw) =
  match Paths.paths s !! p with
  | Some _ => (s, CommonGenerator.revert_previous g, nw)
  | None => (append_item p w s, g, push_new s (dir_of p) nw)
  end.
Proof.
  intros Hch Hok. unfold Paths.get_or_add_branch_watched_file. rewrite (proj1 Hok).
  destruct (Paths.paths s !! p) as [o|] eqn:Ho; [done|].
  rewrite add_dir_spec, (item_dir p w), (item_as_path p w) by done. unfold push_new. case_bool_decide; done.
Qed.

Lemma append_item_frame p w s :
  frame s (append_item p w s) /\ Paths.real_file (append_item p w s) = Paths.real_file s /\
  Paths.symlink_loop_catcher (append_item p w s) = Paths.symlink_loop_catcher s /\
  Paths.dirs (append_item p w s) = Paths.dirs (count_dir p s).
Proof.
  unfold append_item, Paths.setup_chain_link. cbn.
  destruct (Common.prev (get_common w)); [destruct (<[p:=w]> (Paths.paths s) !! _)|]; done.
Qed.

(** ** One round of a walk *)
Inductive Kind := KRegular | KMissing | KBranch.

Definition kind (w : WatchedFile) : Kind :=
  match w with
  | Regular _ => KRegular
  | MissingRegular _ | MissingDirectory _ => KMissing
  | Symlink _ | Directory _ => KBranch
  end.

Definition kinds (s : Paths.t) (p : path) : option Kind := kind <$> Paths.paths s !! p.

Lemma kind_update f w : kind (update_common f w) = kind w.
Proof. by destruct w. Qed.

Lemma append_item_kinds p w s q :
  kinds (append_item p w s) q = if decide (p = q) then Some (kind w) else kinds s q.
Proof.
  unfold kinds, append_item, Paths.setup_chain_link. cbn. set (m := <[p:=w]> (Paths.paths s)).
  assert (kind <$> m !! q = if decide (p = q) then Some (kind w) else kind <$> Paths.paths s !! q) as <-.
  { unfold m. case_decide as E; [subst; by rewrite lookup_insert_eq|by rewrite lookup_insert_ne]. }
  destruct (Common.prev (get_common w)) as [x|]; [|done]. destruct (m !! x) as [wx|] eqn:Ex; [|done]. cbn.
  destruct (decide (x = q)) as [<-|?]; [|by rewrite lookup_insert_ne].
  rewrite lookup_insert_eq, Ex. cbn. by rewrite kind_update.
Qed.

(** All the items are directories and symlinks. *)
Definition branches (s : Paths.t) (st : list path) : Prop := forall q, q ∈ st -> kinds s q = Some KBranch.

(** Only the end of the chain may be a leaf: the real file, or something that is missing. *)
Definition tidy (s : Paths.t) (st : list path) : Prop :=
  branches s st \/
  exists p st', st = p :: st' /\ branches s st' /\
    ((kinds s p = Some KRegular /\ Paths.real_file s = Some p) \/
     (kinds s p = Some KMissing /\ Paths.real_file s = None)).

Record gen_ok (g : CommonGenerator.t) (names : list string) (st : list path) (hi : nat) : Prop := {
  gen_path : CommonGenerator.path g = absolute names;
  gen_split : match SplitPath.file_name (CommonGenerator.split_path g) with
              | Some f => Path.push_name (SplitPath.directory (CommonGenerator.split_path g)) f
              | None => SplitPath.directory (CommonGenerator.split_path g)
              end = absolute names;
  gen_prev : CommonGenerator.prev g = head st;
  gen_index : (hi <= CommonGenerator.index g)%nat;
}.

(** The next item of a walk. *)
Definition next_common (g : CommonGenerator.t) (names : list string) (st : list path) (n : string) (rest : list string) : Common.t :=
  Common.mk (absolute (names ++ [n])) (DirFileName.mk (absolute names) n) (head st) None (CommonGenerator.index g) rest.

Definition next_gen (g : CommonGenerator.t) (names : list string) (st : list path) (n : string) (rest : list string) : CommonGenerator.t :=
  CommonGenerator.mk (Some (absolute (names ++ [n]))) (head st) (absolute (names ++ [n]))
    (SplitPath.mk (absolute names) (Some n)) (S (CommonGenerator.index g)) rest.

Lemma get_new_common_spec g names st hi :
  gen_ok g names st hi ->
  CommonGenerator.get_new_common g =
  match CommonGenerator.path_rest g with
  | [] => None
  | n :: rest => Some (next_common g names st n rest, next_gen g names st n rest)
  end.
Proof.
  intros [Hp Hs Hpr _]. unfold CommonGenerator.get_new_common.
  destruct (CommonGenerator.path_rest g) as [|n rest]; [done|]. unfold SplitPath.push.
  rewrite Hp, absolute_push. unfold next_common, next_gen. by rewrite Hs, Hpr.
Qed.

Lemma next_common_ok g names st n rest w :
  get_common w = next_common g names st n rest -> item_ok (absolute (names ++ [n])) w.
Proof. intros E. unfold item_ok. rewrite E. split; [done|]. by exists names, n. Qed.

(** What a walk does to the state: the chain grows at its end. *)
Definition grows (s : Paths.t) (st : list path) (nw : list path) (s' : Paths.t) (st' : list path) (nw' : list path) : Prop :=
  (exists new, st' = new ++ st) /\ frame s s' /\ adds s nw s' nw'.

Lemma grows_trans s1 st1 n1 s2 st2 n2 s3 st3 n3 :
  grows s1 st1 n1 s2 st2 n2 -> grows s2 st2 n2 s3 st3 n3 -> grows s1 st1 n1 s3 st3 n3.
Proof.
  intros ([x ->] & Hf & Ha) ([y ->] & Hf' & Ha'). split_and!; [|by etransitivity|by eapply adds_trans].
  exists (y ++ x). by rewrite app_assoc.
Qed.

(** The walk ends at a leaf. *)
Lemma leaf_end g names st hi n rest w s nw :
  chained s st hi -> gen_ok g names st hi -> branches s st ->
  get_common w = next_common g names st n rest ->
  (kind w = KRegular /\ Paths.real_file s = Some (absolute (names ++ [n]))) \/
  (kind w = KMissing /\ Paths.real_file s = None) ->
  let '(s', nw') := (let '(s', r) := Paths.add_leaf_watched_file w s in Paths.handle_leaf_result r s' nw) in
  exists st' hi', chained s' st' hi' /\ grows s st nw s' st' nw' /\ tidy s' st' /\ Paths.real_file s' = Paths.real_file s.
Proof.
  intros Hch Hg Hb Hw Hkind. pose proof (next_common_ok _ _ _ _ _ _ Hw) as Hok.
  rewrite (leaf_spec _ _ _ _ _ _ Hch Hok). set (p := absolute (names ++ [n])) in *.
  destruct (Paths.paths s !! p) as [o|] eqn:Ho.
  - exists st, hi. split_and!; [by apply chained_count_dir| |by left|done].
    split_and!; [by exists []|done|by apply adds_add_dir].
  - destruct (append_item_frame p w s) as (Hf & Hr & _ & Hd).
    exists (p :: st), (S (Common.index (get_common w))). split_and!.
    + apply (append_item_chained _ _ _ _ hi); try done; rewrite Hw; [done..|apply Hg].
    + split_and!; [by exists [p]|done|by apply adds_add_dir].
    + right. exists p, st. split_and!; [done| |].
      * intros q Hq. rewrite append_item_kinds, decide_False; [by apply Hb|].
        intros <-. apply (ch_dom _ _ _ Hch) in Hq. rewrite Ho in Hq. by destruct Hq.
      * rewrite append_item_kinds, decide_True, Hr by done. destruct Hkind as [[-> ?]|[-> ?]]; auto.
    + done.
Qed.

(** The state of a walk at a symlink: the path of the link and the merged path. *)
Definition link_state (fs : FileSystem) (names : list string) (n : string) (rest : list string) (q m : path) : Prop :=
  q = absolute (names ++ [n]) /\ symlink_metadata fs q = Some FT_Symlink /\
  exists target names', read_link fs q = Some target /\
    Paths.link_target (DirFileName.mk (absolute names) n) target = absolute names' /\ m = absolute (names' ++ rest).

Lemma link_state_inj fs names n rest names' n' rest' q m :
  link_state fs names n rest q m -> link_state fs names' n' rest' q m -> names = names' /\ n = n' /\ rest = rest'.
Proof.
  intros (-> & _ & t & k & Ht & Hk & ->) (Hq & _ & t' & k' & Ht' & Hk' & Hm).
  apply absolute_inj, app_inj_tail in Hq as [-> ->]. rewrite Ht in Ht'. injection Ht' as <-.
  rewrite Hk in Hk'. apply absolute_inj in Hk' as <-. apply absolute_inj in Hm. by apply app_inv_head in Hm as ->.
Qed.

(** What the rounds of a walk keep: [names] is where the walk is. *)
Record walking (s : Paths.t) (g : CommonGenerator.t) (names : list string) (st : list path) (hi : nat) : Prop := {
  wk_chained : chained s st hi;
  wk_gen : gen_ok g names st hi;
  wk_branches : branches s st;
  wk_real : Paths.real_file s = None;
}.

(** A round: the walk never panics; it ends with the answer of the resolution, or at a symlink
    it has seen in the same state; or it goes on with one lookup less to do. *)
Definition round_spec (fs : FileSystem) (s : Paths.t) (g : CommonGenerator.t) (names : list string) (st nw : list path) (f : Paths.flow) : Prop :=
  match f with
  | Paths.Break (s', nw') =>
      exists st' hi', chained s' st' hi' /\ grows s st nw s' st' nw' /\ tidy s' st' /\
        ((forall k res, resolves fs names (CommonGenerator.path_rest g) k res -> Paths.real_file s' = res) \/
         Paths.real_file s' = None /\
         exists n rest q m, CommonGenerator.path_rest g = n :: rest /\ link_state fs names n rest q m /\
           Paths.symlink_loop_catcher s !! q = Some m)
  | Paths.Continue g' s' nw' =>
      exists names' st' hi', walking s' g' names' st' hi' /\ grows s st nw s' st' nw' /\
        (forall k res, resolves fs names (CommonGenerator.path_rest g) k res ->
           exists k', k = S k' /\ resolves fs names' (CommonGenerator.path_rest g') k' res) /\
        (Paths.symlink_loop_catcher s' = Paths.symlink_loop_catcher s \/
         exists n rest q m, CommonGenerator.path_rest g = n :: rest /\ link_state fs names n rest q m /\
           Paths.symlink_loop_catcher s' = <[q := m]> (Paths.symlink_loop_catcher s))
  end.

Lemma round_leaf fs g names st hi n rest w s s0 nw :
  walking s g names st hi -> CommonGenerator.path_rest g = n :: rest ->
  get_common w = next_common g names st n rest ->
  (kind w = KRegular /\ s0 = Paths.set_real_file (Some (absolute (names ++ [n]))) s) \/ (kind w = KMissing /\ s0 = s) ->
  (forall k res, resolves fs names (n :: rest) k res ->
     res = match kind w with KRegular => Some (absolute (names ++ [n])) | _ => None end) ->
  round_spec fs s g names st nw (Paths.Break (let '(s', r) := Paths.add_leaf_watched_file w s0 in Paths.handle_leaf_result r s' nw)).
Proof.
  intros [Hch Hg Hb Hr] Hrest Hw Hkind Hres. unfold round_spec.
  assert (Hs0 : chained s0 st hi /\ branches s0 st /\ Paths.dirs s0 = Paths.dirs s /\ frame s s0).
  { destruct Hkind as [[_ ->]|[_ ->]]; [|done]. split_and!; try done. by destruct Hch. }
  destruct Hs0 as (Hch0 & Hb0 & Hd0 & Hf0).
  pose proof (leaf_end g names st hi n rest w s0 nw Hch0 Hg Hb0 Hw) as H.
  destruct (let '(s', r) := _ in _) as [s' nw']. destruct H as (st' & hi' & H1 & H2 & H3 & H4).
  { destruct Hkind as [[? ->]|[? ->]]; [left|right]; done. }
  exists st', hi'. split_and!; [done| |done|left].
  - eapply grows_trans; [|exact H2]. split_and!; [by exists []|done|by apply adds_refl].
  - rewrite Hrest, H4. intros k res ->%Hres. destruct Hkind as [[-> ->]|[-> ->]]; done.
Qed.

(** The walk goes on from an item: when it is new the generator points at it, otherwise at the
    item before. *)
Lemma branch_step g names st hi n rest w s nw :
  walking s g names st hi -> kind w = KBranch -> get_common w = next_common g names st n rest ->
  let '(s', g', nw') := (let '(s', r) := Paths.get_or_add_branch_watched_file w s in
                         Paths.handle_branch_result (next_gen g names st n rest) r s' nw) in
  exists st' hi', walking s' g' (names ++ [n]) st' hi' /\ grows s st nw s' st' nw' /\
    CommonGenerator.path_rest g' = rest /\ Paths.symlink_loop_catcher s' = Paths.symlink_loop_catcher s.
Proof.
  intros [Hch Hg Hb Hr] Hk Hw. pose proof (gen_index _ _ _ _ Hg) as Hix.
  pose proof (next_common_ok _ _ _ _ _ _ Hw) as Hok. rewrite (branch_spec _ _ _ _ _ _ _ Hch Hok).
  set (p := absolute (names ++ [n])) in *. destruct (Paths.paths s !! p) as [o|] eqn:Ho.
  - exists st, hi. split_and!; [|split_and!; [by exists []|done|by apply adds_refl]|done|done].
    split; [done| |done|done]. split; cbn -[absolute]; [done|apply absolute_push|done|lia].
  - destruct (append_item_frame p w s) as (Hf & Hr' & Hc & Hd).
    exists (p :: st), (S (CommonGenerator.index g)).
    assert (Common.index (get_common w) = CommonGenerator.index g) as Hi by (by rewrite Hw).
    split_and!; [|split_and!; [by exists [p]|done|by apply adds_add_dir]|done|done]. split.
    + rewrite <- Hi. apply (append_item_chained _ _ _ _ hi); try done; [by rewrite Hw..|lia].
    + split; cbn -[absolute]; [done|apply absolute_push|done|lia].
    + intros q [->|Hq]%elem_of_cons; rewrite append_item_kinds.
      * rewrite decide_True by done. by rewrite Hk.
      * rewrite decide_False; [by apply Hb|]. intros <-. apply (ch_dom _ _ _ Hch) in Hq. rewrite Ho in Hq. by destruct Hq.
    + by rewrite Hr'.
Qed.

Lemma walking_catcher c s g names st hi :
  walking s g names st hi -> walking (Paths.set_catcher c s) g names st hi.
Proof. intros [[] ? ? ?]. by split. Qed.

(** What the loop catcher says at a symlink. *)
Lemma symlink_loop_spec p rest names' s :
  Paths.symlink_loop p rest [RootDir] names' s =
  match Paths.symlink_loop_catcher s !! p with
  | Some o => (s, bool_decide (o = absolute (names' ++ rest)))
  | None => (Paths.set_catcher (<[p := absolute (names' ++ rest)]> (Paths.symlink_loop_catcher s)) s, false)
  end.
Proof. unfold Paths.symlink_loop. by rewrite (absolute_push_all []). Qed.

Lemma round_symlink fs g names st hi n rest target names' s nw :
  walking s g names st hi -> CommonGenerator.path_rest g = n :: rest ->
  symlink_metadata fs (absolute (names ++ [n])) = Some FT_Symlink ->
  read_link fs (absolute (names ++ [n])) = Some target ->
  Paths.link_target (DirFileName.mk (absolute names) n) target = absolute names' ->
  let common := next_common g names st n rest in
  round_spec fs s g names st nw
    (let '(s, is_loop) := Paths.symlink_loop (absolute (names ++ [n])) rest [RootDir] names' s in
     if (is_loop : bool) then Paths.Break (s, nw)
     else
       let '(s, r) := Paths.get_or_add_symlink common s in
       let '(s, g, nw) := Paths.handle_branch_result (next_gen g names st n rest) r s nw in
       Paths.Continue (CommonGenerator.prepend_to_path_rest names' (CommonGenerator.set_path [RootDir] g)) s nw).
Proof.
  intros Hwk Hrest Hm Hl Ht common. rewrite symlink_loop_spec. set (q := absolute (names ++ [n])) in *.
  set (m := absolute (names' ++ rest)) in *.
  assert (link_state fs names n rest q m) as Hls by (split_and!; [done..|]; by exists target, names').
  assert (Hgo : forall s1, walking s1 g names st hi -> frame s s1 -> Paths.dirs s1 = Paths.dirs s ->
    (Paths.symlink_loop_catcher s1 = Paths.symlink_loop_catcher s \/
     Paths.symlink_loop_catcher s1 = <[q := m]> (Paths.symlink_loop_catcher s)) ->
    round_spec fs s g names st nw
      (let '(s, r) := Paths.get_or_add_symlink common s1 in
       let '(s, g, nw) := Paths.handle_branch_result (next_gen g names st n rest) r s nw in
       Paths.Continue (CommonGenerator.prepend_to_path_rest names' (CommonGenerator.set_path [RootDir] g)) s nw)).
  { intros s1 Hwk1 Hf1 Hd1 Hc1.
    pose proof (branch_step g names st hi n rest (Symlink common) s1 nw Hwk1 eq_refl eq_refl) as H.
    unfold Paths.get_or_add_symlink. destruct (Paths.get_or_add_branch_watched_file (Symlink common) s1) as [s2 r].
    destruct (Paths.handle_branch_result _ r s2 nw) as [[s3 g3] nw3].
    destruct H as (st' & hi' & [Hch Hg Hb Hr] & Hgrow & Hpr & Hcat). exists [], st', hi'. split_and!.
    - split; [done| |done|done]. destruct Hg. by split.
    - eapply grows_trans; [|exact Hgrow]. split_and!; [by exists []|done|by apply adds_refl].
    - rewrite Hrest. intros k res Hres. cbn. rewrite Hpr. by eapply resolves_symlink_inv.
    - rewrite Hcat. destruct Hc1 as [->| ->]; [by left|right]. by exists n, rest, q, m. }
  destruct (Paths.symlink_loop_catcher s !! q) as [o|] eqn:Ho.
  - case_bool_decide as Heq; [|apply Hgo; auto; done].
    subst o. destruct Hwk as [Hch Hg Hb Hr]. exists st, hi.
    split_and!; [done|split_and!; [by exists []|done|by apply adds_refl]|by left|right].
    split; [done|]. by exists n, rest, q, m.
  - apply Hgo; [by apply walking_catcher|done|done|by right].
Qed.

(** The round on the next item, in terms of the names. *)
Ltac open_round Hwk Hrest common :=
  unfold Paths.walk_body; rewrite (get_new_common_spec _ _ _ _ (wk_gen _ _ _ _ _ Hwk)), Hrest;
  match goal with |- context [next_common ?g ?names ?st ?n ?rest] =>
    set (common := next_common g names st n rest);
    change (Common.path common) with (absolute (names ++ [n]));
    change (Common.path_rest common) with rest;
    change (Common.dir_file_name common) with (DirFileName.mk (absolute names) n);
    change (DirFileName.as_path (DirFileName.mk (absolute names) n)) with (Path.push_name (absolute names) n);
    rewrite absolute_push
  end.

(** What a round does at a symlink. *)
Lemma walk_body_symlink fs g names st hi n rest target names' s nw :
  walking s g names st hi -> CommonGenerator.path_rest g = n :: rest ->
  symlink_metadata fs (absolute (names ++ [n])) = Some FT_Symlink ->
  read_link fs (absolute (names ++ [n])) = Some target ->
  Paths.link_target (DirFileName.mk (absolute names) n) target = absolute names' ->
  Paths.walk_body fs g s nw = Return
    (let '(s, is_loop) := Paths.symlink_loop (absolute (names ++ [n])) rest [RootDir] names' s in
     if (is_loop : bool) then Paths.Break (s, nw)
     else
       let '(s, r) := Paths.get_or_add_symlink (next_common g names st n rest) s in
       let '(s, g, nw) := Paths.handle_branch_result (next_gen g names st n rest) r s nw in
       Paths.Continue (CommonGenerator.prepend_to_path_rest names' (CommonGenerator.set_path [RootDir] g)) s nw).
Proof.
  intros Hwk Hrest Hm Hl Ht. open_round Hwk Hrest common.
  rewrite Hm, Hl, Ht, path_for_processing_absolute. cbn -[absolute Paths.symlink_loop].
  destruct (Paths.symlink_loop _ _ _ _ _) as [s1 []]; [done|].
  destruct (Paths.get_or_add_symlink common s1) as [s2 r].
  by destruct (Paths.handle_branch_result _ _ _ _) as [[s3 g3] nw3].
Qed.

#[export] Instance FileType_eq_dec : EqDecision FileType.
Proof. solve_decision. Defined.

(** A round that ends by adding the leaf [w] to [s0]. *)
Ltac leaf_round L w s0 :=
  let H := fresh in
  pose proof (fun Hk Hres => L w s0 eq_refl Hk Hres) as H;
  unfold Paths.add_regular, Paths.add_missing_regular, Paths.add_missing_directory;
  destruct (Paths.add_leaf_watched_file w s0);
  apply H; [first [by left|by right]|intros ? ? Hres; cbn; inversion Hres; congruence].

Lemma walk_body_spec fs s g names st hi nw :
  walking s g names st hi -> Returns (Paths.walk_body fs g s nw) (round_spec fs s g names st nw).
Proof.
  intros Hwk. pose proof Hwk as [Hch Hg Hb Hr].
  destruct (CommonGenerator.path_rest g) as [|n rest] eqn:Hrest.
  { unfold Paths.walk_body. rewrite (get_new_common_spec _ _ _ _ Hg), Hrest. cbn. exists st, hi.
    split_and!; [done|split_and!; [by exists []|done|by apply adds_refl]|by left|left].
    rewrite Hrest. intros k res Hres. inversion Hres. congruence. }
  assert (Hmissing : (forall k res, resolves fs names (n :: rest) k res -> res = None) ->
    round_spec fs s g names st nw (Paths.Break (Paths.add_missing (next_common g names st n rest) s nw))).
  { intros Hres. unfold Paths.add_missing. destruct (Common.is_leaf _).
    - apply (round_leaf fs g names st hi n rest (MissingRegular (next_common g names st n rest)) s s); auto.
    - apply (round_leaf fs g names st hi n rest (MissingDirectory (next_common g names st n rest)) s s); auto. }
  destruct (symlink_metadata fs (absolute (names ++ [n]))) as [ft|] eqn:Hm.
  2: { open_round Hwk Hrest common. rewrite Hm. cbn. apply Hmissing.
       intros k res Hres. inversion Hres; congruence. }
  destruct (decide (ft = FT_Symlink)) as [->|Hsym].
  { destruct (read_link fs (absolute (names ++ [n]))) as [target|] eqn:Hl.
    - destruct (link_target_absolute (DirFileName.mk (absolute names) n) target eq_refl) as [names' Ht].
      rewrite (walk_body_symlink fs g names st hi n rest target names') by done. by apply (round_symlink fs g names st hi n rest target).
    - open_round Hwk Hrest common. rewrite Hm, Hl. cbn. apply Hmissing.
      intros k res Hres. inversion Hres; congruence. }
  clear Hmissing. open_round Hwk Hrest common. rewrite Hm.
  assert (Hleaf : Common.is_leaf common = match rest with [] => true | _ => false end) by done.
  destruct rest as [|m rest]; rewrite Hleaf.
  - pose proof (fun w s0 => round_leaf fs g names st hi n [] w s s0 nw Hwk Hrest) as L.
    destruct ft; try done; cbn -[round_spec];
      [leaf_round L (Regular common) (Paths.set_real_file (Some (absolute (names ++ [n]))) s)
      |leaf_round L (MissingRegular common) s..].
  - pose proof (fun w s0 => round_leaf fs g names st hi n (m :: rest) w s s0 nw Hwk Hrest) as L.
    destruct ft; try done; cbn -[round_spec]; [leaf_round L (MissingDirectory common) s| |leaf_round L (MissingDirectory common) s].
    pose proof (branch_step g names st hi n (m :: rest) (Directory common) s nw Hwk eq_refl eq_refl) as H.
    unfold Paths.get_or_add_directory. destruct (Paths.get_or_add_branch_watched_file _ _) as [s' r].
    destruct (Paths.handle_branch_result _ _ _ _) as [[s3 g3] nw3]. cbn -[absolute].
    destruct H as (st' & hi' & Hwk' & Hgrow & Hpr & Hcat). exists (names ++ [n]), st', hi'.
    split_and!; [done|done| |by left]. rewrite Hrest, Hpr. intros k res Hres.
    inversion Hres; simplify_eq; try congruence. eauto.
Qed.

(** ** Whole walks *)
Lemma walk_spec fuel fs : forall s g names st hi nw,
  walking s g names st hi ->
  match Paths.walk fuel fs g s nw with
  | Done (s', nw') => exists st' hi', chained s' st' hi' /\ grows s st nw s' st' nw' /\ tidy s' st'
  | Panicked _ => False
  | OutOfFuel => True
  end.
Proof.
  induction fuel as [|fuel IH]; intros s g names st hi nw Hwk; [done|]. cbn.
  pose proof (walk_body_spec fs s g names st hi nw Hwk) as H. apply Returns_inv in H as (f & -> & H).
  destruct f as [[s' nw']|g' s' nw']; cbn in H.
  - destruct H as (st' & hi' & ? & ? & ? & _). eauto.
  - destruct H as (names' & st' & hi' & Hwk' & Hgrow & _).
    specialize (IH s' g' names' st' hi' nw' Hwk'). destruct (Paths.walk fuel fs g' s' nw') as [[s2 nw2]| |]; try done.
    destruct IH as (st2 & hi2 & ? & ? & ?). exists st2, hi2. split_and!; [done|by eapply grows_trans|done].
Qed.

(** Every entry of the loop catcher is a symlink met with more lookups left than [k]. *)
Definition caught (fs : FileSystem) (c : gmap path path) (k : nat) : Prop :=
  forall q m, c !! q = Some m -> exists names n rest k0 res0,
    link_state fs names n rest q m /\ resolves fs names (n :: rest) k0 res0 /\ (k < k0)%nat.

Lemma walk_resolves fs k : forall fuel s g names st hi nw res,
  walking s g names st hi -> resolves fs names (CommonGenerator.path_rest g) k res -> (k < fuel)%nat ->
  exists s' nw', Paths.walk fuel fs g s nw = Done (s', nw') /\
    (caught fs (Paths.symlink_loop_catcher s) k -> Paths.real_file s' = res).
Proof.
  induction k as [k IH] using lt_wf_ind. intros fuel s g names st hi nw res Hwk Hres Hfuel.
  destruct fuel as [|fuel]; [lia|]. cbn.
  pose proof (walk_body_spec fs s g names st hi nw Hwk) as H. apply Returns_inv in H as (f & -> & H).
  destruct f as [[s' nw']|g' s' nw']; cbn in H.
  - destruct H as (st' & hi' & _ & _ & _ & H). exists s', nw'. split; [done|]. intros Hc.
    destruct H as [H|(_ & n & rest & q & m & E & Hls & Hq)]; [by apply (H k)|].
    destruct (Hc q m Hq) as (names0 & n0 & rest0 & k0 & res0 & Hls0 & Hres0 & Hlt).
    destruct (link_state_inj _ _ _ _ _ _ _ _ _ Hls Hls0) as (<- & <- & <-).
    rewrite E in Hres. destruct (resolves_det _ _ _ _ _ _ _ Hres Hres0). lia.
  - destruct H as (names' & st' & hi' & Hwk' & _ & Hstep & Hcat).
    destruct (Hstep k res Hres) as (k' & -> & Hres').
    destruct (IH k' ltac:(lia) fuel s' g' names' st' hi' nw' res Hwk' Hres' ltac:(lia)) as (s2 & nw2 & E & Hreal).
    exists s2, nw2. split; [done|]. intros Hc. apply Hreal. intros q m Hqm.
    assert (Paths.symlink_loop_catcher s !! q = Some m \/
            exists n rest, CommonGenerator.path_rest g = n :: rest /\ link_state fs names n rest q m) as [Hold|(n & rest & Er & Hls)].
    { destruct Hcat as [Ec|(n & rest & q0 & m0 & Er & Hls & Ec)]; rewrite Ec in Hqm; [by left|].
      apply lookup_insert_Some in Hqm as [[<- <-]|[_ ?]]; [right|by left]. by exists n, rest. }
    + destruct (Hc q m Hold) as (names0 & n0 & rest0 & k0 & res0 & ? & ? & ?).
      exists names0, n0, rest0, k0, res0. split_and!; try done. lia.
    + rewrite Er in Hres. exists names, n, rest, (S k'), res. split_and!; try done. lia.
Qed.

(** *** Starting a walk *)
Lemma start_walking s args st hi names :
  chained s st hi -> branches s st -> pa_path args = absolute names -> pa_prev args = head st ->
  (hi <= pa_index args)%nat ->
  walking (Paths.set_real_file None s) (CommonGenerator.new args) names st hi.
Proof. intros [] Hb Hp Hpr Hi. split; [by split| |done|done]. by split. Qed.

Lemma new_chained start : chained (Paths.new start) [] 0.
Proof.
  split; cbn; [constructor| |done|].
  - intros p. rewrite lookup_empty, elem_of_nil. split; [by intros []|done].
  - intros d. cbn. lia.
Qed.

(** The first walk of a watcher finds what the path resolves to.  Whenever the resolution of
    the path ends, in [k] lookups, the walk ends too, without a panic and with no symlink
    taken for a loop by mistake; the real file is the regular file the path resolves to, if
    any; the items form a chain whose directories are all counted; and the new watches are the
    counted directories, each once. *)
Theorem first_walk_resolves fs names k res fuel :
  resolves fs [] names k res -> (k < fuel)%nat ->
  exists s nw st hi, Paths.generate_watch_paths fuel fs (Paths.new (absolute names)) = Done (s, nw) /\
    Paths.real_file s = res /\ chained s st hi /\ NoDup nw /\ dom (Paths.dirs s) = list_to_set nw.
Proof.
  intros Hres Hk. unfold Paths.generate_watch_paths, Paths.process_path. cbn [Paths.start_path Paths.new].
  rewrite path_for_processing_absolute. set (args := mkProcessPathArgs [RootDir] names 0 None).
  assert (walking (Paths.set_real_file None (Paths.new (absolute names))) (CommonGenerator.new args) [] [] 0) as Hwk.
  { apply start_walking; [apply new_chained|by intros q ?%not_elem_of_nil|done|done|done]. }
  destruct (walk_resolves fs k fuel _ _ _ _ _ [] res Hwk Hres Hk) as (s & nw & E & Hreal).
  pose proof (walk_spec fuel fs _ _ _ _ _ [] Hwk) as H. rewrite E in H.
  destruct H as (st & hi & Hch & (_ & _ & ds & Hnw & Hnd & _ & Hdom) & _). cbn in Hnw. subst ds.
  exists s, nw, st, hi. split_and!; [done| |done|done|].
  - apply Hreal. intros q m Hq. cbn in Hq. by rewrite lookup_empty in Hq.
  - rewrite Hdom. cbn. rewrite dom_empty_L. set_solver.
Qed.

(** ** Walks that do not end *)

(** A symlink whose target goes through the link itself, such as [/a -> /a/b], makes a walk
    through it go on forever: the loop catcher compares the merged path with the one of the
    first visit, and that path grows by [b] in every round. *)
Theorem symlink_through_itself_diverges fs a e rest fuel :
  symlink_metadata fs (absolute [a]) = Some FT_Symlink ->
  read_link fs (absolute [a]) = Some (absolute (a :: e)) -> e <> [] ->
  Paths.generate_watch_paths fuel fs (Paths.new (absolute (a :: rest))) = OutOfFuel.
Proof.
  intros Hm Hl He.
  assert (Ht : Paths.link_target (DirFileName.mk (absolute []) a) (absolute (a :: e)) = absolute (a :: e)) by apply simplify_id.
  assert (Hwalk : forall fuel s g st hi nw r,
    walking s g [] st hi -> CommonGenerator.path_rest g = a :: r ->
    (forall m, Paths.symlink_loop_catcher s !! absolute [a] = Some m ->
       exists r0, m = absolute ((a :: e) ++ r0) /\ (length r0 < length r)%nat) ->
    Paths.walk fuel fs g s nw = OutOfFuel).
  { clear fuel. induction fuel as [|fuel IH]; intros s g st hi nw r Hwk Hr Hcat; [done|]. cbn [Paths.walk].
    rewrite (walk_body_symlink fs g [] st hi a r _ (a :: e) s nw Hwk Hr Hm Hl Ht), symlink_loop_spec.
    change ([] ++ [a]) with [a].
    assert (Hgo : forall s1, walking s1 g [] st hi ->
      (forall m, Paths.symlink_loop_catcher s1 !! absolute [a] = Some m ->
         exists r0, m = absolute ((a :: e) ++ r0) /\ (length r0 < length (e ++ r))%nat) ->
      match (let '(s, b) := Paths.get_or_add_symlink (next_common g [] st a r) s1 in
             let '(s, g, nw) := Paths.handle_branch_result (next_gen g [] st a r) b s nw in
             Paths.Continue (CommonGenerator.prepend_to_path_rest (a :: e) (CommonGenerator.set_path [RootDir] g)) s nw) with
      | Paths.Break x => Done x
      | Paths.Continue g s nw => Paths.walk fuel fs g s nw
      end = OutOfFuel).
    { intros s1 Hwk1 Hcat1.
      pose proof (branch_step g [] st hi a r (Symlink (next_common g [] st a r)) s1 nw Hwk1 eq_refl eq_refl) as H.
      unfold Paths.get_or_add_symlink. destruct (Paths.get_or_add_branch_watched_file _ s1) as [s2 b].
      destruct (Paths.handle_branch_result _ b s2 nw) as [[s3 g3] nw3].
      destruct H as (st' & hi' & [Hch Hg Hb Hr'] & _ & Hpr & Hc3).
      apply (IH s3 _ st' hi' nw3 (e ++ r)).
      - split; [done| |done|done]. destruct Hg. by split.
      - cbn. by rewrite Hpr.
      - by rewrite Hc3. }
    destruct (Paths.symlink_loop_catcher s !! absolute [a]) as [m|] eqn:Em.
    - destruct (Hcat m eq_refl) as (r0 & -> & Hlt). rewrite bool_decide_eq_false_2.
      + apply Hgo; [done|]. rewrite Em. intros m [= <-]. exists r0. split; [done|]. rewrite length_app. lia.
      + intros E%absolute_inj%app_inv_head. subst. lia.
    - apply Hgo; [by apply walking_catcher|]. cbn -[absolute]. rewrite lookup_insert_eq. intros m [= <-].
      exists r. split; [done|]. rewrite length_app. destruct e; [done|]. cbn. lia. }
  unfold Paths.generate_watch_paths, Paths.process_path. cbn [Paths.start_path Paths.new].
  rewrite path_for_processing_absolute. apply (Hwalk fuel _ _ [] 0%nat [] rest).
  - apply start_walking; [apply new_chained|by intros q ?%not_elem_of_nil|done|done|done].
  - done.
  - intros m Hmm. cbn in Hmm. by rewrite lookup_empty in Hmm.
Qed.
