(* ===== verification/FileWatcherEvents.v ===== *)
(** * Events of the file watcher

    The reactions of the file watcher keep its state consistent: the watched items stay a
    simple chain, the directories watched with the operating system are the ones counted, and
    the callbacks see the file appear, change and disappear in a sensible order.  The
    definitions are in [FileWatcher.v]; what a walk does is in [FileWatcherProofs.v]. *)

From S2P Require Import Prelude FileWatcher FileWatcherProofs.
Local Open Scope string_scope.
Local Open Scope list_scope.

(** ** Dropping watches *)

(** The state while the items after [x], which has just been dropped, are dropped one by one:
    [back] stays, [front] is still to go (last item first). *)
Record dropping (s : Paths.t) (front : list path) (x : path) (back : list path) (hi : nat) : Prop := {
  dr_nodup : NoDup (front ++ back);
  dr_gone : (x ∉ front ++ back);
  dr_dom : forall p, is_Some (Paths.paths s !! p) <-> p ∈ front ++ back;
  dr_back : segment (Paths.paths s) None None hi back;
  dr_front : exists hi', segment (Paths.paths s) (Some x) None hi' front;
  dr_dirs : forall d, (count_in d (front ++ back) <= default 0 (Paths.dirs s !! d))%nat;
  dr_real : Paths.real_file s = None;
}.

(** What dropping a watch does to the directories: [o] is the one to stop watching. *)
Definition removes (s : Paths.t) (o : option path) (s' : Paths.t) : Prop :=
  match o with
  | Some d => d ∈ dom (Paths.dirs s) /\ dom (Paths.dirs s') = dom (Paths.dirs s) ∖ {[d]}
  | None => dom (Paths.dirs s') = dom (Paths.dirs s)
  end.

Lemma count_in_app d l k : count_in d (l ++ k) = (count_in d l + count_in d k)%nat.
Proof. unfold count_in. by rewrite filter_app, length_app. Qed.

(** Cutting the link of the item before. *)
Definition cut (prev : option path) (m : gmap path WatchedFile) : gmap path WatchedFile :=
  match prev with
  | Some q => match m !! q with Some w => <[q := update_common (Common.set_next None) w]> m | None => m end
  | None => m
  end.

Lemma unlink_spec prev s :
  Paths.paths (Paths.unlink prev s) = cut prev (Paths.paths s) /\ Paths.dirs (Paths.unlink prev s) = Paths.dirs s /\
  frame s (Paths.unlink prev s) /\ Paths.real_file (Paths.unlink prev s) = Paths.real_file s.
Proof.
  unfold Paths.unlink, cut. destruct prev as [q|]; [|done]. by destruct (Paths.paths s !! q).
Qed.

Lemma drop_watch_spec p w s n :
  Paths.paths s !! p = Some w -> item_ok p w -> Paths.dirs s !! dir_of p = Some n ->
  let '(s', o) := Paths.drop_watch p s in
  Paths.paths s' = cut (Common.prev (get_common w)) (delete p (Paths.paths s)) /\
  removes s o s' /\ frame s s' /\ Paths.real_file s' = None /\
  (forall d, default 0%nat (Paths.dirs s' !! d) = (default 0 (Paths.dirs s !! d) - (if decide (dir_of p = d) then 1 else 0))%nat).
Proof.
  intros Hp Hok Hc. unfold Paths.drop_watch. rewrite Hp, (item_dir p w Hok). unfold Paths.count_down.
  change (Paths.dirs (Paths.set_paths _ _)) with (Paths.dirs s). rewrite Hc.
  assert (Hdom : dir_of p ∈ dom (Paths.dirs s)) by (apply elem_of_dom; eauto).
  destruct (Nat.eqb_spec (pred n) 0) as [H0|H0].
  all: match goal with |- Paths.paths (Paths.unlink ?prev ?s0) = _ /\ _ =>
    destruct (unlink_spec prev s0) as (-> & H2 & H3 & ->) end; cbn -[delete] in H2.
  all: split_and!; [done| |exact H3|done|]; cbn -[delete] in *; rewrite H2.
  - split; [done|]. rewrite dom_delete_L, dom_insert_L. set_solver.
  - intros d. destruct (decide (dir_of p = d)) as [<-|Hne].
    + rewrite lookup_delete_eq, Hc. cbn. lia.
    + rewrite lookup_delete_ne, lookup_insert_ne by done. lia.
  - rewrite dom_insert_L. set_solver.
  - intros d. destruct (decide (dir_of p = d)) as [<-|Hne].
    + rewrite lookup_insert_eq, Hc. cbn. lia.
    + rewrite lookup_insert_ne by done. lia.
Qed.

Lemma segment_elem m base next hi st p :
  segment m base next hi st -> p ∈ st -> exists w, m !! p = Some w /\ item_ok p w.
Proof.
  revert next hi. induction st as [|x st IH]; intros next hi; [by intros _ ?%not_elem_of_nil|].
  intros (w & Hw & Hok & _ & _ & _ & Hs) [->|Hin]%elem_of_cons; [by exists w|by eapply IH].
Qed.

Lemma counted d l (dirs : gmap path nat) :
  (count_in d l <= default 0 (dirs !! d))%nat -> (exists p, p ∈ l /\ dir_of p = d) -> is_Some (dirs !! d).
Proof.
  intros Hc (p & Hp & Hd). destruct (dirs !! d); [by eexists|]. cbn in Hc. exfalso.
  assert (p ∈ filter (fun p => dir_of p = d) l) as Hin by (by apply list_elem_of_filter).
  unfold count_in in Hc. destruct (filter _ l); [by apply not_elem_of_nil in Hin|cbn in Hc; lia].
Qed.

Lemma segment_delete m base next hi st x :
  (x ∉ st) -> segment m base next hi st -> segment (delete x m) base next hi st.
Proof. intros Hx. apply segment_ext. intros p Hp. apply lookup_delete_ne. set_solver. Qed.

Lemma is_Some_insert_same {A} (m : gmap path A) q w w' p :
  m !! q = Some w -> is_Some (<[q := w']> m !! p) <-> is_Some (m !! p).
Proof.
  intros Hq. destruct (decide (q = p)) as [<-|?]; [rewrite lookup_insert_eq, Hq|by rewrite lookup_insert_ne].
  split; intros _; by eexists.
Qed.

Lemma cut_dom prev m p : is_Some (cut prev m !! p) <-> is_Some (m !! p).
Proof.
  unfold cut. destruct prev as [q|]; [|done]. destruct (m !! q) eqn:E; [|done]. by eapply is_Some_insert_same.
Qed.

Lemma cut_ne prev m p : Some p <> prev -> cut prev m !! p = m !! p.
Proof.
  intros Hne. unfold cut. destruct prev as [q|]; [|done]. destruct (m !! q); [|done].
  apply lookup_insert_ne. congruence.
Qed.

(** Cutting the link to what comes after a segment. *)
Lemma segment_cut m next hi st :
  NoDup st -> segment m None next hi st -> segment (cut (head st) m) None None hi st.
Proof.
  destruct st as [|q st]; intros Hnd Hs; [done|]. apply NoDup_cons in Hnd as [Hq _].
  unfold cut. cbn [head]. pose proof Hs as (w & Hw & _). rewrite Hw. by eapply segment_set_next.
Qed.

Lemma count_drop (dirs dirs' : gmap path nat) p (l l' : list path) :
  (forall d, default 0%nat (dirs' !! d) = (default 0 (dirs !! d) - (if decide (dir_of p = d) then 1 else 0))%nat) ->
  l ≡ₚ p :: l' ->
  (forall d, (count_in d l <= default 0 (dirs !! d))%nat) -> (forall d, (count_in d l' <= default 0 (dirs' !! d))%nat).
Proof.
  intros Hd Hp Hl d. specialize (Hl d). specialize (Hd d).
  assert (count_in d l = count_in d (p :: l')) as E by (unfold count_in; by rewrite Hp).
  rewrite E, count_in_cons in Hl. rewrite Hd. case_decide; lia.
Qed.

Lemma drop_start s front x back hi w :
  chained s (front ++ x :: back) hi -> Paths.paths s !! x = Some w ->
  let '(s', o) := Paths.drop_watch x s in
  dropping s' front x back (Common.index (get_common w)) /\ removes s o s' /\ frame s s'.
Proof.
  intros [Hnd Hdom Hseg Hdirs] Hw.
  pose proof (segment_app _ _ _ _ _ _ _ Hseg) as (Hfront & hi' & _ & w' & Hw' & Hok & _ & Hprev & _ & Hback).
  rewrite Hw in Hw'. injection Hw' as <-.
  apply NoDup_app in Hnd as (Hnf & Hdis & Hnb). apply NoDup_cons in Hnb as [Hxb Hnb].
  assert (x ∉ front) as Hxf by (intros ?; by apply (Hdis x); [|left]).
  destruct (counted (dir_of x) (front ++ x :: back) (Paths.dirs s) (Hdirs _)) as [n Hn]; [exists x; set_solver|].
  pose proof (drop_watch_spec x w s n Hw Hok Hn) as H. destruct (Paths.drop_watch x s) as [s' o].
  destruct H as (Hpaths & Hrem & Hframe & Hreal & Hd). split_and!; [|done|done].
  assert (Hpv : Common.prev (get_common w) = head back) by (by rewrite Hprev; destruct back).
  split.
  - apply NoDup_app. split_and!; [done| |done]. intros p ? ?. by apply (Hdis p); [|right].
  - by apply not_elem_of_app.
  - intros p. rewrite Hpaths, cut_dom. destruct (decide (p = x)) as [->|Hne].
    + rewrite lookup_delete_eq. split; [by intros []|]. intros [?|?]%elem_of_app; done.
    + rewrite lookup_delete_ne, Hdom by done. rewrite !elem_of_app, elem_of_cons. naive_solver.
  - rewrite Hpaths, Hpv. eapply segment_cut; [done|]. by apply segment_delete.
  - exists hi. rewrite Hpaths, Hpv. eapply segment_ext; [|by apply segment_delete].
    intros p Hp. apply cut_ne. intros E. destruct back as [|q back]; [done|]. injection E as ->.
    apply (Hdis q); [done|]. right. left.
  - eapply (count_drop (Paths.dirs s) _ x); [exact Hd| |exact Hdirs]. by rewrite Permutation_middle.
  - done.
Qed.

Lemma drop_next s front y x back hi :
  dropping s (front ++ [y]) x back hi ->
  let '(s', o) := Paths.drop_watch y s in
  dropping s' front y back hi /\ removes s o s' /\ frame s s'.
Proof.
  intros [Hnd Hgone Hdom Hback [hi' Hfront] Hdirs _].
  pose proof (segment_app _ _ _ _ _ _ _ Hfront) as (Hfr & hi2 & _ & w & Hw & Hok & _ & Hprev & _ & _).
  rewrite <- app_assoc in Hnd, Hgone, Hdirs. cbn in Hnd, Hgone, Hdirs.
  apply NoDup_app in Hnd as (Hnf & Hdis & Hnb). apply NoDup_cons in Hnb as [Hyb Hnb].
  assert (y ∉ front) as Hyf by (intros ?; by apply (Hdis y); [|left]).
  destruct (counted (dir_of y) (front ++ y :: back) (Paths.dirs s) (Hdirs _)) as [n Hn]; [exists y; set_solver|].
  pose proof (drop_watch_spec y w s n Hw Hok Hn) as H. destruct (Paths.drop_watch y s) as [s' o].
  destruct H as (Hpaths & Hrem & Hframe & Hreal & Hd). split_and!; [|done|done].
  assert (Paths.paths s' = delete y (Paths.paths s)) as Hpaths'.
  { rewrite Hpaths, Hprev. unfold cut. destruct (delete y (Paths.paths s) !! x) eqn:E; [|done]. exfalso.
    apply lookup_delete_Some in E as [Hne E].
    assert (x ∈ (front ++ [y]) ++ back) as Hx by (apply Hdom; eauto).
    rewrite <- app_assoc in Hx. done. }
  split.
  - apply NoDup_app. split_and!; [done| |done]. intros p ? ?. by apply (Hdis p); [|right].
  - by apply not_elem_of_app.
  - intros p. rewrite Hpaths'. destruct (decide (p = y)) as [->|Hne].
    + rewrite lookup_delete_eq. split; [by intros []|]. intros [?|?]%elem_of_app; done.
    + rewrite lookup_delete_ne, Hdom by done. rewrite !elem_of_app, list_elem_of_singleton. naive_solver.
  - rewrite Hpaths'. by apply segment_delete.
  - exists hi'. rewrite Hpaths'. by apply segment_delete.
  - eapply (count_drop (Paths.dirs s) _ y); [exact Hd| |exact Hdirs]. by rewrite Permutation_middle.
  - done.
Qed.

Lemma dropping_done s x back hi : dropping s [] x back hi -> chained s back hi.
Proof. by intros []. Qed.

Lemma drop_watch_kinds p q s : q <> p -> kinds (Paths.drop_watch p s).1 q = kinds s q.
Proof.
  intros Hne. unfold kinds, Paths.drop_watch. destruct (Paths.paths s !! p) as [w|]; [|done].
  destruct (Paths.count_down _ _) as [s1 b] eqn:E1. cbn -[delete].
  assert (Paths.paths s1 = delete p (Paths.paths s)) as Hs1.
  { unfold Paths.count_down in E1. destruct (Paths.dirs _ !! _); by injection E1 as <- <-. }
  assert (forall prev s0, Paths.paths s0 = delete p (Paths.paths s) ->
    kind <$> Paths.paths (Paths.unlink prev s0) !! q = kind <$> Paths.paths s !! q) as H.
  { intros prev s0 E. destruct (unlink_spec prev s0) as (-> & _). rewrite E.
    rewrite <- (lookup_delete_ne (Paths.paths s) p q) by done. unfold cut.
    destruct prev as [x|]; [|done]. destruct (delete p (Paths.paths s) !! x) as [wx|] eqn:Ex; [|done].
    destruct (decide (x = q)) as [<-|?]; [|by rewrite lookup_insert_ne].
    rewrite lookup_insert_eq, Ex. cbn. by rewrite kind_update. }
  destruct b; cbn -[delete]; apply H; done.
Qed.

(** [drop_common] drops an item and all after it, in order. *)
Lemma drop_chain_segment s base hi front : forall fuel x back,
  segment (Paths.paths s) base None hi (front ++ x :: back) -> (length front < fuel)%nat ->
  FileWatcher.drop_chain fuel s (Some x) = Done (DropWatch <$> x :: rev front).
Proof.
  induction front as [|y front IH] using rev_ind; intros fuel x back Hs Hf.
  - destruct Hs as (w & Hw & _ & Hn & _). destruct fuel as [|fuel]; [cbn in Hf; lia|]. cbn. rewrite Hw, Hn. by destruct fuel.
  - pose proof (segment_app _ _ _ _ _ _ _ Hs) as (_ & hi' & _ & w & Hw & _ & Hn & _).
    rewrite last_snoc in Hn. rewrite length_app in Hf. cbn in Hf. destruct fuel as [|fuel]; [lia|]. cbn [FileWatcher.drop_chain].
    rewrite Hw, Hn, (IH fuel y (x :: back)); [|by rewrite <- app_assoc in Hs|lia]. cbn. by rewrite rev_app_distr.
Qed.

Lemma chained_size s st hi : chained s st hi -> size (Paths.paths s) = length st.
Proof.
  intros [Hnd Hdom _ _]. rewrite <- size_dom.
  assert (dom (Paths.paths s) = list_to_set st) as ->.
  { apply set_eq. intros p. rewrite elem_of_dom, elem_of_list_to_set. apply Hdom. }
  by apply size_list_to_set.
Qed.

Lemma drop_chain_chained s front x back hi :
  chained s (front ++ x :: back) hi ->
  FileWatcher.drop_chain (S (size (Paths.paths s))) s (Some x) = Done (DropWatch <$> x :: rev front).
Proof.
  intros Hch. eapply drop_chain_segment; [apply (ch_links _ _ _ Hch)|].
  rewrite (chained_size _ _ _ Hch), length_app. lia.
Qed.

(** ** The consistent states *)

(** The directories watched with the operating system. *)
Definition watched (log : list WatcherCall) : gset path :=
  foldl (fun s c => match c with W_watch d => s ∪ {[d]} | W_unwatch d => s ∖ {[d]} end) ∅ log.

(** What the callbacks may see: the file appears when it is not there, changes while it is
    there and then disappears. *)
Fixpoint protocol (cur : option path) (log : list Callback) : option (option path) :=
  match log with
  | [] => Some cur
  | CB_file_appeared p :: log => match cur with None => protocol (Some p) log | Some _ => None end
  | CB_file_modified p :: log => if decide (cur = Some p) then protocol cur log else None
  | CB_file_disappeared p :: log => if decide (cur = Some p) then protocol None log else None
  | CB_event_in_directories _ :: log => protocol cur log
  end.

Lemma protocol_app cur l k : protocol cur (l ++ k) = (c ← protocol cur l; protocol c k).
Proof.
  revert cur. induction l as [|[] l IH]; intros cur; cbn; [done|..]; try apply IH.
  - destruct cur; [done|apply IH].
  - case_decide; [apply IH|done].
  - case_decide; [apply IH|done].
Qed.

(** Arguments for a walk that goes on from the end of the chain. *)
Definition args_ok (s : Paths.t) (st : list path) (hi : nat) (a : ProcessPathArgs) : Prop :=
  branches s st /\ Paths.real_file s = None /\ pa_prev a = head st /\ (hi <= pa_index a)%nat /\
  exists names, pa_path a = absolute names.

(** The calls that the actions of a list will make by themselves. *)
Definition notes (l : list PathsAction) : list Callback :=
  omap (fun a => match a with
                 | NotifyFileAppeared p => Some (CB_file_appeared p)
                 | NotifyFileModified p => Some (CB_file_modified p)
                 | NotifyFileDisappeared p => Some (CB_file_disappeared p)
                 | _ => None
                 end) l.

(** The state between the actions [q]. *)
Record inv_with (q : list PathsAction) (self : FileWatcher.t) (st : list path) (hi : nat) : Prop := {
  inv_chain : chained (FileWatcher.paths self) st hi;
  inv_tidy : tidy (FileWatcher.paths self) st;
  inv_watch : watched (FileWatcher.watcher self) = dom (Paths.dirs (FileWatcher.paths self));
  inv_calls : protocol None (FileWatcher.callbacks self ++
                match FileWatcher.initial_real_file self with Some p => [CB_file_appeared p] | None => [] end ++ notes q) =
              Some (Paths.real_file (FileWatcher.paths self));
  inv_start : exists names, Paths.start_path (FileWatcher.paths self) = absolute names;
  inv_args : forall a, Paths.process_args_after_settle (FileWatcher.paths self) = Some a ->
    args_ok (FileWatcher.paths self) st hi a;
}.

Definition inv (self : FileWatcher.t) : Prop := exists st hi, inv_with [] self st hi.

(** ** Performing actions *)

(** The path of the arguments resolves with fewer than [fuel] lookups. *)
Definition walk_ends (fs : FileSystem) (fuel : nat) (a : ProcessPathArgs) : Prop :=
  exists names k res, pa_path a = absolute names /\ resolves fs names (pa_path_rest a) k res /\ (k < fuel)%nat.

Section actions.
  Context (fuel : nat) (out : Outside) (cand : ProcessPathArgs -> Prop).

(** A run of actions: it does not panic, the only errors are those of the watcher, and it comes
    to an end unless some walk does not. *)
Definition ends (c : run (FileWatcher.t * result WatcherError unit)) (P : FileWatcher.t -> Prop) : Prop :=
  match c with
  | Done (self, Ok _) => P self
  | Done (_, Err e) => exists n, e = NotifyError n
  | Panicked _ => False
  | OutOfFuel => ~ forall a, cand a -> walk_ends (fs out) fuel a
  end.

Definition steps (c : run (FileWatcher.t * result WatcherError (list PathsAction)))
    (P : FileWatcher.t -> list PathsAction -> Prop) : Prop :=
  match c with
  | Done (self, Ok l) => P self l
  | Done (_, Err e) => exists n, e = NotifyError n
  | Panicked _ => False
  | OutOfFuel => ~ forall a, cand a -> walk_ends (fs out) fuel a
  end.

(** Performing [l] from [self] ends in [P]. *)
Definition plays (l : list PathsAction) (self : FileWatcher.t) (P : FileWatcher.t -> Prop) : Prop :=
  forall rounds, (FileWatcher.total_weight l <= rounds)%nat -> ends (FileWatcher.perform_all rounds fuel out l self) P.

Lemma plays_nil self (P : FileWatcher.t -> Prop) : P self -> plays [] self P.
Proof. intros HP rounds _. by destruct rounds. Qed.

(** The weight of the list goes down. *)
Lemma handle_process_path_short self :
  match FileWatcher.handle_process_path fuel out self with Done (_, Ok l) => (FileWatcher.total_weight l <= 1)%nat | _ => True end.
Proof.
  unfold FileWatcher.handle_process_path. destruct (Paths.process_path_or_defer_if_unsettled _ _ _) as [[ps o]| |]; cbn; try done.
  destruct o as [ds|]; [|cbn; lia]. destruct (FileWatcher.watch_all _ _ _) as [s [|]]; [|done].
  destruct (Paths.real_file _); cbn; lia.
Qed.

Lemma total_weight_app l k : FileWatcher.total_weight (l ++ k) = (FileWatcher.total_weight l + FileWatcher.total_weight k)%nat.
Proof. apply sum_list_with_app. Qed.

Lemma perform_weight a l self :
  match FileWatcher.perform fuel out a l self with
  | Done (_, Ok l') => (FileWatcher.total_weight l' < FileWatcher.total_weight (a :: l))%nat
  | _ => True
  end.
Proof.
  destruct a; cbn -[FileWatcher.total_weight]; try (unfold FileWatcher.total_weight; cbn; lia).
  - destruct (Paths.drop_watch p (FileWatcher.paths self)) as [ps [d|]]; [|unfold FileWatcher.total_weight; cbn; lia].
    destruct (FileWatcher.unwatch _ _ _) as [s [|]]; [unfold FileWatcher.total_weight; cbn; lia|done].
  - pose proof (handle_process_path_short (FileWatcher.set_paths (Paths.settle_path p (FileWatcher.paths self)) self)) as H.
    destruct (FileWatcher.handle_process_path _ _ _) as [[s [k|]]| |]; try done. cbn -[FileWatcher.total_weight].
    rewrite total_weight_app. unfold FileWatcher.total_weight in *. cbn. lia.
  - pose proof (handle_process_path_short (FileWatcher.set_paths (Paths.set_process_args args (FileWatcher.paths self)) self)) as H.
    destruct (FileWatcher.handle_process_path _ _ _) as [[s [k|]]| |]; try done. cbn -[FileWatcher.total_weight].
    rewrite total_weight_app. unfold FileWatcher.total_weight in *. cbn. lia.
  - destruct (FileWatcher.unwatch_all _ _ _) as [s [|]]; [|done].
    destruct (Paths.path_for_processing _); [|done]. destruct (Paths.real_file _); unfold FileWatcher.total_weight; cbn; lia.
Qed.

Lemma plays_cons a l self P :
  steps (FileWatcher.perform fuel out a l self) (fun self' l' => plays l' self' P) -> plays (a :: l) self P.
Proof.
  intros H rounds Hr. destruct rounds as [|rounds].
  { exfalso. destruct a; unfold FileWatcher.total_weight in Hr; cbn in Hr; lia. }
  cbn [FileWatcher.perform_all]. pose proof (perform_weight a l self) as Hw.
  destruct (FileWatcher.perform fuel out a l self) as [[s [l'|e]]| |]; cbn in *; try done.
  apply H. lia.
Qed.

(** *** Calls of the watcher *)
Lemma watch_all_spec ds : forall self,
  let '(self', r) := FileWatcher.watch_all out ds self in
  FileWatcher.callbacks self' = FileWatcher.callbacks self /\ FileWatcher.paths self' = FileWatcher.paths self /\
  FileWatcher.initial_real_file self' = FileWatcher.initial_real_file self /\
  match r with
  | Ok _ => watched (FileWatcher.watcher self') = watched (FileWatcher.watcher self) ∪ list_to_set ds
  | Err e => exists n, e = NotifyError n
  end.
Proof.
  induction ds as [|d ds IH]; intros self; cbn; [split_and!; [done..|set_solver]|].
  destruct (watch_answer out d) as [n|]; [by eauto|].
  specialize (IH (FileWatcher.call_watcher (W_watch d) self)). destruct (FileWatcher.watch_all out ds _) as [self' r].
  destruct IH as (H1 & H2 & H3 & H4). split_and!; [done..|]. destruct r; [|done]. rewrite H4. cbn.
  unfold watched. rewrite foldl_app. cbn. set_solver.
Qed.

Lemma unwatch_spec d self :
  let '(self', r) := FileWatcher.unwatch out d self in
  FileWatcher.callbacks self' = FileWatcher.callbacks self /\ FileWatcher.paths self' = FileWatcher.paths self /\
  FileWatcher.initial_real_file self' = FileWatcher.initial_real_file self /\
  watched (FileWatcher.watcher self') = watched (FileWatcher.watcher self) ∖ {[d]} /\
  match r with Ok _ => True | Err e => exists n, e = NotifyError n end.
Proof.
  unfold FileWatcher.unwatch. destruct (unwatch_answer out d) as [[]|]; cbn; split_and!; eauto;
    unfold watched; by rewrite foldl_app.
Qed.

Lemma unwatch_all_spec ds : forall self,
  let '(self', r) := FileWatcher.unwatch_all out ds self in
  FileWatcher.callbacks self' = FileWatcher.callbacks self /\ FileWatcher.paths self' = FileWatcher.paths self /\
  FileWatcher.initial_real_file self' = FileWatcher.initial_real_file self /\
  match r with
  | Ok _ => watched (FileWatcher.watcher self') = watched (FileWatcher.watcher self) ∖ list_to_set ds
  | Err e => exists n, e = NotifyError n
  end.
Proof.
  induction ds as [|d ds IH]; intros self; cbn; [split_and!; [done..|set_solver]|].
  pose proof (unwatch_spec d self) as H. destruct (FileWatcher.unwatch out d self) as [s1 [|e]];
    destruct H as (H1 & H2 & H3 & H4 & H5); [|done].
  specialize (IH s1). destruct (FileWatcher.unwatch_all out ds s1) as [self' r].
  destruct IH as (I1 & I2 & I3 & I4). split_and!; [congruence..|]. destruct r; [|done]. rewrite I4, H4. set_solver.
Qed.

(** *** Processing the path *)
Lemma protocol_snoc_appeared log p : protocol None log = Some None -> protocol None (log ++ [CB_file_appeared p]) = Some (Some p).
Proof. intros H. rewrite protocol_app, H. done. Qed.

Lemma notes_app l k : notes (l ++ k) = notes l ++ notes k.
Proof. apply omap_app. Qed.

(** The walk of arguments that are fine. *)
Lemma process_path_spec s st hi a :
  chained s st hi -> args_ok s st hi a -> cand a ->
  match Paths.process_path fuel (fs out) a s with
  | Done (s', nw) => exists st' hi', chained s' st' hi' /\ grows (Paths.set_real_file None s) st [] s' st' nw /\ tidy s' st'
  | Panicked _ => False
  | OutOfFuel => ~ forall a, cand a -> walk_ends (fs out) fuel a
  end.
Proof.
  intros Hch (Hb & Hr & Hp & Hi & names & Hn) Hc. unfold Paths.process_path.
  pose proof (start_walking s a st hi names Hch Hb Hn Hp Hi) as Hwk.
  pose proof (walk_spec fuel (fs out) _ _ _ _ _ [] Hwk) as H.
  destruct (Paths.walk fuel (fs out) _ _ _) as [[s' nw]| |] eqn:E; try done.
  intros HT. destruct (HT a Hc) as (names' & k & res & Hn' & Hres & Hk).
  assert (names' = names) as -> by (apply absolute_inj; congruence).
  destruct (walk_resolves (fs out) k fuel _ _ _ _ _ [] res Hwk Hres Hk) as (? & ? & E' & _). congruence.
Qed.

Lemma handle_process_spec q self st hi :
  inv_with q self st hi -> FileWatcher.initial_real_file self = None ->
  (forall a, Paths.process_args_after_settle (FileWatcher.paths self) = Some a -> cand a) ->
  steps (FileWatcher.handle_process_path fuel out self) (fun self' l =>
    exists st' hi', inv_with (q ++ l) self' st' hi' /\ FileWatcher.initial_real_file self' = None /\
      (forall a, Paths.process_args_after_settle (FileWatcher.paths self') = Some a -> cand a) /\
      (l = [] \/ exists p, l = [NotifyFileAppeared p])).
Proof.
  intros [Hch Ht Hw Hc Hs Ha] Hinit Hcand. unfold FileWatcher.handle_process_path, Paths.process_path_or_defer_if_unsettled.
  rewrite Hinit in Hc. set (s := FileWatcher.paths self) in *.
  destruct (Paths.process_args_after_settle s) as [a|] eqn:Ea.
  2: { cbn. exists st, hi. rewrite app_nil_r. split_and!; [|done|done|by left].
       split; cbn; [by destruct Hch|done|done|by rewrite Hinit|done|done]. }
  change (Paths.paths_to_settle (Paths.set_args None s)) with (Paths.paths_to_settle s).
  case_decide as Hset.
  2: { cbn. exists st, hi. rewrite app_nil_r. split_and!; [|done|by intros ? [= <-]; apply Hcand|by left].
       split; cbn; [by destruct Hch|done|done|by rewrite Hinit|done|by intros ? [= <-]; apply Ha]. }
  pose proof (Ha a eq_refl) as Hok. pose proof Hok as (_ & Hreal & _).
  assert (chained (Paths.set_args None s) st hi) as Hch' by (by destruct Hch).
  pose proof (process_path_spec (Paths.set_args None s) st hi a Hch' Hok (Hcand a eq_refl)) as H.
  destruct (Paths.process_path fuel (fs out) a (Paths.set_args None s)) as [[s' nw]| |]; [|done|done]. cbn.
  destruct H as (st' & hi' & Hch2 & (_ & (Hf1 & Hf2 & Hf3) & ds & Hnw & _ & _ & Hdom) & Ht2). cbn in Hnw. subst ds.
  pose proof (watch_all_spec nw (FileWatcher.set_paths (Paths.set_args None s') self)) as Hwatch.
  destruct (FileWatcher.watch_all out nw _) as [self' [|e]]; destruct Hwatch as (W1 & W2 & W3 & W4); cbn -[watched] in *; [|done].
  rewrite W2. cbn. exists st', hi'. split_and!; [|by rewrite W3|done|].
  - assert (Hcalls : protocol None (FileWatcher.callbacks self ++ notes q) = Some None) by (by rewrite Hc, Hreal).
    split.
    + rewrite W2. by destruct Hch2.
    + by rewrite W2.
    + rewrite W2, W4, Hw. cbn. rewrite Hdom. done.
    + rewrite W1, W2, W3, Hinit. cbn. rewrite notes_app, app_assoc. destruct (Paths.real_file s') as [p|].
      * by apply protocol_snoc_appeared.
      * by rewrite app_nil_r.
    + rewrite W2. cbn. rewrite Hf1. exact Hs.
    + rewrite W2. done.
  - destruct (Paths.real_file s'); [right; by eexists|by left].
Qed.

(** The state a run of actions may be in: no first notification is due, and the arguments kept
    for later are among the candidates. *)
Record ready (q : list PathsAction) (self : FileWatcher.t) (st : list path) (hi : nat) : Prop := {
  rd_inv : inv_with q self st hi;
  rd_initial : FileWatcher.initial_real_file self = None;
  rd_cand : forall a, Paths.process_args_after_settle (FileWatcher.paths self) = Some a -> cand a;
}.

Definition ends_ready (self : FileWatcher.t) : Prop := exists st hi, ready [] self st hi.

(** Actions that settle paths and tell of files that appeared. *)
Definition settling (a : PathsAction) : Prop :=
  match a with SettlePath _ | NotifyFileAppeared _ => True | _ => False end.

Lemma settle_plays n : forall q self st hi,
  (FileWatcher.total_weight q <= n)%nat -> Forall settling q -> ready q self st hi ->
  plays q self ends_ready.
Proof.
  induction n as [|n IH]; intros q self st hi Hn Hq Hr.
  - destruct q as [|[] q]; [apply plays_nil; by exists st, hi|..];
      unfold FileWatcher.total_weight in Hn; cbn in Hn; lia.
  - destruct q as [|a q]; [apply plays_nil; by exists st, hi|].
    apply Forall_cons in Hq as [Ha Hq]. destruct Hr as [[Hch Ht Hw Hc Hs Hp] Hi Hcand].
    apply plays_cons. pose proof (perform_weight a q self) as Hwt. destruct a as [p| | | | |p| |]; try done.
    + cbn. apply (IH _ _ st hi).
      * unfold FileWatcher.total_weight in *. cbn in Hn. lia.
      * done.
      * split; [|done|done]. split; cbn; try done. rewrite Hi in *. cbn in *. by rewrite <- app_assoc.
    + cbn -[FileWatcher.total_weight] in *.
      assert (inv_with q (FileWatcher.set_paths (Paths.settle_path p (FileWatcher.paths self)) self) st hi) as Hinv
        by (split; try done; by destruct Hch).
      pose proof (handle_process_spec q _ st hi Hinv Hi Hcand) as H.
      destruct (FileWatcher.handle_process_path _ _ _) as [[self' [l|e]]| |]; cbn -[FileWatcher.total_weight] in *; try done.
      destruct H as (st' & hi' & Hinv' & Hi' & Hcand' & Hl). apply (IH _ _ st' hi').
      * lia.
      * apply Forall_app. split; [done|]. destruct Hl as [->|[x ->]]; by repeat constructor.
      * by split.
Qed.

(** Walking from new arguments, which go before those kept for later, then settling. *)
Lemma process_plays args q self st hi :
  chained (FileWatcher.paths self) st hi ->
  watched (FileWatcher.watcher self) = dom (Paths.dirs (FileWatcher.paths self)) ->
  protocol None (FileWatcher.callbacks self ++ notes q) = Some None ->
  (exists names, Paths.start_path (FileWatcher.paths self) = absolute names) ->
  FileWatcher.initial_real_file self = None ->
  Forall settling q -> args_ok (FileWatcher.paths self) st hi args -> cand args ->
  (forall a, Paths.process_args_after_settle (FileWatcher.paths self) = Some a -> (pa_index args < pa_index a)%nat) ->
  plays (ProcessPathAfterSettle args :: q) self ends_ready.
Proof.
  intros Hch Hw Hc Hs Hi Hq Hok Hca Hlt. apply plays_cons. cbn -[FileWatcher.total_weight].
  assert (Paths.set_process_args args (FileWatcher.paths self) = Paths.set_args (Some args) (FileWatcher.paths self)) as ->.
  { unfold Paths.set_process_args. destruct (Paths.process_args_after_settle _) as [a|]; [|done].
    by rewrite (proj2 (Nat.ltb_lt _ _) (Hlt a eq_refl)). }
  set (self1 := FileWatcher.set_paths (Paths.set_args (Some args) (FileWatcher.paths self)) self).
  assert (inv_with q self1 st hi) as Hinv.
  { split; try done; [by destruct Hch|by left; apply Hok| |by intros a [= <-]].
    change (FileWatcher.initial_real_file self1) with (FileWatcher.initial_real_file self). rewrite Hi. cbn.
    destruct Hok as (_ & -> & _). done. }
  pose proof (handle_process_spec q self1 st hi Hinv Hi) as H.
  assert (forall a, Paths.process_args_after_settle (FileWatcher.paths self1) = Some a -> cand a) as Hca1 by (by intros a [= <-]).
  specialize (H Hca1). destruct (FileWatcher.handle_process_path _ _ _) as [[self' [l|e]]| |]; cbn -[FileWatcher.total_weight] in *; try done.
  destruct H as (st' & hi' & Hinv' & Hi' & Hcand' & Hl).
  apply (settle_plays _ _ _ st' hi' (le_n _)); [|by split].
  apply Forall_app. split; [done|]. destruct Hl as [->|[x ->]]; by repeat constructor.
Qed.

(** *** Dropping the end of the chain *)

(** What the drops do not touch. *)
Definition kept (self self' : FileWatcher.t) (back : list path) : Prop :=
  FileWatcher.callbacks self' = FileWatcher.callbacks self /\
  FileWatcher.initial_real_file self' = FileWatcher.initial_real_file self /\
  frame (FileWatcher.paths self) (FileWatcher.paths self') /\
  (forall p, p ∈ back -> kinds (FileWatcher.paths self') p = kinds (FileWatcher.paths self) p).

Lemma kept_trans s1 s2 s3 back : kept s1 s2 back -> kept s2 s3 back -> kept s1 s3 back.
Proof.
  intros (? & ? & ? & Hk1) (? & ? & ? & Hk2). split_and!; [congruence..|by etransitivity|].
  intros p Hp. by rewrite Hk2, Hk1.
Qed.

(** Performing one drop: the operating system stops watching the directory that is released. *)
Lemma drop_performed x q self back P :
  (x ∉ back) ->
  removes (FileWatcher.paths self) (Paths.drop_watch x (FileWatcher.paths self)).2 (Paths.drop_watch x (FileWatcher.paths self)).1 ->
  frame (FileWatcher.paths self) (Paths.drop_watch x (FileWatcher.paths self)).1 ->
  watched (FileWatcher.watcher self) = dom (Paths.dirs (FileWatcher.paths self)) ->
  (forall self', FileWatcher.paths self' = (Paths.drop_watch x (FileWatcher.paths self)).1 -> kept self self' back ->
     watched (FileWatcher.watcher self') = dom (Paths.dirs (FileWatcher.paths self')) -> plays q self' P) ->
  plays (DropWatch x :: q) self P.
Proof.
  intros Hx Hrem Hf Hw HP. apply plays_cons. cbn [FileWatcher.perform].
  pose proof (fun p => drop_watch_kinds x p (FileWatcher.paths self)) as Hk.
  destruct (Paths.drop_watch x (FileWatcher.paths self)) as [s' [d|]]; cbn -[watched] in *.
  - pose proof (unwatch_spec d (FileWatcher.set_paths s' self)) as H.
    destruct (FileWatcher.unwatch out d _) as [self' [|e]]; destruct H as (H1 & H2 & H3 & H4 & H5); cbn -[watched] in *; [|done].
    apply HP; [done| |].
    + split_and!; [done..|by rewrite H2|]. intros p Hp. rewrite H2. apply Hk. set_solver.
    + rewrite H4, H2, Hw. by destruct Hrem as [_ ->].
  - apply HP; [done| |].
    + split_and!; [done..|]. intros p Hp. cbn. apply Hk. set_solver.
    + cbn -[watched]. by rewrite Hw.
Qed.

Lemma drops_play front : forall x back hi q self P,
  dropping (FileWatcher.paths self) front x back hi ->
  watched (FileWatcher.watcher self) = dom (Paths.dirs (FileWatcher.paths self)) ->
  (forall self', chained (FileWatcher.paths self') back hi -> Paths.real_file (FileWatcher.paths self') = None ->
     kept self self' back ->
     watched (FileWatcher.watcher self') = dom (Paths.dirs (FileWatcher.paths self')) -> plays q self' P) ->
  plays ((DropWatch <$> rev front) ++ q) self P.
Proof.
  induction front as [|y front IH] using rev_ind; intros x back hi q self P Hd Hw HP.
  - cbn. apply HP; [by eapply dropping_done|apply Hd|by split_and!|done].
  - rewrite rev_app_distr. cbn. pose proof (drop_next _ _ _ _ _ _ Hd) as H.
    pose proof (dr_nodup _ _ _ _ _ Hd) as Hnd.
    apply (drop_performed y _ self back); [| | |done|].
    + rewrite <- app_assoc in Hnd. apply NoDup_app in Hnd as (_ & _ & Hnd). by apply NoDup_cons in Hnd as [? _].
    + destruct (Paths.drop_watch y _) as [s' o]. apply H.
    + destruct (Paths.drop_watch y _) as [s' o]. apply H.
    + intros self' Hp Hk Hw'. destruct (Paths.drop_watch y _) as [s' o]. cbn in Hp.
      apply (IH y back hi); [by rewrite Hp; apply H|done|].
      intros self2 Hch Hreal Hk2 Hw2. apply HP; [done|done|by eapply kept_trans|done].
Qed.

(** *** The reactions *)
Definition gone (s : Paths.t) : list PathsAction :=
  match Paths.real_file s with Some p => [NotifyFileDisappeared p] | None => [] end.

(** Telling that the file is gone, then going on. *)
Lemma gone_plays s q self P :
  protocol None (FileWatcher.callbacks self) = Some (Paths.real_file s) ->
  (forall self', FileWatcher.paths self' = FileWatcher.paths self -> FileWatcher.watcher self' = FileWatcher.watcher self ->
     FileWatcher.initial_real_file self' = FileWatcher.initial_real_file self ->
     protocol None (FileWatcher.callbacks self') = Some None -> plays q self' P) ->
  plays (gone s ++ q) self P.
Proof.
  intros Hc HP. unfold gone. destruct (Paths.real_file s) as [p|]; [|by apply HP].
  cbn. apply plays_cons. cbn. apply HP; try done. cbn. rewrite protocol_app, Hc. cbn. by rewrite decide_True.
Qed.

Lemma tidy_back s front x back : tidy s (front ++ x :: back) -> branches s back.
Proof.
  intros [H|(p & st' & E & H & _)] q Hq; apply H.
  - apply elem_of_app. right. by right.
  - destruct front as [|y front]; injection E as <- <-; [done|]. apply elem_of_app. right. by right.
Qed.

Lemma tidy_regular s st hi p c :
  chained s st hi -> tidy s st -> Paths.paths s !! p = Some (Regular c) -> Paths.real_file s = Some p.
Proof.
  intros Hch Ht Hp. assert (p ∈ st) as Hin by (apply (ch_dom _ _ _ Hch); eauto).
  assert (kinds s p = Some KRegular) as Hk by (unfold kinds; by rewrite Hp).
  destruct Ht as [Hb|(x & st' & -> & Hb & Hx)]; [rewrite (Hb p Hin) in Hk; done|].
  apply elem_of_cons in Hin as [->|Hin]; [|rewrite (Hb p Hin) in Hk; done].
  destruct Hx as [[_ ?]|[Hm _]]; congruence.
Qed.

(** The arguments of an item continue the chain before it. *)
Lemma item_args_ok s s' front x back hi w :
  chained s (front ++ x :: back) hi -> Paths.paths s !! x = Some w ->
  branches s' back -> Paths.real_file s' = None ->
  args_ok s' back (Common.index (get_common w)) (Common.get_process_path_args (get_common w)) /\
  (Common.index (get_common w) < hi)%nat /\ item_ok x w.
Proof.
  intros Hch Hw Hb Hr. destruct (segment_app _ _ _ _ _ _ _ (ch_links _ _ _ Hch)) as (_ & hi' & Hle & w' & Hw' & Hok & _ & Hprev & Hlt & _).
  rewrite Hw in Hw'. injection Hw' as <-. split_and!; [|lia|done]. split_and!; [done|done| |done|].
  - cbn. rewrite Hprev. by destruct back.
  - destruct Hok as (_ & names & n & _ & E). exists names. cbn. by rewrite E.
Qed.

Lemma settles_quiet q : Forall (fun a => exists p, a = SettlePath p) q -> Forall settling q /\ notes q = [].
Proof.
  intros H. split; [eapply Forall_impl; [exact H|]; by intros a [p ->]|].
  induction H as [|a q [p ->] _ IH]; [done|]. exact IH.
Qed.

(** An item that is there goes away, or is replaced. *)
Lemma drop_item_plays self st hi x w tail :
  ready [] self st hi -> Paths.paths (FileWatcher.paths self) !! x = Some w ->
  cand (Common.get_process_path_args (get_common w)) ->
  Forall (fun a => exists p, a = SettlePath p) tail ->
  exists l, FileWatcher.drop_common (FileWatcher.paths self) (Common.get_paths_action_data (get_common w)) = Done l /\
    plays (l ++ tail) self ends_ready.
Proof.
  intros [[Hch Ht Hw Hc Hs Hp] Hi Hcand] Hx Hca Htail. rewrite Hi in Hc. cbn in Hc. rewrite app_nil_r in Hc.
  assert (x ∈ st) as (front & back & ->)%list_elem_of_split by (apply (ch_dom _ _ _ Hch); eauto).
  pose proof (item_args_ok _ (Paths.set_real_file None (FileWatcher.paths self)) _ _ _ _ _ Hch Hx (tidy_back _ _ _ _ Ht) eq_refl) as (_ & Hlt & Hok).
  unfold FileWatcher.drop_common. cbn [Common.get_paths_action_data pad_dir_file_name pad_args].
  rewrite (item_as_path x w Hok), (drop_chain_chained _ _ _ _ _ Hch). cbn [mbind run_bind]. eexists. split; [done|].
  fold (gone (FileWatcher.paths self)). set (args := Common.get_process_path_args (get_common w)) in *.
  assert (forall q, ([AddPathToSettle x] ++ (DropWatch <$> x :: rev front) ++ q ++ [ProcessPathAfterSettle args]) ++ tail =
    AddPathToSettle x :: DropWatch x :: (DropWatch <$> rev front) ++ q ++ ProcessPathAfterSettle args :: tail) as ->
    by (intros q; cbn; by rewrite <- !app_assoc).
  destruct (settles_quiet tail Htail) as [Htail1 Htail2].
  apply plays_cons. cbn [FileWatcher.perform steps].
  set (self1 := FileWatcher.set_paths (Paths.add_path_to_settle x (FileWatcher.paths self)) self).
  assert (chained (FileWatcher.paths self1) (front ++ x :: back) hi) as Hch1 by (by destruct Hch).
  pose proof (drop_start _ _ _ _ _ w Hch1 Hx) as Hd.
  pose proof (ch_nodup _ _ _ Hch) as Hnd. apply NoDup_app in Hnd as (_ & _ & Hnd). apply NoDup_cons in Hnd as [Hxb _].
  apply (drop_performed x _ self1 back); [done| | |done|].
  { by destruct (Paths.drop_watch x _) as [s' o]; apply Hd. }
  { by destruct (Paths.drop_watch x _) as [s' o]; apply Hd. }
  intros self2 Hp2 Hk2 Hw2. destruct (Paths.drop_watch x (FileWatcher.paths self1)) as [s2 o]. cbn in Hp2.
  apply (drops_play front x back (Common.index (get_common w))); [by rewrite Hp2; apply Hd|done|].
  intros self3 Hch3 Hr3 Hk3 Hw3. pose proof (kept_trans _ _ _ _ Hk2 Hk3) as (K1 & K2 & (K3 & _ & K4) & K5). cbn in K1, K2, K3, K4.
  apply gone_plays; [by rewrite K1|]. intros self4 E1 E2 E3 Hc4.
  apply (process_plays args tail self4 back (Common.index (get_common w))).
  - by rewrite E1.
  - by rewrite E1, E2.
  - by rewrite Htail2, app_nil_r.
  - by rewrite E1, K3.
  - by rewrite E3, K2.
  - done.
  - rewrite E1. eapply item_args_ok; [exact Hch|done| |done].
    intros p Hpb. rewrite K5 by done. by apply (tidy_back _ _ _ _ Ht).
  - done.
  - rewrite E1, K4. intros a Ha. destruct (Hp a Ha) as (_ & _ & _ & Hhi & _). cbn. lia.
Qed.

Lemma tidy_missing s st hi p w :
  chained s st hi -> tidy s st -> Paths.paths s !! p = Some w -> kind w = KMissing ->
  exists back, st = p :: back /\ Paths.real_file s = None.
Proof.
  intros Hch Ht Hp Hw. assert (p ∈ st) as Hin by (apply (ch_dom _ _ _ Hch); eauto).
  assert (kinds s p = Some KMissing) as Hk by (unfold kinds; rewrite Hp; cbn; by rewrite Hw).
  destruct Ht as [Hb|(x & st' & -> & Hb & Hx)]; [rewrite (Hb p Hin) in Hk; done|].
  apply elem_of_cons in Hin as [->|Hin]; [|rewrite (Hb p Hin) in Hk; done].
  destruct Hx as [[? _]|[_ ?]]; [congruence|by exists st'].
Qed.

(** Something that was missing is there now. *)
Lemma appear_plays self st hi x w :
  ready [] self st hi -> Paths.paths (FileWatcher.paths self) !! x = Some w -> kind w = KMissing ->
  cand (Common.get_process_path_args (get_common w)) ->
  plays [DropWatch (DirFileName.as_path (Common.dir_file_name (get_common w)));
         ProcessPathAfterSettle (Common.get_process_path_args (get_common w))] self ends_ready.
Proof.
  intros [[Hch Ht Hw Hc Hs Hp] Hi Hcand] Hx Hk Hca. rewrite Hi in Hc. cbn in Hc. rewrite app_nil_r in Hc.
  destruct (tidy_missing _ _ _ _ _ Hch Ht Hx Hk) as (back & -> & Hreal).
  pose proof (item_args_ok _ (FileWatcher.paths self) [] _ _ _ _ Hch Hx (tidy_back _ [] _ _ Ht) Hreal) as (_ & Hlt & Hok).
  rewrite (item_as_path x w Hok). pose proof (drop_start _ [] _ _ _ w Hch Hx) as Hd.
  pose proof (ch_nodup _ _ _ Hch) as Hnd. apply NoDup_cons in Hnd as [Hxb _].
  apply (drop_performed x _ self back); [done| | |done|].
  { by destruct (Paths.drop_watch x _) as [s' o]; apply Hd. }
  { by destruct (Paths.drop_watch x _) as [s' o]; apply Hd. }
  intros self2 Hp2 (K1 & K2 & (K3 & _ & K4) & K5) Hw2. destruct (Paths.drop_watch x (FileWatcher.paths self)) as [s2 o].
  cbn in Hp2. destruct Hd as (Hd & _). rewrite <- Hp2 in Hd.
  apply (process_plays _ [] self2 back (Common.index (get_common w))); try done.
  - by eapply dropping_done.
  - rewrite K1. cbn. by rewrite app_nil_r, Hc, Hreal.
  - by rewrite K3.
  - by rewrite K2.
  - eapply (item_args_ok _ _ []); [exact Hch|done| |apply Hd].
    intros p Hpb. rewrite K5 by done. by apply (tidy_back _ [] _ _ Ht).
  - rewrite K4. intros a Ha. destruct (Hp a Ha) as (_ & _ & _ & Hhi & _). cbn. lia.
Qed.

(** A walk does not look at the real file known before. *)
Lemma process_forgets args q self P :
  Paths.process_args_after_settle (FileWatcher.paths self) = None ->
  Paths.paths_to_settle (FileWatcher.paths self) = ∅ ->
  plays (ProcessPathAfterSettle args :: q) (FileWatcher.set_paths (Paths.set_real_file None (FileWatcher.paths self)) self) P ->
  plays (ProcessPathAfterSettle args :: q) self P.
Proof.
  intros Ha Hset H rounds Hr. specialize (H rounds Hr). destruct rounds as [|rounds]; [done|].
  cbn [FileWatcher.perform_all FileWatcher.perform] in *.
  assert (forall s, FileWatcher.handle_process_path fuel out (FileWatcher.set_paths s self) =
    FileWatcher.handle_process_path fuel out (FileWatcher.set_paths s (FileWatcher.set_paths (Paths.set_real_file None (FileWatcher.paths self)) self))) as E1 by done.
  rewrite E1.
  assert (FileWatcher.handle_process_path fuel out (FileWatcher.set_paths (Paths.set_process_args args (FileWatcher.paths self))
      (FileWatcher.set_paths (Paths.set_real_file None (FileWatcher.paths self)) self)) =
    FileWatcher.handle_process_path fuel out (FileWatcher.set_paths (Paths.set_process_args args
      (FileWatcher.paths (FileWatcher.set_paths (Paths.set_real_file None (FileWatcher.paths self)) self)))
      (FileWatcher.set_paths (Paths.set_real_file None (FileWatcher.paths self)) self))) as ->; [|exact H].
  unfold FileWatcher.handle_process_path, Paths.process_path_or_defer_if_unsettled, Paths.set_process_args. cbn -[Paths.process_path].
  rewrite Ha. cbn -[Paths.process_path]. rewrite !decide_True by done. done.
Qed.

(** Starting over. *)
Lemma restart_plays self st hi q args :
  ready [] self st hi -> Paths.path_for_processing (Paths.start_path (FileWatcher.paths self)) = Return args -> cand args ->
  plays (RestartWatching :: q) self ends_ready.
Proof.
  intros [[Hch Ht Hw Hc Hs Hp] Hi Hcand] Hargs Hca. rewrite Hi in Hc. cbn in Hc. rewrite app_nil_r in Hc.
  apply plays_cons. cbn [FileWatcher.perform Paths.reset]. fold (gone (FileWatcher.paths self)).
  set (ps := Paths.mk ∅ ∅ (Paths.start_path (FileWatcher.paths self)) ∅ (Paths.real_file (FileWatcher.paths self)) ∅ None).
  pose proof (unwatch_all_spec (permute (dirs_order out) (map_to_list (Paths.dirs (FileWatcher.paths self))).*1) (FileWatcher.set_paths ps self)) as H.
  destruct (FileWatcher.unwatch_all _ _ _) as [self1 [|e]]; destruct H as (U1 & U2 & U3 & U4); cbn -[watched Paths.path_for_processing] in *; [|done].
  rewrite U2. cbn -[watched Paths.path_for_processing]. rewrite Hargs. apply gone_plays; [by rewrite U1|].
  intros self2 E1 E2 E3 Hc2. destruct Hs as [names Hs].
  rewrite Hs, path_for_processing_absolute in Hargs. injection Hargs as <-.
  apply process_forgets; [by rewrite E1, U2|by rewrite E1, U2|].
  apply (process_plays _ [] _ [] 0); cbn -[watched]; rewrite ?E1, ?E2, ?E3, ?U2; cbn -[watched]; try done.
  - apply (new_chained (Paths.start_path (FileWatcher.paths self))).
  - rewrite U4, Hw. cbn. rewrite dom_empty_L. apply set_eq. intros d.
    rewrite elem_of_difference, elem_of_list_to_set, elem_of_empty, elem_of_dom.
    split; [|done]. intros [[n Hn] Hnot]. apply Hnot. rewrite elem_of_permute.
    apply list_elem_of_fmap. exists (d, n). split; [done|]. by apply elem_of_map_to_list.
  - by rewrite app_nil_r.
  - by exists names.
  - by rewrite U3.
  - split_and!; [by intros p ?%not_elem_of_nil|done..|]. by exists [].
Qed.
End actions.

(** ** Events *)

(** The arguments an event can cause to be walked: those kept for later, those of a watched
    item, and those of the whole path. *)
Definition candidate (s : Paths.t) (a : ProcessPathArgs) : Prop :=
  Paths.process_args_after_settle s = Some a \/
  (exists p w, Paths.paths s !! p = Some w /\ a = Common.get_process_path_args (get_common w)) \/
  Paths.path_for_processing (Paths.start_path s) = Return a.

(** A rename comes after the notice that its source is going away, so that the source is not
    watched any more as something that is there. *)
Definition event_ok (s : Paths.t) (event : DebouncedEvent) : Prop :=
  match event with
  | Rename from _ => kinds s from = None \/ kinds s from = Some KMissing
  | _ => True
  end.

Lemma emit_ready cand event self st hi :
  ready cand [] self st hi -> ready cand [] (FileWatcher.emit_directories_for_event event self) st hi.
Proof.
  intros [[Hch Ht Hw Hc Hs Hp] Hi Hcand]. split; [|done|done]. split; try done. cbn. rewrite Hi in *. cbn in *.
  rewrite app_nil_r in *. rewrite protocol_app, Hc. done.
Qed.

Section events.
  Context (fuel : nat) (out : Outside) (self : FileWatcher.t) (st : list path) (hi : nat).
Let s := FileWatcher.paths self.
  Context (Hready : ready (candidate s) [] self st hi).

Lemma start_args : exists args, Paths.path_for_processing (Paths.start_path s) = Return args /\ candidate s args.
Proof.
  destruct (inv_start _ _ _ _ (rd_inv _ _ _ _ _ Hready)) as [names Hn]. fold s in Hn.
  eexists. split; [rewrite Hn; apply path_for_processing_absolute|].
  right. right. rewrite Hn. apply path_for_processing_absolute.
Qed.

(** Running the translation of a list of event actions. *)
Definition reacts (l : list EventAction) : Prop :=
  ends fuel out (candidate s)
    (actions ← FileWatcher.translate_all s l; FileWatcher.perform_all (FileWatcher.total_weight actions) fuel out actions self)
    (ends_ready (candidate s)).

Lemma reacts_plays l actions :
  FileWatcher.translate_all s l = Done actions -> plays fuel out (candidate s) actions self (ends_ready (candidate s)) -> reacts l.
Proof. intros Hl Hp. unfold reacts. rewrite Hl. apply Hp. done. Qed.

Lemma reacts_ignore : reacts [EA_Ignore].
Proof. eapply reacts_plays; [done|]. apply plays_nil. by exists st, hi. Qed.

Lemma reacts_restart : reacts [EA_RestartWatching].
Proof.
  eapply reacts_plays; [done|]. destruct start_args as (args & Ha & Hc). by eapply restart_plays.
Qed.

Lemma settles_play q :
  Forall (fun a => exists p, a = SettlePath p) q -> plays fuel out (candidate s) q self (ends_ready (candidate s)).
Proof.
  intros Hq. destruct (settles_quiet q Hq) as [H1 H2]. eapply (settle_plays _ _ _ _ q self st hi); [done|done|].
  destruct Hready as [[] ? ?]. split; try done. split; try done. by rewrite H2.
Qed.

(** An item that goes away, with paths to settle after it. *)
Lemma reacts_drop p w (tail : list EventAction) settle a :
  Paths.paths s !! p = Some w ->
  a = EA_DropDirectory (Common.get_paths_action_data (get_common w)) \/
  a = EA_DropRegular (Common.get_paths_action_data (get_common w)) \/
  a = EA_DropSymlink (Common.get_paths_action_data (get_common w)) ->
  FileWatcher.translate_all s tail = Done settle -> Forall (fun a => exists p, a = SettlePath p) settle ->
  reacts (a :: tail).
Proof.
  intros Hp Ha Ht Hs. destruct (drop_item_plays fuel out (candidate s) self st hi p w settle Hready Hp) as (l & Hl & Hplay); [|done|].
  { right. left. by exists p, w. }
  fold s in Hl. eapply reacts_plays; [|exact Hplay]. cbn [FileWatcher.translate_all].
  destruct Ha as [->|[->| ->]]; cbn [FileWatcher.translate]; rewrite Hl; cbn; by rewrite Ht.
Qed.

Lemma handle_event_reacts event :
  event_ok s event -> reacts (FileWatcher.get_event_actions s event).
Proof.
  intros Hev. pose proof (rd_inv _ _ _ _ _ Hready) as Hinv. pose proof (inv_chain _ _ _ _ Hinv) as Hch. fold s in Hch.
  assert (Hcand : forall p w, Paths.paths s !! p = Some w -> candidate s (Common.get_process_path_args (get_common w)))
    by (intros p w Hw; right; left; by exists p, w).
  assert (Hwrite : forall p, reacts [match Paths.paths s !! p with Some (Regular _) => EA_PlainChange p | _ => EA_Ignore end]).
  { intros p. destruct (Paths.paths s !! p) as [[c|c|c|c|c]|] eqn:Ep; try apply reacts_ignore.
    eapply reacts_plays; [done|]. apply plays_cons. cbn. apply plays_nil. exists st, hi.
    destruct Hready as [[_ Ht Hw Hc Hs' Hp] Hi Hcd]. split; [|done|done]. split; try done. cbn. rewrite Hi in *. cbn in *.
    rewrite app_nil_r in *. rewrite protocol_app, Hc. fold s. rewrite (tidy_regular _ _ _ _ _ Hch Ht Ep). cbn.
    by rewrite decide_True. }
  destruct event as [p|p|p|p|p|p|from to| |o]; cbn [FileWatcher.get_event_actions]; try apply Hwrite;
    try apply reacts_ignore; try apply reacts_restart.
  - unfold FileWatcher.handle_notice_remove_event. destruct (Paths.paths s !! p) as [[c|c|c|c|c]|] eqn:Ep; try apply reacts_ignore.
    all: eapply (reacts_drop p _ [] []); [exact Ep|auto|done|constructor].
  - destruct (Paths.paths s !! p) as [[c|c|c|c|c]|] eqn:Ep; try apply reacts_ignore; try apply reacts_restart.
    + eapply reacts_plays; [done|]. apply (appear_plays fuel out (candidate s) self st hi p (MissingRegular c) Hready Ep eq_refl (Hcand _ _ Ep)).
    + destruct (drop_item_plays fuel out (candidate s) self st hi p _ [SettlePath p] Hready Ep) as (l & Hl & Hplay).
      { by eapply Hcand. } { repeat constructor. by exists p. }
      fold s in Hl. cbn [get_common] in Hl. eapply reacts_plays; [|exact Hplay]. cbn [FileWatcher.translate_all FileWatcher.translate].
      rewrite Hl. cbn. rewrite app_nil_r.
      destruct (segment_elem _ _ _ _ _ p (ch_links _ _ _ Hch)) as (w & Hw & Hok); [apply (ch_dom _ _ _ Hch); eauto|].
      rewrite Ep in Hw. injection Hw as <-. pose proof (item_as_path _ _ Hok) as E. cbn in E. by rewrite E.
    + eapply reacts_plays; [done|]. apply (appear_plays fuel out (candidate s) self st hi p (MissingDirectory c) Hready Ep eq_refl (Hcand _ _ Ep)).
  - unfold FileWatcher.handle_remove_event. destruct (Paths.paths s !! p) as [[c|c|c|c|c]|] eqn:Ep; try apply reacts_restart.
    all: eapply reacts_plays; [done|]; apply settles_play; repeat constructor; by eexists.
  - assert (FileWatcher.handle_remove_event s from = EA_SettlePath from) as ->.
    { unfold FileWatcher.handle_remove_event. cbn in Hev. unfold kinds in Hev.
      destruct (Paths.paths s !! from) as [[c|c|c|c|c]|]; try done; by destruct Hev. }
    assert (Hq : Forall (fun a => exists p, a = SettlePath p) [SettlePath to; SettlePath from])
      by (repeat constructor; by eexists).
    unfold FileWatcher.handle_notice_remove_event. destruct (Paths.paths s !! to) as [[c|c|c|c|c]|] eqn:Ep.
    1,3,4: eapply (reacts_drop to _ [EA_SettlePath to; EA_SettlePath from]); [exact Ep|auto|done|done].
    all: eapply reacts_plays; [done|]; by apply settles_play.
Qed.
End events.

(** ** Properties *)
Lemma handle_event_spec fuel out event self :
  inv self -> FileWatcher.initial_real_file self = None -> event_ok (FileWatcher.paths self) event ->
  ends fuel out (candidate (FileWatcher.paths self)) (FileWatcher.handle_event fuel out event self)
    (fun self' => inv self' /\ FileWatcher.initial_real_file self' = None).
Proof.
  intros (st & hi & Hinv) Hi Hev.
  assert (ready (candidate (FileWatcher.paths self)) [] self st hi) as Hr.
  { split; [done|done|]. intros a Ha. by left. }
  apply (emit_ready _ event) in Hr. pose proof (handle_event_reacts fuel out (FileWatcher.emit_directories_for_event event self) st hi Hr event Hev) as H.
  unfold reacts in H. unfold FileWatcher.handle_event, FileWatcher.get_paths_actions.
  destruct (_ ≫= _) as [[self' [u|e]]| |]; cbn in *; try done.
  destruct H as (st' & hi' & [Hinv' Hi' _]). split; [by exists st', hi'|done].
Qed.

(** The first notification is due in the first iteration. *)
Lemma single_iteration_spec fuel out event self :
  inv self -> event_ok (FileWatcher.paths self) event ->
  ends fuel out (candidate (FileWatcher.paths self)) (FileWatcher.single_iteration fuel out (Some event) self) inv.
Proof.
  intros (st & hi & [Hch Ht Hw Hc Hs Hp]) Hev. unfold FileWatcher.single_iteration.
  set (self0 := match FileWatcher.initial_real_file self with Some p => _ | None => self end).
  assert (Hp0 : FileWatcher.paths self0 = FileWatcher.paths self) by (unfold self0; by destruct (FileWatcher.initial_real_file self)).
  assert (Hw0 : FileWatcher.watcher self0 = FileWatcher.watcher self) by (unfold self0; by destruct (FileWatcher.initial_real_file self)).
  pose proof (handle_event_spec fuel out event
    (FileWatcher.mk (FileWatcher.callbacks self0) (FileWatcher.watcher self0) (FileWatcher.paths self0) None)) as H.
  cbn in H. rewrite Hp0, Hw0 in *. destruct (FileWatcher.handle_event _ _ _ _) as [[self' [u|e]]| |]; cbn in *; apply H; try done;
    (exists st, hi; split; try done; cbn; rewrite <- Hc; unfold self0; destruct (FileWatcher.initial_real_file self); cbn; by rewrite ?app_nil_r).
Qed.

Lemma create_spec fuel out new_answer cwd p :
  (forall c, cwd = Some c -> Path.is_absolute c = true) ->
  match FileWatcher.create fuel out new_answer cwd p with
  | Done (Ok self) => inv self
  | Done (Err _) => True
  | Panicked _ => False
  | OutOfFuel => exists names, FileWatcher.watcher_path cwd p = Ok (absolute names) /\
      ~ exists k res, resolves (fs out) [] names k res /\ (k < fuel)%nat
  end.
Proof.
  intros Hcwd. unfold FileWatcher.create. destruct new_answer; [done|].
  assert (forall q, FileWatcher.watcher_path cwd p = Ok q -> exists names, q = absolute names) as Habs.
  { unfold FileWatcher.watcher_path. intros q.
    assert (exists o, (if Path.is_absolute p then Some p else (fun cwd => Path.push cwd p) <$> cwd) = o /\
      forall x, o = Some x -> Path.is_absolute x = true) as (o & -> & Ho).
    { eexists. split; [done|]. intros x. destruct (Path.is_absolute p) eqn:Ep; [by intros [= <-]|].
      destruct cwd as [c|]; [|done]. intros [= <-]. specialize (Hcwd c eq_refl). unfold Path.push. rewrite Ep.
      destruct c as [|[] c]; try done. by destruct p as [|[] p]. }
    destruct o as [x|]; [|done]. destruct (simplify_absolute x (Ho x eq_refl)) as [names ->].
    destruct (DirFileName.split_path _); [|done]. intros [= <-]. by exists names. }
  destruct (FileWatcher.watcher_path cwd p) as [q|e]; [|done]. destruct (Habs q eq_refl) as [names ->].
  unfold Paths.generate_watch_paths, Paths.process_path. cbn [Paths.start_path Paths.new].
  rewrite path_for_processing_absolute. set (args := mkProcessPathArgs [RootDir] names 0 None).
  assert (walking (Paths.set_real_file None (Paths.new (absolute names))) (CommonGenerator.new args) [] [] 0) as Hwk.
  { apply start_walking; [apply new_chained|by intros q ?%not_elem_of_nil|done|done|done]. }
  pose proof (walk_spec fuel (fs out) _ _ _ _ _ [] Hwk) as H.
  destruct (Paths.walk fuel (fs out) _ _ _) as [[s nw]| |] eqn:E; [|done|].
  2: { exists names. split; [done|]. intros (k & res & Hres & Hk).
       destruct (walk_resolves (fs out) k fuel _ _ _ _ _ [] res Hwk Hres Hk) as (? & ? & E' & _). congruence. }
  destruct H as (st & hi & Hch & (_ & (Hf1 & _ & Hf3) & ds & Hnw & _ & _ & Hdom) & Ht). cbn in Hnw. subst ds. cbn [mbind run_bind].
  pose proof (watch_all_spec out nw (FileWatcher.mk [] [] s None)) as Hwatch.
  destruct (FileWatcher.watch_all out nw _) as [self [u|e]]; destruct Hwatch as (W1 & W2 & W3 & W4); cbn -[watched] in *; [|done].
  exists st, hi. split; cbn -[watched].
  - done.
  - done.
  - rewrite W4, Hdom. unfold watched. cbn. by rewrite dom_empty_L.
  - rewrite W1. by destruct (Paths.real_file s).
  - rewrite Hf1. by exists names.
  - rewrite Hf3. done.
Qed.

(** The states a watcher can get into. *)
Inductive reachable : FileWatcher.t -> Prop :=
| reach_create fuel out new_answer cwd p self :
    (forall c, cwd = Some c -> Path.is_absolute c = true) ->
    FileWatcher.create fuel out new_answer cwd p = Done (Ok self) -> reachable self
| reach_event fuel out event self self' :
    reachable self -> event_ok (FileWatcher.paths self) event ->
    FileWatcher.single_iteration fuel out (Some event) self = Done (self', Ok tt) -> reachable self'.

Lemma reachable_inv self : reachable self -> inv self.
Proof.
  induction 1 as [fuel out na cwd p self Hcwd E|fuel out event self self' _ IH Hev E].
  - pose proof (create_spec fuel out na cwd p Hcwd) as H. by rewrite E in H.
  - pose proof (single_iteration_spec fuel out event self IH Hev) as H. by rewrite E in H.
Qed.

(** C33: whatever events arrive, except a rename whose source is still watched as something that
    is there (the notice that the source goes away comes before a rename; without it the callbacks
    are told the wrong thing, see [rename_of_watched_source] below), in
    whatever state the file system is and however the watcher answers, the state of a running
    watcher is consistent.  The watched items are one chain, each linked to the next, and only
    its end is not a directory or symlink: the real file, or what is missing.  The directories
    watched with the operating system are those counted, and the directory of every item is
    one of them.  The callbacks have been told that the file appeared, changed and disappeared
    in that order, and what they know is the real file of the state. *)
Theorem watcher_invariant self :
  reachable self ->
  let s := FileWatcher.paths self in
  exists st hi, chained s st hi /\ tidy s st /\
    watched (FileWatcher.watcher self) = dom (Paths.dirs s) /\
    (forall p, p ∈ st -> dir_of p ∈ watched (FileWatcher.watcher self)) /\
    protocol None (FileWatcher.callbacks self ++
      match FileWatcher.initial_real_file self with Some p => [CB_file_appeared p] | None => [] end) =
    Some (Paths.real_file s).
Proof.
  intros (st & hi & [Hch Ht Hw Hc _ _])%reachable_inv s. exists st, hi. cbn in Hc. rewrite app_nil_r in Hc.
  split_and!; [done..| |done]. intros p Hp. rewrite Hw, elem_of_dom.
  eapply counted; [apply (ch_dirs _ _ _ Hch)|]. by exists p.
Qed.

(** An iteration of a running watcher ends, without a panic, whenever the paths it may have to
    walk resolve: those of the watched items, the one kept for later and the whole path.  It
    leaves a state that can run on, or fails with an error of the watcher. *)
Theorem iteration_returns self event fuel out :
  reachable self -> event_ok (FileWatcher.paths self) event ->
  (forall a, candidate (FileWatcher.paths self) a -> walk_ends (fs out) fuel a) ->
  exists self', (FileWatcher.single_iteration fuel out (Some event) self = Done (self', Ok tt) /\ reachable self') \/
    exists n, FileWatcher.single_iteration fuel out (Some event) self = Done (self', Err (NotifyError n)).
Proof.
  intros Hr Hev Hends. pose proof (single_iteration_spec fuel out event self (reachable_inv _ Hr) Hev) as H.
  destruct (FileWatcher.single_iteration fuel out (Some event) self) as [[self' [[]|e]]| |] eqn:E; cbn in H; try done.
  - exists self'. left. split; [done|]. by eapply reach_event.
  - destruct H as [n ->]. exists self'. right. by exists n.
Qed.

(** ** Examples *)
Module FileWatcherExample.

(** Resolution as a function. *)
Fixpoint names_of (p : path) : option (list string) :=
  match p with
  | [] => Some []
  | Normal n :: p => cons n <$> names_of p
  | _ => None
  end.

Definition absolute_names (p : path) : option (list string) :=
  match p with RootDir :: p => names_of p | _ => None end.

Lemma absolute_names_spec p names : absolute_names p = Some names -> p = absolute names.
Proof.
  destruct p as [|[] p]; try done. cbn. intros H. unfold absolute. f_equal. revert names H.
  induction p as [|[] p IH]; intros names; cbn; try done; [by intros [= <-]|].
  destruct (names_of p); [|done]. intros [= <-]. cbn. by rewrite (IH l).
Qed.

Fixpoint resolve (fuel : nat) (fs : FileSystem) (names rest : list string) : option (nat * option path) :=
  match fuel with
  | 0%nat => None
  | S fuel =>
      match rest with
      | [] => Some (0%nat, None)
      | n :: rest =>
          let p := absolute (names ++ [n]) in
          match symlink_metadata fs p with
          | None => Some (1%nat, None)
          | Some FT_Symlink =>
              match read_link fs p with
              | None => Some (1%nat, None)
              | Some target =>
                  names' ← absolute_names (Paths.link_target (DirFileName.mk (absolute names) n) target);
                  r ← resolve fuel fs [] (names' ++ rest);
                  Some (S r.1, r.2)
              end
          | Some ft =>
              match rest with
              | [] => Some (1%nat, match ft with FT_File => Some p | _ => None end)
              | _ => match ft with
                     | FT_Dir => r ← resolve fuel fs (names ++ [n]) rest; Some (S r.1, r.2)
                     | _ => Some (1%nat, None)
                     end
              end
          end
      end
  end.

Lemma resolve_spec fuel fs : forall names rest k res,
  resolve fuel fs names rest = Some (k, res) -> resolves fs names rest k res.
Proof.
  induction fuel as [|fuel IH]; intros names rest k res; [done|]. cbn -[absolute].
  destruct rest as [|n rest]; [intros [= <- <-]; constructor|].
  destruct (symlink_metadata fs (absolute (names ++ [n]))) as [ft|] eqn:Hm; [|intros [= <- <-]; by constructor].
  destruct (decide (ft = FT_Symlink)) as [->|Hft].
  - destruct (read_link fs (absolute (names ++ [n]))) as [t|] eqn:Hl; [|intros [= <- <-]; by constructor].
    destruct (absolute_names _) as [names'|] eqn:Hn; [|done]. cbn -[absolute].
    destruct (resolve fuel fs [] (names' ++ rest)) as [[k' res']|] eqn:Hr; [|done]. intros [= <- <-].
    eapply R_symlink; [done|done|by apply absolute_names_spec|by apply IH].
  - destruct rest as [|m rest].
    + destruct ft; try done; intros [= <- <-]; [by constructor|by eapply R_not_a_file|by eapply R_not_a_file].
    + destruct ft; try done; [intros [= <- <-]; by eapply R_not_a_directory| |intros [= <- <-]; by eapply R_not_a_directory].
      destruct (resolve fuel fs (names ++ [n]) (m :: rest)) as [[k' res']|] eqn:Hr; [|done]. cbn. intros [= <- <-].
      apply R_directory; [done|by apply IH].
Qed.

Definition walk_endsb (fs : FileSystem) (fuel : nat) (a : ProcessPathArgs) : bool :=
  match absolute_names (pa_path a) with
  | Some names => match resolve fuel fs names (pa_path_rest a) with Some (k, _) => Nat.ltb k fuel | None => false end
  | None => false
  end.

Lemma walk_endsb_spec fs fuel a : walk_endsb fs fuel a = true -> walk_ends fs fuel a.
Proof.
  unfold walk_endsb, walk_ends. destruct (absolute_names (pa_path a)) as [names|] eqn:Hn; [|done].
  destruct (resolve fuel fs names (pa_path_rest a)) as [[k res]|] eqn:Hr; [|done]. intros Hk%Nat.ltb_lt.
  exists names, k, res. split_and!; [by apply absolute_names_spec|by eapply resolve_spec|done].
Qed.

(** A mounted configuration: [/m/peers] links through [/m/data] to the directory of a version. *)
Inductive entry := EFile | EDir | ELink (target : path).

Definition fs_of (m : gmap path entry) : FileSystem :=
  mkFileSystem
    (fun p => match m !! p with Some EFile => Some FT_File | Some EDir => Some FT_Dir | Some (ELink _) => Some FT_Symlink | None => None end)
    (fun p => match m !! p with Some (ELink t) => Some t | _ => None end).

Definition mounted (version : string) : FileSystem :=
  fs_of (list_to_map
    [(absolute ["m"], EDir); (absolute ["m"; "peers"], ELink [Normal "data"; Normal "peers"]);
     (absolute ["m"; "data"], ELink [CurDir; Normal version]); (absolute ["m"; "v1"], EDir); (absolute ["m"; "v2"], EDir);
     (absolute ["m"; "v1"; "peers"], EFile); (absolute ["m"; "v2"; "peers"], EFile)]).

Definition outside (fs : FileSystem) : Outside := mkOutside fs (fun _ => None) (fun _ => None) id_order.

Lemma first_walk_resolves_witness :
  exists s nw, Paths.generate_watch_paths 20 (mounted "v1") (Paths.new (absolute ["m"; "peers"])) = Done (s, nw) /\
    Paths.real_file s = Some (absolute ["m"; "v1"; "peers"]) /\ NoDup nw.
Proof.
  destruct (first_walk_resolves (mounted "v1") ["m"; "peers"] 7 (Some (absolute ["m"; "v1"; "peers"])) 20) as
    (s & nw & st & hi & H1 & H2 & _ & H3 & _).
  - apply (resolve_spec 20). vm_compute. reflexivity.
  - lia.
  - exists s, nw. split_and!; [exact H1|exact H2|exact H3].
Defined.

Definition looping : FileSystem := fs_of {[absolute ["a"] := ELink (absolute ["a"; "b"])]}.

Lemma symlink_through_itself_diverges_witness :
  read_link looping (absolute ["a"]) = Some (absolute ["a"; "b"]) /\
  Paths.generate_watch_paths 1000 looping (Paths.new (absolute ["a"; "peers"])) = OutOfFuel.
Proof.
  split; [reflexivity|].
  apply (symlink_through_itself_diverges looping "a" ["b"] ["peers"] 1000); [reflexivity|reflexivity|discriminate].
Defined.

(** The watcher on the mounted file, and after the link to the data was replaced. *)
Definition started : FileWatcher.t :=
  match FileWatcher.create 20 (outside (mounted "v1")) None None (absolute ["m"; "peers"]) with
  | Done (Ok w) => w
  | _ => FileWatcher.mk [] [] (Paths.new []) None
  end.

Lemma started_reachable : reachable started.
Proof.
  eapply (reach_create 20 (outside (mounted "v1")) None None (absolute ["m"; "peers"])); [done|].
  assert (H : (match FileWatcher.create 20 (outside (mounted "v1")) None None (absolute ["m"; "peers"]) with
           | Done (Ok _) => true | _ => false end) = true) by (vm_compute; reflexivity).
  unfold started. destruct (FileWatcher.create 20 _ _ _ _) as [[w|e]| |]; done.
Qed.

Lemma candidates_resolve :
  forall a, candidate (FileWatcher.paths started) a -> walk_ends (mounted "v2") 20 a.
Proof.
  intros a Ha. apply walk_endsb_spec. destruct Ha as [Ha|[(p & w & Hw & ->)|Ha]].
  - vm_compute in Ha. discriminate.
  - assert (H : bool_decide (map_Forall (fun _ w => walk_endsb (mounted "v2") 20 (Common.get_process_path_args (get_common w)) = true)
      (Paths.paths (FileWatcher.paths started))) = true) by (vm_compute; reflexivity).
    apply bool_decide_eq_true_1 in H. exact (H p w Hw).
  - vm_compute in Ha. injection Ha as <-. vm_compute. reflexivity.
Qed.

Lemma iteration_returns_witness :
  exists self', FileWatcher.single_iteration 20 (outside (mounted "v2")) (Some (Create (absolute ["m"; "data"]))) started = Done (self', Ok tt) /\
    reachable self'.
Proof.
  destruct (iteration_returns started (Create (absolute ["m"; "data"])) 20 (outside (mounted "v2"))) as (self' & [H|(n & H)]).
  - exact started_reachable.
  - exact I.
  - exact candidates_resolve.
  - exists self'. exact H.
  - exfalso. assert (E : (match FileWatcher.single_iteration 20 (outside (mounted "v2")) (Some (Create (absolute ["m"; "data"]))) started with
                 | Done (_, Ok _) => true | _ => false end) = true) by (vm_compute; reflexivity).
    rewrite H in E. discriminate.
Defined.

(** A new version is mounted: a link to it is made and renamed over the link to the data. *)
Definition swap : DebouncedEvent := Rename (absolute ["m"; "data_tmp"]) (absolute ["m"; "data"]).
Definition swapped : FileWatcher.t :=
  match FileWatcher.single_iteration 20 (outside (mounted "v2")) (Some swap) started with
  | Done (w, Ok _) => w
  | _ => started
  end.

Lemma swapped_reachable : reachable swapped.
Proof.
  eapply (reach_event 20 (outside (mounted "v2")) swap started); [exact started_reachable|left; vm_compute; reflexivity|].
  assert (H : (match FileWatcher.single_iteration 20 (outside (mounted "v2")) (Some swap) started with
           | Done (_, Ok _) => true | _ => false end) = true) by (vm_compute; reflexivity).
  unfold swapped. destruct (FileWatcher.single_iteration 20 _ _ _) as [[w [[]|e]]| |]; done.
Qed.

Definition told (c : Callback) : bool := match c with CB_event_in_directories _ => false | _ => true end.

(** The callbacks hear of the first file, that it is gone, and of the second one. *)
Lemma watcher_invariant_witness :
  filter (fun c => told c = true) (FileWatcher.callbacks swapped) =
    [CB_file_appeared (absolute ["m"; "v1"; "peers"]); CB_file_disappeared (absolute ["m"; "v1"; "peers"]);
     CB_file_appeared (absolute ["m"; "v2"; "peers"])] /\
  Paths.real_file (FileWatcher.paths swapped) = Some (absolute ["m"; "v2"; "peers"]) /\
  exists st hi, chained (FileWatcher.paths swapped) st hi /\
    watched (FileWatcher.watcher swapped) = dom (Paths.dirs (FileWatcher.paths swapped)) /\
    protocol None (FileWatcher.callbacks swapped) = Some (Paths.real_file (FileWatcher.paths swapped)).
Proof.
  split; [vm_compute; reflexivity|]. split; [vm_compute; reflexivity|].
  destruct (watcher_invariant swapped swapped_reachable) as (st & hi & H1 & _ & H2 & _ & H3).
  exists st, hi. split; [exact H1|]. split; [exact H2|].
  assert (E : FileWatcher.initial_real_file swapped = None) by (vm_compute; reflexivity).
  rewrite E, app_nil_r in H3. exact H3.
Defined.

(** A directory met again as the end of the path is counted again though it is not added: its
    parent stays watched when nothing in it is watched any more. *)
Definition self_link : FileSystem :=
  fs_of (list_to_map [(absolute ["d"], EDir); (absolute ["d"; "x"], ELink (absolute ["d"]))]).

Example leaf_counted_twice :
  match FileWatcher.create 20 (outside self_link) None None (absolute ["d"; "x"]) with
  | Done (Ok w) =>
      Paths.dirs (FileWatcher.paths w) !! [RootDir] = Some 2%nat /\
      match FileWatcher.single_iteration 20 (outside self_link) (Some (NoticeRemove (absolute ["d"]))) w with
      | Done (w, _) => Paths.paths (FileWatcher.paths w) = ∅ /\ watched (FileWatcher.watcher w) = {[ [RootDir] ]}
      | _ => False
      end
  | _ => False
  end.
Proof. vm_compute. split_and!; reflexivity. Qed.

(** A rename whose source is still watched: the notification that the file appeared is dropped
    when watching restarts, and the callbacks are told twice that it disappeared. *)
Definition linked : FileSystem :=
  fs_of (list_to_map [(absolute ["a"], ELink [Normal "b"]); (absolute ["b"], EFile)]).

Example rename_of_watched_source :
  match FileWatcher.create 20 (outside linked) None None (absolute ["a"]) with
  | Done (Ok w) =>
      match FileWatcher.single_iteration 20 (outside linked) (Some (Rename (absolute ["a"]) (absolute ["b"]))) w with
      | Done (w, Ok _) => protocol None (FileWatcher.callbacks w) = None
      | _ => False
      end
  | _ => False
  end.
Proof. vm_compute. reflexivity. Qed.
End FileWatcherExample.
