(* ===== verification/Sharding.v ===== *)
(** * Identifiers of the builder's entities

    Models [components/builder-protocol/src/sharding.rs] and the SQL function [next_id_v1] of
    [components/builder-db/src/migration.rs], which give jobs and groups their identifiers: a
    time in milliseconds, ten bits of a sequence and the shard, packed into 64 bits. *)

From S2P Require Import Prelude.
From Stdlib Require Import ZArith Lia.
Local Open Scope Z_scope.

Definition EPOCH_MS : Z := 1460499133628.
Definition SHARD_COUNT : Z := 128.
Definition ID_MASK : Z := 0x3FF.
Definition SHARD_MASK : Z := 0x1FFF.

Definition u64_sub (a b : Z) : Z := wrap_u64 (a - b).
Definition u64_mul (a b : Z) : Z := wrap_u64 (a * b).
Definition u64_shl (a n : Z) : Z := wrap_u64 (Z.shiftl a n).

(** [as i64]: the signed value of the low 64 bits. *)
Definition wrap_i64 (z : Z) : Z :=
  let u := wrap_u64 z in if decide (u < 2 ^ 63) then u else u - u64_modulus.

Module InstaId.

(** The clock [time::get_time()] is a parameter: its seconds and nanoseconds. *)
Definition since_epoch (sec nsec : Z) : Z :=
  let sec := u64_mul (wrap_u64 sec) 1000 in
  let nsec := wrap_u64 nsec / 1000 / 1000 in
  u64_sub (u64_add sec nsec) EPOCH_MS.

Definition generate (sec nsec auto_id : Z) : Z :=
  let time := since_epoch sec nsec in
  let id := auto_id `mod` 1024 in
  let shard_id := id `mod` SHARD_COUNT in
  let iid := u64_shl time 23 in
  let iid := Z.lor iid (u64_shl id 13) in
  Z.lor iid shard_id.

Definition inner_id (self : Z) : Z := Z.land (Z.shiftr self 13) ID_MASK.
Definition shard (self : Z) : Z := Z.land self SHARD_MASK.
Definition timestamp (self : Z) : Z := Z.shiftr self 23.

Definition partial_cmp (self other : Z) : option comparison :=
  match timestamp self ?= timestamp other with
  | Eq => match inner_id self ?= inner_id other with Eq => None | o => Some o end
  | o => Some o
  end.
End InstaId.

(** The default of the columns [jobs.id] and [groups.id]: [now_millis] is the clock and
    [nextval] the number the sequence gives. *)
Definition next_id_v1 (now_millis nextval shard_id : Z) : Z :=
  let our_epoch := 1409266191000 in
  let seq_id := nextval `mod` 1024 in
  let result := wrap_i64 (Z.shiftl (now_millis - our_epoch) 23) in
  let result := Z.lor result (Z.shiftl seq_id 13) in
  Z.lor result shard_id.

(** ** The layout of an identifier *)

Definition pack (time id shard : Z) : Z := time * 2 ^ 23 + id * 2 ^ 13 + shard.

(** A number below [2^k] joined to a multiple of [2^k]. *)
Lemma lor_low a b k : 0 <= k -> 0 <= b < 2 ^ k -> Z.lor (a * 2 ^ k) b = a * 2 ^ k + b.
Proof.
  intros Hk Hb. rewrite <- Z.add_lor_land.
  assert (Z.land (a * 2 ^ k) b = 0) as ->; [|lia].
  apply Z.bits_inj'. intros n Hn. rewrite Z.land_spec, Z.bits_0, <- Z.shiftl_mul_pow2 by done.
  destruct (decide (n < k)).
  - by rewrite Z.shiftl_spec_low.
  - rewrite <- (Z.mod_small b (2 ^ k)), Z.mod_pow2_bits_high by lia. by rewrite andb_false_r.
Qed.

Lemma pack_lor time id shard :
  0 <= id < 1024 -> 0 <= shard < 2 ^ 13 ->
  Z.lor (Z.lor (time * 2 ^ 23) (id * 2 ^ 13)) shard = pack time id shard.
Proof.
  intros Hid Hs. unfold pack. rewrite lor_low by lia.
  replace (time * 2 ^ 23 + id * 2 ^ 13) with ((time * 2 ^ 10 + id) * 2 ^ 13) by lia.
  by rewrite lor_low by lia.
Qed.

Lemma pack_fields time id shard :
  0 <= id < 1024 -> 0 <= shard < 2 ^ 13 ->
  InstaId.timestamp (pack time id shard) = time /\ InstaId.inner_id (pack time id shard) = id /\
  InstaId.shard (pack time id shard) = shard.
Proof.
  intros Hid Hs. unfold InstaId.timestamp, InstaId.inner_id, InstaId.shard, pack.
  change ID_MASK with (Z.ones 10). change SHARD_MASK with (Z.ones 13).
  rewrite !Z.land_ones, !Z.shiftr_div_pow2 by lia. split_and!.
  - symmetry. apply (Z.div_unique _ _ _ (id * 2 ^ 13 + shard)); lia.
  - rewrite <- (Z.div_unique (time * 2 ^ 23 + id * 2 ^ 13 + shard) (2 ^ 13) (time * 2 ^ 10 + id) shard) by lia.
    symmetry. apply (Z.mod_unique _ _ time); lia.
  - symmetry. apply (Z.mod_unique _ _ (time * 2 ^ 10 + id)); lia.
Qed.

Lemma shl_wrap time : u64_shl time 23 = (time `mod` 2 ^ 41) * 2 ^ 23.
Proof.
  unfold u64_shl, wrap_u64, u64_modulus. rewrite Z.shiftl_mul_pow2 by lia.
  replace (2 ^ 64) with (2 ^ 41 * 2 ^ 23) by lia. by rewrite Z.mul_mod_distr_r by lia.
Qed.

Lemma generate_pack sec nsec auto_id :
  InstaId.generate sec nsec auto_id =
    pack (InstaId.since_epoch sec nsec `mod` 2 ^ 41) (auto_id `mod` 1024) (auto_id `mod` 128).
Proof.
  unfold InstaId.generate, SHARD_COUNT.
  pose proof (Z.mod_pos_bound auto_id 1024 ltac:(lia)) as Hid.
  pose proof (Z.mod_pos_bound auto_id 128 ltac:(lia)) as Hs.
  assert (u64_shl (auto_id `mod` 1024) 13 = auto_id `mod` 1024 * 2 ^ 13) as ->.
  { unfold u64_shl. rewrite Z.shiftl_mul_pow2 by lia. apply wrap_u64_id. unfold is_u64, u64_modulus. lia. }
  rewrite shl_wrap, (Z.mod_mod_divide auto_id 1024 128) by (by exists 8). apply pack_lor; lia.
Qed.

Lemma next_id_pack now_millis nextval :
  (now_millis - 1409266191000) `mod` 2 ^ 41 < 2 ^ 40 ->
  next_id_v1 now_millis nextval 0 = pack ((now_millis - 1409266191000) `mod` 2 ^ 41) (nextval `mod` 1024) 0.
Proof.
  intros Ht. unfold next_id_v1, wrap_i64.
  pose proof (Z.mod_pos_bound (now_millis - 1409266191000) (2 ^ 41) ltac:(lia)) as Hm.
  pose proof (Z.mod_pos_bound nextval 1024 ltac:(lia)) as Hid.
  fold (u64_shl (now_millis - 1409266191000) 23). rewrite shl_wrap.
  rewrite decide_True by lia. rewrite (Z.shiftl_mul_pow2 (nextval `mod` 1024)) by lia. apply pack_lor; lia.
Qed.

(** C39: an identifier gives back what it was made of: the milliseconds since the epoch (until
    they need more than 41 bits), the low ten bits of the number and the shard, which is the
    number modulo the shard count. *)
Theorem insta_id_fields sec nsec auto_id :
  InstaId.timestamp (InstaId.generate sec nsec auto_id) = InstaId.since_epoch sec nsec `mod` 2 ^ 41 /\
  InstaId.inner_id (InstaId.generate sec nsec auto_id) = auto_id `mod` 1024 /\
  InstaId.shard (InstaId.generate sec nsec auto_id) = auto_id `mod` SHARD_COUNT /\
  is_u64 (InstaId.generate sec nsec auto_id).
Proof.
  pose proof (Z.mod_pos_bound auto_id 1024 ltac:(lia)) as Hid.
  pose proof (Z.mod_pos_bound auto_id 128 ltac:(lia)) as Hs.
  pose proof (Z.mod_pos_bound (InstaId.since_epoch sec nsec) (2 ^ 41) ltac:(lia)) as Ht.
  rewrite generate_pack. unfold SHARD_COUNT.
  destruct (pack_fields (InstaId.since_epoch sec nsec `mod` 2 ^ 41) (auto_id `mod` 1024) (auto_id `mod` 128))
    as (-> & -> & ->); [lia|lia|]. split_and!; try done; unfold is_u64, u64_modulus, pack; lia.
Qed.

(** The order of identifiers is the order of the numbers, as far as the parts it compares. *)
Theorem insta_id_order t1 i1 s1 t2 i2 s2 :
  0 <= i1 < 1024 -> 0 <= i2 < 1024 -> 0 <= s1 < 2 ^ 13 -> 0 <= s2 < 2 ^ 13 ->
  InstaId.partial_cmp (pack t1 i1 s1) (pack t2 i2 s2) =
    if decide (t1 = t2 /\ i1 = i2) then None else Some (pack t1 i1 s1 ?= pack t2 i2 s2).
Proof.
  intros Hi1 Hi2 Hs1 Hs2. unfold InstaId.partial_cmp.
  destruct (pack_fields t1 i1 s1) as (-> & -> & _); [done..|].
  destruct (pack_fields t2 i2 s2) as (-> & -> & _); [done..|].
  destruct (Z.compare_spec t1 t2) as [->|Ht|Ht]; [destruct (Z.compare_spec i1 i2) as [->|Hi|Hi]|..].
  - by rewrite decide_True.
  - rewrite decide_False by lia. f_equal. symmetry. apply Z.compare_lt_iff. unfold pack. lia.
  - rewrite decide_False by lia. f_equal. symmetry. apply Z.compare_gt_iff. unfold pack. lia.
  - rewrite decide_False by lia. f_equal. symmetry. apply Z.compare_lt_iff. unfold pack. lia.
  - rewrite decide_False by lia. f_equal. symmetry. apply Z.compare_gt_iff. unfold pack. lia.
Qed.

(** Two identifiers of the database agree only when they are given in the same millisecond
    and the sequence has gone round in between. *)
Lemma next_id_unique m1 n1 m2 n2 :
  0 <= m1 - 1409266191000 < 2 ^ 40 -> 0 <= m2 - 1409266191000 < 2 ^ 40 ->
  next_id_v1 m1 n1 0 = next_id_v1 m2 n2 0 <-> m1 = m2 /\ n1 `mod` 1024 = n2 `mod` 1024.
Proof.
  intros H1 H2. rewrite !next_id_pack by (rewrite Z.mod_small by lia; lia). rewrite (Z.mod_small (m1 - _)), (Z.mod_small (m2 - _)) by lia. unfold pack.
  pose proof (Z.mod_pos_bound n1 1024 ltac:(lia)). pose proof (Z.mod_pos_bound n2 1024 ltac:(lia)).
  split; [|by intros [-> ->]]. intros. assert (m1 = m2) by lia. lia.
Qed.
