(* ===== verification/JobTypes.v ===== *)
(** * Messages of the job server

    Models the messages of [components/builder-protocol/src/message/jobsrv.rs] the job server
    works with, and the text forms of their states
    ([components/builder-protocol/src/jobsrv.rs], [originsrv.rs]).  A field of a message that
    the code tests with [has_] is an [option]; the others have their default.  Instants are
    integers. *)

From S2P Require Import Prelude Regex ServiceGroup Ident Text PackageGraph.
From Stdlib Require Import Ascii.
From stdpp Require Import pretty.
Local Open Scope string_scope.
Local Open Scope list_scope.

Inductive ProtocolError :=
| BadJobState (value : string)
| BadJobGroupState (value : string)
| BadJobGroupProjectState (value : string).

Module JobState.
Inductive t :=
| Pending | Processing | Complete | Rejected | Failed | Dispatched
| CancelPending | CancelProcessing | CancelComplete.

#[global] Instance eq_dec : EqDecision t.
Proof. solve_decision. Defined.

Definition default : t := Pending.

Definition to_string (self : t) : string :=
  match self with
  | Dispatched => "Dispatched"
  | Pending => "Pending"
  | Processing => "Processing"
  | Complete => "Complete"
  | Rejected => "Rejected"
  | Failed => "Failed"
  | CancelPending => "CancelPending"
  | CancelProcessing => "CancelProcessing"
  | CancelComplete => "CancelComplete"
  end.

Definition from_str (value : string) : result ProtocolError t :=
  let l := to_lowercase value in
  if String.eqb l "pending" then Ok Pending
  else if String.eqb l "processing" then Ok Processing
  else if String.eqb l "complete" then Ok Complete
  else if String.eqb l "rejected" then Ok Rejected
  else if String.eqb l "failed" then Ok Failed
  else if String.eqb l "dispatched" then Ok Dispatched
  else if String.eqb l "cancelpending" then Ok CancelPending
  else if String.eqb l "cancelprocessing" then Ok CancelProcessing
  else if String.eqb l "cancelcomplete" then Ok CancelComplete
  else Err (BadJobState value).
End JobState.

Module JobGroupState.
Inductive t := GroupPending | GroupDispatching | GroupComplete | GroupFailed | GroupQueued | GroupCanceled.

#[global] Instance eq_dec : EqDecision t.
Proof. solve_decision. Defined.

Definition to_string (self : t) : string :=
  match self with
  | GroupDispatching => "Dispatching"
  | GroupPending => "Pending"
  | GroupComplete => "Complete"
  | GroupFailed => "Failed"
  | GroupQueued => "Queued"
  | GroupCanceled => "Canceled"
  end.

Definition from_str (value : string) : result ProtocolError t :=
  let l := to_lowercase value in
  if String.eqb l "dispatching" then Ok GroupDispatching
  else if String.eqb l "pending" then Ok GroupPending
  else if String.eqb l "complete" then Ok GroupComplete
  else if String.eqb l "failed" then Ok GroupFailed
  else if String.eqb l "queued" then Ok GroupQueued
  else if String.eqb l "canceled" then Ok GroupCanceled
  else Err (BadJobGroupState value).
End JobGroupState.

Module JobGroupProjectState.
Inductive t := NotStarted | InProgress | Success | Failure | Skipped | Canceled.

#[global] Instance eq_dec : EqDecision t.
Proof. solve_decision. Defined.

Definition to_string (self : t) : string :=
  match self with
  | NotStarted => "NotStarted"
  | InProgress => "InProgress"
  | Success => "Success"
  | Failure => "Failure"
  | Skipped => "Skipped"
  | Canceled => "Canceled"
  end.

Definition from_str (value : string) : result ProtocolError t :=
  let l := to_lowercase value in
  if String.eqb l "notstarted" then Ok NotStarted
  else if String.eqb l "inprogress" then Ok InProgress
  else if String.eqb l "success" then Ok Success
  else if String.eqb l "failure" then Ok Failure
  else if String.eqb l "skipped" then Ok Skipped
  else if String.eqb l "canceled" then Ok Canceled
  else Err (BadJobGroupProjectState value).
End JobGroupProjectState.

Module WorkerState.
Inductive t := Ready | Busy.

#[global] Instance eq_dec : EqDecision t.
Proof. solve_decision. Defined.
End WorkerState.

(** ** Package identifiers of the origin server *)
Module OriginPackageIdent.
Record t := mk { origin : string; name : string; version : string; release : string }.

#[global] Instance eq_dec : EqDecision t.
Proof. solve_decision. Defined.

Definition to_string (self : t) : string :=
  if negb (String.eqb (version self) "") && negb (String.eqb (release self) "")
  then origin self +:+ "/" +:+ name self +:+ "/" +:+ version self +:+ "/" +:+ release self
  else if negb (String.eqb (version self) "")
  then origin self +:+ "/" +:+ name self +:+ "/" +:+ version self
  else origin self +:+ "/" +:+ name self.

(** A part that is missing leaves its field empty. *)
Definition from_str (value : string) : t :=
  let parts := Ident.split "/" value in
  mk (parts !!! 0%nat) (parts !!! 1%nat) (parts !!! 2%nat) (parts !!! 3%nat).
End OriginPackageIdent.

(** ** Projects, jobs and groups *)
Module OriginProject.
Record t := mk {
  id : Z;
  origin_name : string;
  package_name : string;
  name : string;
  plan_path : string;
  owner_id : Z;
  vcs_type : string;
  vcs_data : string;
  vcs_installation_id : option Z;
}.

#[global] Instance eq_dec : EqDecision t.
Proof. solve_decision. Defined.
End OriginProject.

(** [OriginIntegration] and [OriginProjectIntegration], by their texts. *)
Record Integration := mkIntegration { in_origin : string; in_name : string; in_integration : string; in_body : string }.

#[global] Instance integration_eq_dec : EqDecision Integration.
Proof. solve_decision. Defined.

Module Job.
Record t := mk {
  id : Z;
  owner_id : Z;
  state : JobState.t;
  project : OriginProject.t;
  error : option (Z * string);
  created_at : Z;
  build_started_at : option Z;
  build_finished_at : option Z;
  package_ident : option OriginPackageIdent.t;
  is_archived : bool;
  integrations : list Integration;
  channel : option string;
  project_integrations : list Integration;
  worker : option string;
}.

#[global] Instance eq_dec : EqDecision t.
Proof. solve_decision. Defined.

Definition set_state (s : JobState.t) (j : t) : t :=
  mk (id j) (owner_id j) s (project j) (error j) (created_at j) (build_started_at j) (build_finished_at j)
     (package_ident j) (is_archived j) (integrations j) (channel j) (project_integrations j) (worker j).

Definition set_integrations (l : list Integration) (j : t) : t :=
  mk (id j) (owner_id j) (state j) (project j) (error j) (created_at j) (build_started_at j) (build_finished_at j)
     (package_ident j) (is_archived j) l (channel j) (project_integrations j) (worker j).

Definition set_project_integrations (l : list Integration) (j : t) : t :=
  mk (id j) (owner_id j) (state j) (project j) (error j) (created_at j) (build_started_at j) (build_finished_at j)
     (package_ident j) (is_archived j) (integrations j) (channel j) l (worker j).
End Job.

Module JobSpec.
Record t := mk { owner_id : Z; project : OriginProject.t; channel : option string }.

(** [Into<Job>]; fields that are not set have the default of the message. *)
Definition into (self : t) : Job.t :=
  Job.mk 0 (owner_id self) JobState.default (project self) None 0 None None None false [] (channel self) [] None.
End JobSpec.

Module JobGroupProject.
Record t := mk { name : string; ident : string; state : JobGroupProjectState.t; job_id : Z }.

#[global] Instance eq_dec : EqDecision t.
Proof. solve_decision. Defined.
End JobGroupProject.

Module JobGroup.
Record t := mk {
  id : Z;
  state : JobGroupState.t;
  projects : list JobGroupProject.t;
  created_at : Z;
  project_name : string;
}.

Definition set_projects (l : list JobGroupProject.t) (g : t) : t := mk (id g) (state g) l (created_at g) (project_name g).
End JobGroup.

Record JobGroupSpec := mkJobGroupSpec {
  gs_origin : string;
  gs_package : string;
  gs_deps_only : bool;
  gs_target : string;
  gs_origin_only : bool;
  gs_package_only : bool;
}.

Record Heartbeat := mkHeartbeat { hb_endpoint : string; hb_state : WorkerState.t }.
Record BusyWorker := mkBusyWorker { bw_ident : string; bw_job_id : Z; bw_quarantined : bool }.

#[global] Instance busy_worker_eq_dec : EqDecision BusyWorker.
Proof. solve_decision. Defined.

(** ** Workers

    [Worker] of [worker_manager.rs].  Instants are in milliseconds; [now] is the clock. *)
Module Worker.
Definition WORKER_TIMEOUT_MS : Z := 33000.
Definition JOB_TIMEOUT_CONVERT_MS : Z := 60000.

Record t := mk {
  ident : string;
  state : WorkerState.t;
  expiry : Z;
  job_id : option Z;
  job_expiry : option Z;
}.

Definition new (now : Z) (ident : string) : t := mk ident WorkerState.Ready (now + WORKER_TIMEOUT_MS) None None.

Definition ready (now : Z) (self : t) : t := mk (ident self) WorkerState.Ready (now + WORKER_TIMEOUT_MS) None None.

Definition busy (now job timeout : Z) (self : t) : outcome t :=
  match job_id self with
  | None => Return (mk (ident self) WorkerState.Busy (now + WORKER_TIMEOUT_MS) (Some job)
                      (Some (now + timeout * JOB_TIMEOUT_CONVERT_MS)%Z))
  | Some j =>
      if decide (j = job)
      then Return (mk (ident self) WorkerState.Busy (now + WORKER_TIMEOUT_MS) (Some j) (job_expiry self))
      else Panic "assertion failed: self.job_id.unwrap() == job_id"
  end.

Definition refresh (now : Z) (self : t) : t := mk (ident self) (state self) (now + WORKER_TIMEOUT_MS) (job_id self) (job_expiry self).

Definition is_expired (now : Z) (self : t) : bool := bool_decide (expiry self < now)%Z.

Definition is_job_expired (now : Z) (self : t) : bool :=
  match job_expiry self with Some e => bool_decide (e < now)%Z | None => false end.
End Worker.

(** [bldr_channel_name] of [core/src/channel.rs]. *)
Definition bldr_channel_name (id : Z) : string := "bldr-" +:+ pretty id.

(** ** The text columns hold the states

    The database keeps states as text, written by [Display] and read by [FromStr]. *)

(** Reading a state back from its text gives the state, for the three kinds of states; so
    the state columns of the database never fail to parse. *)
Theorem states_round_trip :
  (forall s, JobState.from_str (JobState.to_string s) = Ok s) /\
  (forall s, JobGroupState.from_str (JobGroupState.to_string s) = Ok s) /\
  (forall s, JobGroupProjectState.from_str (JobGroupProjectState.to_string s) = Ok s).
Proof. split_and!; intros []; reflexivity. Qed.

(** A full identifier is read back from its text. *)
Lemma origin_ident_round_trip i :
  (forall s, s ∈ [OriginPackageIdent.origin i; OriginPackageIdent.name i; OriginPackageIdent.version i; OriginPackageIdent.release i] ->
     ("/"%char ∉ to_chars s)) ->
  (OriginPackageIdent.version i = "" -> OriginPackageIdent.release i = "") ->
  OriginPackageIdent.from_str (OriginPackageIdent.to_string i) = i.
Proof.
  destruct i as [o n v r]. cbn. intros Hs Hv. unfold OriginPackageIdent.from_str, OriginPackageIdent.to_string.
  cbn [OriginPackageIdent.origin OriginPackageIdent.name OriginPackageIdent.version OriginPackageIdent.release].
  assert (split_cons : forall a b, "/"%char ∉ to_chars a -> Ident.split "/" (a +:+ "/" +:+ b) = a :: Ident.split "/" b).
  { intros a b Ha. unfold Ident.split. rewrite to_chars_app. change (to_chars ("/" +:+ b)) with ("/"%char :: to_chars b).
    rewrite (split_chars_sep "/" (to_chars a) (to_chars b)) by done. cbn. by rewrite of_to_chars. }
  assert (split_one : forall a, "/"%char ∉ to_chars a -> Ident.split "/" a = [a]).
  { intros a Ha. unfold Ident.split. rewrite split_chars_last by done. cbn. by rewrite of_to_chars. }
  assert (Ho := Hs o ltac:(set_solver)). assert (Hn := Hs n ltac:(set_solver)).
  assert (Hv' := Hs v ltac:(set_solver)). assert (Hr := Hs r ltac:(set_solver)).
  destruct (String.eqb_spec v "") as [->|]; cbn [negb andb].
  - by rewrite (Hv eq_refl), split_cons, split_one by done.
  - destruct (String.eqb_spec r "") as [->|]; cbn [negb andb]; by rewrite ?split_cons, split_one by done.
Qed.
