(* ===== verification/JobDb.v ===== *)
(** * The database of the job server

    Models the tables and the SQL functions of
    [components/builder-jobsrv/src/migrations/jobs.rs] and [scheduler.rs] that the job server
    calls.  A table is the list of its rows; the functions run as single statements.  The
    columns [updated_at] are left out, as nothing reads them; state columns hold the state
    that their text stands for (theorem [states_round_trip]), and identifiers the number
    before the cast to [bigint], which loses nothing.

    A query that does not sort returns its rows in an order of the database's choosing, which
    is an argument ([order]).  [None] is a violated constraint.  The clock counts milliseconds. *)

From S2P Require Import Prelude Regex ServiceGroup Ident Text PackageGraph Sharding JobTypes.
From Stdlib Require Import Ascii.
Local Open Scope string_scope.
Local Open Scope list_scope.

(** ** Tables *)
Module JobRow.
Record t := mk {
  id : Z;
  owner_id : Z;
  job_state : JobState.t;
  project_id : Z;
  project_name : string;
  project_owner_id : Z;
  project_plan_path : string;
  vcs : string;
  vcs_arguments : list (option string);
  net_error_code : option Z;
  net_error_msg : option string;
  scheduler_sync : bool;
  created_at : Z;
  build_started_at : option Z;
  build_finished_at : option Z;
  package_ident : option string;
  archived : bool;
  channel : option string;
  sync_count : Z;
  worker : option string;
}.

(** [SET job_state, scheduler_sync, sync_count, worker]. *)
Definition set_progress (s : JobState.t) (sync : bool) (count : Z) (w : option string) (r : t) : t :=
  mk (id r) (owner_id r) s (project_id r) (project_name r) (project_owner_id r) (project_plan_path r) (vcs r)
     (vcs_arguments r) (net_error_code r) (net_error_msg r) sync (created_at r) (build_started_at r)
     (build_finished_at r) (package_ident r) (archived r) (channel r) count w.

(** [SET build_started_at, build_finished_at, package_ident, net_error_code, net_error_msg]. *)
Definition set_build (start finish : option Z) (ident : option string) (code : option Z) (msg : option string) (r : t) : t :=
  mk (id r) (owner_id r) (job_state r) (project_id r) (project_name r) (project_owner_id r) (project_plan_path r) (vcs r)
     (vcs_arguments r) code msg (scheduler_sync r) (created_at r) start finish ident (archived r) (channel r)
     (sync_count r) (worker r).

Definition set_archived (r : t) : t :=
  mk (id r) (owner_id r) (job_state r) (project_id r) (project_name r) (project_owner_id r) (project_plan_path r) (vcs r)
     (vcs_arguments r) (net_error_code r) (net_error_msg r) (scheduler_sync r) (created_at r) (build_started_at r)
     (build_finished_at r) (package_ident r) true (channel r) (sync_count r) (worker r).
End JobRow.

Module GroupRow.
Record t := mk { id : Z; group_state : JobGroupState.t; project_name : string; created_at : Z }.

Definition set_state (s : JobGroupState.t) (r : t) : t := mk (id r) s (project_name r) (created_at r).
End GroupRow.

Module ProjectRow.
Record t := mk {
  id : Z;
  owner_id : Z;
  project_name : string;
  project_ident : string;
  project_state : JobGroupProjectState.t;
  job_id : Z;
}.

Definition set_state (s : JobGroupProjectState.t) (r : t) : t :=
  mk (id r) (owner_id r) (project_name r) (project_ident r) s (job_id r).
Definition set_job (jid : Z) (s : JobGroupProjectState.t) (r : t) : t :=
  mk (id r) (owner_id r) (project_name r) (project_ident r) s jid.
Definition set_ident (ident : string) (r : t) : t :=
  mk (id r) (owner_id r) (project_name r) ident (project_state r) (job_id r).
End ProjectRow.

Module Db.
Record t := mk {
  jobs : list JobRow.t;
  groups : list GroupRow.t;
  group_projects : list ProjectRow.t;
  busy_workers : list BusyWorker;
  graph_packages : list JobGraphPackage;
  job_id_seq : Z;
  groups_id_seq : Z;
  group_projects_id_seq : Z;
  clock : Z;
}.

Definition set_jobs (l : list JobRow.t) (d : t) : t :=
  mk l (groups d) (group_projects d) (busy_workers d) (graph_packages d) (job_id_seq d) (groups_id_seq d) (group_projects_id_seq d) (clock d).
Definition set_groups (l : list GroupRow.t) (d : t) : t :=
  mk (jobs d) l (group_projects d) (busy_workers d) (graph_packages d) (job_id_seq d) (groups_id_seq d) (group_projects_id_seq d) (clock d).
Definition set_group_projects (l : list ProjectRow.t) (d : t) : t :=
  mk (jobs d) (groups d) l (busy_workers d) (graph_packages d) (job_id_seq d) (groups_id_seq d) (group_projects_id_seq d) (clock d).
Definition set_busy_workers (l : list BusyWorker) (d : t) : t :=
  mk (jobs d) (groups d) (group_projects d) l (graph_packages d) (job_id_seq d) (groups_id_seq d) (group_projects_id_seq d) (clock d).
Definition set_graph_packages (l : list JobGraphPackage) (d : t) : t :=
  mk (jobs d) (groups d) (group_projects d) (busy_workers d) l (job_id_seq d) (groups_id_seq d) (group_projects_id_seq d) (clock d).
Definition set_seqs (j g p : Z) (d : t) : t :=
  mk (jobs d) (groups d) (group_projects d) (busy_workers d) (graph_packages d) j g p (clock d).
Definition set_clock (c : Z) (d : t) : t :=
  mk (jobs d) (groups d) (group_projects d) (busy_workers d) (graph_packages d) (job_id_seq d) (groups_id_seq d) (group_projects_id_seq d) c.

(** [UPDATE table SET .. WHERE ..] on a list of rows. *)
Definition update {R} (P : R -> bool) (f : R -> R) (l : list R) : list R := (fun r => if P r then f r else r) <$> l.

(** [SELECT * FROM table WHERE ..]. *)
Definition select {R} (o : order) (P : R -> bool) (l : list R) : list R := permute o (filter (fun r => P r = true) l).

(** The first row by [created_at] among rows that come in some order. *)
Fixpoint oldest {R} (key : R -> Z) (l : list R) : option R :=
  match l with
  | [] => None
  | r :: l => match oldest key l with
              | Some r' => if decide (key r' < key r)%Z then Some r' else Some r
              | None => Some r
              end
  end.

(** *** Jobs *)

Definition insert_job_v2 (p_owner_id p_project_id : Z) (p_project_name : string) (p_project_owner_id : Z)
    (p_project_plan_path p_vcs : string) (p_vcs_arguments : list (option string)) (p_channel : option string) (d : t)
    : t * option JobRow.t :=
  let seq := (job_id_seq d + 1)%Z in
  let d := set_seqs seq (groups_id_seq d) (group_projects_id_seq d) d in
  let id := next_id_v1 (clock d) seq 0 in
  if existsb (fun r => Z.eqb (JobRow.id r) id) (jobs d) then (d, None)
  else
    let r := JobRow.mk id p_owner_id JobState.Pending p_project_id p_project_name p_project_owner_id p_project_plan_path
               p_vcs p_vcs_arguments None None false (clock d) None None None false p_channel 0 None in
    (set_jobs (jobs d ++ [r]) d, Some r).

Definition get_job_v1 (jid : Z) (d : t) : list JobRow.t := filter (fun r => JobRow.id r = jid) (jobs d).

Definition is_pending (r : JobRow.t) : bool := bool_decide (JobRow.job_state r = JobState.Pending).

Definition next_pending_job_v1 (o : order) (p_worker : string) (d : t) : t * option JobRow.t :=
  match oldest JobRow.created_at (select o is_pending (jobs d)) with
  | None => (d, None)
  | Some r =>
      let f := fun r => JobRow.set_progress JobState.Dispatched false (JobRow.sync_count r) (Some p_worker) r in
      (set_jobs (update (fun r' => Z.eqb (JobRow.id r') (JobRow.id r)) f (jobs d)) d, Some (f r))
  end.

Definition in_job_state (s : JobState.t) (r : JobRow.t) : bool := bool_decide (JobRow.job_state r = s).

Definition get_cancel_pending_jobs_v1 (o : order) (d : t) : list JobRow.t := select o (in_job_state JobState.CancelPending) (jobs d).
Definition get_dispatched_jobs_v1 (o : order) (d : t) : list JobRow.t := select o (in_job_state JobState.Dispatched) (jobs d).

Definition update_job_v3 (p_job_id : Z) (p_state : JobState.t) (p_start p_finish : option Z) (p_ident : option string)
    (p_code : option Z) (p_msg : option string) (d : t) : t :=
  set_jobs (update (fun r => Z.eqb (JobRow.id r) p_job_id)
    (fun r => JobRow.set_build p_start p_finish p_ident p_code p_msg
                (JobRow.set_progress p_state false (JobRow.sync_count r + 1)%Z (JobRow.worker r) r)) (jobs d)) d.

Definition mark_as_archived_v1 (p_job_id : Z) (d : t) : t :=
  set_jobs (update (fun r => Z.eqb (JobRow.id r) p_job_id) JobRow.set_archived (jobs d)) d.

Definition unsynced (r : JobRow.t) : bool := negb (JobRow.scheduler_sync r) || bool_decide (0 < JobRow.sync_count r)%Z.

Definition sync_jobs_v2 (o : order) (d : t) : list JobRow.t := select o unsynced (jobs d).

Definition set_jobs_sync_v2 (in_job_id : Z) (d : t) : t :=
  set_jobs (update (fun r => Z.eqb (JobRow.id r) in_job_id)
    (fun r => JobRow.set_progress (JobRow.job_state r) true (JobRow.sync_count r - 1)%Z (JobRow.worker r) r) (jobs d)) d.

(** [ORDER BY created_at DESC LIMIT p_limit OFFSET p_offset], with the count of all rows. *)
Definition get_jobs_for_project_v2 (o : order) (p_project_name : string) (p_limit p_offset : Z) (d : t) : option (list (Z * JobRow.t)) :=
  let rows := select o (fun r => String.eqb (JobRow.project_name r) p_project_name) (jobs d) in
  let sorted := sort_by (fun a b => bool_decide (JobRow.created_at b <= JobRow.created_at a)%Z) rows in
  if decide (p_limit < 0 \/ p_offset < 0)%Z then None
  else Some ((fun r => (Z.of_nat (length rows), r)) <$> take (Z.to_nat p_limit) (drop (Z.to_nat p_offset) sorted)).

(** *** Busy workers *)

Definition same_worker (ident : string) (job_id : Z) (r : BusyWorker) : bool :=
  String.eqb (bw_ident r) ident && Z.eqb (bw_job_id r) job_id.

Definition upsert_busy_worker_v1 (in_ident : string) (in_job_id : Z) (in_quarantined : bool) (d : t) : t :=
  if existsb (same_worker in_ident in_job_id) (busy_workers d)
  then set_busy_workers (update (same_worker in_ident in_job_id) (fun r => mkBusyWorker (bw_ident r) (bw_job_id r) in_quarantined)
                           (busy_workers d)) d
  else set_busy_workers (busy_workers d ++ [mkBusyWorker in_ident in_job_id in_quarantined]) d.

Definition get_busy_workers_v1 (o : order) (d : t) : list BusyWorker := permute o (busy_workers d).

Definition delete_busy_worker_v1 (in_ident : string) (in_job_id : Z) (d : t) : t :=
  set_busy_workers (filter (fun r => same_worker in_ident in_job_id r = false) (busy_workers d)) d.

(** *** Graph packages *)

Definition upsert_graph_package_v1 (in_ident : string) (in_deps : list string) (in_target : string) (d : t) : t * JobGraphPackage :=
  let p := mkJobGraphPackage in_ident in_target in_deps in
  if existsb (fun r => String.eqb (jp_ident r) in_ident) (graph_packages d)
  then (set_graph_packages (update (fun r => String.eqb (jp_ident r) in_ident) (fun _ => p) (graph_packages d)) d, p)
  else (set_graph_packages (graph_packages d ++ [p]) d, p).

Definition get_graph_packages_v1 (o : order) (d : t) : list JobGraphPackage := permute o (graph_packages d).

Definition get_graph_package_v1 (pident : string) (d : t) : list JobGraphPackage :=
  filter (fun r => jp_ident r = pident) (graph_packages d).

(** *** Groups and their projects *)

(** The rows of [unnest(project_names, project_idents)] with fresh identifiers. *)
Fixpoint new_projects (gid seq : Z) (l : list (string * string)) : list ProjectRow.t :=
  match l with
  | [] => []
  | (name, ident) :: l =>
      ProjectRow.mk (seq + 1) gid name ident JobGroupProjectState.NotStarted 0 :: new_projects gid (seq + 1) l
  end.

Definition insert_group_v2 (root_project : string) (projects : list (string * string)) (d : t) : t * option GroupRow.t :=
  let seq := (groups_id_seq d + 1)%Z in
  let id := next_id_v1 (clock d) seq 0 in
  let d := set_seqs (job_id_seq d) seq (group_projects_id_seq d) d in
  if existsb (fun r => Z.eqb (GroupRow.id r) id) (groups d) then (d, None)
  else
    let g := GroupRow.mk id JobGroupState.GroupQueued root_project (clock d) in
    let ps := new_projects id (group_projects_id_seq d) projects in
    (set_seqs (job_id_seq d) seq (group_projects_id_seq d + Z.of_nat (length ps))%Z
       (set_group_projects (group_projects d ++ ps) (set_groups (groups d ++ [g]) d)), Some g).

Definition get_group_v1 (gid : Z) (d : t) : list GroupRow.t := filter (fun r => GroupRow.id r = gid) (groups d).

Definition get_group_projects_for_group_v1 (o : order) (gid : Z) (d : t) : list ProjectRow.t :=
  select o (fun r => Z.eqb (ProjectRow.owner_id r) gid) (group_projects d).

Definition in_group_state (s : JobGroupState.t) (r : GroupRow.t) : bool := bool_decide (GroupRow.group_state r = s).

Definition set_group_state_v1 (gid : Z) (s : JobGroupState.t) (d : t) : t :=
  set_groups (update (fun r => Z.eqb (GroupRow.id r) gid) (GroupRow.set_state s) (groups d)) d.

(** [pending_groups_v1(1)]: the scheduler takes one group at a time. *)
Definition pending_groups_v1 (o : order) (d : t) : t * list GroupRow.t :=
  match oldest GroupRow.created_at (select o (in_group_state JobGroupState.GroupPending) (groups d)) with
  | None => (d, [])
  | Some r => (set_group_state_v1 (GroupRow.id r) JobGroupState.GroupDispatching d,
               [GroupRow.set_state JobGroupState.GroupDispatching r])
  end.

Definition find_group_project_v1 (o : order) (gid : Z) (name : string) (d : t) : list ProjectRow.t :=
  select o (fun r => Z.eqb (ProjectRow.owner_id r) gid && String.eqb (ProjectRow.project_name r) name) (group_projects d).

Definition set_group_project_state_v1 (pid jid : Z) (s : JobGroupProjectState.t) (d : t) : t :=
  set_group_projects (update (fun r => Z.eqb (ProjectRow.id r) pid) (ProjectRow.set_job jid s) (group_projects d)) d.

Definition set_group_project_state_ident_v1 (pid jid : Z) (s : JobGroupProjectState.t) (ident : string) (d : t) : t :=
  set_group_projects (update (fun r => Z.eqb (ProjectRow.id r) pid)
    (fun r => ProjectRow.set_ident ident (ProjectRow.set_job jid s r)) (group_projects d)) d.

Definition set_group_project_name_state_v1 (gid : Z) (pname : string) (s : JobGroupProjectState.t) (d : t) : t :=
  set_group_projects (update (fun r => Z.eqb (ProjectRow.owner_id r) gid && String.eqb (ProjectRow.project_name r) pname)
    (ProjectRow.set_state s) (group_projects d)) d.

Definition is_active (r : GroupRow.t) : bool :=
  in_group_state JobGroupState.GroupPending r || in_group_state JobGroupState.GroupDispatching r.

Definition check_active_group_v1 (o : order) (pname : string) (d : t) : list GroupRow.t :=
  select o (fun r => String.eqb (GroupRow.project_name r) pname && is_active r) (groups d).

Definition get_queued_group_v1 (o : order) (pname : string) (d : t) : list GroupRow.t :=
  select o (fun r => String.eqb (GroupRow.project_name r) pname && in_group_state JobGroupState.GroupQueued r) (groups d).

Definition get_queued_groups_v1 (o : order) (d : t) : list GroupRow.t := select o (in_group_state JobGroupState.GroupQueued) (groups d).

Definition in_project_state (s : JobGroupProjectState.t) (r : ProjectRow.t) : bool := bool_decide (ProjectRow.project_state r = s).

Definition cancel_group_v1 (in_gid : Z) (d : t) : t :=
  set_group_state_v1 in_gid JobGroupState.GroupCanceled
    (set_group_projects (update (fun r => Z.eqb (ProjectRow.owner_id r) in_gid && in_project_state JobGroupProjectState.NotStarted r)
       (ProjectRow.set_state JobGroupProjectState.Canceled) (group_projects d)) d).

Definition abort_group_v1 (in_gid : Z) (d : t) : t :=
  set_group_state_v1 in_gid JobGroupState.GroupComplete
    (set_group_projects (update (fun r => Z.eqb (ProjectRow.owner_id r) in_gid &&
         (in_project_state JobGroupProjectState.InProgress r || in_project_state JobGroupProjectState.NotStarted r))
       (ProjectRow.set_state JobGroupProjectState.Failure) (group_projects d)) d).
End Db.
