(* ===== verification/JobStore.v ===== *)
(** * The data store of the job server

    Models [components/builder-jobsrv/src/data_store.rs] over the database of [JobDb].

    The code runs in threads that share the database and talk to it and to other services one
    exchange at a time.  A computation [io A] takes the world and gives the world after it with
    its answer: a value, an error ([Err], which [?] propagates) or a panic; the world after a
    panic is kept, since the database outlives the thread.  Each exchange consumes a [turn]:
    what other threads do to the database before it, whether it fails, and the order in which
    a query finds its rows.  When no turns are left, exchanges succeed and nobody interferes. *)

From Stdlib Require Import Ascii.
From stdpp Require Import pretty.
From S2P Require Import Prelude Regex ServiceGroup Ident Text PackageGraph Sharding JobTypes JobDb.
Local Open Scope string_scope.
Local Open Scope list_scope.

(** ** Errors ([error.rs]) *)
Inductive job_error :=
| BusyWorkerUpsert | BusyWorkerDelete | BusyWorkersGet | DbPool
| JobGroupCreate | JobGroupCancel | JobGroupGet | JobGroupPending | JobGroupSetState
| JobGraphPackageInsert | JobGraphPackagesGet | JobGroupProjectSetState
| JobCreate | JobGet | JobMarkArchived | JobPending | JobSetState | SyncJobs | ProjectJobsGetErr
| ParseVCSInstallationId | UnknownVCS | UnknownJobGroup | UnknownJobGraphPackage
| UnknownJobGroupProjectState | NetErr | ZmqErr.

(** ** The world of a thread *)

Record turn := Turn {
  others : list (Db.t -> Db.t);
  fails : bool;
  scan : order;
}.

Definition good_turn : turn := Turn [] false id_order.

(** What the threads send to each other and to the workers. *)
Inductive message :=
| NotifyWork
| NotifyScheduler
| StartJob (worker : string) (job : Job.t)
| CancelJob (worker : string) (job : Job.t).

(** The answers of the origin server: the project, no such project, or another error. *)
Inductive route_reply := RouteProject (p : OriginProject.t) | RouteNotFound | RouteError.

(** [routes] has the answers to the requests to come, each for whatever name is asked;
    [workers] is the table of the worker manager, in the order of insertion. *)
Record world := World {
  db : Db.t;
  turns : list turn;
  routes : list (string -> route_reply);
  sent : list message;
  workers : list (string * Worker.t);
}.

Definition set_db (d : Db.t) (w : world) : world := World d (turns w) (routes w) (sent w) (workers w).
Definition send (m : message) (w : world) : world := World (db w) (turns w) (routes w) (sent w ++ [m]) (workers w).
Definition with_workers (l : list (string * Worker.t)) (w : world) : world := World (db w) (turns w) (routes w) (sent w) l.

Inductive answer (A : Type) :=
| Value (a : A)
| Error (e : job_error)
| Panicked (msg : string)
| OutOfFuel.
Arguments Value {A} a.
Arguments Error {A} e.
Arguments Panicked {A} msg.
Arguments OutOfFuel {A}.

Definition io (A : Type) : Type := world -> world * answer A.

#[export] Instance io_ret : MRet io := fun _ a w => (w, Value a).
#[export] Instance io_bind : MBind io := fun _ _ k c w =>
  match c w with
  | (w, Value a) => k a w
  | (w, Error e) => (w, Error e)
  | (w, Panicked m) => (w, Panicked m)
  | (w, OutOfFuel) => (w, OutOfFuel)
  end.

Definition throw {A} (e : job_error) : io A := fun w => (w, Error e).
Definition panic {A} (msg : string) : io A := fun w => (w, Panicked msg).
Definition assert (b : bool) (msg : string) : io unit := if b then mret tt else panic msg.

(** The [Result] of a call, for code that matches on it. *)
Definition try {A} (c : io A) : io (result job_error A) := fun w =>
  match c w with
  | (w, Value a) => (w, Value (Ok a))
  | (w, Error e) => (w, Value (Err e))
  | (w, Panicked m) => (w, Panicked m)
  | (w, OutOfFuel) => (w, OutOfFuel)
  end.

Definition lift {A} (c : outcome (result job_error A)) : io A :=
  match c with
  | Return (Ok a) => mret a
  | Return (Err e) => throw e
  | Panic m => panic m
  end.

Definition run_others (t : turn) (d : Db.t) : Db.t := foldl (fun d f => f d) d (others t).

(** One exchange with the outside. *)
Definition exchange {A} (e : job_error) (f : order -> world -> world * option A) : io A := fun w =>
  let '(t, rest) := match turns w with t :: ts => (t, ts) | [] => (good_turn, []) end in
  let w := World (run_others t (db w)) rest (routes w) (sent w) (workers w) in
  if fails t then (w, Error e)
  else match f (scan t) w with
       | (w, Some a) => (w, Value a)
       | (w, None) => (w, Error e)
       end.

Definition get_shard : io unit := exchange DbPool (fun _ w => (w, Some tt)).

Definition query {A} (e : job_error) (f : order -> Db.t -> A) : io A :=
  exchange e (fun o w => (w, Some (f o (db w)))).

Definition execute (e : job_error) (f : Db.t -> Db.t) : io unit :=
  exchange e (fun _ w => (set_db (f (db w)) w, Some tt)).

Definition modify {A} (e : job_error) (f : order -> Db.t -> Db.t * option A) : io A :=
  exchange e (fun o w => let '(d, r) := f o (db w) in (set_db d w, r)).

(** [WorkerMgrClient::notify_work] and [ScheduleClient::notify]. *)
Definition notify (m : message) : io unit := exchange ZmqErr (fun _ w => (send m w, Some tt)).

Fixpoint mapM_io {A B} (f : A -> io B) (l : list A) : io (list B) :=
  match l with
  | [] => mret []
  | x :: l => y ← f x; ys ← mapM_io f l; mret (y :: ys)
  end.

(** A loop over a list that threads a local state. *)
Fixpoint loop {A S} (f : A -> S -> io S) (l : list A) (s : S) : io S :=
  match l with
  | [] => mret s
  | x :: l => s' ← f x s; loop f l s'
  end.

Definition for_io {A} (f : A -> io unit) (l : list A) : io unit := loop (fun x _ => f x) l tt.

(** ** Rows and messages *)

Definition parse_u32 (s : string) : option Z :=
  match parse_u64 s with Ok n => if decide (n < 2 ^ 32)%Z then Some n else None | Err _ => None end.

(** The codes [ErrCode::from_i32] accepts. *)
Definition err_codes : list Z :=
  [0; 1; 2; 3; 4; 6; 7; 8; 9; 10; 11; 12; 13; 14; 1000; 1001; 1002; 1003; 1004; 1005; 1006; 2000; 2001; 3000; 3001]%Z.

Definition net_error (code : option Z) (msg : option string) : outcome (option (Z * string)) :=
  match msg with
  | None => Return None
  | Some msg =>
      code ← expect "net_error_code is null" code;
      Return (if decide (code ∈ err_codes) then Some (code, msg) else None)
  end.

Definition row_to_job (r : JobRow.t) : outcome (result job_error Job.t) :=
  let name_split := Ident.split "/" (JobRow.project_name r) in
  origin_name ← expect "index out of bounds" (name_split !! 0%nat);
  package_name ← expect "index out of bounds" (name_split !! 1%nat);
  if String.eqb (JobRow.vcs r) "git" then
    vcs_data ← (match JobRow.vcs_arguments r with
                | Some d :: _ => Return d
                | None :: _ => Panic "expected vcs data"
                | [] => Panic "removal index (is 0) should be < len (is 0)"
                end);
    let install := match JobRow.vcs_arguments r with
                   | _ :: Some i :: _ => match parse_u32 i with Some n => Ok (Some n) | None => Err ParseVCSInstallationId end
                   | _ => Ok None
                   end in
    match install with
    | Err e => Return (Err e)
    | Ok install =>
        err ← net_error (JobRow.net_error_code r) (JobRow.net_error_msg r);
        let project := OriginProject.mk (JobRow.project_id r) origin_name package_name (JobRow.project_name r)
                         (JobRow.project_plan_path r) (JobRow.project_owner_id r) "git" vcs_data install in
        Return (Ok (Job.mk (JobRow.id r) (JobRow.owner_id r) (JobRow.job_state r) project err (JobRow.created_at r)
                      (JobRow.build_started_at r) (JobRow.build_finished_at r)
                      (OriginPackageIdent.from_str <$> JobRow.package_ident r) (JobRow.archived r) []
                      (JobRow.channel r) [] (JobRow.worker r)))
    end
  else Return (Err UnknownVCS).

Definition row_to_job_group (r : GroupRow.t) : JobGroup.t :=
  JobGroup.mk (GroupRow.id r) (GroupRow.group_state r) [] (GroupRow.created_at r) (GroupRow.project_name r).

Definition row_to_job_group_project (r : ProjectRow.t) : JobGroupProject.t :=
  JobGroupProject.mk (ProjectRow.project_name r) (ProjectRow.project_ident r) (ProjectRow.project_state r) (ProjectRow.job_id r).

Definition rows_to_job_group_projects (l : list ProjectRow.t) : list JobGroupProject.t := row_to_job_group_project <$> l.

(** ** [DataStore] *)
Module DataStore.

Definition create_job (job : Job.t) : io Job.t :=
  _ ← get_shard;
  if String.eqb (OriginProject.vcs_type (Job.project job)) "git" then
    let project := Job.project job in
    let install_id := (fun n : Z => pretty n) <$> OriginProject.vcs_installation_id project in
    row ← modify JobCreate (fun _ => Db.insert_job_v2 (Job.owner_id job) (OriginProject.id project) (OriginProject.name project)
            (OriginProject.owner_id project) (OriginProject.plan_path project) (OriginProject.vcs_type project)
            [Some (OriginProject.vcs_data project); install_id] (Job.channel job));
    lift (row_to_job row)
  else throw UnknownVCS.

Definition get_job (id : Z) : io (option Job.t) :=
  _ ← get_shard;
  rows ← query JobGet (fun _ => Db.get_job_v1 id);
  match rows with
  | [] => mret None
  | row :: _ => job ← lift (row_to_job row); mret (Some job)
  end.

(** The range of [ProjectJobsGet]: [limit] and [last_index] are those of [Pageable]. *)
Definition limit (start stop : Z) : Z := wrap_i64 (u64_add (u64_sub stop start) 1).
Definition last_index (start stop : Z) (rows : nat) : Z :=
  if decide (rows = 0%nat) then stop else u64_sub (u64_add start (Z.of_nat rows)) 1.

Record ProjectJobs := mkProjectJobs { pj_jobs : list Job.t; pj_start : Z; pj_stop : Z; pj_count : option Z }.

Definition get_jobs_for_project (name : string) (start stop : Z) : io ProjectJobs :=
  _ ← get_shard;
  rows ← modify ProjectJobsGetErr (fun o d => (d, Db.get_jobs_for_project_v2 o name (limit start stop) (wrap_i64 start) d));
  jobs ← mapM_io (fun r : Z * JobRow.t => lift (row_to_job r.2)) rows;
  mret (mkProjectJobs jobs start (last_index start stop (length rows)) (fst <$> last rows)).

Definition next_pending_job (worker : string) : io (option Job.t) :=
  _ ← get_shard;
  row ← modify JobPending (fun o d => let '(d, r) := Db.next_pending_job_v1 o worker d in (d, Some r));
  match row with
  | Some row => job ← lift (row_to_job row); mret (Some job)
  | None => mret None
  end.

Definition get_cancel_pending_jobs : io (list Job.t) :=
  _ ← get_shard;
  rows ← query JobPending Db.get_cancel_pending_jobs_v1;
  mapM_io (fun r => lift (row_to_job r)) rows.

Definition get_dispatched_jobs : io (list Job.t) :=
  _ ← get_shard;
  rows ← query JobGet Db.get_dispatched_jobs_v1;
  mapM_io (fun r => lift (row_to_job r)) rows.

Definition update_job (job : Job.t) : io unit :=
  _ ← get_shard;
  execute JobSetState (Db.update_job_v3 (Job.id job) (Job.state job) (Job.build_started_at job) (Job.build_finished_at job)
    (OriginPackageIdent.to_string <$> Job.package_ident job) (fst <$> Job.error job) (snd <$> Job.error job)).

Definition mark_as_archived (job_id : Z) : io unit :=
  _ ← get_shard;
  execute JobMarkArchived (Db.mark_as_archived_v1 job_id).

Definition upsert_busy_worker (bw : BusyWorker) : io unit :=
  _ ← get_shard;
  execute BusyWorkerUpsert (Db.upsert_busy_worker_v1 (bw_ident bw) (bw_job_id bw) (bw_quarantined bw)).

Definition delete_busy_worker (bw : BusyWorker) : io unit :=
  _ ← get_shard;
  execute BusyWorkerDelete (Db.delete_busy_worker_v1 (bw_ident bw) (bw_job_id bw)).

Definition get_busy_workers : io (list BusyWorker) :=
  _ ← get_shard;
  query BusyWorkersGet Db.get_busy_workers_v1.

Definition create_job_graph_package (msg : JobGraphPackage) : io JobGraphPackage :=
  _ ← get_shard;
  modify JobGraphPackageInsert (fun _ d =>
    let '(d, p) := Db.upsert_graph_package_v1 (jp_ident msg) (jp_deps msg) (jp_target msg) d in (d, Some p)).

Definition get_job_graph_packages : io (list JobGraphPackage) :=
  _ ← get_shard;
  query JobGraphPackagesGet Db.get_graph_packages_v1.

Definition get_job_graph_package (ident : string) : io JobGraphPackage :=
  _ ← get_shard;
  rows ← query JobGraphPackagesGet (fun _ => Db.get_graph_package_v1 ident);
  match rows with
  | [] => throw UnknownJobGraphPackage
  | row :: _ => _ ← assert (bool_decide (length rows = 1%nat)) "assertion failed: rows.len() == 1"; mret row
  end.

Definition is_job_group_active (project_name : string) : io bool :=
  _ ← get_shard;
  rows ← query JobGroupGet (fun o => Db.check_active_group_v1 o project_name);
  mret (bool_decide (1 <= length rows)%nat).

(** The projects of a group, as the queries for a group read them after its row. *)
Definition with_projects (e : job_error) (group : JobGroup.t) : io (list ProjectRow.t * JobGroup.t) :=
  project_rows ← query e (fun o => Db.get_group_projects_for_group_v1 o (JobGroup.id group));
  mret (project_rows, JobGroup.set_projects (rows_to_job_group_projects project_rows) group).

Definition get_queued_job_group (project_name : string) : io (option JobGroup.t) :=
  _ ← get_shard;
  rows ← query JobGroupGet (fun o => Db.get_queued_group_v1 o project_name);
  match rows with
  | [] => mret None
  | row :: _ =>
      _ ← assert (bool_decide (length rows = 1%nat)) "assertion failed: rows.len() == 1";
      '(project_rows, group) ← with_projects JobGroupGet (row_to_job_group row);
      _ ← assert (bool_decide (0 < length (project_rows : list _))%nat) "assertion failed: project_rows.len() > 0";
      mret (Some group)
  end.

Definition get_queued_job_groups : io (list JobGroup.t) :=
  _ ← get_shard;
  rows ← query JobGroupGet Db.get_queued_groups_v1;
  mret (row_to_job_group <$> rows).

Definition create_job_group (msg : JobGroupSpec) (project_tuples : list (string * string)) : io JobGroup.t :=
  _ ← get_shard;
  _ ← assert (negb (bool_decide (project_tuples = []))) "assertion failed: !project_tuples.is_empty()";
  let root_project := gs_origin msg +:+ "/" +:+ gs_package msg in
  row ← modify JobGroupCreate (fun _ => Db.insert_group_v2 root_project project_tuples);
  mret (JobGroup.set_projects
    ((fun p : string * string => JobGroupProject.mk p.1 p.2 JobGroupProjectState.NotStarted 0) <$> project_tuples)
    (row_to_job_group row)).

Definition cancel_job_group (group_id : Z) : io unit :=
  _ ← get_shard;
  execute JobGroupCancel (Db.cancel_group_v1 group_id).

Definition get_job_group (group_id : Z) : io (option JobGroup.t) :=
  _ ← get_shard;
  rows ← query JobGroupGet (fun _ => Db.get_group_v1 group_id);
  match rows with
  | [] => mret None
  | row :: _ =>
      _ ← assert (bool_decide (length rows = 1%nat)) "assertion failed: rows.len() == 1";
      '(project_rows, group) ← with_projects JobGroupGet (row_to_job_group row);
      _ ← assert (bool_decide (0 < length (project_rows : list _))%nat) "assertion failed: project_rows.len() > 0";
      mret (Some group)
  end.

Definition abort_job_group (group_id : Z) : io unit :=
  _ ← get_shard;
  execute JobGroupGet (Db.abort_group_v1 group_id).

Definition set_job_group_state (group_id : Z) (group_state : JobGroupState.t) : io unit :=
  _ ← get_shard;
  execute JobGroupSetState (Db.set_group_state_v1 group_id group_state).

Definition set_job_group_project_state (group_id : Z) (project_name : string) (project_state : JobGroupProjectState.t) : io unit :=
  _ ← get_shard;
  execute JobGroupProjectSetState (Db.set_group_project_name_state_v1 group_id project_name project_state).

(** The state of a project whose job has a state. *)
Definition project_state_of (s : JobState.t) : JobGroupProjectState.t :=
  match s with
  | JobState.Complete => JobGroupProjectState.Success
  | JobState.Rejected => JobGroupProjectState.NotStarted
  | JobState.Failed => JobGroupProjectState.Failure
  | JobState.Pending | JobState.Processing | JobState.Dispatched => JobGroupProjectState.InProgress
  | JobState.CancelPending | JobState.CancelProcessing | JobState.CancelComplete => JobGroupProjectState.Canceled
  end.

(** [get_package_ident] of a job without one is the empty identifier, whose text is [/]. *)
Definition package_ident_text (job : Job.t) : string :=
  OriginPackageIdent.to_string (default (OriginPackageIdent.mk "" "" "" "") (Job.package_ident job)).

Definition set_job_group_job_state (job : Job.t) : io unit :=
  _ ← get_shard;
  rows ← query JobGroupProjectSetState (fun o => Db.find_group_project_v1 o (Job.owner_id job) (OriginProject.name (Job.project job)));
  match rows with
  | [] => throw UnknownJobGroupProjectState
  | row :: _ =>
      _ ← assert (bool_decide (length rows = 1%nat)) "assertion failed: rows.len() == 1";
      let pid := ProjectRow.id row in
      let state := project_state_of (Job.state job) in
      if decide (Job.state job = JobState.Complete)
      then execute JobGroupProjectSetState (Db.set_group_project_state_ident_v1 pid (Job.id job) state (package_ident_text job))
      else execute JobGroupProjectSetState (Db.set_group_project_state_v1 pid (Job.id job) state)
  end.

(** [pending_job_groups(1)]. *)
Definition pending_job_groups : io (list JobGroup.t) :=
  _ ← get_shard;
  group_rows ← modify JobGroupPending (fun o d => let '(d, l) := Db.pending_groups_v1 o d in (d, Some l));
  mapM_io (fun r => '(_, group) ← with_projects JobGroupPending (row_to_job_group r); mret group) group_rows.

(** Rows that do not convert are left out, panics are not caught. *)
Fixpoint convert_rows (rows : list JobRow.t) : outcome (list Job.t) :=
  match rows with
  | [] => Return []
  | r :: rows =>
      j ← row_to_job r;
      js ← convert_rows rows;
      Return (match j with Ok j => j :: js | Err _ => js end)
  end.

Definition sync_jobs : io (list Job.t) :=
  _ ← get_shard;
  rows ← query SyncJobs Db.sync_jobs_v2;
  lift (l ← convert_rows rows; Return (Ok l)).

Definition set_job_sync (job_id : Z) : io unit :=
  _ ← get_shard;
  execute SyncJobs (Db.set_jobs_sync_v2 job_id).
End DataStore.
