(* ===== verification/Scheduler.v ===== *)
(** * The scheduler of the job server

    Models [components/builder-jobsrv/src/server/scheduler.rs]: the passes that take the status
    of jobs over into their groups, move queued groups to pending ones, and dispatch the
    projects of pending groups whose dependencies are built.  Logging is left out; the polling
    loop is one [pass]. *)

From S2P Require Import Prelude Regex ServiceGroup Ident Text PackageGraph Sharding JobTypes JobDb JobStore.
From Stdlib Require Import Ascii.
Local Open Scope string_scope.
Local Open Scope list_scope.

Module ScheduleMgr.

Definition process_queue : io unit :=
  groups ← DataStore.get_queued_job_groups;
  for_io (fun group =>
    _ ← assert (bool_decide (JobGroup.state group = JobGroupState.GroupQueued)) "assertion failed: group.get_state() == GroupQueued";
    active ← DataStore.is_job_group_active (JobGroup.project_name group);
    if negb active then DataStore.set_job_group_state (JobGroup.id group) JobGroupState.GroupPending else mret tt) groups.

Definition check_dispatchable (group : JobGroup.t) (name : string) : bool :=
  forallb (fun project => negb (String.eqb (JobGroupProject.name project) name &&
                                negb (bool_decide (JobGroupProject.state project = JobGroupProjectState.Success))))
    (JobGroup.projects group).

(** The short name of a dependency. *)
Definition dep_name (dep : string) : io string :=
  match Ident.split "/" dep with
  | a :: b :: _ => mret (a +:+ "/" +:+ b)
  | _ => panic "assertion failed: parts.len() >= 2"
  end.

Definition not_started (l : list JobGroupProject.t) : list JobGroupProject.t :=
  filter (fun x => JobGroupProject.state x = JobGroupProjectState.NotStarted) l.

Fixpoint check_deps (group : JobGroup.t) (deps : list string) : io bool :=
  match deps with
  | [] => mret true
  | dep :: deps =>
      name ← dep_name dep;
      if negb (check_dispatchable group name) then mret false else check_deps group deps
  end.

Definition project_dispatchable (group : JobGroup.t) (project : JobGroupProject.t) : io bool :=
  if String.eqb (JobGroupProject.ident project) "" then mret true
  else
    package ← DataStore.get_job_graph_package (JobGroupProject.ident project);
    check_deps group (jp_deps package).

Definition dispatchable_projects (group : JobGroup.t) : io (list JobGroupProject.t) :=
  loop (fun project projects =>
      dispatchable ← project_dispatchable group project;
      mret (if dispatchable : bool then projects ++ [project] else projects))
    (not_started (JobGroup.projects group)) [].

(** One dependency of the list is skipped. *)
Fixpoint any_skipped (skipped : gset string) (deps : list string) : io bool :=
  match deps with
  | [] => mret false
  | dep :: deps =>
      name ← dep_name dep;
      if decide (name ∈ skipped) then mret true else any_skipped skipped deps
  end.

Definition skip_project (group : JobGroup.t) (project : JobGroupProject.t) (skipped : gset string) : io (gset string) :=
  package ← try (DataStore.get_job_graph_package (JobGroupProject.ident project));
  match package with
  | Err _ => mret skipped
  | Ok package =>
      skip ← any_skipped skipped (jp_deps package);
      if skip : bool then
        _ ← DataStore.set_job_group_project_state (JobGroup.id group) (JobGroupProject.name project) JobGroupProjectState.Skipped;
        mret ({[JobGroupProject.name project]} ∪ skipped)
      else mret skipped
  end.

Definition skip_projects (group : JobGroup.t) (project_name : string) : io (gset string) :=
  loop (skip_project group) (not_started (JobGroup.projects group)) {[project_name]}.

(** [route_conn.route]: the next answer of the origin server. *)
Definition route (name : string) : io route_reply := fun w =>
  match routes w with
  | r :: rs => (World (db w) (turns w) rs (sent w) (workers w), Value (r name))
  | [] => (w, Value RouteError)
  end.

Definition schedule_job (group_id : Z) (project_name : string) : io (option Job.t) :=
  reply ← route project_name;
  match reply with
  | RouteNotFound | RouteError => mret None
  | RouteProject project =>
      job ← DataStore.create_job (JobSpec.into (JobSpec.mk group_id project (Some (bldr_channel_name group_id))));
      _ ← notify NotifyWork;
      mret (Some job)
  end.

(** [unwrap] of a result. *)
Definition unwrap {A} (c : io A) : io A :=
  r ← try c;
  match r with Ok a => mret a | Err _ => panic "called `Result::unwrap()` on an `Err` value" end.

Fixpoint dispatch_loop (group : JobGroup.t) (dispatchable : list JobGroupProject.t) (skipped : gset string) : io unit :=
  match dispatchable with
  | [] => mret tt
  | project :: rest =>
      if decide (JobGroupProject.name project ∈ skipped) then dispatch_loop group rest skipped
      else
        _ ← assert (bool_decide (JobGroupProject.state project = JobGroupProjectState.NotStarted))
              "assertion failed: project.get_state() == NotStarted";
        scheduled ← try (schedule_job (JobGroup.id group) (JobGroupProject.name project));
        match scheduled with
        | Ok (Some job) =>
            _ ← unwrap (DataStore.set_job_group_job_state job);
            dispatch_loop group rest skipped
        | Ok None =>
            _ ← DataStore.set_job_group_project_state (JobGroup.id group) (JobGroupProject.name project) JobGroupProjectState.Skipped;
            skip_list ← skip_projects group (JobGroupProject.name project);
            dispatch_loop group rest (skip_list ∪ skipped)
        | Err _ =>
            _ ← DataStore.set_job_group_state (JobGroup.id group) JobGroupState.GroupFailed;
            DataStore.set_job_group_project_state (JobGroup.id group) (JobGroupProject.name project) JobGroupProjectState.Failure
        end
  end.

Definition dispatch_group (group : JobGroup.t) : io unit :=
  dispatchable ← dispatchable_projects group;
  dispatch_loop group dispatchable ∅.

Definition get_group (group_id : Z) : io JobGroup.t :=
  group_opt ← DataStore.get_job_group group_id;
  match group_opt with Some group => mret group | None => throw UnknownJobGroup end.

Definition count (s : JobGroupProjectState.t) (l : list JobGroupProject.t) : nat :=
  length (filter (fun p => JobGroupProject.state p = s) l).

Definition new_group_state (projects : list JobGroupProject.t) (dispatchable : nat) : JobGroupState.t :=
  let failed := count JobGroupProjectState.Failure projects in
  let succeeded := count JobGroupProjectState.Success projects in
  let skipped := count JobGroupProjectState.Skipped projects in
  let canceled := count JobGroupProjectState.Canceled projects in
  if decide (succeeded + skipped + failed = length projects)%nat then JobGroupState.GroupComplete
  else if decide (0 < canceled)%nat then JobGroupState.GroupCanceled
  else if decide (0 < dispatchable)%nat then JobGroupState.GroupPending
  else JobGroupState.GroupDispatching.

Definition update_group_state (group_id : Z) : io unit :=
  group ← get_group group_id;
  if decide (JobGroup.state group = JobGroupState.GroupDispatching) then
    dispatchable ← dispatchable_projects group;
    let new_state := new_group_state (JobGroup.projects group) (length (dispatchable : list _)) in
    _ ← DataStore.set_job_group_state group_id new_state;
    if decide (new_state = JobGroupState.GroupPending) then notify NotifyScheduler else mret tt
  else mret tt.

(** The loop ends when no group is pending; [fuel] bounds its rounds. *)
Fixpoint process_work (fuel : nat) : io unit :=
  match fuel with
  | 0%nat => fun w => (w, OutOfFuel)
  | S fuel =>
      groups ← DataStore.pending_job_groups;
      match reverse groups with
      | [] => mret tt
      | group :: _ =>
          _ ← assert (bool_decide (JobGroup.state group = JobGroupState.GroupDispatching))
                "assertion failed: group.get_state() == GroupDispatching";
          _ ← dispatch_group group;
          _ ← update_group_state (JobGroup.id group);
          process_work fuel
      end
  end.

Definition ends_project (s : JobState.t) : bool :=
  match s with
  | JobState.Complete | JobState.Failed | JobState.CancelComplete => true
  | _ => false
  end.

Definition sync_job (job : Job.t) : io unit :=
  group ← try (get_group (Job.owner_id job));
  match group with
  | Err UnknownJobGroup => DataStore.set_job_sync (Job.owner_id job)
  | Err e => throw e
  | Ok group =>
      updated ← try (DataStore.set_job_group_job_state job);
      match updated with
      | Ok _ =>
          _ ← (if decide (Job.state job = JobState.Failed)
               then _ ← try (skip_projects group (OriginProject.name (Job.project job))); mret tt
               else mret tt);
          _ ← (if ends_project (Job.state job) then update_group_state (Job.owner_id job) else mret tt);
          DataStore.set_job_sync (Job.id job)
      | Err _ => mret tt
      end
  end.

Definition process_status : io unit :=
  jobs ← DataStore.sync_jobs;
  for_io sync_job jobs.

(** One round of [run]: the results of the three passes are logged and dropped. *)
Definition pass (fuel : nat) : io unit :=
  _ ← try process_status;
  _ ← try process_queue;
  _ ← try (process_work fuel);
  mret tt.
End ScheduleMgr.
