(* ===== verification/WorkerManager.v ===== *)
(** * The worker manager of the job server

    Models [components/builder-jobsrv/src/server/worker_manager.rs]: heartbeats and the expiry
    of workers, the dispatch of pending jobs to ready workers, cancelation, and the status
    reports of the workers.  The table of workers (a [LinkedHashMap]) is part of the world
    ([workers]); [now] is the clock of a call. *)

From S2P Require Import Prelude Regex ServiceGroup Ident Text PackageGraph Sharding JobTypes JobDb JobStore.
From Stdlib Require Import Ascii.
Local Open Scope string_scope.
Local Open Scope list_scope.

(** ** The table of workers: [LinkedHashMap] *)
Definition get_workers : io (list (string * Worker.t)) := fun w => (w, Value (workers w)).
Definition set_workers (l : list (string * Worker.t)) : io unit := fun w => (with_workers l w, Value tt).

Definition without_worker (k : string) (l : list (string * Worker.t)) : list (string * Worker.t) :=
  filter (fun e => e.1 <> k) l.

(** The first entry that satisfies a test. *)
Definition find_worker (P : string * Worker.t -> bool) (l : list (string * Worker.t)) : option (string * Worker.t) :=
  snd <$> list_find (fun e => P e = true) l.

Definition remove_worker (k : string) : io (option Worker.t) :=
  l ← get_workers;
  _ ← set_workers (without_worker k l);
  mret (snd <$> find_worker (fun e => String.eqb e.1 k) l).

(** A key that is present moves to the end. *)
Definition insert_worker (k : string) (wk : Worker.t) : io unit :=
  l ← get_workers;
  set_workers (without_worker k l ++ [(k, wk)]).

Definition io_expect {A} (msg : string) (o : option A) : io A := match o with Some a => mret a | None => panic msg end.
Definition io_outcome {A} (c : outcome A) : io A := match c with Return a => mret a | Panic m => panic m end.

Module WorkerMgr.
Section with_services.
  (** [job_timeout] is in minutes.  The integrations of an origin and of a project are the
      answers of the origin server, if it answers; [decrypt] is that of [builder-core]. *)
  Context (job_timeout : Z).
  Context (origin_integrations project_integrations : Job.t -> option (list Integration)) (decrypt : string -> option string).

Definition load_workers (now : Z) : io unit :=
  busy ← DataStore.get_busy_workers;
  for_io (fun bw =>
    wk ← io_outcome (Worker.busy now (bw_job_id bw) job_timeout (Worker.new now (bw_ident bw)));
    insert_worker (bw_ident bw) wk) busy.

Definition save_worker (worker : Worker.t) : io unit :=
  job_id ← io_expect "unwrap" (Worker.job_id worker);
  DataStore.upsert_busy_worker (mkBusyWorker (Worker.ident worker) job_id false).

Definition delete_worker (worker : Worker.t) : io unit :=
  job_id ← io_expect "unwrap" (Worker.job_id worker);
  DataStore.delete_busy_worker (mkBusyWorker (Worker.ident worker) job_id false).

Definition has_job (id : Z) (e : string * Worker.t) : bool := bool_decide (Worker.job_id e.2 = Some id).

Definition requeue_jobs : io unit :=
  jobs ← DataStore.get_dispatched_jobs;
  for_io (fun job =>
    ws ← get_workers;
    match find_worker (has_job (Job.id job)) ws with
    | Some _ => mret tt
    | None => DataStore.update_job (Job.set_state JobState.Pending job)
    end) jobs.

Definition worker_cancel_job (job : Job.t) (worker_ident : string) : io unit := notify (CancelJob worker_ident job).
Definition worker_start_job (job : Job.t) (worker_ident : string) : io unit := notify (StartJob worker_ident job).

(** Ends a cancelation that the worker was told about, or could not be. *)
Definition cancel_on_worker (job : Job.t) (worker_ident : string) : io unit :=
  canceled ← try (worker_cancel_job job worker_ident);
  match canceled with
  | Ok _ => DataStore.update_job (Job.set_state JobState.CancelProcessing job)
  | Err _ => DataStore.update_job (Job.set_state JobState.CancelComplete job)
  end.

Definition process_cancelations : io unit :=
  jobs ← DataStore.get_cancel_pending_jobs;
  for_io (fun job =>
    ws ← get_workers;
    match find_worker (has_job (Job.id job)) ws with
    | Some (worker_ident, _) => cancel_on_worker job worker_ident
    | None => DataStore.update_job (Job.set_state JobState.CancelComplete job)
    end) jobs.

Definition add_integrations_to_job (job : Job.t) : Job.t :=
  match origin_integrations job with
  | Some l =>
      Job.set_integrations
        (omap (fun i => (fun body => mkIntegration (in_origin i) (in_name i) (in_integration i) body) <$> decrypt (in_body i)) l) job
  | None => job
  end.

Definition add_project_integrations_to_job (job : Job.t) : Job.t :=
  match project_integrations job with Some l => Job.set_project_integrations l job | None => job end.

Definition is_ready (e : string * Worker.t) : bool := bool_decide (Worker.state e.2 = WorkerState.Ready).

(** Every round makes a ready worker busy; [fuel] bounds the rounds. *)
Fixpoint process_work (fuel : nat) (now : Z) : io unit :=
  match fuel with
  | 0%nat => fun w => (w, OutOfFuel)
  | S fuel =>
      ws ← get_workers;
      match find_worker is_ready ws with
      | None => mret tt
      | Some (worker_ident, _) =>
          job_opt ← DataStore.next_pending_job worker_ident;
          match job_opt with
          | None => mret tt
          | Some job =>
              let job := add_project_integrations_to_job (add_integrations_to_job job) in
              started ← try (worker_start_job job worker_ident);
              match started with
              | Ok _ =>
                  worker ← remove_worker worker_ident;
                  worker ← io_expect "unwrap" worker;
                  worker ← io_outcome (Worker.busy now (Job.id job) job_timeout worker);
                  _ ← save_worker worker;
                  _ ← insert_worker worker_ident worker;
                  process_work fuel now
              | Err _ => DataStore.update_job (Job.set_state JobState.Pending job)
              end
          end
      end
  end.

Definition requeue_job (job_id : Z) : io unit :=
  job ← DataStore.get_job job_id;
  match job with
  | Some job =>
      match Job.state job with
      | JobState.Processing | JobState.Dispatched => DataStore.update_job (Job.set_state JobState.Pending job)
      | JobState.CancelPending | JobState.CancelProcessing => DataStore.update_job (Job.set_state JobState.CancelComplete job)
      | JobState.Pending | JobState.Complete | JobState.Failed | JobState.CancelComplete | JobState.Rejected => mret tt
      end
  | None => mret tt
  end.

(** The loop pops the front of the table, [ws], until it finds a worker that is not expired. *)
Fixpoint expire_loop (now : Z) (ws : list (string * Worker.t)) : io unit :=
  match ws with
  | [] => mret tt
  | (_, worker) :: rest =>
      if negb (Worker.is_expired now worker) then mret tt
      else
        _ ← set_workers rest;
        _ ← (if decide (Worker.state worker = WorkerState.Busy) then
               job_id ← io_expect "unwrap" (Worker.job_id worker);
               _ ← requeue_job job_id;
               delete_worker worker
             else mret tt);
        expire_loop now rest
  end.

Definition expire_workers (now : Z) : io unit := ws ← get_workers; expire_loop now ws.

Definition cancel_job (job_id : Z) (worker_ident : string) : io unit :=
  job ← DataStore.get_job job_id;
  match job with
  | Some job => cancel_on_worker job worker_ident
  | None => mret tt
  end.

Definition is_job_complete (job_id : Z) : io bool :=
  job ← DataStore.get_job job_id;
  mret match job with
       | Some job =>
           match Job.state job with
           | JobState.Pending | JobState.Processing | JobState.Dispatched | JobState.CancelPending | JobState.CancelProcessing => false
           | JobState.Complete | JobState.Failed | JobState.CancelComplete | JobState.Rejected => true
           end
       | None => false
       end.

(** The answer to a heartbeat of a known worker: [None] where the code returns early. *)
Definition heartbeat_of_worker (now : Z) (heartbeat : Heartbeat) (worker : Worker.t) : io (option Worker.t) :=
  match Worker.state worker, hb_state heartbeat with
  | WorkerState.Ready, WorkerState.Busy => mret None
  | WorkerState.Busy, WorkerState.Busy =>
      job_id ← io_expect "unwrap" (Worker.job_id worker);
      _ ← (if Worker.is_job_expired now worker then cancel_job job_id (hb_endpoint heartbeat) else mret tt);
      mret (Some (Worker.refresh now worker))
  | WorkerState.Busy, WorkerState.Ready =>
      job_id ← io_expect "unwrap" (Worker.job_id worker);
      complete ← is_job_complete job_id;
      if negb complete then mret (Some (Worker.refresh now worker))
      else _ ← delete_worker worker; mret (Some (Worker.ready now worker))
  | WorkerState.Ready, WorkerState.Ready => mret (Some (Worker.ready now worker))
  end.

Definition process_heartbeat (now : Z) (heartbeat : Heartbeat) : io unit :=
  let worker_ident := hb_endpoint heartbeat in
  known ← remove_worker worker_ident;
  let worker := match known with
                | Some worker => Some worker
                | None => if decide (hb_state heartbeat = WorkerState.Ready) then Some (Worker.new now worker_ident) else None
                end in
  match worker with
  | None => mret tt
  | Some worker =>
      worker ← heartbeat_of_worker now heartbeat worker;
      match worker with
      | None => mret tt
      | Some worker =>
          _ ← assert (negb (Worker.is_expired now worker)) "assertion failed: !worker.is_expired()";
          insert_worker worker_ident worker
      end
  end.

Definition process_job_status (job : Job.t) : io unit :=
  _ ← DataStore.update_job job;
  notify NotifyScheduler.

(** What [run] does before its loop, and one round of the loop: the heartbeat and the status
    that arrived, and whether work is to be processed. *)
Definition startup (now : Z) : io unit := _ ← load_workers now; requeue_jobs.

Definition round (fuel : nat) (now : Z) (heartbeat : option Heartbeat) (status : option Job.t) (work : bool) : io unit :=
  _ ← (match heartbeat with Some hb => _ ← try (process_heartbeat now hb); mret tt | None => mret tt end);
  _ ← try (expire_workers now);
  _ ← (match status with Some job => _ ← try (process_job_status job); mret tt | None => mret tt end);
  if work then
    _ ← try process_cancelations;
    _ ← try (process_work fuel now);
    mret tt
  else mret tt.
End with_services.
End WorkerMgr.
