(* ===== verification/JobHandlers.v ===== *)
(** * The request handlers of the job server

    Models [components/builder-jobsrv/src/server/handlers.rs].  A handler answers a request
    with a reply or fails with an error; handlers that work on the package graphs take and
    return them.  Parsing the request and sending the reply are left out. *)

From S2P Require Import Prelude Regex ServiceGroup Ident Text Target Petgraph PackageGraph PackageGraphProofs.
From S2P Require Import Sharding JobTypes JobDb JobStore.
From Stdlib Require Import Ascii.
Local Open Scope string_scope.
Local Open Scope list_scope.

Inductive ErrCode := ENTITY_NOT_FOUND | ENTITY_CONFLICT | DATA_STORE.

Record JobLog := mkJobLog { jl_start : Z; jl_stop : Z; jl_content : list string; jl_is_complete : bool }.

Inductive reply :=
| ReplyJob (job : Job.t)
| ReplyJobs (jobs : DataStore.ProjectJobs)
| ReplyLog (log : JobLog)
| ReplyGroup (group : JobGroup.t)
| ReplyPackage (package : JobGraphPackage)
| ReplyRdeps (origin name : string) (rdeps : list string)
| NetOk
| NetError (code : ErrCode) (msg : string).

Module Handlers.

Definition job_create (msg : JobSpec.t) : io reply :=
  created_job ← DataStore.create_job (JobSpec.into msg);
  _ ← notify NotifyWork;
  mret (ReplyJob created_job).

Definition job_get (id : Z) : io reply :=
  job ← try (DataStore.get_job id);
  mret match job with
       | Ok (Some job) => ReplyJob job
       | Ok None => NetError ENTITY_NOT_FOUND "jb:job-get:1"
       | Err _ => NetError DATA_STORE "jb:job-get:2"
       end.

Definition project_jobs_get (name : string) (start stop : Z) : io reply :=
  jobs ← try (DataStore.get_jobs_for_project name start stop);
  mret match jobs with
       | Ok jobs => ReplyJobs jobs
       | Err _ => NetError DATA_STORE "jb:project-jobs-get:1"
       end.

(** What the archiver answers: the lines of the log, or one of two kinds of errors. *)
Inductive archive_answer := Archived (lines : list string) | ArchiverPanic | ArchiverError.

(** [lines[start as usize..]] panics past the end. *)
Definition slice_from (start : Z) (lines : list string) : io (list string) :=
  if decide (start <= Z.of_nat (length lines))%Z then mret (drop (Z.to_nat start) lines)
  else panic "slice index starts past the end".

(** [log_file] has the lines of the file on disk, if there is one. *)
Definition get_log_content (log_file : option (list string)) (offset : Z) : option (list string) :=
  drop (Z.to_nat offset) <$> log_file.

Definition job_log_get (retrieve : Z -> archive_answer) (log_file : Z -> option (list string)) (id start : Z) : io reply :=
  job ← try (DataStore.get_job id);
  match job with
  | Ok None => mret (NetError ENTITY_NOT_FOUND "jb:job-log-get:1")
  | Err _ => mret (NetError DATA_STORE "jb:job-log-get:2")
  | Ok (Some job) =>
      if Job.is_archived job then
        match retrieve (Job.id job) with
        | Archived lines =>
            let num_lines := Z.of_nat (length lines) in
            segment ← (if decide (start > u64_sub num_lines 1)%Z then mret [] else slice_from start lines);
            mret (ReplyLog (mkJobLog start num_lines segment true))
        | ArchiverPanic => mret (NetError ENTITY_NOT_FOUND "jb:job-log-get:5")
        | ArchiverError => mret (NetError ENTITY_NOT_FOUND "jb:job-log-get:4")
        end
      else
        match get_log_content (log_file id) start with
        | Some content => mret (ReplyLog (mkJobLog start (u64_add start (Z.of_nat (length content))) content false))
        | None => mret (NetError ENTITY_NOT_FOUND "jb:job-log-get:3")
        end
  end.

Definition job_group_abort (group_id : Z) : io reply :=
  aborted ← try (DataStore.abort_job_group group_id);
  mret match aborted with Ok _ => NetOk | Err _ => NetError DATA_STORE "jb:job-group-abort:1" end.

Definition cancel_project (project : JobGroupProject.t) : io unit :=
  job ← DataStore.get_job (JobGroupProject.job_id project);
  match job with
  | Some job => DataStore.update_job (Job.set_state JobState.CancelPending job)
  | None => mret tt
  end.

Definition job_group_cancel (group_id : Z) : io reply :=
  group ← try (DataStore.get_job_group group_id);
  match group with
  | Ok None => mret (NetError ENTITY_NOT_FOUND "jb:job-group-cancel:1")
  | Err _ => mret (NetError DATA_STORE "jb:job-group-cancel:2")
  | Ok (Some group) =>
      _ ← DataStore.cancel_job_group (JobGroup.id group);
      _ ← for_io cancel_project
            (filter (fun p => JobGroupProject.state p = JobGroupProjectState.InProgress) (JobGroup.projects group));
      _ ← notify NotifyWork;
      mret NetOk
  end.

Definition job_group_get (group_id : Z) : io reply :=
  group ← try (DataStore.get_job_group group_id);
  mret match group with
       | Ok (Some group) => ReplyGroup group
       | _ => NetError ENTITY_NOT_FOUND "jb:job-group-get:1"
       end.

Section with_graph.
  Context `{!Petgraph, !RegexEngine}.

Definition graphs : Type := gmap PackageTarget.t PackageGraph.t.

Definition io_outcome {A} (c : outcome A) : io A := match c with Return a => mret a | Panic m => panic m end.

(** The projects of a new group: the root, if asked for, and its reverse dependencies. *)
Definition group_projects (msg : JobGroupSpec) (graph : PackageGraph.t) : outcome (list (string * string)) :=
  let project_name := gs_origin msg +:+ "/" +:+ gs_package msg in
  let project_ident := default "" (PackageGraph.resolve graph project_name) in
  let root := if negb (gs_deps_only msg) || gs_package_only msg then [(project_name, project_ident)] else [] in
  if gs_package_only msg then Return root
  else
    rdeps ← PackageGraph.rdeps_of graph project_name;
    match rdeps with
    | Some rdeps =>
        Return (root ++ filter (fun s : string * string =>
          gs_origin_only msg = false \/ head (Ident.split "/" s.1) = Some (gs_origin msg)) rdeps)
    | None => Return root
    end.

Definition job_group_create (tg : graphs) (msg : JobGroupSpec) : io reply :=
  let project_name := gs_origin msg +:+ "/" +:+ gs_package msg in
  match TargetGraph.graph tg (gs_target msg) with
  | None => mret (NetError ENTITY_NOT_FOUND "jb:job-group-create:2")
  | Some (_, graph) =>
      projects ← io_outcome (group_projects msg graph);
      if decide (projects = []) then mret (ReplyGroup (JobGroup.mk 0 JobGroupState.GroupComplete [] 0 ""))
      else
        queued ← DataStore.get_queued_job_group project_name;
        new_group ← (match queued with
                     | Some group => mret group
                     | None => DataStore.create_job_group msg projects
                     end);
        _ ← notify NotifyScheduler;
        mret (ReplyGroup new_group)
  end.

Definition job_graph_package_reverse_dependencies_get (tg : graphs) (origin name target : string) : io reply :=
  let ident := origin +:+ "/" +:+ name in
  match TargetGraph.graph tg target with
  | None => mret (NetError ENTITY_NOT_FOUND "jb:reverse-dependencies-get:1")
  | Some (_, graph) =>
      rdeps ← io_outcome (PackageGraph.rdeps_of graph ident);
      mret (ReplyRdeps origin name (match rdeps with Some rd => sort_by String.leb rd.*1 | None => [] end))
  end.

Definition job_graph_package_create (tg : graphs) (msg : JobGraphPackage) : io (graphs * reply) :=
  package ← DataStore.create_job_graph_package msg;
  match TargetGraph.graph tg (jp_target msg) with
  | None => mret (tg, NetError ENTITY_NOT_FOUND "jb:job-graph-package-create:1")
  | Some (target, graph) =>
      r ← io_outcome (PackageGraph.extend package graph);
      mret (<[target := (r : PackageGraph.t * (nat * nat)).1]> tg, ReplyPackage package)
  end.

Definition job_graph_package_precreate (tg : graphs) (package : JobGraphPackage) : io (graphs * reply) :=
  match TargetGraph.graph tg (jp_target package) with
  | None => mret (tg, NetError ENTITY_NOT_FOUND "jb:job-graph-package-pc:1")
  | Some (target, graph) =>
      r ← io_outcome (PackageGraph.check_extend package graph);
      let '(graph, can_extend) := (r : PackageGraph.t * bool) in
      mret (<[target := graph]> tg, if can_extend then NetOk else NetError ENTITY_CONFLICT "jb:job-graph-package-pc:2")
  end.

(** [app_init]: the graphs are built from the packages of the database. *)
Definition app_init (o : order) : io graphs :=
  packages ← DataStore.get_job_graph_packages;
  tg ← io_outcome TargetGraph.new;
  r ← io_outcome (TargetGraph.build o packages tg);
  mret (r : graphs * list TargetGraph.TargetGraphStats).1.
End with_graph.
End Handlers.
