(* ===== verification/JobLogic.v ===== *)
(** * Reasoning about the job server

    A weakest-precondition predicate for computations over the world of [JobStore], in runs
    where other threads do not interfere ([calm]).  Its first argument says whether exchanges
    may fail.  It speaks of the database and of the table of workers.  One rule for each operation of the data
    store, and what the statements of the database do to it. *)

From S2P Require Import Prelude Regex ServiceGroup Ident Text PackageGraph Sharding JobTypes JobDb JobStore.
Local Open Scope string_scope.
Local Open Scope list_scope.

(** Nobody interferes, and the origin server answers with the project it is asked for. *)
Definition answers_name (f : string -> route_reply) : Prop :=
  forall n p, f n = RouteProject p -> OriginProject.name p = n.

Record calm (faults : bool) (w : world) : Prop := {
  calm_turns : Forall (fun t => others t = [] /\ (faults = false -> fails t = false)) (turns w);
  calm_routes : Forall answers_name (routes w);
}.

Abbreviation table := (list (string * Worker.t)).

Definition wp (b : bool) {A} (c : io A) (d : Db.t) (ws : table) (Q : answer A -> Db.t -> table -> Prop) : Prop :=
  forall w, calm b w -> db w = d -> workers w = ws ->
    calm b (c w).1 /\ Q (c w).2 (db (c w).1) (workers (c w).1).

(** The postcondition of the first part of a sequence. *)
Definition then_ (b : bool) {A B} (k : A -> io B) (Q : answer B -> Db.t -> table -> Prop) (r : answer A) (d : Db.t) (ws : table) : Prop :=
  match r with
  | Value a => wp b (k a) d ws Q
  | Error e => Q (Error e) d ws
  | Panicked m => Q (Panicked m) d ws
  | OutOfFuel => Q OutOfFuel d ws
  end.

Section rules.
Context (b : bool) {A : Type}.
Implicit Types (Q : answer A -> Db.t -> table -> Prop) (d : Db.t) (ws : table).

Lemma wp_mono (c : io A) d ws Q Q' :
  wp b c d ws Q -> (forall r d' ws', Q r d' ws' -> Q' r d' ws') -> wp b c d ws Q'.
Proof. intros Hc HQ w Hw Hd Hws. destruct (Hc w Hw Hd Hws). split; [done|by apply HQ]. Qed.

Lemma wp_ret (a : A) d ws Q : Q (Value a) d ws -> wp b (mret a) d ws Q.
Proof. intros HQ w Hw <- <-. by split. Qed.

Lemma wp_throw e d ws Q : Q (Error e) d ws -> wp b (throw e) d ws Q.
Proof. intros HQ w Hw <- <-. by split. Qed.

Lemma wp_panic m d ws Q : Q (Panicked m) d ws -> wp b (panic m) d ws Q.
Proof. intros HQ w Hw <- <-. by split. Qed.

Lemma wp_out_of_fuel d ws Q : Q OutOfFuel d ws -> wp b (fun w => (w, OutOfFuel)) d ws Q.
Proof. intros HQ w Hw <- <-. by split. Qed.

Lemma wp_bind {B} (c : io B) (k : B -> io A) d ws Q : wp b c d ws (then_ b k Q) -> wp b (c ≫= k) d ws Q.
Proof.
  intros Hc w Hw Hd Hws. destruct (Hc w Hw Hd Hws) as [Hw' HQ].
  unfold mbind, io_bind. destruct (c w) as [w' [x|e|m|]]; cbn in *; [|done..]. by apply HQ.
Qed.

Lemma wp_try (c : io A) d ws (Q : answer (result job_error A) -> Db.t -> table -> Prop) :
  wp b c d ws (fun r d' ws' =>
    match r with
    | Value a => Q (Value (Ok a)) d' ws'
    | Error e => Q (Value (Err e)) d' ws'
    | Panicked m => Q (Panicked m) d' ws'
    | OutOfFuel => Q OutOfFuel d' ws'
    end) -> wp b (try c) d ws Q.
Proof.
  intros Hc w Hw Hd Hws. destruct (Hc w Hw Hd Hws) as [Hw' HQ].
  unfold try. destruct (c w) as [w' [x|e|m|]]; by split.
Qed.

Lemma wp_lift (c : outcome (result job_error A)) d ws Q :
  match c with
  | Return (Ok a) => Q (Value a) d ws
  | Return (Err e) => Q (Error e) d ws
  | Panic m => Q (Panicked m) d ws
  end -> wp b (lift c) d ws Q.
Proof. intros HQ w Hw <- <-. by destruct c as [[a|e]|m]. Qed.

(** An exchange with a database nobody else touches. *)
Lemma wp_exchange e (f : order -> world -> world * option A) d ws Q :
  (b = true -> Q (Error e) d ws) ->
  (forall o w, calm b w -> db w = d -> workers w = ws ->
     calm b (f o w).1 /\ Q (match (f o w).2 with Some a => Value a | None => Error e end) (db (f o w).1) (workers (f o w).1)) ->
  wp b (exchange e f) d ws Q.
Proof.
  intros He Hf [wd ts rs sn wk] [Ht Hr] <- <-. unfold exchange. cbn in *.
  destruct ts as [|[oth fl o] ts]; cbn.
  - destruct (Hf id_order (World wd [] rs sn wk)) as [Hc HQ]; [by split|done|done|].
    by destruct (f id_order _) as [w' [a|]].
  - apply Forall_cons in Ht as [Ho Ht]. cbn in Ho.
    destruct Ho as [-> Hfl]. destruct fl; [destruct b; [by split; [|apply He]|naive_solver]|]. cbn. destruct (Hf o (World wd ts rs sn wk)) as [Hc HQ]; [by split|done|done|].
    by destruct (f o _) as [w' [a|]].
Qed.

Lemma wp_query e (f : order -> Db.t -> A) d ws Q :
  (b = true -> Q (Error e) d ws) -> (forall o, Q (Value (f o d)) d ws) -> wp b (query e f) d ws Q.
Proof. intros He Hf. apply wp_exchange; [done|]. intros o w Hw <- <-. split; [done|apply Hf]. Qed.

Lemma wp_modify e (f : order -> Db.t -> Db.t * option A) d ws Q :
  (b = true -> Q (Error e) d ws) ->
  (forall o, Q (match (f o d).2 with Some a => Value a | None => Error e end) (f o d).1 ws) ->
  wp b (modify e f) d ws Q.
Proof.
  intros He Hf. apply wp_exchange; [done|]. intros o w [Ht Hr] <- <-. specialize (Hf o).
  destruct (f o (db w)) as [d' r]. split; [by split|done].
Qed.
End rules.

Lemma wp_get_shard b d ws Q : (b = true -> Q (Error DbPool) d ws) -> Q (Value tt) d ws -> wp b get_shard d ws Q.
Proof. intros He HQ. apply wp_exchange; [done|]. intros o w Hw <- <-. by split. Qed.

Lemma wp_execute b e f d ws Q : (b = true -> Q (Error e) d ws) -> Q (Value tt) (f d) ws -> wp b (execute e f) d ws Q.
Proof. intros He HQ. apply wp_exchange; [done|]. intros o w [Ht Hr] <- <-. by split. Qed.

Lemma wp_notify b m d ws Q : (b = true -> Q (Error ZmqErr) d ws) -> Q (Value tt) d ws -> wp b (notify m) d ws Q.
Proof. intros He HQ. apply wp_exchange; [done|]. intros o w [Ht Hr] <- <-. by split. Qed.

Lemma wp_assert f b m d ws Q : (b = true -> Q (Value tt) d ws) -> (b = false -> Q (Panicked m) d ws) -> wp f (assert b m) d ws Q.
Proof. intros Ht Hf. destruct b; [apply wp_ret|apply wp_panic]; auto. Qed.

(** A loop keeps an invariant that speaks of the elements done so far. *)
Lemma wp_loop b {A S} (I : list A -> S -> Db.t -> table -> Prop) (f : A -> S -> io S) l s d ws Q :
  I [] s d ws ->
  (forall l1 x l2 s d ws, l = l1 ++ x :: l2 -> I l1 s d ws ->
     wp b (f x s) d ws (fun r d' ws' => match r with
       | Value s' => I (l1 ++ [x]) s' d' ws'
       | Error e => Q (Error e) d' ws'
       | Panicked m => Q (Panicked m) d' ws'
       | OutOfFuel => Q OutOfFuel d' ws'
       end)) ->
  (forall s d ws, I l s d ws -> Q (Value s) d ws) ->
  wp b (loop f l s) d ws Q.
Proof.
  intros Hs Hf HQ.
  assert (forall l2 l1 s d ws, l = l1 ++ l2 -> I l1 s d ws -> wp b (loop f l2 s) d ws Q) as H.
  { clear s d ws Hs. induction l2 as [|x l2 IH]; intros l1 s d ws Hl HI.
    - rewrite app_nil_r in Hl. subst. apply wp_ret. auto.
    - cbn. apply wp_bind. eapply wp_mono; [by eapply Hf|]. intros [s'|e|m|] d' ws' H'; [|done..].
      apply (IH (l1 ++ [x])); [|done]. by rewrite <- app_assoc. }
  by apply (H l []).
Qed.

(** The same for a loop without a local state, and an invariant of the database only. *)
Lemma wp_for_io b {A} (I : Db.t -> table -> Prop) (f : A -> io unit) l d ws (Q : answer unit -> Db.t -> table -> Prop) :
  I d ws ->
  (forall x d ws, x ∈ l -> I d ws -> wp b (f x) d ws (fun r d' ws' => I d' ws' /\ (r = Value tt \/ Q r d' ws'))) ->
  (forall d ws, I d ws -> Q (Value tt) d ws) ->
  wp b (for_io f l) d ws Q.
Proof.
  intros Hd Hf HQ. apply (wp_loop b (fun _ _ => I)); [done| |intros []; auto].
  intros l1 x l2 [] d' ws' Hl HI. eapply wp_mono; [apply Hf; [subst; set_solver|done]|].
  intros [[]|e|m|] d'' ws''; naive_solver.
Qed.

Lemma wp_mapM b {A B} (P : A -> B -> Prop) (f : A -> io B) l d ws Q :
  (forall x (Q' : answer B -> Db.t -> table -> Prop), x ∈ l ->
     (forall y, P x y -> Q' (Value y) d ws) ->
     (forall e, Q (Error e) d ws -> Q' (Error e) d ws) -> (forall m, Q (Panicked m) d ws -> Q' (Panicked m) d ws) ->
     wp b (f x) d ws Q') ->
  (forall ys, Forall2 P l ys -> Q (Value ys) d ws) ->
  wp b (mapM_io f l) d ws Q.
Proof.
  revert Q. induction l as [|x l IH]; intros Q Hf HQ; cbn; [apply wp_ret, HQ; constructor|].
  apply wp_bind. apply Hf; [set_solver| |by intros e He|by intros m Hm].
  intros y Hy. apply wp_bind. apply IH.
  - intros x' Q' Hx' H1 H2 H3. by apply Hf; [set_solver|..].
  - intros ys Hys. apply wp_ret, HQ. by constructor.
Qed.

(** ** The data store

    Every operation may fail before it does anything: [HE] is what that leaves to show. *)
Section store.
Context (b : bool) {A : Type}.

Lemma wp_store_execute e f d ws Q :
  (b = true -> forall e, Q (Error e) d ws) -> Q (Value tt) (f d) ws -> wp b (_ ← get_shard; execute e f) d ws Q.
Proof. intros HE HQ. apply wp_bind, wp_get_shard; [by intros Hb; apply HE|]. apply wp_execute; [by intros Hb; apply HE|done]. Qed.

Lemma wp_store_query {B} e (f : order -> Db.t -> A) (k : A -> io B) d ws Q :
  (b = true -> forall e, Q (Error e) d ws) -> (forall o, wp b (k (f o d)) d ws Q) -> wp b (_ ← get_shard; rows ← query e f; k rows) d ws Q.
Proof.
  intros HE HQ. apply wp_bind, wp_get_shard; [by intros Hb; apply HE|]. apply wp_bind, wp_query; [by intros Hb; apply HE|apply HQ].
Qed.
End store.

(** ** Computations that keep a relation between the database before and after *)
Definition keeps (R : Db.t -> Db.t -> Prop) {A} (c : io A) : Prop :=
  forall d ws, wp true c d ws (fun _ d' _ => R d d').

Section keeps.
Context (R : Db.t -> Db.t -> Prop) `{!PreOrder R}.

Lemma keeps_ret {A} (a : A) : keeps R (mret a : io A).
Proof. intros d ws. by apply wp_ret. Qed.
Lemma keeps_throw {A} e : keeps R (throw e : io A).
Proof. intros d ws. by apply wp_throw. Qed.
Lemma keeps_panic {A} m : keeps R (panic m : io A).
Proof. intros d ws. by apply wp_panic. Qed.
Lemma keeps_fuel {A} : keeps R (fun w => (w, OutOfFuel) : world * answer A).
Proof. intros d ws. by apply wp_out_of_fuel. Qed.
Lemma keeps_assert b m : keeps R (assert b m).
Proof. intros d ws. by apply wp_assert. Qed.
Lemma keeps_lift {A} (c : outcome (result job_error A)) : keeps R (lift c).
Proof. intros d ws. apply wp_lift. by destruct c as [[]|]. Qed.

Lemma keeps_bind {A B} (c : io A) (k : A -> io B) : keeps R c -> (forall a, keeps R (k a)) -> keeps R (c ≫= k).
Proof.
  intros Hc Hk d ws. apply wp_bind. eapply wp_mono; [apply Hc|]. intros [a|e|m|] d' ws' H'; [|done..].
  eapply wp_mono; [apply Hk|]. cbn. intros _ d'' _ H''. by etrans.
Qed.

Lemma keeps_try {A} (c : io A) : keeps R c -> keeps R (try c).
Proof. intros Hc d ws. apply wp_try. eapply wp_mono; [apply Hc|]. by intros [] d' ws' H'. Qed.

Lemma keeps_query {A} e (f : order -> Db.t -> A) : keeps R (query e f).
Proof. intros d ws. by apply wp_query. Qed.
Lemma keeps_get_shard : keeps R get_shard.
Proof. intros d ws. by apply wp_get_shard. Qed.
Lemma keeps_notify m : keeps R (notify m).
Proof. intros d ws. by apply wp_notify. Qed.

Lemma keeps_execute e f : (forall d, R d (f d)) -> keeps R (execute e f).
Proof. intros Hf d ws. by apply wp_execute. Qed.

Lemma keeps_modify {A} e (f : order -> Db.t -> Db.t * option A) : (forall o d, R d (f o d).1) -> keeps R (modify e f).
Proof. intros Hf d ws. apply wp_modify; [done|]. intros o. apply Hf. Qed.

Lemma keeps_loop {A S} (f : A -> S -> io S) l s : (forall x s, keeps R (f x s)) -> keeps R (loop f l s).
Proof.
  intros Hf. revert s. induction l as [|x l IH]; intros s; cbn; [apply keeps_ret|].
  apply keeps_bind; [apply Hf|]. intros s'. apply IH.
Qed.

Lemma keeps_for_io {A} (f : A -> io unit) l : (forall x, keeps R (f x)) -> keeps R (for_io f l).
Proof. intros Hf. apply keeps_loop. intros x _. apply Hf. Qed.

Lemma keeps_mapM {A B} (f : A -> io B) l : (forall x, keeps R (f x)) -> keeps R (mapM_io f l).
Proof.
  intros Hf. induction l as [|x l IH]; cbn; [apply keeps_ret|].
  apply keeps_bind; [apply Hf|]. intros y. apply keeps_bind; [apply IH|]. intros ys. apply keeps_ret.
Qed.
End keeps.

(** Takes a computation apart; what is left are its statements. *)
Ltac keeps_step :=
  match goal with
  | |- keeps _ (_ ≫= _) => apply keeps_bind; [apply _| |intros ?]
  | |- keeps _ (mret _) => apply keeps_ret; apply _
  | |- keeps _ (throw _) => apply keeps_throw; apply _
  | |- keeps _ (panic _) => apply keeps_panic; apply _
  | |- keeps _ (fun w => (w, OutOfFuel)) => apply keeps_fuel; apply _
  | |- keeps _ (assert _ _) => apply keeps_assert; apply _
  | |- keeps _ (lift _) => apply keeps_lift; apply _
  | |- keeps _ (try _) => apply keeps_try
  | |- keeps _ (query _ _) => apply keeps_query; apply _
  | |- keeps _ get_shard => apply keeps_get_shard; apply _
  | |- keeps _ (notify _) => apply keeps_notify; apply _
  | |- keeps _ (loop _ _ _) => apply keeps_loop; [apply _|intros ? ?]
  | |- keeps _ (for_io _ _) => apply keeps_for_io; [apply _|intros ?]
  | |- keeps _ (mapM_io _ _) => apply keeps_mapM; [apply _|intros ?]
  | |- keeps _ (execute _ _) => apply keeps_execute; [apply _|intros ?]
  | |- keeps _ (modify _ _) => apply keeps_modify; [apply _|intros ? ?]
  | |- keeps _ (match ?x with _ => _ end) => destruct x
  | |- PreOrder _ => apply _
  end.
Ltac keeps_tac := repeat (keeps_step || (eauto 1 with keeps; fail)).
Create HintDb keeps discriminated.
