(* ===== verification/JobGroups.v ===== *)
(** * The groups of the job server

    At any time at most one group of a project is active and at most one is queued, whatever
    requests and passes run, and whatever exchanges with the database fail. *)

From S2P Require Import Prelude Regex ServiceGroup Ident Text Target Petgraph PackageGraph PackageGraphProofs.
From S2P Require Import Sharding JobTypes JobDb JobStore Scheduler WorkerManager JobHandlers JobLogic.
Local Open Scope string_scope.
Local Open Scope list_scope.

(** ** The invariant *)
Record groups_ok (d : Db.t) : Prop := {
  ok_ids : NoDup (GroupRow.id <$> Db.groups d);
  ok_active r1 r2 : r1 ∈ Db.groups d -> r2 ∈ Db.groups d -> Db.is_active r1 = true -> Db.is_active r2 = true ->
    GroupRow.project_name r1 = GroupRow.project_name r2 -> r1 = r2;
  ok_queued r1 r2 : r1 ∈ Db.groups d -> r2 ∈ Db.groups d ->
    GroupRow.group_state r1 = JobGroupState.GroupQueued -> GroupRow.group_state r2 = JobGroupState.GroupQueued ->
    GroupRow.project_name r1 = GroupRow.project_name r2 -> r1 = r2;
}.

Definition active (s : JobGroupState.t) : Prop := s = JobGroupState.GroupPending \/ s = JobGroupState.GroupDispatching.

Lemma is_active_spec r : Db.is_active r = true <-> active (GroupRow.group_state r).
Proof. unfold Db.is_active, Db.in_group_state, active. rewrite orb_true_iff, !bool_decide_eq_true. done. Qed.

(** The rows after the state of one group is set. *)
Lemma elem_of_set_state gid s d r :
  r ∈ Db.groups (Db.set_group_state_v1 gid s d) <->
  exists r0, r0 ∈ Db.groups d /\ r = if decide (GroupRow.id r0 = gid) then GroupRow.set_state s r0 else r0.
Proof.
  cbn. unfold Db.update. rewrite list_elem_of_fmap.
  split; [intros (r0 & -> & Hr)|intros (r0 & Hr & ->)]; exists r0; destruct (Z.eqb_spec (GroupRow.id r0) gid); by case_decide.
Qed.

Lemma set_state_ids gid s d : GroupRow.id <$> Db.groups (Db.set_group_state_v1 gid s d) = GroupRow.id <$> Db.groups d.
Proof.
  cbn. unfold Db.update. rewrite <- list_fmap_compose. apply list_fmap_ext. intros i r _. cbn.
  by destruct (Z.eqb (GroupRow.id r) gid).
Qed.

Lemma ids_inj d r1 r2 :
  NoDup (GroupRow.id <$> Db.groups d) -> r1 ∈ Db.groups d -> r2 ∈ Db.groups d -> GroupRow.id r1 = GroupRow.id r2 -> r1 = r2.
Proof.
  intros Hnd [i Hi]%list_elem_of_lookup [j Hj]%list_elem_of_lookup Heq.
  assert (i = j) as ->; [|congruence].
  eapply NoDup_lookup; [exact Hnd|rewrite list_lookup_fmap, Hi; done|rewrite list_lookup_fmap, Hj; cbn; by rewrite Heq].
Qed.

(** Setting the state of one group keeps the invariant when the group may have that state:
    no other group of the project is active or queued, respectively. *)
Lemma set_state_ok gid s d :
  groups_ok d ->
  (active s -> forall r, r ∈ Db.groups d -> GroupRow.id r = gid ->
     forall r', r' ∈ Db.groups d -> Db.is_active r' = true -> GroupRow.project_name r' = GroupRow.project_name r -> r' = r) ->
  s <> JobGroupState.GroupQueued ->
  groups_ok (Db.set_group_state_v1 gid s d).
Proof.
  intros [Hids Ha Hq] Hs Hnq. split.
  - by rewrite set_state_ids.
  - intros r1 r2 (x1 & Hx1 & ->)%elem_of_set_state (x2 & Hx2 & ->)%elem_of_set_state. rewrite !is_active_spec.
    destruct (decide (GroupRow.id x1 = gid)) as [E1|], (decide (GroupRow.id x2 = gid)) as [E2|]; cbn.
    + intros. f_equal. apply (ids_inj d); congruence.
    + intros As A2 En. exfalso. rewrite <- is_active_spec in A2. apply (Hs As x1) in A2; [congruence|done..].
    + intros A1 As En. exfalso. rewrite <- is_active_spec in A1. apply (Hs As x2) in A1; [congruence|done..].
    + rewrite <- !is_active_spec. by apply Ha.
  - intros r1 r2 (x1 & Hx1 & ->)%elem_of_set_state (x2 & Hx2 & ->)%elem_of_set_state.
    destruct (decide (GroupRow.id x1 = gid)), (decide (GroupRow.id x2 = gid)); cbn; try done. by apply Hq.
Qed.

(** An active group can change to any state but queued. *)
Lemma set_state_of_active gid s d r :
  groups_ok d -> r ∈ Db.groups d -> GroupRow.id r = gid -> Db.is_active r = true ->
  s <> JobGroupState.GroupQueued -> groups_ok (Db.set_group_state_v1 gid s d).
Proof.
  intros Hok Hr Hid Hact Hs. apply set_state_ok; [done| |done]. intros _ r0 Hr0 Hid0 r' Hr' Hact' Hn.
  assert (r0 = r) as -> by (apply (ids_inj d); [apply Hok|done|done|congruence]). by apply (ok_active d Hok).
Qed.

Lemma set_state_inactive gid s d :
  groups_ok d -> ~ active s -> s <> JobGroupState.GroupQueued -> groups_ok (Db.set_group_state_v1 gid s d).
Proof. intros Hok Hs Hq. by apply set_state_ok. Qed.

(** ** The statements and operations that leave the groups alone *)
Definition same_groups (d d' : Db.t) : Prop := Db.groups d' = Db.groups d.

#[export] Instance same_groups_preorder : PreOrder same_groups.
Proof. split; [by intros d|]. intros d1 d2 d3 H1 H2. unfold same_groups in *. congruence. Qed.

Definition ok_kept (d d' : Db.t) : Prop := groups_ok d -> groups_ok d'.

#[export] Instance ok_kept_preorder : PreOrder ok_kept.
Proof. split; [by intros d ?|]. intros d1 d2 d3 H1 H2 H. auto. Qed.

Lemma same_groups_ok d d' : same_groups d d' -> groups_ok d -> groups_ok d'.
Proof. intros Hs [H1 H2 H3]. unfold same_groups in Hs. split; by rewrite Hs. Qed.

Lemma keeps_weaken {A} (c : io A) : keeps same_groups c -> keeps ok_kept c.
Proof. intros Hc d ws. eapply wp_mono; [apply Hc|]. intros r d' ws' H'. intros Hd. exact (same_groups_ok _ _ H' Hd). Qed.

Ltac same_tac := intros; keeps_tac; try reflexivity;
  try (repeat (case_match || case_decide); simplify_eq/=; reflexivity).

Lemma insert_job_groups a b c e f g h i d : same_groups d (Db.insert_job_v2 a b c e f g h i d).1.
Proof. unfold Db.insert_job_v2. by destruct (existsb _ _). Qed.

Lemma create_job_same job : keeps same_groups (DataStore.create_job job).
Proof. unfold DataStore.create_job. keeps_tac. apply insert_job_groups. Qed.
Lemma get_job_same id : keeps same_groups (DataStore.get_job id).
Proof. unfold DataStore.get_job. same_tac. Qed.
Lemma get_jobs_for_project_same n a b : keeps same_groups (DataStore.get_jobs_for_project n a b).
Proof. unfold DataStore.get_jobs_for_project. same_tac. Qed.
Lemma next_pending_job_same n : keeps same_groups (DataStore.next_pending_job n).
Proof. unfold DataStore.next_pending_job. keeps_tac. unfold Db.next_pending_job_v1. by destruct (Db.oldest _ _). Qed.
Lemma get_cancel_pending_jobs_same : keeps same_groups DataStore.get_cancel_pending_jobs.
Proof. unfold DataStore.get_cancel_pending_jobs. same_tac. Qed.
Lemma get_dispatched_jobs_same : keeps same_groups DataStore.get_dispatched_jobs.
Proof. unfold DataStore.get_dispatched_jobs. same_tac. Qed.
Lemma update_job_same j : keeps same_groups (DataStore.update_job j).
Proof. unfold DataStore.update_job. same_tac. Qed.
Lemma upsert_busy_worker_same bw : keeps same_groups (DataStore.upsert_busy_worker bw).
Proof. unfold DataStore.upsert_busy_worker. keeps_tac. unfold Db.upsert_busy_worker_v1. by destruct (existsb _ _). Qed.
Lemma delete_busy_worker_same bw : keeps same_groups (DataStore.delete_busy_worker bw).
Proof. unfold DataStore.delete_busy_worker. same_tac. Qed.
Lemma get_busy_workers_same : keeps same_groups DataStore.get_busy_workers.
Proof. unfold DataStore.get_busy_workers. same_tac. Qed.
Lemma create_job_graph_package_same p : keeps same_groups (DataStore.create_job_graph_package p).
Proof. unfold DataStore.create_job_graph_package. keeps_tac. unfold Db.upsert_graph_package_v1. by destruct (existsb _ _). Qed.
Lemma get_job_graph_packages_same : keeps same_groups DataStore.get_job_graph_packages.
Proof. unfold DataStore.get_job_graph_packages. same_tac. Qed.
Lemma get_job_graph_package_same i : keeps same_groups (DataStore.get_job_graph_package i).
Proof. unfold DataStore.get_job_graph_package. same_tac. Qed.
Lemma get_queued_job_group_same n : keeps same_groups (DataStore.get_queued_job_group n).
Proof. unfold DataStore.get_queued_job_group, DataStore.with_projects. same_tac. Qed.
Lemma get_job_group_same g : keeps same_groups (DataStore.get_job_group g).
Proof. unfold DataStore.get_job_group, DataStore.with_projects. same_tac. Qed.
Lemma set_job_group_project_state_same g n s : keeps same_groups (DataStore.set_job_group_project_state g n s).
Proof. unfold DataStore.set_job_group_project_state. same_tac. Qed.
Lemma set_job_group_job_state_same j : keeps same_groups (DataStore.set_job_group_job_state j).
Proof. unfold DataStore.set_job_group_job_state. same_tac. Qed.
Lemma sync_jobs_same : keeps same_groups DataStore.sync_jobs.
Proof. unfold DataStore.sync_jobs. same_tac. Qed.
Lemma set_job_sync_same i : keeps same_groups (DataStore.set_job_sync i).
Proof. unfold DataStore.set_job_sync. same_tac. Qed.

#[export] Hint Resolve create_job_same get_job_same get_jobs_for_project_same next_pending_job_same
  get_cancel_pending_jobs_same get_dispatched_jobs_same update_job_same upsert_busy_worker_same delete_busy_worker_same
  get_busy_workers_same create_job_graph_package_same get_job_graph_packages_same get_job_graph_package_same
  get_queued_job_group_same get_job_group_same set_job_group_project_state_same set_job_group_job_state_same
  sync_jobs_same set_job_sync_same : keeps.

(** ** The scheduler *)

Lemma route_same n : keeps same_groups (ScheduleMgr.route n).
Proof.
  intros d ws w [Ht Hr] <- <-. unfold ScheduleMgr.route. destruct (routes w) as [|f fs] eqn:E; cbn.
  - split; [|done]. by split; [|rewrite E].
  - apply Forall_cons in Hr as [_ Hr]. by split.
Qed.
#[export] Hint Resolve route_same : keeps.

Lemma check_deps_same g deps : keeps same_groups (ScheduleMgr.check_deps g deps).
Proof. induction deps as [|dep deps IH]; cbn; [keeps_tac|]. unfold ScheduleMgr.dep_name. keeps_tac. Qed.
Lemma any_skipped_same sk deps : keeps same_groups (ScheduleMgr.any_skipped sk deps).
Proof. induction deps as [|dep deps IH]; cbn; [keeps_tac|]. unfold ScheduleMgr.dep_name. keeps_tac. Qed.
#[export] Hint Resolve check_deps_same any_skipped_same : keeps.

Lemma dispatchable_projects_same g : keeps same_groups (ScheduleMgr.dispatchable_projects g).
Proof. unfold ScheduleMgr.dispatchable_projects, ScheduleMgr.project_dispatchable. keeps_tac. Qed.
Lemma skip_projects_same g n : keeps same_groups (ScheduleMgr.skip_projects g n).
Proof. unfold ScheduleMgr.skip_projects, ScheduleMgr.skip_project. keeps_tac. Qed.
Lemma schedule_job_same g n : keeps same_groups (ScheduleMgr.schedule_job g n).
Proof. unfold ScheduleMgr.schedule_job. keeps_tac. Qed.
Lemma get_group_same g : keeps same_groups (ScheduleMgr.get_group g).
Proof. unfold ScheduleMgr.get_group. keeps_tac. Qed.
#[export] Hint Resolve dispatchable_projects_same skip_projects_same schedule_job_same get_group_same : keeps.
#[export] Hint Resolve keeps_weaken : keeps.

Lemma set_inactive_kept gid s :
  ~ active s -> s <> JobGroupState.GroupQueued -> keeps ok_kept (DataStore.set_job_group_state gid s).
Proof. intros Ha Hq. unfold DataStore.set_job_group_state. keeps_tac. intros Hd. by apply set_state_inactive. Qed.

Lemma dispatch_loop_kept g l sk : keeps ok_kept (ScheduleMgr.dispatch_loop g l sk).
Proof.
  revert sk. induction l as [|p l IH]; intros sk; cbn [ScheduleMgr.dispatch_loop]; [keeps_tac|].
  destruct (decide _); [apply IH|]. unfold ScheduleMgr.unwrap.
  keeps_tac; try (apply keeps_weaken; solve [eauto 2 with keeps]); try apply IH.
  apply set_inactive_kept; [by intros [?|?]|done].
Qed.

Lemma dispatch_group_kept g : keeps ok_kept (ScheduleMgr.dispatch_group g).
Proof.
  unfold ScheduleMgr.dispatch_group. keeps_tac; [apply keeps_weaken; eauto with keeps|apply dispatch_loop_kept].
Qed.

(** What reading a group gives. *)
Lemma wp_get_job_group b gid d ws Q :
  (b = true -> forall e, Q (Error e) d ws) ->
  (forall m, (1 < length (Db.get_group_v1 gid d))%nat \/ (forall o, Db.get_group_projects_for_group_v1 o gid d = []) -> Q (Panicked m) d ws) ->
  (Db.get_group_v1 gid d = [] -> Q (Value None) d ws) ->
  (forall o row, row ∈ Db.groups d -> GroupRow.id row = gid ->
     Q (Value (Some (JobGroup.set_projects (rows_to_job_group_projects (Db.get_group_projects_for_group_v1 o gid d))
                       (row_to_job_group row)))) d ws) ->
  wp b (DataStore.get_job_group gid) d ws Q.
Proof.
  intros HE HP HN HS. unfold DataStore.get_job_group. apply wp_store_query; [done|]. intros _.
  destruct (Db.get_group_v1 gid d) as [|row rows] eqn:E; [apply wp_ret; auto|].
  assert (row ∈ Db.get_group_v1 gid d) as [Hid Hrow]%list_elem_of_filter by (rewrite E; set_solver).
  apply wp_bind, wp_assert; intros Hl; [|apply HP; left; apply bool_decide_eq_false in Hl; cbn in *; lia].
  unfold DataStore.with_projects. apply wp_bind, wp_bind, wp_query; [intros Hb; by apply HE|]. intros o. cbn [then_].
  apply wp_ret. cbn. apply wp_bind, wp_assert; intros Hp.
  - apply wp_ret. rewrite Hid. by apply HS.
  - apply HP. right. intros o'. apply bool_decide_eq_false in Hp. rewrite Hid in Hp.
    unfold Db.get_group_projects_for_group_v1, Db.select in *. apply Permutation_nil.
    rewrite permute_perm. rewrite length_permute in Hp. destruct (filter _ _); [done|]. cbn in Hp. lia.
Qed.

Lemma new_group_state_not_queued l n : ScheduleMgr.new_group_state l n <> JobGroupState.GroupQueued.
Proof. unfold ScheduleMgr.new_group_state. by repeat case_decide. Qed.

Lemma update_group_state_kept gid : keeps ok_kept (ScheduleMgr.update_group_state gid).
Proof.
  intros d ws. unfold ScheduleMgr.update_group_state, ScheduleMgr.get_group.
  apply wp_bind, wp_bind, wp_get_job_group; [intros; cbn; reflexivity|intros; cbn; reflexivity| |].
  { intros _. apply wp_throw. cbn. reflexivity. }
  intros o row Hrow Hid. apply wp_ret. cbn [then_].
  case_decide as Hs; [|apply wp_ret; reflexivity]. cbn in Hs.
  apply wp_bind. eapply wp_mono; [apply dispatchable_projects_same|]. cbn. intros r d' ws' Hsame.
  destruct r as [l|e|m|]; cbn; try (intros Hd; by eapply same_groups_ok).
  assert (Hok : groups_ok d -> forall s, s <> JobGroupState.GroupQueued -> groups_ok (Db.set_group_state_v1 gid s d')).
  { intros Hd s Hq. unfold same_groups in Hsame. apply (set_state_of_active gid s d' row); [by eapply same_groups_ok|by rewrite Hsame|done| |done].
    apply is_active_spec. by right. }
  apply wp_bind, wp_store_execute; [intros _ e Hd; by eapply same_groups_ok|]. cbn.
  case_decide; [apply wp_notify|apply wp_ret]; intros; intros Hd; by apply Hok, new_group_state_not_queued.
Qed.

Lemma elem_of_select {R} o (P : R -> bool) (l : list R) r : r ∈ Db.select o P l <-> r ∈ l /\ P r = true.
Proof. unfold Db.select. rewrite elem_of_permute, list_elem_of_filter. tauto. Qed.

(** The queued groups as they were read: their rows are still there, under their names. *)
Definition still_there (g : JobGroup.t) (d : Db.t) : Prop :=
  exists r, r ∈ Db.groups d /\ GroupRow.id r = JobGroup.id g /\ GroupRow.project_name r = JobGroup.project_name g.

Lemma still_there_set g gid s d : still_there g d -> still_there g (Db.set_group_state_v1 gid s d).
Proof.
  intros (r & Hr & Hid & Hn). exists (if decide (GroupRow.id r = gid) then GroupRow.set_state s r else r).
  split; [apply elem_of_set_state; eauto|]. by destruct (decide _).
Qed.

Lemma wp_is_job_group_active b n d ws Q :
  (b = true -> forall e, Q (Error e) d ws) ->
  (forall a : bool, (a = false <-> forall r, r ∈ Db.groups d -> GroupRow.project_name r = n -> Db.is_active r = false) -> Q (Value a) d ws) ->
  wp b (DataStore.is_job_group_active n) d ws Q.
Proof.
  intros HE HQ. unfold DataStore.is_job_group_active. apply wp_store_query; [done|]. intros o. apply wp_ret, HQ.
  rewrite bool_decide_eq_false. split.
  - intros Hl r Hr Hn. apply not_true_is_false. intros Ha. apply Hl.
    assert (r ∈ Db.check_active_group_v1 o n d) as Hin.
    { apply elem_of_select. split; [done|]. by rewrite Hn, String.eqb_refl, Ha. }
    destruct (Db.check_active_group_v1 o n d); [by apply not_elem_of_nil in Hin|cbn; lia].
  - intros Hn Hl. destruct (Db.check_active_group_v1 o n d) as [|r l] eqn:E; [cbn in Hl; lia|].
    assert (r ∈ Db.check_active_group_v1 o n d) as [Hr Ha]%elem_of_select by (rewrite E; set_solver).
    apply andb_true_iff in Ha as [Hname%String.eqb_eq Ha]. rewrite Hn in Ha; done.
Qed.

Lemma process_queue_kept : keeps ok_kept ScheduleMgr.process_queue.
Proof.
  intros d ws. unfold ScheduleMgr.process_queue, DataStore.get_queued_job_groups.
  apply wp_bind, wp_store_query; [intros _ e; cbn; reflexivity|]. intros o. apply wp_ret. cbn [then_].
  apply (wp_for_io _ (fun d' _ => (groups_ok d -> groups_ok d') /\
    forall g, g ∈ (row_to_job_group <$> Db.get_queued_groups_v1 o d) -> still_there g d')).
  - split; [done|]. intros g (r & -> & [Hr _]%elem_of_select)%list_elem_of_fmap. by exists r.
  - intros g d' ws' Hg [Hok Hst]. apply wp_bind, wp_assert; intros _; [|cbn; tauto].
    apply wp_bind, wp_is_job_group_active; [cbn; tauto|]. intros a Ha. cbn.
    destruct a; cbn; [apply wp_ret; tauto|].
    apply wp_store_execute; [tauto|]. split; [|tauto].
    split; [|intros; apply still_there_set; auto]. intros Hd. apply set_state_ok; [auto| |done].
    intros _ r Hr Hid r' Hr' Hact Hn. exfalso. destruct (Hst g Hg) as (x & Hx & Hxid & Hxn).
    assert (x = r) as -> by (apply (ids_inj d'); [apply Hok, Hd|done|done|congruence]).
    assert (Db.is_active r' = false) by (apply Ha; [done|done|congruence]). congruence.
  - tauto.
Qed.

Lemma oldest_elem {R} (key : R -> Z) l r : Db.oldest key l = Some r -> r ∈ l.
Proof.
  revert r. induction l as [|x l IH]; intros r; cbn; [done|].
  destruct (Db.oldest key l) as [y|] eqn:E; [case_decide|]; intros [= <-]; set_solver.
Qed.

Lemma pending_groups_ok o d : groups_ok d -> groups_ok (Db.pending_groups_v1 o d).1.
Proof.
  intros Hd. unfold Db.pending_groups_v1. destruct (Db.oldest _ _) as [r|] eqn:E; [|done]. cbn.
  apply oldest_elem, elem_of_select in E as [Hr Hs]. eapply set_state_of_active; [done|done|done| |done].
  apply is_active_spec. left. by apply bool_decide_eq_true in Hs.
Qed.

Lemma pending_job_groups_kept : keeps ok_kept DataStore.pending_job_groups.
Proof.
  unfold DataStore.pending_job_groups, DataStore.with_projects. keeps_tac. intros Hd.
  match goal with |- context [Db.pending_groups_v1 ?o ?d] => pose proof (pending_groups_ok o d Hd) as H end.
  by destruct (Db.pending_groups_v1 _ _).
Qed.

Lemma process_work_kept fuel : keeps ok_kept (ScheduleMgr.process_work fuel).
Proof.
  induction fuel as [|fuel IH]; cbn [ScheduleMgr.process_work]; [keeps_tac|].
  apply keeps_bind; [apply _|apply pending_job_groups_kept|]. intros gs.
  keeps_tac; [apply dispatch_group_kept|apply update_group_state_kept].
Qed.

Lemma process_status_kept : keeps ok_kept ScheduleMgr.process_status.
Proof.
  unfold ScheduleMgr.process_status. apply keeps_bind; [apply _|apply keeps_weaken, sync_jobs_same|]. intros jobs.
  apply keeps_for_io; [apply _|]. intros j. unfold ScheduleMgr.sync_job.
  keeps_tac; try (apply keeps_weaken; solve [eauto 2 with keeps]); apply update_group_state_kept.
Qed.

Lemma pass_kept fuel : keeps ok_kept (ScheduleMgr.pass fuel).
Proof.
  unfold ScheduleMgr.pass. keeps_tac; [apply process_status_kept|apply process_queue_kept|apply process_work_kept].
Qed.

(** ** The worker manager *)

Lemma get_workers_same : keeps same_groups get_workers.
Proof. intros d ws w Hw <- <-. by split. Qed.
Lemma set_workers_same l : keeps same_groups (set_workers l).
Proof. intros d ws w [Ht Hr] <- <-. by split. Qed.
#[export] Hint Resolve get_workers_same set_workers_same : keeps.

Lemma cancel_on_worker_same j k : keeps same_groups (WorkerMgr.cancel_on_worker j k).
Proof. unfold WorkerMgr.cancel_on_worker, WorkerMgr.worker_cancel_job. keeps_tac. Qed.
#[export] Hint Resolve cancel_on_worker_same : keeps.

Ltac worker_tac :=
  unfold WorkerMgr.delete_worker, WorkerMgr.save_worker,
    WorkerMgr.worker_start_job, WorkerMgr.requeue_job, WorkerMgr.cancel_job, WorkerMgr.is_job_complete,
    remove_worker, insert_worker, io_expect, io_outcome; keeps_tac.

Lemma expire_loop_same now l : keeps same_groups (WorkerMgr.expire_loop now l).
Proof. induction l as [|[k wk] l IH]; cbn [WorkerMgr.expire_loop]; worker_tac. Qed.

Lemma worker_work_same jt oi pi dec fuel now : keeps same_groups (WorkerMgr.process_work jt oi pi dec fuel now).
Proof. induction fuel as [|fuel IH]; cbn [WorkerMgr.process_work]; worker_tac. Qed.
#[export] Hint Resolve expire_loop_same worker_work_same : keeps.

Lemma startup_same jt now : keeps same_groups (WorkerMgr.startup jt now).
Proof. unfold WorkerMgr.startup, WorkerMgr.load_workers, WorkerMgr.requeue_jobs. worker_tac. Qed.

Lemma round_same jt oi pi dec fuel now hb st work : keeps same_groups (WorkerMgr.round jt oi pi dec fuel now hb st work).
Proof.
  unfold WorkerMgr.round, WorkerMgr.process_heartbeat, WorkerMgr.heartbeat_of_worker, WorkerMgr.expire_workers,
    WorkerMgr.process_job_status, WorkerMgr.process_cancelations. worker_tac.
Qed.

(** ** The handlers *)

Lemma wp_get_queued_job_group b n d ws Q :
  (b = true -> forall e, Q (Error e) d ws) ->
  (forall m, Q (Panicked m) d ws) ->
  ((forall r, r ∈ Db.groups d -> GroupRow.project_name r = n -> GroupRow.group_state r <> JobGroupState.GroupQueued) ->
     Q (Value None) d ws) ->
  (forall g, Q (Value (Some g)) d ws) ->
  wp b (DataStore.get_queued_job_group n) d ws Q.
Proof.
  intros HE HP HN HS. unfold DataStore.get_queued_job_group. apply wp_store_query; [done|]. intros o.
  destruct (Db.get_queued_group_v1 o n d) as [|row rows] eqn:E.
  - apply wp_ret, HN. intros r Hr Hn Hq. assert (r ∈ Db.get_queued_group_v1 o n d) as Hin; [|rewrite E in Hin; by apply not_elem_of_nil in Hin].
    apply elem_of_select. split; [done|]. unfold Db.in_group_state. by rewrite Hn, String.eqb_refl, Hq.
  - apply wp_bind, wp_assert; intros _; [|cbn; eauto]. unfold DataStore.with_projects.
    apply wp_bind, wp_bind, wp_query; [intros Hb; by apply HE|]. intros o'. apply wp_ret. cbn.
    apply wp_bind, wp_assert; intros _; [apply wp_ret; auto|cbn; eauto].
Qed.

Lemma insert_group_ok n ps d :
  groups_ok d ->
  (forall r, r ∈ Db.groups d -> GroupRow.project_name r = n -> GroupRow.group_state r <> JobGroupState.GroupQueued) ->
  groups_ok (Db.insert_group_v2 n ps d).1.
Proof.
  intros Hd Hn. unfold Db.insert_group_v2. set (id := next_id_v1 _ _ _).
  cbn. destruct (existsb _ _) eqn:E; cbn; [by apply (same_groups_ok d)|].
  assert (Hid : forall r, r ∈ Db.groups d -> GroupRow.id r <> id).
  { intros r Hr Heq. enough (existsb (fun r => Z.eqb (GroupRow.id r) id) (Db.groups d) = true) by congruence.
    apply existsb_exists. exists r. split; [by apply list_elem_of_In|by apply Z.eqb_eq]. }
  destruct Hd as [Hids Ha Hq]. split; cbn.
  - rewrite fmap_app. apply NoDup_app. split_and!; [done| |apply NoDup_singleton].
    intros x (r & -> & Hr)%list_elem_of_fmap Hx. apply list_elem_of_singleton in Hx. by apply (Hid r).
  - intros r1 r2 [H1| ->%list_elem_of_singleton]%elem_of_app [H2| ->%list_elem_of_singleton]%elem_of_app A1 A2; [by apply Ha|done|done|done].
  - intros r1 r2 [H1| ->%list_elem_of_singleton]%elem_of_app [H2| ->%list_elem_of_singleton]%elem_of_app Q1 Q2 En.
    + by apply Hq.
    + by destruct (Hn r1 H1 En).
    + by destruct (Hn r2 H2 (eq_sym En)).
    + done.
Qed.

Section handlers.
  Context `{!Petgraph, !RegexEngine}.

Lemma job_group_create_kept tg msg : keeps ok_kept (Handlers.job_group_create tg msg).
Proof.
  intros d ws. unfold Handlers.job_group_create.
  destruct (TargetGraph.graph tg (gs_target msg)) as [[tgt g]|]; [|apply wp_ret; reflexivity].
  apply wp_bind. unfold Handlers.io_outcome. destruct (Handlers.group_projects msg g) as [ps|m]; [|apply wp_panic; cbn; reflexivity].
  apply wp_ret. cbn [then_]. case_decide; [apply wp_ret; reflexivity|].
  apply wp_bind, wp_get_queued_job_group; [intros; cbn; reflexivity|intros; cbn; reflexivity| |].
  - intros Hn. cbn [then_]. unfold DataStore.create_job_group.
    assert (Hins : ok_kept d (Db.insert_group_v2 (gs_origin msg +:+ "/" +:+ gs_package msg) ps d).1)
      by (intros Hd; by apply insert_group_ok).
    apply wp_bind, wp_bind, wp_get_shard; [intros; cbn; reflexivity|].
    apply wp_bind, wp_assert; intros _; [|cbn; reflexivity].
    apply wp_bind, wp_modify; [intros; cbn; reflexivity|]. intros o.
    destruct (Db.insert_group_v2 _ ps d) as [d' [row|]]; cbn in *; [|done].
    apply wp_ret. cbn. apply wp_bind, wp_notify; [done|]. by apply wp_ret.
  - intros gr. cbn [then_]. apply wp_bind, wp_ret. cbn. apply wp_bind, wp_notify; [intros; cbn; reflexivity|].
    apply wp_ret. reflexivity.
Qed.

(** ** Everything that happens to the database *)

(** The passes of the two threads and the requests; the package graphs of a request, and the
    answers of the other services, are whatever they are at that time. *)
Inductive action :=
| SchedulerPass (fuel : nat)
| WorkerStartup (job_timeout now : Z)
| WorkerRound (job_timeout : Z) (oi pi : Job.t -> option (list Integration)) (decrypt : string -> option string)
    (fuel : nat) (now : Z) (heartbeat : option Heartbeat) (status : option Job.t) (work : bool)
| CreateJob (msg : JobSpec.t)
| CreateGroup (tg : Handlers.graphs) (msg : JobGroupSpec)
| CancelGroup (group_id : Z)
| AbortGroup (group_id : Z)
| CreatePackage (tg : Handlers.graphs) (msg : JobGraphPackage).

Definition run_action (a : action) : io unit :=
  match a with
  | SchedulerPass fuel => ScheduleMgr.pass fuel
  | WorkerStartup jt now => WorkerMgr.startup jt now
  | WorkerRound jt oi pi dec fuel now hb st work => WorkerMgr.round jt oi pi dec fuel now hb st work
  | CreateJob msg => _ ← Handlers.job_create msg; mret tt
  | CreateGroup tg msg => _ ← Handlers.job_group_create tg msg; mret tt
  | CancelGroup id => _ ← Handlers.job_group_cancel id; mret tt
  | AbortGroup id => _ ← Handlers.job_group_abort id; mret tt
  | CreatePackage tg msg => _ ← Handlers.job_graph_package_create tg msg; mret tt
  end.

Definition empty_db (c : Z) : Db.t := Db.mk [] [] [] [] [] 0 0 0 c.

(** The databases that sequences of actions lead to; nobody interferes with an action ([calm]), but
    exchanges may fail. *)
Inductive reachable : Db.t -> Prop :=
| reach_empty c : reachable (empty_db c)
| reach_clock d c : reachable d -> (Db.clock d <= c)%Z -> reachable (Db.set_clock c d)
| reach_action a w : reachable (db w) -> calm true w -> reachable (db (run_action a w).1).

Lemma cancel_group_kept gid : keeps ok_kept (Handlers.job_group_cancel gid).
Proof.
  unfold Handlers.job_group_cancel, Handlers.cancel_project, DataStore.cancel_job_group.
  keeps_tac; try (apply keeps_weaken; solve [eauto 2 with keeps]).
  intros Hd. unfold Db.cancel_group_v1. apply set_state_inactive; [by apply (same_groups_ok d)|by intros [?|?]|done].
Qed.

Lemma abort_group_kept gid : keeps ok_kept (Handlers.job_group_abort gid).
Proof.
  unfold Handlers.job_group_abort, DataStore.abort_job_group. keeps_tac.
  intros Hd. unfold Db.abort_group_v1. apply set_state_inactive; [by apply (same_groups_ok d)|by intros [?|?]|done].
Qed.

Lemma action_kept a : keeps ok_kept (run_action a).
Proof.
  destruct a; cbn [run_action].
  - apply pass_kept.
  - apply keeps_weaken, startup_same.
  - apply keeps_weaken, round_same.
  - apply keeps_weaken. unfold Handlers.job_create. keeps_tac.
  - keeps_tac. apply job_group_create_kept.
  - keeps_tac. apply cancel_group_kept.
  - keeps_tac. apply abort_group_kept.
  - apply keeps_weaken. unfold Handlers.job_graph_package_create, Handlers.io_outcome. keeps_tac.
Qed.

(** C17: when requests, passes of the scheduler and rounds of the worker manager run one after the
    other, none of them while another one is under way, then whatever they are, whatever exchanges
    with the database fail and whatever threads panic: at any time at most one group of a
    project is active (pending or dispatching) and at most one is queued, and the identifiers
    of groups are unique.  (Two requests at the same time can queue two groups, see
    [JobFlaws].) *)
Theorem one_active_group d : reachable d -> groups_ok d.
Proof.
  induction 1 as [c|d c Hd IH Hc|a w Hw IH Hcalm].
  - split; cbn; [by apply NoDup_nil|intros r1 r2 Hr; by apply not_elem_of_nil in Hr..].
  - by apply (same_groups_ok d).
  - destruct (action_kept a (db w) (workers w) w) as [_ Hk]; [done..|]. by apply Hk.
Qed.
End handlers.

(** ** An example *)
Module JobGroupsExample.
#[local] Existing Instance reference_graph.
#[local] Existing Instance reference_engine.

Definition packages : list JobGraphPackage :=
  [PackageGraphExample.zlib; PackageGraphExample.openssl; PackageGraphExample.nginx].

Definition tg : Handlers.graphs :=
  match (g ← TargetGraph.new; TargetGraph.build id_order packages g) with Return (g, _) => g | Panic _ => ∅ end.

Definition spec : JobGroupSpec := mkJobGroupSpec "core" "zlib" false "x86_64-linux" false false.

Definition project_named (n : string) : OriginProject.t := OriginProject.mk 1 "core" "zlib" n "plan.sh" 1 "git" "url" None.

Definition world_of (d : Db.t) : world := World d [] (replicate 5 (fun n => RouteProject (project_named n))) [] [].

Definition after (d : Db.t) (a : action) : Db.t := db (run_action a (world_of d)).1.

Definition created : Db.t :=
  after (foldl after (empty_db 1500000000000) ((fun p => CreatePackage tg p) <$> packages)) (CreateGroup tg spec).

Definition dispatched : Db.t := after (after created (SchedulerPass 5)) (CreateGroup tg spec).

Lemma world_calm d : calm true (world_of d).
Proof.
  split; [constructor|]. apply Forall_replicate. intros n p [= <-]. done.
Qed.

Lemma after_reachable d a : reachable d -> reachable (after d a).
Proof. intros Hd. apply (reach_action a (world_of d)); [done|apply world_calm]. Qed.

Lemma foldl_reachable l d : reachable d -> reachable (foldl after d l).
Proof. revert d. induction l as [|a l IH]; intros d Hd; [done|]. cbn. apply IH. by apply after_reachable. Qed.

(** Dispatching and queued at the same time, one group each. *)
Lemma one_active_group_witness :
  (GroupRow.group_state <$> Db.groups dispatched) = [JobGroupState.GroupDispatching; JobGroupState.GroupQueued] /\
  groups_ok dispatched.
Proof.
  split; [vm_compute; reflexivity|].
  apply one_active_group. apply after_reachable, after_reachable, after_reachable, foldl_reachable, reach_empty.
Defined.
End JobGroupsExample.
