(* ===== verification/SchedulerProofs.v ===== *)
(** * The scheduler: properties

    A project is dispatched only when what it depends on is built; one pass over the pending
    groups ends; skipping follows the dependencies; and what is lost when threads interleave. *)

From S2P Require Import Prelude Regex ServiceGroup Ident Text Target Petgraph PackageGraph PackageGraphProofs.
From S2P Require Import Sharding JobTypes JobDb JobStore Scheduler WorkerManager JobHandlers JobLogic JobGroups.
From Stdlib Require Import Ascii.
Local Open Scope string_scope.
Local Open Scope list_scope.

(** ** Dependencies *)

(** The short name of a dependency, if it has one. *)
Definition short (dep : string) : option string :=
  match Ident.split "/" dep with a :: b :: _ => Some (a +:+ "/" +:+ b) | _ => None end.

(** The short names of the dependencies of a project's package. *)
Definition deps_of (d : Db.t) (p : JobGroupProject.t) : list string :=
  match Db.get_graph_package_v1 (JobGroupProject.ident p) d with
  | pkg :: _ => omap short (jp_deps pkg)
  | [] => []
  end.

(** Everything in the group the project depends on is built. *)
Definition ready (d : Db.t) (group : JobGroup.t) (p : JobGroupProject.t) : Prop :=
  JobGroupProject.ident p = "" \/
  Db.get_graph_package_v1 (JobGroupProject.ident p) d <> [] /\
  forall n q, n ∈ deps_of d p -> q ∈ JobGroup.projects group -> JobGroupProject.name q = n ->
    JobGroupProject.state q = JobGroupProjectState.Success.

(** Package identifiers are unique and all dependencies have an origin and a name. *)
Record packages_ok (d : Db.t) : Prop := {
  pk_unique : forall i, (length (Db.get_graph_package_v1 i d) <= 1)%nat;
  pk_deps : forall pkg dep, pkg ∈ Db.graph_packages d -> dep ∈ jp_deps pkg -> is_Some (short dep);
}.

Lemma check_dispatchable_spec g n :
  ScheduleMgr.check_dispatchable g n = true <->
  forall q, q ∈ JobGroup.projects g -> JobGroupProject.name q = n -> JobGroupProject.state q = JobGroupProjectState.Success.
Proof.
  unfold ScheduleMgr.check_dispatchable. rewrite forallb_forall. split.
  - intros H q Hq <-. specialize (H q (proj1 (list_elem_of_In _ _) Hq)). rewrite String.eqb_refl in H. cbn in H.
    rewrite negb_involutive, bool_decide_eq_true in H. done.
  - intros H q Hq%list_elem_of_In. destruct (String.eqb_spec (JobGroupProject.name q) n) as [Hn|]; [|done].
    cbn. by rewrite negb_involutive, bool_decide_eq_true, H.
Qed.

Lemma omap_cons {A B} (f : A -> option B) x l : omap f (x :: l) = match f x with Some y => y :: omap f l | None => omap f l end.
Proof. done. Qed.

Section rules.
Context (b : bool) (d : Db.t) (ws : table).

Lemma wp_dep_name dep Q :
  (short dep = None -> forall m, Q (Panicked m) d ws) -> (forall n, short dep = Some n -> Q (Value n) d ws) ->
  wp b (ScheduleMgr.dep_name dep) d ws Q.
Proof.
  unfold short, ScheduleMgr.dep_name. destruct (Ident.split "/" dep) as [|a [|c l]]; intros HP HQ;
    [apply wp_panic; auto..|apply wp_ret; auto].
Qed.

Lemma wp_check_deps g deps Q :
  ((exists dep, dep ∈ deps /\ short dep = None) -> forall m, Q (Panicked m) d ws) ->
  (forall x : bool, (x = true <-> forall n, n ∈ omap short deps -> ScheduleMgr.check_dispatchable g n = true) ->
     (x = true -> forall dep, dep ∈ deps -> is_Some (short dep)) -> Q (Value x) d ws) ->
  wp b (ScheduleMgr.check_deps g deps) d ws Q.
Proof.
  induction deps as [|dep deps IH]; intros HP HQ; cbn [ScheduleMgr.check_deps].
  - apply wp_ret, HQ; [|set_solver]. split; [|done]. intros _ n Hn. by apply not_elem_of_nil in Hn.
  - apply wp_bind, wp_dep_name.
    + intros Hs m. apply HP. exists dep. set_solver.
    + intros n Hn. cbn [then_]. destruct (ScheduleMgr.check_dispatchable g n) eqn:Hc; cbn [negb].
      * apply IH; [intros (dep' & ? & ?); apply HP; exists dep'; set_solver|]. intros x Hx Hs. apply HQ.
        -- rewrite Hx, omap_cons, Hn. split; [intros H m [->|?]%elem_of_cons; auto|intros H m ?; apply H; set_solver].
        -- intros -> dep' [->|?]%elem_of_cons; eauto.
      * apply wp_ret, HQ; [|done]. rewrite omap_cons, Hn. split; [done|]. intros H. specialize (H n ltac:(set_solver)). congruence.
Qed.

Lemma wp_any_skipped sk deps Q :
  ((exists dep, dep ∈ deps /\ short dep = None) -> forall m, Q (Panicked m) d ws) ->
  (forall x : bool, (x = true <-> exists n, n ∈ omap short deps /\ n ∈ sk) -> Q (Value x) d ws) ->
  wp b (ScheduleMgr.any_skipped sk deps) d ws Q.
Proof.
  induction deps as [|dep deps IH]; intros HP HQ; cbn [ScheduleMgr.any_skipped].
  - apply wp_ret, HQ. split; [done|]. intros (n & Hn & _). by apply not_elem_of_nil in Hn.
  - apply wp_bind, wp_dep_name.
    + intros Hs m. apply HP. exists dep. set_solver.
    + intros n Hn. cbn [then_]. case_decide as Hin.
      * apply wp_ret, HQ. rewrite omap_cons, Hn. split; [intros _|done]. exists n. set_solver.
      * apply IH; [intros (dep' & ? & ?); apply HP; exists dep'; set_solver|]. intros x Hx. apply HQ.
        rewrite Hx, omap_cons, Hn. split; [intros (m & ? & ?)|intros (m & [->|?]%elem_of_cons & ?)]; [exists m; set_solver|done|by exists m].
Qed.

Lemma wp_get_job_graph_package i Q :
  (b = true -> forall e, Q (Error e) d ws) ->
  (Db.get_graph_package_v1 i d = [] -> Q (Error UnknownJobGraphPackage) d ws) ->
  (~ packages_ok d -> forall m, Q (Panicked m) d ws) ->
  (forall pkg, head (Db.get_graph_package_v1 i d) = Some pkg -> Q (Value pkg) d ws) ->
  wp b (DataStore.get_job_graph_package i) d ws Q.
Proof.
  intros HE HN HP HQ. unfold DataStore.get_job_graph_package. apply wp_store_query; [done|]. intros _.
  destruct (Db.get_graph_package_v1 i d) as [|pkg l] eqn:E; [apply wp_throw; auto|].
  apply wp_bind, wp_assert; intros Hl; cbn; [apply wp_ret; auto|]. apply HP; intros Hok. destruct Hok as [Hu _]. specialize (Hu i).
  rewrite E in Hu. apply bool_decide_eq_false in Hl. cbn in *. lia.
Qed.

Lemma wp_project_dispatchable g p Q :
  (b = true -> forall e, Q (Error e) d ws) ->
  (JobGroupProject.ident p <> "" -> Db.get_graph_package_v1 (JobGroupProject.ident p) d = [] -> Q (Error UnknownJobGraphPackage) d ws) ->
  (~ packages_ok d -> forall m, Q (Panicked m) d ws) ->
  (forall x : bool, (x = true <-> ready d g p) -> Q (Value x) d ws) ->
  wp b (ScheduleMgr.project_dispatchable g p) d ws Q.
Proof.
  intros HE HN HP HQ. unfold ScheduleMgr.project_dispatchable.
  destruct (String.eqb_spec (JobGroupProject.ident p) "") as [Hi|Hi]; [apply wp_ret, HQ; split; [by left|done]|].
  apply wp_bind, wp_get_job_graph_package; [done|cbn; auto|done|]. intros pkg Hpkg. cbn [then_].
  destruct (Db.get_graph_package_v1 (JobGroupProject.ident p) d) as [|pkg' l] eqn:E; [done|]. injection Hpkg as <-.
  assert (pkg' ∈ Db.graph_packages d) as Hin
    by (assert (pkg' ∈ Db.get_graph_package_v1 (JobGroupProject.ident p) d) as [_ ?]%list_elem_of_filter by (rewrite E; set_solver); done).
  apply wp_check_deps.
  - intros (dep & Hdep & Hs) m. apply HP. intros [_ Hok]. destruct (Hok pkg' dep Hin Hdep) as [n ?]. congruence.
  - intros x Hx _. apply HQ. rewrite Hx. unfold ready, deps_of. rewrite E. split.
    + intros H. right. split; [done|]. intros n q Hn Hq Hname. specialize (H n Hn).
      rewrite check_dispatchable_spec in H. by apply H.
    + intros [?|[_ H]] n Hn; [done|]. rewrite check_dispatchable_spec. intros q Hq Hname. by eapply H.
Qed.

(** [dispatchable_projects] selects the projects that are not started and ready. *)
Lemma wp_dispatchable_projects g Q :
  (b = true -> forall e, Q (Error e) d ws) ->
  ((exists p, p ∈ JobGroup.projects g /\ JobGroupProject.ident p <> "" /\ Db.get_graph_package_v1 (JobGroupProject.ident p) d = []) ->
     Q (Error UnknownJobGraphPackage) d ws) ->
  (~ packages_ok d -> forall m, Q (Panicked m) d ws) ->
  (forall l, l `sublist_of` ScheduleMgr.not_started (JobGroup.projects g) ->
     (forall p, p ∈ l <-> p ∈ ScheduleMgr.not_started (JobGroup.projects g) /\ ready d g p) -> Q (Value l) d ws) ->
  wp b (ScheduleMgr.dispatchable_projects g) d ws Q.
Proof.
  intros HE HN HP HQ. unfold ScheduleMgr.dispatchable_projects.
  apply (wp_loop b (fun l1 acc d' ws' => d' = d /\ ws' = ws /\ acc `sublist_of` l1 /\
    forall p, p ∈ acc <-> p ∈ l1 /\ ready d g p)).
  - split_and!; [done|done|done|]. intros p. split; [intros H; by apply not_elem_of_nil in H|intros [H _]; by apply not_elem_of_nil in H].
  - intros l1 p l2 acc d' ws' Hl (-> & -> & Hsub & Hacc). apply wp_bind, wp_project_dispatchable; cbn; [done| |done|].
    + intros Hi He. apply HN. exists p. split_and!; [|done|done].
      assert (p ∈ ScheduleMgr.not_started (JobGroup.projects g)) as [_ ?]%list_elem_of_filter by (rewrite Hl; set_solver). done.
    + intros x Hx. apply wp_ret. split_and!; [done|done| |].
      * destruct x; [by apply sublist_app|by apply sublist_inserts_r].
      * intros q. destruct x.
        -- rewrite !elem_of_app, !list_elem_of_singleton, Hacc. naive_solver.
        -- rewrite elem_of_app, list_elem_of_singleton, Hacc. split; [naive_solver|]. intros [[?| ->] Hr]; [done|]. apply Hx in Hr. done.
  - intros acc d' ws' (-> & -> & Hsub & Hacc). auto.
Qed.
End rules.

(** ** Dispatching *)

(** How the projects of groups move while groups are dispatched: only from one state to
    another that is neither not started nor success. *)
Definition moves (r r' : ProjectRow.t) : Prop :=
  ProjectRow.id r' = ProjectRow.id r /\ ProjectRow.owner_id r' = ProjectRow.owner_id r /\
  ProjectRow.project_name r' = ProjectRow.project_name r /\ ProjectRow.project_ident r' = ProjectRow.project_ident r /\
  (ProjectRow.project_state r' = ProjectRow.project_state r \/
   ProjectRow.project_state r' <> JobGroupProjectState.NotStarted /\ ProjectRow.project_state r' <> JobGroupProjectState.Success).

Definition evolves (d d' : Db.t) : Prop :=
  Db.graph_packages d' = Db.graph_packages d /\ Forall2 moves (Db.group_projects d) (Db.group_projects d').

#[export] Instance moves_preorder : PreOrder moves.
Proof.
  split; [by intros r; repeat split; left|].
  intros r1 r2 r3 (? & ? & ? & ? & Hs1) (? & ? & ? & ? & Hs2). repeat split; try congruence.
  destruct Hs1 as [Hs1|Hs1], Hs2 as [Hs2|Hs2]; [left; congruence|tauto|right; by rewrite Hs2|tauto].
Qed.

#[export] Instance evolves_preorder : PreOrder evolves.
Proof.
  split.
  - intros d. split; [done|]. reflexivity.
  - intros d1 d2 d3 [E1 F1] [E2 F2]. split; [congruence|]. by etrans.
Qed.

Lemma update_moves (P : ProjectRow.t -> bool) f l :
  (forall r, moves r (f r)) -> Forall2 moves l (Db.update P f l).
Proof.
  intros Hf. unfold Db.update. induction l as [|r l IH]; cbn; constructor; [|done]. by destruct (P r).
Qed.

Lemma set_state_moves s r :
  s <> JobGroupProjectState.NotStarted -> s <> JobGroupProjectState.Success -> moves r (ProjectRow.set_state s r).
Proof. intros. repeat split; by right. Qed.

Lemma set_job_moves j s r :
  s <> JobGroupProjectState.NotStarted -> s <> JobGroupProjectState.Success -> moves r (ProjectRow.set_job j s r).
Proof. intros. repeat split; by right. Qed.

(** No project of that name in the group is still to be started. *)
Definition rows_done (gid : Z) (n : string) (d : Db.t) : Prop :=
  forall r, r ∈ Db.group_projects d -> ProjectRow.owner_id r = gid -> ProjectRow.project_name r = n ->
    ProjectRow.project_state r <> JobGroupProjectState.NotStarted.

Lemma evolves_row d d' r' :
  evolves d d' -> r' ∈ Db.group_projects d' -> exists r, r ∈ Db.group_projects d /\ moves r r'.
Proof.
  intros [_ HF] [i Hi]%list_elem_of_lookup. destruct (Forall2_lookup_r _ _ _ _ _ HF Hi) as (r & Hr & Hm).
  exists r. split; [by eapply list_elem_of_lookup_2|done].
Qed.

Lemma rows_done_evolves gid n d d' : rows_done gid n d -> evolves d d' -> rows_done gid n d'.
Proof.
  intros Hd He r' Hr' Ho Hn. destruct (evolves_row _ _ _ He Hr') as (r & Hr & _ & Ho' & Hn' & _ & [Hs|[Hs _]]); [|done].
  rewrite Hs. apply Hd; congruence.
Qed.

(** What the dispatch of a group changes besides: jobs of the group are added, and the state of
    the group. *)
Lemma row_to_job_ok r j :
  row_to_job r = Return (Ok j) ->
  Job.id j = JobRow.id r /\ Job.owner_id j = JobRow.owner_id r /\ Job.state j = JobRow.job_state r /\
  OriginProject.name (Job.project j) = JobRow.project_name r.
Proof.
  unfold row_to_job. cbn. intros H. repeat (case_match; simplify_eq/=; try done).
  all: unfold mbind, outcome_bind in H; repeat (case_match; simplify_eq/=; try done).
Qed.

Section dispatch.
Context (gid : Z) (d : Db.t) (ws : table).

Lemma wp_route b n Q :
  (forall r, (forall p, r = RouteProject p -> OriginProject.name p = n) -> Q (Value r) d ws) ->
  wp b (ScheduleMgr.route n) d ws Q.
Proof.
  intros HQ w [Ht Hr] <- <-. unfold ScheduleMgr.route. destruct (routes w) as [|f fs] eqn:E; cbn.
  - split; [by split; [|rewrite E]|]. by apply HQ.
  - apply Forall_cons in Hr as [Hf Hr]. split; [by split|]. apply HQ. intros p Hp. by eapply Hf.
Qed.

(** The jobs after one was created for a project of the group. *)
Definition adds_job (n : string) (d' : Db.t) : Prop :=
  Db.groups d' = Db.groups d /\ Db.group_projects d' = Db.group_projects d /\ Db.graph_packages d' = Db.graph_packages d /\
  forall r, r ∈ Db.jobs d' -> r ∈ Db.jobs d \/ JobRow.owner_id r = gid /\ JobRow.project_name r = n.

Lemma wp_create_job b job Q :
  (b = true -> forall e, Q (Error e) d ws) ->
  (forall e d', adds_job (OriginProject.name (Job.project job)) d' -> Q (Error e) d' ws) ->
  (forall m d', adds_job (OriginProject.name (Job.project job)) d' -> Q (Panicked m) d' ws) ->
  (forall j d', adds_job (OriginProject.name (Job.project job)) d' -> Job.state j = JobState.Pending -> Job.owner_id j = gid ->
     OriginProject.name (Job.project j) = OriginProject.name (Job.project job) -> Q (Value j) d' ws) ->
  Job.owner_id job = gid ->
  wp b (DataStore.create_job job) d ws Q.
Proof.
  intros HE HE' HP HQ Hgid. unfold DataStore.create_job. apply wp_bind, wp_get_shard; [by intros Hb; apply HE|].
  cbn [then_]. case_match; [|apply wp_throw, HE'; by split_and!; auto].
  apply wp_bind, wp_modify; [by intros Hb; apply HE|]. intros _. unfold Db.insert_job_v2. cbn [fst snd].
  destruct (existsb _ _); cbn [fst snd].
  { apply HE'. split_and!; auto. }
  set (row := JobRow.mk _ _ _ _ _ _ _ _ _ _ _ _ _ _ _ _ _ _ _ _). cbn [then_].
  assert (Hadd : adds_job (OriginProject.name (Job.project job)) (Db.set_jobs (Db.jobs d ++ [row]) (Db.set_seqs (Db.job_id_seq d + 1) (Db.groups_id_seq d) (Db.group_projects_id_seq d) d))).
  { split_and!; [done..|]. intros r [?| ->%list_elem_of_singleton]%elem_of_app; [by left|right; by split]. }
  apply wp_lift. destruct (row_to_job row) as [[j|e]|m] eqn:E; [|auto..].
  apply row_to_job_ok in E as (_ & Ho & Hs & Hn). apply HQ; [done|..]; cbn in *; congruence.
Qed.

Lemma wp_schedule_job b n Q :
  (b = true -> forall e, Q (Error e) d ws) ->
  (forall e d', adds_job n d' -> Q (Error e) d' ws) ->
  (forall m d', adds_job n d' -> Q (Panicked m) d' ws) ->
  Q (Value None) d ws ->
  (forall j d', adds_job n d' -> Job.state j = JobState.Pending -> Job.owner_id j = gid ->
     OriginProject.name (Job.project j) = n -> Q (Value (Some j)) d' ws) ->
  wp b (ScheduleMgr.schedule_job gid n) d ws Q.
Proof.
  intros HE HE' HP HN HQ. unfold ScheduleMgr.schedule_job. apply wp_bind, wp_route. intros r Hr. cbn [then_].
  destruct r as [p| |]; [|by apply wp_ret..]. specialize (Hr p eq_refl). subst n.
  apply wp_bind, wp_create_job; cbn [then_]; [done|done|done| |done].
  intros j d' Ha Hs Ho Hn. apply wp_bind, wp_notify; [intros _; by apply HE'|]. apply wp_ret. by apply HQ.
Qed.

Lemma set_name_state_evolves n s :
  s <> JobGroupProjectState.NotStarted -> s <> JobGroupProjectState.Success ->
  evolves d (Db.set_group_project_name_state_v1 gid n s d) /\ rows_done gid n (Db.set_group_project_name_state_v1 gid n s d).
Proof.
  intros H1 H2. split; [split; [done|]; apply update_moves; intros r; by apply set_state_moves|].
  intros r' Hr' Ho Hn. cbn in Hr'. unfold Db.update in Hr'. apply list_elem_of_fmap in Hr' as (r & -> & Hr).
  destruct (Z.eqb_spec (ProjectRow.owner_id r) gid) as [|], (String.eqb_spec (ProjectRow.project_name r) n) as [|]; cbn in *; done.
Qed.

(** The job of a project is entered in its row. *)
Lemma wp_set_job_group_job_state b job Q :
  (b = true -> forall e, Q (Error e) d ws) ->
  (forall e, Q (Error e) d ws) ->
  (forall m, Q (Panicked m) d ws) ->
  (forall d', evolves d d' -> Db.groups d' = Db.groups d -> Db.jobs d' = Db.jobs d ->
     rows_done gid (OriginProject.name (Job.project job)) d' -> Q (Value tt) d' ws) ->
  Job.owner_id job = gid -> Job.state job = JobState.Pending ->
  wp b (DataStore.set_job_group_job_state job) d ws Q.
Proof.
  intros HE HE' HP HQ Hgid Hs. unfold DataStore.set_job_group_job_state. apply wp_store_query; [done|]. intros o.
  destruct (Db.find_group_project_v1 o _ _ d) as [|row rows] eqn:E; [by apply wp_throw|].
  apply wp_bind, wp_assert; intros Hl; [|by apply HP]. cbn [then_]. rewrite Hs. rewrite decide_False by done.
  apply bool_decide_eq_true in Hl. destruct rows as [|? rows]; [|done]. clear Hl.
  apply wp_execute; [by intros Hb; apply HE|]. apply HQ; try done.
  - split; [done|]. apply update_moves. intros r. by apply set_job_moves.
  - intros r' Hr' Ho Hn. cbn in Hr'. unfold Db.update in Hr'. apply list_elem_of_fmap in Hr' as (r & -> & Hr).
    assert (r ∈ Db.find_group_project_v1 o (Job.owner_id job) (OriginProject.name (Job.project job)) d -> r = row) as Huniq.
    { rewrite E. intros ?%list_elem_of_singleton. done. }
    destruct (Z.eqb_spec (ProjectRow.id r) (ProjectRow.id row)) as [|Hne]; [done|]. cbn in *.
    destruct Hne. rewrite Huniq; [done|]. apply elem_of_select. split; [done|].
    by rewrite Ho, Hgid, Z.eqb_refl, Hn, String.eqb_refl.
Qed.
End dispatch.

(** Skipping marks what it returns, the given project apart. *)
Lemma wp_skip_projects b g x d ws (Q : answer (gset string) -> Db.t -> table -> Prop) :
  (forall r d', r <> OutOfFuel -> evolves d d' -> Db.groups d' = Db.groups d -> Db.jobs d' = Db.jobs d ->
     (forall sk n, r = Value sk -> n ∈ sk -> n = x \/ rows_done (JobGroup.id g) n d') -> Q r d' ws) ->
  wp b (ScheduleMgr.skip_projects g x) d ws Q.
Proof.
  intros HQ. unfold ScheduleMgr.skip_projects.
  set (I := fun (sk : gset string) d' => evolves d d' /\ Db.groups d' = Db.groups d /\ Db.jobs d' = Db.jobs d /\
    forall n, n ∈ sk -> n = x \/ rows_done (JobGroup.id g) n d').
  assert (HI : forall r sk d', r <> OutOfFuel -> I sk d' -> (forall sk', r = Value sk' -> sk' = sk) -> Q r d' ws).
  { intros r sk d' Hf (He & Hg & Hj & Hsk) Hr. apply HQ; [done..|]. intros sk' n -> Hn. rewrite (Hr sk') in Hn by done. auto. }
  apply (wp_loop b (fun _ sk d' ws' => I sk d' /\ ws' = ws)).
  - split; [|done]. split_and!; [reflexivity|done|done|]. intros n Hn%elem_of_singleton. by left.
  - intros l1 p l2 sk d' ws' _ [HId ->]. unfold ScheduleMgr.skip_project.
    apply wp_bind, wp_try, wp_get_job_graph_package; cbn [then_].
    { intros _ e. by apply wp_ret. }
    { intros _. by apply wp_ret. }
    { intros _ m. by apply (HI _ sk). }
    intros pkg _. apply wp_bind, wp_any_skipped; cbn [then_]; [intros _ m; by apply (HI _ sk)|].
    intros [] _; [|by apply wp_ret]. destruct HId as (He & Hg & Hj & Hsk).
    apply wp_bind, wp_store_execute; cbn [then_]; [intros _ e; apply (HI _ sk); [done|by split_and!|done]|].
    destruct (set_name_state_evolves (JobGroup.id g) d' (JobGroupProject.name p) JobGroupProjectState.Skipped) as [He' Hdone]; [done..|].
    apply wp_ret. split; [|done]. split_and!; [by etrans|done|done|].
    intros n [->%elem_of_singleton|Hn]%elem_of_union; [by right|]. destruct (Hsk n Hn) as [->|?]; [by left|right].
    by eapply rows_done_evolves.
  - intros sk d' ws' [HId ->]. apply (HI _ sk); [done|done|]. by intros sk' [= ->].
Qed.

(** What dispatching the projects [l] of a group does, whatever fails on the way. *)
Record dispatched (g : JobGroup.t) (l : list JobGroupProject.t) (d : Db.t) (r : answer unit) (d' : Db.t) : Prop := {
  dp_evolves : evolves d d';
  dp_groups : Db.groups d' = Db.groups d \/ Db.groups d' = Db.groups (Db.set_group_state_v1 (JobGroup.id g) JobGroupState.GroupFailed d);
  dp_jobs : forall x, x ∈ Db.jobs d' -> x ∈ Db.jobs d \/
    JobRow.owner_id x = JobGroup.id g /\ exists p, p ∈ l /\ JobRow.project_name x = JobGroupProject.name p;
  dp_done : r = Value tt ->
    Db.groups d' = Db.groups (Db.set_group_state_v1 (JobGroup.id g) JobGroupState.GroupFailed d) \/
    Db.groups d' = Db.groups d /\ forall p, p ∈ l -> rows_done (JobGroup.id g) (JobGroupProject.name p) d';
  dp_fuel : r <> OutOfFuel;
}.

(** A first project, then the others. *)
Lemma dispatched_cons g p l d d1 r d' :
  evolves d d1 -> Db.groups d1 = Db.groups d ->
  (forall x, x ∈ Db.jobs d1 -> x ∈ Db.jobs d \/ JobRow.owner_id x = JobGroup.id g /\ JobRow.project_name x = JobGroupProject.name p) ->
  rows_done (JobGroup.id g) (JobGroupProject.name p) d1 ->
  dispatched g l d1 r d' -> dispatched g (p :: l) d r d'.
Proof.
  intros He Hg Hj Hd [He' Hg' Hj' Hd' Hf].
  assert (Hset : Db.groups (Db.set_group_state_v1 (JobGroup.id g) JobGroupState.GroupFailed d1) =
    Db.groups (Db.set_group_state_v1 (JobGroup.id g) JobGroupState.GroupFailed d)) by (cbn; by rewrite Hg).
  rewrite Hset, Hg in *. split.
  - by etrans.
  - done.
  - intros x Hx. destruct (Hj' x Hx) as [Hx'|(Ho & q & Hq & Hn)].
    + destruct (Hj x Hx') as [?|[Ho Hn]]; [by left|right]. split; [done|]. exists p. set_solver.
    + right. split; [done|]. exists q. set_solver.
  - intros Hr. destruct (Hd' Hr) as [?|[Hg2 Hdone]]; [by left|right]. split; [done|].
    intros q [->|Hq]%elem_of_cons; [by eapply rows_done_evolves|by apply Hdone].
  - done.
Qed.

(** It stopped at the first project. *)
Lemma dispatched_stop g p l d r d' :
  evolves d d' -> Db.groups d' = Db.groups d ->
  (forall x, x ∈ Db.jobs d' -> x ∈ Db.jobs d \/ JobRow.owner_id x = JobGroup.id g /\ JobRow.project_name x = JobGroupProject.name p) ->
  r <> Value tt -> r <> OutOfFuel -> dispatched g (p :: l) d r d'.
Proof.
  intros He Hg Hj Hr Hf. split; [done|by left| |done|done].
  intros x Hx. destruct (Hj x Hx) as [?|[Ho Hn]]; [by left|right]. split; [done|]. exists p. set_solver.
Qed.

(** The group is marked as failed. *)
Lemma dispatched_failed g p l d r d1 d' :
  evolves d d1 -> Db.groups d1 = Db.groups d -> Db.group_projects d1 = Db.group_projects d ->
  (forall x, x ∈ Db.jobs d1 -> x ∈ Db.jobs d \/ JobRow.owner_id x = JobGroup.id g /\ JobRow.project_name x = JobGroupProject.name p) ->
  evolves (Db.set_group_state_v1 (JobGroup.id g) JobGroupState.GroupFailed d1) d' ->
  Db.groups d' = Db.groups (Db.set_group_state_v1 (JobGroup.id g) JobGroupState.GroupFailed d1) -> Db.jobs d' = Db.jobs d1 ->
  r <> OutOfFuel -> dispatched g (p :: l) d r d'.
Proof.
  intros He Hg Hp Hj He' Hg' Hj' Hf.
  assert (Hset : Db.groups d' = Db.groups (Db.set_group_state_v1 (JobGroup.id g) JobGroupState.GroupFailed d)) by (rewrite Hg'; cbn; by rewrite Hg).
  split; [|by right| |by left|done].
  - etrans; [exact He|]. etrans; [|exact He']. split; [done|cbn; reflexivity].
  - rewrite Hj'. intros x Hx. destruct (Hj x Hx) as [?|[Ho Hn]]; [by left|right]. split; [done|]. exists p. set_solver.
Qed.

Lemma adds_job_evolves gid n d d' : adds_job gid d n d' -> evolves d d'.
Proof. intros (_ & Hp & Hg & _). split; [done|by rewrite Hp]. Qed.

Lemma wp_dispatch_loop b g l sk d ws (Q : answer unit -> Db.t -> table -> Prop) :
  (forall n, n ∈ sk -> rows_done (JobGroup.id g) n d) ->
  (forall r d', dispatched g l d r d' -> Q r d' ws) ->
  wp b (ScheduleMgr.dispatch_loop g l sk) d ws Q.
Proof.
  revert sk d Q. induction l as [|p l IH]; intros sk d Q Hsk HQ; cbn [ScheduleMgr.dispatch_loop].
  { apply wp_ret, HQ. split; [reflexivity|by left|by left| |done]. intros _. right. split; [done|]. intros p Hp. by apply not_elem_of_nil in Hp. }
  case_decide as Hin.
  { apply IH; [done|]. intros r d' Hd. apply HQ. apply (dispatched_cons g p l d d); [reflexivity|done|by left|by apply Hsk|done]. }
  apply wp_bind, wp_assert; intros _; [|apply HQ, dispatched_stop; [reflexivity|done|by left|done|done]].
  cbn [then_].
  assert (Herr : forall d1, adds_job (JobGroup.id g) d (JobGroupProject.name p) d1 ->
    wp b (_ ← DataStore.set_job_group_state (JobGroup.id g) JobGroupState.GroupFailed;
          DataStore.set_job_group_project_state (JobGroup.id g) (JobGroupProject.name p) JobGroupProjectState.Failure) d1 ws Q).
  { intros d1 Ha. pose proof (adds_job_evolves _ _ _ _ Ha) as He. destruct Ha as (Hg & Hp & _ & Hj).
    apply wp_bind, wp_store_execute; cbn [then_]; [intros _ e; by apply HQ, dispatched_stop|].
    assert (Hfail : forall r d', evolves (Db.set_group_state_v1 (JobGroup.id g) JobGroupState.GroupFailed d1) d' ->
      Db.groups d' = Db.groups (Db.set_group_state_v1 (JobGroup.id g) JobGroupState.GroupFailed d1) -> Db.jobs d' = Db.jobs d1 ->
      r <> OutOfFuel -> Q r d' ws) by (intros; apply HQ; by eapply dispatched_failed).
    apply wp_store_execute; [intros _ e; by apply Hfail|].
    apply Hfail; [|done..]. by apply set_name_state_evolves. }
  apply wp_bind, wp_try, wp_schedule_job; cbn [then_].
  - intros _ e. apply Herr. split_and!; auto.
  - intros e d' Ha. by apply Herr.
  - intros m d' Ha. apply HQ, dispatched_stop; [by eapply adds_job_evolves|apply Ha|apply Ha|done|done].
  - apply wp_bind, wp_store_execute; cbn [then_]; [intros _ e; apply HQ, dispatched_stop; [reflexivity|done|by left|done|done]|].
    destruct (set_name_state_evolves (JobGroup.id g) d (JobGroupProject.name p) JobGroupProjectState.Skipped) as [He Hdone]; [done..|].
    apply wp_bind, wp_skip_projects. intros r d' Hr He' Hg' Hj' Hsk'.
    assert (Hall : evolves d d') by (by etrans).
    destruct r as [sk'|e|m|]; cbn [then_].
    + apply IH.
      * intros n [Hn|Hn]%elem_of_union; [|by eapply rows_done_evolves; [apply Hsk|]].
        destruct (Hsk' sk' n eq_refl Hn) as [->|?]; [by eapply rows_done_evolves|done].
      * intros r d'' Hd. apply HQ. apply (dispatched_cons g p l d d'); [done|by rewrite Hg'| |by eapply rows_done_evolves|done].
        rewrite Hj'. by left.
    + apply HQ, dispatched_stop; [done|by rewrite Hg'|rewrite Hj'; by left|done|done].
    + apply HQ, dispatched_stop; [done|by rewrite Hg'|rewrite Hj'; by left|done|done].
    + done.
  - intros j d1 Ha Hs Ho Hn. pose proof (adds_job_evolves _ _ _ _ Ha) as He1. destruct Ha as (Hg1 & Hp1 & _ & Hj1).
    unfold ScheduleMgr.unwrap. apply wp_bind, wp_bind, wp_try, (wp_set_job_group_job_state (JobGroup.id g)); cbn [then_]; [| | | |done|done].
    + intros _ e. apply wp_panic. cbn. apply HQ, dispatched_stop; done.
    + intros e. apply wp_panic. cbn. apply HQ, dispatched_stop; done.
    + intros m. apply HQ, dispatched_stop; done.
    + intros d2 He2 Hg2 Hj2 Hdone. apply wp_ret. cbn [then_]. rewrite Hn in Hdone. apply IH.
      * intros n Hin'. eapply rows_done_evolves; [by apply Hsk|by etrans].
      * intros r d' Hd. apply HQ. apply (dispatched_cons g p l d d2); [by etrans|by rewrite Hg2|rewrite Hj2; done|done|done].
Qed.

Lemma wp_dispatch_group b g d ws (Q : answer unit -> Db.t -> table -> Prop) :
  (forall r d' l, dispatched g l d r d' ->
     (forall p, p ∈ l -> p ∈ ScheduleMgr.not_started (JobGroup.projects g) /\ ready d g p) ->
     (r = Value tt -> forall p, p ∈ ScheduleMgr.not_started (JobGroup.projects g) -> ready d g p -> p ∈ l) -> Q r d' ws) ->
  wp b (ScheduleMgr.dispatch_group g) d ws Q.
Proof.
  intros HQ. unfold ScheduleMgr.dispatch_group.
  assert (Hstop : forall r : answer unit, r <> Value tt -> r <> OutOfFuel -> Q r d ws).
  { intros r Hr Hf. apply (HQ r d []); [|intros p Hp; by apply not_elem_of_nil in Hp|done].
    split; [reflexivity|by left|by left|done|done]. }
  apply wp_bind, wp_dispatchable_projects; cbn [then_]; [intros; by apply Hstop..|].
  intros l _ Hl. apply wp_dispatch_loop; [intros n Hn; by apply not_elem_of_empty in Hn|].
  intros r d' Hd. apply (HQ r d' l); [done|apply Hl|]. intros _ p Hp Hr. by apply Hl.
Qed.

(** C19: a project is dispatched only when it was not started and everything in its group that
    it depends on has been built: in a run in which nobody interferes, but in which the
    exchanges with the database may fail at any point, every job that dispatching a group
    creates belongs to the group and is for such a project. *)
Theorem dispatch_respects_dependencies g d ws :
  wp true (ScheduleMgr.dispatch_group g) d ws (fun _ d' _ =>
    forall x, x ∈ Db.jobs d' -> x ∈ Db.jobs d \/
      JobRow.owner_id x = JobGroup.id g /\
      exists p, p ∈ JobGroup.projects g /\ JobGroupProject.state p = JobGroupProjectState.NotStarted /\
        ready d g p /\ JobRow.project_name x = JobGroupProject.name p).
Proof.
  apply wp_dispatch_group. intros r d' l Hd Hl _ x Hx. destruct (dp_jobs _ _ _ _ _ Hd x Hx) as [?|(Ho & p & Hp & Hn)]; [by left|right].
  split; [done|]. exists p. destruct (Hl p Hp) as [[Hs Hin]%list_elem_of_filter Hr]. done.
Qed.

(** ** A pass over the pending groups ends *)

Definition pending (d : Db.t) : list GroupRow.t := filter (fun r => GroupRow.group_state r = JobGroupState.GroupPending) (Db.groups d).

Lemma pending_set gid s d :
  s <> JobGroupState.GroupPending ->
  (length (pending (Db.set_group_state_v1 gid s d)) <= length (pending d))%nat /\
  ((exists r, r ∈ pending d /\ GroupRow.id r = gid) ->
   (length (pending (Db.set_group_state_v1 gid s d)) < length (pending d))%nat).
Proof.
  intros Hs. unfold pending. cbn. unfold Db.update. induction (Db.groups d) as [|r l [IHle IHlt]].
  - split; [done|]. intros (r & Hr & _). by apply not_elem_of_nil in Hr.
  - rewrite fmap_cons, !filter_cons.
    assert (Hr : GroupRow.group_state (if Z.eqb (GroupRow.id r) gid then GroupRow.set_state s r else r) = JobGroupState.GroupPending ->
      GroupRow.group_state r = JobGroupState.GroupPending) by (by destruct (Z.eqb (GroupRow.id r) gid)).
    split.
    + repeat case_decide; cbn; try lia; tauto.
    + intros (x & Hx & Hid). destruct (decide (GroupRow.group_state r = JobGroupState.GroupPending)) as [Hp|Hp].
      * apply elem_of_cons in Hx as [->|Hx].
        -- rewrite (proj2 (Z.eqb_eq _ _) Hid). rewrite decide_False by done. cbn. lia.
        -- assert (length (filter (fun r => GroupRow.group_state r = JobGroupState.GroupPending)
             ((fun r => if Z.eqb (GroupRow.id r) gid then GroupRow.set_state s r else r) <$> l)) <
             length (filter (fun r => GroupRow.group_state r = JobGroupState.GroupPending) l))%nat by (apply IHlt; eauto).
           case_decide; cbn; lia.
      * rewrite decide_False by tauto. apply IHlt. eauto.
Qed.

Lemma wp_pending_job_groups b d ws Q :
  (b = true -> forall e, Q (Error e) d ws) ->
  (pending d = [] -> Q (Value []) d ws) ->
  (forall r, r ∈ pending d ->
     (b = true -> forall e, Q (Error e) (Db.set_group_state_v1 (GroupRow.id r) JobGroupState.GroupDispatching d) ws) /\
     forall o, Q (Value [JobGroup.set_projects
         (rows_to_job_group_projects (Db.get_group_projects_for_group_v1 o (GroupRow.id r) d))
         (row_to_job_group (GroupRow.set_state JobGroupState.GroupDispatching r))])
       (Db.set_group_state_v1 (GroupRow.id r) JobGroupState.GroupDispatching d) ws) ->
  wp b DataStore.pending_job_groups d ws Q.
Proof.
  intros HE HN HS. unfold DataStore.pending_job_groups. apply wp_bind, wp_get_shard; [by intros Hb; apply HE|].
  cbn [then_]. apply wp_bind, wp_modify; [by intros Hb; apply HE|]. intros o. unfold Db.pending_groups_v1.
  destruct (Db.oldest _ _) as [r|] eqn:E; cbn [fst snd then_].
  - apply oldest_elem, elem_of_select in E as [Hr Hp%bool_decide_eq_true].
    destruct (HS r) as [HSE HSV]; [by apply list_elem_of_filter|].
    cbn [mapM_io]. unfold DataStore.with_projects. apply wp_bind, wp_bind, wp_bind, wp_query; [by intros Hb; apply HSE|].
    intros o'. cbn [then_]. apply wp_ret. cbn [then_]. apply wp_ret. cbn [then_]. apply wp_bind, wp_ret. cbn [then_].
    apply wp_ret. apply HSV.
  - apply wp_ret, HN. unfold pending. destruct (filter _ (Db.groups d)) as [|r l] eqn:Ef; [done|]. exfalso.
    assert (r ∈ filter (fun r => GroupRow.group_state r = JobGroupState.GroupPending) (Db.groups d)) as [Hp Hr]%list_elem_of_filter
      by (rewrite Ef; set_solver).
    assert (r ∈ Db.select o (Db.in_group_state JobGroupState.GroupPending) (Db.groups d)) as Hin
      by (apply elem_of_select; split; [done|by apply bool_decide_eq_true]).
    destruct (Db.select o _ _) as [|x xs]; [by apply not_elem_of_nil in Hin|]. cbn in E. repeat case_match; done.
Qed.

Lemma elem_of_group_projects o gid d p :
  p ∈ rows_to_job_group_projects (Db.get_group_projects_for_group_v1 o gid d) <->
  exists r, r ∈ Db.group_projects d /\ ProjectRow.owner_id r = gid /\ p = row_to_job_group_project r.
Proof.
  unfold rows_to_job_group_projects. rewrite list_elem_of_fmap. unfold Db.get_group_projects_for_group_v1. split.
  - intros (r & -> & [Hr Ho%Z.eqb_eq]%elem_of_select). eauto.
  - intros (r & Hr & Ho & ->). exists r. split; [done|]. apply elem_of_select. split; [done|]. by apply Z.eqb_eq.
Qed.

(** The group as read from the database at some time. *)
Definition read_at (gid : Z) (d : Db.t) (g : JobGroup.t) : Prop :=
  JobGroup.id g = gid /\ exists o, JobGroup.projects g = rows_to_job_group_projects (Db.get_group_projects_for_group_v1 o gid d).

(** After a group was dispatched, nothing more of it can be. *)
Lemma nothing_left g d d' g' (l : list JobGroupProject.t) :
  read_at (JobGroup.id g) d g -> read_at (JobGroup.id g) d' g' -> evolves d d' ->
  (forall p, p ∈ ScheduleMgr.not_started (JobGroup.projects g) -> ready d g p -> p ∈ l) ->
  (forall p, p ∈ l -> rows_done (JobGroup.id g) (JobGroupProject.name p) d') ->
  forall p', p' ∈ ScheduleMgr.not_started (JobGroup.projects g') -> ~ ready d' g' p'.
Proof.
  intros [_ [o Ho]] [_ [o' Ho']] He Hl Hdone p' [Hs' Hp']%list_elem_of_filter Hready.
  rewrite Ho' in Hp'. apply elem_of_group_projects in Hp' as (r' & Hr' & Hown' & ->). cbn in Hs'.
  destruct (evolves_row _ _ _ He Hr') as (r & Hr & Hid & Hown & Hn & Hi & [Hs|[? _]]); [|done].
  assert (Hp : row_to_job_group_project r ∈ JobGroup.projects g).
  { rewrite Ho. apply elem_of_group_projects. exists r. split_and!; [done|congruence|done]. }
  enough (ready d g (row_to_job_group_project r)) as Hrd.
  { apply (Hdone (row_to_job_group_project r)) with r'; [|done|done|done|done].
    apply Hl; [apply list_elem_of_filter; cbn; split; [congruence|done]|done]. }
  destruct He as [Hg HF]. unfold ready, deps_of, Db.get_graph_package_v1 in *. cbn in *. rewrite Hg, Hi in Hready.
  destruct Hready as [?|[Hne Hall]]; [by left|right; split; [done|]].
  intros n q Hn' Hq Hname. rewrite Ho in Hq. apply elem_of_group_projects in Hq as (rq & Hrq & Hoq & ->). cbn in *.
  apply list_elem_of_lookup in Hrq as [i Hrq]. destruct (Forall2_lookup_l _ _ _ _ _ HF Hrq) as (rq' & Hrq' & _ & Hoq' & Hnq' & _ & Hsq).
  assert (ProjectRow.project_state rq' = JobGroupProjectState.Success) as Hsucc.
  { apply (Hall n (row_to_job_group_project rq')); [done| |cbn; congruence].
    rewrite Ho'. apply elem_of_group_projects. exists rq'. split_and!; [by eapply list_elem_of_lookup_2|congruence|done]. }
  destruct Hsq as [Hsq|[_ ?]]; [congruence|done].
Qed.

(** The state of a dispatched group does not go back to pending. *)
Lemma wp_update_after b g d d1 (l : list JobGroupProject.t) ws (Q : answer unit -> Db.t -> table -> Prop) :
  read_at (JobGroup.id g) d g -> dispatched g l d (Value tt) d1 ->
  (forall p, p ∈ ScheduleMgr.not_started (JobGroup.projects g) -> ready d g p -> p ∈ l) ->
  (forall r d', r <> OutOfFuel -> (length (pending d') <= length (pending d))%nat -> Q r d' ws) ->
  wp b (ScheduleMgr.update_group_state (JobGroup.id g)) d1 ws Q.
Proof.
  intros Hg Hd Hl HQ.
  assert (Hle : forall d', Db.groups d' = Db.groups d1 -> (length (pending d') <= length (pending d))%nat).
  { intros d' Hd'. unfold pending at 1. rewrite Hd'. destruct (dp_groups _ _ _ _ _ Hd) as [->| ->]; [done|].
    by apply (pending_set (JobGroup.id g) JobGroupState.GroupFailed d). }
  unfold ScheduleMgr.update_group_state, ScheduleMgr.get_group.
  apply wp_bind, wp_bind, wp_get_job_group; cbn [then_]; [intros _ e; by apply HQ; [|apply Hle]|intros m _; by apply HQ; [|apply Hle]| |].
  { intros _. apply wp_throw. cbn. by apply HQ; [|apply Hle]. }
  intros o row Hrow Hid. apply wp_ret. cbn [then_]. case_decide as Hs; [|apply wp_ret; by apply HQ; [|apply Hle]]. cbn in Hs.
  set (g' := JobGroup.set_projects _ _) in *.
  apply wp_bind, wp_dispatchable_projects; cbn [then_]; [intros; by apply HQ; [|apply Hle]..|].
  intros l' Hsub Hl'. destruct (dp_done _ _ _ _ _ Hd eq_refl) as [Hf|[Hgr Hdone]].
  { exfalso. rewrite Hf in Hrow. apply elem_of_set_state in Hrow as (r0 & _ & ->). by destruct (decide _). }
  assert (l' = []) as ->.
  { destruct l' as [|p' l']; [done|]. exfalso. destruct (proj1 (Hl' p') ltac:(set_solver)) as [Hp' Hr'].
    eapply (nothing_left g d d1 g' l); [done| |apply Hd|done|done|done|done]. split; [done|by exists o]. }
  assert (Hn : ScheduleMgr.new_group_state (JobGroup.projects g') (length (@nil JobGroupProject.t)) <> JobGroupState.GroupPending).
  { unfold ScheduleMgr.new_group_state. cbn. repeat case_decide; (done || lia). }
  apply wp_bind, wp_store_execute; cbn [then_]; [intros _ e; by apply HQ; [|apply Hle]|].
  rewrite decide_False by done. apply wp_ret, HQ; [done|].
  destruct (pending_set (JobGroup.id g) (ScheduleMgr.new_group_state (JobGroup.projects g') (length (@nil JobGroupProject.t))) d1 Hn) as [Hle' _].
  specialize (Hle d1 eq_refl). lia.
Qed.

(** C35: the loop that dispatches pending groups ends after as many rounds as there are pending
    groups, whatever fails in between: a group that was dispatched is not pending again. *)
Theorem process_work_ends fuel d ws :
  (length (pending d) < fuel)%nat ->
  wp true (ScheduleMgr.process_work fuel) d ws (fun r _ _ => r <> OutOfFuel).
Proof.
  revert d ws. induction fuel as [|fuel IH]; intros d ws Hlt; [lia|]. cbn [ScheduleMgr.process_work].
  apply wp_bind, wp_pending_job_groups; cbn [then_]; [done|intros _; by apply wp_ret|].
  intros r Hr. set (d1 := Db.set_group_state_v1 (GroupRow.id r) JobGroupState.GroupDispatching d).
  assert (Hlt1 : (length (pending d1) < length (pending d))%nat) by (apply pending_set; [done|by exists r]).
  split; [done|]. intros o. set (g := JobGroup.set_projects _ _).
  change (reverse [g]) with [g]. cbv iota.
  apply wp_bind, wp_assert; intros _; [|done]. cbn [then_].
  apply wp_bind, wp_dispatch_group. intros a d2 l Hd _ Hl. destruct a as [[]|e|m|]; cbn [then_]; [|done|done|by destruct Hd].
  apply wp_bind. change (JobGroup.id g) with (GroupRow.id r). apply (wp_update_after true g d1 d2 l); [|done|by apply Hl|].
  - split; [done|]. by exists o.
  - intros a d3 Ha Hle. destruct a as [[]|e|m|]; cbn [then_]; [|done..]. apply IH. lia.
Qed.

(** ** An example *)
Module SchedulerExample.
Import JobGroupsExample.

(** The new group of [core/zlib] is pending. *)
Definition queued : Db.t := db (ScheduleMgr.process_queue (world_of created)).1.

Lemma process_work_ends_witness :
  length (pending queued) = 1%nat /\
  wp true (ScheduleMgr.process_work 2) queued [] (fun r _ _ => r <> OutOfFuel) /\
  (ScheduleMgr.process_work 2 (world_of queued)).2 = Value tt.
Proof.
  split_and!; [vm_compute; reflexivity| |vm_compute; reflexivity].
  apply process_work_ends. vm_compute. lia.
Defined.
End SchedulerExample.
