(* ===== verification/SkipProofs.v ===== *)
(** * Skipping projects, and groups that move on

    When a project fails, what depends on it is skipped, if the projects are visited in the
    order of their dependencies; a group in which this was done is never stuck.  The projects of
    a new group are in that order.  The definitions are in [Scheduler.v] and [JobHandlers.v]. *)

From S2P Require Import Prelude Regex ServiceGroup Ident Text Target Petgraph PackageGraph PackageGraphProofs.
From S2P Require Import Sharding JobTypes JobDb JobStore Scheduler WorkerManager JobHandlers JobLogic JobGroups SchedulerProofs.
From Stdlib Require Import Ascii.
Local Open Scope string_scope.
Local Open Scope list_scope.

(** No project comes before one it depends on. *)
Definition in_dependency_order (d : Db.t) (l : list JobGroupProject.t) : Prop :=
  forall l1 p l2 q, l = l1 ++ p :: l2 -> q ∈ p :: l2 -> JobGroupProject.name q ∉ deps_of d p.

(** The projects that cannot be built without [x]: itself and, among those not started, what
    depends on one of them. *)
Inductive blocked (d : Db.t) (g : JobGroup.t) (x : string) : string -> Prop :=
| blocked_self : blocked d g x x
| blocked_dep p n : p ∈ ScheduleMgr.not_started (JobGroup.projects g) -> n ∈ deps_of d p -> blocked d g x n ->
    blocked d g x (JobGroupProject.name p).

(** A project that is skipped on account of [x]. *)
Definition to_skip (d : Db.t) (g : JobGroup.t) (x : string) (p : JobGroupProject.t) : Prop :=
  exists n, n ∈ deps_of d p /\ blocked d g x n.

(** The rows of a group after the projects of some names were skipped. *)
Definition mark_skipped (gid : Z) (names : gset string) (l : list ProjectRow.t) : list ProjectRow.t :=
  Db.update (fun r => Z.eqb (ProjectRow.owner_id r) gid && bool_decide (ProjectRow.project_name r ∈ names))
    (ProjectRow.set_state JobGroupProjectState.Skipped) l.

Lemma mark_skipped_empty gid l : mark_skipped gid ∅ l = l.
Proof.
  unfold mark_skipped, Db.update. induction l as [|r l IH]; [done|]. cbn. rewrite IH. f_equal.
  rewrite bool_decide_eq_false_2 by set_solver. by rewrite andb_false_r.
Qed.

Lemma mark_skipped_add gid names n d :
  Db.group_projects (Db.set_group_project_name_state_v1 gid n JobGroupProjectState.Skipped
    (Db.set_group_projects (mark_skipped gid names (Db.group_projects d)) d)) = mark_skipped gid ({[n]} ∪ names) (Db.group_projects d).
Proof.
  cbn. unfold mark_skipped, Db.update. rewrite <- list_fmap_compose. apply list_fmap_ext. intros i r _. cbn.
  destruct (Z.eqb_spec (ProjectRow.owner_id r) gid) as [Ho|Ho]; cbn.
  - destruct (decide (ProjectRow.project_name r ∈ names)) as [Hn|Hn].
    + rewrite (bool_decide_eq_true_2 _ Hn), (bool_decide_eq_true_2 (_ ∈ {[n]} ∪ names)) by set_solver. cbn.
      rewrite Ho, Z.eqb_refl. by destruct (String.eqb _ n).
    + rewrite (bool_decide_eq_false_2 _ Hn), Ho, Z.eqb_refl. cbn. destruct (String.eqb_spec (ProjectRow.project_name r) n) as [->|Hne].
      * by rewrite bool_decide_eq_true_2 by set_solver.
      * by rewrite bool_decide_eq_false_2 by set_solver.
  - by rewrite (proj2 (Z.eqb_neq _ _) Ho).
Qed.

(** One project is skipped exactly if something it depends on was. *)
Lemma wp_skip_project d g p sk ws (Q : answer (gset string) -> Db.t -> table -> Prop) :
  packages_ok d ->
  (~ (exists n, n ∈ deps_of d p /\ n ∈ sk) -> Q (Value sk) d ws) ->
  ((exists n, n ∈ deps_of d p /\ n ∈ sk) -> Q (Value ({[JobGroupProject.name p]} ∪ sk))
     (Db.set_group_project_name_state_v1 (JobGroup.id g) (JobGroupProject.name p) JobGroupProjectState.Skipped d) ws) ->
  wp false (ScheduleMgr.skip_project g p sk) d ws Q.
Proof.
  intros Hpk HN HS. unfold ScheduleMgr.skip_project. apply wp_bind, wp_try, wp_get_job_graph_package; cbn [then_]; [done| |done|].
  { intros Hnone. apply wp_ret, HN. intros (n & Hd & _). unfold deps_of in Hd. rewrite Hnone in Hd. by apply not_elem_of_nil in Hd. }
  intros pkg Hpkg.
  assert (Hdeps : deps_of d p = omap short (jp_deps pkg)) by (unfold deps_of; destruct (Db.get_graph_package_v1 _ d); by simplify_eq/=).
  apply wp_bind, wp_any_skipped; cbn [then_].
  { intros (dep & Hdep & Hnone) m. exfalso. destruct (pk_deps d Hpk pkg dep) as [y Hy]; [|done|congruence].
    destruct (Db.get_graph_package_v1 (JobGroupProject.ident p) d) as [|pkg' rest] eqn:E; [done|]. injection Hpkg as ->.
    assert (pkg ∈ Db.get_graph_package_v1 (JobGroupProject.ident p) d) as [_ ?]%list_elem_of_filter by (rewrite E; set_solver). done. }
  intros b Hb. rewrite <- Hdeps in Hb. destruct b; [|apply wp_ret, HN; by intros ?%Hb].
  apply wp_bind, wp_store_execute; cbn [then_]; [done|]. apply wp_ret, HS. by apply Hb.
Qed.

(** C20: when no exchange fails and the projects of the group are in dependency order, skipping
    after the loss of [x] returns exactly the projects that cannot be built without it, and
    marks exactly those not started that depend on one of them; nothing else changes. *)
Theorem skip_follows_dependencies d ws g x :
  packages_ok d -> in_dependency_order d (ScheduleMgr.not_started (JobGroup.projects g)) ->
  wp false (ScheduleMgr.skip_projects g x) d ws (fun r d' _ =>
    exists skipped names : gset string, r = Value skipped /\ (forall n, n ∈ skipped <-> blocked d g x n) /\
      (forall n, n ∈ names <-> exists p, p ∈ ScheduleMgr.not_started (JobGroup.projects g) /\ JobGroupProject.name p = n /\ to_skip d g x p) /\
      d' = Db.set_group_projects (mark_skipped (JobGroup.id g) names (Db.group_projects d)) d).
Proof.
  intros Hpk Hord. unfold ScheduleMgr.skip_projects.
  set (marked := fun (l1 : list JobGroupProject.t) n => exists p, p ∈ l1 /\ JobGroupProject.name p = n /\ to_skip d g x p).
  apply (wp_loop false (fun l1 sk d' _ => exists names : gset string, (forall n, n ∈ sk <-> n = x \/ n ∈ names) /\
    (forall n, n ∈ names <-> marked l1 n) /\ d' = Db.set_group_projects (mark_skipped (JobGroup.id g) names (Db.group_projects d)) d)).
  - exists ∅. split_and!; [set_solver| |rewrite mark_skipped_empty; by destruct d].
    intros n. split; [set_solver|]. intros (p & Hp & _). by apply not_elem_of_nil in Hp.
  - intros l1 p l2 sk d' ws' Hl (names & Hsk & Hn & ->). set (d' := Db.set_group_projects _ d).
    assert (Hpk' : packages_ok d') by (destruct Hpk; by split).
    assert (Hin : p ∈ ScheduleMgr.not_started (JobGroup.projects g)) by (rewrite Hl; set_solver).
    assert (Hskip : (exists n, n ∈ deps_of d p /\ n ∈ sk) <-> to_skip d g x p).
    { split; intros (n & Hd & Hb); exists n; (split; [done|]).
      - apply Hsk in Hb as [->|(q & Hq & <- & m & Hm & Hbm)%Hn]; [constructor|]. apply (blocked_dep d g x q m); [rewrite Hl; set_solver|done|done].
      - apply Hsk. inversion Hb as [|q m Hq Hm Hbm]; subst; [by left|right]. apply Hn. exists q. split_and!; [|done|by exists m].
        rewrite Hl in Hq. apply elem_of_app in Hq as [?|Hq]; [done|]. by destruct (Hord l1 p l2 q Hl Hq). }
    assert (Hkeep : ~ to_skip d g x p -> exists names : gset string, (forall n, n ∈ sk <-> n = x \/ n ∈ names) /\
      (forall n, n ∈ names <-> marked (l1 ++ [p]) n) /\ d' = Db.set_group_projects (mark_skipped (JobGroup.id g) names (Db.group_projects d)) d).
    { intros Hno. exists names. split_and!; [done| |done]. intros n. rewrite Hn. unfold marked.
      split; intros (q & Hq & Hqn & Hqs); exists q; (split_and!; [|done|done]); [set_solver|].
      apply elem_of_app in Hq as [?| ->%list_elem_of_singleton]; done. }
    apply wp_skip_project; [done| |].
    { intros Hno. apply Hkeep. by rewrite <- Hskip. }
    intros Hyes%Hskip.
    exists ({[JobGroupProject.name p]} ∪ names). split_and!.
    + intros n. rewrite elem_of_union, Hsk. set_solver.
    + intros n. rewrite elem_of_union, elem_of_singleton, Hn. unfold marked. split.
      * intros [->|(q & Hq & Hqn & Hqs)]; [exists p; split_and!; [set_solver|done|done]|exists q; set_solver].
      * intros (q & [Hq| ->%list_elem_of_singleton]%elem_of_app & Hqn & Hqs); [right; by exists q|by left].
    + rewrite <- mark_skipped_add. done.
  - intros sk d' ws' (names & Hsk & Hn & ->). exists sk, names. split_and!; [done| |done|done].
    intros n. rewrite Hsk. split.
    + intros [->|(q & Hq & <- & m & Hm & Hbm)%Hn]; [constructor|]. by apply (blocked_dep d g x q m).
    + intros Hb. inversion Hb as [|q m Hq Hm Hbm]; subst; [by left|right]. apply Hn. exists q. split_and!; [done|done|by exists m].
Qed.

(** ** Groups that are not stuck *)

(** No project that is still to be started depends on one that will not be built. *)
Definition nothing_hopeless (d : Db.t) (g : JobGroup.t) : Prop :=
  forall p q, p ∈ ScheduleMgr.not_started (JobGroup.projects g) -> q ∈ JobGroup.projects g -> JobGroupProject.name q ∈ deps_of d p ->
    JobGroupProject.state q = JobGroupProjectState.NotStarted \/ JobGroupProject.state q = JobGroupProjectState.InProgress \/
    JobGroupProject.state q = JobGroupProjectState.Success.

(** Dependencies inside the group have a smaller rank. *)
Definition ranked (rank : string -> nat) (d : Db.t) (g : JobGroup.t) : Prop :=
  forall p q, p ∈ JobGroup.projects g -> q ∈ JobGroup.projects g -> JobGroupProject.name q ∈ deps_of d p ->
    (rank (JobGroupProject.name q) < rank (JobGroupProject.name p))%nat.

(** A member of a list that has the least value of a measure. *)
Lemma least_elem {A} (f : A -> nat) (l : list A) : l <> [] -> exists x, x ∈ l /\ forall y, y ∈ l -> (f x <= f y)%nat.
Proof.
  induction l as [|a l IH]; [done|]. intros _. destruct l as [|b l]; [exists a; set_solver|].
  destruct IH as (x & Hx & Hmin); [done|]. destruct (decide (f a <= f x)%nat).
  - exists a. split; [set_solver|]. intros y [->|Hy]%elem_of_cons; [done|]. specialize (Hmin y Hy). lia.
  - exists x. split; [set_solver|]. intros y [->|Hy]%elem_of_cons; [lia|auto].
Qed.

Lemma some_ready rank d g :
  ranked rank d g -> nothing_hopeless d g ->
  (forall p, p ∈ JobGroup.projects g -> JobGroupProject.state p <> JobGroupProjectState.InProgress) ->
  (forall p, p ∈ JobGroup.projects g -> JobGroupProject.ident p = "" \/ Db.get_graph_package_v1 (JobGroupProject.ident p) d <> []) ->
  ScheduleMgr.not_started (JobGroup.projects g) <> [] ->
  exists p, p ∈ ScheduleMgr.not_started (JobGroup.projects g) /\ ready d g p.
Proof.
  intros Hr Hh Hp Hk Hne. destruct (least_elem (fun p => rank (JobGroupProject.name p)) _ Hne) as (p & Hin & Hmin).
  exists p. split; [done|]. pose proof Hin as [_ Hpg]%list_elem_of_filter.
  destruct (Hk p Hpg) as [?|Hpkg]; [by left|right]. split; [done|]. intros n q Hn Hq <-.
  destruct (Hh p q Hin Hq Hn) as [Hs|[Hs|Hs]]; [|by destruct (Hp q Hq)|done].
  specialize (Hr p q Hpg Hq Hn). specialize (Hmin q ltac:(apply list_elem_of_filter; done)). lia.
Qed.

Lemma count_cons s p l : ScheduleMgr.count s (p :: l) = ((if decide (JobGroupProject.state p = s) then 1 else 0) + ScheduleMgr.count s l)%nat.
Proof. unfold ScheduleMgr.count. rewrite filter_cons. by case_decide. Qed.

(** The states of the projects account for all of them. *)
Lemma counts_total l :
  length l = (ScheduleMgr.count JobGroupProjectState.Success l + ScheduleMgr.count JobGroupProjectState.Skipped l +
    ScheduleMgr.count JobGroupProjectState.Failure l + ScheduleMgr.count JobGroupProjectState.Canceled l +
    ScheduleMgr.count JobGroupProjectState.InProgress l + ScheduleMgr.count JobGroupProjectState.NotStarted l)%nat.
Proof.
  induction l as [|p l IH]; [done|]. rewrite !count_cons. cbn [length]. rewrite IH.
  destruct (JobGroupProject.state p); repeat first [rewrite decide_True by done | rewrite decide_False by done]; lia.
Qed.

Lemma count_none s l : (forall p, p ∈ l -> JobGroupProject.state p <> s) -> ScheduleMgr.count s l = 0%nat.
Proof.
  intros H. induction l as [|p l IH]; [done|]. rewrite count_cons, decide_False by (apply H; set_solver).
  rewrite IH; [done|]. intros q Hq. apply H. set_solver.
Qed.

(** A group is not left waiting for nothing.  When it has no project in progress, its
    packages are known, its dependencies have no cycle and no project that is still to be
    started depends on one that will not be built, then updating the state of the group ends
    it or makes it pending, so that it is dispatched again. *)
Theorem group_moves_on rank d ws g :
  packages_ok d -> ranked rank d g -> nothing_hopeless d g ->
  (forall p, p ∈ JobGroup.projects g -> JobGroupProject.state p <> JobGroupProjectState.InProgress) ->
  (forall p, p ∈ JobGroup.projects g -> JobGroupProject.ident p = "" \/ Db.get_graph_package_v1 (JobGroupProject.ident p) d <> []) ->
  wp false (ScheduleMgr.dispatchable_projects g) d ws (fun r d' _ => d' = d /\
    exists l, r = Value l /\ ScheduleMgr.new_group_state (JobGroup.projects g) (length l) <> JobGroupState.GroupDispatching).
Proof.
  intros Hpk Hr Hh Hp Hk. apply wp_dispatchable_projects; [done| |done|].
  { intros (p & Hin & Hne & Hnone). by destruct (Hk p Hin). }
  intros l Hsub Hl. split; [done|]. exists l. split; [done|]. unfold ScheduleMgr.new_group_state.
  case_decide as Htot; [done|]. case_decide as Hcan; [done|]. case_decide as Hdis; [done|]. exfalso.
  pose proof (counts_total (JobGroup.projects g)) as Hc. rewrite (count_none JobGroupProjectState.InProgress) in Hc by done.
  destruct (some_ready rank d g Hr Hh Hp Hk) as (p & Hin & Hrd).
  - intros Hnil. apply Htot.
    change (ScheduleMgr.count JobGroupProjectState.NotStarted (JobGroup.projects g)) with (length (ScheduleMgr.not_started (JobGroup.projects g))) in Hc.
    rewrite Hnil in Hc. cbn in Hc. lia.
  - assert (p ∈ l) as Hpl by (by apply Hl). destruct l; [by apply not_elem_of_nil in Hpl|cbn in Hdis; lia].
Qed.

(** ** New groups are in dependency order *)

Lemma StronglySorted_filter {A} (R : A -> A -> Prop) (P : A -> Prop) `{!forall x, Decision (P x)} (l : list A) :
  StronglySorted R l -> StronglySorted R (filter P l).
Proof.
  induction 1 as [|a l Hs IH Hf]; [constructor|]. rewrite filter_cons. case_decide; [|done]. constructor; [done|].
  apply Forall_forall. intros x [_ Hx]%list_elem_of_filter. by eapply Forall_forall in Hf.
Qed.

Section created.
  Context `{!Petgraph, !RegexEngine}.

Lemma sorted_fst_filter (R : string -> string -> Prop) (P : string * string -> Prop) `{!forall x, Decision (P x)} (l : list (string * string)) :
  StronglySorted R l.*1 -> StronglySorted R (filter P l).*1.
Proof.
  induction l as [|a l IH]; [done|]. cbn [fmap list_fmap]. intros [Hs Hf]%StronglySorted_inv. rewrite filter_cons. case_decide; [|by apply IH].
  cbn. constructor; [by apply IH|]. apply Forall_forall. intros x (y & -> & [_ Hy]%list_elem_of_filter)%list_elem_of_fmap.
  eapply Forall_forall in Hf; [done|]. by apply list_elem_of_fmap_2.
Qed.

(** The projects of a new group are the root, if it is asked for, and packages that depend on
    it, directly or indirectly, each once, and no project before one it depends on: the order
    in which [skip_projects] must visit them. *)
Theorem new_group_in_order msg graph :
  wf graph ->
  Returns (Handlers.group_projects msg graph) (fun l =>
    NoDup l.*1 /\ StronglySorted (fun a b => ~ depends graph a b) l.*1 /\
    forall n, n ∈ l.*1 -> n = gs_origin msg +:+ "/" +:+ gs_package msg \/
      gs_package_only msg = false /\ tc (depends graph) n (gs_origin msg +:+ "/" +:+ gs_package msg)).
Proof.
  intros Hwf. unfold Handlers.group_projects. set (name := gs_origin msg +:+ "/" +:+ gs_package msg).
  set (root := if negb (gs_deps_only msg) || gs_package_only msg then _ else _).
  assert (Hroot : root.*1 = [name] \/ root.*1 = []) by (subst root; case_match; auto).
  assert (Hbase : NoDup root.*1 /\ StronglySorted (fun a b => ~ depends graph a b) root.*1 /\ forall n, n ∈ root.*1 -> n = name).
  { destruct Hroot as [-> | ->]; (split_and!; [|repeat constructor|set_solver]); [apply NoDup_singleton|by apply NoDup_nil]. }
  destruct Hbase as (Hnd & Hs & Hn). destruct (gs_package_only msg) eqn:Hpo; [cbn; split_and!; [done|done|]; intros n ?; left; auto|].
  eapply Returns_bind; [by apply (rdeps_of_spec graph name)|]. intros [rd|] Hrd; cbn beta iota.
  2: { cbn. split_and!; [done|done|]. intros n ?; left; auto. }
  destruct Hrd as (Hnd' & Hel & _ & Hs'). cbn. set (P := fun s : string * string => _). rewrite fmap_app.
  assert (Hsub : forall n, n ∈ (filter P rd).*1 -> tc (depends graph) n name).
  { intros n (y & -> & [_ Hy]%list_elem_of_filter)%list_elem_of_fmap. apply Hel. by apply list_elem_of_fmap_2. }
  assert (Hirr : ~ tc (depends graph) name name).
  { intros Hc. assert (name ∈ PackageGraph.package_names graph) as [i Hi]%list_elem_of_lookup
      by (inversion Hc as [? ? Hx|? ? ? Hx]; subst; by eapply depends_elem).
    apply (wf_acyclic _ Hwf i). by apply (tc_depends graph name name i i). }
  split_and!.
  - apply NoDup_app. split_and!; [done| |eapply sublist_fmap_NoDup; [apply sublist_filter|done]].
    intros n Hr%Hn Hx%Hsub. subst n. done.
  - destruct Hroot as [Hr|Hr]; rewrite Hr in *; cbn; [|by apply sorted_fst_filter]. constructor; [by apply sorted_fst_filter|].
    apply Forall_forall. intros n Hx%Hsub Hd. apply Hirr. by eapply tc_l.
  - intros n [?|Hx%Hsub]%elem_of_app; [left; auto|by right].
Qed.
End created.

(** ** An example: the group of [core/zlib], on which [core/openssl] and [core/nginx] depend *)
Module SkipExample.
Import JobGroupsExample SchedulerExample.
#[local] Existing Instance reference_graph.
#[local] Existing Instance reference_engine.

Definition group : JobGroup.t :=
  match (DataStore.pending_job_groups (world_of queued)).2 with Value (g :: _) => g | _ => JobGroup.mk 0 JobGroupState.GroupQueued [] 0 "" end.

Lemma unique_idents d i : NoDup (jp_ident <$> Db.graph_packages d) -> (length (Db.get_graph_package_v1 i d) <= 1)%nat.
Proof.
  unfold Db.get_graph_package_v1. induction (Db.graph_packages d) as [|p l IH]; [cbn; lia|]. rewrite fmap_cons. intros [Hp Hnd]%NoDup_cons.
  rewrite filter_cons. case_decide as Hi; [|auto]. destruct (filter _ l) as [|q l'] eqn:Eq; [done|]. exfalso. apply Hp.
  assert (q ∈ filter (fun r => jp_ident r = i) l) as [Hq Hin]%list_elem_of_filter by (rewrite Eq; left).
  rewrite Hi, <- Hq. by apply list_elem_of_fmap_2.
Qed.

Lemma queued_packages_ok : packages_ok queued.
Proof.
  assert (Db.graph_packages queued = packages) as E by (vm_compute; reflexivity). split.
  - intros i. apply unique_idents. rewrite E. refine (bool_decide_eq_true_1 (NoDup _) _). vm_compute. reflexivity.
  - rewrite E. intros pkg dep Hp. revert dep. apply Forall_forall. revert pkg Hp. apply Forall_forall.
    refine (bool_decide_eq_true_1 (Forall (fun pkg => Forall (fun dep => is_Some (short dep)) (jp_deps pkg)) packages) _). vm_compute. reflexivity.
Qed.

Lemma in_order_cons d p l :
  Forall (fun q => JobGroupProject.name q ∉ deps_of d p) (p :: l) -> in_dependency_order d l -> in_dependency_order d (p :: l).
Proof.
  intros Hf Hl l1 p' l2 q Heq Hq. destruct l1 as [|p1 l1]; simplify_eq/=; [by eapply Forall_forall in Hf|by eapply Hl].
Qed.

Fixpoint ordered (d : Db.t) (l : list JobGroupProject.t) : bool :=
  match l with
  | [] => true
  | p :: l => bool_decide (Forall (fun q => JobGroupProject.name q ∉ deps_of d p) (p :: l)) && ordered d l
  end.

Lemma ordered_spec d l : ordered d l = true -> in_dependency_order d l.
Proof.
  induction l as [|p l IH]; cbn; [intros _ [|??] ? ? ? [=]|]. intros [H1%bool_decide_eq_true H2]%andb_true_iff.
  apply in_order_cons; auto.
Qed.

Definition rank (n : string) : nat := if decide (n = "core/zlib") then 0 else if decide (n = "core/openssl") then 1 else 2.

Lemma skip_follows_dependencies_witness :
  (JobGroupProject.name <$> JobGroup.projects group) = ["core/zlib"; "core/openssl"; "core/nginx"] /\
  wp false (ScheduleMgr.skip_projects group "core/openssl") queued [] (fun r d' _ =>
    exists skipped names : gset string, r = Value skipped /\ "core/nginx" ∈ skipped /\
      d' = Db.set_group_projects (mark_skipped (JobGroup.id group) names (Db.group_projects queued)) queued).
Proof.
  split; [vm_compute; reflexivity|]. eapply wp_mono.
  - apply (skip_follows_dependencies queued [] group "core/openssl"); [exact queued_packages_ok|].
    apply ordered_spec. vm_compute. reflexivity.
  - cbn beta. intros r d' _ (sk & names & Hr & Hsk & _ & Hd'). exists sk, names. split_and!; [exact Hr| |exact Hd'].
    apply Hsk. apply (blocked_dep _ _ _ (JobGroupProject.mk "core/nginx" "core/nginx/1.10/20170101000000" JobGroupProjectState.NotStarted 0) "core/openssl").
    + refine (bool_decide_eq_true_1 (_ ∈ ScheduleMgr.not_started (JobGroup.projects group)) _). vm_compute. reflexivity.
    + refine (bool_decide_eq_true_1 (_ ∈ deps_of queued _) _). vm_compute. reflexivity.
    + constructor.
Defined.

Lemma group_moves_on_witness :
  wp false (ScheduleMgr.dispatchable_projects group) queued [] (fun r d' _ => d' = queued /\
    exists l, r = Value l /\ ScheduleMgr.new_group_state (JobGroup.projects group) (length l) <> JobGroupState.GroupDispatching).
Proof.
  apply (group_moves_on rank queued [] group); [exact queued_packages_ok|..].
  - assert (Forall (fun p => Forall (fun q => JobGroupProject.name q ∈ deps_of queued p ->
      (rank (JobGroupProject.name q) < rank (JobGroupProject.name p))%nat) (JobGroup.projects group)) (JobGroup.projects group)) as H
      by (refine (bool_decide_eq_true_1 _ _); vm_compute; reflexivity).
    intros p q Hp Hq. eapply Forall_forall in H; [|exact Hp]. eapply Forall_forall in H; [exact H|exact Hq].
  - intros p q _ Hq _. left. revert q Hq. apply Forall_forall.
    refine (bool_decide_eq_true_1 (Forall (fun q => JobGroupProject.state q = JobGroupProjectState.NotStarted) (JobGroup.projects group)) _).
    vm_compute. reflexivity.
  - apply Forall_forall.
    refine (bool_decide_eq_true_1 (Forall (fun q => JobGroupProject.state q <> JobGroupProjectState.InProgress) (JobGroup.projects group)) _).
    vm_compute. reflexivity.
  - intros p Hp. right. revert p Hp. apply Forall_forall.
    refine (bool_decide_eq_true_1 (Forall (fun p => Db.get_graph_package_v1 (JobGroupProject.ident p) queued <> []) (JobGroup.projects group)) _).
    vm_compute. reflexivity.
Defined.

Lemma new_group_in_order_witness :
  Handlers.group_projects spec PackageGraphExample.known_packages =
    Return (("core/zlib", "core/zlib/1.2.8/20170101000000") :: PackageGraphExample.zlib_rdeps) /\
  ~ depends PackageGraphExample.known_packages "core/openssl" "core/nginx".
Proof.
  assert (Handlers.group_projects spec PackageGraphExample.known_packages =
    Return (("core/zlib", "core/zlib/1.2.8/20170101000000") :: PackageGraphExample.zlib_rdeps)) as E by (vm_compute; reflexivity).
  split; [exact E|]. pose proof (new_group_in_order spec _ PackageGraphExample.known_packages_wf) as H. rewrite E in H.
  destruct H as (_ & Hs & _). apply StronglySorted_inv in Hs as [Hs _]. apply StronglySorted_inv in Hs as [_ Hf].
  eapply Forall_forall in Hf; [exact Hf|]. left.
Defined.
End SkipExample.
