(* ===== verification/WorkerProofs.v ===== *)
(** * The worker manager: properties

    The table of workers stays in the order of expiry, so that looking at its front finds all
    expired workers; no job is with two workers at a time; and no unwrap of the worker manager
    fails.  The definitions are in [WorkerManager.v]. *)

From Stdlib Require Import Ascii.
From S2P Require Import Prelude Regex Text ServiceGroup Ident Target Petgraph PackageGraph PackageGraphProofs Sharding JobTypes JobDb JobStore Scheduler WorkerManager JobHandlers JobLogic JobGroups SchedulerProofs.
Local Open Scope string_scope.
Local Open Scope list_scope.

(** ** The table *)

(** A busy worker has a job and a ready one has none; the key of a worker is its name; names are
    unique; the table is in the order of expiry, and no expiry is later than one that starts
    now. *)
Definition worker_ok (now : Z) (e : string * Worker.t) : Prop :=
  Worker.ident e.2 = e.1 /\
  (Worker.state e.2 = WorkerState.Busy <-> is_Some (Worker.job_id e.2)) /\
  (Worker.expiry e.2 <= now + Worker.WORKER_TIMEOUT_MS)%Z.

Record table_ok (now : Z) (ws : table) : Prop := {
  tb_workers : Forall (worker_ok now) ws;
  tb_keys : NoDup ws.*1;
  tb_sorted : StronglySorted (fun a b => (Worker.expiry a.2 <= Worker.expiry b.2)%Z) ws;
}.

(** The jobs in the hands of workers. *)
Definition held_jobs (ws : table) : list Z := omap (fun e => Worker.job_id e.2) ws.

Definition job_pending (id : Z) (d : Db.t) : Prop := exists r, r ∈ Db.jobs d /\ JobRow.id r = id /\ JobRow.job_state r = JobState.Pending.

(** No job is with two workers, and none with a worker is pending. *)
Record exclusive (d : Db.t) (ws : table) : Prop := {
  ex_jobs : NoDup (held_jobs ws);
  ex_pending : forall id, id ∈ held_jobs ws -> ~ job_pending id d;
}.

(** Every row of the job table is read as a job. *)
Definition jobs_ok (d : Db.t) : Prop := forall r, r ∈ Db.jobs d -> exists j, row_to_job r = Return (Ok j).

Lemma elem_of_held id ws : id ∈ held_jobs ws <-> exists e, e ∈ ws /\ Worker.job_id e.2 = Some id.
Proof. unfold held_jobs. by rewrite list_elem_of_omap. Qed.

Lemma held_app ws1 ws2 : held_jobs (ws1 ++ ws2) = held_jobs ws1 ++ held_jobs ws2.
Proof. unfold held_jobs. apply omap_app. Qed.

Lemma without_sublist k ws : without_worker k ws `sublist_of` ws.
Proof. apply sublist_filter. Qed.

Lemma held_sublist ws1 ws2 : ws1 `sublist_of` ws2 -> held_jobs ws1 `sublist_of` held_jobs ws2.
Proof.
  unfold held_jobs. induction 1 as [|e l1 l2 _ IH|e l1 l2 _ IH]; [done|..]; rewrite !omap_cons; case_match; try done; by constructor.
Qed.

Lemma table_sublist now ws1 ws2 : ws1 `sublist_of` ws2 -> table_ok now ws2 -> table_ok now ws1.
Proof.
  intros Hs [H1 H2 H3]. split.
  - eapply Forall_forall. intros e He. eapply Forall_forall in H1; [done|]. by eapply elem_of_sublist.
  - by eapply sublist_fmap_NoDup.
  - by eapply StronglySorted_sublist.
Qed.

Lemma exclusive_sublist d ws1 ws2 : ws1 `sublist_of` ws2 -> exclusive d ws2 -> exclusive d ws1.
Proof.
  intros Hs%held_sublist [H1 H2]. split; [by eapply sublist_NoDup|]. intros id Hid. apply H2. by eapply elem_of_sublist.
Qed.

Lemma table_later now now' ws : table_ok now ws -> (now <= now')%Z -> table_ok now' ws.
Proof.
  intros [H1 H2 H3] Hle. split; [|done|done]. eapply Forall_impl; [exact H1|]. intros e (? & ? & ?). split_and!; [done|done|lia].
Qed.

(** A worker whose timeout starts now goes to the end of the table. *)
Lemma table_insert now k wk ws :
  table_ok now ws -> k ∉ ws.*1 -> Worker.ident wk = k -> Worker.expiry wk = (now + Worker.WORKER_TIMEOUT_MS)%Z ->
  (Worker.state wk = WorkerState.Busy <-> is_Some (Worker.job_id wk)) -> table_ok now (ws ++ [(k, wk)]).
Proof.
  intros [H1 H2 H3] Hk Hid He Hb. split.
  - apply Forall_app. split; [done|]. apply Forall_singleton. split_and!; [done|done|]. cbn. lia.
  - rewrite fmap_app. apply NoDup_app. split_and!; [done| |apply NoDup_singleton]. intros x Hx ->%list_elem_of_singleton. done.
  - clear H2 Hk. induction ws as [|e l IH]; cbn; [repeat constructor|]. apply Forall_cons in H1 as [Hw H1].
    apply StronglySorted_inv in H3 as [H3 Hf]. constructor; [by apply IH|]. apply Forall_app. split; [done|].
    apply Forall_singleton. cbn. destruct Hw as (_ & _ & Hle). lia.
Qed.

Lemma not_in_without k (ws : table) : k ∉ (without_worker k ws).*1.
Proof. intros (e & -> & [Hne _]%list_elem_of_filter)%list_elem_of_fmap. done. Qed.

Lemma without_absent k (ws : table) : k ∉ ws.*1 -> without_worker k ws = ws.
Proof.
  unfold without_worker. induction ws as [|e ws IH]; [done|]. intros [Hk Hn]%not_elem_of_cons.
  rewrite filter_cons, decide_True by congruence. f_equal. by apply IH.
Qed.

Lemma find_worker_spec P ws :
  match find_worker P ws with
  | Some e => e ∈ ws /\ P e = true
  | None => forall e, e ∈ ws -> P e = false
  end.
Proof.
  unfold find_worker. destruct (list_find _ ws) as [[i e]|] eqn:E; cbn.
  - apply list_find_Some in E as (Hi & HP & _). split; [by eapply list_elem_of_lookup_2|done].
  - apply list_find_None in E. intros e He. eapply Forall_forall in E; [|exact He]. by destruct (P e).
Qed.

Lemma key_unique now ws e1 e2 : table_ok now ws -> e1 ∈ ws -> e2 ∈ ws -> e1.1 = e2.1 -> e1 = e2.
Proof.
  intros [_ Hk _] [i Hi]%list_elem_of_lookup [j Hj]%list_elem_of_lookup Heq. assert (i = j) as ->; [|congruence].
  eapply NoDup_lookup; [exact Hk|rewrite list_lookup_fmap, Hi; done|rewrite list_lookup_fmap, Hj; cbn; by rewrite Heq].
Qed.

(** ** Rules for the table *)
Section rules.
Context (b : bool) (d : Db.t) (ws : table).

Lemma wp_get_workers Q : Q (Value ws) d ws -> wp b get_workers d ws Q.
Proof. intros HQ w Hw <- <-. by split. Qed.

Lemma wp_set_workers l Q : Q (Value tt) d l -> wp b (set_workers l) d ws Q.
Proof. intros HQ w [Ht Hr] <- <-. by split. Qed.

Lemma wp_remove_worker k Q :
  Q (Value (snd <$> find_worker (fun e => String.eqb e.1 k) ws)) d (without_worker k ws) -> wp b (remove_worker k) d ws Q.
Proof. intros HQ. apply wp_bind, wp_get_workers. cbn. apply wp_bind, wp_set_workers. by apply wp_ret. Qed.

Lemma wp_insert_worker k wk Q : Q (Value tt) d (without_worker k ws ++ [(k, wk)]) -> wp b (insert_worker k wk) d ws Q.
Proof. intros HQ. apply wp_bind, wp_get_workers. cbn. by apply wp_set_workers. Qed.

Lemma wp_io_expect {A} m (o : option A) Q : (forall a, o = Some a -> Q (Value a) d ws) -> is_Some o -> wp b (io_expect m o) d ws Q.
Proof. intros HQ [a ->]. by apply wp_ret, HQ. Qed.

Lemma wp_update_job j (Q : answer unit -> Db.t -> table -> Prop) :
  (b = true -> forall e, Q (Error e) d ws) ->
  Q (Value tt) (Db.update_job_v3 (Job.id j) (Job.state j) (Job.build_started_at j) (Job.build_finished_at j)
    (OriginPackageIdent.to_string <$> Job.package_ident j) (fst <$> Job.error j) (snd <$> Job.error j) d) ws ->
  wp b (DataStore.update_job j) d ws Q.
Proof. intros HE HQ. by apply wp_store_execute. Qed.

Lemma wp_get_job id Q :
  jobs_ok d ->
  (b = true -> forall e, Q (Error e) d ws) ->
  (Db.get_job_v1 id d = [] -> Q (Value None) d ws) ->
  (forall r j, r ∈ Db.jobs d -> JobRow.id r = id -> row_to_job r = Return (Ok j) -> Q (Value (Some j)) d ws) ->
  wp b (DataStore.get_job id) d ws Q.
Proof.
  intros Hok HE HN HS. unfold DataStore.get_job. apply wp_store_query; [done|]. intros _.
  destruct (Db.get_job_v1 id d) as [|r l] eqn:E; [apply wp_ret; auto|].
  assert (r ∈ Db.get_job_v1 id d) as [Hid Hr]%list_elem_of_filter by (rewrite E; set_solver).
  destruct (Hok r Hr) as [j Hj]. apply wp_bind, wp_lift. rewrite Hj. cbn. apply wp_ret. by eapply HS.
Qed.
End rules.

(** ** Computations that leave the table alone

    [quiet J c]: whatever fails, [c] does not panic, leaves the table alone, and makes no job
    pending but those of [J]. *)
Definition returns {A} (r : answer A) : Prop := match r with Value _ | Error _ => True | _ => False end.

Definition no_more_pending (J : Z -> Prop) (d d' : Db.t) : Prop := forall id, job_pending id d' -> J id \/ job_pending id d.

Definition quiet (J : Z -> Prop) {A} (c : io A) : Prop :=
  forall d ws, jobs_ok d -> wp true c d ws (fun r d' ws' => jobs_ok d' /\ no_more_pending J d d' /\ ws' = ws /\ returns r).

Abbreviation none := (fun _ : Z => False).

Lemma no_more_refl J d : no_more_pending J d d.
Proof. intros id Hid. by right. Qed.

Lemma no_more_trans J d1 d2 d3 : no_more_pending J d1 d2 -> no_more_pending J d2 d3 -> no_more_pending J d1 d3.
Proof. intros H1 H2 id [?|[?|?]%H1]%H2; auto. Qed.

#[export] Hint Resolve no_more_refl : core.

Section quiet.
Context (J : Z -> Prop).

Lemma quiet_ret {A} (a : A) : quiet J (mret a : io A).
Proof. intros d ws Hd. by apply wp_ret. Qed.

Lemma quiet_bind {A B} (c : io A) (k : A -> io B) : quiet J c -> (forall a, quiet J (k a)) -> quiet J (c ≫= k).
Proof.
  intros Hc Hk d ws Hd. apply wp_bind. eapply wp_mono; [by apply Hc|]. cbn. intros [a|e|m|] d' ws' (Hd' & Hp & -> & Hr); cbn; [|done..].
  eapply wp_mono; [by apply Hk|]. cbn. intros r d'' ws'' (? & ? & ? & ?). split_and!; [done|by eapply no_more_trans|done|done].
Qed.

Lemma quiet_expect {A B} m (a : A) (k : A -> io B) : quiet J (k a) -> quiet J (io_expect m (Some a) ≫= k).
Proof. intros Hk d ws Hd. apply wp_bind, wp_ret. by apply Hk. Qed.

Lemma quiet_try {A} (c : io A) : quiet J c -> quiet J (try c).
Proof. intros Hc d ws Hd. apply wp_try. eapply wp_mono; [by apply Hc|]. cbn. by intros []. Qed.

Lemma quiet_notify m : quiet J (notify m).
Proof. intros d ws Hd. by apply wp_notify. Qed.

Lemma quiet_get_job id : quiet J (DataStore.get_job id).
Proof. intros d ws Hd. by apply wp_get_job. Qed.

(** What [row_to_job] makes of a row does not depend on its progress, and reading a row after
    a report on its build cannot fail, as the report has both parts of an error or none. *)
Lemma row_to_job_net r j : row_to_job r = Return (Ok j) -> exists x, net_error (JobRow.net_error_code r) (JobRow.net_error_msg r) = Return x.
Proof.
  unfold row_to_job. destruct (net_error _ _); [eauto|]. generalize (Ident.split "/" (JobRow.project_name r)). intros l.
  destruct (l !! 0%nat); cbn; [|done]. destruct (l !! 1%nat); cbn; [|done].
  destruct (String.eqb _ "git"); [|done]. destruct (JobRow.vcs_arguments r) as [|[v|] args]; cbn; [done| |done].
  by destruct (match args with [] => _ | _ => _ end).
Qed.

Lemma row_read_ok r r' j :
  JobRow.project_name r' = JobRow.project_name r -> JobRow.vcs r' = JobRow.vcs r -> JobRow.vcs_arguments r' = JobRow.vcs_arguments r ->
  (exists x, net_error (JobRow.net_error_code r') (JobRow.net_error_msg r') = Return x) ->
  row_to_job r = Return (Ok j) -> exists j', row_to_job r' = Return (Ok j').
Proof.
  intros H1 H2 H3 [x Hx]. unfold row_to_job. rewrite H1, H2, H3, Hx. generalize (Ident.split "/" (JobRow.project_name r)). intros l.
  destruct (l !! 0%nat); cbn; [|done]. destruct (l !! 1%nat); cbn; [|done].
  destruct (String.eqb _ "git"); [|done]. destruct (JobRow.vcs_arguments r) as [|[v|] args]; cbn; [done| |done].
  destruct (match args with [] => _ | _ => _ end) as [o|]; [|done]. cbn. eauto.
Qed.

Lemma update_job_jobs_ok id s start finish i e d :
  jobs_ok d -> jobs_ok (Db.update_job_v3 id s start finish i (fst <$> e) (snd <$> e) d).
Proof.
  intros Hd r (r0 & -> & Hr)%list_elem_of_fmap. destruct (Hd r0 Hr) as [j Hj]. destruct (Z.eqb _ _); [|eauto].
  eapply row_read_ok; [| | | |exact Hj]; [done..|]. destruct e as [[]|]; cbn; eauto.
Qed.

Lemma update_job_pending id s start finish i c m d (K : Z -> Prop) :
  (s = JobState.Pending -> K id) -> no_more_pending K d (Db.update_job_v3 id s start finish i c m d).
Proof.
  intros Hs id' (r & (r0 & -> & Hr)%list_elem_of_fmap & <- & Hst). destruct (Z.eqb_spec (JobRow.id r0) id) as [<-|]; cbn in *; [auto|].
  right. by exists r0.
Qed.

Lemma quiet_update_job j : (Job.state j = JobState.Pending -> J (Job.id j)) -> quiet J (DataStore.update_job j).
Proof.
  intros Hj d ws Hd. apply wp_update_job; [done|]. split_and!; [by apply update_job_jobs_ok|by apply update_job_pending|done|done].
Qed.

Lemma quiet_upsert bw : quiet J (DataStore.upsert_busy_worker bw).
Proof.
  intros d ws Hd. apply wp_store_execute; [done|]. unfold Db.upsert_busy_worker_v1.
  destruct (existsb _ _); (split_and!; [exact Hd|by right|done|done]).
Qed.

Lemma quiet_delete bw : quiet J (DataStore.delete_busy_worker bw).
Proof. intros d ws Hd. apply wp_store_execute; [done|]. split_and!; [exact Hd|by right|done|done]. Qed.
End quiet.

Ltac quiet_step :=
  match goal with
  | |- quiet _ (_ ≫= _) => apply quiet_bind; [|intros ?]
  | |- quiet _ (mret _) => apply quiet_ret
  | |- quiet _ (try _) => apply quiet_try
  | |- quiet _ (notify _) => apply quiet_notify
  | |- quiet _ (DataStore.get_job _) => apply quiet_get_job
  | |- quiet _ (DataStore.update_job _) => apply quiet_update_job; done
  | |- quiet _ (DataStore.upsert_busy_worker _) => apply quiet_upsert
  | |- quiet _ (DataStore.delete_busy_worker _) => apply quiet_delete
  | |- quiet _ (match ?x with _ => _ end) => destruct x
  end.
Ltac quiet_tac := repeat quiet_step.

Lemma quiet_cancel_on_worker job k : quiet none (WorkerMgr.cancel_on_worker job k).
Proof. unfold WorkerMgr.cancel_on_worker, WorkerMgr.worker_cancel_job. quiet_tac. Qed.

Lemma quiet_cancel_job id k : quiet none (WorkerMgr.cancel_job id k).
Proof. unfold WorkerMgr.cancel_job. quiet_tac. apply quiet_cancel_on_worker. Qed.

Lemma quiet_is_job_complete id : quiet none (WorkerMgr.is_job_complete id).
Proof. unfold WorkerMgr.is_job_complete. quiet_tac. Qed.

Lemma row_to_job_fields r j :
  row_to_job r = Return (Ok j) ->
  Job.id j = JobRow.id r /\ Job.state j = JobRow.job_state r /\ Job.is_archived j = JobRow.archived r.
Proof.
  unfold row_to_job. generalize (Ident.split "/" (JobRow.project_name r)). intros l.
  destruct (l !! 0%nat); cbn; [|done]. destruct (l !! 1%nat); cbn; [|done].
  destruct (String.eqb _ "git"); [|done]. destruct (JobRow.vcs_arguments r) as [|[v|] args]; cbn; [done| |done].
  destruct (match args with [] => _ | _ => _ end) as [o|]; [|done].
  destruct (net_error (JobRow.net_error_code r) (JobRow.net_error_msg r)); cbn; [|done]. by intros [= <-].
Qed.

Lemma quiet_requeue_job id : quiet (eq id) (WorkerMgr.requeue_job id).
Proof.
  intros d ws Hd. apply wp_bind, wp_get_job; cbn [then_]; [done|done|intros _; by apply wp_ret|].
  intros r j Hr Hid [Hj _]%row_to_job_fields. destruct (Job.state j); first [by apply wp_ret|apply quiet_update_job; cbn; [|done]]; congruence.
Qed.

(** ** The invariant of the worker manager *)
Record mgr_ok (now : Z) (n : nat) (d : Db.t) (ws : table) : Prop := {
  mg_table : table_ok now ws;
  mg_exclusive : exclusive d ws;
  mg_jobs : jobs_ok d;
  mg_length : (length ws <= n)%nat;
}.

(** A call that may fail, but does not panic, keeps the invariant. *)
Definition safe (now : Z) (n n' : nat) {A} (c : io A) : Prop :=
  forall d ws, mgr_ok now n d ws -> wp true c d ws (fun r d' ws' => mgr_ok now n' d' ws' /\ returns r).

Lemma exclusive_calmer J d d' ws :
  exclusive d ws -> no_more_pending J d d' -> (forall id, J id -> id ∉ held_jobs ws) -> exclusive d' ws.
Proof. intros [H1 H2] Hp HJ. split; [done|]. intros id Hid [Hj|Hj]%Hp; [by apply (HJ id)|by apply (H2 id)]. Qed.

Lemma exclusive_insert d ws k wk :
  exclusive d ws -> (forall j, Worker.job_id wk = Some j -> (j ∉ held_jobs ws) /\ ~ job_pending j d) -> exclusive d (ws ++ [(k, wk)]).
Proof.
  intros [H1 H2] Hj.
  assert (Hh : forall id, id ∈ held_jobs [(k, wk)] -> Worker.job_id wk = Some id).
  { intros id (e & ->%list_elem_of_singleton & He)%elem_of_held. done. }
  assert (Hnd : NoDup (held_jobs [(k, wk)])) by (unfold held_jobs; cbn; destruct (Worker.job_id wk); [apply NoDup_singleton|by apply NoDup_nil]).
  split; rewrite held_app.
  - apply NoDup_app. split_and!; [done| |done]. intros id Hid Hk%Hh. by destruct (Hj id Hk).
  - intros id [Hid|Hk%Hh]%elem_of_app; [by apply H2|by destruct (Hj id Hk)].
Qed.

Lemma omap_inj {A B} (f : A -> option B) (l : list A) x y b :
  NoDup (omap f l) -> x ∈ l -> y ∈ l -> f x = Some b -> f y = Some b -> x = y.
Proof.
  induction l as [|a l IH]; [by intros _ ?%not_elem_of_nil|]. rewrite omap_cons. intros Hnd Hx Hy Fx Fy.
  assert (forall z, z ∈ l -> f z = Some b -> b ∈ omap f l) as Hel by (intros z Hz Fz; apply list_elem_of_omap; eauto).
  apply elem_of_cons in Hx as [->|Hx], Hy as [->|Hy]; [done|..].
  - rewrite Fx in Hnd. apply NoDup_cons in Hnd as [Hn _]. destruct Hn. eauto.
  - rewrite Fy in Hnd. apply NoDup_cons in Hnd as [Hn _]. destruct Hn. eauto.
  - destruct (f a); [apply NoDup_cons in Hnd as [_ Hnd]|]; auto.
Qed.

Lemma held_removed d ws k wk j :
  exclusive d ws -> (k, wk) ∈ ws -> Worker.job_id wk = Some j -> (j ∉ held_jobs (without_worker k ws)) /\ ~ job_pending j d.
Proof.
  intros [H1 H2] Hk Hj. split; [|by apply H2, elem_of_held; exists (k, wk)].
  intros (e & [Hne He]%list_elem_of_filter & Hej)%elem_of_held.
  assert (e = (k, wk)) as -> by (by eapply (omap_inj _ ws)). done.
Qed.

Lemma length_without k (ws : table) : (length (without_worker k ws) <= length ws)%nat.
Proof. apply length_filter. Qed.

Lemma length_without_in k (ws : table) e : e ∈ ws -> e.1 = k -> (length (without_worker k ws) < length ws)%nat.
Proof. intros He Hk. apply (length_filter_lt (fun e => e.1 <> k) ws e); [done|]. intros Hne. by apply Hne. Qed.

Lemma mgr_sublist now n d ws ws' : ws' `sublist_of` ws -> mgr_ok now n d ws -> mgr_ok now n d ws'.
Proof.
  intros Hs [H1 H2 H3 H4]. split; [by eapply table_sublist|by eapply exclusive_sublist|done|].
  apply sublist_length in Hs. lia.
Qed.

Lemma mgr_calmer now n J d d' ws :
  mgr_ok now n d ws -> jobs_ok d' -> no_more_pending J d d' -> (forall id, J id -> id ∉ held_jobs ws) -> mgr_ok now n d' ws.
Proof. intros [H1 H2 H3 H4] Hd Hp HJ. split; [done|by eapply exclusive_calmer|done|done]. Qed.

Lemma mgr_insert now n d ws k wk :
  mgr_ok now n d ws -> k ∉ ws.*1 -> Worker.ident wk = k -> Worker.expiry wk = (now + Worker.WORKER_TIMEOUT_MS)%Z ->
  (Worker.state wk = WorkerState.Busy <-> is_Some (Worker.job_id wk)) ->
  (forall j, Worker.job_id wk = Some j -> (j ∉ held_jobs ws) /\ ~ job_pending j d) -> mgr_ok now (S n) d (ws ++ [(k, wk)]).
Proof.
  intros [H1 H2 H3 H4] Hk Hid He Hb Hj. split; [by apply table_insert|by apply exclusive_insert|done|].
  rewrite length_app. cbn. lia.
Qed.

(** A computation that leaves the table alone, in a sequence. *)
Lemma wp_quiet J {A B} (c : io A) (k : A -> io B) d ws Q :
  quiet J c -> jobs_ok d ->
  (forall e d', jobs_ok d' -> no_more_pending J d d' -> Q (Error e) d' ws) ->
  (forall a d', jobs_ok d' -> no_more_pending J d d' -> wp true (k a) d' ws Q) -> wp true (c ≫= k) d ws Q.
Proof.
  intros Hc Hd HE HK. apply wp_bind. eapply wp_mono; [by apply Hc|]. cbn. intros [a|e|m|] d' ws' (Hd' & Hp & -> & Hr); cbn; [| |done..]; auto.
Qed.

Lemma find_key k (ws : table) :
  match find_worker (fun e => String.eqb e.1 k) ws with
  | Some e => e ∈ ws /\ e.1 = k
  | None => k ∉ ws.*1
  end.
Proof.
  pose proof (find_worker_spec (fun e => String.eqb e.1 k) ws) as H. destruct (find_worker _ ws) as [e|].
  - destruct H as [He Hk]. split; [done|]. by apply String.eqb_eq.
  - intros (e & -> & He)%list_elem_of_fmap. apply H in He. by rewrite String.eqb_refl in He.
Qed.

(** ** Heartbeats *)

(** What a heartbeat does with a worker: it starts the timeout again, and leaves its job or
    takes it away. *)
Definition refreshed (now : Z) (wk wk' : Worker.t) : Prop :=
  Worker.ident wk' = Worker.ident wk /\ Worker.expiry wk' = (now + Worker.WORKER_TIMEOUT_MS)%Z /\
  (Worker.state wk' = WorkerState.Busy <-> is_Some (Worker.job_id wk')) /\
  (Worker.job_id wk' = None \/ Worker.job_id wk' = Worker.job_id wk).

Lemma wp_heartbeat_of_worker now hb wk d ws :
  jobs_ok d -> (Worker.state wk = WorkerState.Busy <-> is_Some (Worker.job_id wk)) ->
  wp true (WorkerMgr.heartbeat_of_worker now hb wk) d ws (fun r d' ws' =>
    jobs_ok d' /\ no_more_pending none d d' /\ ws' = ws /\ returns r /\ forall wk', r = Value (Some wk') -> refreshed now wk wk').
Proof.
  intros Hd Hb. unfold WorkerMgr.heartbeat_of_worker.
  assert (Hready : refreshed now wk (Worker.ready now wk)) by (split_and!; [done|done|by split; [|intros []]|by left]).
  destruct (Worker.state wk) eqn:Es, (hb_state hb).
  1, 2: apply wp_ret; split_and!; [done|done|done|done|by intros ? [= <-]].
  - destruct (proj1 Hb eq_refl) as [j Hj]. apply wp_bind, wp_io_expect; [|done]. intros j' _. cbn [then_].
    apply (wp_quiet none); [apply quiet_is_job_complete|done|done|]. intros [|] d' Hd' Hp; cbn [negb].
    + unfold WorkerMgr.delete_worker. apply (wp_quiet none); [|done|intros; split_and!; [done|by eapply no_more_trans|done|done|done]|].
      { rewrite Hj. cbn. apply quiet_bind; [apply quiet_ret|intros; apply quiet_delete]. }
      intros [] d'' Hd'' Hp''. apply wp_ret. split_and!; [done|by eapply no_more_trans|done|done|by intros ? [= <-]].
    + apply wp_ret. split_and!; [done|done|done|done|]. intros ? [= <-]. split_and!; [done|done| |by right]. cbn. by rewrite Es.
  - destruct (proj1 Hb eq_refl) as [j Hj]. apply wp_bind, wp_io_expect; [|done]. intros j' _. cbn [then_].
    apply (wp_quiet none); [destruct (Worker.is_job_expired now wk); [apply quiet_cancel_job|apply quiet_ret]|done|done|].
    intros [] d' Hd' Hp. apply wp_ret. split_and!; [done|done|done|done|]. intros ? [= <-]. split_and!; [done|done| |by right]. cbn. by rewrite Es.
Qed.

Lemma heartbeat_safe now n hb : safe now n (S n) (WorkerMgr.process_heartbeat now hb).
Proof.
  intros d ws Hok. unfold WorkerMgr.process_heartbeat. apply wp_bind, wp_remove_worker; cbn [then_].
  set (k := hb_endpoint hb). set (ws1 := without_worker k ws).
  assert (Hok1 : mgr_ok now n d ws1) by (eapply mgr_sublist; [apply without_sublist|done]).
  assert (Hok1' : forall d', jobs_ok d' -> no_more_pending none d d' -> mgr_ok now (S n) d' ws1).
  { intros d' Hd' Hp. destruct (mgr_calmer now n none d d' ws1) as [? ? ? ?]; [done..|]. split; [done..|lia]. }
  assert (Hgo : forall wk, Worker.ident wk = k -> (Worker.state wk = WorkerState.Busy <-> is_Some (Worker.job_id wk)) ->
    (forall j, Worker.job_id wk = Some j -> (j ∉ held_jobs ws1) /\ ~ job_pending j d) ->
    wp true (wk' ← WorkerMgr.heartbeat_of_worker now hb wk;
      match wk' with
      | None => mret tt
      | Some wk' => _ ← assert (negb (Worker.is_expired now wk')) "assertion failed: !worker.is_expired()"; insert_worker k wk'
      end) d ws1 (fun r d' ws' => mgr_ok now (S n) d' ws' /\ returns r)).
  { intros wk Hid Hb Hj. apply wp_bind. eapply wp_mono; [apply wp_heartbeat_of_worker; [apply Hok|done]|].
    cbn. intros [[wk'|]|e|m|] d' ws' (Hd' & Hp & -> & Hr & Hwk); cbn; [| |by split; [apply Hok1'|]|done..].
    2: { apply wp_ret. split; [by apply Hok1'|done]. }
    destruct (Hwk wk' eq_refl) as (Hid' & He & Hb' & Hjob). apply wp_bind, wp_assert; cbn [then_].
    - intros _. apply wp_insert_worker. split; [|done].
      rewrite without_absent by apply not_in_without.
      apply mgr_insert; [by eapply mgr_calmer|apply not_in_without|congruence|done|done|].
      intros j Hj'. destruct Hjob as [Hn|Hs]; [congruence|]. destruct (Hj j) as [? Hnp]; [congruence|]. split; [done|].
      by intros [?|?]%Hp.
    - intros Hexp. exfalso. unfold Worker.is_expired in Hexp. rewrite He in Hexp. apply negb_false_iff, bool_decide_eq_true in Hexp.
      unfold Worker.WORKER_TIMEOUT_MS in Hexp. lia. }
  pose proof (find_key k ws) as Hf. destruct (find_worker _ ws) as [[k' wk]|]; cbn.
  - destruct Hf as [Hin Hk]. cbn in Hk. subst k'. pose proof (tb_workers _ _ (mg_table _ _ _ _ Hok)) as Hw.
    eapply Forall_forall in Hw as (Hid & Hb & _); [|exact Hin]. apply Hgo; [done|done|]. intros j Hj.
    eapply held_removed; [apply Hok|done|done].
  - case_decide; [|apply wp_ret; split; [by apply Hok1'; [apply Hok|]|done]].
    apply Hgo; [done|by split; [|intros []]|done].
Qed.

(** ** Expiry, status reports, cancelations *)

Lemma safe_quiet now n {A} (c : io A) : quiet none c -> safe now n n c.
Proof.
  intros Hc d ws Hok. eapply wp_mono; [apply Hc, Hok|]. cbn. intros r d' ws' (Hd' & Hp & -> & Hr). split; [by eapply mgr_calmer|done].
Qed.

Lemma safe_try now n n' {A} (c : io A) : safe now n n' c -> safe now n n' (try c).
Proof. intros Hc d ws Hok. apply wp_try. eapply wp_mono; [by apply Hc|]. cbn. by intros []. Qed.

(** A call whose result is thrown away. *)
Lemma safe_then now n1 n2 n3 {A B} (c : io A) (c' : io B) :
  safe now n1 n2 c -> safe now n2 n3 c' -> (forall d ws, mgr_ok now n2 d ws -> mgr_ok now n3 d ws) -> safe now n1 n3 (_ ← c; c').
Proof.
  intros Hc Hc' Hle d ws Hok. apply wp_bind. eapply wp_mono; [by apply Hc|]. cbn. intros [a|e|m|] d' ws' [Hok' Hr]; cbn; [|split; auto|done..].
  by apply Hc'.
Qed.

Lemma mgr_more now n n' d ws : (n <= n')%nat -> mgr_ok now n d ws -> mgr_ok now n' d ws.
Proof. intros Hle [? ? ? ?]. split; [done..|lia]. Qed.

Lemma expire_loop_safe now n d ws :
  mgr_ok now n d ws -> wp true (WorkerMgr.expire_loop now ws) d ws (fun r d' ws' => mgr_ok now n d' ws' /\ returns r).
Proof.
  revert d. induction ws as [|[k wk] rest IH]; intros d Hok; cbn [WorkerMgr.expire_loop]; [by apply wp_ret|].
  destruct (negb _); [by apply wp_ret|]. apply wp_bind, wp_set_workers; cbn [then_].
  assert (Hrest : mgr_ok now n d rest) by (eapply mgr_sublist; [apply sublist_cons|done]; reflexivity).
  pose proof (tb_workers _ _ (mg_table _ _ _ _ Hok)) as [(_ & Hb & _) _]%Forall_cons. cbn in Hb.
  destruct (decide (Worker.state wk = WorkerState.Busy)) as [Hbusy|]; [|apply wp_bind, wp_ret; by apply IH].
  destruct (proj1 Hb Hbusy) as [j Hj].
  assert (Hout : j ∉ held_jobs rest).
  { pose proof (ex_jobs _ _ (mg_exclusive _ _ _ _ Hok)) as Hnd. unfold held_jobs in Hnd. rewrite omap_cons in Hnd. cbn in Hnd.
    rewrite Hj in Hnd. by apply NoDup_cons in Hnd as [? _]. }
  apply (wp_quiet (eq j)); [|apply Hok|intros e d' Hd' Hp; split; [|done]|intros [] d' Hd' Hp; apply IH].
  - rewrite Hj. apply quiet_expect, quiet_bind; [apply quiet_requeue_job|]. intros _.
    unfold WorkerMgr.delete_worker. rewrite Hj. apply quiet_expect, quiet_delete.
  - eapply mgr_calmer; [done..|]. by intros id <-.
  - eapply mgr_calmer; [done..|]. by intros id <-.
Qed.

Lemma expire_safe now n : safe now n n (WorkerMgr.expire_workers now).
Proof. intros d ws Hok. apply wp_bind, wp_get_workers; cbn [then_]. by apply expire_loop_safe. Qed.

Lemma status_safe now n job : Job.state job <> JobState.Pending -> safe now n n (WorkerMgr.process_job_status job).
Proof.
  intros Hs. apply safe_quiet. unfold WorkerMgr.process_job_status. apply quiet_bind; [by apply quiet_update_job|]. intros _. apply quiet_notify.
Qed.

(** The jobs a query reads. *)
Lemma wp_read_jobs b d ws (rows : list JobRow.t) Q :
  jobs_ok d -> (forall r, r ∈ rows -> r ∈ Db.jobs d) ->
  (forall js, Forall2 (fun r j => row_to_job r = Return (Ok j)) rows js -> Q (Value js) d ws) ->
  wp b (mapM_io (fun r => lift (row_to_job r)) rows) d ws Q.
Proof.
  intros Hd Hrows HQ. apply (wp_mapM b (fun r j => row_to_job r = Return (Ok j))); [|done].
  intros r Q' Hr HV _ _. apply wp_lift. destruct (Hd r) as [j Hj]; [by apply Hrows|]. rewrite Hj. by apply HV.
Qed.

Lemma safe_get_cancel_pending now n : safe now n n DataStore.get_cancel_pending_jobs.
Proof.
  intros d ws Hok. apply wp_store_query; [by split|]. intros o. apply wp_read_jobs; [apply Hok| |by split].
  intros r Hr. by apply elem_of_select in Hr as [? _].
Qed.

Lemma cancelations_safe now n : safe now n n WorkerMgr.process_cancelations.
Proof.
  intros d ws Hok. apply wp_bind. eapply wp_mono; [by apply safe_get_cancel_pending|]. cbn. intros [js|e|m|] d' ws' [Hok' Hr]; cbn; [|done..].
  clear d ws Hok. apply (wp_for_io true (mgr_ok now n)); [done| |by split]. intros job d ws _ Hok.
  assert (Hend : forall c : io unit, quiet none c -> wp true c d ws (fun r d' ws' => mgr_ok now n d' ws' /\ (r = Value tt \/ mgr_ok now n d' ws' /\ returns r))).
  { intros c Hc. eapply wp_mono; [by apply safe_quiet|]. cbn. intros r d'' ws'' [H1 H2]. auto. }
  apply wp_bind, wp_get_workers; cbn [then_]. destruct (find_worker _ ws) as [[k wk]|]; apply Hend;
    [apply quiet_cancel_on_worker|by apply quiet_update_job].
Qed.

(** ** Dispatch *)

Lemma oldest_pending_elem {R} (key : R -> Z) (l : list R) r : Db.oldest key l = Some r -> r ∈ l.
Proof.
  revert r. induction l as [|x l IH]; cbn; [done|]. intros r. destruct (Db.oldest key l) as [r'|]; [|intros [= ->]; set_solver].
  specialize (IH r' eq_refl). case_decide; intros [= <-]; set_solver.
Qed.

(** Taking a job: it was pending, and now it is dispatched. *)
Lemma wp_next_pending_job k d ws Q :
  jobs_ok d -> (forall e, Q (Error e) d ws) -> Q (Value None) d ws ->
  (forall job d', jobs_ok d' -> no_more_pending none d d' -> job_pending (Job.id job) d -> ~ job_pending (Job.id job) d' ->
     Q (Value (Some job)) d' ws) ->
  wp true (DataStore.next_pending_job k) d ws Q.
Proof.
  intros Hd HE HN HS. unfold DataStore.next_pending_job. apply wp_bind, wp_get_shard; [intros _; apply HE|]. cbn [then_].
  apply wp_bind, wp_modify; [intros _; apply HE|]. intros o. unfold Db.next_pending_job_v1.
  destruct (Db.oldest _ _) as [r|] eqn:E; cbn [fst snd then_]; [|by apply wp_ret].
  apply oldest_pending_elem, elem_of_select in E as [Hr Hp]. apply bool_decide_eq_true in Hp.
  set (f := fun r => JobRow.set_progress _ _ _ _ r). set (d' := Db.set_jobs _ d).
  assert (Hf : forall r, r ∈ Db.jobs d -> exists j, row_to_job (f r) = Return (Ok j)).
  { intros r0 Hr0. destruct (Hd r0 Hr0) as [j Hj]. eapply row_read_ok; [| | | |exact Hj]; [done..|]. exact (row_to_job_net r0 j Hj). }
  destruct (Hf r Hr) as [job Hjob]. pose proof (row_to_job_fields _ _ Hjob) as [Hid _]. cbn in Hid.
  unfold f in Hjob. cbn beta in Hjob. apply wp_bind, wp_lift. rewrite Hjob. cbn [then_]. apply wp_ret, HS.
  - intros r' (r0 & -> & Hr0)%list_elem_of_fmap. destruct (Z.eqb _ _); auto.
  - intros id (r' & (r0 & -> & Hr0)%list_elem_of_fmap & <- & Hst). right. destruct (Z.eqb _ _); [done|by exists r0].
  - rewrite Hid. by exists r.
  - rewrite Hid. intros (r' & (r0 & -> & Hr0)%list_elem_of_fmap & Heq & Hst). destruct (Z.eqb_spec (JobRow.id r0) (JobRow.id r)); done.
Qed.

Lemma list_filter_filter_swap {A} (P Q : A -> Prop) `{!forall x, Decision (P x), !forall x, Decision (Q x)} (l : list A) :
  filter P (filter Q l) = filter Q (filter P l).
Proof. rewrite !list_filter_filter. apply list_filter_iff. naive_solver. Qed.

Abbreviation ready_workers := (filter (fun e : string * Worker.t => Worker.state e.2 = WorkerState.Ready)).

Section dispatch.
Context (job_timeout : Z) (oi pi : Job.t -> option (list Integration)) (decrypt : string -> option string).

Lemma integrations_id j : Job.id (WorkerMgr.add_project_integrations_to_job pi (WorkerMgr.add_integrations_to_job oi decrypt j)) = Job.id j.
Proof. unfold WorkerMgr.add_project_integrations_to_job, WorkerMgr.add_integrations_to_job. by repeat case_match. Qed.

(** The loop ends: each round makes a ready worker busy. *)
Lemma work_safe fuel now n d ws :
  mgr_ok now n d ws -> (length (ready_workers ws) < fuel)%nat ->
  wp true (WorkerMgr.process_work job_timeout oi pi decrypt fuel now) d ws (fun r d' ws' => mgr_ok now n d' ws' /\ returns r).
Proof.
  revert d ws. induction fuel as [|fuel IH]; intros d ws Hok Hfuel; [lia|]. cbn [WorkerMgr.process_work].
  apply wp_bind, wp_get_workers; cbn [then_]. pose proof (find_worker_spec WorkerMgr.is_ready ws) as Hf.
  destruct (find_worker _ ws) as [[k wk]|]; [|by apply wp_ret]. destruct Hf as [Hin Hready%bool_decide_eq_true].
  apply wp_bind, wp_next_pending_job; cbn [then_]; [apply Hok|done|by apply wp_ret|].
  intros job d1 Hd1 Hp Hwas Hnot. set (job' := WorkerMgr.add_project_integrations_to_job _ _).
  assert (Job.id job' = Job.id job) as Hid by apply integrations_id.
  assert (Hout : Job.id job ∉ held_jobs ws) by (intros Hh; by apply (ex_pending _ _ (mg_exclusive _ _ _ _ Hok) _ Hh)).
  assert (Hok1 : mgr_ok now n d1 ws) by (by eapply mgr_calmer).
  apply wp_bind, wp_try, wp_notify; cbn [then_].
  { intros _. eapply wp_mono; [apply (quiet_update_job (eq (Job.id job))); [by rewrite <- Hid|done]|]. cbn.
    intros r d2 ws2 (Hd2 & Hp2 & -> & Hr). split; [|done]. eapply mgr_calmer; [done..|]. by intros id <-. }
  apply wp_bind, wp_remove_worker. pose proof (find_key k ws) as Hf. destruct (find_worker _ ws) as [[k' wk']|].
  2: { destruct Hf. apply list_elem_of_fmap. by exists (k, wk). }
  destruct Hf as [Hin' Hk']. assert ((k', wk') = (k, wk)) as [= -> ->] by (eapply key_unique; [apply Hok|done..]).
  cbn [then_ fmap option_fmap option_map snd]. apply wp_bind, wp_ret. cbn [then_].
  pose proof (tb_workers _ _ (mg_table _ _ _ _ Hok)) as Hw. eapply Forall_forall in Hw as (Hwid & Hb & _); [|exact Hin]. cbn in Hwid, Hb.
  assert (Worker.job_id wk = None) as Hnone.
  { destruct (Worker.job_id wk) eqn:E; [|done]. cbn in Hready. rewrite Hready in Hb. discriminate (proj2 Hb ltac:(eauto)). }
  unfold Worker.busy. rewrite Hnone. apply wp_bind, wp_ret. cbn [then_].
  set (wk2 := Worker.mk _ _ _ _ _). set (ws1 := without_worker k ws).
  assert (Hok2 : mgr_ok now n d1 ws1) by (eapply mgr_sublist; [apply without_sublist|done]).
  apply (wp_quiet none); [apply quiet_expect, quiet_upsert|done|intros e d2 Hd2 Hp2; split; [by eapply (mgr_calmer _ _ none d1)|done]|].
  intros [] d2 Hd2 Hp2. apply wp_bind, wp_insert_worker. cbn [then_]. rewrite without_absent by apply not_in_without.
  assert (Hlen : (length ws1 < length ws)%nat) by (by eapply length_without_in).
  apply IH.
  - pose proof (mg_length _ _ _ _ Hok). destruct n as [|n']; [lia|].
    apply mgr_insert; [|apply not_in_without|done|done|by split; [eauto|]|].
    + destruct (mgr_calmer now (S n') none d1 d2 ws1) as [? ? ? _]; [done..|]. split; [done..|lia].
    + intros j [= <-]. rewrite Hid. split; [|by intros [?|?]%Hp2]. intros Hh. apply Hout. eapply elem_of_sublist; [exact Hh|].
      apply held_sublist, without_sublist.
  - rewrite filter_app, length_app. change (length (ready_workers [(k, wk2)])) with 0%nat.
    enough (length (ready_workers ws1) < length (ready_workers ws))%nat by lia.
    subst ws1. unfold without_worker. rewrite list_filter_filter_swap. eapply (length_filter_lt (fun e => e.1 <> k)).
    + apply list_elem_of_filter. split; [|exact Hin]. exact Hready.
    + by intros Hne.
Qed.

(** One round of the loop of the worker manager. *)
Lemma round_safe fuel now n hb status work d ws :
  mgr_ok now n d ws -> (S n < fuel)%nat -> (forall job, status = Some job -> Job.state job <> JobState.Pending) ->
  wp true (WorkerMgr.round job_timeout oi pi decrypt fuel now hb status work) d ws (fun r d' ws' => mgr_ok now (S n) d' ws' /\ r = Value tt).
Proof.
  intros Hok Hfuel Hst. unfold WorkerMgr.round.
  assert (Htry : forall (c : io unit) n n' (k : io unit) d ws Q, safe now n n' c -> mgr_ok now n d ws ->
    (forall d' ws', mgr_ok now n' d' ws' -> wp true k d' ws' Q) -> wp true (_ ← try c; k) d ws Q).
  { intros c n1 n2 k d1 ws1 Q Hc Hok1 Hk. apply wp_bind, wp_try. eapply wp_mono; [by apply Hc|].
    intros [[]|e|m|] d2 ws2 [Hok2 Hr]; cbn; [by apply Hk..|done|done]. }
  assert (Hopt : forall (c : io unit) n n' d ws, safe now n n' c -> mgr_ok now n d ws ->
    wp true (_ ← try c; mret tt) d ws (fun r d' ws' => mgr_ok now n' d' ws' /\ r = Value tt)).
  { intros c n1 n2 d1 ws1 Hc Hok1. eapply Htry; [done..|]. intros d2 ws2 Hok2. by apply wp_ret. }
  apply wp_bind. eapply (wp_mono _ _ _ _ (fun r d' ws' => mgr_ok now (S n) d' ws' /\ r = Value tt)).
  { destruct hb; [by eapply Hopt; [apply heartbeat_safe|]|apply wp_ret; split; [|done]; by apply (mgr_more _ n); [lia|]]. }
  clear d ws Hok. intros r d ws [Hok ->]. cbn [then_]. eapply Htry; [apply expire_safe|done|]. clear d ws Hok. intros d ws Hok.
  apply wp_bind. eapply (wp_mono _ _ _ _ (fun r d' ws' => mgr_ok now (S n) d' ws' /\ r = Value tt)).
  { destruct status; [by eapply Hopt; [apply status_safe, Hst|]|by apply wp_ret]. }
  clear d ws Hok. intros r d ws [Hok ->]. cbn [then_]. destruct work; [|by apply wp_ret].
  eapply Htry; [apply cancelations_safe|done|]. clear d ws Hok. intros d ws Hok. eapply Hopt; [|exact Hok].
  intros d1 ws1 Hok1. apply work_safe; [done|]. pose proof (mg_length _ _ _ _ Hok1).
  pose proof (length_filter (fun e : string * Worker.t => Worker.state e.2 = WorkerState.Ready) ws1). lia.
Qed.

(** ** Startup *)

(** The table of busy workers as a manager that stopped between two calls leaves it. *)
Record busy_ok (d : Db.t) : Prop := {
  bs_idents : NoDup (bw_ident <$> Db.busy_workers d);
  bs_jobs : NoDup (bw_job_id <$> Db.busy_workers d);
  bs_pending : forall bw, bw ∈ Db.busy_workers d -> ~ job_pending (bw_job_id bw) d;
}.

Lemma load_workers_safe now d :
  jobs_ok d -> busy_ok d ->
  wp true (WorkerMgr.load_workers job_timeout now) d [] (fun r d' ws' => mgr_ok now (length (Db.busy_workers d)) d' ws' /\ returns r).
Proof.
  intros Hd [Hi Hj Hp]. unfold WorkerMgr.load_workers.
  assert (Hnil : mgr_ok now 0 d []).
  { split; [|split|done|done]; [split; [constructor|by apply NoDup_nil|constructor]|by apply NoDup_nil|]. by intros id ?%not_elem_of_nil. }
  assert (Hnil' : mgr_ok now (length (Db.busy_workers d)) d []) by (eapply mgr_more; [|exact Hnil]; lia).
  apply wp_bind, wp_bind, wp_get_shard; [by split|]. cbn [then_]. apply wp_query; [by split|]. intros o. cbn [then_].
  set (l := Db.get_busy_workers_v1 o d). assert (Hl : l ≡ₚ Db.busy_workers d) by apply permute_perm.
  apply (wp_loop true (fun l1 _ d' ws' => d' = d /\ ws'.*1 = bw_ident <$> l1 /\ held_jobs ws' = bw_job_id <$> l1 /\ mgr_ok now (length l1) d ws')).
  - done.
  - intros l1 bw l2 [] d' ws' Hsplit (-> & H1 & H2 & H3). cbn. apply wp_bind, wp_ret. cbn [then_].
    assert (bw_ident bw ∉ ws'.*1) as Hfresh.
    { rewrite H1. rewrite <- Hl, Hsplit, fmap_app in Hi. apply NoDup_app in Hi as (_ & Hi & _). intros Hx. by apply (Hi _ Hx); left. }
    assert (bw_job_id bw ∉ held_jobs ws') as Hout.
    { rewrite H2. rewrite <- Hl, Hsplit, fmap_app in Hj. apply NoDup_app in Hj as (_ & Hj & _). intros Hx. by apply (Hj _ Hx); left. }
    apply wp_insert_worker. rewrite without_absent by done. split_and!; [done|by rewrite !fmap_app, H1| |].
    + by rewrite held_app, H2, fmap_app.
    + rewrite length_app, Nat.add_1_r. apply mgr_insert; [done|done|done|done|by split; [eauto|]|]. intros j [= <-].
      split; [done|]. apply Hp. rewrite <- Hl, Hsplit. set_solver.
  - intros s d' ws' (-> & _ & _ & H). rewrite Hl in H. by split.
Qed.

Lemma requeue_jobs_safe now n : safe now n n WorkerMgr.requeue_jobs.
Proof.
  intros d ws Hok. unfold WorkerMgr.requeue_jobs. apply wp_bind, wp_store_query; [by split|]. intros o.
  apply wp_read_jobs; [apply Hok|intros r Hr; by apply elem_of_select in Hr as [? _]|]. intros js _. cbn [then_].
  apply (wp_for_io true (mgr_ok now n)); [done| |by split]. clear d ws Hok. intros job d ws _ Hok.
  apply wp_bind, wp_get_workers. cbn [then_]. pose proof (find_worker_spec (WorkerMgr.has_job (Job.id job)) ws) as Hf.
  destruct (find_worker _ ws) as [e|]; [by apply wp_ret; split; [|left]|].
  eapply wp_mono; [apply (quiet_update_job (eq (Job.id job))); [done|apply Hok]|]. cbn. intros r d' ws' (Hd' & Hp & -> & Hr).
  assert (mgr_ok now n d' ws); [|by auto]. eapply mgr_calmer; [done..|]. intros id <- (e & He & Hj)%elem_of_held.
  specialize (Hf e He). unfold WorkerMgr.has_job in Hf. by apply bool_decide_eq_false in Hf.
Qed.

Lemma startup_safe now d :
  jobs_ok d -> busy_ok d ->
  wp true (WorkerMgr.startup job_timeout now) d [] (fun r d' ws' => mgr_ok now (length (Db.busy_workers d)) d' ws' /\ returns r).
Proof.
  intros Hd Hb. apply wp_bind. eapply wp_mono; [by apply load_workers_safe|]. cbn. intros [[]|e|m|] d' ws' [Hok Hr]; cbn; [|done..].
  by apply requeue_jobs_safe.
Qed.

(** ** A run of the worker manager

    It starts with an empty table and consistent rows of busy workers ([busy_ok]), and goes
    through rounds; in between, other threads change the database and time passes.  The others
    make no job pending that a worker has. *)
Inductive managed : Z -> world -> Prop :=
| managed_start now w :
    calm true w -> workers w = [] -> jobs_ok (db w) -> busy_ok (db w) ->
    managed now (WorkerMgr.startup job_timeout now w).1
| managed_round now now' fuel hb status work w :
    managed now w -> (now <= now')%Z -> (S (length (workers w)) < fuel)%nat ->
    (forall job, status = Some job -> Job.state job <> JobState.Pending) ->
    managed now' (WorkerMgr.round job_timeout oi pi decrypt fuel now' hb status work w).1
| managed_others now w d :
    managed now w -> jobs_ok d -> (forall id, id ∈ held_jobs (workers w) -> ~ job_pending id d) -> managed now (set_db d w)
| managed_turns now w w' :
    managed now w -> calm true w' -> db w' = db w -> workers w' = workers w -> managed now w'.

Lemma managed_ok now w : managed now w -> calm true w /\ mgr_ok now (length (workers w)) (db w) (workers w).
Proof.
  induction 1 as [now w Hc Hw Hd Hb|now now' fuel hb status work w _ [Hc [H1 H2 H3 H4]] Hle Hfuel Hst
    |now w d _ [Hc [H1 H2 H3 H4]] Hd Hp|now w w' _ [_ Hok] Hc Hd Hw].
  - destruct (startup_safe now (db w) Hd Hb w Hc eq_refl Hw) as [Hc' [[] _]]. split; [done|by split].
  - destruct (round_safe fuel now' (length (workers w)) hb status work (db w) (workers w)) with w as [Hc' [[] _]]; [|done..|].
    + split; [by eapply table_later|done..].
    + split; [done|by split].
  - split; [by destruct Hc; split|]. split; [done|split; [apply H2|done]|done|done].
  - split; [done|]. by rewrite Hd, Hw.
Qed.

End dispatch.

(** ** An example: a worker that gets the job of [core/zlib] *)
Module WorkerExample.
Import JobGroupsExample SchedulerExample.

Definition no_integrations (_ : Job.t) : option (list Integration) := None.
Definition no_decrypt (_ : string) : option string := None.

(** The job is created and pending. *)
Definition with_job : Db.t := db (ScheduleMgr.process_work 2 (world_of queued)).1.

Definition start : world := (WorkerMgr.startup 60 0 (world_of with_job)).1.

Definition step (now : Z) (hb : option Heartbeat) (work : bool) (w : world) : world :=
  (WorkerMgr.round 60 no_integrations no_integrations no_decrypt 10 now hb None work w).1.

Definition working : world := step 1000 (Some (mkHeartbeat "worker-1" WorkerState.Ready)) true start.

Lemma no_busy_ok d : Db.busy_workers d = [] -> busy_ok d.
Proof. intros E. split; rewrite E; [by apply NoDup_nil..|]. by intros bw ?%not_elem_of_nil. Qed.

Lemma jobs_ok_by d :
  forallb (fun r => match row_to_job r with Return (Ok _) => true | _ => false end) (Db.jobs d) = true -> jobs_ok d.
Proof.
  rewrite forallb_forall. intros H r Hr%list_elem_of_In. specialize (H r Hr). destruct (row_to_job r) as [[j|]|]; [by exists j|done..].
Qed.

Lemma start_managed : managed 60 no_integrations no_integrations no_decrypt 0 start.
Proof.
  apply managed_start; [apply world_calm|reflexivity| |]; cbn [db world_of].
  - apply jobs_ok_by. vm_compute. reflexivity.
  - apply no_busy_ok. vm_compute. reflexivity.
Qed.

End WorkerExample.

(** * The worker manager: expiry, and workers it forgets

    Looking at the front of the table is enough: [expire_workers] removes exactly the workers
    whose heartbeats stopped, and gives their jobs back.  And two ways to lose a worker that is
    alive. *)

(** ** Specification of expiry *)

(** The state of a job whose worker is lost. *)
Definition requeued (s : JobState.t) : JobState.t :=
  match s with
  | JobState.Processing | JobState.Dispatched => JobState.Pending
  | JobState.CancelPending | JobState.CancelProcessing => JobState.CancelComplete
  | _ => s
  end.

Definition job_states (d : Db.t) : list (Z * JobState.t) := (fun r => (JobRow.id r, JobRow.job_state r)) <$> Db.jobs d.

Definition requeue_states (J : list Z) (l : list (Z * JobState.t)) : list (Z * JobState.t) :=
  (fun p => (p.1, if decide (p.1 ∈ J) then requeued p.2 else p.2)) <$> l.

Definition expired (now : Z) (e : string * Worker.t) : Prop := Worker.is_expired now e.2 = true.

#[export] Instance expired_dec now e : Decision (expired now e).
Proof. unfold expired. apply _. Defined.

(** The rows of the table of busy workers that are left when the workers [l] are lost. *)
Definition busy_without (l : table) (bws : list BusyWorker) : list BusyWorker :=
  filter (fun bw => Forall (fun e : string * Worker.t => ~ (Worker.ident e.2 = bw_ident bw /\ Worker.job_id e.2 = Some (bw_job_id bw))) l) bws.

(** ** Proof *)

Lemma requeue_nil l : requeue_states [] l = l.
Proof. unfold requeue_states. induction l as [|[i s] l IH]; [done|]. cbn. rewrite IH. done. Qed.

Lemma requeued_idem s : requeued (requeued s) = requeued s.
Proof. by destruct s. Qed.

Lemma requeue_cons j J l : requeue_states J (requeue_states [j] l) = requeue_states (j :: J) l.
Proof.
  unfold requeue_states. rewrite <- list_fmap_compose. apply list_fmap_ext. intros i [id s] _. cbn.
  destruct (decide (id ∈ [j])) as [Hj|Hj], (decide (id ∈ J)) as [HJ|HJ], (decide (id ∈ j :: J)) as [H|H]; rewrite ?requeued_idem; try done; set_solver.
Qed.

Lemma unique_state d r1 r2 : NoDup (job_states d).*1 -> r1 ∈ Db.jobs d -> r2 ∈ Db.jobs d -> JobRow.id r1 = JobRow.id r2 -> r1 = r2.
Proof.
  unfold job_states. rewrite <- list_fmap_compose. intros Hnd [i Hi]%list_elem_of_lookup [j Hj]%list_elem_of_lookup Heq.
  assert (i = j) as ->; [|congruence].
  eapply NoDup_lookup; [exact Hnd|rewrite list_lookup_fmap, Hi; done|rewrite list_lookup_fmap, Hj; cbn; by rewrite Heq].
Qed.

(** Updating the one row of a job, whose state was [s]. *)
Lemma update_states d r s' start finish i c m :
  NoDup (job_states d).*1 -> r ∈ Db.jobs d -> requeued (JobRow.job_state r) = s' ->
  job_states (Db.update_job_v3 (JobRow.id r) s' start finish i c m d) = requeue_states [JobRow.id r] (job_states d).
Proof.
  intros Hnd Hr Hs. unfold job_states, requeue_states. cbn. unfold Db.update. rewrite <- !list_fmap_compose.
  apply list_fmap_ext. intros k r' Hk%list_elem_of_lookup_2. cbn. destruct (Z.eqb_spec (JobRow.id r') (JobRow.id r)) as [E|E]; cbn.
  - rewrite (unique_state d r' r) by done. rewrite decide_True by set_solver. by rewrite Hs.
  - rewrite decide_False by set_solver. done.
Qed.

Lemma same_states d j :
  (forall r, r ∈ Db.jobs d -> JobRow.id r = j -> requeued (JobRow.job_state r) = JobRow.job_state r) ->
  job_states d = requeue_states [j] (job_states d).
Proof.
  intros H. unfold job_states, requeue_states. rewrite <- list_fmap_compose. apply list_fmap_ext.
  intros k r' Hk%list_elem_of_lookup_2. cbn. case_decide as Hj; [|done]. apply list_elem_of_singleton in Hj. by rewrite H.
Qed.

Lemma wp_requeue_job j d ws :
  jobs_ok d -> NoDup (job_states d).*1 ->
  wp false (WorkerMgr.requeue_job j) d ws (fun r d' ws' =>
    r = Value tt /\ ws' = ws /\ jobs_ok d' /\ job_states d' = requeue_states [j] (job_states d) /\ Db.busy_workers d' = Db.busy_workers d).
Proof.
  intros Hd Hnd. apply wp_bind, wp_get_job; cbn [then_]; [done|done| |].
  - intros Hnone. apply wp_ret. split_and!; [done|done|done| |done]. apply same_states. intros r Hr Hid. exfalso.
    assert (r ∈ Db.get_job_v1 j d) as Hin by (by apply list_elem_of_filter). rewrite Hnone in Hin. by apply not_elem_of_nil in Hin.
  - intros r job Hr <- (Hid & Hst & _)%row_to_job_fields.
    assert (Hsame : requeued (JobRow.job_state r) = JobRow.job_state r -> job_states d = requeue_states [JobRow.id r] (job_states d)).
    { intros Hs. apply same_states. intros r' Hr' Hi. by rewrite (unique_state d r' r). }
    assert (Hupd : forall s, requeued (JobRow.job_state r) = s -> wp false (DataStore.update_job (Job.set_state s job)) d ws (fun a d' ws' =>
      a = Value tt /\ ws' = ws /\ jobs_ok d' /\ job_states d' = requeue_states [JobRow.id r] (job_states d) /\ Db.busy_workers d' = Db.busy_workers d)).
    { intros s Hs. apply wp_update_job; [done|]. split_and!; [done|done|by apply update_job_jobs_ok| |done]. cbn. rewrite Hid. by apply update_states. }
    rewrite Hst. destruct (JobRow.job_state r); first [by apply Hupd|apply wp_ret; split_and!; auto].
Qed.

Lemma busy_without_cons e l bws j :
  Worker.job_id e.2 = Some j ->
  busy_without l (filter (fun r => Db.same_worker (Worker.ident e.2) j r = false) bws) = busy_without (e :: l) bws.
Proof.
  intros Hj. unfold busy_without. rewrite list_filter_filter. apply list_filter_iff. intros bw. rewrite Forall_cons.
  assert (Db.same_worker (Worker.ident e.2) j bw = false <-> ~ (Worker.ident e.2 = bw_ident bw /\ Worker.job_id e.2 = Some (bw_job_id bw))) as ->.
  { unfold Db.same_worker. rewrite <- not_true_iff_false, andb_true_iff, String.eqb_eq, Z.eqb_eq, Hj. naive_solver. }
  tauto.
Qed.

Lemma busy_without_ready e l bws : Worker.job_id e.2 = None -> busy_without (e :: l) bws = busy_without l bws.
Proof. intros Hj. unfold busy_without. apply list_filter_iff. intros bw. rewrite Forall_cons, Hj. naive_solver. Qed.

Lemma requeue_ids J l : (requeue_states J l).*1 = l.*1.
Proof. unfold requeue_states. rewrite <- list_fmap_compose. by apply list_fmap_ext. Qed.

(** Behind a worker that is not expired, none is. *)
Lemma sorted_front now e (ws : table) :
  StronglySorted (fun a b => (Worker.expiry a.2 <= Worker.expiry b.2)%Z) (e :: ws) -> ~ expired now e ->
  filter (expired now) (e :: ws) = [] /\ filter (fun e => ~ expired now e) (e :: ws) = e :: ws.
Proof.
  intros [_ Hf]%StronglySorted_inv He.
  assert (Hall : Forall (fun e => ~ expired now e) (e :: ws)).
  { constructor; [done|]. eapply Forall_impl; [exact Hf|]. cbn. unfold expired, Worker.is_expired in *. intros e'.
    rewrite bool_decide_eq_true in *. lia. }
  clear Hf He. induction Hall as [|e' l He' _ [IH1 IH2]]; [done|]. rewrite !filter_cons.
  rewrite decide_False by done. rewrite decide_True by done. by rewrite IH1, IH2.
Qed.

Definition expiry_done (now : Z) (ws : table) (d : Db.t) (r : answer unit) (d' : Db.t) (ws' : table) : Prop :=
  r = Value tt /\ ws' = filter (fun e => ~ expired now e) ws /\
  job_states d' = requeue_states (held_jobs (filter (expired now) ws)) (job_states d) /\
  Db.busy_workers d' = busy_without (filter (expired now) ws) (Db.busy_workers d).

Lemma busy_without_nil bws : busy_without [] bws = bws.
Proof. unfold busy_without. induction bws as [|bw bws IH]; [done|]. rewrite filter_cons, decide_True by constructor. by rewrite IH. Qed.

Lemma expire_loop_exact now ws d :
  Forall (fun e : string * Worker.t => Worker.state e.2 = WorkerState.Busy <-> is_Some (Worker.job_id e.2)) ws ->
  StronglySorted (fun a b => (Worker.expiry a.2 <= Worker.expiry b.2)%Z) ws -> jobs_ok d -> NoDup (job_states d).*1 ->
  wp false (WorkerMgr.expire_loop now ws) d ws (expiry_done now ws d).
Proof.
  revert d. induction ws as [|[k wk] rest IH]; intros d Hb Hs Hd Hnd; cbn [WorkerMgr.expire_loop].
  { apply wp_ret. split_and!; [done|done|cbn; by rewrite requeue_nil|cbn; by rewrite busy_without_nil]. }
  destruct (Worker.is_expired now wk) eqn:He; cbn [negb].
  2: { destruct (sorted_front now (k, wk) rest Hs) as [E1 E2]; [unfold expired; cbn; congruence|]. apply wp_ret.
       unfold expiry_done. rewrite E1, E2. cbn. by rewrite requeue_nil, busy_without_nil. }
  apply Forall_cons in Hb as [Hb Hbs]. apply StronglySorted_inv in Hs as [Hs _]. cbn in Hb.
  apply wp_bind, wp_set_workers; cbn [then_]. unfold expiry_done. rewrite !filter_cons.
  assert (Hexp : expired now (k, wk)) by done.
  rewrite (decide_False (P := ~ expired now (k, wk))), (decide_True (P := expired now (k, wk))) by auto.
  destruct (decide (Worker.state wk = WorkerState.Busy)) as [Hbusy|Hnb].
  - destruct (proj1 Hb Hbusy) as [j Hj]. rewrite Hj. apply wp_bind, wp_bind, wp_ret. cbn [then_]. apply wp_bind.
    eapply wp_mono; [by apply wp_requeue_job|]. intros r d1 ws1 (-> & -> & Hd1 & Hst & Hbw). cbn [then_].
    unfold WorkerMgr.delete_worker. rewrite Hj. apply wp_bind, wp_ret. cbn [then_]. apply wp_store_execute; [done|]. cbn [then_].
    eapply wp_mono; [apply IH; [done|done|exact Hd1|by rewrite <- (requeue_ids [j]), <- Hst in Hnd]|].
    intros r d2 ws2 (-> & -> & Hst2 & Hbw2). split_and!; [done|done| |].
    + rewrite Hst2. unfold held_jobs. rewrite omap_cons. cbn. rewrite Hj, <- requeue_cons, <- Hst. done.
    + rewrite Hbw2. rewrite <- (busy_without_cons (k, wk) _ _ j Hj). cbn. by rewrite Hbw.
  - assert (Worker.job_id wk = None) as Hnone by (destruct (Worker.job_id wk); [|done]; destruct Hnb; by apply Hb).
    apply wp_bind, wp_ret. cbn [then_]. eapply wp_mono; [by apply IH|]. intros r d2 ws2 (-> & -> & Hst2 & Hbw2).
    split_and!; [done|done| |].
    + rewrite Hst2. unfold held_jobs. rewrite omap_cons. cbn. by rewrite Hnone.
    + rewrite Hbw2. by rewrite busy_without_ready.
Qed.

(** While no exchange fails, the expiry of workers removes exactly those whose heartbeats are
    overdue, though it looks at the front of the table only; every job such a worker had
    is pending again, or canceled if it was to be canceled, and all other jobs keep their
    state; and the rows of the lost workers are deleted. *)
Theorem expiry_is_exact now now' d ws :
  table_ok now ws -> jobs_ok d -> NoDup (job_states d).*1 ->
  wp false (WorkerMgr.expire_workers now') d ws (expiry_done now' ws d).
Proof.
  intros [Hw _ Hs] Hd Hnd. apply wp_bind, wp_get_workers. cbn [then_]. apply expire_loop_exact; [|done|done|done].
  eapply Forall_impl; [exact Hw|]. by intros e (_ & ? & _).
Qed.

(** ** Workers that are forgotten *)

(** A busy heartbeat of a worker the manager takes for ready, the one it sends when it still
    works on a job the manager gave up, makes the manager forget the worker: it is no longer in
    the table although its heartbeats arrive. *)
Theorem busy_heartbeat_forgets_worker now k wk d ws :
  (k, wk) ∈ ws -> NoDup ws.*1 -> Worker.state wk = WorkerState.Ready ->
  wp true (WorkerMgr.process_heartbeat now (mkHeartbeat k WorkerState.Busy)) d ws (fun r d' ws' =>
    r = Value tt /\ d' = d /\ k ∉ ws'.*1).
Proof.
  intros Hin Hnd Hst. unfold WorkerMgr.process_heartbeat. apply wp_bind, wp_remove_worker. cbn [then_ hb_endpoint].
  pose proof (find_key k ws) as Hf. destruct (find_worker _ ws) as [[k' wk']|].
  2: { destruct Hf. apply list_elem_of_fmap. by exists (k, wk). }
  destruct Hf as [Hin' Hk]. cbn in Hk. subst k'. assert (wk' = wk) as ->.
  { apply list_elem_of_lookup in Hin as [i Hi]. apply list_elem_of_lookup in Hin' as [j Hj].
    assert (i = j) as ->; [|congruence].
    eapply NoDup_lookup; [exact Hnd|rewrite list_lookup_fmap, Hi; done|rewrite list_lookup_fmap, Hj; done]. }
  cbn [fmap option_fmap option_map snd]. unfold WorkerMgr.heartbeat_of_worker. cbn [hb_state]. rewrite Hst.
  apply wp_bind, wp_ret. cbn [then_]. apply wp_ret. split_and!; [done|done|apply not_in_without].
Qed.

(** ** An example *)
Module ExpiryExample.
Import JobGroupsExample SchedulerExample WorkerExample.

Lemma working_ok : mgr_ok 1000 (length (workers working)) (db working) (workers working).
Proof.
  apply (managed_ok 60 no_integrations no_integrations no_decrypt). apply (managed_round _ _ _ _ 0); [exact start_managed|lia| |done].
  refine (bool_decide_eq_true_1 _ _). vm_compute. reflexivity.
Qed.

(** The worker is silent for a minute: its job is pending again. *)
Lemma expiry_is_exact_witness :
  (job_states (db working)).*2 = [JobState.Dispatched] /\
  (job_states (db (WorkerMgr.expire_workers 60000 (with_workers (workers working) (world_of (db working)))).1)).*2 = [JobState.Pending] /\
  wp false (WorkerMgr.expire_workers 60000) (db working) (workers working) (fun r _ ws' => r = Value tt /\ ws' = []).
Proof.
  split; [vm_compute; reflexivity|]. split; [vm_compute; reflexivity|]. eapply wp_mono.
  - apply (expiry_is_exact 1000 60000); [apply working_ok|apply working_ok|].
    refine (bool_decide_eq_true_1 (NoDup _) _). vm_compute. reflexivity.
  - cbn beta. intros r d' ws' (Hr & Hws & _). split; [exact Hr|]. rewrite Hws. vm_compute. reflexivity.
Defined.

(** A worker that reports to be busy after the manager took it for ready. *)
Lemma busy_heartbeat_forgets_worker_witness :
  wp true (WorkerMgr.process_heartbeat 2000 (mkHeartbeat "worker-1" WorkerState.Busy)) with_job [("worker-1", Worker.new 1000 "worker-1")]
    (fun r d' ws' => r = Value tt /\ d' = with_job /\ "worker-1" ∉ ws'.*1).
Proof. apply (busy_heartbeat_forgets_worker 2000 "worker-1" (Worker.new 1000 "worker-1")); [left|apply NoDup_singleton|reflexivity]. Defined.
End ExpiryExample.
