(* ===== verification/JobFlaws.v ===== *)
(** * The job server: where it does not do what it means to

    A status report that is lost between two threads, jobs without a group that are never
    synced, concurrent requests that make a later one panic, skipping that depends on the order
    in which the database finds rows, a request that panics on an empty log, and a failed delete
    after which two workers have one job. *)

From S2P Require Import Prelude Regex ServiceGroup Ident Text Target Petgraph PackageGraph PackageGraphProofs.
From S2P Require Import Sharding JobTypes JobDb JobStore Scheduler WorkerManager JobHandlers JobLogic JobGroups SchedulerProofs SkipProofs WorkerProofs.
From Stdlib Require Import Ascii.
Local Open Scope string_scope.
Local Open Scope list_scope.

(** ** Lost status reports *)

(** The row of a job. *)
Definition row_of (id : Z) (d : Db.t) (r : JobRow.t) : Prop := r ∈ Db.jobs d /\ JobRow.id r = id.

Lemma row_of_update_job id s st fi i c m d r :
  row_of id (Db.update_job_v3 id s st fi i c m d) r ->
  exists r0, row_of id d r0 /\ JobRow.sync_count r = (JobRow.sync_count r0 + 1)%Z /\ JobRow.job_state r = s.
Proof.
  intros [(r0 & -> & Hr)%list_elem_of_fmap Hid]. exists r0. destruct (Z.eqb_spec (JobRow.id r0) id) as [|]; [|done]. by repeat split.
Qed.

Lemma row_of_sync id d r :
  row_of id (Db.set_jobs_sync_v2 id d) r ->
  exists r0, row_of id d r0 /\ JobRow.sync_count r = (JobRow.sync_count r0 - 1)%Z /\ JobRow.job_state r = JobRow.job_state r0 /\
    JobRow.scheduler_sync r = true.
Proof.
  intros [(r0 & -> & Hr)%list_elem_of_fmap Hid]. exists r0. destruct (Z.eqb_spec (JobRow.id r0) id) as [|]; [|done]. by repeat split.
Qed.

(** When a job has been synced before, so that its count is negative, and its status is
    reported twice, the second time after the scheduler read the first report and before it
    marked the job as synced, then no pass finds the second report: the state of the job is
    the second one, and the job counts as synced. *)
Theorem status_report_lost id d s1 st1 fi1 i1 c1 m1 s2 st2 fi2 i2 c2 m2 r o :
  (forall r, row_of id d r -> (JobRow.sync_count r < 0)%Z) ->
  row_of id (Db.set_jobs_sync_v2 id (Db.update_job_v3 id s2 st2 fi2 i2 c2 m2 (Db.update_job_v3 id s1 st1 fi1 i1 c1 m1 d))) r ->
  JobRow.job_state r = s2 /\
  r ∉ Db.sync_jobs_v2 o (Db.set_jobs_sync_v2 id (Db.update_job_v3 id s2 st2 fi2 i2 c2 m2 (Db.update_job_v3 id s1 st1 fi1 i1 c1 m1 d))).
Proof.
  intros Hneg (r1 & (r2 & (r3 & H3 & Hc2 & _)%row_of_update_job & Hc1 & Hs2)%row_of_update_job & Hc & Hs & Hsync)%row_of_sync.
  specialize (Hneg r3 H3). split; [congruence|]. intros [_ Hu]%elem_of_select. unfold Db.unsynced in Hu.
  rewrite Hsync, orb_false_l, bool_decide_eq_true in Hu. lia.
Qed.

(** ** Jobs without a group *)

(** A job whose owner is no group stays unsynced for ever: the scheduler means to mark it as
    synced, but marks the job whose identifier is that of the owner.  So each pass finds it
    again. *)
Theorem job_without_group_stays_unsynced job d ws :
  Db.get_group_v1 (Job.owner_id job) d = [] -> Job.owner_id job <> Job.id job ->
  wp true (ScheduleMgr.sync_job job) d ws (fun _ d' _ =>
    forall o r, row_of (Job.id job) d r -> Db.unsynced r = true -> r ∈ Db.sync_jobs_v2 o d').
Proof.
  intros Hg Hne. unfold ScheduleMgr.sync_job, ScheduleMgr.get_group.
  assert (Hsame : forall o r, row_of (Job.id job) d r -> Db.unsynced r = true -> r ∈ Db.sync_jobs_v2 o d).
  { intros o r [Hr _] Hu. by apply elem_of_select. }
  assert (Hsync : wp true (DataStore.set_job_sync (Job.owner_id job)) d ws (fun _ d' _ =>
    forall o r, row_of (Job.id job) d r -> Db.unsynced r = true -> r ∈ Db.sync_jobs_v2 o d')).
  { apply wp_store_execute; [done|]. intros o r [Hr Hid] Hu. apply elem_of_select. split; [|done]. apply list_elem_of_fmap.
    exists r. split; [|done]. destruct (Z.eqb_spec (JobRow.id r) (Job.owner_id job)); [congruence|done]. }
  apply wp_bind, wp_try, wp_bind, wp_get_job_group; cbn [then_].
  - intros _ e. destruct e; first [exact Hsync|apply wp_throw; exact Hsame].
  - done.
  - intros _. by apply wp_throw.
  - intros o row Hrow Hid. exfalso. assert (row ∈ Db.get_group_v1 (Job.owner_id job) d) as Hin by (by apply list_elem_of_filter).
    rewrite Hg in Hin. by apply not_elem_of_nil in Hin.
Qed.

(** ** Rejected jobs *)

(** Taking over that a job was rejected makes its project ready to be started again, but leaves the
    state of the group: a group that is dispatching is not made pending, so that nothing submits
    the project again. *)
Theorem rejected_job_not_resubmitted job d ws :
  Job.state job = JobState.Rejected -> wp true (ScheduleMgr.sync_job job) d ws (fun _ d' _ => Db.groups d' = Db.groups d).
Proof.
  intros Hs. assert (keeps same_groups (ScheduleMgr.sync_job job)) as H; [|apply H].
  unfold ScheduleMgr.sync_job. rewrite Hs. cbn [ScheduleMgr.ends_project]. keeps_tac.
Qed.

(** ** Concurrent requests for a group *)

(** With two queued groups of a project, which two requests at the same time leave behind
    ([JobFlawsExample.two_requests]), every further request for the project panics. *)
Theorem second_queued_group_panics b name d ws :
  (1 < length (filter (fun r => String.eqb (GroupRow.project_name r) name && Db.in_group_state JobGroupState.GroupQueued r = true) (Db.groups d)))%nat ->
  wp b (DataStore.get_queued_job_group name) d ws (fun r d' _ => d' = d /\ (r = Panicked "assertion failed: rows.len() == 1" \/ b = true /\ exists e, r = Error e)).
Proof.
  intros Hlen. apply wp_store_query; [by eauto|]. intros o.
  assert (Hl : (1 < length (Db.get_queued_group_v1 o name d))%nat) by (unfold Db.get_queued_group_v1, Db.select; by rewrite length_permute).
  destruct (Db.get_queued_group_v1 o name d) as [|g1 [|g2 l]]; cbn in Hl; [lia..|].
  apply wp_bind, wp_assert; cbn; [done|]. intros _. split; [done|by left].
Qed.

(** ** Empty logs *)

(** A request for the archived log of a job panics when the log is empty and the request
    starts behind the first line: the last index of no lines is the greatest integer. *)
Theorem empty_log_panics retrieve log_file id start d ws :
  jobs_ok d -> (0 < start < 2 ^ 64)%Z -> Db.get_job_v1 id d <> [] ->
  (forall r, row_of id d r -> JobRow.archived r = true) -> retrieve id = Handlers.Archived [] ->
  wp false (Handlers.job_log_get retrieve log_file id start) d ws (fun r d' _ =>
    d' = d /\ r = Panicked "slice index starts past the end").
Proof.
  intros Hd Hs Hne Ha Hr. unfold Handlers.job_log_get. apply wp_bind, wp_try, wp_get_job; cbn [then_]; [done|done|done|].
  intros r j Hrow Hid (Hjid & _ & Har)%row_to_job_fields. rewrite Har, Ha by done. rewrite Hjid, Hid, Hr. cbn [length].
  apply wp_bind. rewrite decide_False by (change (u64_sub (Z.of_nat 0) 1) with (2 ^ 64 - 1)%Z; lia).
  unfold Handlers.slice_from. rewrite decide_False by (cbn; lia). by apply wp_panic.
Qed.

(** ** Runs *)
Module JobFlawsExample.
Import JobGroupsExample SchedulerExample WorkerExample.
#[local] Existing Instance reference_graph.
#[local] Existing Instance reference_engine.

(** The job of [core/zlib], synced once. *)
Definition synced : Db.t := db (ScheduleMgr.process_status (world_of with_job)).1.

Definition the_job : Z := match Db.jobs synced with r :: _ => JobRow.id r | [] => 0 end.

Definition report (s : JobState.t) (d : Db.t) : Db.t := Db.update_job_v3 the_job s None None (Some "core/zlib/1.2.8/20170101000000") None None d.

Definition states (d : Db.t) : list JobState.t * list JobGroupProjectState.t * list JobRow.t :=
  (JobRow.job_state <$> Db.jobs d, ProjectRow.project_state <$> Db.group_projects d, Db.sync_jobs_v2 id_order d).


(** The worker reports success while the scheduler takes over that it is processing. *)
Definition interleaved : Db.t :=
  db (ScheduleMgr.process_status
        (World (report JobState.Processing synced)
           (replicate 8 good_turn ++ [Turn [report JobState.Complete] false id_order]) [] [] [])).1.

(** A second request arrives after the first found no queued group. *)
Definition two_requests : Db.t :=
  db (run_action (CreateGroup tg spec)
        (World (empty_db 1500000000000) [good_turn; good_turn; Turn [fun d => after d (CreateGroup tg spec)] false id_order] [] [] [])).1.

(** The success is lost: the job is complete, its project in progress, and nothing is left to sync. *)
Lemma interleaved_states :
  states interleaved = ([JobState.Complete],
    [JobGroupProjectState.InProgress; JobGroupProjectState.NotStarted; JobGroupProjectState.NotStarted], []) /\
  db (ScheduleMgr.process_status (world_of interleaved)).1 = interleaved.
Proof. split; vm_compute; reflexivity. Qed.

Definition lost : Db.t := Db.set_jobs_sync_v2 the_job (report JobState.Complete (report JobState.Processing synced)).

Definition first_row (d : Db.t) : JobRow.t :=
  default (JobRow.mk 0 0 JobState.Pending 0 "" 0 "" "" [] None None false 0 None None None false None 0 None) (head (Db.jobs d)).

Lemma status_report_lost_witness :
  JobRow.job_state (first_row lost) = JobState.Complete /\ first_row lost ∉ Db.sync_jobs_v2 id_order lost.
Proof.
  apply (status_report_lost the_job synced JobState.Processing).
  - intros r [Hr _]. revert r Hr. apply Forall_forall.
    refine (bool_decide_eq_true_1 (Forall (fun r => (JobRow.sync_count r < 0)%Z) (Db.jobs synced)) _). vm_compute. reflexivity.
  - assert (Db.jobs lost = [first_row lost]) as E by (vm_compute; reflexivity).
    split; [change (first_row lost ∈ Db.jobs lost); rewrite E; left|vm_compute; reflexivity].
Defined.

(** A job that was created by a request, not for a group. *)
Definition lone : Db.t := after (empty_db 1500000000000) (CreateJob (JobSpec.mk 7 (project_named "core/zlib") None)).

Definition lone_job : Job.t :=
  match row_to_job (first_row lone) with
  | Return (Ok j) => j
  | _ => JobSpec.into (JobSpec.mk 0 (project_named "core/zlib") None)
  end.

Lemma job_without_group_stays_unsynced_witness :
  row_of (Job.id lone_job) lone (first_row lone) /\
  wp true (ScheduleMgr.sync_job lone_job) lone [] (fun _ d' _ => first_row lone ∈ Db.sync_jobs_v2 id_order d').
Proof.
  assert (row_of (Job.id lone_job) lone (first_row lone)) as Hrow.
  { assert (Db.jobs lone = [first_row lone]) as E by (vm_compute; reflexivity). split; [rewrite E; left|vm_compute; reflexivity]. }
  split; [exact Hrow|]. eapply wp_mono.
  - apply (job_without_group_stays_unsynced lone_job lone []); [vm_compute; reflexivity|vm_compute; discriminate].
  - cbn beta. intros r d' ws' H. apply H; [exact Hrow|vm_compute; reflexivity].
Defined.

Lemma second_queued_group_panics_witness :
  (GroupRow.group_state <$> Db.groups two_requests) = [JobGroupState.GroupQueued; JobGroupState.GroupQueued] /\
  (run_action (CreateGroup tg spec) (world_of two_requests)).2 = Panicked "assertion failed: rows.len() == 1" /\
  wp false (DataStore.get_queued_job_group "core/zlib") two_requests [] (fun r d' _ => d' = two_requests /\
    (r = Panicked "assertion failed: rows.len() == 1" \/ false = true /\ exists e, r = Error e)).
Proof.
  split; [vm_compute; reflexivity|]. split; [vm_compute; reflexivity|]. apply second_queued_group_panics. vm_compute. lia.
Defined.

Definition archived : Db.t := Db.mark_as_archived_v1 (Job.id lone_job) lone.

Lemma empty_log_panics_witness :
  wp false (Handlers.job_log_get (fun _ => Handlers.Archived []) (fun _ => None) (Job.id lone_job) 1) archived []
    (fun r d' _ => d' = archived /\ r = Panicked "slice index starts past the end").
Proof.
  apply (empty_log_panics (fun _ => Handlers.Archived [])); [apply jobs_ok_by; vm_compute; reflexivity|lia|vm_compute; discriminate| |reflexivity].
  intros r [Hr _]. revert r Hr. apply Forall_forall.
  refine (bool_decide_eq_true_1 (Forall (fun r => JobRow.archived r = true) (Db.jobs archived)) _). vm_compute. reflexivity.
Defined.

(** Three packages in a row: [core/c] depends on [core/b] and that on [core/a].  The database
    finds their projects in the reverse order. *)
Definition chain : list JobGraphPackage :=
  [mkJobGraphPackage "core/a/1/1" "x86_64-linux" []; mkJobGraphPackage "core/b/1/1" "x86_64-linux" ["core/a"];
   mkJobGraphPackage "core/c/1/1" "x86_64-linux" ["core/b"]].

Definition chain_group (l : list JobGroupProjectState.t) : JobGroup.t :=
  JobGroup.mk 1 JobGroupState.GroupDispatching
    (reverse (zip_with (fun n s => JobGroupProject.mk ("core/" +:+ n) ("core/" +:+ n +:+ "/1/1") s 0) ["a"; "b"; "c"] l)) 0 "core/a".

Definition chain_db : Db.t := Db.set_graph_packages chain (empty_db 0).

(** When [core/a] fails, [core/b] is skipped and [core/c] is not; then nothing of the group can be
    dispatched, and it stays dispatching. *)
Lemma reverse_order_leaves_group_stuck :
  (ScheduleMgr.skip_projects (chain_group [JobGroupProjectState.Failure; JobGroupProjectState.NotStarted; JobGroupProjectState.NotStarted]) "core/a"
     (world_of chain_db)).2 = Value {["core/a"; "core/b"]} /\
  (ScheduleMgr.dispatchable_projects (chain_group [JobGroupProjectState.Failure; JobGroupProjectState.Skipped; JobGroupProjectState.NotStarted])
     (world_of chain_db)).2 = Value [] /\
  ScheduleMgr.new_group_state (JobGroup.projects (chain_group [JobGroupProjectState.Failure; JobGroupProjectState.Skipped; JobGroupProjectState.NotStarted])) 0
    = JobGroupState.GroupDispatching.
Proof. split_and!; vm_compute; reflexivity. Qed.

(** The exchange number [n] fails. *)
Definition failing_at (n : nat) : list turn := replicate n good_turn ++ [Turn [] true id_order].
Definition with_turns (l : list turn) (w : world) : world := World (db w) l (routes w) (sent w) (workers w).

(** The worker of the job is silent: the job is given back, and deleting the row of the worker
    fails; then another worker gets the job, and the server is started again. *)
Definition undeleted : world := step 100000 None false (with_turns (failing_at 4) working).
Definition reassigned : world := step 101000 (Some (mkHeartbeat "worker-2" WorkerState.Ready)) true undeleted.
Definition restarted : world := (WorkerMgr.startup 60 102000 (world_of (db reassigned))).1.

(** After the restart both workers are taken to have the job. *)
Theorem failed_delete_shares_job :
  (job_states (db undeleted)).*2 = [JobState.Pending] /\
  (bw_ident <$> Db.busy_workers (db reassigned)) = ["worker-1"; "worker-2"] /\
  (workers restarted).*1 = ["worker-1"; "worker-2"] /\ ~ NoDup (held_jobs (workers restarted)).
Proof.
  split_and!; [vm_compute; reflexivity..|]. intros H. apply (bool_decide_eq_true_2 (NoDup _)) in H.
  vm_compute in H. discriminate H.
Qed.
End JobFlawsExample.
