(* ===== verification/Cfg.v ===== *)
(** * The configuration of a service

    Models [components/sup/src/manager/service/config.rs] without the templates: the four
    layers of the configuration of a service, how they are loaded, updated from the census and
    merged, and what a package exports of them.

    TOML values are those of the toml crate; its tables are [BTreeMap]s, here lists of entries
    in the order of their keys.  The parsers of TOML and JSON, the disk and the process
    environment are parameters. *)

From Stdlib Require Import Ascii.
From S2P Require Import Prelude Regex Text ServiceGroup Ident Member Messages Rumor Kinds Election Server Census.
Local Open Scope string_scope.
Local Open Scope list_scope.

(** ** TOML values *)
Module Toml.
#[warnings="-register-all"]
Inductive Value :=
| String_ (s : string)
| Integer (i : Z)
| Float (bits : Z)
| Boolean (b : bool)
| Datetime (s : string)
| Array (l : list Value)
| Table (l : list (string * Value)).

Definition table : Type := list (string * Value).

(** [BTreeMap::get] and [BTreeMap::insert]. *)
Fixpoint get (k : string) (t : table) : option Value :=
  match t with
  | [] => None
  | (k', v) :: t => if String.eqb k k' then Some v else get k t
  end.

Fixpoint insert (k : string) (v : Value) (t : table) : table :=
  match t with
  | [] => [(k, v)]
  | (k', v') :: t' =>
      match String.compare k k' with
      | Lt => (k, v) :: t
      | Eq => (k, v) :: t'
      | Gt => (k', v') :: insert k v t'
      end
  end.

Definition as_table (v : Value) : option table := match v with Table t => Some t | _ => None end.
Definition is_table (v : Value) : bool := match v with Table _ => true | _ => false end.
Definition is_array (v : Value) : bool := match v with Array _ => true | _ => false end.

(** [Value::get] with a key: only tables have entries. *)
Definition value_get (k : string) (v : Value) : option Value := match v with Table t => get k t | _ => None end.
End Toml.

Inductive cfg_error :=
| TomlMergeError
| TomlParser
| BadEnvConfig (var_name : string).

(** ** Merging *)
Definition TOML_MAX_MERGE_DEPTH : nat := 30.

Definition is_toml_value_a_table (key : string) (table : Toml.table) : bool :=
  match Toml.get key table with
  | None => false
  | Some value => match Toml.as_table value with Some _ => true | None => false end
  end.

(** The loop over the entries of [other]; [recurse] merges the tables one level deeper.  What was
    merged before an error stays merged. *)
Fixpoint merge_entries (recurse : Toml.table -> Toml.table -> outcome (Toml.table * result cfg_error unit))
    (other entries me : Toml.table) : outcome (Toml.table * result cfg_error unit) :=
  match entries with
  | [] => Return (me, Ok tt)
  | (key, other_value) :: entries =>
      if is_toml_value_a_table key me && is_toml_value_a_table key other then
        v ← expect "Key should exist in Table" (Toml.get key me);
        match v with
        | Toml.Table me_at_key =>
            other_at_key ← expect "TOML Value should be a Table" (Toml.as_table other_value);
            r ← recurse me_at_key other_at_key;
            let me := Toml.insert key (Toml.Table r.1) me in
            match r.2 with
            | Ok _ => merge_entries recurse other entries me
            | Err e => Return (me, Err e)
            end
        | _ => Return (me, Err TomlMergeError)
        end
      else merge_entries recurse other entries (Toml.insert key other_value me)
  end.

(** [levels] is the number of levels left: [TOML_MAX_MERGE_DEPTH + 1 - depth]. *)
Fixpoint toml_merge_recurse (levels : nat) (me other : Toml.table) : outcome (Toml.table * result cfg_error unit) :=
  match levels with
  | 0%nat => Return (me, Err TomlMergeError)
  | S levels => merge_entries (toml_merge_recurse levels) other other me
  end.

Definition toml_merge (me other : Toml.table) : outcome (Toml.table * result cfg_error unit) :=
  toml_merge_recurse (S TOML_MAX_MERGE_DEPTH) me other.

(** ** [Cfg] *)

(** The trait [PackageConfigPaths], by what it answers. *)
Record PackageConfigPaths := mkPackageConfigPaths {
  pc_name : string;
  default_config_dir : string;
  recommended_user_config_dir : string;
  deprecated_user_config_dir : string;
}.

(** What is at a path of the disk. *)
Inductive file_at :=
| Missing
| CannotOpen
| CannotRead
| Contents (text : string).

Definition file_exists (f : file_at) : bool := match f with Missing => false | _ => true end.

Definition to_ascii_upper (c : ascii) : ascii :=
  let n := nat_of_ascii c in if (Nat.leb 97 n && Nat.leb n 122)%bool then ascii_of_nat (n - 32) else c.
Definition to_ascii_uppercase (s : string) : string := of_chars (to_ascii_upper <$> to_chars s).
Definition replace_char (a b : ascii) (s : string) : string :=
  of_chars ((fun c => if Ascii.eqb c a then b else c) <$> to_chars s).

Definition ENV_VAR_PREFIX : string := "HAB".

Module Cfg.
Record t := mk {
  default : option Toml.Value;
  user : option Toml.Value;
  gossip : option Toml.Value;
  environment : option Toml.Value;
  gossip_incarnation : Z;
}.

Section with_libraries.
  Context (disk : string -> file_at) (env_var : string -> option string).
  Context (toml_parse json_parse : string -> option Toml.table).

Definition load_toml_file (dir file : string) : result cfg_error (option Toml.Value) :=
  match disk (dir +:+ "/" +:+ file) with
  | Missing | CannotOpen => Ok None
  | CannotRead => Ok None
  | Contents config =>
      match toml_parse config with
      | Some toml => Ok (Some (Toml.Table toml))
      | None => Err TomlParser
      end
  end.

Definition load_default (config_from : string) : result cfg_error (option Toml.Value) := load_toml_file config_from "default.toml".

Definition determine_user_config_path (package : PackageConfigPaths) : string :=
  let recommended_dir := recommended_user_config_dir package in
  if file_exists (disk (recommended_dir +:+ "/" +:+ "user.toml")) then recommended_dir
  else
    let deprecated_dir := deprecated_user_config_dir package in
    if file_exists (disk (deprecated_dir +:+ "/" +:+ "user.toml")) then deprecated_dir
    else recommended_dir.

Definition load_user (path : string) : result cfg_error (option Toml.Value) := load_toml_file path "user.toml".

Definition load_environment (package : PackageConfigPaths) : result cfg_error (option Toml.Value) :=
  let var_name := replace_char "-" "_" (to_ascii_uppercase (ENV_VAR_PREFIX +:+ "_" +:+ pc_name package)) in
  match env_var var_name with
  | Some config =>
      match toml_parse config with
      | Some toml => Ok (Some (Toml.Table toml))
      | None =>
          match json_parse config with
          | Some json => Ok (Some (Toml.Table json))
          | None => Err (BadEnvConfig var_name)
          end
      end
  | None => Ok None
  end.

Definition new (package : PackageConfigPaths) (config_from : option string) : result cfg_error t :=
  let pkg_root := from_option id (default_config_dir package) config_from in
  default ← load_default pkg_root;
  let user_config_path := determine_user_config_path package in
  user ← load_user user_config_path;
  environment ← load_environment package;
  Ok (mk default user None environment 0).
End with_libraries.

(** Returns whether the configuration was updated. *)
Definition update {T} (census_group : CensusGroup.t T Toml.Value) (self : t) : t * bool :=
  match CensusGroup.service_config census_group with
  | Some config =>
      if decide (ServiceConfigEntry.incarnation config <= gossip_incarnation self)%Z then (self, false)
      else (mk (default self) (user self) (Some (ServiceConfigEntry.value config)) (environment self)
              (ServiceConfigEntry.incarnation config), true)
  | None => (self, false)
  end.

(** A layer that is no table, or absent, is not merged; an error is printed. *)
Definition merge_layer (layer : option Toml.Value) (table : Toml.table) : outcome Toml.table :=
  match layer with
  | Some (Toml.Table cfg) => fst <$> toml_merge table cfg
  | _ => Return table
  end.

(** The table that [Serialize] emits. *)
Definition to_table (self : t) : outcome Toml.table :=
  table ← merge_layer (default self) [];
  table ← merge_layer (environment self) table;
  table ← merge_layer (user self) table;
  merge_layer (gossip self) table.

(** The order in which the entries are emitted. *)
Definition serialize (self : t) : outcome Toml.table :=
  table ← to_table self;
  Return (filter (fun e => Toml.is_array e.2 = false /\ Toml.is_table e.2 = false) table ++
          filter (fun e => Toml.is_array e.2 = true) table ++
          filter (fun e => Toml.is_table e.2 = true) table).

(** The loop over the fields of the path of an export. *)
Fixpoint export_loop (fields : list string) (curr : Toml.Value) (found : bool) : Toml.Value * bool :=
  match fields with
  | [] => (curr, found)
  | field :: fields =>
      match Toml.value_get field curr with
      | Some val => export_loop fields val true
      | None => export_loop fields curr false
      end
  end.

(** [Value::try_from] collects the emitted entries in a table again. *)
Definition to_exported (exports : list (string * string)) (self : t) : outcome Toml.table :=
  entries ← serialize self;
  let cfg := Toml.Table (foldl (fun t e => Toml.insert e.1 e.2 t) [] entries) in
  Return (foldl (fun map (e : string * string) =>
    let '(curr, found) := export_loop (Ident.split "." e.2) cfg false in
    if found then Toml.insert e.1 curr map else map) [] exports).
End Cfg.

(** * The configuration of a service: properties

    Merging equals a reference definition without a depth limit, up to the limit; what a path
    of the merged configuration holds is decided by the highest layer that says something about
    it; and what is exported.  The definitions are in [Cfg.v]. *)

(** ** Tables *)

Lemma get_insert_eq k v t : Toml.get k (Toml.insert k v t) = Some v.
Proof.
  induction t as [|[k' v'] t IH]; cbn; [by rewrite String.eqb_refl|].
  destruct (String.compare k k') eqn:E; cbn; [by rewrite String.eqb_refl..|].
  destruct (String.eqb_spec k k') as [->|]; [|done]. pose proof (String.compare_antisym k' k') as H. by rewrite E in H.
Qed.

Lemma get_insert_ne k k' v t : k <> k' -> Toml.get k (Toml.insert k' v t) = Toml.get k t.
Proof.
  intros Hne. induction t as [|[k2 v2] t IH]; cbn; [by destruct (String.eqb_spec k k')|].
  destruct (String.compare k' k2) eqn:E; cbn; destruct (String.eqb_spec k k'), (String.eqb_spec k k2); try done.
  apply String.compare_eq_iff in E. congruence.
Qed.

Lemma get_elem k v t : NoDup t.*1 -> (k, v) ∈ t -> Toml.get k t = Some v.
Proof.
  induction t as [|[k' v'] t IH]; [by intros _ ?%not_elem_of_nil|]. intros [Hn Hnd]%NoDup_cons [[= -> ->]|Hin]%elem_of_cons; cbn.
  - by rewrite String.eqb_refl.
  - destruct (String.eqb_spec k k') as [->|]; [|by apply IH]. destruct Hn. by apply (list_elem_of_fmap_2 fst) in Hin.
Qed.

Lemma get_in k v t : Toml.get k t = Some v -> (k, v) ∈ t.
Proof.
  induction t as [|[k' v'] t IH]; cbn; [done|]. destruct (String.eqb_spec k k') as [->|]; [intros [= ->]; left|right; auto].
Qed.

Lemma get_none k t : k ∉ t.*1 -> Toml.get k t = None.
Proof.
  intros Hk. destruct (Toml.get k t) eqn:E; [|done]. destruct Hk. apply get_in in E. by apply (list_elem_of_fmap_2 fst) in E.
Qed.

(** The keys of a [BTreeMap] are unique, in all the tables it contains. *)
Inductive wf_table : Toml.table -> Prop :=
| wf_intro t : NoDup t.*1 -> (forall k t', Toml.get k t = Some (Toml.Table t') -> wf_table t') -> wf_table t.

Lemma wf_keys t : wf_table t -> NoDup t.*1.
Proof. by destruct 1. Qed.
Lemma wf_sub t k t' : wf_table t -> Toml.get k t = Some (Toml.Table t') -> wf_table t'.
Proof. destruct 1; eauto. Qed.

(** ** Reference: merging without a limit *)
Fixpoint join_value (b : Toml.Value) (a : option Toml.Value) : Toml.Value :=
  match b with
  | Toml.Table tb =>
      match a with
      | Some (Toml.Table ta) =>
          Toml.Table ((fix go (entries acc : Toml.table) : Toml.table :=
                         match entries with
                         | [] => acc
                         | (k, v) :: entries => go entries (Toml.insert k (join_value v (Toml.get k acc)) acc)
                         end) tb ta)
      | _ => b
      end
  | _ => b
  end.

Definition join (ta tb : Toml.table) : Toml.table :=
  foldl (fun acc (e : string * Toml.Value) => Toml.insert e.1 (join_value e.2 (Toml.get e.1 acc)) acc) ta tb.

Lemma join_tables ta tb : join_value (Toml.Table tb) (Some (Toml.Table ta)) = Toml.Table (join ta tb).
Proof. cbn. f_equal. unfold join. revert ta. induction tb as [|[k v] tb IH]; intros ta; [done|]. apply IH. Qed.

Lemma join_other v a : (forall ta tb, a = Some (Toml.Table ta) -> v <> Toml.Table tb) -> join_value v a = v.
Proof. intros H. destruct v; try done. cbn. destruct a as [[]|]; try done. by destruct (H l0 l). Qed.

Lemma get_join k ta tb :
  NoDup tb.*1 ->
  Toml.get k (join ta tb) = match Toml.get k tb with Some v => Some (join_value v (Toml.get k ta)) | None => Toml.get k ta end.
Proof.
  unfold join. revert ta. induction tb as [|[k' v] tb IH]; intros ta; [done|]. intros [Hn Hnd]%NoDup_cons. cbn. rewrite IH by done.
  destruct (String.eqb_spec k k') as [->|Hne].
  - rewrite get_none by done. by rewrite get_insert_eq.
  - by rewrite get_insert_ne.
Qed.

(** [good] holds of the tables below that two tables have in common. *)
Definition all_common (good : Toml.table -> Toml.table -> bool) (me other : Toml.table) : bool :=
  forallb (fun e : string * Toml.Value =>
    match e.2, Toml.get e.1 me with
    | Toml.Table tb, Some (Toml.Table ta) => good ta tb
    | _, _ => true
    end) other.

(** The tables two tables have in common are nested at most [levels] deep. *)
Fixpoint fits (levels : nat) (me other : Toml.table) : bool :=
  match levels with 0%nat => false | S levels => all_common (fits levels) me other end.

(** ** Merging *)

Lemma is_table_get k t : is_toml_value_a_table k t = match Toml.get k t with Some (Toml.Table _) => true | _ => false end.
Proof. unfold is_toml_value_a_table. by destruct (Toml.get k t) as [[]|]. Qed.

Lemma all_common_insert good k w me entries : k ∉ entries.*1 -> all_common good (Toml.insert k w me) entries = all_common good me entries.
Proof.
  induction entries as [|[k' v] entries IH]; [done|]. intros [Hne Hn]%not_elem_of_cons. unfold all_common. cbn [forallb fst snd].
  rewrite get_insert_ne by done. f_equal. by apply IH.
Qed.

(** How a merge ends, and what it leaves when it succeeds. *)
Definition merges (good : bool) (t : Toml.table) (r : outcome (Toml.table * result cfg_error unit)) : Prop :=
  exists t', r = Return (t', if good then Ok tt else Err TomlMergeError) /\ (good = true -> t' = t).

Lemma merge_entries_spec recurse good other entries me :
  NoDup entries.*1 -> (forall k v, (k, v) ∈ entries -> Toml.get k other = Some v) ->
  (forall k ta tb, (k, Toml.Table tb) ∈ entries -> Toml.get k me = Some (Toml.Table ta) -> merges (good ta tb) (join ta tb) (recurse ta tb)) ->
  merges (all_common good me entries) (join me entries) (merge_entries recurse other entries me).
Proof.
  revert me. induction entries as [|[k v] entries IH]; intros me Hnd Hin Hrec; [by exists me|].
  apply NoDup_cons in Hnd as [Hn Hnd]. unfold all_common. cbn [merge_entries forallb fst snd].
  assert (Hgo : forall w, w = join_value v (Toml.get k me) ->
    merges (all_common good me entries) (join me ((k, v) :: entries)) (merge_entries recurse other entries (Toml.insert k w me))).
  { intros w ->. rewrite <- (all_common_insert good k (join_value v (Toml.get k me))) by done. apply IH; [done|intros; apply Hin; by right|].
    intros k' ta tb H'. rewrite get_insert_ne; [apply Hrec; by right|]. intros ->. by apply (list_elem_of_fmap_2 fst) in H'. }
  rewrite !is_table_get, (Hin k v) by left.
  destruct v as [| | | | | |tb]; rewrite ?andb_false_r; try (apply Hgo; done).
  destruct (Toml.get k me) as [[| | | | | |ta]|] eqn:Em; cbn [andb]; try (apply Hgo; done).
  destruct (Hrec k ta tb) as (t & Ht & Hj); [by left|done|]. cbn. rewrite Ht. cbn.
  destruct (good ta tb); cbn; [|eexists; by split].
  apply Hgo. by rewrite join_tables, Hj.
Qed.

(** C34: merging a table into another succeeds exactly if the tables they have in common are nested
    no deeper than the limit, and then equals the merge without a limit; it never panics. *)
Theorem toml_merge_spec levels me other :
  wf_table other ->
  exists t, toml_merge_recurse levels me other = Return (t, if fits levels me other then Ok tt else Err TomlMergeError) /\
    (fits levels me other = true -> t = join me other).
Proof.
  revert me other. induction levels as [|levels IH]; intros me other Hwf; [by exists me|].
  apply (merge_entries_spec _ (fits levels) other other me); [by apply wf_keys|intros k v; by apply get_elem, wf_keys|].
  intros k ta tb Hin Hget. apply IH. eapply wf_sub; [done|]. apply get_elem; [by apply wf_keys|done].
Qed.

(** ** Paths *)

(** What is at a path of a value: a value, nothing, or something that is no table on the way. *)
Inductive reached := Found (v : Toml.Value) | Absent | Blocked.

Fixpoint reach (p : list string) (v : Toml.Value) : reached :=
  match p with
  | [] => Found v
  | k :: p =>
      match v with
      | Toml.Table t => match Toml.get k t with Some v => reach p v | None => Absent end
      | _ => Blocked
      end
  end.

Definition value_at (r : reached) : option Toml.Value := match r with Found v => Some v | _ => None end.

(** What a layer leaves at a path where there was [a]: its own value, joined with [a] if both
    are tables, nothing if it has something else on the way, and [a] if it says nothing. *)
Definition overlay (b : reached) (a : option Toml.Value) : option Toml.Value :=
  match b with
  | Found v => Some (join_value v a)
  | Absent => a
  | Blocked => None
  end.

Lemma join_none v : join_value v None = v.
Proof. by destruct v. Qed.

Lemma overlay_none b : overlay b None = value_at b.
Proof. destruct b; cbn; [by rewrite join_none|done..]. Qed.

Lemma path_join p ta tb :
  wf_table tb -> value_at (reach p (Toml.Table (join ta tb))) = overlay (reach p (Toml.Table tb)) (value_at (reach p (Toml.Table ta))).
Proof.
  revert ta tb. induction p as [|k p IH]; intros ta tb Hwf; [cbn [reach value_at overlay]; by rewrite join_tables|].
  cbn [reach]. rewrite get_join by (by apply wf_keys). destruct (Toml.get k tb) as [v|] eqn:Eb; [|done].
  destruct (Toml.get k ta) as [a|] eqn:Ea; [|rewrite join_none; by rewrite <- overlay_none].
  assert (Hplain : (forall ta' tb', a = Toml.Table ta' -> v <> Toml.Table tb') ->
    value_at (reach p (join_value v (Some a))) = overlay (reach p v) (value_at (reach p a))).
  { intros Hno. rewrite join_other by (intros ta' tb' [= ->]; by apply (Hno ta')). destruct p as [|k' p]; cbn [reach value_at overlay].
    - f_equal. symmetry. apply join_other. intros ta' tb' [= ->]. by apply (Hno ta').
    - destruct a as [| | | | | |ta']; try (by rewrite <- overlay_none).
      destruct v as [| | | | | |tb']; [done..|]. by destruct (Hno ta' tb'). }
  destruct v as [| | | | | |tb']; [by apply Hplain..|]. destruct a as [| | | | | |ta']; [by apply Hplain..|].
  rewrite join_tables. apply IH. by eapply wf_sub.
Qed.

(** ** The layers of a configuration *)

(** How deep the tables of a value are nested. *)
Fixpoint depth (v : Toml.Value) : nat :=
  match v with
  | Toml.Table t => S (foldr (fun e n => Nat.max (depth e.2) n) 0%nat t)
  | _ => 0%nat
  end.

Lemma depth_sub k t t' : Toml.get k t = Some (Toml.Table t') -> (depth (Toml.Table t') < depth (Toml.Table t))%nat.
Proof.
  intros H%get_in. change (depth (Toml.Table t)) with (S (foldr (fun e n => Nat.max (depth e.2) n) 0%nat t)).
  induction t as [|e t IH]; [by apply not_elem_of_nil in H|]. cbn [foldr]. apply elem_of_cons in H as [<-|H]; cbn [snd]; [lia|].
  specialize (IH H). lia.
Qed.

Lemma shallow_fits levels me other : wf_table other -> (depth (Toml.Table other) <= levels)%nat -> fits levels me other = true.
Proof.
  revert me other. induction levels as [|levels IH]; intros me other Hwf Hd; [cbn in Hd; lia|].
  apply forallb_forall. intros [k v] Hin%list_elem_of_In. cbn. destruct v as [| | | | | |tb]; try done.
  destruct (Toml.get k me) as [[| | | | | |ta]|]; try done.
  assert (Toml.get k other = Some (Toml.Table tb)) as Hg by (apply get_elem; [by apply wf_keys|done]).
  apply IH; [by eapply wf_sub|]. apply depth_sub in Hg. lia.
Qed.

(** A layer as the loaders and the census give it: absent, or a table. *)
Record layer_ok (l : option Toml.Value) : Prop := {
  layer_table : forall v, l = Some v -> exists t, v = Toml.Table t /\ wf_table t;
  layer_depth : forall v, l = Some v -> (depth v <= S TOML_MAX_MERGE_DEPTH)%nat;
}.

Definition layer_reach (p : list string) (l : option Toml.Value) : reached :=
  match l with Some v => reach p v | None => Absent end.

Lemma merge_layer_spec l t :
  layer_ok l ->
  exists t', Cfg.merge_layer l t = Return t' /\
    forall p, value_at (reach p (Toml.Table t')) = overlay (layer_reach p l) (value_at (reach p (Toml.Table t))).
Proof.
  intros [Ht Hd]. destruct l as [v|]; [|by exists t]. destruct (Ht v eq_refl) as (tb & -> & Hwf). specialize (Hd _ eq_refl).
  destruct (toml_merge_spec (S TOML_MAX_MERGE_DEPTH) t tb Hwf) as (t' & Hm & Hj).
  rewrite shallow_fits in Hm, Hj by done. exists t'. cbn [Cfg.merge_layer]. unfold toml_merge. rewrite Hm, Hj by done.
  split; [done|]. intros p. by apply path_join.
Qed.

(** C27: what a service reads at a path of its configuration is decided by the four layers in the
    order default, environment, user, gossip: a layer that has a value there replaces what the
    lower ones have, tables are joined, a layer that has something on the way to the path
    hides it, and a layer that says nothing leaves it; merging does not panic. *)
Theorem configuration_precedence cfg p :
  layer_ok (Cfg.default cfg) -> layer_ok (Cfg.environment cfg) -> layer_ok (Cfg.user cfg) -> layer_ok (Cfg.gossip cfg) ->
  Returns (Cfg.to_table cfg) (fun t =>
    value_at (reach p (Toml.Table t)) =
    overlay (layer_reach p (Cfg.gossip cfg)) (overlay (layer_reach p (Cfg.user cfg))
      (overlay (layer_reach p (Cfg.environment cfg)) (overlay (layer_reach p (Cfg.default cfg)) (value_at (reach p (Toml.Table []))))))).
Proof.
  intros H1 H2 H3 H4. unfold Cfg.to_table.
  destruct (merge_layer_spec _ [] H1) as (t1 & -> & E1). cbn.
  destruct (merge_layer_spec _ t1 H2) as (t2 & -> & E2). cbn.
  destruct (merge_layer_spec _ t2 H3) as (t3 & -> & E3). cbn.
  destruct (merge_layer_spec _ t3 H4) as (t4 & -> & E4). cbn. by rewrite E4, E3, E2, E1.
Qed.

(** ** Exports *)

Definition key_lt (a b : string * Toml.Value) : Prop := String.compare a.1 b.1 = Lt.

Lemma compare_lt_trans a b c : String.compare a b = Lt -> String.compare b c = Lt -> String.compare a c = Lt.
Proof. intros H1 H2. rewrite (string_compare_trans a b c) by congruence. by rewrite H1. Qed.

Lemma compare_refl a : String.compare a a = Eq.
Proof. pose proof (String.compare_antisym a a) as H. by destruct (String.compare a a). Qed.

Lemma insert_keys k v t x : x ∈ (Toml.insert k v t).*1 -> x = k \/ x ∈ t.*1.
Proof.
  induction t as [|[k' v'] t IH]; cbn; [set_solver|]. destruct (String.compare k k'); cbn; set_solver.
Qed.

Lemma insert_sorted k v t : StronglySorted key_lt t -> StronglySorted key_lt (Toml.insert k v t).
Proof.
  induction t as [|[k' v'] t IH]; cbn; [repeat constructor|]. intros [Hs Hf]%StronglySorted_inv.
  destruct (String.compare k k') eqn:E.
  - apply String.compare_eq_iff in E as <-. constructor; [done|]. eapply Forall_impl; [exact Hf|]. by intros [].
  - constructor; [by constructor|]. constructor; [done|]. eapply Forall_impl; [exact Hf|].
    intros [k2 v2] H2. unfold key_lt in *. cbn in *. by eapply compare_lt_trans.
  - constructor; [by apply IH|]. apply Forall_forall. intros [k2 v2] Hin. unfold key_lt. cbn.
    apply (list_elem_of_fmap_2 fst) in Hin. cbn in Hin. apply insert_keys in Hin as [->|(e & -> & He)%list_elem_of_fmap].
    + by rewrite String.compare_antisym, E.
    + by eapply Forall_forall in Hf.
Qed.

(** Merging keeps the order of the keys. *)
Lemma merge_entries_sorted recurse other entries me t r :
  StronglySorted key_lt me -> merge_entries recurse other entries me = Return (t, r) -> StronglySorted key_lt t.
Proof.
  revert me. induction entries as [|[k v] entries IH]; intros me Hs; cbn; [by intros [= -> _]|].
  destruct (_ && _); [|by apply IH, insert_sorted].
  destruct (Toml.get k me) as [[]|]; cbn; try (by intros [= -> _]).
  destruct (Toml.as_table v) as [o|]; cbn; [|done]. destruct (recurse _ o) as [[t' r']|]; cbn; [|done].
  destruct r'; [by apply IH, insert_sorted|]. intros [= <- _]. by apply insert_sorted.
Qed.

Lemma merge_layer_sorted l t t' : StronglySorted key_lt t -> Cfg.merge_layer l t = Return t' -> StronglySorted key_lt t'.
Proof.
  intros Hs. unfold Cfg.merge_layer. destruct l as [[]|]; try (by intros [= <-]). unfold toml_merge. cbn [toml_merge_recurse].
  destruct (merge_entries _ _ _ _) as [[t1 r1]|] eqn:E; cbn; [|done]. intros [= <-].
  by eapply merge_entries_sorted in E.
Qed.

Lemma to_table_sorted cfg t : Cfg.to_table cfg = Return t -> StronglySorted key_lt t.
Proof.
  unfold Cfg.to_table. destruct (Cfg.merge_layer (Cfg.default cfg) []) as [t1|] eqn:E1; cbn; [|done].
  destruct (Cfg.merge_layer (Cfg.environment cfg) t1) as [t2|] eqn:E2; cbn; [|done].
  destruct (Cfg.merge_layer (Cfg.user cfg) t2) as [t3|] eqn:E3; cbn; [|done]. intros E4.
  eapply merge_layer_sorted, E4. eapply merge_layer_sorted, E3. eapply merge_layer_sorted, E2. eapply merge_layer_sorted, E1. constructor.
Qed.

Lemma sorted_keys t : StronglySorted key_lt t -> NoDup t.*1.
Proof.
  induction 1 as [|e t Hs IH Hf]; [by apply NoDup_nil|]. cbn. apply NoDup_cons. split; [|done].
  intros (e' & He & Hin)%list_elem_of_fmap. eapply Forall_forall in Hf; [|exact Hin]. unfold key_lt in Hf. by rewrite He, compare_refl in Hf.
Qed.

(** Collecting the entries of a table, in any order, gives a table with the same entries. *)
Lemma get_collect entries k acc :
  NoDup entries.*1 ->
  Toml.get k (foldl (fun t e => Toml.insert e.1 e.2 t) acc entries) = match Toml.get k entries with Some v => Some v | None => Toml.get k acc end.
Proof.
  revert acc. induction entries as [|[k' v] entries IH]; intros acc; [done|]. intros [Hn Hnd]%NoDup_cons. cbn. rewrite IH by done.
  destruct (String.eqb_spec k k') as [->|Hne]; [by rewrite get_none, get_insert_eq|by rewrite get_insert_ne].
Qed.

(** The order of emission is a permutation. *)
Lemma serialize_perm cfg t : Cfg.to_table cfg = Return t -> exists l, Cfg.serialize cfg = Return l /\ l ≡ₚ t.
Proof.
  intros Ht. unfold Cfg.serialize. rewrite Ht. cbn. eexists. split; [done|].
  clear Ht. induction t as [|[k v] t IH]; [done|]. rewrite !filter_cons. cbn [fst snd].
  destruct v; cbn [Toml.is_array Toml.is_table]; repeat case_decide; try naive_solver; cbn [app].
  - by rewrite <- Permutation_middle, IH.
  - by rewrite (assoc_L (++)), <- Permutation_middle, <- (assoc_L (++)), IH.
Qed.

Lemma get_perm k l t : NoDup t.*1 -> l ≡ₚ t -> Toml.get k l = Toml.get k t.
Proof.
  intros Hnd Hl. assert (NoDup l.*1) as Hnd' by (by rewrite Hl).
  destruct (Toml.get k t) as [v|] eqn:Et; [apply get_in in Et; apply get_elem; [done|by rewrite Hl]|].
  destruct (Toml.get k l) as [v|] eqn:El; [|done]. apply get_in in El. rewrite Hl in El. apply get_elem in El; [congruence|done].
Qed.

(** The path of an export in a table, and in one with the same entries. *)
Lemma export_loop_same fields t t' :
  (forall k, Toml.get k t' = Toml.get k t) ->
  (Cfg.export_loop fields (Toml.Table t') false).2 = (Cfg.export_loop fields (Toml.Table t) false).2 /\
  ((Cfg.export_loop fields (Toml.Table t) false).2 = true ->
   (Cfg.export_loop fields (Toml.Table t') false).1 = (Cfg.export_loop fields (Toml.Table t) false).1).
Proof. intros H. induction fields as [|f fields IH]; [done|]. cbn. rewrite H. by destruct (Toml.get f t). Qed.

(** What an export of a path is given from a table. *)
Definition exported (path : string) (t : Toml.table) : option Toml.Value :=
  let r := Cfg.export_loop (Ident.split "." path) (Toml.Table t) false in if r.2 then Some r.1 else None.

Lemma exports_fold f exports key acc :
  NoDup exports.*1 ->
  Toml.get key (foldl (fun map (e : string * string) => match f e.2 with Some v => Toml.insert e.1 v map | None => map end) acc exports) =
  match (e ← list_find (fun e : string * string => e.1 = key) exports; f e.2.2) with Some v => Some v | None => Toml.get key acc end.
Proof.
  revert acc. induction exports as [|[k p] exports IH]; intros acc; [done|]. intros [Hn Hnd]%NoDup_cons. cbn [foldl fst snd].
  rewrite IH by done. cbn [list_find]. case_decide as Hk; cbn in Hn, Hk |- *.
  - subst k. assert (list_find (fun e : string * string => e.1 = key) exports = None) as ->.
    { apply list_find_None, Forall_forall. intros e He <-. apply Hn. by apply (list_elem_of_fmap_2 fst) in He. }
    cbn. destruct (f p); [by rewrite get_insert_eq|done].
  - destruct (list_find _ exports) as [[i e]|]; cbn; [destruct (f e.2); [done|]|]; destruct (f p); try done;
      by rewrite get_insert_ne by congruence.
Qed.

Lemma to_exported_spec exports cfg t :
  Cfg.to_table cfg = Return t -> NoDup exports.*1 ->
  exists m, Cfg.to_exported exports cfg = Return m /\
    forall key path, (key, path) ∈ exports -> Toml.get key m = exported path t.
Proof.
  intros Ht Hnd. destruct (serialize_perm cfg t Ht) as (l & Hl & Hp). pose proof (sorted_keys t (to_table_sorted cfg t Ht)) as Hk.
  unfold Cfg.to_exported. rewrite Hl. cbn. set (t' := foldl (fun t e => Toml.insert e.1 e.2 t) [] l).
  assert (Hget : forall k, Toml.get k t' = Toml.get k t).
  { intros k. subst t'. rewrite get_collect by (by rewrite Hp). rewrite (get_perm k l t Hk Hp). by destruct (Toml.get k t). }
  eexists. split; [done|]. intros key path Hin.
  assert (Hf : forall e : string * string, forall map,
    (let '(curr, found) := Cfg.export_loop (Ident.split "." e.2) (Toml.Table t') false in
     if found then Toml.insert e.1 curr map else map) =
    match exported e.2 t with Some v => Toml.insert e.1 v map | None => map end).
  { intros e map. unfold exported. destruct (export_loop_same (Ident.split "." e.2) t t' Hget) as [E1 E2].
    destruct (Cfg.export_loop _ (Toml.Table t') false) as [c b], (Cfg.export_loop _ (Toml.Table t) false) as [c' b']. cbn in *. subst b.
    destruct b'; [|done]. by rewrite E2. }
  assert (forall acc, foldl (fun map (e : string * string) =>
     let '(curr, found) := Cfg.export_loop (Ident.split "." e.2) (Toml.Table t') false in
     if found then Toml.insert e.1 curr map else map) acc exports =
    foldl (fun map (e : string * string) => match exported e.2 t with Some v => Toml.insert e.1 v map | None => map end) acc exports) as ->.
  { clear - Hf. induction exports as [|e exports IH]; intros acc; [done|]. cbn [foldl]. rewrite Hf. apply IH. }
  rewrite (exports_fold (fun p => exported p t)) by done.
  assert (exists i, list_find (fun e : string * string => e.1 = key) exports = Some (i, (key, path))) as [i ->].
  { apply list_elem_of_lookup in Hin as [i Hi]. exists i. apply list_find_Some. split_and!; [done|done|]. intros j e Hj Hlt Hek.
    assert (j = i); [|lia]. eapply NoDup_lookup; [exact Hnd|rewrite list_lookup_fmap, Hj; done|rewrite list_lookup_fmap, Hi; cbn; by rewrite Hek]. }
  cbn. by destruct (exported path t).
Qed.

Lemma export_loop_found fields v w b : fields <> [] \/ b = true -> reach fields v = Found w -> Cfg.export_loop fields v b = (w, true).
Proof.
  revert v b. induction fields as [|f fields IH]; intros v b Hne; cbn; [intros [= ->]; by destruct Hne as [| ->]|].
  destruct v as [| | | | | |t]; try done. cbn. destruct (Toml.get f t); [|done]. apply IH. by right.
Qed.

Lemma exported_found path t w : reach (Ident.split "." path) (Toml.Table t) = Found w -> exported path t = Some w.
Proof.
  intros Hr. unfold exported. rewrite (export_loop_found _ _ w); [done| |done]. left.
  unfold Ident.split. by destruct (split_chars_cons "." (to_chars path)) as (w' & ws & ->).
Qed.

(** An export whose path is in the configuration is published with the value at the path; but
    one whose path starts with a field that is not there is published with the value at the rest
    of the path: the loop over the fields goes on after a missing field. *)
Theorem export_skips_missing_field exports cfg t :
  Cfg.to_table cfg = Return t -> NoDup exports.*1 ->
  exists m, Cfg.to_exported exports cfg = Return m /\ forall key path, (key, path) ∈ exports ->
    (forall w, reach (Ident.split "." path) (Toml.Table t) = Found w -> Toml.get key m = Some w) /\
    (forall f fields w, Ident.split "." path = f :: fields -> fields <> [] -> Toml.get f t = None ->
       reach fields (Toml.Table t) = Found w -> Toml.get key m = Some w).
Proof.
  intros Ht Hnd. destruct (to_exported_spec exports cfg t Ht Hnd) as (m & Hm & Hspec). exists m. split; [done|].
  intros key path Hin. rewrite (Hspec key path Hin). split; [apply exported_found|]. intros f fields w Hs Hne Hf Hr.
  unfold exported. rewrite Hs. cbn [Cfg.export_loop Toml.value_get]. rewrite Hf.
  rewrite (export_loop_found fields (Toml.Table t) w false) by auto. done.
Qed.

(** ** Examples *)
Module CfgExample.
Definition server (l : Toml.table) : Toml.Value := Toml.Table [("server", Toml.Table l)].

(** [default.toml] and [user.toml] of a service. *)
Definition cfg : Cfg.t :=
  Cfg.mk (Some (server [("details", Toml.String_ "initial"); ("port", Toml.Integer 1000)]))
    (Some (server [("port", Toml.Integer 5000)])) None None 0.

(** A decidable form of [wf_table] for tables of values that are nested at most [n] deep. *)
Fixpoint wf_b (n : nat) (t : Toml.table) : bool :=
  match n with
  | 0%nat => false
  | S n => bool_decide (NoDup t.*1) && forallb (fun e => match e.2 with Toml.Table t' => wf_b n t' | _ => true end) t
  end.

Lemma wf_b_spec n t : wf_b n t = true -> wf_table t.
Proof.
  revert t. induction n as [|n IH]; intros t; cbn; [done|]. intros [H1%bool_decide_eq_true H2]%andb_true_iff.
  rewrite forallb_forall in H2. constructor; [done|]. intros k t' Hg%get_in%list_elem_of_In. apply IH. by apply (H2 _ Hg).
Qed.

Lemma layer_by n t : wf_b n t = true -> (depth (Toml.Table t) <= S TOML_MAX_MERGE_DEPTH)%nat -> layer_ok (Some (Toml.Table t)).
Proof. intros Hw%wf_b_spec Hd. split; intros v [= <-]; [by exists t|done]. Qed.

Lemma no_layer : layer_ok None.
Proof. by split. Qed.

Lemma toml_merge_spec_witness :
  toml_merge [("a", Toml.Integer 1); ("t", Toml.Table [("x", Toml.Integer 1)])] [("t", Toml.Table [("y", Toml.Integer 2)])] =
    Return (join [("a", Toml.Integer 1); ("t", Toml.Table [("x", Toml.Integer 1)])] [("t", Toml.Table [("y", Toml.Integer 2)])], Ok tt).
Proof.
  destruct (toml_merge_spec (S TOML_MAX_MERGE_DEPTH) [("a", Toml.Integer 1); ("t", Toml.Table [("x", Toml.Integer 1)])]
    [("t", Toml.Table [("y", Toml.Integer 2)])]) as (t & Ht & Hj).
  - apply (wf_b_spec 2). vm_compute. reflexivity.
  - rewrite Hj in Ht by (vm_compute; reflexivity). exact Ht.
Defined.

Lemma configuration_precedence_witness :
  Returns (Cfg.to_table cfg) (fun t =>
    value_at (reach ["server"; "port"] (Toml.Table t)) = Some (Toml.Integer 5000) /\
    value_at (reach ["server"; "details"] (Toml.Table t)) = Some (Toml.String_ "initial")).
Proof.
  assert (layer_ok (Cfg.default cfg)) as H1 by (apply (layer_by 2); [vm_compute; reflexivity|vm_compute; lia]).
  assert (layer_ok (Cfg.user cfg)) as H2 by (apply (layer_by 2); [vm_compute; reflexivity|vm_compute; lia]).
  pose proof (configuration_precedence cfg ["server"; "port"] H1 no_layer H2 no_layer) as P1.
  pose proof (configuration_precedence cfg ["server"; "details"] H1 no_layer H2 no_layer) as P2.
  destruct (Cfg.to_table cfg) as [t|]; [|exact P1]. split; [exact P1|exact P2].
Defined.

(** The path [srv.port] is not there; the value of [port] is published. *)
Lemma export_skips_missing_field_witness :
  exists m, Cfg.to_exported [("port", "srv.port")] (Cfg.mk (Some (Toml.Table [("port", Toml.Integer 80)])) None None None 0) = Return m /\
    Toml.get "port" m = Some (Toml.Integer 80).
Proof.
  destruct (export_skips_missing_field [("port", "srv.port")] (Cfg.mk (Some (Toml.Table [("port", Toml.Integer 80)])) None None None 0)
    [("port", Toml.Integer 80)]) as (m & Hm & Hspec); [vm_compute; reflexivity|apply NoDup_singleton|].
  exists m. split; [exact Hm|]. destruct (Hspec "port" "srv.port") as [_ H]; [left|].
  apply (H "srv" ["port"] (Toml.Integer 80)); [vm_compute; reflexivity|discriminate|vm_compute; reflexivity|vm_compute; reflexivity].
Defined.

(** Tables nested [n] deep. *)
Fixpoint nest (n : nat) : Toml.Value :=
  match n with 0%nat => Toml.Integer 1 | S n => Toml.Table [("a", nest n)] end.

(** A layer with a table that is too deep loses also what comes after it: the key [z] is not
    merged. *)
Lemma too_deep_hides_rest :
  Cfg.merge_layer (Some (Toml.Table [("a", nest 40); ("z", Toml.Integer 1)])) [("a", nest 40)] = Return [("a", nest 40)].
Proof. vm_compute. reflexivity. Qed.
End CfgExample.
