(* ===== verification/Host.v ===== *)
(** * The machine a service runs on

    The files, processes and hooks of a service, as the code in
    [components/sup/src/manager/service] uses them, and the paths of
    [components/sup/src/fs.rs].  A computation takes the state of the machine and gives the state
    after it with its outcome.  The answers of the machine that the code cannot foresee are part
    of its state: which file operations fail, what the Launcher replies, how a hook ends. *)

From Stdlib Require Import Ascii.
From stdpp Require Import pretty.
From S2P Require Import Prelude Regex ServiceGroup Ident Text.
Local Open Scope string_scope.
Local Open Scope list_scope.

(** How the run of a program ends: it cannot be started, or it prints lines on its standard output
    and error and ends; [status] is [None] when it cannot be waited for, and has no code when a
    signal ended it. *)
Inductive program_run :=
| CannotStart
| Ran (stdout stderr : list string) (status : option (option Z)).

(** What is asked of the Launcher, and the programs that are run. *)
Inductive action :=
| Spawn (service_group : string)
| Restart (pid : Z)
| Terminate (pid : Z)
| RunProgram (path : string).

#[export] Instance action_eq_dec : EqDecision action.
Proof. solve_decision. Defined.

(** [files] has the contents of the files, [dirs] the directories; [executable] the files that
    were made executable; [faults] says which of the next operations that can fail do; the others are the
    processes that are alive, the next replies of the Launcher ([None] is an error), the next runs
    of programs, the clock in milliseconds and what was done.  File operations beyond [faults]
    succeed where they can. *)
Record host := Host {
  files : gmap string string;
  dirs : gset string;
  executable : gset string;
  faults : list bool;
  alive : gset Z;
  replies : list (option Z);
  runs : list program_run;
  clock : Z;
  done_ : list action;
}.

Definition set_files (f : gmap string string) (h : host) : host :=
  Host f (dirs h) (executable h) (faults h) (alive h) (replies h) (runs h) (clock h) (done_ h).
Definition set_executable (e : gset string) (h : host) : host :=
  Host (files h) (dirs h) e (faults h) (alive h) (replies h) (runs h) (clock h) (done_ h).
Definition set_faults (l : list bool) (h : host) : host :=
  Host (files h) (dirs h) (executable h) l (alive h) (replies h) (runs h) (clock h) (done_ h).
Definition set_alive (a : gset Z) (h : host) : host :=
  Host (files h) (dirs h) (executable h) (faults h) a (replies h) (runs h) (clock h) (done_ h).
Definition set_replies (l : list (option Z)) (h : host) : host :=
  Host (files h) (dirs h) (executable h) (faults h) (alive h) l (runs h) (clock h) (done_ h).
Definition set_runs (l : list program_run) (h : host) : host :=
  Host (files h) (dirs h) (executable h) (faults h) (alive h) (replies h) l (clock h) (done_ h).
Definition act (a : action) (h : host) : host :=
  Host (files h) (dirs h) (executable h) (faults h) (alive h) (replies h) (runs h) (clock h) (done_ h ++ [a]).

Definition M (A : Type) : Type := host -> host * outcome A.

#[export] Instance M_ret : MRet M := fun _ a h => (h, Return a).
#[export] Instance M_bind : MBind M := fun _ _ k c h =>
  match c h with
  | (h, Return a) => k a h
  | (h, Panic m) => (h, Panic m)
  end.

Definition panics {A} (msg : string) : M A := fun h => (h, Panic msg).
Definition from_outcome {A} (c : outcome A) : M A := fun h => (h, c).
Definition expects {A} (msg : string) (o : option A) : M A := from_outcome (expect msg o).
Definition gets {A} (f : host -> A) : M A := fun h => (h, Return (f h)).
Definition modifies (f : host -> host) : M unit := fun h => (f h, Return tt).

(** ** File operations; [None] is an error *)

(** Whether the next operation fails. *)
Definition next_fault : M bool := fun h =>
  match faults h with
  | [] => (h, Return false)
  | b :: l => (set_faults l h, Return b)
  end.

(** [Path::exists] and [fs::metadata], which do not fail on what is there. *)
Definition path_exists (path : string) : M bool :=
  gets (fun h => bool_decide (is_Some (files h !! path)) || bool_decide (path ∈ dirs h)).
Definition is_dir (path : string) : M bool := gets (fun h => bool_decide (path ∈ dirs h)).

Definition read_file (path : string) : M (option string) :=
  failed ← next_fault;
  gets (fun h => if failed : bool then None else files h !! path).

Definition dir_prefix (dir : string) : string := dir +:+ "/".

(** [fs::read_dir]: the names of the files of a directory. *)
Definition read_dir (dir : string) : M (list string) :=
  gets (fun h =>
    if bool_decide (dir ∈ dirs h) then
      omap (fun f => if String.prefix (dir_prefix dir) f
                     then let rest := String.substring (String.length (dir_prefix dir)) (String.length f) f in
                          if bool_decide ("/"%char ∈ to_chars rest) then None else Some rest
                     else None) (map_to_list (files h)).*1
    else []).

(** [File::create], which empties the file; not where there is a directory. *)
Definition create_file (path : string) : M (option unit) :=
  failed ← next_fault;
  dir ← is_dir path;
  if (failed || dir)%bool then mret None
  else _ ← modifies (fun h => set_files (<[path := ""]> (files h)) h); mret (Some tt).

(** [write_all] at the end of an open file. *)
Definition append (path content : string) : M (option unit) :=
  failed ← next_fault;
  if failed : bool then mret None
  else _ ← modifies (fun h => set_files (<[path := default "" (files h !! path) +:+ content]> (files h)) h);
       mret (Some tt).

Definition create_and_write (path content : string) : M (option unit) :=
  r ← create_file path;
  match r with
  | None => mret None
  | Some _ => append path content
  end.

Definition rename (from to : string) : M (option unit) :=
  failed ← next_fault;
  content ← gets (fun h => files h !! from);
  match failed, content with
  | false, Some c => _ ← modifies (fun h => set_files (<[to := c]> (delete from (files h))) h); mret (Some tt)
  | _, _ => mret None
  end.

Definition remove_file (path : string) : M unit :=
  failed ← next_fault;
  if failed : bool then mret tt else modifies (fun h => set_files (delete path (files h)) h).

(** [fs::copy], with the permissions. *)
Definition copy_file (from to : string) : M (option unit) :=
  failed ← next_fault;
  content ← gets (fun h => files h !! from);
  match failed, content with
  | false, Some c =>
      _ ← modifies (fun h => set_files (<[to := c]> (files h)) h);
      _ ← modifies (fun h => set_executable (if bool_decide (from ∈ executable h) then {[to]} ∪ executable h
                                             else executable h ∖ {[to]}) h);
      mret (Some tt)
  | _, _ => mret None
  end.

(** [set_permissions(path, HOOK_PERMISSIONS)]. *)
Definition make_executable (path : string) : M (option unit) :=
  failed ← next_fault;
  if failed : bool then mret None
  else _ ← modifies (fun h => set_executable ({[path]} ∪ executable h) h); mret (Some tt).

(** [set_owner], and [set_permissions] with modes nothing here depends on. *)
Definition set_mode (path : string) : M (option unit) :=
  failed ← next_fault;
  mret (if failed : bool then None else Some tt).

(** ** The Launcher and programs *)

Definition next_reply : M (option Z) := fun h =>
  match replies h with
  | [] => (h, Return None)
  | r :: l => (set_replies l h, Return r)
  end.

(** [LauncherCli::spawn], [restart] and [terminate]: a process that is started is alive, and one
    that is restarted or terminated is not.  When a restart fails the process may have been ended
    without a new one; the next of [faults] says so. *)
Definition launcher_spawn (service_group : string) : M (option Z) :=
  _ ← modifies (act (Spawn service_group));
  r ← next_reply;
  match r with
  | Some pid => _ ← modifies (fun h => set_alive ({[pid]} ∪ alive h) h); mret (Some pid)
  | None => mret None
  end.

Definition launcher_restart (pid : Z) : M (option Z) :=
  _ ← modifies (act (Restart pid));
  r ← next_reply;
  match r with
  | Some pid' => _ ← modifies (fun h => set_alive ({[pid']} ∪ (alive h ∖ {[pid]})) h); mret (Some pid')
  | None =>
      ended ← next_fault;
      _ ← modifies (fun h => if ended : bool then set_alive (alive h ∖ {[pid]}) h else h);
      mret None
  end.

Definition launcher_terminate (pid : Z) : M (option unit) :=
  _ ← modifies (act (Terminate pid));
  r ← next_reply;
  match r with
  | Some _ => _ ← modifies (fun h => set_alive (alive h ∖ {[pid]}) h); mret (Some tt)
  | None => mret None
  end.

Definition next_run (path : string) : M program_run := fun h =>
  match runs h with
  | [] => (act (RunProgram path) h, Return CannotStart)
  | r :: l => (set_runs l (act (RunProgram path) h), Return r)
  end.

(** [exec::run]: a program that is missing or not executable cannot be started. *)
Definition run_program (path : string) : M program_run :=
  startable ← gets (fun h => bool_decide (is_Some (files h !! path)) && bool_decide (path ∈ executable h));
  if startable : bool then next_run path else mret CannotStart.

(** ** Paths ([sup/src/fs.rs]); [root] is [FS_ROOT_PATH] *)
Section paths.
Context (root : string).

Definition svc_path (service_name : string) : string := root +:+ "hab/svc/" +:+ service_name.
Definition svc_config_path (service_name : string) : string := svc_path service_name +:+ "/config".
Definition svc_files_path (service_name : string) : string := svc_path service_name +:+ "/files".
Definition svc_hooks_path (service_name : string) : string := svc_path service_name +:+ "/hooks".
Definition svc_logs_path (service_name : string) : string := svc_path service_name +:+ "/logs".
Definition svc_pid_file (service_name : string) : string := svc_path service_name +:+ "/PID".
Definition user_config_path (service_name : string) : string := root +:+ "hab/user/" +:+ service_name +:+ "/config".
End paths.

Definition join_path (dir file : string) : string := dir +:+ "/" +:+ file.

(** ** Reasoning *)
Lemma bind_return {A B} (c : M A) (k : A -> M B) h h' a : c h = (h', Return a) -> (c ≫= k) h = k a h'.
Proof. intros Hc. unfold mbind, M_bind. by rewrite Hc. Qed.

(** No file operation fails. *)
Definition calm (h : host) : Prop := faults h = [].

(** ** File operations that do not fail *)
Section calm_files.
Context (h : host) (Hh : calm h).

Lemma next_fault_calm : next_fault h = (h, Return false).
Proof. unfold next_fault. by rewrite Hh. Qed.

Lemma read_file_calm p : read_file p h = (h, Return (files h !! p)).
Proof. unfold read_file. unfold mbind, M_bind. by rewrite next_fault_calm. Qed.

Lemma create_file_calm p : p ∉ dirs h -> create_file p h = (set_files (<[p := ""]> (files h)) h, Return (Some tt)).
Proof.
  intros Hp. unfold create_file, is_dir. unfold mbind, M_bind. rewrite next_fault_calm. cbn.
  by rewrite bool_decide_false by done.
Qed.

Lemma append_calm p s :
  append p s h = (set_files (<[p := default "" (files h !! p) +:+ s]> (files h)) h, Return (Some tt)).
Proof. unfold append. unfold mbind, M_bind. by rewrite next_fault_calm. Qed.

Lemma remove_file_calm p : remove_file p h = (set_files (delete p (files h)) h, Return tt).
Proof. unfold remove_file. unfold mbind, M_bind. by rewrite next_fault_calm. Qed.

Lemma make_executable_calm p : make_executable p h = (set_executable ({[p]} ∪ executable h) h, Return (Some tt)).
Proof. unfold make_executable. unfold mbind, M_bind. by rewrite next_fault_calm. Qed.
End calm_files.
