(* ===== verification/Templating.v ===== *)
(** * What templates see

    Models [components/sup/src/templating/context.rs]: the context in which the templates of a
    service are rendered, built from the census.  The handlebars engine itself is a parameter of
    the files that render. *)

From S2P Require Import Prelude Regex Text ServiceGroup Ident Target Metadata Install ServiceSpec SpecWatcher Manager.
From S2P Require Import Member Messages Rumor Kinds Election Server Census Cfg.
From Stdlib Require Import Ascii.
Local Open Scope string_scope.
Local Open Scope list_scope.

Abbreviation census_member := (CensusMember.t Toml.table).
Abbreviation census_group := (CensusGroup.t Toml.table Toml.Value).
Abbreviation census_ring := (CensusRing.t Toml.table Toml.Value).

(** The leader, or the first member. *)
Definition select_first (group : census_group) : option census_member :=
  match CensusGroup.leader group with
  | Some member => Some member
  | None => head (CensusGroup.members group)
  end.

Record BindGroup := mkBindGroup {
  bg_first : option census_member;
  bg_members : list census_member;
}.

Definition bind_group (group : census_group) : BindGroup :=
  mkBindGroup (select_first group) (CensusGroup.members group).

Module Binds.
Definition new (bindings : list ServiceBind.t) (census : census_ring) : gmap string BindGroup :=
  foldl (fun map bind =>
    match CensusRing.census_group_for census (ServiceBind.service_group bind) with
    | Some group => <[ServiceBind.name bind := bind_group group]> map
    | None => map
    end) ∅ bindings.
End Binds.

Module Svc.
Record t := mk {
  service : string;
  group : string;
  org : option string;
  election_is_running : bool;
  election_is_no_quorum : bool;
  election_is_finished : bool;
  update_election_is_running : bool;
  update_election_is_no_quorum : bool;
  update_election_is_finished : bool;
  me : census_member;
  first : census_member;
  members : list census_member;
  leader : option census_member;
  update_leader : option census_member;
}.

Definition new `{!RegexEngine} (census_group : census_group) : outcome t :=
  service ← ServiceGroup.service (CensusGroup.service_group census_group);
  group ← ServiceGroup.group (CensusGroup.service_group census_group);
  org ← ServiceGroup.org (CensusGroup.service_group census_group);
  let status_is s := bool_decide (CensusGroup.election_status census_group = s) in
  me ← expect "Missing 'me'" (CensusGroup.me census_group);
  first ← expect "First should always be present on svc" (select_first census_group);
  Return (mk service group org
            (status_is ElectionStatus.ElectionInProgress) (status_is ElectionStatus.ElectionNoQuorum) (status_is ElectionStatus.ElectionFinished)
            (status_is ElectionStatus.ElectionInProgress) (status_is ElectionStatus.ElectionNoQuorum) (status_is ElectionStatus.ElectionFinished)
            me first (CensusGroup.members census_group) (CensusGroup.leader census_group)
            (CensusGroup.update_leader census_group)).
End Svc.

(** [sys] is left out: it does not change while the Supervisor runs. *)
Module RenderContext.
Record t := mk {
  pkg : Pkg.t;
  cfg : Cfg.t;
  svc : Svc.t;
  bind : gmap string BindGroup;
}.

Definition new `{!RegexEngine} (service_group : ServiceGroup.t) (pkg : Pkg.t) (cfg : Cfg.t) (census : census_ring)
    (bindings : list ServiceBind.t) : outcome t :=
  census_group ← expect "Census Group missing from list!" (CensusRing.census_group_for census service_group);
  svc ← Svc.new census_group;
  Return (mk pkg cfg svc (Binds.new bindings census)).
End RenderContext.
