(* ===== verification/Hooks.v ===== *)
(** * Hooks and configuration files

    Models [components/sup/src/manager/service/hooks.rs], [health.rs], and [CfgRenderer] of
    [config.rs]: the templates of a package are rendered to files, and only a file whose contents
    change is written; a hook is run as a program, its output is logged, and how it ends becomes
    the value its kind defines.

    The handlebars engine and the hash function of [core/src/crypto/hash.rs] are parameters. *)

From S2P Require Import Prelude Regex Text ServiceGroup Ident Target Metadata Install ServiceSpec SpecWatcher Manager.
From S2P Require Import Census Cfg Templating Host.
From Stdlib Require Import Ascii.
Local Open Scope string_scope.
Local Open Scope list_scope.

(** ** Health ([health.rs]) *)
Module HealthCheck.
Inductive t := Ok | Warning | Critical | Unknown.
Definition default : t := Unknown.
Definition from_i8 (value : Z) : t :=
  match value with
  | 0%Z => Ok
  | 1%Z => Warning
  | 2%Z => Critical
  | 3%Z => Unknown
  | _ => Unknown
  end.
Definition to_string (self : t) : string :=
  match self with Ok => "OK" | Warning => "WARNING" | Critical => "CRITICAL" | Unknown => "UNKNOWN" end.
(** [check_result as i8] *)
Definition as_i8 (self : t) : Z :=
  match self with Ok => 0 | Warning => 1 | Critical => 2 | Unknown => 3 end.
End HealthCheck.

Module SmokeCheck.
Inductive t := Ok | Failed (code : Z) | Pending.
Definition default : t := Pending.
Definition to_string (self : t) : string :=
  match self with Ok => "OK" | Failed _ => "FAILED" | Pending => "PENDING" end.
End SmokeCheck.

(** ** The implementations of the trait [Hook]

    [code] is how the hook ended, [None] when a signal ended it. *)
Module ExitCode.
Definition t : Type := Z.
Definition default : t := (-1)%Z.
End ExitCode.

Module FileUpdatedHook.
Definition ExitValue : Type := bool.
Definition file_name : string := "file_updated".
Definition handle_exit (code : option Z) : ExitValue := bool_decide (code = Some 0%Z).
End FileUpdatedHook.

Module HealthCheckHook.
Definition ExitValue : Type := HealthCheck.t.
Definition file_name : string := "health_check".
Definition handle_exit (code : option Z) : ExitValue :=
  match code with
  | Some 0%Z => HealthCheck.Ok
  | Some 1%Z => HealthCheck.Warning
  | Some 2%Z => HealthCheck.Critical
  | Some 3%Z => HealthCheck.Unknown
  | Some _ => HealthCheck.default
  | None => HealthCheck.default
  end.
End HealthCheckHook.

Module InitHook.
Definition ExitValue : Type := bool.
Definition file_name : string := "init".
Definition handle_exit (code : option Z) : ExitValue :=
  match code with Some 0%Z => true | Some _ => false | None => false end.
End InitHook.

Module RunHook.
Definition ExitValue : Type := ExitCode.t.
Definition file_name : string := "run".
Definition handle_exit (code : option Z) : ExitValue := match code with Some code => code | None => ExitCode.default end.
End RunHook.

Module PostRunHook.
Definition ExitValue : Type := ExitCode.t.
Definition file_name : string := "post-run".
Definition handle_exit (code : option Z) : ExitValue := match code with Some code => code | None => ExitCode.default end.
End PostRunHook.

Module ReloadHook.
Definition ExitValue : Type := ExitCode.t.
Definition file_name : string := "reload".
Definition handle_exit (code : option Z) : ExitValue :=
  match code with Some 0%Z => 0%Z | Some code => code | None => ExitCode.default end.
End ReloadHook.

Module ReconfigureHook.
Definition ExitValue : Type := ExitCode.t.
Definition file_name : string := "reconfigure".
Definition handle_exit (code : option Z) : ExitValue := match code with Some code => code | None => ExitCode.default end.
End ReconfigureHook.

Module SmokeTestHook.
Definition ExitValue : Type := SmokeCheck.t.
Definition file_name : string := "smoke_test".
Definition handle_exit (code : option Z) : ExitValue :=
  match code with
  | Some 0%Z => SmokeCheck.Ok
  | Some code => SmokeCheck.Failed code
  | None => SmokeCheck.Failed (-1)
  end.
End SmokeTestHook.

Module SuitabilityHook.
Definition ExitValue : Type := option Z.
Definition file_name : string := "suitability".

(** The last line of the output as a number; [stdout] is the contents of the log, [None] when it
    cannot be opened. *)
Definition reported_suitability (stdout : option string) : option Z :=
  log ← stdout;
  line ← last (lines log);
  match parse_u64 (trim line) with
  | Ok suitability => Some suitability
  | Err _ => None
  end.

Definition handle_exit (stdout : option string) (code : option Z) : ExitValue :=
  match code with Some 0%Z => reported_suitability stdout | Some _ => None | None => None end.
End SuitabilityHook.

Module PostStopHook.
Definition ExitValue : Type := bool.
Definition file_name : string := "post-stop".
Definition handle_exit (code : option Z) : ExitValue :=
  match code with Some 0%Z => true | Some _ => false | None => false end.
End PostStopHook.

(** ** The kinds of hooks: which of the implementations is meant *)
Module HookKind.
Inductive t :=
| FileUpdated | HealthCheck_ | Init | Run | PostRun | Reload | Reconfigure | SmokeTest | Suitability | PostStop.

#[global] Instance eq_dec : EqDecision t.
Proof. solve_decision. Defined.

Definition file_name (k : t) : string :=
  match k with
  | FileUpdated => FileUpdatedHook.file_name
  | HealthCheck_ => HealthCheckHook.file_name
  | Init => InitHook.file_name
  | Run => RunHook.file_name
  | PostRun => PostRunHook.file_name
  | Reload => ReloadHook.file_name
  | Reconfigure => ReconfigureHook.file_name
  | SmokeTest => SmokeTestHook.file_name
  | Suitability => SuitabilityHook.file_name
  | PostStop => PostStopHook.file_name
  end.

Definition ExitValue (k : t) : Type :=
  match k with
  | FileUpdated => FileUpdatedHook.ExitValue
  | HealthCheck_ => HealthCheckHook.ExitValue
  | Init => InitHook.ExitValue
  | Run => RunHook.ExitValue
  | PostRun => PostRunHook.ExitValue
  | Reload => ReloadHook.ExitValue
  | Reconfigure => ReconfigureHook.ExitValue
  | SmokeTest => SmokeTestHook.ExitValue
  | Suitability => SuitabilityHook.ExitValue
  | PostStop => PostStopHook.ExitValue
  end.

(** [Default] of the values. *)
Definition default (k : t) : ExitValue k :=
  match k with
  | FileUpdated | Init | PostStop => false
  | HealthCheck_ => HealthCheck.default
  | Run | PostRun | Reload | Reconfigure => ExitCode.default
  | SmokeTest => SmokeCheck.default
  | Suitability => None
  end.

(** [stdout] is the log that [SuitabilityHook] reads. *)
Definition handle_exit (k : t) (stdout : option string) (code : option Z) : ExitValue k :=
  match k with
  | FileUpdated => FileUpdatedHook.handle_exit code
  | HealthCheck_ => HealthCheckHook.handle_exit code
  | Init => InitHook.handle_exit code
  | Run => RunHook.handle_exit code
  | PostRun => PostRunHook.handle_exit code
  | Reload => ReloadHook.handle_exit code
  | Reconfigure => ReconfigureHook.handle_exit code
  | SmokeTest => SmokeTestHook.handle_exit code
  | Suitability => SuitabilityHook.handle_exit stdout code
  | PostStop => PostStopHook.handle_exit code
  end.

Definition all : list t :=
  [FileUpdated; HealthCheck_; Suitability; Init; Reload; Reconfigure; Run; PostRun; SmokeTest; PostStop].
End HookKind.

(** ** A hook *)

(** The path it is compiled to and the template, with the paths of its logs. *)
Record RenderPair := mkRenderPair { rp_path : string; rp_template : string }.

Record hook := mkHook {
  render_pair : RenderPair;
  stdout_log_path : string;
  stderr_log_path : string;
}.

Definition path (self : hook) : string := rp_path (render_pair self).

Module HookOutput.
(** [write_fmt("{}\n", l)] for each line. *)
Fixpoint log_lines (log : string) (l : list string) : M unit :=
  match l with
  | [] => mret tt
  | line :: l =>
      r ← append log (line +:+ String LF "");
      match r with
      | None => panics "couldn't write line"
      | Some _ => log_lines log l
      end
  end.

Definition stream_output (stdout_log stderr_log : string) (stdout stderr : list string) : M unit :=
  a ← create_file stdout_log;
  _ ← expects "couldn't create log output file" a;
  b ← create_file stderr_log;
  _ ← expects "couldn't create log output file" b;
  _ ← log_lines stdout_log stdout;
  log_lines stderr_log stderr.

Definition stdout (stdout_log : string) : M (option string) := read_file stdout_log.
Definition stderr (stderr_log : string) : M (option string) := read_file stderr_log.
End HookOutput.

(** [parses] is whether a text is a template, [render] the text a template gives in a context. *)
Module Hook.
Section with_libraries.
  Context `{!RegexEngine} (root : string).
  Context (parses : string -> bool) (render : string -> RenderContext.t -> option string) (hash : string -> string).

(** [RenderPair::new]: the template is read and parsed. *)
Definition RenderPair_new (concrete_path template_path : string) : M (option RenderPair) :=
  r ← read_file template_path;
  mret (template ← r; if parses template then Some (mkRenderPair concrete_path template) else None).

(** [Hook::new] and the functions for the paths of the logs. *)
Definition log_path (suffix : string) (k : HookKind.t) (service_group : ServiceGroup.t) : outcome string :=
  service ← ServiceGroup.service service_group;
  Return (join_path (svc_logs_path root service) (HookKind.file_name k +:+ suffix)).

Definition new (k : HookKind.t) (service_group : ServiceGroup.t) (rp : RenderPair) : outcome hook :=
  out ← log_path ".stdout.log" k service_group;
  err ← log_path ".stderr.log" k service_group;
  Return (mkHook rp out err).

Definition load (k : HookKind.t) (service_group : ServiceGroup.t) (concrete_path template_path : string)
    : M (option hook) :=
  let concrete := join_path concrete_path (HookKind.file_name k) in
  let template := join_path template_path (HookKind.file_name k) in
  found ← path_exists template;
  if found : bool then
    r ← RenderPair_new concrete template;
    match r with
    | None => mret None
    | Some rp => h ← from_outcome (new k service_group rp); mret (Some h)
    end
  else mret None.

(** [hash_file]: the file cannot be read, or its hash. *)
Definition hash_file (p : string) : M (option string) := r ← read_file p; mret (hash <$> r).

Definition hash_content (p : string) : M (option string) :=
  found ← path_exists p;
  if found : bool then hash_file p else mret (Some "").

(** Whether the file was written; [None] is an error. *)
Definition write_hook (content p : string) : M (option bool) :=
  let content_hash := hash content in
  existing ← hash_content p;
  match existing with
  | None => mret None
  | Some existing_hash =>
      if String.eqb existing_hash content_hash then mret (Some false)
      else
        r ← create_and_write p content;
        match r with
        | None => mret None
        | Some _ => mret (Some true)
        end
  end.

Definition compile (self : hook) (ctx : RenderContext.t) : M (option bool) :=
  match render (rp_template (render_pair self)) ctx with
  | None => mret None
  | Some content =>
      r ← write_hook content (path self);
      match r with
      | None => mret None
      | Some false => mret (Some false)
      | Some true =>
          p ← make_executable (path self);
          match p with
          | None => mret None
          | Some _ => mret (Some true)
          end
      end
  end.

(** [Hook::run]; the one of [RunHook] panics. *)
Definition run (k : HookKind.t) (self : hook) : M (HookKind.ExitValue k) :=
  if decide (k = HookKind.Run) then panics "The run hook is a an exception to the lifetime of a service."
  else
    child ← run_program (path self);
    match child with
    | CannotStart => mret (HookKind.default k)
    | Ran stdout stderr status =>
        _ ← HookOutput.stream_output (stdout_log_path self) (stderr_log_path self) stdout stderr;
        match status with
        | None => mret (HookKind.default k)
        | Some code =>
            log ← (if decide (k = HookKind.Suitability /\ code = Some 0%Z)
                   then HookOutput.stdout (stdout_log_path self) else mret None);
            mret (HookKind.handle_exit k log code)
        end
    end.

End with_libraries.
End Hook.

(** ** The table of hooks *)

(** The fields of the struct, by the kind of hook. *)
Definition HookTable : Type := HookKind.t -> option hook.

Module HookTable.
Section with_libraries.
  Context `{!RegexEngine} (root : string).
  Context (parses : string -> bool) (render : string -> RenderContext.t -> option string) (hash : string -> string).

Definition default : HookTable := fun _ => None.

Definition set (k : HookKind.t) (h : option hook) (self : HookTable) : HookTable :=
  fun k' => if decide (k' = k) then h else self k'.

Fixpoint load_kinds (service_group : ServiceGroup.t) (templates hooks_path : string) (l : list HookKind.t)
    (table : HookTable) : M HookTable :=
  match l with
  | [] => mret table
  | k :: l =>
      h ← Hook.load root parses k service_group hooks_path templates;
      load_kinds service_group templates hooks_path l (set k h table)
  end.

Definition load (service_group : ServiceGroup.t) (templates hooks_path : string) : M HookTable :=
  dir ← is_dir templates;
  if dir : bool then load_kinds service_group templates hooks_path HookKind.all default
  else mret default.

Definition compile_one (h : hook) (ctx : RenderContext.t) : M bool :=
  r ← Hook.compile render hash h ctx;
  mret (match r with Some status => status | None => false end).

(** The order in which [compile] visits the hooks. *)
Definition compile_order : list HookKind.t :=
  [HookKind.FileUpdated; HookKind.HealthCheck_; HookKind.Init; HookKind.Reload; HookKind.Reconfigure;
   HookKind.Suitability; HookKind.Run; HookKind.PostRun; HookKind.SmokeTest; HookKind.PostStop].

Fixpoint compile_kinds (self : HookTable) (ctx : RenderContext.t) (l : list HookKind.t) (changed : bool) : M bool :=
  match l with
  | [] => mret changed
  | k :: l =>
      match self k with
      | None => compile_kinds self ctx l changed
      | Some h => c ← compile_one h ctx; compile_kinds self ctx l (c || changed)%bool
      end
  end.

Definition compile (self : HookTable) (ctx : RenderContext.t) : M bool := compile_kinds self ctx compile_order false.
End with_libraries.
End HookTable.

(** ** Configuration files ([CfgRenderer] of [config.rs]) *)

(** The templates by their names. *)
Definition CfgRenderer : Type := gmap string string.

Module CfgRenderer.
Section with_libraries.
  Context `{!RegexEngine} (root : string).
  Context (parses : string -> bool) (render : string -> RenderContext.t -> option string) (hash : string -> string).

(** [register_template_file] for each entry; [None] is an error. *)
Fixpoint register (dir : string) (names : list string) (template : CfgRenderer) : M (option CfgRenderer) :=
  match names with
  | [] => mret (Some template)
  | name :: names =>
      r ← read_file (join_path dir name);
      match r with
      | None => mret None
      | Some text => if parses text then register dir names (<[name := text]> template) else mret None
      end
  end.

Definition new (templates_path : string) : M (option CfgRenderer) :=
  entries ← read_dir templates_path;
  register templates_path entries ∅.

(** One file: an existing file that cannot be read is taken for a missing one. *)
Definition compile_one (cfg_dest template : string) (ctx : RenderContext.t) : M (option bool) :=
  match render template ctx with
  | None => mret None
  | Some compiled =>
      let compiled_hash := hash compiled in
      r ← Hook.hash_file hash cfg_dest;
      let file_hash := match r with Some file_hash => file_hash | None => "" end in
      if String.eqb file_hash "" then
        w ← create_and_write cfg_dest compiled;
        mret (match w with Some _ => Some true | None => None end)
      else if String.eqb file_hash compiled_hash then mret (Some false)
      else
        w ← create_and_write cfg_dest compiled;
        mret (match w with Some _ => Some true | None => None end)
  end.

(** The loop ends at the first error. *)
Fixpoint compile_loop (dir : string) (ctx : RenderContext.t) (l : list (string * string)) (changed : bool)
    : M (option bool) :=
  match l with
  | [] => mret (Some changed)
  | (name, template) :: l =>
      r ← compile_one (join_path dir name) template ctx;
      match r with
      | None => mret None
      | Some c => compile_loop dir ctx l (c || changed)%bool
      end
  end.

Definition compile (o : order) (self : CfgRenderer) (svc_config_path : string) (ctx : RenderContext.t) : M (option bool) :=
  compile_loop svc_config_path ctx (permute o (map_to_list self)) false.
End with_libraries.
End CfgRenderer.
