(* ===== verification/ProcSupervisor.v ===== *)
(** * The supervisor of a process

    Models [components/sup/src/manager/service/supervisor.rs]: one process of a service, the file
    with its number, and the requests to the Launcher that start, restart and end it. *)

From Stdlib Require Import Ascii.
From stdpp Require Import pretty.
From S2P Require Import Prelude Regex ServiceGroup Ident Text Metadata Host.
Local Open Scope string_scope.
Local Open Scope list_scope.

Module ProcessState.
Inductive t := Down | Up.
#[global] Instance eq_dec : EqDecision t.
Proof. solve_decision. Defined.
Definition to_string (self : t) : string := match self with Down => "down" | Up => "up" end.
End ProcessState.

(** [str::parse::<i32>]. *)
Definition parse_i32 (s : string) : option Z :=
  let bounded (limit : Z) (digits : chars) : option Z :=
    match digits with
    | [] => None
    | _ => match parse_digits 0 digits with
           | Ok n => if bool_decide (n <= limit)%Z then Some n else None
           | Err _ => None
           end
    end in
  match to_chars s with
  | c :: t =>
      if Ascii.eqb c "-" then Z.opp <$> bounded (2 ^ 31)%Z t
      else if Ascii.eqb c "+" then bounded (2 ^ 31 - 1)%Z t
      else bounded (2 ^ 31 - 1)%Z (c :: t)
  | [] => None
  end.

Inductive pid_error := PidFileCorrupt (path : string) | PidFileIO (path : string).

Module Supervisor.
Record t := mk {
  preamble : string;
  state : ProcessState.t;
  state_entered : Z;
  pid : option Z;
  pid_file : string;
}.

Definition set_pid (p : option Z) (self : t) : t :=
  mk (preamble self) (state self) (state_entered self) p (pid_file self).

Definition new `{!RegexEngine} (root : string) (service_group : ServiceGroup.t) : M t :=
  now ← gets clock;
  service ← from_outcome (ServiceGroup.service service_group);
  mret (mk (ServiceGroup.as_str service_group) ProcessState.Down now None (svc_pid_file root service)).

Definition change_state (st : ProcessState.t) (self : t) : M t :=
  if decide (state self = st) then mret self
  else now ← gets clock; mret (mk (preamble self) st now (pid self) (pid_file self)).

Definition cleanup_pidfile (self : t) : M unit := remove_file (pid_file self).

(** [None] is an error. *)
Definition create_pidfile (self : t) : M (option unit) :=
  match pid self with
  | Some p => create_and_write (pid_file self) (pretty p)
  | None => mret (Some tt)
  end.

Definition read_pid (file : string) : M (result pid_error Z) :=
  r ← read_file file;
  mret (match r with
        | None => Err (PidFileIO file)
        | Some contents =>
            match head (lines contents) with
            | Some line => match parse_i32 line with Some p => Ok p | None => Err (PidFileCorrupt file) end
            | None => Err (PidFileCorrupt file)
            end
        end).

(** The number is the known one, or that of the file, which must be readable. *)
Definition known_pid (self : t) : M (option Z) :=
  match pid self with
  | Some p => mret (Some p)
  | None =>
      found ← path_exists (pid_file self);
      if found : bool then
        r ← read_pid (pid_file self);
        match r with
        | Ok p => mret (Some p)
        | Err _ => panics "unwrap of read_pid"
        end
      else mret None
  end.

(** [process::is_alive] is [kill(pid, 0)].  The numbers of processes are positive, as those are that
    the Launcher replies; that the call asks for a process group when the file has another number
    is not modelled. *)
Definition check_process (self : t) : M (t * bool) :=
  p ← known_pid self;
  live ← gets (fun h => match p with Some p => bool_decide (p ∈ alive h) | None => false end);
  if live : bool then
    self ← change_state ProcessState.Up self;
    mret (set_pid p self, true)
  else
    self ← change_state ProcessState.Down self;
    _ ← cleanup_pidfile self;
    mret (set_pid None self, false).

Definition start (group : ServiceGroup.t) (self : t) : M (t * option unit) :=
  r ← launcher_spawn (ServiceGroup.as_str group);
  match r with
  | None => mret (self, None)
  | Some p =>
      let self := set_pid (Some p) self in
      w ← create_pidfile self;
      match w with
      | None => mret (self, None)
      | Some _ => self ← change_state ProcessState.Up self; mret (self, Some tt)
      end
  end.

Definition status (self : t) : bool := match state self with ProcessState.Up => true | ProcessState.Down => false end.

Definition stop (self : t) : M (t * option unit) :=
  match pid self with
  | None => mret (self, Some tt)
  | Some p =>
      r ← launcher_terminate p;
      match r with
      | None => mret (self, None)
      | Some _ =>
          _ ← cleanup_pidfile self;
          self ← change_state ProcessState.Down self;
          mret (self, Some tt)
      end
  end.

Definition restart (group : ServiceGroup.t) (self : t) : M (t * option unit) :=
  match pid self with
  | Some p =>
      r ← launcher_restart p;
      match r with
      | Some p =>
          let self := set_pid (Some p) self in
          w ← create_pidfile self;
          match w with
          | None => mret (self, None)
          | Some _ => self ← change_state ProcessState.Up self; mret (self, Some tt)
          end
      | None =>
          _ ← cleanup_pidfile self;
          self ← change_state ProcessState.Down self;
          mret (self, None)
      end
  | None => start group self
  end.
End Supervisor.

(** ** Numbers of processes as text *)

Lemma digit_pretty x : (x < 10)%N -> digit (pretty_N_char x) = Some (Z.of_N x).
Proof. intros H. destruct x as [|p]; [done|]. by do 4 (destruct p as [p|p|]; try done). Qed.

Lemma parse_pretty_go x s :
  (Z.of_N x < u64_modulus)%Z ->
  parse_digits 0 (to_chars (pretty_N_go x s)) = parse_digits (Z.of_N x) (to_chars s).
Proof.
  revert s. induction (N.lt_wf_0 x) as [x _ IH]. intros s H.
  destruct (decide (x = 0)%N) as [->|Hx]; [done|].
  rewrite pretty_N_go_step by lia.
  assert (Hd : (x / 10 < x)%N) by (apply N.div_lt; lia).
  rewrite IH by (try apply Hd; lia). cbn [to_chars String.list_ascii_of_string parse_digits].
  rewrite digit_pretty by (apply N.mod_lt; lia).
  rewrite N2Z.inj_div, N2Z.inj_mod.
  replace (Z.of_N x / Z.of_N 10 * 10 + Z.of_N x `mod` Z.of_N 10)%Z with (Z.of_N x).
  2: { rewrite (Z.div_mod (Z.of_N x) (Z.of_N 10)) at 1; lia. }
  by rewrite bool_decide_true by lia.
Qed.

Definition is_digit (c : ascii) : Prop := exists x, (x < 10)%N /\ c = pretty_N_char x.

Lemma pretty_go_digits x s : Forall is_digit (to_chars s) -> Forall is_digit (to_chars (pretty_N_go x s)).
Proof.
  revert s. induction (N.lt_wf_0 x) as [x _ IH]. intros s H.
  destruct (decide (x = 0)%N) as [->|Hx]; [done|].
  rewrite pretty_N_go_step by lia. apply IH; [apply N.div_lt; lia|].
  constructor; [|done]. exists (x `mod` 10)%N. split; [apply N.mod_lt; lia|done].
Qed.

Lemma pretty_go_nonempty x s : (0 < x)%N -> to_chars (pretty_N_go x s) <> [].
Proof.
  intros H. rewrite pretty_N_go_step by lia. generalize (x / 10)%N (pretty_N_char (x `mod` 10)). clear x H.
  intros x c. revert c s. induction (N.lt_wf_0 x) as [x _ IH]. intros c s.
  destruct (decide (x = 0)%N) as [->|Hx]; [done|].
  rewrite pretty_N_go_step by lia. apply IH, N.div_lt; lia.
Qed.

(** The text of a number without a sign. *)
Lemma pretty_pid p (s := to_chars (pretty p)) :
  (0 <= p < 2 ^ 31)%Z -> Forall is_digit s /\ s <> [] /\ parse_digits 0 s = Ok p.
Proof.
  intros H. subst s. destruct p as [|p|p]; [| |lia].
  - split; [|done]. constructor; [|constructor]. by exists 0%N.
  - assert (E : pretty (Z.pos p) = pretty_N_go (N.pos p) "") by reflexivity. rewrite E. split_and!.
    + by apply pretty_go_digits.
    + by apply pretty_go_nonempty.
    + rewrite parse_pretty_go; [done|]. unfold u64_modulus. cbn. lia.
Qed.

Lemma digit_not_special c : is_digit c -> c <> "-"%char /\ c <> "+"%char /\ c <> LF /\ c <> CR.
Proof.
  intros (x & H & ->). destruct x as [|p]; [done|]. by do 4 (destruct p as [p|p|]; try done).
Qed.

Lemma lines_digits s : Forall is_digit (to_chars s) -> to_chars s <> [] -> lines s = [s].
Proof.
  intros H Hn. unfold lines. rewrite split_chars_last.
  2: { intros Hin. rewrite Forall_forall in H. by apply H, digit_not_special in Hin as (_ & _ & ? & _). }
  unfold drop_last_empty. cbn [rev app]. destruct (to_chars s) as [|c l] eqn:E; [done|].
  cbn [fmap list_fmap compose]. f_equal. unfold compose, strip_cr.
  destruct (rev (c :: l)) as [|d l'] eqn:Er.
  { apply (f_equal (@length _)) in Er. rewrite length_rev in Er. done. }
  assert (Hd : is_digit d).
  { rewrite Forall_forall in H. apply H. apply list_elem_of_In, in_rev. rewrite Er. by left. }
  apply digit_not_special in Hd as (_ & _ & _ & Hd). destruct (Ascii.eqb_spec d CR); [done|].
  by rewrite <- E, of_to_chars.
Qed.

(** The number that is written to the file is the one that is read. *)
Lemma parse_pretty_pid p : (0 <= p < 2 ^ 31)%Z -> lines (pretty p) = [pretty p] /\ parse_i32 (pretty p) = Some p.
Proof.
  intros H. destruct (pretty_pid p H) as (Hd & Hn & Hp). split; [by apply lines_digits|].
  unfold parse_i32. destruct (to_chars (pretty p)) as [|c l]; [done|].
  inversion Hd as [|? ? Hc _]. subst. apply digit_not_special in Hc as (H1 & H2 & _).
  destruct (Ascii.eqb_spec c "-"); [done|]. destruct (Ascii.eqb_spec c "+"); [done|].
  rewrite Hp, bool_decide_true by lia. done.
Qed.
