(* ===== verification/ServiceRun.v ===== *)
(** * The life of a service

    Models [components/sup/src/manager/service/mod.rs]: what the Supervisor does for a service in
    each tick.  It waits for the services the service is bound to, renders the templates from the
    census, writes the files that were gossiped to the group, and then, for the topology Leader
    only once the election is finished, starts the process, watches over it, and restarts or
    reloads it when something changed. *)

From Stdlib Require Import Ascii.
From stdpp Require Import pretty.
From S2P Require Import Prelude Regex Text ServiceGroup Ident Target Metadata Install ServiceSpec SpecWatcher Manager.
From S2P Require Import Member Messages Rumor Kinds Election Server Census Updater.
From S2P Require Import Cfg Templating Host Hooks ProcSupervisor.
Local Open Scope string_scope.
Local Open Scope list_scope.

Definition HEALTH_CHECK_INTERVAL : Z := 30000.

(** The path of components as text. *)
Definition path_text (l : list string) : string := foldl (fun s c => s +:+ "/" +:+ c) "" l.

Module RunService.
(** [core] has the fields that the specification gives; [sys], [health_check] and [smoke_check]
    do not change and are left out. *)
Record t := mk {
  core : SupService.t;
  cfg : Cfg.t;
  config_renderer : CfgRenderer;
  hooks : HookTable;
  last_election_status : ElectionStatus.t;
  needs_reload : bool;
  needs_reconfiguration : bool;
  last_health_check : option Z;
  supervisor : Supervisor.t;
}.

Definition service_group (self : t) : ServiceGroup.t := SupService.service_group (core self).
Definition pkg (self : t) : Pkg.t := SupService.pkg (core self).
Definition initialized (self : t) : bool := SupService.initialized (core self).
Definition pkg_name (self : t) : string := PackageIdent.name (Pkg.ident (pkg self)).

Definition set_initialized_core (b : bool) (s : SupService.t) : SupService.t :=
  SupService.mk (SupService.service_group s) (SupService.bldr_url s) (SupService.channel s) (SupService.spec_file s)
    (SupService.spec_ident s) (SupService.start_style s) (SupService.topology s) (SupService.update_strategy s)
    (SupService.pkg s) b (SupService.binds s) (SupService.config_from s) (SupService.svc_encrypted_password s)
    (SupService.composite s).

Definition set_core (c : SupService.t) (self : t) : t :=
  mk c (cfg self) (config_renderer self) (hooks self) (last_election_status self) (needs_reload self)
    (needs_reconfiguration self) (last_health_check self) (supervisor self).
Definition set_initialized (b : bool) (self : t) : t := set_core (set_initialized_core b (core self)) self.
Definition set_cfg (c : Cfg.t) (self : t) : t :=
  mk (core self) c (config_renderer self) (hooks self) (last_election_status self) (needs_reload self)
    (needs_reconfiguration self) (last_health_check self) (supervisor self).
Definition set_templates (r : CfgRenderer) (h : HookTable) (self : t) : t :=
  mk (core self) (cfg self) r h (last_election_status self) (needs_reload self)
    (needs_reconfiguration self) (last_health_check self) (supervisor self).
Definition set_election_status (s : ElectionStatus.t) (self : t) : t :=
  mk (core self) (cfg self) (config_renderer self) (hooks self) s (needs_reload self)
    (needs_reconfiguration self) (last_health_check self) (supervisor self).
Definition set_needs (reload reconfiguration : bool) (self : t) : t :=
  mk (core self) (cfg self) (config_renderer self) (hooks self) (last_election_status self) reload
    reconfiguration (last_health_check self) (supervisor self).
Definition set_last_health_check (c : option Z) (self : t) : t :=
  mk (core self) (cfg self) (config_renderer self) (hooks self) (last_election_status self) (needs_reload self)
    (needs_reconfiguration self) c (supervisor self).
Definition set_supervisor (s : Supervisor.t) (self : t) : t :=
  mk (core self) (cfg self) (config_renderer self) (hooks self) (last_election_status self) (needs_reload self)
    (needs_reconfiguration self) (last_health_check self) s.

(** [Service::config_root] and [hooks_root]. *)
Definition config_root (package : Pkg.t) (config_from : option string) : string :=
  join_path (default (path_text (Pkg.path package)) config_from) "config".
Definition hooks_root (package : Pkg.t) (config_from : option string) : string :=
  join_path (default (path_text (Pkg.path package)) config_from) "hooks".

Section with_libraries.
  Context `{!RegexEngine} (o : order) (root data_path : string).
  Context (parses : string -> bool) (render : string -> RenderContext.t -> option string) (hash : string -> string).

(** The part of [Service::new] behind the fields of the specification, with the configuration it
    loads; [None] is an error. *)
Definition new_rest (core : SupService.t) (loaded : result cfg_error Cfg.t) : M (option t) :=
  let package := SupService.pkg core in
  let config_from := SupService.config_from core in
  match loaded with
  | Err _ => mret None
  | Ok cfg =>
      renderer ← CfgRenderer.new parses (config_root package config_from);
      match renderer with
      | None => mret None
      | Some renderer =>
          service ← from_outcome (ServiceGroup.service (SupService.service_group core));
          table ← HookTable.load root parses (SupService.service_group core) (hooks_root package config_from)
                    (svc_hooks_path root service);
          sup ← Supervisor.new root (SupService.service_group core);
          mret (Some (mk core cfg renderer table ElectionStatus.None_ false false None sup))
      end
  end.

(** ** Files of the service *)

Definition run_hook (k : HookKind.t) (self : t) : M (option (HookKind.ExitValue k)) :=
  match hooks self k with
  | Some h => v ← Hook.run k h; mret (Some v)
  | None => mret None
  end.

(** [write_all] is buffered: the bytes are written when the file is closed, after the rename. *)
Definition cache_health_check (check_result : HealthCheck.t) (self : t) : M unit :=
  service ← from_outcome (ServiceGroup.service (service_group self));
  let state_file := join_path data_path (service +:+ ".health") in
  let tmp_file := join_path data_path (service +:+ ".tmp") in
  file ← create_file tmp_file;
  match file with
  | None => mret tt
  | Some _ =>
      r ← rename tmp_file state_file;
      _ ← append (match r with Some _ => state_file | None => tmp_file end) (pretty (HealthCheck.as_i8 check_result));
      mret tt
  end.

Definition run_health_check_hook (self : t) : M t :=
  r ← run_hook HookKind.HealthCheck_ self;
  let check_result :=
    match r with
    | Some v => v
    | None => if Supervisor.status (supervisor self) then HealthCheck.Ok else HealthCheck.Critical
    end in
  now ← gets clock;
  _ ← cache_health_check check_result self;
  mret (set_last_health_check (Some now) self).

(** Whether the file was replaced; an existing one that cannot be read is replaced too. *)
Definition write_cache_file (file contents : string) : M bool :=
  r ← Hook.hash_file hash file;
  let current_checksum := default "" r in
  let new_checksum := hash contents in
  if String.eqb new_checksum current_checksum then mret false
  else
    let new_filename := file +:+ ".write" in
    c ← create_and_write new_filename contents;
    match c with
    | None => mret false
    | Some _ =>
        m ← rename new_filename file;
        match m with
        | None => mret false
        | Some _ =>
            ow ← set_mode file;
            match ow with
            | None => mret false
            | Some _ =>
                p ← set_mode file;
                mret (match p with Some _ => true | None => false end)
            end
        end
    end.

Definition cache_service_file (service_file : ServiceFileEntry.t) (self : t) : M bool :=
  write_cache_file (join_path (svc_files_path root (pkg_name self)) (ServiceFileEntry.filename service_file))
    (String.string_of_list_byte (ServiceFileEntry.body service_file)).

Fixpoint cache_files (l : list ServiceFileEntry.t) (self : t) (updated : bool) : M bool :=
  match l with
  | [] => mret updated
  | f :: l => u ← cache_service_file f self; cache_files l self (u || updated)%bool
  end.

Definition update_service_files (ring : census_ring) (self : t) : M bool :=
  group ← expects "Service update service files failed; unable to find own service group"
            (CensusRing.census_group_for ring (service_group self));
  changed ← from_outcome (CensusGroup.changed_service_files group);
  cache_files changed self false.

Definition file_updated (self : t) : M bool :=
  if initialized self then r ← run_hook HookKind.FileUpdated self; mret (default false r) else mret false.

(** ** Templates *)

Definition copy_run (self : t) : M (option unit) :=
  let svc_run := join_path (svc_path root (pkg_name self)) (HookKind.file_name HookKind.Run) in
  match hooks self HookKind.Run with
  | Some h =>
      c ← copy_file (path h) svc_run;
      match c with
      | None => mret None
      | Some _ => make_executable svc_run
      end
  | None =>
      let run := join_path (path_text (Pkg.path (pkg self))) (HookKind.file_name HookKind.Run) in
      found ← path_exists run;
      if found : bool then
        c ← copy_file run svc_run;
        match c with
        | None => mret None
        | Some _ => make_executable svc_run
        end
      else mret (Some tt)
  end.

Definition compile_hooks (ctx : RenderContext.t) (self : t) : M bool :=
  changed ← HookTable.compile render hash (hooks self) ctx;
  _ ← copy_run self;
  mret changed.

Definition compile_configuration (ctx : RenderContext.t) (self : t) : M bool :=
  r ← CfgRenderer.compile render hash o (config_renderer self) (svc_config_path root (pkg_name self)) ctx;
  mret (match r with Some true => true | Some false => false | None => false end).

Definition render_context (ring : census_ring) (self : t) : outcome RenderContext.t :=
  RenderContext.new (service_group self) (pkg self) (cfg self) ring (SupService.binds (core self)).

Definition update_templates (ring : census_ring) (self : t) : M (t * bool) :=
  group ← expects "Service update failed; unable to find own service group"
            (CensusRing.census_group_for ring (service_group self));
  let '(cfg, cfg_updated) := Cfg.update group (cfg self) in
  let self := set_cfg cfg self in
  if (cfg_updated || CensusRing.changed ring)%bool then
    ctx ← from_outcome (render_context ring self);
    reload ← compile_hooks ctx self;
    reconfigure ← compile_configuration ctx self;
    mret (set_needs reload reconfigure self, cfg_updated)
  else mret (self, cfg_updated).

(** ** The process *)

Definition process_down (self : t) : bool := bool_decide (Supervisor.state (supervisor self) = ProcessState.Down).

Definition check_process (self : t) : M (t * bool) :=
  '(sup, b) ← Supervisor.check_process (supervisor self);
  mret (set_supervisor sup self, b).

Definition start (self : t) : M t :=
  '(sup, r) ← Supervisor.start (service_group self) (supervisor self);
  let self := set_supervisor sup self in
  mret (match r with Some _ => set_needs false false self | None => self end).

Definition post_run (self : t) : M unit := _ ← run_hook HookKind.PostRun self; mret tt.
Definition post_stop (self : t) : M unit := _ ← run_hook HookKind.PostStop self; mret tt.

Definition stop (self : t) : M t :=
  '(sup, r) ← Supervisor.stop (supervisor self);
  let self := set_supervisor sup self in
  match r with
  | Some _ => _ ← post_stop self; mret self
  | None => mret self
  end.

Definition reload (self : t) : M t :=
  let self := set_needs false (needs_reconfiguration self) self in
  if (process_down self || bool_decide (hooks self HookKind.Reload = None))%bool then
    '(sup, _) ← Supervisor.restart (service_group self) (supervisor self);
    mret (set_supervisor sup self)
  else _ ← run_hook HookKind.Reload self; mret self.

Definition reconfigure (self : t) : M t :=
  let self := set_needs (needs_reload self) false self in
  _ ← run_hook HookKind.Reconfigure self;
  mret self.

Definition initialize (self : t) : M t :=
  if initialized self then mret self
  else
    let self := set_initialized true self in
    r ← run_hook HookKind.Init self;
    mret (match r with Some b => set_initialized b self | None => self end).

Definition suitability (self : t) : M (option Z) :=
  if initialized self then r ← run_hook HookKind.Suitability self; mret (r ≫= id) else mret None.

(** Whether the health check is due. *)
Definition health_check_due (now : Z) (self : t) : bool :=
  match last_health_check self with
  | Some last_check => bool_decide (HEALTH_CHECK_INTERVAL <= now - last_check)%Z
  | None => true
  end.

Definition execute_hooks (self : t) : M t :=
  if initialized self then
    '(self, _) ← check_process self;
    now ← gets clock;
    self ← (if health_check_due now self then run_health_check_hook self else mret self);
    if (needs_reload self || process_down self || needs_reconfiguration self)%bool then
      self ← reload self;
      if needs_reconfiguration self then reconfigure self else mret self
    else mret self
  else
    '(self, live) ← check_process self;
    if live : bool then mret (set_initialized true self)
    else
      self ← initialize self;
      if initialized self then
        self ← start self;
        _ ← post_run self;
        mret self
      else mret self.

(** ** The tick *)

Definition all_binds_satisfied (ring : census_ring) (self : t) : bool :=
  foldl (fun (ret : bool) bind =>
    match CensusRing.census_group_for ring (ServiceBind.service_group bind) with
    | Some group => if forallb (fun m => negb (CensusMember.alive m)) (CensusGroup.members group) then false else ret
    | None => false
    end) true (SupService.binds (core self)).

(** The end of a tick, for the topology. *)
Definition act_for_topology (ring : census_ring) (self : t) : M t :=
  match SupService.topology (core self) with
  | Topology.Standalone => execute_hooks self
  | Topology.Leader =>
      group ← expects "Service Group's census entry missing from list!"
                (CensusRing.census_group_for ring (service_group self));
      let noted := if decide (last_election_status self = CensusGroup.election_status group) then self
                   else set_election_status (CensusGroup.election_status group) self in
      match CensusGroup.election_status group with
      | ElectionStatus.ElectionFinished =>
          _ ← expects "No leader with finished election" (CensusGroup.leader_id group);
          execute_hooks noted
      | _ => mret noted
      end
  end.

Definition tick (ring : census_ring) (self : t) : M (t * bool) :=
  if (negb (initialized self) && negb (all_binds_satisfied ring self))%bool then mret (self, false)
  else
    '(self, svc_updated) ← update_templates ring self;
    updated ← update_service_files ring self;
    _ ← (if updated : bool then file_updated self else mret false);
    self ← act_for_topology ring self;
    mret (self, svc_updated).

(** [Service::update_package]: [loaded] is [Pkg::from_install]. *)
Definition update_package (loaded : result sup_error Pkg.t) (self : t) : M t :=
  match loaded with
  | Err _ => mret self
  | Ok new_pkg =>
      renderer ← CfgRenderer.new parses (config_root new_pkg (SupService.config_from (core self)));
      match renderer with
      | None => mret self
      | Some renderer =>
          service ← from_outcome (ServiceGroup.service (service_group self));
          table ← HookTable.load root parses (service_group self)
                    (hooks_root new_pkg (SupService.config_from (core self))) (svc_hooks_path root service);
          let self := set_core (ServiceUpdater.set_pkg new_pkg (core self)) (set_templates renderer table self) in
          '(sup, _) ← Supervisor.stop (supervisor self);
          mret (set_initialized false (set_supervisor sup self))
      end
  end.
End with_libraries.
End RunService.
