(* ===== verification/ServiceLogic.v ===== *)
(** * Reasoning about services

    A judgement for computations on the machine of [Host] that tells, for every state of the
    machine that satisfies an invariant, with which messages the computation may panic, what it
    returns, and how it may change the machine.  The rules follow the structure of the code, so
    that one derivation for each function of [Hooks], [ProcSupervisor] and [ServiceRun] serves
    several properties. *)

From Stdlib Require Import Ascii.
From stdpp Require Import pretty.
From S2P Require Import Prelude Regex Text ServiceGroup Ident Target Metadata Install ServiceSpec SpecWatcher Manager.
From S2P Require Import Member Messages Rumor Kinds Election Server Census CensusProofs Updater.
From S2P Require Import Cfg Templating Host Hooks ProcSupervisor ServiceRun.
Local Open Scope string_scope.
Local Open Scope list_scope.

(** Only files change. *)
Record untouched (h h' : host) : Prop := {
  un_dirs : dirs h' = dirs h;
  un_alive : alive h' = alive h;
  un_replies : replies h' = replies h;
  un_runs : runs h' = runs h;
  un_clock : clock h' = clock h;
  un_done : done_ h' = done_ h;
  un_faults : faults h' `suffix_of` faults h;
}.

#[export] Instance untouched_preorder : PreOrder untouched.
Proof.
  split.
  - intros h. split; try done.
  - intros h1 h2 h3 [] []. split; try congruence. by etrans.
Qed.

Definition is_launcher (a : action) : bool := match a with RunProgram _ => false | _ => true end.
(** What was asked of the Launcher. *)
Definition launched (h : host) : list action := filter (fun a => is_launcher a = true) (done_ h).

(** Files change and programs run, but nothing is asked of the Launcher. *)
Record idle (h h' : host) : Prop := {
  id_dirs : dirs h' = dirs h;
  id_alive : alive h' = alive h;
  id_replies : replies h' = replies h;
  id_clock : clock h' = clock h;
  id_launched : launched h' = launched h;
  id_faults : faults h' `suffix_of` faults h;
}.

#[export] Instance idle_preorder : PreOrder idle.
Proof.
  split.
  - intros h. split; try done.
  - intros h1 h2 h3 [] []. split; try congruence. by etrans.
Qed.

Lemma untouched_idle h h' : untouched h h' -> idle h h'.
Proof. intros []. split; try done. unfold launched. congruence. Qed.

(** ** The judgement *)
Definition safe (E : string -> Prop) (I : host -> Prop) (R : relation host) {A} (c : M A) (P : A -> Prop) : Prop :=
  forall h, I h ->
    match c h with
    | (h', Return a) => P a /\ I h' /\ R h h'
    | (h', Panic m) => E m /\ R h h'
    end.

Section rules.
Context (E : string -> Prop) (I : host -> Prop) (R : relation host) `{!PreOrder R}.

Lemma safe_ret {A} (a : A) (P : A -> Prop) : P a -> safe E I R (mret a) P.
Proof. intros Ha h Hh. split_and!; [done..|reflexivity]. Qed.

Lemma safe_bind {A B} (c : M A) (k : A -> M B) (P : A -> Prop) (Q : B -> Prop) :
  safe E I R c P -> (forall a, P a -> safe E I R (k a) Q) -> safe E I R (c ≫= k) Q.
Proof.
  intros Hc Hk h Hh. unfold mbind, M_bind. specialize (Hc h Hh). destruct (c h) as [h' [a|m]]; [|done].
  destruct Hc as (Ha & Hh' & HR). specialize (Hk a Ha h' Hh'). destruct (k a h') as [h'' [b|m]].
  - destruct Hk as (? & ? & ?). split_and!; [done..|by etrans].
  - destruct Hk. split; [done|by etrans].
Qed.

Lemma safe_mono {A} (c : M A) (P Q : A -> Prop) : safe E I R c P -> (forall a, P a -> Q a) -> safe E I R c Q.
Proof. intros Hc HPQ h Hh. specialize (Hc h Hh). destruct (c h) as [h' [a|m]]; [|done]. naive_solver. Qed.

Lemma safe_any {A} (c : M A) (P : A -> Prop) : safe E I R c P -> safe E I R c (fun _ => True).
Proof. intros Hc. by eapply safe_mono. Qed.

Lemma safe_gets {A} (f : host -> A) : safe E I R (gets f) (fun a => exists h, I h /\ a = f h).
Proof. intros h Hh. split_and!; [by exists h|done|reflexivity]. Qed.

Lemma safe_modifies f : (forall h, I h -> I (f h) /\ R h (f h)) -> safe E I R (modifies f) (fun _ => True).
Proof. intros Hf h Hh. cbn. destruct (Hf h Hh). done. Qed.

Lemma safe_panics {A} m (P : A -> Prop) : E m -> safe E I R (panics m) P.
Proof. intros Hm h Hh. split; [done|reflexivity]. Qed.

Lemma safe_expects {A} m (o : option A) : (o = None -> E m) -> safe E I R (expects m o) (fun a => o = Some a).
Proof. intros Hm h Hh. destruct o; cbn; split; try done; try split; try done; auto; reflexivity. Qed.

Lemma safe_outcome {A} (c : outcome A) (P : A -> Prop) : Returns c P -> safe E I R (from_outcome c) P.
Proof. intros (a & -> & Ha)%Returns_inv h Hh. cbn. split_and!; [done..|reflexivity]. Qed.

End rules.

(** Going through the code: one step at a time, the rules for operations from the hints. *)
Create HintDb safe discriminated.
Ltac safe_step :=
  lazymatch goal with
  | |- safe _ _ _ (mret _) _ => refine (safe_ret _ _ _ _ _ _)
  | |- safe _ _ _ (match ?x with _ => _ end) _ => destruct x eqn:?
  | |- safe _ _ _ ((match ?x with _ => _ end) _) _ => destruct x eqn:?
  | |- safe _ _ _ (_ ≫= _) _ => refine (safe_bind _ _ _ _ _ _ _ _ _); [solve [eauto with safe]|cbn beta; intros ? ?]
  | |- safe _ _ _ (let _ := _ in _) _ => cbn zeta
  end.
Ltac safe_go := cbn beta zeta; repeat (safe_step; cbn beta zeta).

(** ** File operations *)
Section file_operations.
Context (E : string -> Prop) (I : host -> Prop) (R : relation host) `{!PreOrder R}.
Context (untouched_R : forall h h', untouched h h' -> R h h').
Context (untouched_I : forall h h', untouched h h' -> I h -> I h').
Abbreviation safe c P := (safe E I R c P).
Abbreviation any := (fun _ => True).

Lemma safe_files f : (forall h, untouched h (f h)) -> safe (modifies f) any.
Proof. intros Hf. apply safe_modifies. eauto. Qed.

Lemma safe_next_fault : safe next_fault any.
Proof.
  intros h Hh. unfold next_fault. destruct (faults h) as [|b l] eqn:Ef; [split_and!; [done..|reflexivity]|].
  assert (untouched h (set_faults l h)) by (split; try done; cbn; rewrite Ef; by exists [b]). eauto.
Qed.

Lemma safe_gets_any {A} (f : host -> A) : safe (gets f) any.
Proof. eapply safe_any. by apply safe_gets. Qed.

#[local] Hint Resolve safe_next_fault safe_gets_any : safe.
#[local] Hint Extern 3 (ServiceLogic.safe _ _ _ (modifies _) _) => apply safe_files; intros; split; done : safe.

Lemma safe_path_exists p : safe (path_exists p) any. Proof. apply safe_gets_any. Qed.
Lemma safe_is_dir p : safe (is_dir p) any. Proof. apply safe_gets_any. Qed.
Lemma safe_read_dir p : safe (read_dir p) any. Proof. apply safe_gets_any. Qed.
#[local] Hint Resolve safe_path_exists safe_is_dir safe_read_dir : safe.
Lemma safe_read_file p : safe (read_file p) any.
Proof. unfold read_file. safe_go. auto with safe. Qed.
Lemma safe_create_file p : safe (create_file p) any.
Proof. unfold create_file. by safe_go. Qed.
Lemma safe_append p s : safe (append p s) any.
Proof. unfold append. by safe_go. Qed.
#[local] Hint Resolve safe_read_file safe_create_file safe_append : safe.
Lemma safe_create_and_write p s : safe (create_and_write p s) any.
Proof. unfold create_and_write. safe_go; auto with safe. Qed.
Lemma safe_rename p q : safe (rename p q) any.
Proof. unfold rename. by safe_go. Qed.
Lemma safe_remove_file p : safe (remove_file p) any.
Proof. unfold remove_file. safe_go; auto with safe. Qed.
Lemma safe_copy_file p q : safe (copy_file p q) any.
Proof. unfold copy_file. by safe_go. Qed.
Lemma safe_make_executable p : safe (make_executable p) any.
Proof. unfold make_executable. by safe_go. Qed.
Lemma safe_set_mode p : safe (set_mode p) any.
Proof. unfold set_mode. by safe_go. Qed.
End file_operations.
#[export] Hint Resolve safe_next_fault safe_gets_any safe_path_exists safe_is_dir safe_read_dir safe_read_file
  safe_create_file safe_append safe_create_and_write safe_rename safe_remove_file safe_copy_file
  safe_make_executable safe_set_mode : safe.

(** ** Rendering *)
Section rendering.
Context (E : string -> Prop) (I : host -> Prop) (R : relation host) `{!PreOrder R} `{!RegexEngine}.
Context (untouched_R : forall h h', untouched h h' -> R h h').
Context (untouched_I : forall h h', untouched h h' -> I h -> I h').
Context (o : order) (root : string).
Context (render : string -> RenderContext.t -> option string) (hash : string -> string).
Abbreviation safe c P := (safe E I R c P).
Abbreviation any := (fun _ => True).

Lemma safe_hash_file p : safe (Hook.hash_file hash p) any.
Proof. unfold Hook.hash_file. by safe_go. Qed.
#[local] Hint Resolve safe_hash_file : safe.

Lemma safe_hash_content p : safe (Hook.hash_content hash p) any.
Proof. unfold Hook.hash_content. safe_go; auto with safe. Qed.
#[local] Hint Resolve safe_hash_content : safe.

Lemma safe_write_hook c p : safe (Hook.write_hook hash c p) any.
Proof. unfold Hook.write_hook. by safe_go. Qed.
#[local] Hint Resolve safe_write_hook : safe.

Lemma safe_hook_compile h ctx : safe (Hook.compile render hash h ctx) any.
Proof. unfold Hook.compile. by safe_go. Qed.
#[local] Hint Resolve safe_hook_compile : safe.

Lemma safe_compile_one h ctx : safe (HookTable.compile_one render hash h ctx) any.
Proof. unfold HookTable.compile_one. by safe_go. Qed.
#[local] Hint Resolve safe_compile_one : safe.

Lemma safe_compile_kinds table ctx l changed : safe (HookTable.compile_kinds render hash table ctx l changed) any.
Proof. revert changed. induction l as [|k l IH]; intros changed; cbn [HookTable.compile_kinds]; safe_go; auto. Qed.

Lemma safe_compile table ctx : safe (HookTable.compile render hash table ctx) any.
Proof. apply safe_compile_kinds. Qed.
#[local] Hint Resolve safe_compile : safe.

Lemma safe_cfg_compile_one p t ctx : safe (CfgRenderer.compile_one render hash p t ctx) any.
Proof. unfold CfgRenderer.compile_one. by safe_go. Qed.
#[local] Hint Resolve safe_cfg_compile_one : safe.

Lemma safe_cfg_compile r dir ctx : safe (CfgRenderer.compile render hash o r dir ctx) any.
Proof.
  unfold CfgRenderer.compile. generalize (permute o (map_to_list r)) false.
  intros l. induction l as [|[n t] l IH]; intros changed; cbn [CfgRenderer.compile_loop]; safe_go; auto.
Qed.
#[local] Hint Resolve safe_cfg_compile : safe.

Lemma safe_copy_run self : safe (RunService.copy_run root self) any.
Proof. unfold RunService.copy_run. safe_go; auto with safe. Qed.
#[local] Hint Resolve safe_copy_run : safe.

Lemma safe_compile_hooks ctx self : safe (RunService.compile_hooks root render hash ctx self) any.
Proof. unfold RunService.compile_hooks. by safe_go. Qed.
Lemma safe_compile_configuration ctx self : safe (RunService.compile_configuration o root render hash ctx self) any.
Proof. unfold RunService.compile_configuration. by safe_go. Qed.

Lemma safe_write_cache_file f s : safe (RunService.write_cache_file hash f s) any.
Proof. unfold RunService.write_cache_file. by safe_go. Qed.
#[local] Hint Resolve safe_write_cache_file : safe.

Lemma safe_cache_files l self u : safe (RunService.cache_files root hash l self u) any.
Proof.
  revert u. induction l as [|f l IH]; intros u; cbn [RunService.cache_files]; unfold RunService.cache_service_file;
    safe_go; auto.
Qed.
End rendering.
#[export] Hint Resolve safe_compile_hooks safe_compile_configuration safe_cache_files : safe.

(** ** What the census must show of a service *)

(** Its group is in the census, in order, with the Supervisor's own member. *)
Definition shown_in `{!RegexEngine} (ring : census_ring) (sg : ServiceGroup.t) (g : census_group) : Prop :=
  CensusRing.census_group_for ring sg = Some g /\ group_wf (CensusRing.local_member_id ring) sg g /\
  is_Some (CensusGroup.me g).

Lemma service_readable `{!RegexEngine} sg :
  ServiceGroup.from_str (ServiceGroup.as_str sg) = Ok sg ->
  exists svc grp org, ServiceGroup.service sg = Return svc /\ ServiceGroup.group sg = Return grp /\
    ServiceGroup.org sg = Return org.
Proof.
  intros Hp. destruct (parsed_service_group_is_readable _ _ Hp) as (_ & ae & svc & grp & org & (_ & H1 & H2 & H3) & _).
  by exists svc, grp, org.
Qed.

Lemma select_first_Some (g : census_group) : is_Some (CensusGroup.me g) -> is_Some (select_first g).
Proof.
  intros [cm Hcm]. unfold select_first. destruct (CensusGroup.leader g); [done|].
  destruct (CensusGroup.members g) as [|x l] eqn:El; [|done].
  assert (cm ∈ CensusGroup.members g) as Hin by (apply elem_of_btree_values; by exists (CensusGroup.local_member_id g)).
  rewrite El in Hin. by apply not_elem_of_nil in Hin.
Qed.

Lemma render_context_returns `{!RegexEngine} ring sg g pkg cfg binds :
  shown_in ring sg g -> Returns (RenderContext.new sg pkg cfg ring binds) (fun ctx => RenderContext.cfg ctx = cfg).
Proof.
  intros (Hg & Hw & Hme). unfold RenderContext.new. rewrite Hg. cbn.
  destruct (service_readable sg) as (svc & grp & org & H1 & H2 & H3); [apply (gw_parses _ _ _ Hw)|].
  unfold Svc.new. rewrite (gw_name _ _ _ Hw), H1, H2, H3. cbn.
  destruct (select_first_Some g Hme) as [f Hf]. destruct Hme as [me Hme]. by rewrite Hme, Hf.
Qed.

Lemma changed_files_return `{!RegexEngine} local sg (g : census_group) :
  group_wf local sg g -> Returns (CensusGroup.changed_service_files g) (fun _ => True).
Proof. intros Hw. unfold CensusGroup.changed_service_files. by rewrite lookup_all_returns by apply (gw_changed _ _ _ Hw). Qed.

(** ** Services *)

(** The parts of a service that a tick does not change. *)
Record kin (a b : RunService.t) : Prop := {
  kin_core : RunService.set_initialized_core true (RunService.core b) =
             RunService.set_initialized_core true (RunService.core a);
  kin_hooks : RunService.hooks b = RunService.hooks a;
  kin_renderer : RunService.config_renderer b = RunService.config_renderer a;
}.

#[export] Instance kin_preorder : PreOrder kin.
Proof. split; [done|]. intros a b c [] []. split; congruence. Qed.

Lemma kin_fields a b : kin a b ->
  RunService.service_group b = RunService.service_group a /\ RunService.pkg b = RunService.pkg a /\
  SupService.topology (RunService.core b) = SupService.topology (RunService.core a) /\
  SupService.binds (RunService.core b) = SupService.binds (RunService.core a).
Proof.
  intros [H _ _]. unfold RunService.service_group, RunService.pkg.
  destruct (RunService.core a), (RunService.core b). cbn in *. by simplify_eq.
Qed.

Section service_files.
Context (E : string -> Prop) (I : host -> Prop) (R : relation host) `{!PreOrder R} `{!RegexEngine}.
Context (untouched_R : forall h h', untouched h h' -> R h h').
Context (untouched_I : forall h h', untouched h h' -> I h -> I h').
Context (o : order) (root : string).
Context (render : string -> RenderContext.t -> option string) (hash : string -> string).
Context (ring : census_ring) (g : census_group) (self0 : RunService.t).
Context (Hshown : shown_in ring (RunService.service_group self0) g).
Abbreviation safe c P := (safe E I R c P).
Abbreviation any := (fun _ => True).

(** Rendering leaves all of the service but the configuration and the two flags. *)
Definition rendered_from (a b : RunService.t) : Prop :=
  RunService.core b = RunService.core a /\ RunService.hooks b = RunService.hooks a /\
  RunService.config_renderer b = RunService.config_renderer a /\
  RunService.supervisor b = RunService.supervisor a /\
  RunService.last_health_check b = RunService.last_health_check a /\
  RunService.last_election_status b = RunService.last_election_status a.

Lemma rendered_kin a b : rendered_from a b -> kin a b.
Proof. intros (H1 & H2 & H3 & _). split; congruence. Qed.

Lemma safe_update_templates self : rendered_from self0 self ->
  safe (RunService.update_templates o root render hash ring self) (fun r => rendered_from self0 r.1).
Proof.
  intros Hself. destruct Hshown as (Hg & _).
  assert (Hsg : RunService.service_group self = RunService.service_group self0).
  { unfold RunService.service_group. by destruct Hself as (-> & _). }
  unfold RunService.update_templates. refine (safe_bind _ _ _ _ _ _ _ _ _).
  { apply safe_expects; [done|]. by rewrite Hsg, Hg. }
  intros ? _. destruct (Cfg.update _ _) as [cfg u]. cbn zeta beta iota. destruct (u || _)%bool.
  - refine (safe_bind _ _ _ _ _ _ _ _ _).
    { apply safe_outcome; [done|]. unfold RunService.render_context. eapply render_context_returns.
      change (RunService.service_group (RunService.set_cfg cfg self)) with (RunService.service_group self).
      by rewrite Hsg. }
    intros ctx _. safe_go. cbn. exact Hself.
  - safe_go. cbn. exact Hself.
Qed.

Lemma safe_update_service_files self : rendered_from self0 self ->
  safe (RunService.update_service_files root hash ring self) any.
Proof.
  intros Hself. destruct Hshown as (Hg & Hw & _).
  assert (Hsg : RunService.service_group self = RunService.service_group self0).
  { unfold RunService.service_group. by destruct Hself as (-> & _). }
  unfold RunService.update_service_files. refine (safe_bind _ _ _ _ _ _ _ _ _).
  { apply safe_expects; [done|]. by rewrite Hsg, Hg. }
  rewrite Hsg, Hg. cbn beta. intros ? [= <-]. refine (safe_bind _ _ _ _ _ _ _ _ _).
  { apply safe_outcome; [done|]. by eapply changed_files_return. }
  intros l _. apply safe_cache_files; auto.
Qed.
End service_files.

(** ** Hooks *)

Definition log_panic (m : string) : Prop := m = "couldn't create log output file" \/ m = "couldn't write line".

Section hooks.
Context (E : string -> Prop) (I : host -> Prop) (R : relation host) `{!PreOrder R} `{!RegexEngine}.
Context (untouched_R : forall h h', untouched h h' -> R h h').
Context (untouched_I : forall h h', untouched h h' -> I h -> I h').
(** Programs may run, and logs can be written, or the failure is allowed for. *)
Context (runs_ok : forall p l h, I h -> I (set_runs l (act (RunProgram p) h)) /\ R h (set_runs l (act (RunProgram p) h))).
Context (logs : string -> Prop).
Context (create_log : forall p, logs p -> safe E I R (create_file p) (fun r => r = None -> E "couldn't create log output file")).
Context (append_log : forall p s, logs p -> safe E I R (append p s) (fun r => r = None -> E "couldn't write line")).
Context (root data_path : string).
Abbreviation safe c P := (safe E I R c P).
Abbreviation any := (fun _ => True).

Definition hook_logs (h : hook) : Prop := logs (stdout_log_path h) /\ logs (stderr_log_path h).
Definition table_logs (t : HookTable) : Prop := forall k h, t k = Some h -> hook_logs h.

Lemma safe_log_lines p l : logs p -> safe (HookOutput.log_lines p l) any.
Proof.
  intros Hp. induction l as [|x l IH]; cbn [HookOutput.log_lines]; [by apply safe_ret|].
  refine (safe_bind _ _ _ _ _ _ _ _ _); [by apply append_log|]. cbn. intros [[]|] Hr; [done|].
  apply safe_panics; auto.
Qed.

Lemma safe_stream_output p q l1 l2 : logs p -> logs q -> safe (HookOutput.stream_output p q l1 l2) any.
Proof.
  intros Hp Hq. unfold HookOutput.stream_output.
  assert (Hlog : forall B x (k : unit -> M B), logs x -> (forall u, safe (k u) any) ->
    safe (a ← create_file x; y ← expects "couldn't create log output file" a; k y) any).
  { intros B x k Hx Hk. refine (safe_bind _ _ _ _ _ _ _ _ _); [by apply create_log|]. cbn. intros a Ha.
    refine (safe_bind _ _ _ _ _ _ _ _ _); [by apply safe_expects|auto]. }
  apply Hlog; [done|]. intros _. apply Hlog; [done|]. intros _.
  refine (safe_bind _ _ _ _ _ _ _ _ _); [by apply safe_log_lines|]. intros _ _. by apply safe_log_lines.
Qed.

Lemma safe_run_program p : safe (run_program p) any.
Proof.
  unfold run_program. safe_go; [|done]. intros h Hh. unfold next_run. destruct (runs h) as [|r l] eqn:Er.
  - destruct (runs_ok p [] h Hh) as [H1 H2].
    assert (Heq : set_runs [] (act (RunProgram p) h) = act (RunProgram p) h) by (unfold set_runs, act; cbn; by rewrite Er).
    by rewrite Heq in *.
  - by destruct (runs_ok p l h Hh).
Qed.
#[local] Hint Resolve safe_run_program : safe.

Lemma safe_hook_run k h : k <> HookKind.Run -> hook_logs h -> safe (Hook.run k h) any.
Proof.
  intros Hk [H1 H2]. unfold Hook.run. rewrite decide_False by done.
  refine (safe_bind _ _ _ _ _ _ _ _ _); [by apply safe_run_program|]. intros [|out err status] _; [by apply safe_ret|].
  refine (safe_bind _ _ _ _ _ _ _ _ _); [by apply safe_stream_output|]. intros _ _.
  destruct status; [|by apply safe_ret].
  refine (safe_bind _ _ _ _ _ _ _ _ _); [|intros; by apply safe_ret].
  instantiate (1 := any). case_decide; [by apply safe_read_file|by apply safe_ret].
Qed.

Lemma safe_run_hook k self : k <> HookKind.Run -> table_logs (RunService.hooks self) -> safe (RunService.run_hook k self) any.
Proof.
  intros Hk Ht. unfold RunService.run_hook. destruct (RunService.hooks self k) as [h|] eqn:Eh; [|by apply safe_ret].
  refine (safe_bind _ _ _ _ _ _ _ _ _); [apply safe_hook_run; [done|by eapply Ht]|]. intros v _. by apply safe_ret.
Qed.
#[local] Hint Resolve safe_run_hook : safe.

Lemma safe_file_updated self : table_logs (RunService.hooks self) -> safe (RunService.file_updated self) any.
Proof.
  intros Ht. unfold RunService.file_updated. destruct (RunService.initialized self); [|by apply safe_ret].
  refine (safe_bind _ _ _ _ _ any _ _ _); [by apply (safe_run_hook HookKind.FileUpdated)|]. intros v _. by apply safe_ret.
Qed.

Lemma safe_cache_health_check c self :
  ServiceGroup.from_str (ServiceGroup.as_str (RunService.service_group self)) = Ok (RunService.service_group self) ->
  safe (RunService.cache_health_check data_path c self) any.
Proof.
  intros Hsg. destruct (service_readable _ Hsg) as (svc & _ & _ & Hs & _). unfold RunService.cache_health_check.
  refine (safe_bind _ _ _ _ _ _ _ _ _).
  { apply (safe_outcome _ _ _ _ (fun _ => True)). by rewrite Hs. }
  intros s _. by safe_go.
Qed.

(** Everything but the time of the last check stays. *)
Definition checked_from (a b : RunService.t) : Prop := exists c, b = RunService.set_last_health_check c a.

Lemma safe_run_health_check_hook self :
  ServiceGroup.from_str (ServiceGroup.as_str (RunService.service_group self)) = Ok (RunService.service_group self) ->
  table_logs (RunService.hooks self) -> safe (RunService.run_health_check_hook data_path self) (checked_from self).
Proof.
  intros Hsg Ht. unfold RunService.run_health_check_hook.
  refine (safe_bind _ _ _ _ _ any _ _ _); [by apply (safe_run_hook HookKind.HealthCheck_)|]. cbn beta. intros r _.
  refine (safe_bind _ _ _ _ _ _ _ _ _); [by apply (safe_gets_any _ _ _)|]. intros now _.
  refine (safe_bind _ _ _ _ _ _ _ _ _); [by apply safe_cache_health_check|]. intros _ _.
  apply safe_ret; [done|]. by eexists.
Qed.

Lemma safe_reconfigure self : table_logs (RunService.hooks self) ->
  safe (RunService.reconfigure self) (fun s => s = RunService.set_needs (RunService.needs_reload self) false self).
Proof.
  intros Ht. unfold RunService.reconfigure.
  refine (safe_bind _ _ _ _ _ any _ _ _); [by apply (safe_run_hook HookKind.Reconfigure)|]. intros r _. by apply safe_ret.
Qed.
End hooks.
