(* ===== verification/ServiceProofs.v ===== *)
(** * The life of a service: when it waits, and when it panics *)

From Stdlib Require Import Ascii.
From stdpp Require Import pretty.
From S2P Require Import Prelude Regex Text ServiceGroup Ident Target Metadata Install ServiceSpec SpecWatcher Manager.
From S2P Require Import Member Messages Rumor Kinds Election Server Census CensusProofs Updater.
From S2P Require Import Cfg Templating Host Hooks ProcSupervisor ServiceRun ServiceLogic.
Local Open Scope string_scope.
Local Open Scope list_scope.

(** ** Whatever fails *)

(** The messages of panics that come from files: the logs of hooks and the file with the number of the process. *)
Definition disk_panic (m : string) : Prop := log_panic m \/ m = "unwrap of read_pid".

Section panics.
Context (E : string -> Prop) `{!RegexEngine} (disk_E : forall m, disk_panic m -> E m).
Abbreviation I := (fun _ : host => True).
Abbreviation R := (fun _ _ : host => True).
Abbreviation safe c P := (safe E I R c P).
Abbreviation any := (fun _ => True).

#[local] Instance R_preorder : PreOrder (fun _ _ : host => True).
Proof. by split. Qed.

#[local] Hint Resolve Logic.I R_preorder : safe.

Lemma safe_reply : safe next_reply any.
Proof. intros h _. unfold next_reply. by destruct (replies h). Qed.
Lemma safe_fault : safe next_fault any.
Proof. intros h _. unfold next_fault. by destruct (faults h) as [|[]]. Qed.
Lemma safe_modifies_any f : safe (modifies f) any.
Proof. done. Qed.
#[local] Hint Resolve safe_reply safe_fault safe_modifies_any : safe.

Lemma safe_spawn s : safe (launcher_spawn s) any.
Proof. unfold launcher_spawn. by safe_go. Qed.
Lemma safe_restart p : safe (launcher_restart p) any.
Proof. unfold launcher_restart. by safe_go. Qed.
#[local] Hint Resolve safe_spawn safe_restart : safe.

Lemma safe_change_state st sup : safe (Supervisor.change_state st sup) any.
Proof. unfold Supervisor.change_state. by safe_go. Qed.
#[local] Hint Resolve safe_change_state : safe.

Lemma safe_create_pidfile sup : safe (Supervisor.create_pidfile sup) any.
Proof. unfold Supervisor.create_pidfile. safe_go; auto with safe. Qed.
Lemma safe_cleanup_pidfile sup : safe (Supervisor.cleanup_pidfile sup) any.
Proof. unfold Supervisor.cleanup_pidfile. auto with safe. Qed.
Lemma safe_read_pid f : safe (Supervisor.read_pid f) any.
Proof. unfold Supervisor.read_pid. by safe_go. Qed.
#[local] Hint Resolve safe_create_pidfile safe_cleanup_pidfile safe_read_pid : safe.

Lemma safe_known_pid sup : safe (Supervisor.known_pid sup) any.
Proof.
  unfold Supervisor.known_pid. safe_go; try done. apply safe_panics; [apply _|]. apply disk_E. by right.
Qed.
#[local] Hint Resolve safe_known_pid : safe.

Lemma safe_sup_check sup : safe (Supervisor.check_process sup) any.
Proof. unfold Supervisor.check_process. by safe_go. Qed.
Lemma safe_sup_start sg sup : safe (Supervisor.start sg sup) any.
Proof. unfold Supervisor.start. by safe_go. Qed.
#[local] Hint Resolve safe_sup_check safe_sup_start : safe.
Lemma safe_sup_restart sg sup : safe (Supervisor.restart sg sup) any.
Proof. unfold Supervisor.restart. safe_go; auto with safe. Qed.
#[local] Hint Resolve safe_sup_restart : safe.

Lemma any_hook k self : k <> HookKind.Run -> safe (RunService.run_hook k self) any.
Proof.
  intros Hk. apply (safe_run_hook E I R ltac:(done) ltac:(done) ltac:(done) any); [| |done|done].
  - intros p _. eapply safe_mono; [auto with safe|]. intros _ _ _. apply disk_E. left. by left.
  - intros p x _. eapply safe_mono; [auto with safe|]. intros _ _ _. apply disk_E. left. by right.
Qed.

Section service.
Context (o : order) (root data_path : string).
Context (render : string -> RenderContext.t -> option string) (hash : string -> string).

Lemma safe_check_process self : safe (RunService.check_process self) (fun r => kin self r.1).
Proof. unfold RunService.check_process. safe_go. by split. Qed.
Lemma safe_start self : safe (RunService.start self) (kin self).
Proof. unfold RunService.start. safe_go. case_match; by split. Qed.
#[local] Hint Resolve safe_check_process safe_start : safe.

Lemma safe_initialize self : safe (RunService.initialize self) (kin self).
Proof.
  unfold RunService.initialize. destruct (RunService.initialized self); [by apply safe_ret; [apply _|]|].
  refine (safe_bind _ _ _ _ _ any _ _ _); [by apply (any_hook HookKind.Init)|]. intros r _.
  apply safe_ret; [apply _|]. destruct r; by split.
Qed.

Lemma safe_reload self : safe (RunService.reload self) (kin self).
Proof.
  unfold RunService.reload. cbn zeta. destruct (_ || _)%bool.
  - safe_go. by split.
  - refine (safe_bind _ _ _ _ _ any _ _ _); [by apply (any_hook HookKind.Reload)|]. intros r _. by apply safe_ret; [apply _|split].
Qed.

Lemma safe_reconfigure_any self : safe (RunService.reconfigure self) (kin self).
Proof.
  unfold RunService.reconfigure.
  refine (safe_bind _ _ _ _ _ any _ _ _); [by apply (any_hook HookKind.Reconfigure)|]. intros r _. by apply safe_ret; [apply _|split].
Qed.

Definition readable (self : RunService.t) : Prop :=
  ServiceGroup.from_str (ServiceGroup.as_str (RunService.service_group self)) = Ok (RunService.service_group self).

Lemma kin_readable a b : kin a b -> readable a -> readable b.
Proof. intros (Hsg & _)%kin_fields. unfold readable. by rewrite Hsg. Qed.

Lemma safe_health_check self : readable self -> safe (RunService.run_health_check_hook data_path self) (kin self).
Proof.
  intros Hr. destruct (service_readable _ Hr) as (svc & _ & _ & Hs & _). unfold RunService.run_health_check_hook.
  refine (safe_bind _ _ _ _ _ any _ _ _); [by apply (any_hook HookKind.HealthCheck_)|]. cbn beta. intros r _.
  refine (safe_bind _ _ _ _ _ any _ _ _); [auto with safe|]. intros now _.
  refine (safe_bind _ _ _ _ _ any _ _ _); [|intros _ _; by apply safe_ret; [apply _|split]].
  unfold RunService.cache_health_check. rewrite Hs.
  refine (safe_bind _ _ _ _ _ any _ _ _); [by apply safe_outcome; [apply _|]|]. intros s _. by safe_go.
Qed.

Lemma safe_execute_hooks self : readable self -> safe (RunService.execute_hooks data_path self) (kin self).
Proof.
  intros Hr. unfold RunService.execute_hooks. destruct (RunService.initialized self).
  - refine (safe_bind _ _ _ _ _ _ _ _ _); [apply safe_check_process|]. intros [s1 b] H1. cbn in H1. cbn beta iota.
    refine (safe_bind _ _ _ _ _ any _ _ _); [auto with safe|]. intros now _.
    refine (safe_bind _ _ _ _ _ (kin self) _ _ _).
    { destruct (RunService.health_check_due now s1); [|by apply safe_ret; [apply _|]].
      eapply safe_mono; [apply safe_health_check; by eapply kin_readable|]. intros s2 H2. by etrans. }
    intros s2 H2. destruct (_ || _ || _)%bool; [|by apply safe_ret; [apply _|]].
    refine (safe_bind _ _ _ _ _ (kin self) _ _ _).
    { eapply safe_mono; [apply safe_reload|]. intros s3 H3. by etrans. }
    intros s3 H3. destruct (RunService.needs_reconfiguration s3); [|by apply safe_ret; [apply _|]].
    eapply safe_mono; [apply safe_reconfigure_any|]. intros s4 H4. by etrans.
  - refine (safe_bind _ _ _ _ _ _ _ _ _); [apply safe_check_process|]. intros [s1 b] H1. cbn in H1. cbn beta iota.
    destruct b; [apply safe_ret; [apply _|]; etrans; [exact H1|by split]|].
    refine (safe_bind _ _ _ _ _ (kin self) _ _ _).
    { eapply safe_mono; [apply safe_initialize|]. intros s2 H2. by etrans. }
    intros s2 H2. destruct (RunService.initialized s2); [|by apply safe_ret; [apply _|]].
    refine (safe_bind _ _ _ _ _ (kin self) _ _ _).
    { eapply safe_mono; [apply safe_start|]. intros s3 H3. by etrans. }
    intros s3 H3. refine (safe_bind _ _ _ _ _ any _ _ _).
    { unfold RunService.post_run. refine (safe_bind _ _ _ _ _ any _ _ _); [by apply (any_hook HookKind.PostRun)|].
      intros r _. by apply safe_ret; [apply _|]. }
    intros _ _. by apply safe_ret; [apply _|].
Qed.

Lemma safe_act ring self g : shown_in ring (RunService.service_group self) g ->
  (SupService.topology (RunService.core self) = Topology.Leader ->
   CensusGroup.election_status g = ElectionStatus.ElectionFinished -> CensusGroup.leader_id g = None ->
   E "No leader with finished election") ->
  safe (RunService.act_for_topology data_path ring self) (kin self).
Proof.
  intros (Hg & Hw & Hme) HE. assert (Hr : readable self) by apply (gw_parses _ _ _ Hw).
  unfold RunService.act_for_topology. destruct (SupService.topology (RunService.core self)).
  - by apply safe_execute_hooks.
  - refine (safe_bind _ _ _ _ _ _ _ _ _); [apply safe_expects; [apply _|by rewrite Hg]|].
    rewrite Hg. cbn beta. intros ? [= <-]. cbn zeta.
    set (noted := if decide (RunService.last_election_status self = CensusGroup.election_status g) then self else _).
    assert (Hk : kin self noted) by (unfold noted; case_decide; by split). clearbody noted.
    destruct (CensusGroup.election_status g) eqn:Est; try (by apply safe_ret; [apply _|]).
    refine (safe_bind _ _ _ _ _ _ _ _ _); [apply safe_expects; [apply _|by apply HE]|]. intros l _.
    eapply safe_mono; [apply safe_execute_hooks; by eapply kin_readable|]. intros s Hs. by etrans.
Qed.

Lemma safe_tick ring self g : shown_in ring (RunService.service_group self) g ->
  (SupService.topology (RunService.core self) = Topology.Leader ->
   CensusGroup.election_status g = ElectionStatus.ElectionFinished -> CensusGroup.leader_id g = None ->
   E "No leader with finished election") ->
  safe (RunService.tick o root data_path render hash ring self) (fun r => kin self r.1).
Proof.
  intros Hs HE. unfold RunService.tick. destruct (_ && _)%bool; [by apply safe_ret; [apply _|]|].
  refine (safe_bind _ _ _ _ _ _ _ _ _).
  { by apply (safe_update_templates E I R ltac:(done) ltac:(done) o root render hash ring g self). }
  intros [s1 u] H1. cbn in H1. cbn beta iota.
  refine (safe_bind _ _ _ _ _ any _ _ _).
  { by apply (safe_update_service_files E I R ltac:(done) ltac:(done) root hash ring g self). }
  intros updated _. refine (safe_bind _ _ _ _ _ any _ _ _).
  { destruct updated; [|by apply safe_ret; [apply _|]]. unfold RunService.file_updated.
    destruct (RunService.initialized s1); [|by apply safe_ret; [apply _|]].
    refine (safe_bind _ _ _ _ _ any _ _ _); [by apply (any_hook HookKind.FileUpdated)|]. intros r _.
    by apply safe_ret; [apply _|]. }
  intros _ _. apply rendered_kin in H1 as H1'. destruct (kin_fields _ _ H1') as (Hsg & _ & Htop & _).
  refine (safe_bind _ _ _ _ _ _ _ _ _); [apply (safe_act ring s1 g); [by rewrite Hsg|by rewrite Htop]|].
  intros s2 H2. apply safe_ret; [apply _|]. cbn. by etrans.
Qed.
End service.
End panics.

Section properties.
Context `{!RegexEngine} (o : order) (root data_path : string).
Context (render : string -> RenderContext.t -> option string) (hash : string -> string).
Abbreviation tick := (RunService.tick o root data_path render hash).


(** All binds are satisfied when the group of each is in the census with a live member. *)
Lemma all_binds_satisfied_spec ring self :
  RunService.all_binds_satisfied ring self = true <->
  forall bind, bind ∈ SupService.binds (RunService.core self) -> exists g cm,
    CensusRing.census_group_for ring (ServiceBind.service_group bind) = Some g /\
    cm ∈ CensusGroup.members g /\ CensusMember.alive cm = true.
Proof.
  unfold RunService.all_binds_satisfied. generalize (SupService.binds (RunService.core self)). intros l.
  rewrite <- Forall_forall. set (live bind := exists g cm, _).
  assert (Hf : forall (r : bool), foldl (fun (ret : bool) bind =>
    match CensusRing.census_group_for ring (ServiceBind.service_group bind) with
    | Some group => if forallb (fun m => negb (CensusMember.alive m)) (CensusGroup.members group) then false else ret
    | None => false
    end) r l = true <-> r = true /\ Forall live l).
  2: { rewrite Hf. naive_solver. }
  induction l as [|b l IH]; intros r; cbn [foldl]; [naive_solver|]. rewrite IH, Forall_cons. unfold live at 2.
  destruct (CensusRing.census_group_for ring (ServiceBind.service_group b)) as [g|]; [|naive_solver].
  destruct (forallb _ _) eqn:Ef.
  - rewrite forallb_forall in Ef. split; [by intros []|]. intros (_ & (g' & cm & [= <-] & Hin & Ha) & _).
    apply list_elem_of_In, Ef in Hin. by rewrite Ha in Hin.
  - split; [|naive_solver]. intros [-> H']. split_and!; [done| |done].
    destruct (existsb CensusMember.alive (CensusGroup.members g)) eqn:Ex.
    + apply existsb_exists in Ex as (cm & Hin%list_elem_of_In & Ha). by exists g, cm.
    + apply not_true_iff_false in Ef. destruct Ef. apply forallb_forall. intros m Hm.
      destruct (CensusMember.alive m) eqn:Ea; [|done].
      apply not_true_iff_false in Ex. destruct Ex. apply existsb_exists. by exists m.
Qed.

(** C26: a service that is not initialized does nothing until the services it is bound to are there,
    and in the topology Leader nothing until the election is finished: no process is started or
    ended and no hook is run, whatever fails; the service stays uninitialized.  While a bind has
    no live member in the census, the tick does not even render a file. *)
Theorem service_waits ring self h (h' := (tick ring self h).1) :
  RunService.initialized self = false ->
  (exists bind, bind ∈ SupService.binds (RunService.core self) /\
     forall g cm, CensusRing.census_group_for ring (ServiceBind.service_group bind) = Some g ->
       cm ∈ CensusGroup.members g -> CensusMember.alive cm = false) \/
  (SupService.topology (RunService.core self) = Topology.Leader /\ exists g,
     shown_in ring (RunService.service_group self) g /\
     CensusGroup.election_status g <> ElectionStatus.ElectionFinished) ->
  alive h' = alive h /\ done_ h' = done_ h /\
  exists self' b, (tick ring self h).2 = Return (self', b) /\ RunService.initialized self' = false /\
    RunService.supervisor self' = RunService.supervisor self /\
    (RunService.all_binds_satisfied ring self = false -> h' = h /\ self' = self).
Proof.
  intros Hi Hw. subst h'. unfold RunService.tick. rewrite Hi. cbn [negb andb].
  destruct (RunService.all_binds_satisfied ring self) eqn:Eb; cbn [negb].
  2: { split_and!; [done..|]. by exists self, false. }
  destruct Hw as [(bind & Hin & Hno)|(Htop & g & Hs & Hne)].
  { destruct (proj1 (all_binds_satisfied_spec ring self) Eb bind Hin) as (g & cm & Hg & Hcm & Ha).
    by rewrite (Hno g cm Hg Hcm) in Ha. }
  set (c := _ ≫= _). assert (Hc : safe (fun _ => False) (fun _ => True) untouched c (fun r =>
    RunService.initialized r.1 = false /\ RunService.supervisor r.1 = RunService.supervisor self)).
  2: { specialize (Hc h Logic.I). destruct (c h) as [h' [[s' b]|m]]; cbn; [|by destruct Hc].
       destruct Hc as ([? ?] & _ & Hu). split_and!; [apply Hu..|]. by exists s', b. }
  unfold c. clear c. refine (safe_bind _ _ _ _ _ _ _ _ _).
  { by apply (safe_update_templates _ (fun _ => True) untouched ltac:(done) ltac:(done) o root render hash ring g self). }
  intros [s1 u] H1. cbn in H1. cbn beta iota. refine (safe_bind _ _ _ _ _ (fun _ => True) _ _ _).
  { by apply (safe_update_service_files _ (fun _ => True) untouched ltac:(done) ltac:(done) root hash ring g self). }
  intros updated _. pose proof (rendered_kin _ _ H1) as (Hsg & _ & Ht & _)%kin_fields.
  destruct H1 as (Hc & _ & _ & Hsup & _).
  assert (Hi1 : RunService.initialized s1 = false) by (unfold RunService.initialized; by rewrite Hc).
  refine (safe_bind _ _ _ _ _ (fun _ => True) _ _ _).
  { unfold RunService.file_updated. rewrite Hi1. by destruct updated; apply safe_ret; [apply _| |apply _|]. }
  intros _ _. refine (safe_bind _ _ _ _ _ (fun s => RunService.initialized s = false /\
    RunService.supervisor s = RunService.supervisor self) _ _ _); [|intros s Hs'; by apply safe_ret; [apply _|]].
  unfold RunService.act_for_topology. rewrite Ht, Htop, Hsg. destruct Hs as (Hg & _). rewrite Hg.
  refine (safe_bind _ _ _ _ _ _ _ _ _); [by apply safe_expects; [apply _|]|]. intros ? [= <-]. cbn zeta.
  destruct (CensusGroup.election_status g); try done; (apply safe_ret; [apply _|]; by case_decide).
Qed.

(** Once the election of a group is finished, a Supervisor that knows the winner as a member of
    the ring but has not heard of its service yet panics in the next tick of its own service of
    the group, whatever the state of its machine. *)
Theorem unknown_leader_panics ring self g h :
  shown_in ring (RunService.service_group self) g ->
  SupService.topology (RunService.core self) = Topology.Leader ->
  RunService.initialized self = false ->
  RunService.all_binds_satisfied ring self = true ->
  CensusGroup.election_status g = ElectionStatus.ElectionFinished ->
  CensusGroup.leader_id g = None ->
  (tick ring self h).2 = Panic "No leader with finished election".
Proof.
  intros Hs Htop Hi Hb Hst Hl. unfold RunService.tick. rewrite Hi, Hb. cbn [negb andb].
  pose proof (safe_update_templates (fun _ => False) (fun _ => True) untouched ltac:(done) ltac:(done)
    o root render hash ring g self Hs self ltac:(done) h Logic.I) as H1.
  unfold mbind at 1, M_bind at 1. destruct (RunService.update_templates _ _ _ _ _ _ h) as [h1 [[s1 u]|]]; [|by destruct H1].
  destruct H1 as (H1 & _ & _). cbn in H1.
  pose proof (safe_update_service_files (fun _ => False) (fun _ => True) untouched ltac:(done) ltac:(done)
    root hash ring g self Hs s1 H1 h1 Logic.I) as H2.
  unfold mbind at 1, M_bind at 1. destruct (RunService.update_service_files _ _ _ _ h1) as [h2 [upd|]]; [|by destruct H2].
  pose proof (rendered_kin _ _ H1) as (Hsg & _ & Ht & _)%kin_fields. destruct H1 as (Hc & _).
  assert (Hi1 : RunService.initialized s1 = false) by (unfold RunService.initialized; by rewrite Hc).
  unfold RunService.file_updated, RunService.act_for_topology. destruct Hs as (Hg & _).
  rewrite Hi1, Ht, Htop, Hsg, Hg. destruct upd; unfold mbind, M_bind, expects, from_outcome, mret, M_ret; cbn; by rewrite Hst, ?Hl.
Qed.
End properties.
