(* ===== verification/RenderProofs.v ===== *)
(** * Rendering writes what changed, and says so

    The files of a service after the templates were rendered, when no file operation fails. *)

From Stdlib Require Import Ascii.
From S2P Require Import Prelude Regex Text ServiceGroup Ident Target Metadata Install ServiceSpec SpecWatcher Manager.
From S2P Require Import Census Cfg Templating Host Hooks.
Local Open Scope string_scope.
Local Open Scope list_scope.

Lemma create_and_write_calm h p s : calm h -> p ∉ dirs h ->
  create_and_write p s h = (set_files (<[p := s]> (files h)) h, Return (Some tt)).
Proof.
  intros Hh Hp. unfold create_and_write. unfold mbind, M_bind. rewrite create_file_calm by done. rewrite append_calm by done.
  cbn. rewrite lookup_insert_eq. unfold set_files. cbn. by rewrite insert_insert_eq.
Qed.

(** ** Bringing a list of files up to date *)
Definition written (l : list (string * string)) (f : gmap string string) : gmap string string :=
  foldl (fun f e => <[e.1 := e.2]> f) f l.
(** Whether one of the files is missing or has other contents. *)
Definition stale (l : list (string * string)) (f : gmap string string) : bool :=
  existsb (fun e => negb (bool_decide (f !! e.1 = Some e.2))) l.

Lemma written_other l f p : p ∉ l.*1 -> written l f !! p = f !! p.
Proof.
  revert f. induction l as [|[q s] l IH]; intros f Hp; cbn; [done|].
  apply not_elem_of_cons in Hp as [Hne Hp]. unfold written in IH. rewrite IH by done. by apply lookup_insert_ne.
Qed.

Lemma written_elem l f p s : NoDup l.*1 -> (p, s) ∈ l -> written l f !! p = Some s.
Proof.
  revert f. induction l as [|[q t] l IH]; intros f Hnd Hin; [by apply not_elem_of_nil in Hin|].
  apply NoDup_cons in Hnd as [Hq Hnd]. cbn in Hq. apply elem_of_cons in Hin as [[= -> ->]|Hin].
  - unfold written. cbn. fold (written l (<[q := t]> f)). rewrite written_other by done. apply lookup_insert_eq.
  - by apply (IH (<[q := t]> f)).
Qed.

Lemma stale_insert l f p s : p ∉ l.*1 -> stale l (<[p := s]> f) = stale l f.
Proof.
  induction l as [|[q t] l IH]; intros Hp; [done|]. apply not_elem_of_cons in Hp as [Hne Hp].
  unfold stale in *. cbn in *. rewrite IH by done. by rewrite lookup_insert_ne by done.
Qed.

Lemma stale_false l f : stale l f = false <-> Forall (fun e => f !! e.1 = Some e.2) l.
Proof.
  unfold stale. induction l as [|e l IH]; cbn; [naive_solver|]. rewrite Forall_cons, <- IH.
  case_bool_decide; naive_solver.
Qed.

Lemma written_id l f : Forall (fun e => f !! e.1 = Some e.2) l -> written l f = f.
Proof.
  induction 1 as [|[p s] l Hp _ IH]; [done|]. unfold written. cbn in *. by rewrite insert_id.
Qed.

Lemma stale_iff l f : NoDup l.*1 -> (stale l f = true <-> written l f <> f).
Proof.
  intros Hnd. rewrite <- not_false_iff_true, stale_false. split; intros H1 H2; apply H1.
  - apply Forall_forall. intros [p s] Hin. cbn. rewrite <- H2 at 1. by apply written_elem.
  - by apply written_id.
Qed.

(** ** Configuration files *)

Lemma join_path_inj dir a b : join_path dir a = join_path dir b -> a = b.
Proof. unfold join_path. intros Hab%(inj (String.append dir)). by apply (inj (String.append "/")) in Hab. Qed.

Lemma compile_order_NoDup : NoDup HookTable.compile_order.
Proof. refine (bool_decide_eq_true_1 (NoDup HookTable.compile_order) _). vm_compute. reflexivity. Qed.

Lemma compile_order_all k : k ∈ HookTable.compile_order.
Proof. refine (bool_decide_eq_true_1 (k ∈ HookTable.compile_order) _). destruct k; vm_compute; reflexivity. Qed.

Section rendering.
Context `{!RegexEngine}.
Context (render : string -> RenderContext.t -> option string) (hash : string -> string).
(** The hash tells contents apart, and is not the empty text that stands for a missing file. *)
Context (hash_inj : forall a b, hash a = hash b -> a = b) (hash_some : forall a, hash a <> "").

Lemma hash_file_calm h p : calm h -> Hook.hash_file hash p h = (h, Return (hash <$> files h !! p)).
Proof. intros Hh. unfold Hook.hash_file. unfold mbind, M_bind. by rewrite read_file_calm by done. Qed.

(** The file of one template. *)
Lemma compile_one_calm h p t ctx text :
  calm h -> p ∉ dirs h -> render t ctx = Some text ->
  CfgRenderer.compile_one render hash p t ctx h =
    (set_files (<[p := text]> (files h)) h, Return (Some (negb (bool_decide (files h !! p = Some text))))).
Proof.
  intros Hh Hp Ht. unfold CfgRenderer.compile_one. rewrite Ht. unfold mbind, M_bind. rewrite hash_file_calm by done.
  assert (Hid : set_files (files h) h = h) by by destruct h.
  destruct (files h !! p) as [old|] eqn:Ef; cbn.
  - destruct (String.eqb_spec (hash old) "") as [He|_]; [by apply hash_some in He|].
    destruct (String.eqb_spec (hash old) (hash text)) as [->%hash_inj|Hne].
    + rewrite bool_decide_true by done. rewrite insert_id by done. by rewrite Hid.
    + rewrite bool_decide_false by (intros [= ->]; done). by rewrite create_and_write_calm by done.
  - rewrite bool_decide_false by done. by rewrite create_and_write_calm by done.
Qed.

Lemma compile_loop_calm dir ctx l l' changed h :
  calm h -> (forall n, n ∈ l.*1 -> join_path dir n ∉ dirs h) -> NoDup l.*1 ->
  Forall2 (fun (e : string * string) (e' : string * string) => e'.1 = join_path dir e.1 /\ render e.2 ctx = Some e'.2) l l' ->
  CfgRenderer.compile_loop render hash dir ctx l changed h =
    (set_files (written l' (files h)) h, Return (Some (stale l' (files h) || changed)%bool)).
Proof.
  intros Hh Hd Hnd Hl. revert h changed Hh Hd. induction Hl as [|[n t] [p text] l l' [Hp Ht] Hl IH];
    intros h changed Hh Hd; cbn [CfgRenderer.compile_loop].
  { cbn. by destruct h. }
  cbn in Hp, Ht, Hnd. subst p. apply NoDup_cons in Hnd as [Hn Hnd].
  unfold mbind, M_bind. rewrite (compile_one_calm _ _ _ _ text) by (try done; apply Hd; set_solver).
  rewrite IH; [|done|done|intros n' Hn'; apply Hd; set_solver].
  assert (Hout : join_path dir n ∉ l'.*1).
  { intros ([p s] & Hp & Hin)%list_elem_of_fmap. destruct (proj1 (list_elem_of_lookup _ _) Hin) as [i Hi].
    destruct (Forall2_lookup_r _ _ _ _ _ Hl Hi) as ([n' t'] & Hi' & He & _). cbn in Hp, He. rewrite He in Hp. apply join_path_inj in Hp as ->.
    apply Hn. apply list_elem_of_fmap. exists (n', t'). split; [done|]. by apply list_elem_of_lookup_2 in Hi'. }
  cbn [files set_files]. rewrite stale_insert by done. unfold written at 2, stale at 2. cbn [foldl existsb fst snd].
  fold (stale l' (files h)) (written l' (<[join_path dir n := text]> (files h))).
  f_equal. f_equal. f_equal. destruct (bool_decide _), (stale _ _), changed; done.
Qed.

(** Nothing changes when all files are up to date. *)
Lemma config_up_to_date (o : order) (renderer : CfgRenderer) dir ctx h :
  calm h ->
  (forall name t, renderer !! name = Some t -> exists text, render t ctx = Some text /\
     files h !! join_path dir name = Some text /\ join_path dir name ∉ dirs h) ->
  exists f, CfgRenderer.compile render hash o renderer dir ctx h = (set_files f h, Return (Some false)).
Proof.
  intros Hh Hok. set (l := permute o (map_to_list renderer)).
  assert (Hl : forall n t, (n, t) ∈ l -> renderer !! n = Some t).
  { intros n t. unfold l. rewrite elem_of_permute. apply (elem_of_map_to_list (M := gmap string)). }
  set (l' := (fun e : string * string => (join_path dir e.1, default "" (render e.2 ctx))) <$> l).
  exists (written l' (files h)). unfold CfgRenderer.compile. fold l. rewrite (compile_loop_calm dir ctx l l'); [|done|..].
  - rewrite (proj2 (stale_false l' (files h))); [done|]. apply Forall_fmap, Forall_forall. intros [n t] Hin%Hl. cbn.
    destruct (Hok n t Hin) as (text & -> & Hf & _). done.
  - intros n ([n' t] & -> & Hin%Hl)%list_elem_of_fmap. by destruct (Hok _ _ Hin) as (? & _ & _ & ?).
  - unfold l. rewrite (permute_perm o (map_to_list renderer)). apply NoDup_fst_map_to_list.
  - apply Forall2_fmap_r, Forall_Forall2_diag, Forall_forall. intros [n t] Hin%Hl. cbn. split; [done|].
    destruct (Hok n t Hin) as (text & -> & _). done.
Qed.

(** ** Hooks *)

(** The files of the hooks of some kinds, with what their templates give. *)
Definition hook_files (table : HookTable) (ctx : RenderContext.t) (l : list HookKind.t) : list (string * string) :=
  omap (fun k => hk ← table k; text ← render (rp_template (render_pair hk)) ctx; Some (path hk, text)) l.

Lemma hook_compile_calm h hk ctx text :
  calm h -> path hk ∉ dirs h -> render (rp_template (render_pair hk)) ctx = Some text ->
  Hook.compile render hash hk ctx h =
    if decide (files h !! path hk = Some text) then (h, Return (Some false))
    else (set_executable ({[path hk]} ∪ executable h) (set_files (<[path hk := text]> (files h)) h), Return (Some true)).
Proof.
  intros Hh Hp Ht. unfold Hook.compile, Hook.write_hook, Hook.hash_content, path_exists. rewrite Ht.
  unfold mbind, M_bind. cbn [gets]. rewrite (bool_decide_false (path hk ∈ dirs h)) by done. rewrite orb_false_r.
  destruct (files h !! path hk) as [old|] eqn:Ef; cbn.
  - rewrite hash_file_calm by done. rewrite Ef. cbn. destruct (String.eqb_spec (hash old) (hash text)) as [->%hash_inj|Hne].
    + by rewrite decide_True.
    + rewrite decide_False by (intros [= ->]; done). rewrite create_and_write_calm by done. cbn. by rewrite make_executable_calm by done.
  - destruct (hash text) as [|c l] eqn:Eh; [by destruct (hash_some text)|].
    rewrite create_and_write_calm by done. cbn. by rewrite make_executable_calm by done.
Qed.

Lemma compile_kinds_calm table ctx l changed h (hf := hook_files table ctx l) :
  calm h -> NoDup hf.*1 -> (forall k hk, table k = Some hk -> path hk ∉ dirs h) ->
  exists e, HookTable.compile_kinds render hash table ctx l changed h =
      (set_executable e (set_files (written hf (files h)) h), Return (stale hf (files h) || changed)%bool) /\
    executable h ⊆ e /\ forall p t, (p, t) ∈ hf -> files h !! p <> Some t -> p ∈ e.
Proof.
  revert changed h. subst hf. induction l as [|k l IH]; intros changed h Hh Hnd Hd; cbn [HookTable.compile_kinds].
  { exists (executable h). split_and!; [by destruct h|done|]. intros p t Hin. by apply not_elem_of_nil in Hin. }
  unfold hook_files in *. cbn [omap list_omap] in *. destruct (table k) as [hk|] eqn:Ek; cbn [mbind option_bind] in *; [|by apply IH].
  unfold mbind at 1, M_bind at 1. unfold HookTable.compile_one. unfold mbind at 1, M_bind at 1.
  destruct (render (rp_template (render_pair hk)) ctx) as [text|] eqn:Et; cbn [mbind option_bind] in *.
  2: { unfold Hook.compile. rewrite Et. by apply IH. }
  rewrite (hook_compile_calm _ _ _ text) by eauto. apply NoDup_cons in Hnd as [Hp Hnd]. cbn [fst] in Hp.
  set (hf := omap _ l) in *. case_decide as Hf.
  - cbn. destruct (IH changed h) as (e & -> & He & Hin); [done..|]. exists e. split_and!; [|done|].
    + unfold written, stale. cbn. rewrite insert_id by done. by rewrite bool_decide_true by done.
    + intros p t [[= -> ->]|Hpt]%elem_of_cons Hne; [done|]. by eapply Hin.
  - assert (Hs : stale ((path hk, text) :: hf) (files h) = true)
      by (unfold stale; cbn; by rewrite bool_decide_false by done).
    rewrite Hs. cbn. set (h1 := set_executable _ _). destruct (IH true h1) as (e & -> & He & Hin); [done..|]. exists e. split_and!.
    + unfold h1. cbn [files set_files set_executable]. rewrite stale_insert by done. by rewrite orb_true_r.
    + etrans; [|exact He]. cbn. set_solver.
    + intros p t Hpt Hne. apply elem_of_cons in Hpt as [[= -> ->]|Hpt]; [apply He; cbn; set_solver|].
      eapply Hin; [done|]. cbn. rewrite lookup_insert_ne; [done|]. intros Heq. apply Hp, list_elem_of_fmap.
      by exists (p, t).
Qed.

Lemma hook_files_elem table ctx l p t :
  (p, t) ∈ hook_files table ctx l <->
  exists k hk, k ∈ l /\ table k = Some hk /\ path hk = p /\ render (rp_template (render_pair hk)) ctx = Some t.
Proof.
  unfold hook_files. rewrite list_elem_of_omap. split.
  - intros (k & Hk & He). destruct (table k) as [hk|] eqn:Ek; [|done]. cbn in He.
    destruct (render _ ctx) as [text|] eqn:Et; [|done]. cbn in He. simplify_eq. by exists k, hk.
  - intros (k & hk & Hk & Ek & <- & Et). exists k. rewrite Ek. cbn. by rewrite Et.
Qed.

Lemma hook_files_NoDup table ctx l :
  (forall k k' hk hk', table k = Some hk -> table k' = Some hk' -> path hk = path hk' -> k = k') ->
  NoDup l -> NoDup (hook_files table ctx l).*1.
Proof.
  intros Hinj. induction 1 as [|k l Hk Hl IH]; [constructor|]. unfold hook_files in *. cbn [omap list_omap].
  destruct (table k) as [hk|] eqn:Ek; cbn [mbind option_bind]; [|done].
  destruct (render _ ctx) as [text|] eqn:Et; cbn [mbind option_bind]; [|done]. cbn. constructor; [|done].
  intros ([p t] & Hp & Hin)%list_elem_of_fmap. cbn in Hp. apply hook_files_elem in Hin as (k' & hk' & Hk' & Ek' & Hp' & _).
  apply Hk. by rewrite (Hinj k k' hk hk' Ek Ek') by congruence.
Qed.

(** With all templates rendering and no file operation failing, compiling the configuration
    makes each file of the configuration directory what its template gives in the context,
    whatever the order of the templates; it changes no other file and nothing else on the machine,
    and it reports a change exactly when the contents of a file changed. *)
Theorem configuration_compiled (o : order) (renderer : CfgRenderer) dir ctx h :
  calm h ->
  (forall name t, renderer !! name = Some t -> is_Some (render t ctx) /\ join_path dir name ∉ dirs h) ->
  exists changed f, CfgRenderer.compile render hash o renderer dir ctx h = (set_files f h, Return (Some changed)) /\
    (forall name t, renderer !! name = Some t -> f !! join_path dir name = render t ctx) /\
    (forall p, (forall name, is_Some (renderer !! name) -> p <> join_path dir name) -> f !! p = files h !! p) /\
    (changed = true <-> f <> files h).
Proof.
  intros Hh Hok. set (l := permute o (map_to_list renderer)).
  assert (Hl : forall n t, (n, t) ∈ l <-> renderer !! n = Some t).
  { intros n t. unfold l. rewrite elem_of_permute. apply (elem_of_map_to_list (M := gmap string)). }
  assert (Hnd : NoDup l.*1).
  { unfold l. rewrite (permute_perm o (map_to_list renderer)). apply NoDup_fst_map_to_list. }
  set (l' := (fun e : string * string => (join_path dir e.1, default "" (render e.2 ctx))) <$> l).
  assert (Hf2 : Forall2 (fun (e e' : string * string) => e'.1 = join_path dir e.1 /\ render e.2 ctx = Some e'.2) l l').
  { apply Forall2_fmap_r, Forall_Forall2_diag, Forall_forall. intros [n t] Hin%Hl. cbn. split; [done|].
    destruct (Hok n t Hin) as [[text ->] _]. done. }
  assert (Hnd' : NoDup l'.*1).
  { unfold l'. rewrite <- list_fmap_compose. change (NoDup ((join_path dir ∘ fst) <$> l)).
    rewrite (list_fmap_compose fst (join_path dir)). apply NoDup_fmap_2; [|done]. intros a b. apply join_path_inj. }
  exists (stale l' (files h)), (written l' (files h)). split_and!.
  - unfold CfgRenderer.compile. fold l. rewrite (compile_loop_calm dir ctx l l'); [by rewrite orb_false_r|done| |done|done].
    intros n ([n' t] & -> & Hin%Hl)%list_elem_of_fmap. by destruct (Hok _ _ Hin).
  - intros n t Hn. destruct (Hok n t Hn) as [[text Ht] _]. rewrite Ht. apply written_elem; [done|].
    apply list_elem_of_fmap. exists (n, t). cbn. rewrite Ht. split; [done|by apply Hl].
  - intros p Hp. apply written_other. intros (e & -> & ([n t] & -> & Hin%Hl)%list_elem_of_fmap)%list_elem_of_fmap.
    by apply (Hp n); [eexists|].
  - by apply stale_iff.
Qed.

(** When no file operation fails, compiling the hooks makes the file of each hook whose template
    renders what the template gives, and executable if it was written; the other files keep their
    contents, a hook that does not render included; and it reports a change exactly when the
    contents of a file changed. *)
Theorem hooks_compiled (table : HookTable) ctx h :
  calm h ->
  (forall k hk, table k = Some hk -> path hk ∉ dirs h) ->
  (forall k k' hk hk', table k = Some hk -> table k' = Some hk' -> path hk = path hk' -> k = k') ->
  exists changed e f,
    HookTable.compile render hash table ctx h = (set_executable e (set_files f h), Return changed) /\
    executable h ⊆ e /\
    (forall k hk text, table k = Some hk -> render (rp_template (render_pair hk)) ctx = Some text ->
       f !! path hk = Some text /\ (files h !! path hk <> Some text -> path hk ∈ e)) /\
    (forall p, (forall k hk, table k = Some hk -> path hk = p -> render (rp_template (render_pair hk)) ctx = None) ->
       f !! p = files h !! p) /\
    (changed = true <-> f <> files h).
Proof.
  intros Hh Hd Hinj. pose proof (hook_files_NoDup table ctx HookTable.compile_order Hinj) as Hnd.
  specialize (Hnd compile_order_NoDup).
  destruct (compile_kinds_calm table ctx HookTable.compile_order false h Hh Hnd Hd) as (e & Hc & He & Hin).
  pose proof compile_order_all as Hall.
  set (hf := hook_files table ctx HookTable.compile_order) in *.
  exists (stale hf (files h)), e, (written hf (files h)). split_and!; [|done| | |by apply stale_iff].
  - unfold HookTable.compile. by rewrite Hc, orb_false_r.
  - intros k hk text Ek Et. assert (Hk : (path hk, text) ∈ hf) by (apply hook_files_elem; eauto 10).
    split; [by apply written_elem|]. by apply Hin.
  - intros p Hp. apply written_other. intros ([q t] & -> & Hq)%list_elem_of_fmap. cbn in Hp.
    apply hook_files_elem in Hq as (k & hk & _ & Ek & Eq & Et). by rewrite (Hp k hk Ek Eq) in Et.
Qed.
End rendering.

(** ** Witnesses *)
Module RenderExample.
Definition render (t : string) (_ : RenderContext.t) : option string :=
  if String.eqb t "bad" then None else Some ("port = " +:+ t).
Definition hash (s : string) : string := "h" +:+ s.

Lemma hash_inj a b : hash a = hash b -> a = b.
Proof. unfold hash. by intros ?%(inj (String.append "h")). Qed.

Definition machine : host :=
  Host {["/svc/config/a.conf" := "port = 1"; "/svc/hooks/init" := "old"; "/x" := "x"]} ∅ {["/svc/hooks/init"]}
    [] ∅ [] [] 0 [].
Definition renderer : CfgRenderer := {["a.conf" := "1"; "b.conf" := "2"]}.
Definition member : census_member := CensusMember.default [].
Definition cfg : Cfg.t := Cfg.mk None None None None 0.
Definition pkg : Pkg.t := Pkg.mk (PackageIdent.mk "core" "redis" None None) "hab" "hab" [] [] ∅ "1" "1" [].
Definition ctx : RenderContext.t :=
  RenderContext.mk pkg cfg
    (Svc.mk "redis" "default" None false false false false false false member member [] None None) ∅.
Definition the_hook (name template : string) : hook := mkHook (mkRenderPair ("/svc/hooks/" +:+ name) template) "/o" "/e".
Definition table : HookTable := fun k =>
  match k with
  | HookKind.Init => Some (the_hook "init" "1")
  | HookKind.Reload => Some (the_hook "reload" "bad")
  | _ => None
  end.

Lemma configuration_compiled_witness :
  exists f, CfgRenderer.compile render hash rev_order renderer "/svc/config" ctx machine = (set_files f machine, Return (Some true)) /\
    f !! "/svc/config/b.conf" = Some "port = 2" /\ f !! "/x" = Some "x".
Proof.
  destruct (configuration_compiled render hash hash_inj ltac:(done) rev_order renderer "/svc/config" ctx machine)
    as (changed & f & Hc & Hin & Hout & Hch).
  - done.
  - intros name t. unfold renderer. intros [[<- <-]|[_ [<- <-]%lookup_singleton_Some]]%lookup_insert_Some;
      (split; [by eexists|apply not_elem_of_empty]).
  - exists f.
    assert (Hb : f !! "/svc/config/b.conf" = Some "port = 2") by exact (Hin "b.conf" "2" eq_refl).
    assert (changed = true) as ->.
    { apply Hch. intros ->. vm_compute in Hb. discriminate Hb. }
    split_and!; [done..|]. rewrite Hout; [reflexivity|]. intros name _. discriminate.
Defined.

Lemma hooks_compiled_witness :
  exists e f, HookTable.compile render hash table ctx machine = (set_executable e (set_files f machine), Return true) /\
    f !! "/svc/hooks/init" = Some "port = 1" /\ ("/svc/hooks/init" ∈ e) /\ f !! "/svc/hooks/reload" = None.
Proof.
  destruct (hooks_compiled render hash hash_inj ltac:(done) table ctx machine) as (changed & e & f & Hc & He & Hin & Hout & Hch).
  - done.
  - intros k hk _. apply not_elem_of_empty.
  - intros k k' hk hk'. destruct k, k'; cbn; try done; intros [= <-] [= <-]; done.
  - exists e, f. destruct (Hin HookKind.Init (the_hook "init" "1") "port = 1" eq_refl eq_refl) as [H1 H2].
    assert (changed = true) as ->.
    { apply Hch. intros ->. vm_compute in H1. discriminate H1. }
    split_and!; [done..| |].
    + apply H2. discriminate.
    + rewrite Hout; [reflexivity|]. intros k hk. destruct k; cbn; try done; intros [= <-]; done.
Defined.
End RenderExample.
