(* ===== verification/ServiceCalm.v ===== *)
(** * The life of a service: its process follows

    A dead process is started again, a change of the configuration reaches the process, and a
    Supervisor that starts anew finds the process of its predecessor; and two cases in which the
    code falls short. *)

From Stdlib Require Import Ascii.
From stdpp Require Import pretty.
From S2P Require Import Prelude Regex Text ServiceGroup Ident Target Metadata Install ServiceSpec SpecWatcher Manager.
From S2P Require Import Member Messages Rumor Kinds Election Server Census CensusProofs Updater.
From S2P Require Import Cfg Templating Host Hooks ProcSupervisor ServiceRun ServiceLogic RenderProofs.
Local Open Scope string_scope.
Local Open Scope list_scope.

(** ** The supervisor of a process *)

Lemma safe_run (I : host -> Prop) (R : relation host) {A} (c : M A) (P : A -> Prop) h :
  safe (fun _ => False) I R c P -> I h -> exists a h', c h = (h', Return a) /\ P a /\ I h' /\ R h h'.
Proof.
  intros Hc Hh. specialize (Hc h Hh). destruct (c h) as [h' [a|m]]; [|by destruct Hc]. by exists a, h'.
Qed.

Lemma change_state_run st sup h :
  exists sup', Supervisor.change_state st sup h = (h, Return sup') /\ Supervisor.state sup' = st /\
    Supervisor.pid sup' = Supervisor.pid sup /\ Supervisor.pid_file sup' = Supervisor.pid_file sup.
Proof.
  unfold Supervisor.change_state. case_decide as Hs; [by exists sup|]. by eexists.
Qed.

Ltac change_state :=
  match goal with
  | |- context [Supervisor.change_state ?st ?sup ?h] =>
      let s := fresh "sup" in let H1 := fresh "Hst" in let H2 := fresh "Hpid" in let H3 := fresh "Hfile" in
      destruct (change_state_run st sup h) as (s & -> & H1 & H2 & H3)
  end.

(** The process whose number is known, or found in the file, is alive. *)
Lemma check_alive sup h p :
  Supervisor.known_pid sup h = (h, Return (Some p)) -> p ∈ alive h ->
  exists sup', Supervisor.check_process sup h = (h, Return (sup', true)) /\ Supervisor.state sup' = ProcessState.Up /\
    Supervisor.pid sup' = Some p /\ Supervisor.pid_file sup' = Supervisor.pid_file sup.
Proof.
  intros Hp Ha. unfold Supervisor.check_process. unfold mbind, M_bind. rewrite Hp. cbn.
  rewrite bool_decide_true by done. change_state. cbn. by eexists.
Qed.

Lemma check_dead sup h p :
  calm h -> Supervisor.known_pid sup h = (h, Return (Some p)) -> p ∉ alive h ->
  exists sup', Supervisor.check_process sup h =
      (set_files (delete (Supervisor.pid_file sup) (files h)) h, Return (sup', false)) /\
    Supervisor.state sup' = ProcessState.Down /\ Supervisor.pid sup' = None /\
    Supervisor.pid_file sup' = Supervisor.pid_file sup.
Proof.
  intros Hh Hp Ha. unfold Supervisor.check_process. unfold mbind, M_bind. rewrite Hp. cbn.
  rewrite bool_decide_false by done. change_state. cbn. unfold Supervisor.cleanup_pidfile.
  rewrite remove_file_calm by done. rewrite Hfile. by eexists.
Qed.

Lemma known_pid_Some sup h p : Supervisor.pid sup = Some p -> Supervisor.known_pid sup h = (h, Return (Some p)).
Proof. intros Hp. unfold Supervisor.known_pid. by rewrite Hp. Qed.

(** What the machine is after the Launcher started a process. *)
Definition after_spawn (a : action) (gone : gset Z) (p : Z) (l : list (option Z)) (file : string) (h : host) : host :=
  set_files (<[file := pretty p]> (files h)) (set_alive ({[p]} ∪ (alive h ∖ gone)) (set_replies l (act a h))).

Lemma start_calm sg sup h p l :
  calm h -> Supervisor.pid_file sup ∉ dirs h -> replies h = Some p :: l ->
  exists sup', Supervisor.start sg sup h =
      (after_spawn (Spawn (ServiceGroup.as_str sg)) ∅ p l (Supervisor.pid_file sup) h, Return (sup', Some tt)) /\
    Supervisor.state sup' = ProcessState.Up /\ Supervisor.pid sup' = Some p.
Proof.
  intros Hh Hd Hr. unfold Supervisor.start, launcher_spawn, next_reply, Supervisor.create_pidfile.
  unfold mbind, M_bind. cbn. rewrite Hr. cbn. rewrite create_and_write_calm by done. change_state. cbn.
  exists sup0. split; [|done]. unfold after_spawn. by rewrite difference_empty_L.
Qed.

Lemma restart_calm sg sup h p0 p l :
  calm h -> Supervisor.pid_file sup ∉ dirs h -> Supervisor.pid sup = Some p0 -> replies h = Some p :: l ->
  exists sup', Supervisor.restart sg sup h =
      (after_spawn (Restart p0) {[p0]} p l (Supervisor.pid_file sup) h, Return (sup', Some tt)) /\
    Supervisor.state sup' = ProcessState.Up /\ Supervisor.pid sup' = Some p.
Proof.
  intros Hh Hd Hp Hr. unfold Supervisor.restart, launcher_restart, next_reply, Supervisor.create_pidfile. rewrite Hp.
  unfold mbind, M_bind. cbn. rewrite Hr. cbn. rewrite create_and_write_calm by done. change_state. cbn. by exists sup0.
Qed.

(** ** Found again *)

(** A file that was written without an error has the contents. *)
Lemma create_and_write_done f s h h' : create_and_write f s h = (h', Return (Some tt)) -> files h' !! f = Some s.
Proof.
  unfold create_and_write, create_file, is_dir, append, next_fault, gets, modifies. unfold mbind, M_bind, mret, M_ret.
  destruct (faults h) as [|[] [|[] l]]; cbn; repeat case_match; intros; simplify_eq; cbn; repeat case_match; simplify_eq;
    cbn; rewrite ?lookup_insert_eq; done.
Qed.

Lemma read_pid_run f p h : calm h -> (0 <= p < 2 ^ 31)%Z -> files h !! f = Some (pretty p) ->
  Supervisor.read_pid f h = (h, Return (Ok p)).
Proof.
  intros Hh Hp Hf. unfold Supervisor.read_pid. unfold mbind, M_bind. rewrite read_file_calm, Hf by done.
  destruct (parse_pretty_pid p Hp) as [-> Hi]. cbn. by rewrite Hi.
Qed.

Lemma record_pid_done sup p h h1 sup1 :
  (w ← Supervisor.create_pidfile (Supervisor.set_pid (Some p) sup);
   match w with
   | None => mret (Supervisor.set_pid (Some p) sup, None)
   | Some _ => s ← Supervisor.change_state ProcessState.Up (Supervisor.set_pid (Some p) sup); mret (s, Some tt)
   end) h = (h1, Return (sup1, Some tt)) ->
  Supervisor.pid sup1 = Some p /\ files h1 !! Supervisor.pid_file sup = Some (pretty p).
Proof.
  unfold Supervisor.create_pidfile. cbn [Supervisor.pid Supervisor.set_pid Supervisor.pid_file].
  unfold mbind at 1, M_bind at 1.
  destruct (create_and_write (Supervisor.pid_file sup) (pretty p) h) as [h' [[[]|]|]] eqn:Ec; [|done..].
  unfold mbind, M_bind. change_state. cbn. intros [= <- <-]. split; [done|]. by eapply create_and_write_done.
Qed.

Lemma start_done sg sup h h1 sup1 :
  Supervisor.start sg sup h = (h1, Return (sup1, Some tt)) ->
  exists p, Supervisor.pid sup1 = Some p /\ files h1 !! Supervisor.pid_file sup = Some (pretty p).
Proof.
  unfold Supervisor.start. unfold mbind at 1, M_bind at 1. destruct (launcher_spawn _ h) as [h' [[p|]|]]; [|done..].
  intros Hd. exists p. by eapply record_pid_done.
Qed.

Lemma restart_done sg sup h h1 sup1 :
  Supervisor.restart sg sup h = (h1, Return (sup1, Some tt)) ->
  exists p, Supervisor.pid sup1 = Some p /\ files h1 !! Supervisor.pid_file sup = Some (pretty p).
Proof.
  unfold Supervisor.restart. destruct (Supervisor.pid sup) as [p0|]; [|apply start_done].
  unfold mbind at 1, M_bind at 1. destruct (launcher_restart p0 h) as [h' [[p|]|]]; [| |done].
  - intros Hd. exists p. by eapply record_pid_done.
  - unfold mbind, M_bind, Supervisor.cleanup_pidfile. destruct (remove_file _ h') as [h'' []]; [|done].
    change_state. done.
Qed.

(** When the process of a service was started or restarted without an error, whatever file
    operations failed on the way, the file holds its number; and a Supervisor that starts anew
    while the process is alive takes over exactly that process, without asking the Launcher. *)
Theorem process_found_again `{!RegexEngine} root sg svc sup h h1 sup1 :
  ServiceGroup.service sg = Return svc -> Supervisor.pid_file sup = svc_pid_file root svc ->
  Supervisor.start sg sup h = (h1, Return (sup1, Some tt)) \/ Supervisor.restart sg sup h = (h1, Return (sup1, Some tt)) ->
  exists p, Supervisor.pid sup1 = Some p /\ forall h2,
    (0 <= p < 2 ^ 31)%Z -> calm h2 -> p ∈ alive h2 ->
    files h2 !! svc_pid_file root svc = files h1 !! svc_pid_file root svc ->
    exists sup2, (s ← Supervisor.new root sg; Supervisor.check_process s) h2 = (h2, Return (sup2, true)) /\
      Supervisor.pid sup2 = Some p /\ Supervisor.state sup2 = ProcessState.Up.
Proof.
  intros Hsvc Hfile Hs.
  assert (exists p, Supervisor.pid sup1 = Some p /\ files h1 !! Supervisor.pid_file sup = Some (pretty p)) as (p & Hp & Hf).
  { destruct Hs; [by eapply start_done|by eapply restart_done]. }
  exists p. split; [done|]. intros h2 Hrange Hh Ha Hf2. rewrite Hfile in Hf. rewrite Hf in Hf2.
  set (s := Supervisor.mk (ServiceGroup.as_str sg) ProcessState.Down (clock h2) None (svc_pid_file root svc)).
  assert (Hnew : Supervisor.new root sg h2 = (h2, Return s)).
  { unfold Supervisor.new. rewrite Hsvc. done. }
  unfold mbind, M_bind. rewrite Hnew.
  destruct (check_alive s h2 p) as (sup2 & -> & Hst & Hpid & _); [|done|by exists sup2].
  unfold Supervisor.known_pid, path_exists. cbn. unfold mbind, M_bind. cbn. rewrite Hf2. cbn.
  by rewrite read_pid_run with (p := p).
Qed.

(** ** Ticks *)
Section ticks.
Context `{!RegexEngine} (o : order) (root data_path : string).
Context (render : string -> RenderContext.t -> option string) (hash : string -> string).
Context (ring : census_ring) (self : RunService.t) (g : census_group) (h0 : host).
Abbreviation tick := (RunService.tick o root data_path render hash).

(** No file operation fails, and the directories stay as they are. *)
Definition fine (h : host) : Prop := calm h /\ dirs h = dirs h0.
Abbreviation no_panic := (fun _ : string => False).

Lemma untouched_fine h h' : untouched h h' -> fine h -> fine h'.
Proof.
  intros [] [Hf Hd]. split; [|congruence]. unfold calm in *. rewrite Hf in *. by apply suffix_nil_inv.
Qed.

Lemma program_fine p l h : fine h ->
  fine (set_runs l (act (RunProgram p) h)) /\ idle h (set_runs l (act (RunProgram p) h)).
Proof.
  intros [Hf Hd]. split; [by split|]. split; try done. unfold launched. cbn. rewrite filter_app. cbn. by rewrite app_nil_r.
Qed.

Definition no_dir (p : string) : Prop := p ∉ dirs h0.

Lemma create_log p : no_dir p ->
  safe no_panic fine idle (create_file p) (fun r => r = None -> no_panic "couldn't create log output file").
Proof.
  intros Hp h [Hh Hd]. rewrite create_file_calm by (try done; by rewrite Hd). split_and!; [done|by split|].
  apply untouched_idle. by split.
Qed.

Lemma append_log p s : no_dir p ->
  safe no_panic fine idle (append p s) (fun r => r = None -> no_panic "couldn't write line").
Proof.
  intros Hp h [Hh Hd]. rewrite append_calm by done. split_and!; [done|by split|]. apply untouched_idle. by split.
Qed.

Abbreviation hooks_fine s := (table_logs no_dir (RunService.hooks s)).
Context (Hshown : shown_in ring (RunService.service_group self) g).
Context (Hlogs : hooks_fine self) (Hinit : RunService.initialized self = true).
Context (Hpidfile : no_dir (Supervisor.pid_file (RunService.supervisor self))).

(** The first half of a tick. *)
Lemma tick_prefix h : fine h ->
  exists s1 u h1 h2, RunService.update_templates o root render hash ring self h = (h1, Return (s1, u)) /\
    rendered_from self s1 /\ fine h2 /\ idle h h2 /\
    tick ring self h = (s ← RunService.act_for_topology data_path ring s1; mret (s, u)) h2.
Proof.
  intros Hh. unfold RunService.tick. rewrite Hinit. cbn [negb andb].
  destruct (safe_run fine idle _ _ h (safe_update_templates no_panic fine idle untouched_idle untouched_fine
    o root render hash ring g self Hshown self ltac:(done)) Hh) as ([s1 u] & h1 & Ht & Hs1 & Hh1 & Hi1).
  cbn in Hs1. destruct (safe_run fine idle _ _ h1 (safe_update_service_files no_panic fine idle untouched_idle untouched_fine
    root hash ring g self Hshown s1 Hs1) Hh1) as (upd & h1' & Hu & _ & Hh1' & Hi1').
  assert (Hlogs1 : hooks_fine s1) by (destruct Hs1 as (_ & -> & _); done).
  destruct (safe_run fine idle _ _ h1' (safe_file_updated no_panic fine idle untouched_idle untouched_fine
    program_fine no_dir create_log append_log s1 Hlogs1) Hh1') as (r & h2 & Hf & _ & Hh2 & Hi2).
  set (h2' := if upd then h2 else h1').
  exists s1, u, h1, h2'. split_and!; [done|done|by destruct upd|destruct upd; by do 2 (etrans; [done|])|].
  unfold mbind at 1, M_bind at 1. rewrite Ht. unfold mbind at 1, M_bind at 1. rewrite Hu.
  unfold mbind at 1, M_bind at 1. destruct upd; cbn; [by rewrite Hf|done].
Qed.

(** The health check, if it is due. *)
Lemma health_stage s h : RunService.service_group s = RunService.service_group self -> hooks_fine s -> fine h ->
  exists c h', (if RunService.health_check_due (clock h) s then RunService.run_health_check_hook data_path s else mret s) h =
      (h', Return (RunService.set_last_health_check c s)) /\ fine h' /\ idle h h'.
Proof.
  intros Hsg Hl Hh. destruct (RunService.health_check_due _ s).
  - destruct Hshown as (_ & Hw & _).
    destruct (safe_run fine idle _ _ h (safe_run_health_check_hook no_panic fine idle untouched_idle untouched_fine
      program_fine no_dir create_log append_log data_path s ltac:(rewrite Hsg; apply (gw_parses _ _ _ Hw)) Hl) Hh)
      as (s' & h' & Hr & [c ->] & Hh' & Hi). by exists c, h'.
  - exists (RunService.last_health_check s), h. split_and!; [by destruct s|done|done].
Qed.

(** The reconfigure hook, if it is due. *)
Lemma reconfigure_stage s h : hooks_fine s -> fine h ->
  exists s' h', (if RunService.needs_reconfiguration s then RunService.reconfigure s else mret s) h = (h', Return s') /\
    RunService.supervisor s' = RunService.supervisor s /\ RunService.needs_reload s' = RunService.needs_reload s /\
    RunService.needs_reconfiguration s' = false /\ fine h' /\ idle h h'.
Proof.
  intros Hl Hh. destruct (RunService.needs_reconfiguration s) eqn:En; [|by exists s, h].
  destruct (safe_run fine idle _ _ h (safe_reconfigure no_panic fine idle untouched_idle untouched_fine
    program_fine no_dir create_log append_log s Hl) Hh) as (s' & h' & Hr & -> & Hh' & Hi).
  by eexists _, h'.
Qed.

Lemma after_spawn_facts a gone p l f h : is_launcher a = true -> fine h ->
  fine (after_spawn a gone p l f h) /\ p ∈ alive (after_spawn a gone p l f h) /\
  launched (after_spawn a gone p l f h) = launched h ++ [a].
Proof using.
  intros Ha [Hf Hd]. split_and!; [by split|apply elem_of_union_l, elem_of_singleton_2; done|]. unfold launched. cbn. rewrite filter_app. cbn.
  by rewrite decide_True.
Qed.

(** The second half of a tick, for an initialized service whose process was looked at. *)
Lemma execute_run s h h1 sup b : fine h1 -> hooks_fine s -> RunService.service_group s = RunService.service_group self ->
  RunService.initialized s = true ->
  Supervisor.check_process (RunService.supervisor s) h = (h1, Return (sup, b)) ->
  exists c h2, fine h2 /\ idle h1 h2 /\
    let s2 := RunService.set_last_health_check c (RunService.set_supervisor sup s) in
    RunService.execute_hooks data_path s h =
      (if (RunService.needs_reload s2 || RunService.process_down s2 || RunService.needs_reconfiguration s2)%bool then
         s3 ← RunService.reload s2;
         if RunService.needs_reconfiguration s3 then RunService.reconfigure s3 else mret s3
       else mret s2) h2.
Proof.
  intros Hh1 Hl Hsg Hi Hc. unfold RunService.execute_hooks. rewrite Hi.
  destruct (health_stage (RunService.set_supervisor sup s) h1 Hsg Hl Hh1) as (c & h2 & Hr & Hh2 & Hi2).
  exists c, h2. split_and!; [done..|]. cbn zeta. unfold RunService.check_process.
  unfold mbind at 1, M_bind at 1. unfold mbind at 1, M_bind at 1. rewrite Hc. cbn [mret M_ret].
  unfold mret at 1, M_ret at 1. cbn beta iota. unfold mbind at 1, M_bind at 1. cbn [gets].
  unfold mbind at 1, M_bind at 1. by rewrite Hr.
Qed.
End ticks.

Section properties.
Context `{!RegexEngine} (o : order) (root data_path : string).
Context (render : string -> RenderContext.t -> option string) (hash : string -> string).
Abbreviation tick := (RunService.tick o root data_path render hash).

(** The service may act: always in the topology Standalone, and in the topology Leader when the
    election of its group is finished and the census knows the leader. *)
Definition acts (ring : census_ring) (self : RunService.t) : Prop :=
  match SupService.topology (RunService.core self) with
  | Topology.Standalone => True
  | Topology.Leader => exists g, CensusRing.census_group_for ring (RunService.service_group self) = Some g /\
      CensusGroup.election_status g = ElectionStatus.ElectionFinished /\ is_Some (CensusGroup.leader_id g)
  end.

Lemma acts_execute ring self h : acts ring self ->
  exists st, RunService.act_for_topology data_path ring self h =
    RunService.execute_hooks data_path (RunService.set_election_status st self) h.
Proof using.
  unfold acts, RunService.act_for_topology. destruct (SupService.topology _).
  - intros _. exists (RunService.last_election_status self). by destruct self.
  - intros (g & -> & Hf & [l Hl]). exists (CensusGroup.election_status g). unfold expects, mbind, M_bind, from_outcome.
    cbn. rewrite Hf. cbn. rewrite Hl. cbn. case_decide as Hst; [|done]. rewrite <- Hst. by destruct self.
Qed.

(** A service that runs on a machine whose files can be written: it is initialized and may act,
    its group is in the census, and neither its logs nor the file with the number of its process
    are directories. *)
Record running (ring : census_ring) (self : RunService.t) (h : host) : Prop := {
  rn_calm : calm h;
  rn_shown : exists g, shown_in ring (RunService.service_group self) g;
  rn_acts : acts ring self;
  rn_initialized : RunService.initialized self = true;
  rn_logs : table_logs (fun p => p ∉ dirs h) (RunService.hooks self);
  rn_pid_file : Supervisor.pid_file (RunService.supervisor self) ∉ dirs h;
}.

(** A tick, up to the request to the Launcher. *)
Lemma running_tick ring self h p : running ring self h -> Supervisor.pid (RunService.supervisor self) = Some p ->
  exists s1 u h1 st sup c h2,
    RunService.update_templates o root render hash ring self h = (h1, Return (s1, u)) /\ rendered_from self s1 /\
    Supervisor.pid_file sup = Supervisor.pid_file (RunService.supervisor self) /\
    (if decide (p ∈ alive h) then Supervisor.state sup = ProcessState.Up /\ Supervisor.pid sup = Some p
     else Supervisor.state sup = ProcessState.Down /\ Supervisor.pid sup = None) /\
    fine h h2 /\ idle h h2 /\
    let s2 := RunService.set_last_health_check c (RunService.set_supervisor sup (RunService.set_election_status st s1)) in
    tick ring self h =
      (s ← (if (RunService.needs_reload s2 || RunService.process_down s2 || RunService.needs_reconfiguration s2)%bool then
              s3 ← RunService.reload s2;
              if RunService.needs_reconfiguration s3 then RunService.reconfigure s3 else mret s3
            else mret s2); mret (s, u)) h2.
Proof.
  intros [Hh [g Hs] Ht Hi Hl Hp] Hpid.
  destruct (tick_prefix o root data_path render hash ring self g h Hs Hl Hi h ltac:(by split))
    as (s1 & u & h1 & h1' & Hup & Hs1 & Hh1 & Hi1 & Htick).
  destruct Hs1 as (Hc1 & Hk1 & Hr1 & Hsup1 & Hrest).
  assert (Hc : exists h3 sup b, Supervisor.check_process (RunService.supervisor s1) h1' = (h3, Return (sup, b)) /\
    fine h h3 /\ idle h1' h3 /\ Supervisor.pid_file sup = Supervisor.pid_file (RunService.supervisor self) /\
    (if decide (p ∈ alive h) then Supervisor.state sup = ProcessState.Up /\ Supervisor.pid sup = Some p
     else Supervisor.state sup = ProcessState.Down /\ Supervisor.pid sup = None)).
  { rewrite Hsup1. pose proof (known_pid_Some _ h1' _ Hpid) as Hk. case_decide as Ha.
    - destruct (check_alive _ h1' p Hk) as (sup & Hc & Hst & Hpp & Hf); [by rewrite (id_alive _ _ Hi1)|].
      by exists h1', sup, true.
    - destruct (check_dead _ h1' p (proj1 Hh1) Hk) as (sup & Hc & Hst & Hpp & Hf); [by rewrite (id_alive _ _ Hi1)|].
      eexists _, sup, false. split_and!; [done|apply Hh1| |done..]. apply untouched_idle. by split. }
  destruct Hc as (h3 & sup & b & Hc & Hh3 & Hi3 & Hf & Hst).
  destruct (acts_execute ring s1 h1') as [st Hact]; [unfold acts, RunService.service_group; by rewrite Hc1|].
  destruct (execute_run data_path ring self g h Hs (RunService.set_election_status st s1) h1' h3 sup b Hh3) as (c & h2 & Hh2 & Hi2 & He).
  - cbn. by rewrite Hk1.
  - unfold RunService.service_group. cbn. by rewrite Hc1.
  - unfold RunService.initialized. cbn. by rewrite Hc1.
  - done.
  - exists s1, u, h1, st, sup, c, h2. split_and!; [done..| |].
    + etrans; [exact Hi1|]. by etrans.
    + cbn zeta in *. rewrite Htick. unfold mbind at 1, M_bind at 1. by rewrite Hact, He.
Qed.

(** C9: when the process of an initialized service has died, and no file operation fails, the next
    tick starts it again with one request to the Launcher, whatever hooks do and whatever else the
    tick renders: a process that the Launcher started is alive, and it is the one the service
    watches from then on.  In the topology Leader the election of the group must be finished and
    its leader known; until then the service waits. *)
Theorem dead_process_restarted ring self h p p' l :
  running ring self h ->
  Supervisor.pid (RunService.supervisor self) = Some p -> p ∉ alive h -> replies h = Some p' :: l ->
  exists self' b h', tick ring self h = (h', Return (self', b)) /\
    p' ∈ alive h' /\ Supervisor.pid (RunService.supervisor self') = Some p' /\
    Supervisor.state (RunService.supervisor self') = ProcessState.Up /\
    launched h' = launched h ++ [Spawn (ServiceGroup.as_str (RunService.service_group self))].
Proof.
  intros Hrun Hpid Ha Hrep.
  destruct (running_tick ring self h p Hrun Hpid) as (s1 & u & h1 & st & sup & c & h2 & _ & Hs1 & Hf & Hsup & Hh2 & Hi2 & Ht).
  rewrite decide_False in Hsup by done. destruct Hsup as [Hst Hp]. cbn zeta in Ht. rewrite Ht. clear Ht.
  set (s2 := RunService.set_last_health_check _ _). destruct Hs1 as (Hc1 & Hk1 & _).
  assert (Hd : RunService.process_down s2 = true) by (unfold RunService.process_down; by rewrite bool_decide_true).
  rewrite Hd, orb_true_r. cbn [orb]. unfold mbind at 1, M_bind at 1. unfold mbind at 1, M_bind at 1.
  unfold RunService.reload. cbn zeta.
  assert (Hd' : RunService.process_down (RunService.set_needs false (RunService.needs_reconfiguration s2) s2) = true) by exact Hd.
  rewrite Hd'. cbn [orb]. unfold Supervisor.restart. cbn [RunService.supervisor RunService.set_needs].
  change (RunService.supervisor s2) with sup. rewrite Hp.
  destruct (start_calm (RunService.service_group s1) sup h2 p' l) as (sup' & Hstart & Hst' & Hp').
  { apply Hh2. } { rewrite Hf. destruct Hh2 as [_ ->]. apply Hrun. } { rewrite (id_replies _ _ Hi2). done. }
  change (RunService.service_group (RunService.set_needs false (RunService.needs_reconfiguration s2) s2))
    with (RunService.service_group s1).
  unfold mbind at 1, M_bind at 1. rewrite Hstart. cbn beta iota.
  destruct (after_spawn_facts h (Spawn (ServiceGroup.as_str (RunService.service_group s1))) ∅ p' l (Supervisor.pid_file sup) h2
    eq_refl Hh2) as (Hh3 & Hal & Hla).
  set (h3 := after_spawn _ _ _ _ _ _) in *. set (s3 := RunService.set_supervisor _ _).
  destruct (reconfigure_stage h s3 h3) as (s4 & h4 & Hr4 & Hsup4 & _ & _ & Hh4 & Hi4); [|done|].
  { change (RunService.hooks s3) with (RunService.hooks s1). rewrite Hk1. apply Hrun. }
  unfold mret at 1, M_ret at 1. cbn beta iota. rewrite Hr4. exists s4, u, h4. rewrite Hsup4. split_and!; [done| |done..|].
  - rewrite (id_alive _ _ Hi4). done.
  - rewrite (id_launched _ _ Hi4), Hla, (id_launched _ _ Hi2). unfold RunService.service_group. by rewrite Hc1.
Qed.

(** The reload hook runs. *)
Lemma reload_hook_stage h0 s h : table_logs (no_dir h0) (RunService.hooks s) -> fine h0 h ->
  exists r h', RunService.run_hook HookKind.Reload s h = (h', Return r) /\ fine h0 h' /\ idle h h'.
Proof.
  intros Hl Hh. destruct (safe_run (fine h0) idle _ _ h (safe_run_hook (fun _ => False) (fine h0) idle untouched_idle
    (untouched_fine h0) (program_fine h0) (no_dir h0) (create_log h0) (append_log h0) HookKind.Reload s ltac:(done) Hl) Hh)
    as (r & h' & Hr & _ & Hh' & Hi). by exists r, h'.
Qed.

(** C10: when rendering the templates changed a hook or a configuration file of an initialized
    service whose process is alive, and no file operation fails, the same tick lets the process
    know: without a reload hook it is restarted by one request to the Launcher and the new process
    is watched; with one, the hook is left to do it and the process goes on.  Afterwards no change
    is pending.  In the topology Leader the election of the group must be finished and its leader
    known; while it runs, the process is left alone. *)
Theorem change_reaches_process ring self h p p' l h1 s1 u :
  running ring self h ->
  Supervisor.pid (RunService.supervisor self) = Some p -> p ∈ alive h -> replies h = Some p' :: l ->
  RunService.update_templates o root render hash ring self h = (h1, Return (s1, u)) ->
  (RunService.needs_reload s1 || RunService.needs_reconfiguration s1)%bool = true ->
  exists self' h', tick ring self h = (h', Return (self', u)) /\
    RunService.needs_reload self' = false /\ RunService.needs_reconfiguration self' = false /\
    Supervisor.state (RunService.supervisor self') = ProcessState.Up /\
    match RunService.hooks self HookKind.Reload with
    | None => Supervisor.pid (RunService.supervisor self') = Some p' /\ p' ∈ alive h' /\
        launched h' = launched h ++ [Restart p]
    | Some _ => Supervisor.pid (RunService.supervisor self') = Some p /\ p ∈ alive h' /\ launched h' = launched h
    end.
Proof.
  intros Hrun Hpid Ha Hrep Hup Hneeds.
  destruct (running_tick ring self h p Hrun Hpid) as (s1' & u' & h1' & st & sup & c & h2 & Hup' & Hs1 & Hf & Hsup & Hh2 & Hi2 & Ht).
  rewrite Hup in Hup'. simplify_eq. rewrite decide_True in Hsup by done. destruct Hsup as [Hst Hp].
  cbn zeta in Ht. rewrite Ht. clear Ht Hup.
  set (s2 := RunService.set_last_health_check _ _). destruct Hs1 as (Hc1 & Hk1 & _).
  assert (Hd : RunService.process_down s2 = false) by (unfold RunService.process_down; rewrite bool_decide_false; [done|]; cbn; by rewrite Hst).
  rewrite Hd, orb_false_r. change (RunService.needs_reload s2) with (RunService.needs_reload s1').
  change (RunService.needs_reconfiguration s2) with (RunService.needs_reconfiguration s1'). rewrite Hneeds.
  unfold mbind at 1, M_bind at 1. unfold mbind at 1, M_bind at 1. unfold RunService.reload. cbn zeta.
  set (s2' := RunService.set_needs false (RunService.needs_reconfiguration s2) s2).
  change (RunService.process_down s2') with (RunService.process_down s2). rewrite Hd. cbn [orb].
  change (RunService.hooks s2') with (RunService.hooks s1'). rewrite Hk1.
  assert (Hl2 : table_logs (no_dir h) (RunService.hooks s2')).
  { change (RunService.hooks s2') with (RunService.hooks s1'). rewrite Hk1. apply Hrun. }
  destruct (RunService.hooks self HookKind.Reload) as [hk|].
  - rewrite bool_decide_false by done. destruct (reload_hook_stage h s2' h2 Hl2 Hh2) as (r & h3 & Hr & Hh3 & Hi3).
    unfold mbind at 1, M_bind at 1. rewrite Hr. unfold mret at 1, M_ret at 1. cbn beta iota.
    destruct (reconfigure_stage h s2' h3 Hl2 Hh3) as (s4 & h4 & Hr4 & Hsup4 & Hn1 & Hn2 & Hh4 & Hi4).
    rewrite Hr4. exists s4, h4. rewrite Hsup4, Hn1. split_and!; [done..| |].
    + by rewrite (id_alive _ _ Hi4), (id_alive _ _ Hi3), (id_alive _ _ Hi2).
    + by rewrite (id_launched _ _ Hi4), (id_launched _ _ Hi3), (id_launched _ _ Hi2).
  - rewrite bool_decide_true by done. change (RunService.supervisor s2') with sup.
    destruct (restart_calm (RunService.service_group s2') sup h2 p p' l) as (sup' & Hrs & Hst' & Hp').
    { apply Hh2. } { rewrite Hf. destruct Hh2 as [_ ->]. apply Hrun. } { done. } { rewrite (id_replies _ _ Hi2). done. }
    unfold mbind at 1, M_bind at 1. rewrite Hrs. cbn beta iota.
    destruct (after_spawn_facts h (Restart p) {[p]} p' l (Supervisor.pid_file sup) h2 eq_refl Hh2) as (Hh3 & Hal & Hla).
    set (h3 := after_spawn _ _ _ _ _ _) in *. unfold mret at 1, M_ret at 1. cbn beta iota.
    set (s3 := RunService.set_supervisor sup' s2').
    destruct (reconfigure_stage h s3 h3 Hl2 Hh3) as (s4 & h4 & Hr4 & Hsup4 & Hn1 & Hn2 & Hh4 & Hi4).
    rewrite Hr4. exists s4, h4. rewrite Hsup4, Hn1. split_and!; [done..| |].
    + by rewrite (id_alive _ _ Hi4).
    + by rewrite (id_launched _ _ Hi4), Hla, (id_launched _ _ Hi2).
Qed.

(** What is written to disk is what the templates give. *)
Definition up_to_date (self : RunService.t) (ctx : RenderContext.t) (h : host) : Prop :=
  (forall k hk text, RunService.hooks self k = Some hk -> render (rp_template (render_pair hk)) ctx = Some text ->
     files h !! path hk = Some text) /\
  (forall name t, RunService.config_renderer self !! name = Some t -> exists text, render t ctx = Some text /\
     files h !! join_path (svc_config_path root (RunService.pkg_name self)) name = Some text).

(** No template is rendered to a directory, and no two hooks to the same file. *)
Definition renders_to_files (self : RunService.t) (h : host) : Prop :=
  (forall k hk, RunService.hooks self k = Some hk -> path hk ∉ dirs h) /\
  (forall k k' hk hk', RunService.hooks self k = Some hk -> RunService.hooks self k' = Some hk' -> path hk = path hk' -> k = k') /\
  (forall name, is_Some (RunService.config_renderer self !! name) ->
     join_path (svc_config_path root (RunService.pkg_name self)) name ∉ dirs h).

Lemma copy_run_frame self h : calm h ->
  exists r h', RunService.copy_run root self h = (h', Return r) /\ untouched h h' /\
    forall p, p <> join_path (svc_path root (RunService.pkg_name self)) "run" -> files h' !! p = files h !! p.
Proof using.
  intros Hh. set (q := join_path _ "run").
  assert (Hcopy : forall from, exists r h',
    (c ← copy_file from q; match c with None => mret None | Some _ => make_executable q end) h = (h', Return r) /\
    untouched h h' /\ forall p, p <> q -> files h' !! p = files h !! p).
  { intros from. unfold copy_file. unfold mbind, M_bind. rewrite next_fault_calm by done. cbn.
    destruct (files h !! from) as [c|]; cbn.
    - rewrite make_executable_calm by done. eexists _, _. split; [done|]. split; [by split|].
      intros p Hp. cbn. by apply lookup_insert_ne.
    - by eexists _, _. }
  unfold RunService.copy_run. fold q. destruct (RunService.hooks self HookKind.Run) as [hk|]; [apply Hcopy|].
  unfold path_exists. unfold mbind at 1, M_bind at 1. unfold gets at 1. cbn beta iota. destruct (_ || _)%bool; [apply Hcopy|].
  by eexists _, _.
Qed.

Lemma append_assoc_text (a b c : string) : (a +:+ b) +:+ c = a +:+ (b +:+ c).
Proof using. induction a as [|x a IH]; [reflexivity|].
  change (String x ((a +:+ b) +:+ c) = String x (a +:+ (b +:+ c))). by rewrite IH. Qed.

Lemma config_not_run name a : join_path (svc_config_path root name) a <> join_path (svc_path root name) "run".
Proof.
  unfold join_path, svc_config_path. intros E. rewrite append_assoc_text in E.
  apply (inj (String.append (svc_path root name))) in E. done.
Qed.

Context (hash_inj : forall a b, hash a = hash b -> a = b) (hash_some : forall a, hash a <> "").

(** Rendering what is on disk already makes nothing pending. *)
Lemma update_templates_up_to_date ring self g ctx h :
  calm h -> shown_in ring (RunService.service_group self) g -> CensusRing.changed ring = true ->
  RunService.render_context ring (RunService.set_cfg (Cfg.update g (RunService.cfg self)).1 self) = Return ctx ->
  renders_to_files self h -> up_to_date self ctx h ->
  exists self' b h', RunService.update_templates o root render hash ring self h = (h', Return (self', b)) /\
    RunService.needs_reload self' = false /\ RunService.needs_reconfiguration self' = false.
Proof.
  intros Hh (Hg & _) Hch Hctx (Hd & Hinj & Hdc) (Hhk & Hcf).
  unfold RunService.update_templates. rewrite Hg. rewrite (bind_return _ _ h h g) by done.
  destruct (Cfg.update g (RunService.cfg self)) as [cfg u]. cbn in Hctx. cbn beta iota zeta. rewrite Hch, orb_true_r.
  rewrite Hctx. rewrite (bind_return _ _ h h ctx) by done. set (self1 := RunService.set_cfg cfg self).
  (* the hooks *)
  pose proof (hook_files_NoDup render (RunService.hooks self) ctx _ Hinj compile_order_NoDup) as Hnd.
  destruct (compile_kinds_calm render hash hash_inj hash_some (RunService.hooks self) ctx HookTable.compile_order false h Hh Hnd Hd)
    as (e & Hc & _).
  set (hf := hook_files _ _ _ _) in *.
  assert (Hst : Forall (fun x => files h !! x.1 = Some x.2) hf).
  { apply Forall_forall. intros [p t] (k & hk & _ & Ek & <- & Et)%hook_files_elem. by eapply Hhk. }
  rewrite (proj2 (stale_false hf (files h)) Hst), (written_id hf _ Hst) in Hc. cbn [orb] in Hc.
  set (h1 := set_executable _ _) in Hc. destruct (copy_run_frame self1 h1 Hh) as (r & h2 & Hcr & Hu & Hfr).
  assert (Hhooks : RunService.compile_hooks root render hash ctx self1 h = (h2, Return false)).
  { unfold RunService.compile_hooks. rewrite (bind_return _ _ h h1 false) by exact Hc.
    by rewrite (bind_return _ _ h1 h2 r). }
  rewrite (bind_return _ _ h h2 false) by exact Hhooks.
  (* the configuration *)
  assert (Hcalm2 : calm h2).
  { pose proof (un_faults _ _ Hu) as Hs. unfold calm in *. change (faults h1) with (faults h) in Hs.
    rewrite Hh in Hs. by apply suffix_nil_inv. }
  destruct (config_up_to_date render hash hash_inj hash_some o (RunService.config_renderer self)
    (svc_config_path root (RunService.pkg_name self)) ctx h2 Hcalm2) as (f & Hcc).
  { intros name t Hn. destruct (Hcf name t Hn) as (text & Ht & Hf). exists text. split_and!; [done| |].
    - rewrite Hfr by apply config_not_run. done.
    - rewrite (un_dirs _ _ Hu). apply Hdc. by eexists. }
  rewrite (bind_return _ _ h2 (set_files f h2) false); [by eexists _, _, _|].
  unfold RunService.compile_configuration. by rewrite (bind_return _ _ h2 (set_files f h2) (Some false)).
Qed.

(** C40: a change that was rendered while the service may not act is forgotten.  In the topology
    Leader, with the election of the group not finished, a reload or reconfiguration may be
    pending; but a tick with a changed census in which the files are up to date takes it back,
    and the process, which was asked nothing, is never told about the change. *)
Theorem pending_change_lost ring self g ctx h :
  calm h -> shown_in ring (RunService.service_group self) g -> CensusRing.changed ring = true ->
  SupService.topology (RunService.core self) = Topology.Leader ->
  CensusGroup.election_status g <> ElectionStatus.ElectionFinished ->
  RunService.initialized self = true -> table_logs (no_dir h) (RunService.hooks self) ->
  RunService.render_context ring (RunService.set_cfg (Cfg.update g (RunService.cfg self)).1 self) = Return ctx ->
  renders_to_files self h -> up_to_date self ctx h ->
  exists self' b h', tick ring self h = (h', Return (self', b)) /\
    RunService.needs_reload self' = false /\ RunService.needs_reconfiguration self' = false /\
    launched h' = launched h /\ alive h' = alive h.
Proof.
  intros Hh Hs Hch Ht Hne Hi Hl Hctx Hr Hu.
  destruct (update_templates_up_to_date ring self g ctx h Hh Hs Hch Hctx Hr Hu) as (s1 & u & h1 & Hup & Hn1 & Hn2).
  destruct (tick_prefix o root data_path render hash ring self g h Hs Hl Hi h ltac:(by split))
    as (s1' & u' & h1' & h2 & Hup' & Hs1 & Hh2 & Hi2 & Htick).
  rewrite Hup in Hup'. simplify_eq. destruct Hs1 as (Hc1 & _). destruct Hs as (Hg & _).
  assert (Hact : exists s2, RunService.act_for_topology data_path ring s1' h2 = (h2, Return s2) /\
    RunService.needs_reload s2 = false /\ RunService.needs_reconfiguration s2 = false).
  { unfold RunService.act_for_topology, RunService.service_group. rewrite Hc1, Ht.
    change (SupService.service_group (RunService.core self)) with (RunService.service_group self). rewrite Hg.
    rewrite (bind_return _ _ h2 h2 g) by done. cbn zeta.
    destruct (CensusGroup.election_status g); try done; (eexists; split; [done|]; by case_decide). }
  destruct Hact as (s2 & Hact & Hm1 & Hm2). exists s2, u', h2. rewrite Htick. rewrite (bind_return _ _ h2 h2 s2) by done.
  split_and!; [done..|apply Hi2|apply Hi2].
Qed.

(** A file with the number of the process whose first line is no number, such as the empty file
    that an interrupted write leaves, makes the first tick of a service panic: a Supervisor that
    starts anew does not come up until the file is removed. *)
Theorem corrupt_pid_file_panics ring self h contents :
  calm h -> Supervisor.pid (RunService.supervisor self) = None ->
  files h !! Supervisor.pid_file (RunService.supervisor self) = Some contents ->
  (forall line, head (lines contents) = Some line -> parse_i32 line = None) ->
  (RunService.execute_hooks data_path self h).2 = Panic "unwrap of read_pid" /\
  (SupService.topology (RunService.core self) = Topology.Standalone ->
   (RunService.act_for_topology data_path ring self h).2 = Panic "unwrap of read_pid").
Proof.
  intros Hh Hp Hf Hc.
  assert (Hk : Supervisor.known_pid (RunService.supervisor self) h = (h, Panic "unwrap of read_pid")).
  { unfold Supervisor.known_pid. rewrite Hp. rewrite (bind_return _ _ h h true).
    2: { unfold path_exists, gets. by rewrite Hf. }
    destruct (head (lines contents)) as [line|] eqn:El.
    - rewrite (bind_return _ _ h h (Err (PidFileCorrupt (Supervisor.pid_file (RunService.supervisor self))))); [done|].
      unfold Supervisor.read_pid. rewrite (bind_return _ _ h h (Some contents)) by (rewrite read_file_calm by done; by rewrite Hf).
      rewrite El. by rewrite (Hc line).
    - rewrite (bind_return _ _ h h (Err (PidFileCorrupt (Supervisor.pid_file (RunService.supervisor self))))); [done|].
      unfold Supervisor.read_pid. rewrite (bind_return _ _ h h (Some contents)) by (rewrite read_file_calm by done; by rewrite Hf).
      by rewrite El. }
  assert (He : (RunService.execute_hooks data_path self h).2 = Panic "unwrap of read_pid").
  { unfold RunService.execute_hooks, RunService.check_process, Supervisor.check_process.
    destruct (RunService.initialized self); unfold mbind, M_bind; by rewrite Hk. }
  split; [done|]. intros Ht. unfold RunService.act_for_topology. by rewrite Ht.
Qed.
End properties.
