(* ===== verification/ServiceExample.v ===== *)
(** * A service, tick by tick

    One service on a machine, with the witnesses of the theorems of [ServiceProofs] and
    [ServiceCalm]. *)

From Stdlib Require Import Ascii.
From S2P Require Import Prelude Regex Text ServiceGroup Ident Target Metadata Install ServiceSpec SpecWatcher Manager.
From S2P Require Import Member Messages Rumor Kinds Election Server ServerProofs Census CensusProofs Updater.
From S2P Require Import Cfg Templating Host Hooks ProcSupervisor ServiceRun ServiceLogic ServiceProofs RenderProofs ServiceCalm.
Local Open Scope string_scope.
Local Open Scope list_scope.

Module ServiceExample.
#[local] Existing Instance reference_engine.

Definition member (id : string) : census_member :=
  CensusMember.set_health true false false false
    (CensusMember.set_identity id None None None "svc" "grp" None default_sys_info [] (CensusMember.default [])).
Definition group (st : ElectionStatus.t) : census_group :=
  CensusGroup.mk ex_group st ElectionStatus.None_ None None "a" {["a" := member "a"]} None [] ∅.
Definition ring (changed : bool) (st : ElectionStatus.t) : census_ring :=
  CensusRing.mk changed {[ex_group := group st]} "a" 0 0 0 0 0 0.

Lemma group_ok st : group_wf "a" ex_group (group st).
Proof.
  split; try done; cbn.
  - intros id cm [<- <-]%lookup_singleton_Some. done.
  - intros id cm [<- <-]%lookup_singleton_Some. unfold flags_ok. cbn. lia.
  - intros id. split; [done|]. intros (cm & [<- <-]%lookup_singleton_Some & H). done.
  - intros id. split; [done|]. intros (cm & [<- <-]%lookup_singleton_Some & H). done.
  - intros f Hf. by apply not_elem_of_nil in Hf.
Qed.

Lemma shown c st : shown_in (ring c st) ex_group (group st).
Proof. split_and!; [reflexivity|apply group_ok|by eexists]. Qed.

Lemma ring_ok c st : ring_wf (ring c st).
Proof.
  intros sg g Hg. cbn in Hg. apply lookup_singleton_Some in Hg as [<- <-]. apply group_ok.
Qed.

Definition pkg : Pkg.t :=
  Pkg.mk (PackageIdent.mk "o" "svc" (Some "1") (Some "1")) "hab" "hab" [] [] ∅ "1" "1" ["pkgs"; "svc"].
Definition core (t : Topology.t) (initialized : bool) (binds : list ServiceBind.t) : SupService.t :=
  SupService.mk ex_group "" "" "svc.spec" (Pkg.ident pkg) StartStyle.Transient t UpdateStrategy.None pkg
    initialized binds None None None.
Definition reload_hook : hook := mkHook (mkRenderPair "/hab/svc/svc/hooks/reload" "reload") "/logs/out" "/logs/err".
Definition service (t : Topology.t) (initialized : bool) (binds : list ServiceBind.t) (pid : option Z) (pending : bool)
    (with_reload : bool) : RunService.t :=
  RunService.mk (core t initialized binds) (Cfg.mk None None None None 0) {["a.conf" := "port"]}
    (fun k => match k with HookKind.Reload => if with_reload then Some reload_hook else None | _ => None end)
    ElectionStatus.None_ pending false (Some 0%Z)
    (Supervisor.mk "svc.grp" (match pid with Some _ => ProcessState.Up | None => ProcessState.Down end) 0 pid "/hab/svc/svc/PID").

Definition render (t : string) (_ : RenderContext.t) : option string := Some t.
Definition hash (s : string) : string := "#" +:+ s.
Lemma tag_inj a b : hash a = hash b -> a = b.
Proof. unfold hash. by intros ?%(inj (String.append "#")). Qed.

Definition machine (f : gmap string string) (live : gset Z) (rs : list (option Z)) : host :=
  Host f ∅ ∅ [] live rs [] 0 [].
Abbreviation tick := (RunService.tick id_order "/" "/data" render hash).


Lemma service_waits_witness :
  let self := service Topology.Leader false [] None false false in
  done_ (tick (ring true ElectionStatus.ElectionInProgress) self (machine ∅ ∅ [])).1 = [] /\
  let bound := service Topology.Standalone false [ServiceBind.mk "db" (ServiceGroup.mk "db.grp")] None false false in
  (tick (ring true ElectionStatus.None_) bound (machine ∅ ∅ [])).1 = machine ∅ ∅ [].
Proof.
  intros self. split.
  - apply (service_waits id_order "/" "/data" render hash (ring true ElectionStatus.ElectionInProgress) self (machine ∅ ∅ []) eq_refl).
    right. split; [done|]. exists (group ElectionStatus.ElectionInProgress). split; [apply shown|done].
  - intros bound.
    destruct (service_waits id_order "/" "/data" render hash (ring true ElectionStatus.None_) bound (machine ∅ ∅ []) eq_refl)
      as (_ & _ & s' & b & _ & _ & _ & Hb).
    + left. eexists. split; [by left|]. intros g cm Hg. vm_compute in Hg. discriminate Hg.
    + by destruct (Hb ltac:(vm_compute; reflexivity)).
Defined.

(** The election of another member is finished, but its service was not heard of yet. *)
Definition overtaken : Server.t :=
  ex_run (ex_join "svc.grp" "a" ++ [EMember 0 (ex_member "b") Alive;
    EElection id_order (Election.finish (Election.set_votes ["a"; "b"] (Election.new "b" ex_group 1)))]).
Definition census_of (s : Server.t) : outcome census_ring :=
  CensusRing.update_from_server (E := unit) [] (fun _ => Some []) (fun b => Ok b) (fun _ => Some "")
    (fun _ => Some (Toml.Table [])) id_order s (CensusRing.new "a").
Definition overtaken_ring : census_ring :=
  match census_of overtaken with Return r => r | Panic _ => CensusRing.new "a" end.
Definition overtaken_group : census_group :=
  from_option id (CensusGroup.new ex_group "a") (CensusRing.census_group_for overtaken_ring ex_group).

Lemma overtaken_wf : wf overtaken.
Proof. apply ex_run_wf. repeat constructor; try done. exists ex_group. vm_compute. reflexivity. Qed.

Lemma overtaken_ring_wf : ring_wf overtaken_ring.
Proof.
  destruct (Returns_inv _ _ (@update_from_server_spec Toml.table Toml.Value unit [] (fun _ => Some []) (fun b => Ok b)
    (fun _ => Some "") (fun _ => Some (Toml.Table [])) reference_engine id_order overtaken (CensusRing.new "a") overtaken_wf
    ltac:(intros sg g Hg; cbn in Hg; by rewrite lookup_empty in Hg) ltac:(vm_compute; reflexivity))) as (r' & Hr' & _ & Hw & _).
  change (census_of overtaken = Return r') in Hr'. unfold overtaken_ring. by rewrite Hr'.
Qed.

Lemma overtaken_shown : shown_in overtaken_ring ex_group overtaken_group.
Proof.
  assert (Hg : CensusRing.census_group_for overtaken_ring ex_group = Some overtaken_group) by (vm_compute; reflexivity).
  split_and!; [exact Hg|apply overtaken_ring_wf; exact Hg|].
  refine (bool_decide_eq_true_1 _ _). vm_compute. reflexivity.
Qed.

Lemma unknown_leader_panics_witness :
  (tick overtaken_ring (service Topology.Leader false [] None false false) (machine ∅ ∅ [])).2 =
  Panic "No leader with finished election".
Proof.
  apply (unknown_leader_panics id_order "/" "/data" render hash overtaken_ring (service Topology.Leader false [] None false false)
    overtaken_group (machine ∅ ∅ []) overtaken_shown eq_refl eq_refl eq_refl); vm_compute; reflexivity.
Defined.

Lemma process_found_again_witness :
  let sup := Supervisor.mk "svc.grp" ProcessState.Down 0 None "/hab/svc/svc/PID" in
  let h1 := (Supervisor.start ex_group sup (machine ∅ ∅ [Some 42%Z])).1 in
  exists sup2, (s ← Supervisor.new "/" ex_group; Supervisor.check_process s) h1 = (h1, Return (sup2, true)) /\
    Supervisor.pid sup2 = Some 42%Z.
Proof.
  intros sup h1.
  destruct (process_found_again "/" ex_group "svc" sup (machine ∅ ∅ [Some 42%Z]) h1
    (Supervisor.mk "svc.grp" ProcessState.Up 0 (Some 42%Z) "/hab/svc/svc/PID")) as (p & [= <-] & Hp).
  - vm_compute. reflexivity.
  - reflexivity.
  - left. vm_compute. reflexivity.
  - destruct (Hp h1) as (sup2 & H1 & H2 & _); [lia|reflexivity| |reflexivity|by exists sup2].
    refine (bool_decide_eq_true_1 _ _). vm_compute. reflexivity.
Defined.

Lemma running_ok f live rs with_reload pid :
  running (ring true ElectionStatus.None_) (service Topology.Standalone true [] pid false with_reload) (machine f live rs).
Proof.
  split; try done.
  - exists (group ElectionStatus.None_). apply shown.
Qed.

(** The same service in the topology Leader, after it was elected. *)
Definition led_member : census_member := CensusMember.set_election true false false false true (member "a").
Definition led_group : census_group :=
  CensusGroup.mk ex_group ElectionStatus.ElectionFinished ElectionStatus.None_ (Some "a") None "a" {["a" := led_member]} None [] ∅.
Definition led_ring : census_ring := CensusRing.mk true {[ex_group := led_group]} "a" 0 0 0 0 0 0.

Lemma led_group_ok : group_wf "a" ex_group led_group.
Proof.
  split; try done; cbn.
  - intros id cm [<- <-]%lookup_singleton_Some. done.
  - intros id cm [<- <-]%lookup_singleton_Some. unfold flags_ok. cbn. lia.
  - intros id. split; [intros [= <-]; by exists led_member|]. by intros (cm & [<- <-]%lookup_singleton_Some & _).
  - intros id. split; [done|]. intros (cm & [<- <-]%lookup_singleton_Some & H). done.
  - intros f Hf. by apply not_elem_of_nil in Hf.
Qed.

Lemma led_running_ok f live rs with_reload pid :
  running led_ring (service Topology.Leader true [] pid false with_reload) (machine f live rs).
Proof.
  split; try done.
  - exists led_group. split_and!; [reflexivity|apply led_group_ok|by eexists].
  - exists led_group. split_and!; [reflexivity|done|by eexists].
Qed.

Lemma dead_process_restarted_witness :
  exists self' b h',
    tick led_ring (service Topology.Leader true [] (Some 7%Z) false false) (machine ∅ ∅ [Some 42%Z]) = (h', Return (self', b)) /\
    (42%Z ∈ alive h') /\ launched h' = [Spawn "svc.grp"].
Proof.
  destruct (dead_process_restarted id_order "/" "/data" render hash led_ring
    (service Topology.Leader true [] (Some 7%Z) false false) (machine ∅ ∅ [Some 42%Z]) 7 42 [])
    as (s' & b & h' & Ht & Ha & _ & _ & Hl); [apply led_running_ok|reflexivity|apply not_elem_of_empty|reflexivity|].
  exists s', b, h'. split; [exact Ht|]. split; [exact Ha|exact Hl].
Defined.

Lemma change_reaches_process_witness :
  exists self' b h',
    tick (ring true ElectionStatus.None_) (service Topology.Standalone true [] (Some 7%Z) false false)
      (machine ∅ {[7%Z]} [Some 42%Z]) = (h', Return (self', b)) /\
    Supervisor.pid (RunService.supervisor self') = Some 42%Z /\ launched h' = [Restart 7].
Proof.
  set (self := service Topology.Standalone true [] (Some 7%Z) false false). set (h := machine ∅ {[7%Z]} [Some 42%Z]).
  destruct (RunService.update_templates id_order "/" render hash (ring true ElectionStatus.None_) self h) as [h1 [[s1 u]|]] eqn:E;
    [|vm_compute in E; discriminate E].
  destruct (change_reaches_process id_order "/" "/data" render hash (ring true ElectionStatus.None_) self h 7 42 [] h1 s1 u)
    as (s' & h' & Ht & _ & _ & _ & Hp & _ & Hl);
    [apply running_ok|reflexivity|exact (proj2 (elem_of_singleton 7%Z 7%Z) eq_refl)|reflexivity|exact E| |exists s', u, h'; split; [exact Ht|]; split; [exact Hp|exact Hl]].
  vm_compute in E. injection E as _ <- _. reflexivity.
Defined.

Lemma pending_change_lost_witness :
  exists self' b h',
    tick (ring true ElectionStatus.ElectionInProgress) (service Topology.Leader true [] (Some 7%Z) true false)
      (machine {["/hab/svc/svc/config/a.conf" := "port"]} {[7%Z]} []) = (h', Return (self', b)) /\
    RunService.needs_reload self' = false /\ launched h' = [].
Proof.
  set (self := service Topology.Leader true [] (Some 7%Z) true false).
  set (h := machine {["/hab/svc/svc/config/a.conf" := "port"]} {[7%Z]} []).
  destruct (RunService.render_context (ring true ElectionStatus.ElectionInProgress)
    (RunService.set_cfg (Cfg.update (group ElectionStatus.ElectionInProgress) (RunService.cfg self)).1 self)) as [ctx|] eqn:E;
    [|vm_compute in E; discriminate E].
  destruct (pending_change_lost id_order "/" "/data" render hash tag_inj ltac:(done) (ring true ElectionStatus.ElectionInProgress)
    self (group ElectionStatus.ElectionInProgress) ctx h) as (s' & b & h' & Ht & Hn & _ & Hl & _);
    [reflexivity|apply shown|reflexivity|reflexivity|done|reflexivity| |exact E| | |exists s', b, h'; split; [exact Ht|]; split; [exact Hn|exact Hl]].
  - intros k hk _. split; apply not_elem_of_empty.
  - split_and!; [intros; apply not_elem_of_empty| |intros; apply not_elem_of_empty].
    intros k k' hk hk' Hk. by destruct k.
  - split; [intros k hk text Hk; by destruct k|]. intros name t Hn. cbn in Hn. apply lookup_singleton_Some in Hn as [<- <-]. by exists "port".
Defined.

Lemma corrupt_pid_file_panics_witness :
  (RunService.execute_hooks "/data" (service Topology.Standalone false [] None false false)
    (machine {["/hab/svc/svc/PID" := ""]} ∅ [])).2 = Panic "unwrap of read_pid".
Proof.
  destruct (corrupt_pid_file_panics "/data" (ring true ElectionStatus.None_) (service Topology.Standalone false [] None false false)
    (machine {["/hab/svc/svc/PID" := ""]} ∅ []) "") as [H _]; [reflexivity|reflexivity|reflexivity|done|exact H].
Defined.
End ServiceExample.
