(* ===== verification/ByteText.v ===== *)
(** * Byte strings as text

    What the standard library does with the bytes of a file that holds text: UTF-8 validity
    ([str::from_utf8], [read_to_string], [read_line]), [str::lines], [BufRead::read_line] and the
    order of strings.  A [string] is a sequence of bytes. *)

From Stdlib Require Import Ascii.
From S2P Require Import Prelude Regex Text Ident.
Local Open Scope string_scope.
Local Open Scope list_scope.

Definition newline : ascii := "010"%char.
Definition carriage_return : ascii := "013"%char.
Definition nl : string := String newline "".

(** ** Concatenation *)
Lemma append_assoc (a b c : string) : (a +:+ b) +:+ c = a +:+ b +:+ c.
Proof. apply to_chars_inj. by rewrite !to_chars_app, <- (assoc_L (++)). Qed.

Lemma append_nil_r (a : string) : a +:+ "" = a.
Proof. apply to_chars_inj. by rewrite to_chars_app, app_nil_r. Qed.

(** ** UTF-8 *)

(** The ranges of the bytes that follow a first byte. *)
Definition tail_bytes (c : ascii) : option (list (N * N)) :=
  let n := N_of_ascii c in
  let k := (128, 191)%N in
  if (n <=? 127)%N then Some []
  else if (n <? 194)%N then None
  else if (n <=? 223)%N then Some [k]
  else if (n =? 224)%N then Some [(160, 191)%N; k]
  else if (n =? 237)%N then Some [(128, 159)%N; k]
  else if (n <=? 239)%N then Some [k; k]
  else if (n =? 240)%N then Some [(144, 191)%N; k; k]
  else if (n <=? 243)%N then Some [k; k; k]
  else if (n =? 244)%N then Some [(128, 143)%N; k; k]
  else None.

Fixpoint utf8_from (pending : list (N * N)) (l : chars) : bool :=
  match l, pending with
  | [], [] => true
  | [], _ :: _ => false
  | c :: l, [] => match tail_bytes c with Some p => utf8_from p l | None => false end
  | c :: l, (lo, hi) :: p => ((lo <=? N_of_ascii c)%N && (N_of_ascii c <=? hi)%N) && utf8_from p l
  end.

Definition is_utf8 (s : string) : bool := utf8_from [] (to_chars s).

Lemma utf8_from_app p a b : utf8_from p a = true -> utf8_from [] b = true -> utf8_from p (a ++ b) = true.
Proof.
  revert p; induction a as [|c a IH]; intros [|[lo hi] p]; cbn; try done.
  - destruct (tail_bytes c); [apply IH|done].
  - intros [-> H]%andb_prop Hb. by apply IH.
Qed.

Lemma is_utf8_app a b : is_utf8 a = true -> is_utf8 b = true -> is_utf8 (a +:+ b) = true.
Proof. unfold is_utf8. rewrite to_chars_app. apply utf8_from_app. Qed.

(** Text of ASCII characters. *)
Definition is_ascii (c : ascii) : bool := (N_of_ascii c <=? 127)%N.

Lemma ascii_is_utf8 s : forallb is_ascii (to_chars s) = true -> is_utf8 s = true.
Proof.
  unfold is_utf8. induction (to_chars s) as [|c l IH]; cbn; [done|].
  intros [Hc Hl]%andb_prop. unfold tail_bytes. unfold is_ascii in Hc. rewrite Hc. by apply IH.
Qed.

(** ** [str::lines] *)
Fixpoint split_lines (l : chars) : list chars :=
  match l with
  | [] => []
  | c :: l =>
      if Ascii.eqb c newline then [] :: split_lines l
      else match split_lines l with
           | [] => [[c]]
           | w :: ws => (c :: w) :: ws
           end
  end.

Fixpoint strip_carriage_return (l : chars) : chars :=
  match l with
  | [] => []
  | [c] => if Ascii.eqb c carriage_return then [] else [c]
  | c :: l => c :: strip_carriage_return l
  end.

Definition lines (s : string) : list string :=
  (fun l => of_chars (strip_carriage_return l)) <$> split_lines (to_chars s).

(** Text of one line: no newline, and no carriage return at its end. *)
Definition one_line (s : string) : Prop :=
  (newline ∉ to_chars s) /\ last (to_chars s) <> Some carriage_return.

Lemma strip_carriage_return_id l : last l <> Some carriage_return -> strip_carriage_return l = l.
Proof.
  induction l as [|c [|d l] IH]; cbn; [done| |].
  - intros H. destruct (Ascii.eqb_spec c carriage_return) as [->|]; done.
  - intros H. f_equal. by apply IH.
Qed.

Lemma split_lines_cut a rest :
  newline ∉ a -> split_lines (a ++ newline :: rest) = a :: split_lines rest.
Proof.
  induction a as [|c a IH]; cbn; [done|]. intros [Hc Ha]%not_elem_of_cons.
  destruct (Ascii.eqb_spec c newline) as [->|_]; [done|]. by rewrite IH.
Qed.

Lemma split_lines_one a : newline ∉ a -> a <> [] -> split_lines a = [a].
Proof.
  induction a as [|c a IH]; cbn; [done|]. intros [Hc Ha]%not_elem_of_cons _.
  destruct (Ascii.eqb_spec c newline) as [->|_]; [done|].
  destruct a as [|d a]; [done|]. by rewrite IH.
Qed.

Lemma lines_cut a rest : one_line a -> lines (a +:+ nl +:+ rest) = a :: lines rest.
Proof.
  intros [Ha Hr]. unfold lines. rewrite !to_chars_app. change (to_chars nl) with [newline].
  cbn [app]. rewrite split_lines_cut by done. cbn [fmap list_fmap].
  by rewrite strip_carriage_return_id, of_to_chars.
Qed.

Lemma lines_one a : one_line a -> a <> "" -> lines a = [a].
Proof.
  intros [Ha Hr] Hne. unfold lines. rewrite split_lines_one; [|done|].
  - cbn [fmap list_fmap]. by rewrite strip_carriage_return_id, of_to_chars.
  - by destruct a.
Qed.

(** ** [BufRead::read_line]: the bytes to the next newline, with it, and what is left *)
Fixpoint cut_line (l : chars) : chars * chars :=
  match l with
  | [] => ([], [])
  | c :: l =>
      if Ascii.eqb c newline then ([c], l)
      else let (w, rest) := cut_line l in (c :: w, rest)
  end.

Lemma cut_line_cut a rest : newline ∉ a -> cut_line (a ++ newline :: rest) = (a ++ [newline], rest).
Proof.
  induction a as [|c a IH]; cbn; [done|]. intros [Hc Ha]%not_elem_of_cons.
  destruct (Ascii.eqb_spec c newline) as [->|_]; [done|]. by rewrite IH.
Qed.

Lemma cut_line_app l : (cut_line l).1 ++ (cut_line l).2 = l.
Proof.
  induction l as [|c l IH]; cbn; [done|]. destruct (Ascii.eqb c newline); [done|].
  destruct (cut_line l) as [w rest]. cbn in *. by rewrite IH.
Qed.

(** ** [str::trim] *)

(** Text without white space at its ends. *)
Definition trimmed (s : string) : Prop :=
  (forall c, head (to_chars s) = Some c -> is_whitespace c = false) /\
  (forall c, last (to_chars s) = Some c -> is_whitespace c = false).

Lemma trim_start_id l : (forall c, head l = Some c -> is_whitespace c = false) -> trim_start l = l.
Proof. destruct l as [|c l]; cbn; [done|]. intros H. by rewrite (H c). Qed.

Lemma trim_start_rev l : (forall c, last l = Some c -> is_whitespace c = false) -> trim_start (rev l) = rev l.
Proof.
  intros Hl. apply trim_start_id. intros c Hc. apply Hl.
  by rewrite <- (reverse_involutive l), last_reverse, <- (rev_alt l : rev l = reverse l).
Qed.

Lemma trim_id s : trimmed s -> trim s = s.
Proof.
  intros [Hh Hl]. unfold trim.
  by rewrite (trim_start_id _ Hh), trim_start_rev, rev_involutive, of_to_chars.
Qed.

(** A line that was read, with its newline, is the text. *)
Lemma trim_line s : trimmed s -> trim (s +:+ nl) = s.
Proof.
  intros [Hh Hl]. destruct s as [|c s]; [done|].
  unfold trim. rewrite to_chars_app. change (to_chars nl) with [newline].
  rewrite (trim_start_id (to_chars (String c s) ++ [newline])) by exact Hh.
  rewrite rev_app_distr. cbn [rev app trim_start]. change (is_whitespace newline) with true. cbn iota.
  change (rev (to_chars s) ++ [c]) with (rev (to_chars (String c s))).
  by rewrite trim_start_rev, rev_involutive, of_to_chars.
Qed.

(** ** The order of strings *)
Definition str_leb (a b : string) : bool :=
  match String.compare a b with Gt => false | _ => true end.

Lemma str_leb_connex a b : str_leb a b = true \/ str_leb b a = true.
Proof. unfold str_leb. rewrite (String.compare_antisym a b). destruct (String.compare b a); cbn; auto. Qed.

Lemma str_leb_trans a b c : str_leb a b = true -> str_leb b c = true -> str_leb a c = true.
Proof.
  unfold str_leb. intros Hab Hbc. pose proof (string_compare_trans a b c) as H.
  destruct (String.compare a b), (String.compare b c), (String.compare a c); cbn in *; try done.
  all: specialize (H ltac:(done) ltac:(done)); done.
Qed.

Lemma str_leb_antisym a b : str_leb a b = true -> str_leb b a = true -> a = b.
Proof.
  unfold str_leb. rewrite (String.compare_antisym b a).
  destruct (String.compare a b) eqn:E; try done. by apply String.compare_eq_iff in E.
Qed.
