(* ===== verification/CryptoLib.v ===== *)
(** * The cryptographic libraries

    The crates the sources of [components/core/src/crypto] call: [sodiumoxide] and [libsodium_sys]
    (signatures, boxes, secret boxes, sealed boxes and the BLAKE2b hash), [base64] and [hex].
    [CryptoLib] has their functions and [CryptoLaws] what their documentation promises of them.
    Bytes are strings; what a function draws at random is an argument. *)

From Stdlib Require Import Ascii.
From S2P Require Import Prelude Regex Text ByteText.
Local Open Scope string_scope.
Local Open Scope list_scope.

(** A type of fixed-size bytes with [from_slice] and [&x[..]]. *)
Class Slices (A : Type) := {
  from_slice : string -> option A;
  to_bytes : A -> string;
}.

Class CryptoLib := {
  base64_encode : string -> string;
  (** The error is its text. *)
  base64_decode : string -> result string string;
  (** [ToHex::to_hex] *)
  to_hex : string -> string;

  (** [crypto_generichash_init], [_update] and [_final] *)
  hash_state : Type;
  generichash_init : hash_state;
  generichash_update : hash_state -> string -> hash_state;
  generichash_final : hash_state -> string;

  SigPublicKey : Type;
  SigSecretKey : Type;
  BoxPublicKey : Type;
  BoxSecretKey : Type;
  BoxNonce : Type;
  SymSecretKey : Type;
  SymNonce : Type;
  SigPublicKey_slices :: Slices SigPublicKey;
  SigSecretKey_slices :: Slices SigSecretKey;
  BoxPublicKey_slices :: Slices BoxPublicKey;
  BoxSecretKey_slices :: Slices BoxSecretKey;
  BoxNonce_slices :: Slices BoxNonce;
  SymSecretKey_slices :: Slices SymSecretKey;
  SymNonce_slices :: Slices SymNonce;

  (** [sign::gen_keypair], [sign::sign] and [sign::verify] *)
  sign_gen_keypair : string -> SigPublicKey * SigSecretKey;
  sign_sign : string -> SigSecretKey -> string;
  sign_verify : string -> SigPublicKey -> option string;

  (** [box_::gen_keypair], [box_::seal] and [box_::open] *)
  box_gen_keypair : string -> BoxPublicKey * BoxSecretKey;
  box_gen_nonce : string -> BoxNonce;
  box_seal : string -> BoxNonce -> BoxPublicKey -> BoxSecretKey -> string;
  box_open : string -> BoxNonce -> BoxPublicKey -> BoxSecretKey -> option string;

  (** [sealedbox::seal], which draws a key of its own, and [sealedbox::open] *)
  sealedbox_seal : string -> string -> BoxPublicKey -> string;
  sealedbox_open : string -> BoxPublicKey -> BoxSecretKey -> option string;

  (** [secretbox::gen_key], [gen_nonce], [seal] and [open] *)
  secretbox_gen_key : string -> SymSecretKey;
  secretbox_gen_nonce : string -> SymNonce;
  secretbox_seal : string -> SymNonce -> SymSecretKey -> string;
  secretbox_open : string -> SymNonce -> SymSecretKey -> option string;
}.

Class SlicesLaws (A : Type) `{!Slices A} : Prop := {
  from_slice_to_bytes (a : A) : from_slice (to_bytes a) = Some a;
  to_bytes_not_empty (a : A) : to_bytes a <> "";
}.

Definition in_base64 (c : ascii) : bool :=
  (in_range "A" "Z" c || in_range "a" "z" c) || (in_range "0" "9" c || one_of "+/=" c).
Definition in_hex (c : ascii) : bool := in_range "0" "9" c || in_range "a" "f" c.

Class CryptoLaws (L : CryptoLib) : Prop := {
  base64_round_trip b : base64_decode (base64_encode b) = Ok b;
  base64_alphabet b : forallb in_base64 (to_chars (base64_encode b)) = true;
  base64_empty : base64_encode "" = "";
  to_hex_alphabet b : forallb in_hex (to_chars (to_hex b)) = true;

  (** Hashing the parts of a message one after the other hashes the message. *)
  generichash_update_app s a b :
    generichash_update (generichash_update s a) b = generichash_update s (a +:+ b);
  generichash_update_nil s : generichash_update s "" = s;

  SigPublicKey_laws :: SlicesLaws SigPublicKey;
  SigSecretKey_laws :: SlicesLaws SigSecretKey;
  BoxPublicKey_laws :: SlicesLaws BoxPublicKey;
  BoxSecretKey_laws :: SlicesLaws BoxSecretKey;
  BoxNonce_laws :: SlicesLaws BoxNonce;
  SymSecretKey_laws :: SlicesLaws SymSecretKey;
  SymNonce_laws :: SlicesLaws SymNonce;

  verify_sign seed pk sk m : sign_gen_keypair seed = (pk, sk) -> sign_verify (sign_sign m sk) pk = Some m;
  box_open_seal s1 s2 pk1 sk1 pk2 sk2 n m :
    box_gen_keypair s1 = (pk1, sk1) -> box_gen_keypair s2 = (pk2, sk2) ->
    box_open (box_seal m n pk2 sk1) n pk1 sk2 = Some m;
  sealedbox_open_seal s r pk sk m :
    box_gen_keypair s = (pk, sk) -> sealedbox_open (sealedbox_seal r m pk) pk sk = Some m;
  (** What is sealed is longer than the message, by a code that authenticates it. *)
  box_seal_not_empty m n pk sk : box_seal m n pk sk <> "";
  sealedbox_seal_not_empty r m pk : sealedbox_seal r m pk <> "";
  secretbox_open_seal n k m : secretbox_open (secretbox_seal m n k) n k = Some m;
}.

Section laws.
  Context `{Laws : CryptoLaws}.

Lemma base64_encode_not_empty b : b <> "" -> base64_encode b <> "".
Proof.
  intros Hb He. apply Hb. pose proof (base64_round_trip b) as H1. pose proof (base64_round_trip "") as H2.
  rewrite base64_empty in H2. rewrite He in H1. congruence.
Qed.

(** Text in these alphabets is a line by itself, has no space and is valid UTF-8. *)
Lemma alphabet_excludes (p : ascii -> bool) c l : forallb p l = true -> p c = false -> c ∉ l.
Proof. intros Hl Hc Hin. rewrite forallb_forall in Hl. apply list_elem_of_In in Hin. by rewrite (Hl _ Hin) in Hc. Qed.

Lemma alphabet_one_line (p : ascii -> bool) s :
  forallb p (to_chars s) = true -> p newline = false -> p carriage_return = false -> one_line s.
Proof.
  intros Hs Hn Hr. split; [by eapply alphabet_excludes|]. intros Hl.
  eapply (alphabet_excludes p); [exact Hs|exact Hr|]. by apply last_Some_elem_of.
Qed.

Lemma alphabet_trimmed (p : ascii -> bool) s :
  forallb p (to_chars s) = true -> (forall c, p c = true -> is_whitespace c = false) -> trimmed s.
Proof.
  intros Hs Hp. rewrite forallb_forall in Hs.
  split; intros c Hc; apply Hp, Hs, list_elem_of_In; [by apply head_Some_elem_of|by apply last_Some_elem_of].
Qed.

Lemma alphabet_utf8 (p : ascii -> bool) s :
  forallb p (to_chars s) = true -> (forall c, p c = true -> is_ascii c = true) -> is_utf8 s = true.
Proof.
  intros Hs Hp. apply ascii_is_utf8. rewrite forallb_forall in *. auto.
Qed.

Lemma in_base64_plain c : in_base64 c = true -> is_whitespace c = false /\ is_ascii c = true.
Proof. destruct c as [[] [] [] [] [] [] [] []]; vm_compute; by try split. Qed.

Lemma in_hex_plain c : in_hex c = true -> is_whitespace c = false /\ is_ascii c = true.
Proof. destruct c as [[] [] [] [] [] [] [] []]; vm_compute; by try split. Qed.

Lemma base64_one_line b : one_line (base64_encode b).
Proof. eapply alphabet_one_line; [apply base64_alphabet|done..]. Qed.

Lemma base64_trimmed b : trimmed (base64_encode b).
Proof. eapply alphabet_trimmed; [apply base64_alphabet|]. intros c Hc. by apply in_base64_plain. Qed.

Lemma base64_utf8 b : is_utf8 (base64_encode b) = true.
Proof. eapply alphabet_utf8; [apply base64_alphabet|]. intros c Hc. by apply in_base64_plain. Qed.

Lemma to_hex_utf8 b : is_utf8 (to_hex b) = true.
Proof. eapply alphabet_utf8; [apply to_hex_alphabet|]. intros c Hc. by apply in_hex_plain. Qed.

End laws.
