(* ===== verification/KeyFiles.v ===== *)
(** * Keys in files

    Models [components/core/src/crypto/keys/mod.rs] (the names of keys, the files they are kept in
    and the search for the revisions of a key), [components/core/src/crypto/hash.rs], the constants
    of [components/core/src/crypto/mod.rs], and what these use of [std::path], [std::fs] and
    [std::io].

    The machine is the one of the file Host.  Paths are compared as they are written.  The text of
    an I/O error at the end of a message is left out; a digit of a revision is an ASCII digit. *)

From Stdlib Require Import Ascii.
From S2P Require Import Prelude Regex Text ByteText Host CryptoLib.
Local Open Scope string_scope.
Local Open Scope list_scope.

(** ** Errors ([core/src/error.rs]) *)
Inductive crypto_error :=
| CryptoError (msg : string)
| BadKeyPath (path : string)
| IO
| PermissionFailed
| StrFromUtf8Error.

#[export] Instance crypto_error_eq_dec : EqDecision crypto_error.
Proof. solve_decision. Defined.

(** Computations of the machine that return a [Result], and [?]. *)
Abbreviation io A := (M (result crypto_error A)).

Definition ok {A} (a : A) : io A := mret (Ok a).
Definition throw {A} (e : crypto_error) : io A := mret (Err e).
Definition and_then {A B} (c : io A) (k : A -> io B) : io B :=
  r ← c;
  match r with
  | Ok a => k a
  | Err e => throw e
  end.

Declare Scope io_scope.
Delimit Scope io_scope with io.
Notation "x <-? c ;; k" := (and_then c (fun x => k))
  (at level 100, c at next level, right associativity) : io_scope.
Open Scope io_scope.

(** A file operation whose error is returned. *)
Definition or_io {A} (c : M (option A)) : io A :=
  r ← c; mret (match r with Some a => Ok a | None => Err IO end).

(** A computation without effects. *)
Definition pure {A} (r : result crypto_error A) : io A := mret r.

(** ** Paths ([std::path]) *)
Definition is_slash (c : ascii) : bool := Ascii.eqb c "/".

(** [Path::join]: an absolute path replaces. *)
Definition join (dir file : string) : string :=
  if String.prefix "/" file then file
  else match last (to_chars dir) with
       | None => file
       | Some c => if is_slash c then dir +:+ file else dir +:+ "/" +:+ file
       end.

(** The last component of a path and what is before it, both backwards. *)
Fixpoint cut_component (l : chars) : chars * option chars :=
  match l with
  | [] => ([], None)
  | c :: t =>
      if is_slash c then ([], Some l)
      else let (w, rest) := cut_component t in (c :: w, rest)
  end.

(** Without the separators and [.] at the end of a path, which is backwards. *)
Fixpoint trim_right (l : chars) : chars :=
  match l with
  | [] => []
  | c :: t =>
      if is_slash c then match t with [] => l | _ :: _ => trim_right t end
      else if Ascii.eqb c "." then
        match t with
        | [] => l
        | d :: _ => if is_slash d then trim_right t else l
        end
      else l
  end.

(** [Path::parent] *)
Definition parent (path : string) : option string :=
  if bool_decide (path = "" \/ path = "/") then None
  else match (cut_component (rev (to_chars path))).2 with
       | None => Some ""
       | Some dir => Some (of_chars (rev (trim_right dir)))
       end.

(** [Path::file_name] of a path whose last component is a name. *)
Definition file_name (path : string) : string :=
  of_chars (rev (cut_component (rev (to_chars path))).1).

(** [PathBuf::set_file_name] *)
Definition set_file_name (path name : string) : string :=
  match parent path with
  | Some dir => join dir name
  | None => join path name
  end.

(** ** Files ([std::fs], [std::io]) *)

(** [Path::is_file] *)
Definition is_file (path : string) : M bool := gets (fun h => bool_decide (is_Some (files h !! path))).

Definition set_dirs (d : gset string) (h : host) : host :=
  Host (files h) d (executable h) (faults h) (alive h) (replies h) (runs h) (clock h) (done_ h).

Definition make_dir (path : string) : M (option unit) :=
  failed ← next_fault;
  there ← path_exists path;
  if (failed || there)%bool then mret None
  else _ ← modifies (fun h => set_dirs ({[path]} ∪ dirs h) h); mret (Some tt).

(** [fs::create_dir_all]; [fuel] bounds the number of components. *)
Fixpoint create_dir_all_from (fuel : nat) (path : string) : M (option unit) :=
  there ← is_dir path;
  if (bool_decide (path = "") || there)%bool then mret (Some tt)
  else
    r ← match fuel, parent path with
        | S fuel, Some dir => create_dir_all_from fuel dir
        | _, _ => mret (Some tt)
        end;
    match r with
    | None => mret None
    | Some _ => make_dir path
    end.

Definition create_dir_all (path : string) : M (option unit) :=
  create_dir_all_from (String.length path) path.

(** [fs::rename]: not onto a directory. *)
Definition rename_file (from to : string) : M (option unit) :=
  dir ← is_dir to;
  if dir : bool then mret None else rename from to.

(** [fs::remove_file] *)
Definition delete_file (path : string) : M (option unit) :=
  failed ← next_fault;
  there ← is_file path;
  if (failed || negb there)%bool then mret None
  else _ ← modifies (fun h => set_files (delete path (files h)) h); mret (Some tt).

(** [BufWriter<File>]: what is written is kept until there is too much of it, and the rest is
    written when the writer is dropped, where errors are ignored. *)
Module BufWriter.
Record t := mk { path : string; buf : string }.

Definition capacity : Z := 8 * 1024.
Definition size (s : string) : Z := Z.of_nat (String.length s).

Definition new (path : string) : t := mk path "".

Definition flush_buf (w : t) : M (t * bool) :=
  if bool_decide (buf w = "") then mret (w, true)
  else
    r ← append (path w) (buf w);
    mret (match r with Some _ => (mk (path w) "", true) | None => (w, false) end).

(** [write_all]; [false] is an error. *)
Definition write_all (w : t) (data : string) : M (t * bool) :=
  wr ← (if (capacity <? size (buf w) + size data)%Z then flush_buf w else mret (w, true));
  if wr.2 : bool then
    if (capacity <=? size data)%Z then
      r ← append (path w) data;
      mret (wr.1, bool_decide (is_Some r))
    else mret (mk (path w) (buf wr.1 +:+ data), true)
  else mret wr.

Definition drop (w : t) : M unit := _ ← flush_buf w; mret tt.
End BufWriter.

(** [BufReader<File>]: what is left to read and how much was read. *)
Module BufReader.
Record t := mk { rest : chars; pos : Z }.

(** [File::open] *)
Definition open (path : string) : io t :=
  content <-? or_io (read_file path);; ok (mk (to_chars content) 0).

Definition capacity : Z := 8 * 1024.

(** [read_line]: the line with its newline; empty at the end. *)
Definition read_line (r : t) : io (string * t) :=
  failed ← next_fault;
  let (w, rest') := cut_line (rest r) in
  if (failed || negb (is_utf8 (of_chars w)))%bool then throw IO
  else ok (of_chars w, mk rest' (pos r + Z.of_nat (length w))).

(** [read] into [size] bytes gives what the buffer has of them; the buffer is filled when all of it
    was read. *)
Definition read (size : nat) (r : t) : io (string * t) :=
  failed ← next_fault;
  let n := Nat.min size (Z.to_nat (capacity - pos r `mod` capacity)) in
  if failed : bool then throw IO
  else ok (of_chars (take n (rest r)),
           mk (drop n (rest r)) (pos r + Z.of_nat (length (take n (rest r))))).
End BufReader.

(** [File::open] and [read_to_string] *)
Definition read_to_string (path : string) : io string :=
  content <-? or_io (read_file path);;
  failed ← next_fault;
  if (failed || negb (is_utf8 content))%bool then throw IO else ok content.

(** [perm::set_permissions] *)
Definition set_permissions (path : string) : io unit :=
  r ← set_mode path; mret (match r with Some _ => Ok tt | None => Err PermissionFailed end).

(** ** Constants ([crypto/mod.rs]) *)
Definition PUBLIC_KEY_SUFFIX : string := "pub".
Definition SECRET_SIG_KEY_SUFFIX : string := "sig.key".
Definition SECRET_BOX_KEY_SUFFIX : string := "box.key".
Definition SECRET_SYM_KEY_SUFFIX : string := "sym.key".
Definition SIG_HASH_TYPE : string := "BLAKE2b".
Definition HART_FORMAT_VERSION : string := "HART-1".
Definition BOX_FORMAT_VERSION : string := "BOX-1".
Definition ANONYMOUS_BOX_FORMAT_VERSION : string := "ANONYMOUS-BOX-1".
Definition PUBLIC_SIG_KEY_VERSION : string := "SIG-PUB-1".
Definition SECRET_SIG_KEY_VERSION : string := "SIG-SEC-1".
Definition PUBLIC_BOX_KEY_VERSION : string := "BOX-PUB-1".
Definition SECRET_BOX_KEY_VERSION : string := "BOX-SEC-1".
Definition SECRET_SYM_KEY_VERSION : string := "SYM-SEC-1".

(** ** Kinds of keys ([crypto/keys/mod.rs]) *)
Module KeyType.
Inductive t := Sig | Box | Sym.

Definition to_string (k : t) : string :=
  match k with
  | Box => "box"
  | Sig => "sig"
  | Sym => "sym"
  end.
End KeyType.

Module PairType.
Inductive t := Public | Secret.

#[global] Instance t_eq_dec : EqDecision t.
Proof. solve_decision. Defined.

Definition to_string (p : t) : string :=
  match p with
  | Public => "public"
  | Secret => "secret"
  end.

Definition from_str (value : string) : result crypto_error t :=
  if String.eqb value "public" then Ok Public
  else if String.eqb value "secret" then Ok Secret
  else Err (CryptoError ("Invalid PairType conversion from " +:+ value)).
End PairType.

(** [str::to_uppercase] *)
Definition to_upper (c : ascii) : ascii :=
  let n := nat_of_ascii c in if (Nat.leb 97 n && Nat.leb n 122)%bool then ascii_of_nat (n - 32) else c.
Definition to_uppercase (s : string) : string := of_chars (to_upper <$> to_chars s).

(** [TmpKeyfile], dropped at the end of the function that made it. *)
Module TmpKeyfile.
Record t := mk { path : string }.

Definition drop (tmp : t) : M unit :=
  there ← is_file (path tmp);
  if there : bool then _ ← delete_file (path tmp); mret tt else mret tt.
End TmpKeyfile.

(** ** [KeyPair] *)
Module KeyPair.
Record t (P S : Type) := new {
  name : string;
  rev : string;
  public : option P;
  secret : option S;
}.
Arguments new {P S} name rev public secret.
Arguments name {P S} _.
Arguments rev {P S} _.
Arguments public {P S} _.
Arguments secret {P S} _.

Section key_pair.
  Context {P S : Type}.
  Implicit Types (pair : t P S).

Definition name_with_rev pair : string := name pair +:+ "-" +:+ rev pair.

Definition get_public pair : result crypto_error P :=
  match public pair with
  | Some p => Ok p
  | None => Err (CryptoError ("Public key is required but not present for " +:+ name_with_rev pair))
  end.

Definition get_secret pair : result crypto_error S :=
  match secret pair with
  | Some s => Ok s
  | None => Err (CryptoError ("Secret key is required but not present for " +:+ name_with_rev pair))
  end.
End key_pair.
End KeyPair.

(** ** The names of keys and key files *)
Definition is_digit : ascii -> bool := in_range "0" "9".

(** [r{n+1}] *)
Fixpoint repeat_one (n : nat) (p : ascii -> bool) : re :=
  match n with
  | O => ROne p
  | S n => RSeq (ROne p) (repeat_one n p)
  end.

(** [(?P<name>.+)-(?P<rev>\d{14})] *)
Definition NAME_WITH_REV_BODY : re :=
  RSeq (RCap "name" (RPlus (none_of nl)))
 (RSeq (ROne (is_char "-")) (RCap "rev" (repeat_one 13 is_digit))).
Definition NAME_WITH_REV_RE : re := RSeq RBegin (RSeq NAME_WITH_REV_BODY REnd).

(** [(?P<name>.+)-(?P<rev>\d{14})\.(?P<suffix>[a-z]+(\.[a-z]+)?)] *)
Definition KEYFILE_BODY : re :=
  RSeq (RCap "name" (RPlus (none_of nl)))
 (RSeq (ROne (is_char "-"))
 (RSeq (RCap "rev" (repeat_one 13 is_digit))
 (RSeq (ROne (is_char "."))
       (RCap "suffix" (RSeq (RPlus (in_range "a" "z"))
                            (ROpt (RSeq (ROne (is_char ".")) (RPlus (in_range "a" "z"))))))))).
Definition KEYFILE_RE : re := RSeq RBegin (RSeq KEYFILE_BODY REnd).

Section with_engine.
  Context `{!RegexEngine}.

Definition is_secret_suffix (suffix : string) : bool :=
  bool_decide (suffix = SECRET_SIG_KEY_SUFFIX \/ suffix = SECRET_BOX_KEY_SUFFIX \/ suffix = SECRET_SYM_KEY_SUFFIX).

Definition check_filename (keyname filename : string) (candidates : gset string)
    (pair_type : option PairType.t) : gset string :=
  match captures KEYFILE_RE filename with
  | None => candidates
  | Some caps =>
      match Regex.name "name" caps, Regex.name "rev" caps, Regex.name "suffix" caps with
      | Some name, Some rev, Some suffix =>
          if (bool_decide (suffix = PUBLIC_KEY_SUFFIX) || is_secret_suffix suffix)%bool then
            if String.eqb name keyname then
              let thiskey := name +:+ "-" +:+ rev in
              let do_insert :=
                match pair_type with
                | Some PairType.Secret => is_secret_suffix suffix
                | Some PairType.Public => bool_decide (suffix = PUBLIC_KEY_SUFFIX)
                | None => true
                end in
              if do_insert then {[thiskey]} ∪ candidates else candidates
            else candidates
          else candidates
      | _, _, _ => candidates
      end
  end.

(** The entries of the directory, one after the other; [continue] is going on with the same
    candidates. *)
Fixpoint check_entries (keyname cache_key_path : string) (pair_type : option PairType.t)
    (key_type : KeyType.t) (entries : list string) (candidates : gset string) : io (gset string) :=
  match entries with
  | [] => ok candidates
  | filename :: entries =>
      let continue := check_entries keyname cache_key_path pair_type key_type entries in
      entry_failed ← next_fault;
      if entry_failed : bool then throw (CryptoError "Error reading key path ")
      else
        metadata_failed ← next_fault;
        regular ← is_file (join cache_key_path filename);
        if (metadata_failed || negb regular)%bool then continue candidates
        else
          reader <-? BufReader.open (join cache_key_path filename);;
          line ← BufReader.read_line reader;
          match line with
          | Err _ => continue candidates
          | Ok (buf, _) =>
              if negb (String.prefix (to_uppercase (KeyType.to_string key_type)) buf) then continue candidates
              else if negb (is_utf8 filename) then throw (CryptoError "Invalid filename in key path")
              else continue (check_filename keyname filename candidates pair_type)
          end
  end.

(** The order in which the candidates come out of their set does not show in the sorted result. *)
Definition get_key_revisions (keyname cache_key_path : string) (pair_type : option PairType.t)
    (key_type : KeyType.t) : io (list string) :=
  failed ← next_fault;
  there ← is_dir cache_key_path;
  if (failed || negb there)%bool then
    throw (CryptoError ("Error reading key directory " +:+ cache_key_path +:+ ": "))
  else
    entries ← read_dir cache_key_path;
    candidates <-? check_entries keyname cache_key_path pair_type key_type entries ∅;;
    ok (rev (sort_by str_leb (elements candidates))).

Definition mk_key_filename (path keyname suffix : string) : string :=
  join path (keyname +:+ "." +:+ suffix).

(** [now] is what formatting the time as [%Y%m%d%H%M%S] gives. *)
Definition mk_revision_string (now : option string) : result crypto_error string :=
  match now with
  | Some result => Ok result
  | None => Err (CryptoError "Can't parse system time")
  end.

Definition parse_name_with_rev (name_with_rev : string) : result crypto_error (string * string) :=
  match captures NAME_WITH_REV_RE name_with_rev with
  | None => Err (CryptoError ("parse_name_with_rev:1 Cannot parse " +:+ name_with_rev))
  | Some caps =>
      match Regex.name "name" caps with
      | None => Err (CryptoError ("parse_name_with_rev:2 Cannot parse name from " +:+ name_with_rev))
      | Some name =>
          match Regex.name "rev" caps with
          | None => Err (CryptoError ("parse_name_with_rev:3 Cannot parse rev from " +:+ name_with_rev))
          | Some rev => Ok (name, rev)
          end
      end
  end.
End with_engine.

Section with_crypto.
  Context `{!CryptoLib}.

Definition read_key_bytes (keyfile : string) : io string :=
  s <-? read_to_string keyfile;;
  if String.eqb s "" then throw (CryptoError "Can't read key bytes")
  else match lines s !! 3%nat with
       | Some encoded =>
           match base64_decode encoded with
           | Ok v => ok v
           | Err e => throw (CryptoError ("Can't read raw key from " +:+ keyfile +:+ ": " +:+ e))
           end
       | None => throw (CryptoError ("Malformed key contents for: " +:+ keyfile))
       end.

(** One half of [write_keypair_files], for the public or the secret key. *)
Definition write_keyfile (kind keyfile content : string) : io unit :=
  match parent keyfile with
  | None => throw (BadKeyPath keyfile)
  | Some dir =>
      _ <-? or_io (create_dir_all dir);;
      there ← path_exists keyfile;
      if there : bool then
        throw (CryptoError (kind +:+ " keyfile or a directory already exists " +:+ keyfile))
      else
        _ <-? or_io (create_file keyfile);;
        wr ← BufWriter.write_all (BufWriter.new keyfile) content;
        r ← (if wr.2 : bool then set_permissions keyfile else throw IO);
        _ ← BufWriter.drop wr.1;
        pure r
  end.

Definition write_keypair_files (public_keyfile public_content secret_keyfile secret_content : option string)
    : io unit :=
  _ <-? match public_keyfile with
        | Some keyfile =>
            content ← expects "Invalid calling of this function" public_content;
            write_keyfile "Public" keyfile content
        | None => ok tt
        end;;
  match secret_keyfile with
  | Some keyfile =>
      content ← expects "Invalid calling of this function" secret_content;
      write_keyfile "Secret" keyfile content
  | None => ok tt
  end.

(** ** Hashes ([crypto/hash.rs]) *)
Definition BUF_SIZE : nat := 1024.

Definition hash_bytes (data : string) : string :=
  to_hex (generichash_final (generichash_update generichash_init data)).
Definition hash_string (data : string) : string :=
  to_hex (generichash_final (generichash_update generichash_init data)).

(** A read takes a byte or more, so [fuel] is the number of bytes that are left and one more. *)
Fixpoint hash_chunks (fuel : nat) (reader : BufReader.t) (st : hash_state) : io hash_state :=
  match fuel with
  | O => ok st
  | S fuel =>
      p <-? BufReader.read BUF_SIZE reader;;
      let (chunk, reader) := p : string * BufReader.t in
      if String.eqb chunk "" then ok st
      else hash_chunks fuel reader (generichash_update st chunk)
  end.

Definition hash_reader (reader : BufReader.t) : io string :=
  st <-? hash_chunks (S (length (BufReader.rest reader))) reader generichash_init;;
  ok (to_hex (generichash_final st)).

Definition hash_file (filename : string) : io string :=
  reader <-? BufReader.open filename;;
  hash_reader reader.
End with_crypto.
