(* ===== verification/Keys.v ===== *)
(** * Signature, box and symmetric keys

    Models [components/core/src/crypto/keys/sig_key_pair.rs], [box_key_pair.rs] and [sym_key.rs]:
    making keys, keeping them in files and finding them again, reading keys that were sent as text,
    and encryption.  What the three files do alike is written once, with the parts in which they
    differ as arguments. *)

From Stdlib Require Import Ascii.
From S2P Require Import Prelude Regex Text ByteText Host CryptoLib KeyFiles.
Local Open Scope string_scope.
Local Open Scope list_scope.

(** [Result::ok] *)
Definition get_ok {A} (r : result crypto_error A) : option A :=
  match r with Ok a => Some a | Err _ => None end.

(** [format!("{}\n{}\n\n{}", version, name_with_rev, encoded)] *)
Definition key_text (version name_with_rev encoded : string) : string :=
  version +:+ nl +:+ name_with_rev +:+ nl +:+ nl +:+ encoded.

Section shared.
  Context `{!RegexEngine, !CryptoLib}.
  Context {P S : Type}.
  Context (get_public_key : string -> string -> io P) (get_secret_key : string -> string -> io S).

Definition pair_for (name_with_rev cache_key_path : string) : io (KeyPair.t P S) :=
  nr <-? pure (parse_name_with_rev name_with_rev);;
  rp ← get_public_key name_with_rev cache_key_path;
  rs ← get_secret_key name_with_rev cache_key_path;
  match get_ok rp, get_ok rs with
  | None, None =>
      throw (CryptoError ("No public or secret keys found for name_with_rev " +:+ name_with_rev))
  | pk, sk => ok (KeyPair.new nr.1 nr.2 pk sk)
  end.

Fixpoint load_pairs (cache_key_path : string) (revisions : list string) : io (list (KeyPair.t P S)) :=
  match revisions with
  | [] => ok []
  | name_with_rev :: revisions =>
      kp <-? pair_for name_with_rev cache_key_path;;
      key_pairs <-? load_pairs cache_key_path revisions;;
      ok (kp :: key_pairs)
  end.

Definition pairs_for (key_type : KeyType.t) (name cache_key_path : string) (pair_type : option PairType.t)
    : io (list (KeyPair.t P S)) :=
  revisions <-? get_key_revisions name cache_key_path pair_type key_type;;
  load_pairs cache_key_path revisions.

Definition latest_pair_for (key_type : KeyType.t) (name cache_key_path : string)
    (pair_type : option PairType.t) : io (KeyPair.t P S) :=
  all <-? pairs_for key_type name cache_key_path pair_type;;
  match all with
  | [] => throw (CryptoError ("No revisions found for " +:+ name +:+ " " +:+ KeyType.to_string key_type +:+ " key"))
  | kp :: _ => ok kp
  end.

Definition key_path (kind suffix key_with_rev cache_key_path : string) : io string :=
  let path := mk_key_filename cache_key_path key_with_rev suffix in
  there ← is_file path;
  if there : bool then ok path
  else throw (CryptoError ("No " +:+ kind +:+ " key found at " +:+ path)).

Definition key_from_file {K} `{!Slices K} (kind suffix key_with_rev cache_key_path : string) : io K :=
  bytes <-? read_key_bytes (mk_key_filename cache_key_path key_with_rev suffix);;
  match from_slice bytes with
  | Some k => ok k
  | None => throw (CryptoError ("Can't read " +:+ kind +:+ " key for " +:+ key_with_rev))
  end.

Definition key_to_string {K} `{!Slices K} (version kind : string) (key : option K) (name_with_rev : string)
    : result crypto_error string :=
  match key with
  | Some k => Ok (key_text version name_with_rev (base64_encode (to_bytes k)))
  | None => Err (CryptoError ("No " +:+ kind +:+ " key present for " +:+ name_with_rev))
  end.

(** The end of [write_file_from_str], after the text was parsed: the text goes to a temporary file
    first, which becomes the key file unless there is one. *)
Definition move_keyfile (keyfile tmpfile : string) : io unit :=
  there ← is_file keyfile;
  if there : bool then
    existing_hash <-? hash_file keyfile;;
    new_hash <-? hash_file tmpfile;;
    if String.eqb existing_hash new_hash then or_io (delete_file tmpfile)
    else throw (CryptoError
      ("Existing key file " +:+ keyfile +:+ " found but new version hash is different, failing to write new file over existing. ("
       +:+ keyfile +:+ " = " +:+ existing_hash +:+ ", " +:+ tmpfile +:+ " = " +:+ new_hash +:+ ")"))
  else or_io (rename_file tmpfile keyfile).

Definition tmp_path (keyfile random : string) : string :=
  set_file_name keyfile (file_name keyfile +:+ "." +:+ to_hex random).

Definition install_key (random content name_with_rev cache_key_path suffix : string)
    (pair_type : PairType.t) : io (KeyPair.t P S * PairType.t) :=
  let keyfile := mk_key_filename cache_key_path name_with_rev suffix in
  let tmpfile := tmp_path keyfile random in
  r ← (_ <-? match pair_type with
             | PairType.Public => write_keypair_files (Some tmpfile) (Some content) None None
             | PairType.Secret => write_keypair_files None None (Some tmpfile) (Some content)
             end;;
       _ <-? move_keyfile keyfile tmpfile;;
       kp <-? pair_for name_with_rev cache_key_path;;
       ok (kp, pair_type));
  _ ← TmpKeyfile.drop (TmpKeyfile.mk tmpfile);
  mret r.
End shared.

(** ** [SigKeyPair] *)
Module SigKeyPair.
Section with_crypto.
  Context `{!RegexEngine, !CryptoLib}.

Definition t : Type := KeyPair.t SigPublicKey SigSecretKey.

Definition generate_pair_for_origin (now : option string) (random name : string) : result crypto_error t :=
  revision ← mk_revision_string now;
  let (pk, sk) := sign_gen_keypair random in
  Ok (KeyPair.new name revision (Some pk) (Some sk)).

Definition get_public_key (key_with_rev cache_key_path : string) : io SigPublicKey :=
  key_from_file "sig public" PUBLIC_KEY_SUFFIX key_with_rev cache_key_path.
Definition get_secret_key (key_with_rev cache_key_path : string) : io SigSecretKey :=
  key_from_file "sig secret" SECRET_SIG_KEY_SUFFIX key_with_rev cache_key_path.

Definition get_pair_for : string -> string -> io t := pair_for get_public_key get_secret_key.
Definition get_pairs_for : string -> string -> option PairType.t -> io (list t) :=
  pairs_for get_public_key get_secret_key KeyType.Sig.
Definition get_latest_pair_for : string -> string -> option PairType.t -> io t :=
  latest_pair_for get_public_key get_secret_key KeyType.Sig.

Definition get_public_key_path : string -> string -> io string := key_path "public" PUBLIC_KEY_SUFFIX.
Definition get_secret_key_path : string -> string -> io string := key_path "secret" SECRET_SIG_KEY_SUFFIX.

Definition to_public_string (self : t) : result crypto_error string :=
  key_to_string PUBLIC_SIG_KEY_VERSION "public" (KeyPair.public self) (KeyPair.name_with_rev self).
Definition to_secret_string (self : t) : result crypto_error string :=
  key_to_string SECRET_SIG_KEY_VERSION "secret" (KeyPair.secret self) (KeyPair.name_with_rev self).

Definition to_pair_files (self : t) (path : string) : io unit :=
  let public_keyfile := mk_key_filename path (KeyPair.name_with_rev self) PUBLIC_KEY_SUFFIX in
  let secret_keyfile := mk_key_filename path (KeyPair.name_with_rev self) SECRET_SIG_KEY_SUFFIX in
  public_content <-? pure (to_public_string self);;
  secret_content <-? pure (to_secret_string self);;
  write_keypair_files (Some public_keyfile) (Some public_content) (Some secret_keyfile) (Some secret_content).

Definition malformed {A} (n content : string) : result crypto_error A :=
  Err (CryptoError ("write_sig_key_from_str:" +:+ n +:+ " Malformed sig key string:" +:+ nl +:+ "(" +:+ content +:+ ")")).

Definition parse_key_str (content : string) : result crypto_error (PairType.t * string * string) :=
  let ls := lines content in
  pair_type ← match ls !! 0%nat with
              | Some val =>
                  if String.eqb val PUBLIC_SIG_KEY_VERSION then Ok PairType.Public
                  else if String.eqb val SECRET_SIG_KEY_VERSION then Ok PairType.Secret
                  else Err (CryptoError ("Unsupported key version: " +:+ val))
              | None => malformed "1" content
              end;
  name_with_rev ← match ls !! 1%nat with
                  | Some val => Ok val
                  | None => malformed "2" content
                  end;
  match ls !! 3%nat with
  | Some val =>
      match base64_decode (trim val) with
      | Ok _ => Ok (pair_type, name_with_rev, trim val)
      | Err _ => malformed "3" content
      end
  | None => malformed "3" content
  end.

Definition suffix_of (pair_type : PairType.t) : string :=
  match pair_type with
  | PairType.Public => PUBLIC_KEY_SUFFIX
  | PairType.Secret => SECRET_SIG_KEY_SUFFIX
  end.

Definition write_file_from_str (random content cache_key_path : string) : io (t * PairType.t) :=
  p <-? pure (parse_key_str content);;
  let '(pair_type, name_with_rev, _) := p in
  install_key get_public_key get_secret_key random content name_with_rev cache_key_path
    (suffix_of pair_type) pair_type.
End with_crypto.
End SigKeyPair.

(** ** [SymKey] *)
Module SymKey.
Section with_crypto.
  Context `{!RegexEngine, !CryptoLib}.

Definition t : Type := KeyPair.t unit SymSecretKey.

Definition generate_pair_for_ring (now : option string) (random name : string) : result crypto_error t :=
  revision ← mk_revision_string now;
  Ok (KeyPair.new name revision (Some tt) (Some (secretbox_gen_key random))).

Definition get_public_key (key_with_rev cache_key_path : string) : io unit :=
  throw (CryptoError "SymKey never contains a public key").
Definition get_secret_key (key_with_rev cache_key_path : string) : io SymSecretKey :=
  key_from_file "sym secret" SECRET_SYM_KEY_SUFFIX key_with_rev cache_key_path.

Definition get_pair_for : string -> string -> io t := pair_for get_public_key get_secret_key.
Definition get_pairs_for (name cache_key_path : string) : io (list t) :=
  pairs_for get_public_key get_secret_key KeyType.Sym name cache_key_path None.
Definition get_latest_pair_for (name cache_key_path : string) : io t :=
  latest_pair_for get_public_key get_secret_key KeyType.Sym name cache_key_path None.

Definition get_public_key_path (key_with_rev cache_key_path : string) : io string :=
  throw (CryptoError "No public key exists for sym keys").
Definition get_secret_key_path : string -> string -> io string := key_path "secret" SECRET_SYM_KEY_SUFFIX.

(** The nonce and the ciphertext. *)
Definition encrypt (self : t) (random data : string) : result crypto_error (string * string) :=
  key ← KeyPair.get_secret self;
  let nonce := secretbox_gen_nonce random in
  Ok (to_bytes nonce, secretbox_seal data nonce key).

Definition decrypt (self : t) (nonce ciphertext : string) : result crypto_error string :=
  key ← KeyPair.get_secret self;
  match from_slice nonce with
  | None => Err (CryptoError "Invalid size of nonce")
  | Some nonce =>
      match secretbox_open ciphertext nonce key with
      | Some msg => Ok msg
      | None => Err (CryptoError "Secret key and nonce could not decrypt ciphertext")
      end
  end.

Definition to_secret_string (self : t) : result crypto_error string :=
  key_to_string SECRET_SYM_KEY_VERSION "secret" (KeyPair.secret self) (KeyPair.name_with_rev self).

Definition to_pair_files (self : t) (path : string) : io unit :=
  let secret_keyfile := mk_key_filename path (KeyPair.name_with_rev self) SECRET_SYM_KEY_SUFFIX in
  secret_content <-? pure (to_secret_string self);;
  write_keypair_files None None (Some secret_keyfile) (Some secret_content).

Definition malformed {A} (n content : string) : result crypto_error A :=
  Err (CryptoError ("write_sym_key_from_str:" +:+ n +:+ " Malformed sym key string:" +:+ nl +:+ "(" +:+ content +:+ ")")).

(** The first part of [write_file_from_str]: the name of the key in the text. *)
Definition parse_key_str (content : string) : result crypto_error string :=
  let ls := lines content in
  _ ← match ls !! 0%nat with
      | Some val =>
          if String.eqb val SECRET_SYM_KEY_VERSION then Ok tt
          else Err (CryptoError ("Unsupported key version: " +:+ val))
      | None => malformed "1" content
      end;
  name_with_rev ← match ls !! 1%nat with
                  | Some val => Ok val
                  | None => malformed "2" content
                  end;
  match ls !! 3%nat with
  | None => malformed "3" content
  | Some _ => Ok name_with_rev
  end.

Definition write_file_from_str (random content cache_key_path : string) : io (t * PairType.t) :=
  name_with_rev <-? pure (parse_key_str content);;
  install_key get_public_key get_secret_key random content name_with_rev cache_key_path
    SECRET_SYM_KEY_SUFFIX PairType.Secret.
End with_crypto.
End SymKey.

(** ** [BoxKeyPair] *)
Module BoxKeyPair.
Section with_crypto.
  Context `{!RegexEngine, !CryptoLib}.

Definition t : Type := KeyPair.t BoxPublicKey BoxSecretKey.

Definition mk_key_name_for_service (org service_group revision : string) : string :=
  service_group +:+ "@" +:+ org +:+ "-" +:+ revision.
Definition mk_key_name_for_user (user revision : string) : string := user +:+ "-" +:+ revision.

Definition generate_pair_for_service (now : option string) (random org service_group : string)
    : result crypto_error t :=
  revision ← mk_revision_string now;
  let keyname := mk_key_name_for_service org service_group revision in
  let (pk, sk) := box_gen_keypair random in
  nr ← parse_name_with_rev keyname;
  Ok (KeyPair.new nr.1 revision (Some pk) (Some sk)).

Definition generate_pair_for_user (now : option string) (random user : string) : result crypto_error t :=
  revision ← mk_revision_string now;
  let keyname := mk_key_name_for_user user revision in
  let (pk, sk) := box_gen_keypair random in
  nr ← parse_name_with_rev keyname;
  Ok (KeyPair.new nr.1 revision (Some pk) (Some sk)).

Definition get_public_key (key_with_rev cache_key_path : string) : io BoxPublicKey :=
  key_from_file "box public" PUBLIC_KEY_SUFFIX key_with_rev cache_key_path.
Definition get_secret_key (key_with_rev cache_key_path : string) : io BoxSecretKey :=
  key_from_file "box secret" SECRET_BOX_KEY_SUFFIX key_with_rev cache_key_path.

Definition get_pair_for : string -> string -> io t := pair_for get_public_key get_secret_key.
Definition get_pairs_for (name cache_key_path : string) : io (list t) :=
  pairs_for get_public_key get_secret_key KeyType.Box name cache_key_path None.
Definition get_latest_pair_for (name cache_key_path : string) : io t :=
  latest_pair_for get_public_key get_secret_key KeyType.Box name cache_key_path None.

Definition get_public_key_path : string -> string -> io string := key_path "public" PUBLIC_KEY_SUFFIX.
Definition get_secret_key_path : string -> string -> io string := key_path "secret" SECRET_BOX_KEY_SUFFIX.

Definition to_public_string (self : t) : result crypto_error string :=
  key_to_string PUBLIC_BOX_KEY_VERSION "public" (KeyPair.public self) (KeyPair.name_with_rev self).
Definition to_secret_string (self : t) : result crypto_error string :=
  key_to_string SECRET_BOX_KEY_VERSION "secret" (KeyPair.secret self) (KeyPair.name_with_rev self).

Definition to_pair_files (self : t) (path : string) : io unit :=
  let public_keyfile := mk_key_filename path (KeyPair.name_with_rev self) PUBLIC_KEY_SUFFIX in
  let secret_keyfile := mk_key_filename path (KeyPair.name_with_rev self) SECRET_BOX_KEY_SUFFIX in
  public_content <-? pure (to_public_string self);;
  secret_content <-? pure (to_secret_string self);;
  write_keypair_files (Some public_keyfile) (Some public_content) (Some secret_keyfile) (Some secret_content).

Definition encrypt_box (self : t) (random data : string) (receiver : t) : result crypto_error string :=
  let nonce := box_gen_nonce random in
  pk ← KeyPair.get_public receiver;
  sk ← KeyPair.get_secret self;
  let ciphertext := box_seal data nonce pk sk in
  Ok (BOX_FORMAT_VERSION +:+ nl +:+ KeyPair.name_with_rev self +:+ nl +:+ KeyPair.name_with_rev receiver +:+ nl
      +:+ base64_encode (to_bytes nonce) +:+ nl +:+ base64_encode ciphertext).

Definition encrypt_anonymous_box (self : t) (random data : string) : result crypto_error string :=
  pk ← KeyPair.get_public self;
  let ciphertext := sealedbox_seal random data pk in
  Ok (ANONYMOUS_BOX_FORMAT_VERSION +:+ nl +:+ KeyPair.name_with_rev self +:+ nl +:+ base64_encode ciphertext).

Definition encrypt (self : t) (random data : string) (receiver : option t) : result crypto_error string :=
  match receiver with
  | Some r => encrypt_box self random data r
  | None => encrypt_anonymous_box self random data
  end.

Definition decrypt_box (ciphertext : string) (nonce : BoxNonce) (pk : BoxPublicKey) (sk : BoxSecretKey)
    : result crypto_error string :=
  match box_open ciphertext nonce pk sk with
  | Some m => Ok m
  | None => Err (CryptoError "Secret key, public key, and nonce could not decrypt ciphertext")
  end.

Definition decrypt_anonymous_box (ciphertext : string) (pk : BoxPublicKey) (sk : BoxSecretKey)
    : result crypto_error string :=
  match sealedbox_open ciphertext pk sk with
  | Some m => Ok m
  | None => Err (CryptoError "Secret key and public key could not decrypt ciphertext")
  end.

(** [lines.next()]: the line or an error, and the lines after it. *)
Definition next_line (what : string) (ls : list string) : io (string * list string) :=
  match ls with
  | val :: ls => ok (val, ls)
  | [] => throw (CryptoError ("Corrupt payload, can't read " +:+ what))
  end.

Definition decode (what val : string) : io string :=
  match base64_decode val with
  | Ok b => ok b
  | Err e => throw (CryptoError ("Can't decode " +:+ what +:+ ": " +:+ e))
  end.

Definition decrypt (payload cache_key_path : string) : io string :=
  if negb (is_utf8 payload) then throw StrFromUtf8Error
  else
    l <-? next_line "file version" (lines payload);;
    let (version, ls) := l : string * list string in
    let anonymous := String.eqb version ANONYMOUS_BOX_FORMAT_VERSION in
    if negb (String.eqb version BOX_FORMAT_VERSION || anonymous) then
      throw (CryptoError ("Unsupported version: " +:+ version))
    else
      l <-? next_line "sender key name" ls;;
      let (sender_name, ls) := l : string * list string in
      sender <-? get_pair_for sender_name cache_key_path;;
      if anonymous : bool then
        l <-? next_line "ciphertext" ls;;
        ciphertext <-? decode "ciphertext" l.1;;
        pk <-? pure (KeyPair.get_public sender);;
        sk <-? pure (KeyPair.get_secret sender);;
        pure (decrypt_anonymous_box ciphertext pk sk)
      else
        l <-? next_line "receiver key name" ls;;
        let (receiver_name, ls) := l : string * list string in
        receiver <-? get_pair_for receiver_name cache_key_path;;
        l <-? next_line "nonce" ls;;
        let (nonce, ls) := l : string * list string in
        decoded <-? decode "nonce" nonce;;
        match from_slice decoded with
        | None => throw (CryptoError "Invalid size of nonce")
        | Some nonce =>
            l <-? next_line "ciphertext" ls;;
            ciphertext <-? decode "ciphertext" l.1;;
            pk <-? pure (KeyPair.get_public sender);;
            sk <-? pure (KeyPair.get_secret receiver);;
            pure (decrypt_box ciphertext nonce pk sk)
        end.
End with_crypto.
End BoxKeyPair.
