(* ===== verification/CryptoExample.v ===== *)
(** * A small model of the cryptographic libraries

    Functions that keep the laws of [CryptoLaws], so that the theorems about keys and artifacts can
    be applied to concrete files.  They protect nothing: a key pair is twice the same two bytes, and
    what is signed or sealed is shown behind the keys. *)

From Stdlib Require Import Ascii.
From S2P Require Import Prelude Regex Text ByteText CryptoLib.
Local Open Scope string_scope.
Local Open Scope list_scope.

Module CryptoExample.
Definition key : Type := ascii * ascii.

Definition key_bytes (k : key) : string := String k.1 (String k.2 "").
Definition key_of (s : string) : option key :=
  match s with String a (String b "") => Some (a, b) | _ => None end.
#[global] Instance key_slices : Slices key := {| from_slice := key_of; to_bytes := key_bytes |}.

Definition gen (random : string) : key :=
  match random with String a (String b _) => (a, b) | _ => ("k"%char, "k"%char) end.

Fixpoint strip (p s : string) : option string :=
  match p, s with
  | "", _ => Some s
  | String c p, String d s => if Ascii.eqb c d then strip p s else None
  | String _ _, "" => None
  end.

(** Two characters for each byte. *)
Definition two (digits : string) (c : ascii) : chars :=
  let n := nat_of_ascii c in
  let digit i := default "0"%char (to_chars digits !! i) in
  [digit (n / 16)%nat; digit (n mod 16)%nat].
Definition encode (digits s : string) : string := of_chars (mjoin (two digits <$> to_chars s)).

Fixpoint index (c : ascii) (l : chars) : nat :=
  match l with
  | [] => 0
  | d :: l => if Ascii.eqb c d then 0 else S (index c l)
  end.

Fixpoint decode_chars (digits : chars) (l : chars) : option chars :=
  match l with
  | [] => Some []
  | [_] => None
  | a :: b :: l =>
      if bool_decide (a ∈ digits /\ b ∈ digits) then
        rest ← decode_chars digits l; Some (ascii_of_nat (16 * index a digits + index b digits) :: rest)
      else None
  end.

Definition hex_digits : string := "0123456789abcdef".

Definition decode (s : string) : result string string :=
  match decode_chars (to_chars hex_digits) (to_chars s) with
  | Some l => Ok (of_chars l)
  | None => Err "Invalid byte"
  end.

Definition lib : CryptoLib := {|
  base64_encode := encode hex_digits;
  base64_decode := decode;
  to_hex := encode hex_digits;
  hash_state := string;
  generichash_init := "";
  generichash_update := String.append;
  generichash_final := fun s => s;
  SigPublicKey := key;
  SigSecretKey := key;
  BoxPublicKey := key;
  BoxSecretKey := key;
  BoxNonce := key;
  SymSecretKey := key;
  SymNonce := key;
  sign_gen_keypair := fun r => (gen r, gen r);
  sign_sign := fun m sk => key_bytes sk +:+ m;
  sign_verify := fun s pk => strip (key_bytes pk) s;
  box_gen_keypair := fun r => (gen r, gen r);
  box_gen_nonce := gen;
  box_seal := fun m n pk sk => key_bytes n +:+ key_bytes pk +:+ key_bytes sk +:+ m;
  box_open := fun c n pk sk => strip (key_bytes n +:+ key_bytes sk +:+ key_bytes pk) c;
  sealedbox_seal := fun _ m pk => key_bytes pk +:+ m;
  sealedbox_open := fun c pk sk => strip (key_bytes sk) c;
  secretbox_gen_key := gen;
  secretbox_gen_nonce := gen;
  secretbox_seal := fun m n k => key_bytes n +:+ key_bytes k +:+ m;
  secretbox_open := fun c n k => strip (key_bytes n +:+ key_bytes k) c;
|}.

Lemma strip_app p s : strip p (p +:+ s) = Some s.
Proof.
  induction p as [|c p IH]; [done|]. change (String c p +:+ s) with (String c (p +:+ s)).
  cbn [strip]. by rewrite Ascii.eqb_refl.
Qed.

Definition decodes (c : ascii) : bool :=
  match two hex_digits c with
  | [a; b] =>
      (in_hex a && in_hex b) &&
      bool_decide (a ∈ to_chars hex_digits /\ b ∈ to_chars hex_digits) &&
      Ascii.eqb (ascii_of_nat (16 * index a (to_chars hex_digits) + index b (to_chars hex_digits))) c
  | _ => false
  end.

Lemma two_decodes c : decodes c = true.
Proof. destruct c as [[] [] [] [] [] [] [] []]; vm_compute; reflexivity. Qed.

Lemma decode_encode_chars l :
  decode_chars (to_chars hex_digits) (mjoin (two hex_digits <$> l)) = Some l /\
  forallb in_hex (mjoin (two hex_digits <$> l)) = true.
Proof.
  induction l as [|c l [IH1 IH2]]; [done|]. pose proof (two_decodes c) as H. unfold decodes in H.
  change (mjoin (two hex_digits <$> c :: l)) with (two hex_digits c ++ mjoin (two hex_digits <$> l)).
  destruct (two hex_digits c) as [|a [|b [|? ?]]] eqn:E; try done.
  apply andb_prop in H as [[[Ha Hb]%andb_prop Hin]%andb_prop Hc]. apply Ascii.eqb_eq in Hc.
  cbn [app forallb decode_chars]. by rewrite Ha, Hb, Hin, IH1, <- Hc.
Qed.

Lemma key_laws : SlicesLaws key.
Proof. split; [by intros []|done]. Qed.

Lemma hex_in_base64 c : in_hex c = true -> in_base64 c = true.
Proof. destruct c as [[] [] [] [] [] [] [] []]; vm_compute; done. Qed.

Lemma base64_decodes b : decode (encode hex_digits b) = Ok b.
Proof.
  unfold encode, decode. rewrite to_of_chars. by rewrite (proj1 (decode_encode_chars _)), of_to_chars.
Qed.

Lemma encode_in_hex b : forallb in_hex (to_chars (encode hex_digits b)) = true.
Proof. unfold encode. rewrite to_of_chars. apply decode_encode_chars. Qed.

Lemma encode_in_base64 b : forallb in_base64 (to_chars (encode hex_digits b)) = true.
Proof.
  pose proof (encode_in_hex b) as H. rewrite forallb_forall in *. intros c Hc. by apply hex_in_base64, H.
Qed.

Lemma laws : CryptoLaws lib.
Proof.
  split; try exact key_laws.
  - exact base64_decodes.
  - exact encode_in_base64.
  - exact eq_refl.
  - exact encode_in_hex.
  - exact append_assoc.
  - exact append_nil_r.
  - intros seed pk sk m [= <- <-]. exact (strip_app _ _).
  - intros s1 s2 pk1 sk1 pk2 sk2 n m [= <- <-] [= <- <-].
    exact (strip_app (key_bytes n +:+ key_bytes (gen s2) +:+ key_bytes (gen s1)) m).
  - intros s r pk sk m [= <- <-]. exact (strip_app _ _).
  - discriminate.
  - discriminate.
  - intros n k m. exact (strip_app (key_bytes n +:+ key_bytes k) m).
Qed.
End CryptoExample.
