(* ===== verification/KeyNames.v ===== *)
(** * The names of keys

    What the two patterns of [components/core/src/crypto/keys/mod.rs] accept: a name and a revision
    are found in the name of a key in exactly one way, and a file belongs to the key it is named
    after. *)

From Stdlib Require Import Ascii.
From S2P Require Import Prelude Regex ServiceGroup Text ByteText CryptoLib KeyFiles.
Local Open Scope string_scope.
Local Open Scope list_scope.

(** A name of a key: one line of text. *)
Definition valid_key_name (s : string) : Prop := s <> "" /\ (newline ∉ to_chars s).
(** A revision: fourteen digits. *)
Definition valid_rev (s : string) : Prop :=
  length (to_chars s) = 14%nat /\ forallb is_digit (to_chars s) = true.

#[export] Instance valid_key_name_dec s : Decision (valid_key_name s).
Proof. unfold valid_key_name. apply _. Defined.
#[export] Instance valid_rev_dec s : Decision (valid_rev s).
Proof. unfold valid_rev. apply _. Defined.

Lemma repeat_one_match n p start w rest c :
  rmatch (repeat_one n p) start w rest c <-> length w = S n /\ forallb p w = true /\ c = [].
Proof.
  revert start w rest c; induction n as [|n IH]; intros start w rest c; cbn.
  - split.
    + intros (x & -> & Hx & ->). cbn. by rewrite Hx.
    + intros (Hl & Hp & ->). destruct w as [|x [|]]; try done. cbn in Hp. rewrite andb_true_r in Hp. eauto.
  - split.
    + intros (w1 & w2 & c1 & c2 & -> & -> & (x & -> & Hx & ->) & H). apply IH in H as (Hl & Hp & ->).
      cbn. by rewrite Hl, Hx, Hp.
    + intros (Hl & Hp & ->). destruct w as [|x w]; [done|]. cbn in Hp, Hl. apply andb_prop in Hp as [Hx Hp].
      exists [x], w, [], []. split_and!; [done..|eauto|]. apply IH. split_and!; [lia|done..].
Qed.

Lemma none_of_nl w : forallb (none_of nl) w = true <-> newline ∉ w.
Proof.
  split; [by apply none_of_not_in|]. intros H. apply forallb_forall. intros x Hx. unfold none_of, one_of. cbn.
  destruct (Ascii.eqb_spec x newline) as [->|]; [|done]. by apply list_elem_of_In in Hx.
Qed.

(** ** [NAME_WITH_REV_RE] *)
Definition name_rev_text (n r : chars) : chars := n ++ "-"%char :: r.

Lemma name_rev_match start w rest c :
  rmatch NAME_WITH_REV_BODY start w rest c <->
  exists n r, (n <> [] /\ newline ∉ n) /\ (length r = 14%nat /\ forallb is_digit r = true) /\
    w = name_rev_text n r /\ c = [("name", n); ("rev", r)].
Proof.
  unfold NAME_WITH_REV_BODY. split.
  - intros (n & w2 & c1 & c2 & -> & -> & (? & -> & Hn & Hnl & ->) & w3 & r & c3 & c4 & -> & -> &
      (x & -> & Hx & ->) & ? & -> & Hr).
    apply repeat_one_match in Hr as (Hl & Hd & ->). apply Ascii.eqb_eq in Hx as ->.
    exists n, r. split_and!; try done. by apply none_of_nl.
  - intros (n & r & [Hn Hnl] & [Hl Hd] & -> & ->).
    exists n, ("-"%char :: r), [("name", n)], [("rev", r)]. split_and!; [done..| |].
    { exists []. split; [done|]. split; [done|]. split; [by apply none_of_nl|done]. }
    exists ["-"%char], r, [], [("rev", r)]. split_and!; [done..|by exists "-"%char|].
    exists []. split; [done|]. by apply repeat_one_match.
Qed.

Lemma name_rev_text_inj n r n' r' :
  length r = length r' -> name_rev_text n r = name_rev_text n' r' -> n = n' /\ r = r'.
Proof.
  unfold name_rev_text. intros Hl H. apply app_inj_2 in H as [-> H]; [by simplify_eq|]. cbn. by rewrite Hl.
Qed.

(** ** [KEYFILE_RE] *)
Definition letters (w : chars) : Prop := w <> [] /\ forallb (in_range "a" "z") w = true.
Definition suffix_chars (w : chars) : Prop :=
  letters w \/ exists w1 w2, letters w1 /\ letters w2 /\ w = w1 ++ "."%char :: w2.

Definition keyfile_text (n r s : chars) : chars := name_rev_text n r ++ "."%char :: s.

Lemma suffix_match start w rest c :
  rmatch (RSeq (RPlus (in_range "a" "z")) (ROpt (RSeq (ROne (is_char ".")) (RPlus (in_range "a" "z"))))) start w rest c
  <-> suffix_chars w /\ c = [].
Proof.
  split.
  - intros (w1 & w2 & c1 & c2 & -> & -> & (Hne & Hl & ->) & [H|[-> ->]]).
    + destruct H as (d & w3 & c3 & c4 & -> & -> & (x & -> & Hx & ->) & Hne' & Hl' & ->).
      apply Ascii.eqb_eq in Hx as ->. split; [|done]. right. by exists w1, w3.
    + rewrite app_nil_r. split; [by left|done].
  - intros [[[Hne Hl]|(w1 & w2 & [Hne Hl] & [Hne' Hl'] & ->)] ->].
    + exists w, [], [], []. rewrite app_nil_r. split; [done|]. split; [done|]. split; [done|]. by right.
    + exists w1, ("."%char :: w2), [], []. split; [done|]. split; [done|]. split; [done|]. left.
      exists ["."%char], w2, [], []. split; [done|]. split; [done|]. split; [by exists "."%char|done].
Qed.

Lemma keyfile_match start w rest c :
  rmatch KEYFILE_BODY start w rest c <->
  exists n r s, (n <> [] /\ newline ∉ n) /\ (length r = 14%nat /\ forallb is_digit r = true) /\ suffix_chars s /\
    w = keyfile_text n r s /\ c = [("name", n); ("rev", r); ("suffix", s)].
Proof.
  unfold KEYFILE_BODY, keyfile_text, name_rev_text. split.
  - intros (n & w2 & c1 & c2 & -> & -> & (? & -> & Hn & Hnl & ->) & w3 & w4 & c3 & c4 & -> & -> &
      (x & -> & Hx & ->) & r & w5 & c5 & c6 & -> & -> & (? & -> & Hr) & w6 & s & c7 & c8 & -> & -> &
      (y & -> & Hy & ->) & ? & -> & Hs).
    apply repeat_one_match in Hr as (Hl & Hd & ->). apply suffix_match in Hs as [Hs ->].
    apply Ascii.eqb_eq in Hx as ->. apply Ascii.eqb_eq in Hy as ->.
    exists n, r, s. split; [by split; [|apply none_of_nl]|]. split; [done|]. split; [done|].
    by rewrite <- (assoc_L (++)).
  - intros (n & r & s & [Hn Hnl] & [Hl Hd] & Hs & -> & ->). rewrite <- (assoc_L (++)).
    exists n, ("-"%char :: r ++ "."%char :: s), [("name", n)], [("rev", r); ("suffix", s)].
    split; [done|]. split; [done|]. split.
    { exists []. split; [done|]. split; [done|]. split; [by apply none_of_nl|done]. }
    exists ["-"%char], (r ++ "."%char :: s), [], [("rev", r); ("suffix", s)].
    split; [done|]. split; [done|]. split; [by exists "-"%char|].
    exists r, ("."%char :: s), [("rev", r)], [("suffix", s)]. split; [done|]. split; [done|].
    split; [exists []; split; [done|]; by apply repeat_one_match|].
    exists ["."%char], s, [], [("suffix", s)]. split; [done|]. split; [done|].
    split; [by exists "."%char|]. exists []. split; [done|]. by apply suffix_match.
Qed.

(** Two ways to cut a text at its last occurrence of [x] are the same. *)
Lemma cut_last_unique {A} (x : A) l1 l2 r1 r2 :
  x ∉ r1 -> x ∉ r2 -> l1 ++ x :: r1 = l2 ++ x :: r2 -> l1 = l2 /\ r1 = r2.
Proof.
  intros H1 H2 H. apply (f_equal reverse) in H. rewrite !reverse_app, !reverse_cons, <- !(assoc_L (++)) in H.
  apply cut_unique in H as [E1 E2]; [|by rewrite elem_of_reverse..]. by simplify_eq.
Qed.

Lemma letters_no_dot w : letters w -> "."%char ∉ w.
Proof. intros [_ Hl]. by apply (alphabet_excludes _ _ _ Hl). Qed.

Lemma last_digit n r : length r = 14%nat -> forallb is_digit r = true ->
  exists d, last (name_rev_text n r) = Some d /\ is_digit d = true.
Proof.
  intros Hl Hd. unfold name_rev_text. destruct (last r) as [d|] eqn:E.
  - exists d. rewrite last_app_cons, last_cons, E. split; [done|].
    rewrite forallb_forall in Hd. apply Hd, list_elem_of_In. by apply last_Some_elem_of.
  - by apply last_None in E as ->.
Qed.

Lemma last_letter a w : letters w -> exists d, last (a ++ "."%char :: w) = Some d /\ is_digit d = false.
Proof.
  intros [Hne Hl]. destruct (last w) as [d|] eqn:E; [|by apply last_None in E].
  exists d. rewrite last_app_cons, last_cons, E. split; [done|]. rewrite forallb_forall in Hl.
  assert (in_range "a" "z" d = true) as Hd by (apply Hl, list_elem_of_In; by apply last_Some_elem_of).
  revert Hd. destruct d as [[] [] [] [] [] [] [] []]; vm_compute; done.
Qed.

Lemma suffix_cut a a' s s' d d' :
  suffix_chars s -> suffix_chars s' -> last a = Some d -> is_digit d = true -> last a' = Some d' -> is_digit d' = true ->
  a ++ "."%char :: s = a' ++ "."%char :: s' -> a = a' /\ s = s'.
Proof.
  intros Hs Hs' Ha Hd Ha' Hd' E.
  destruct Hs as [Hs|(s1 & s2 & H1 & H2 & ->)], Hs' as [Hs'|(s1' & s2' & H1' & H2' & ->)].
  - apply cut_last_unique in E; [done|by apply letters_no_dot..].
  - rewrite app_comm_cons, (assoc_L (++)) in E.
    apply cut_last_unique in E as [-> _]; [|by apply letters_no_dot..].
    destruct (last_letter a' s1' H1') as (x & Hx & Hx'). congruence.
  - rewrite app_comm_cons, (assoc_L (++)) in E. symmetry in E.
    apply cut_last_unique in E as [-> _]; [|by apply letters_no_dot..].
    destruct (last_letter a s1 H1) as (x & Hx & Hx'). congruence.
  - rewrite !app_comm_cons, !(assoc_L (++)) in E.
    apply cut_last_unique in E as [E ->]; [|by apply letters_no_dot..].
    apply cut_last_unique in E as [-> ->]; [done|by apply letters_no_dot..].
Qed.

Lemma keyfile_text_inj n r s n' r' s' :
  length r = 14%nat -> forallb is_digit r = true -> length r' = 14%nat -> forallb is_digit r' = true ->
  suffix_chars s -> suffix_chars s' -> keyfile_text n r s = keyfile_text n' r' s' -> n = n' /\ r = r' /\ s = s'.
Proof.
  intros Hl Hd Hl' Hd' Hs Hs' E.
  destruct (last_digit n r) as (d & H1 & H2), (last_digit n' r') as (d' & H1' & H2'); try done.
  eapply suffix_cut in E as [E ->]; try done. apply name_rev_text_inj in E as [-> ->]; [done|congruence].
Qed.

Section with_engine.
  Context `{!RegexEngine}.

Lemma name_rev_captures s c :
  captures NAME_WITH_REV_RE s = Some c <->
  exists n r, (n <> [] /\ newline ∉ n) /\ (length r = 14%nat /\ forallb is_digit r = true) /\
    to_chars s = name_rev_text n r /\ c = [("name", n); ("rev", r)].
Proof.
  rewrite captures_leftmost_first. unfold NAME_WITH_REV_RE. rewrite search_anchored.
  - apply name_rev_match.
  - intros w w' c1 c2 (n & r & _ & [Hl _] & -> & ->)%name_rev_match (n' & r' & _ & [Hl' _] & -> & ->)%name_rev_match E.
    apply name_rev_text_inj in E as [-> ->]; [done|congruence].
Qed.

(** A name with a revision is parsed to its parts, and nothing else is parsed. *)
Lemma parse_name_with_rev_ok v n r :
  parse_name_with_rev v = Ok (n, r) <-> valid_key_name n /\ valid_rev r /\ v = n +:+ "-" +:+ r.
Proof.
  unfold parse_name_with_rev, valid_key_name, valid_rev. split.
  - destruct (captures NAME_WITH_REV_RE v) as [c|] eqn:E; [|done].
    apply name_rev_captures in E as (n' & r' & [Hn Hnl] & Hr & Hv & ->). cbn. intros [= <- <-].
    rewrite !to_of_chars. split_and!; try done; [by destruct n'|by destruct Hr..|].
    apply to_chars_inj. rewrite Hv. rewrite !to_chars_app, !to_of_chars. done.
  - intros ([Hn Hnl] & Hr & ->).
    assert (captures NAME_WITH_REV_RE (n +:+ "-" +:+ r) = Some [("name", to_chars n); ("rev", to_chars r)]) as ->.
    { apply name_rev_captures. exists (to_chars n), (to_chars r). rewrite !to_chars_app.
      split_and!; try done; [by destruct n|by destruct Hr..]. }
    cbn. by rewrite !of_to_chars.
Qed.

Lemma keyfile_captures s c :
  captures KEYFILE_RE s = Some c <->
  exists n r x, (n <> [] /\ newline ∉ n) /\ (length r = 14%nat /\ forallb is_digit r = true) /\ suffix_chars x /\
    to_chars s = keyfile_text n r x /\ c = [("name", n); ("rev", r); ("suffix", x)].
Proof.
  rewrite captures_leftmost_first. unfold KEYFILE_RE. rewrite search_anchored; [apply keyfile_match|].
  intros w w' c1 c2 (n & r & x & _ & [Hl Hd] & Hs & -> & ->)%keyfile_match
    (n' & r' & x' & _ & [Hl' Hd'] & Hs' & -> & ->)%keyfile_match E.
  by apply keyfile_text_inj in E as (-> & -> & ->).
Qed.

(** The suffixes a search for keys of one half takes. *)
Definition wanted_suffix (pair_type : option PairType.t) (suffix : string) : bool :=
  match pair_type with
  | Some PairType.Secret => is_secret_suffix suffix
  | Some PairType.Public => bool_decide (suffix = PUBLIC_KEY_SUFFIX)
  | None => bool_decide (suffix = PUBLIC_KEY_SUFFIX) || is_secret_suffix suffix
  end.

Lemma wanted_suffix_known pair_type suffix :
  wanted_suffix pair_type suffix = true -> bool_decide (suffix = PUBLIC_KEY_SUFFIX) || is_secret_suffix suffix = true.
Proof. destruct pair_type as [[]|]; cbn; [|intros ->..]; rewrite ?orb_true_r; [intros ->|..]; done. Qed.

Lemma known_suffix_chars suffix :
  bool_decide (suffix = PUBLIC_KEY_SUFFIX) || is_secret_suffix suffix = true -> suffix_chars (to_chars suffix).
Proof.
  intros [Hp|Hk]%orb_prop; [apply bool_decide_eq_true in Hp; subst; by left|].
  apply bool_decide_eq_true in Hk. right. destruct Hk as [->|[->| ->]];
    [exists (to_chars "sig")|exists (to_chars "box")|exists (to_chars "sym")]; by exists (to_chars "key").
Qed.

(** A file adds the revision in its name exactly when it is named after the key. *)
Lemma check_filename_spec keyname filename candidates pair_type x :
  x ∈ check_filename keyname filename candidates pair_type <->
  x ∈ candidates \/
  exists rev suffix, valid_key_name keyname /\ valid_rev rev /\ wanted_suffix pair_type suffix = true /\
    filename = keyname +:+ "-" +:+ rev +:+ "." +:+ suffix /\ x = keyname +:+ "-" +:+ rev.
Proof.
  unfold check_filename.
  set (named := exists rev suffix, _). split.
  - destruct (captures KEYFILE_RE filename) as [c|] eqn:E; [|tauto].
    apply keyfile_captures in E as (n & r & s & [Hn Hnl] & Hr & Hs & Hf & ->).
    cbn [Regex.name cap String.eqb Ascii.eqb Bool.eqb fmap option_fmap option_map].
    destruct (bool_decide _ || _) eqn:Ek; [|tauto].
    destruct (String.eqb_spec (of_chars n) keyname) as [<-|]; [|tauto].
    destruct (match pair_type with Some _ => _ | None => _ end) eqn:Ew; [|tauto].
    rewrite elem_of_union, elem_of_singleton. intros [->|?]; [right|tauto].
    exists (of_chars r), (of_chars s). unfold valid_key_name, valid_rev. rewrite !to_of_chars.
    split; [by split; [destruct n|]|]. split; [done|]. split; [by destruct pair_type as [[]|]|]. split; [|done].
    apply to_chars_inj. rewrite Hf, !to_chars_app, !to_of_chars. unfold keyfile_text, name_rev_text.
    by rewrite <- (assoc_L (++)).
  - intros [Hx|(r & s & [Hn Hnl] & Hr & Hw & -> & ->)].
    + destruct (captures KEYFILE_RE filename) as [c|]; [|done].
      destruct (Regex.name "name" c), (Regex.name "rev" c), (Regex.name "suffix" c); try done.
      repeat case_match; set_solver.
    + pose proof (wanted_suffix_known _ _ Hw) as Hk.
      assert (captures KEYFILE_RE (keyname +:+ "-" +:+ r +:+ "." +:+ s) =
        Some [("name", to_chars keyname); ("rev", to_chars r); ("suffix", to_chars s)]) as ->.
      { apply keyfile_captures. exists (to_chars keyname), (to_chars r), (to_chars s).
        split; [by split; [destruct keyname|]|]. split; [done|]. split; [by apply known_suffix_chars|].
        rewrite !to_chars_app. unfold keyfile_text, name_rev_text. by rewrite <- (assoc_L (++)). }
      cbn [Regex.name cap String.eqb Ascii.eqb Bool.eqb fmap option_fmap option_map].
      rewrite !of_to_chars, Hk, String.eqb_refl.
      assert (match pair_type with
              | Some PairType.Public => bool_decide (s = PUBLIC_KEY_SUFFIX)
              | Some PairType.Secret => is_secret_suffix s
              | None => true
              end = true) as -> by (destruct pair_type as [[]|]; done).
      set_solver.
Qed.

End with_engine.
