(* ===== verification/KeyProofs.v ===== *)
(** * Reading and writing keys

    Lemmas on the operations of the file KeyFiles: what they do on a machine where no file operation
    fails ([calm]), and what they leave alone whatever fails. *)

From Stdlib Require Import Ascii.
From S2P Require Import Prelude Regex ServiceGroup Text ByteText Host CryptoLib KeyFiles KeyNames Keys.
Local Open Scope string_scope.
Local Open Scope list_scope.

(** ** Steps of a computation *)
Lemma and_then_ok {A B} (c : io A) (k : A -> io B) h h' a :
  c h = (h', Return (Ok a)) -> and_then c k h = k a h'.
Proof. intros E. unfold and_then. by rewrite (bind_return _ _ _ _ _ E). Qed.

Lemma and_then_err {A B} (c : io A) (k : A -> io B) h h' e :
  c h = (h', Return (Err e)) -> and_then c k h = (h', Return (Err e)).
Proof. intros E. unfold and_then. by rewrite (bind_return _ _ _ _ _ E). Qed.

(** A step that succeeds, and the value it gives. *)
Lemma and_then_inv {A B} (c : io A) (k : A -> io B) h h' b :
  and_then c k h = (h', Return (Ok b)) ->
  exists h1 a, c h = (h1, Return (Ok a)) /\ k a h1 = (h', Return (Ok b)).
Proof.
  unfold and_then, mbind, M_bind. destruct (c h) as [h1 [[a|e]|m]] eqn:E; [|done..]. eauto.
Qed.

Lemma bind_inv {A B} (c : M A) (k : A -> M B) h h' b :
  (c ≫= k) h = (h', Return b) -> exists h1 a, c h = (h1, Return a) /\ k a h1 = (h', Return b).
Proof. unfold mbind, M_bind. destruct (c h) as [h1 [a|m]] eqn:E; [|done]. eauto. Qed.

Lemma bind_assoc {A B C} (c : M A) (k : A -> M B) (k' : B -> M C) h :
  ((c ≫= k) ≫= k') h = (c ≫= (fun a => k a ≫= k')) h.
Proof. unfold mbind, M_bind. by destruct (c h) as [h1 [a|m]]. Qed.

(** ** What is left alone *)

(** [keeps I c]: the machine before and after [c] are related by [I], and [c] does not panic. *)
Definition keeps {A} (I : host -> host -> Prop) (c : M A) : Prop :=
  forall h, I h (c h).1 /\ exists a, (c h).2 = Return a.

Section keeps.
  Context (I : host -> host -> Prop) `{!PreOrder I}.

Lemma keeps_mret {A} (a : A) : keeps I (mret a).
Proof. intros h. split; [done|by exists a]. Qed.

Lemma keeps_gets {A} (f : host -> A) : keeps I (gets f).
Proof. intros h. split; [done|by eexists]. Qed.

Lemma keeps_mbind {A B} (c : M A) (k : A -> M B) : keeps I c -> (forall a, keeps I (k a)) -> keeps I (c ≫= k).
Proof.
  intros Hc Hk h. destruct (Hc h) as [H1 [a E]]. unfold mbind, M_bind.
  destruct (c h) as [h1 r]. cbn in *. subst. destruct (Hk a h1) as [H2 H3]. split; [by etrans|done].
Qed.

Lemma keeps_and_then {A B} (c : io A) (k : A -> io B) :
  keeps I c -> (forall a, keeps I (k a)) -> keeps I (and_then c k).
Proof. intros Hc Hk. apply keeps_mbind; [done|]. intros [a|e]; [apply Hk|apply keeps_mret]. Qed.

(** The same with what is known of the value. *)
Lemma keeps_mbind_post {A B} (P : A -> Prop) (c : M A) (k : A -> M B) :
  keeps I c -> (forall h h' a, c h = (h', Return a) -> P a) -> (forall a, P a -> keeps I (k a)) -> keeps I (c ≫= k).
Proof.
  intros Hc HP Hk h. destruct (Hc h) as [H1 [a E]]. unfold mbind, M_bind.
  destruct (c h) as [h1 r] eqn:Eh. cbn in *. subst. destruct (Hk a (HP _ _ _ Eh) h1) as [H2 H3]. split; [by etrans|done].
Qed.

Lemma keeps_modifies f : (forall h, I h (f h)) -> keeps I (modifies f).
Proof. intros H h. split; [apply H|by eexists]. Qed.
End keeps.

(** Only the files of [ps] can differ. *)
Definition only (ps : list string) (h h' : host) : Prop :=
  forall p, p ∉ ps -> files h' !! p = files h !! p.

#[export] Instance only_preorder ps : PreOrder (only ps).
Proof. split; [by intros h p|]. intros h1 h2 h3 H1 H2 p Hp. by rewrite H2, H1. Qed.

Ltac keeps_tac :=
  repeat match goal with
  | |- keeps _ (mret _) => apply keeps_mret; exact _
  | |- keeps _ (ok _) => apply keeps_mret; exact _
  | |- keeps _ (throw _) => apply keeps_mret; exact _
  | |- keeps _ (pure _) => apply keeps_mret; exact _
  | |- keeps _ (gets _) => apply keeps_gets; exact _
  | |- keeps _ (is_file _) => apply keeps_gets; exact _
  | |- keeps _ (is_dir _) => apply keeps_gets; exact _
  | |- keeps _ (path_exists _) => apply keeps_gets; exact _
  | |- keeps _ (mbind _ (BufWriter.write_all _ _)) => fail 1
  | |- keeps _ (mbind _ _) => apply keeps_mbind; [exact _| |intros ?]
  | |- keeps _ (and_then _ _) => apply keeps_and_then; [exact _| |intros ?]
  | |- keeps _ (if ?b then _ else _) => destruct b
  | |- keeps _ (match ?x with _ => _ end) => destruct x
  end.

(** Operations that change no file. *)
Section no_file.
  Context (ps : list string).

Lemma keeps_next_fault : keeps (only ps) next_fault.
Proof. intros h. unfold next_fault. destruct (faults h); (split; [by intros p|by eexists]). Qed.

Lemma keeps_read_file p : keeps (only ps) (read_file p).
Proof. unfold read_file. keeps_tac. apply keeps_next_fault. Qed.

Lemma keeps_create_dir_all p : keeps (only ps) (create_dir_all p).
Proof.
  unfold create_dir_all. generalize (String.length p) as fuel. intros fuel. revert p.
  induction fuel as [|fuel IH]; intros p; cbn [create_dir_all_from]; unfold make_dir;
    keeps_tac; try apply IH; try apply keeps_next_fault; apply keeps_modifies; by intros h q.
Qed.

Lemma keeps_open p : keeps (only ps) (BufReader.open p).
Proof. unfold BufReader.open, or_io. keeps_tac. apply keeps_read_file. Qed.

Lemma keeps_read_line r : keeps (only ps) (BufReader.read_line r).
Proof. unfold BufReader.read_line. keeps_tac. apply keeps_next_fault. Qed.

Lemma keeps_read_to_string p : keeps (only ps) (read_to_string p).
Proof. unfold read_to_string, or_io. keeps_tac; [apply keeps_read_file|apply keeps_next_fault]. Qed.

Lemma keeps_set_permissions p : keeps (only ps) (set_permissions p).
Proof. unfold set_permissions, set_mode. keeps_tac. apply keeps_next_fault. Qed.

Context `{!RegexEngine, !CryptoLib}.

Lemma keeps_hash_reader r : keeps (only ps) (hash_reader r).
Proof.
  unfold hash_reader. keeps_tac. generalize (S (length (BufReader.rest r))) as fuel. intros fuel.
  generalize generichash_init as st. revert r. induction fuel as [|fuel IH]; intros r st; cbn; [by keeps_tac|].
  unfold BufReader.read. keeps_tac; [apply keeps_next_fault|]. apply IH.
Qed.

Lemma keeps_hash_file p : keeps (only ps) (hash_file p).
Proof. unfold hash_file. keeps_tac; [apply keeps_open|apply keeps_hash_reader]. Qed.

Lemma keeps_key_from_file {K} `{!Slices K} kind suffix n dir : keeps (only ps) (key_from_file (K := K) kind suffix n dir).
Proof. unfold key_from_file, read_key_bytes. keeps_tac. apply keeps_read_to_string. Qed.
End no_file.

(** Operations on one file. *)
Section one_file.
  Context (p : string).

Lemma only_insert c h : only [p] h (set_files (<[p := c]> (files h)) h).
Proof. intros q Hq. cbn. rewrite lookup_insert_ne; [done|]. intros ->. apply Hq. left. Qed.

Lemma only_delete h : only [p] h (set_files (delete p (files h)) h).
Proof. intros q Hq. cbn. rewrite lookup_delete_ne; [done|]. intros ->. apply Hq. left. Qed.

Lemma keeps_create_file : keeps (only [p]) (create_file p).
Proof.
  unfold create_file. keeps_tac; [apply keeps_next_fault|]. apply keeps_modifies. apply only_insert.
Qed.

Lemma keeps_append c : keeps (only [p]) (append p c).
Proof. unfold append. keeps_tac; [apply keeps_next_fault|]. apply keeps_modifies. intros h. apply only_insert. Qed.

Lemma keeps_delete_file : keeps (only [p]) (delete_file p).
Proof.
  unfold delete_file. keeps_tac; [apply keeps_next_fault|]. apply keeps_modifies. apply only_delete.
Qed.

Lemma keeps_flush_buf w : BufWriter.path w = p -> keeps (only [p]) (BufWriter.flush_buf w).
Proof. intros Hw. unfold BufWriter.flush_buf. rewrite Hw. keeps_tac. apply keeps_append. Qed.

Lemma keeps_drop w : BufWriter.path w = p -> keeps (only [p]) (BufWriter.drop w).
Proof. intros Hw. unfold BufWriter.drop. keeps_tac. by apply keeps_flush_buf. Qed.

Lemma keeps_write_all w d : BufWriter.path w = p -> keeps (only [p]) (BufWriter.write_all w d).
Proof.
  intros Hw. unfold BufWriter.write_all. keeps_tac; [by apply keeps_flush_buf|]. rewrite Hw. apply keeps_append.
Qed.
End one_file.

Lemma flush_buf_path w h h' r : BufWriter.flush_buf w h = (h', Return r) -> BufWriter.path r.1 = BufWriter.path w.
Proof.
  unfold BufWriter.flush_buf. case_bool_decide; [by intros [= _ <-]|].
  intros (h1 & [[]|] & _ & [= _ <-])%bind_inv; done.
Qed.

Lemma write_all_path w d h h' r : BufWriter.write_all w d h = (h', Return r) -> BufWriter.path r.1 = BufWriter.path w.
Proof.
  unfold BufWriter.write_all. intros (h1 & [w1 b1] & E & H)%bind_inv.
  assert (BufWriter.path w1 = BufWriter.path w) as Hw.
  { destruct (_ <? _)%Z; [by apply flush_buf_path in E|by injection E as _ <- _]. }
  cbn in H. destruct b1; [|by injection H as _ <-]. destruct (_ <=? _)%Z; [|by injection H as _ <-].
  apply bind_inv in H as (h2 & x & _ & [= _ <-]). exact Hw.
Qed.

Lemma keeps_write_keyfile kind p content : keeps (only [p]) (write_keyfile kind p content).
Proof.
  unfold write_keyfile, or_io. keeps_tac; try (apply keeps_create_dir_all || apply keeps_create_file).
  apply (keeps_mbind_post _ (fun wr => BufWriter.path wr.1 = p)).
  - by apply keeps_write_all.
  - intros h h' wr E. by apply write_all_path in E.
  - intros wr Hw. keeps_tac; [apply keeps_set_permissions|by apply keeps_drop].
Qed.

(** ** Installing a key *)

Lemma keeps_mono {A} (I J : host -> host -> Prop) (c : M A) :
  (forall h h', I h h' -> J h h') -> keeps I c -> keeps J c.
Proof. intros HIJ Hc h. destruct (Hc h) as [H ?]. auto. Qed.

(** Files are added at [key] and [tmp] only, and nothing but [tmp] is changed or removed. *)
Definition grows (tmp key : string) (h h' : host) : Prop :=
  only [tmp; key] h h' /\ forall p c, p <> tmp -> files h !! p = Some c -> files h' !! p = Some c.

#[export] Instance grows_preorder tmp key : PreOrder (grows tmp key).
Proof.
  split; [by intros h; split|]. intros h1 h2 h3 [H1 H1'] [H2 H2']. split; [by etrans|]. eauto.
Qed.

Lemma only_grows tmp key h h' : only [tmp] h h' -> grows tmp key h h'.
Proof.
  intros H. split.
  - intros p Hp. apply H. set_solver.
  - intros p c Hp Hc. rewrite H; [done|]. set_solver.
Qed.

Section install.
  Context `{!RegexEngine, !CryptoLib}.
  Context {P S : Type}.
  Context (get_public_key : string -> string -> io P) (get_secret_key : string -> string -> io S).
  Context (Hpublic : forall ps n dir, keeps (only ps) (get_public_key n dir)).
  Context (Hsecret : forall ps n dir, keeps (only ps) (get_secret_key n dir)).

Lemma keeps_pair_for ps n dir : keeps (only ps) (pair_for get_public_key get_secret_key n dir).
Proof. unfold pair_for. keeps_tac; [apply Hpublic|apply Hsecret]. Qed.

Lemma keeps_move_keyfile tmp key : keeps (grows tmp key) (move_keyfile key tmp).
Proof.
  unfold move_keyfile. intros h. rewrite (bind_return _ _ h h (bool_decide (is_Some (files h !! key)))) by done.
  case_bool_decide as Hkey.
  - revert h Hkey. enough (keeps (only [tmp]) (existing_hash <-? hash_file key;; new_hash <-? hash_file tmp;;
      if String.eqb existing_hash new_hash then or_io (delete_file tmp)
      else throw (CryptoError ("Existing key file " +:+ key +:+
        " found but new version hash is different, failing to write new file over existing. (" +:+ key +:+ " = " +:+
        existing_hash +:+ ", " +:+ tmp +:+ " = " +:+ new_hash +:+ ")")))) as Hold.
    { intros h _. destruct (Hold h) as [H1 H2]. split; [by apply only_grows|exact H2]. }
    unfold or_io. keeps_tac; first [apply keeps_hash_file|apply keeps_delete_file].
  - unfold or_io, rename_file, rename. unfold mbind, M_bind, mret, M_ret, is_dir, gets, next_fault. cbn.
    destruct (bool_decide (key ∈ dirs h)); [by split; [|eexists]|].
    destruct (faults h) as [|f l]; cbn; [|destruct f; cbn]; [..|by split; [|eexists]|].
    all: destruct (files h !! tmp) as [c|] eqn:Et; cbn; (split; [|by eexists]); [|done].
    all: split; [intros p Hp; cbn; rewrite lookup_insert_ne, lookup_delete_ne; set_solver|].
    all: intros p c' Hp Hc; cbn; rewrite lookup_insert_ne, lookup_delete_ne; [done|congruence|].
    all: intros ->; apply Hkey; by eexists.
Qed.

Lemma keeps_install_key random content n dir suffix pair_type :
  keeps (grows (tmp_path (mk_key_filename dir n suffix) random) (mk_key_filename dir n suffix))
    (install_key get_public_key get_secret_key random content n dir suffix pair_type).
Proof.
  unfold install_key. set (key := mk_key_filename dir n suffix). set (tmp := tmp_path key random).
  assert (forall A (c : M A), keeps (only [tmp]) c -> keeps (grows tmp key) c) as Htmp.
  { intros A c. apply keeps_mono. intros h h'. apply only_grows. }
  apply keeps_mbind; [exact _| |intros r].
  - assert (forall kind c, keeps (only [tmp]) (write_keyfile kind tmp c)) as Hw
      by (intros; apply keeps_write_keyfile).
    keeps_tac; first [apply keeps_move_keyfile|apply Htmp, keeps_pair_for|apply Htmp];
      unfold write_keypair_files; keeps_tac; first [apply Hw|by intros h; split; [|eexists]].
  - keeps_tac. unfold TmpKeyfile.drop. cbn. keeps_tac. apply Htmp, keeps_delete_file.
Qed.

(** The name of the temporary file ends in what was drawn at random. *)
Lemma tmp_path_ends key random : exists q, tmp_path key random = q +:+ "." +:+ to_hex random.
Proof.
  unfold tmp_path, set_file_name. set (f := file_name key +:+ "." +:+ to_hex random).
  assert (forall dir, exists q, join dir f = q +:+ f) as Hjoin.
  { intros dir. unfold join. destruct (String.prefix _ _); [by exists ""|].
    destruct (last (to_chars dir)) as [c|]; [|by exists ""].
    destruct (is_slash c); [by exists dir|]. exists (dir +:+ "/"). by rewrite append_assoc. }
  destruct (parent key) as [dir|]; [destruct (Hjoin dir) as [q ->]|destruct (Hjoin key) as [q ->]];
    exists (q +:+ file_name key); by rewrite append_assoc.
Qed.
End install.

(** No file has a name that ends in what is drawn at random. *)
Definition unused (random : string) `{!CryptoLib} (h : host) : Prop :=
  forall q, files h !! (q +:+ "." +:+ to_hex random) = None.

Section import.
  Context `{!RegexEngine, !CryptoLib}.

Lemma install_key_grows {P S} (gp : string -> string -> io P) (gs : string -> string -> io S) random content n dir suffix ty h :
  (forall ps n dir, keeps (only ps) (gp n dir)) -> (forall ps n dir, keeps (only ps) (gs n dir)) ->
  unused random h ->
  forall p c, files h !! p = Some c -> files (install_key gp gs random content n dir suffix ty h).1 !! p = Some c.
Proof.
  intros Hp Hs Hu p c Hc.
  destruct (keeps_install_key gp gs Hp Hs random content n dir suffix ty h) as [[_ Hold] _].
  apply Hold; [|done]. intros ->. destruct (tmp_path_ends (mk_key_filename dir n suffix) random) as [q Hq].
  rewrite Hq in Hc. rewrite Hu in Hc. done.
Qed.

(** C14: Importing a key never changes or removes a file that is there, whatever the text says and
    whatever file operation fails, and it never panics: a key that is installed stays as it is. *)
Theorem import_keeps_files random content dir h :
  unused random h ->
  (forall p c, files h !! p = Some c ->
     files (SigKeyPair.write_file_from_str random content dir h).1 !! p = Some c /\
     files (SymKey.write_file_from_str random content dir h).1 !! p = Some c) /\
  (exists r, (SigKeyPair.write_file_from_str random content dir h).2 = Return r) /\
  (exists r, (SymKey.write_file_from_str random content dir h).2 = Return r).
Proof.
  intros Hu.
  assert (forall ps n dir, keeps (only ps) (SymKey.get_public_key n dir)) as Hsym.
  { intros ps n d. apply keeps_mret. exact _. }
  assert (forall K `{!Slices K} kind suffix ps n dir, keeps (only ps) (key_from_file (K := K) kind suffix n dir)) as Hfile.
  { intros. apply keeps_key_from_file. }
  split_and!.
  - intros p c Hc. unfold SigKeyPair.write_file_from_str, SymKey.write_file_from_str, and_then, pure, mbind, M_bind, mret, M_ret.
    split.
    + destruct (SigKeyPair.parse_key_str content) as [[[ty n] b]|e]; [|done].
      apply install_key_grows; [intros; apply Hfile..|done|done].
    + destruct (SymKey.parse_key_str content) as [n|e]; [|done].
      apply install_key_grows; [apply Hsym|intros; apply Hfile|done|done].
  - unfold SigKeyPair.write_file_from_str, and_then, pure, mbind, M_bind, mret, M_ret.
    destruct (SigKeyPair.parse_key_str content) as [[[ty n] b]|e]; [|by eexists].
    eapply keeps_install_key; intros; apply Hfile.
  - unfold SymKey.write_file_from_str, and_then, pure, mbind, M_bind, mret, M_ret.
    destruct (SymKey.parse_key_str content) as [n|e]; [|by eexists].
    eapply keeps_install_key; [apply Hsym|intros; apply Hfile].
Qed.
End import.
