(* ===== verification/KeyRoundTrips.v ===== *)
(** * Keys come back

    A key that was saved is found again, a key that is sent as text arrives, and what is encrypted
    for somebody can be decrypted with the keys in the cache. *)

From Stdlib Require Import Ascii.
From S2P Require Import Prelude Regex ServiceGroup Text ByteText Host CryptoLib KeyFiles KeyNames Keys KeyProofs CryptoExample.
Local Open Scope string_scope.
Local Open Scope list_scope.

(** ** Names and paths *)

(** The name of a key that is the name of a file. *)
Definition file_key_name (n : string) : Prop :=
  valid_key_name n /\ ("/"%char ∉ to_chars n) /\ is_utf8 n = true.

(** A directory as [Path::parent] gives it. *)
Definition tidy (dir : string) : Prop :=
  dir <> "" /\ last (to_chars dir) <> Some "/"%char /\ trim_right (rev (to_chars dir)) = rev (to_chars dir).

#[export] Instance file_key_name_dec n : Decision (file_key_name n).
Proof. unfold file_key_name. apply _. Defined.
#[export] Instance tidy_dec dir : Decision (tidy dir).
Proof. unfold tidy. apply _. Defined.

Lemma digit_plain c : is_digit c = true ->
  c <> newline /\ c <> carriage_return /\ c <> "/"%char /\ is_whitespace c = false /\ is_ascii c = true.
Proof. destruct c as [[] [] [] [] [] [] [] []]; vm_compute; intros [=]; by split_and!. Qed.

Lemma rev_excludes r c : valid_rev r -> is_digit c = false -> c ∉ to_chars r.
Proof. intros [_ Hd] Hc. by apply (alphabet_excludes _ _ _ Hd). Qed.

Lemma rev_utf8 r : valid_rev r -> is_utf8 r = true.
Proof. intros [_ Hd]. eapply alphabet_utf8; [exact Hd|]. intros c Hc. by apply digit_plain. Qed.

Lemma rev_last r : valid_rev r -> exists d, last (to_chars r) = Some d /\ is_digit d = true.
Proof.
  intros [Hl Hd]. destruct (last (to_chars r)) as [d|] eqn:E; [|by apply last_None in E; rewrite E in Hl].
  exists d. split; [done|]. rewrite forallb_forall in Hd. apply Hd, list_elem_of_In. by apply last_Some_elem_of.
Qed.

Section name_with_rev.
  Context (n r : string) (Hn : file_key_name n) (Hr : valid_rev r).

Lemma name_rev_one_line : one_line (n +:+ "-" +:+ r).
Proof.
  destruct Hn as [[Hne Hnl] _]. split.
  - rewrite !to_chars_app. rewrite !elem_of_app. intros [?|[?|?]]; [done|set_solver|].
    by eapply (rev_excludes r newline).
  - rewrite !to_chars_app. change (to_chars "-") with ["-"%char]. cbn [app].
    rewrite last_app_cons, last_cons. destruct (rev_last r Hr) as (d & -> & Hd).
    intros [= ->]. done.
Qed.

Lemma name_rev_utf8 : is_utf8 (n +:+ "-" +:+ r) = true.
Proof. apply is_utf8_app; [apply Hn|]. apply is_utf8_app; [done|]. by apply rev_utf8. Qed.

Lemma name_rev_no_slash : "/"%char ∉ to_chars (n +:+ "-" +:+ r).
Proof.
  rewrite !to_chars_app, !elem_of_app. intros [?|[?|?]]; [by destruct Hn as (_ & ? & _)|set_solver|].
  by eapply (rev_excludes r "/"%char).
Qed.
End name_with_rev.

Lemma join_file dir f : tidy dir -> "/"%char ∉ to_chars f -> join dir f = dir +:+ "/" +:+ f.
Proof.
  intros (Hne & Hl & _) Hf. unfold join.
  assert (String.prefix "/" f = false) as ->.
  { destruct f as [|c f]; [done|]. cbn [String.prefix]. destruct (ascii_dec "/" c) as [<-|]; [|done].
    exfalso. apply Hf. left. }
  destruct (last (to_chars dir)) as [c|] eqn:E; [|by apply last_None in E; destruct dir].
  unfold is_slash. destruct (Ascii.eqb_spec c "/") as [->|]; done.
Qed.

Lemma cut_component_app w rest :
  "/"%char ∉ w -> cut_component (w ++ "/"%char :: rest) = (w, Some ("/"%char :: rest)).
Proof.
  induction w as [|c w IH]; cbn; [done|]. intros [Hc Hw]%not_elem_of_cons. unfold is_slash.
  destruct (Ascii.eqb_spec c "/") as [->|]; [done|]. by rewrite IH.
Qed.

Lemma parent_join dir f : tidy dir -> "/"%char ∉ to_chars f -> parent (join dir f) = Some dir.
Proof.
  intros Ht Hf. rewrite join_file by done. destruct Ht as (Hne & Hl & Ht). unfold parent.
  rewrite bool_decide_eq_false_2.
  - rewrite !to_chars_app, !rev_app_distr. change (rev (to_chars "/")) with ["/"%char].
    rewrite <- (assoc_L (++)). cbn [app]. rewrite cut_component_app.
    + cbn [snd trim_right]. change (is_slash "/") with true. cbn iota. rewrite Ht.
      destruct (rev (to_chars dir)) as [|c l] eqn:E.
      * apply (f_equal (@rev ascii)) in E. rewrite rev_involutive in E. by destruct dir.
      * by rewrite <- E, rev_involutive, of_to_chars.
    + rewrite list_elem_of_In, <- in_rev, <- list_elem_of_In. exact Hf.
  - destruct dir as [|c dir]; [done|]. intros [E|E]; [done|]. injection E as -> E.
    destruct dir; [done|discriminate].
Qed.

(** ** Reading and writing without faults *)
Lemma or_io_some {A} (c : M (option A)) h h' a : c h = (h', Return (Some a)) -> or_io c h = (h', Return (Ok a)).
Proof. intros E. unfold or_io. by rewrite (bind_return _ _ _ _ _ E). Qed.

Lemma or_io_none {A} (c : M (option A)) h h' : c h = (h', Return None) -> or_io c h = (h', Return (Err IO)).
Proof. intros E. unfold or_io. by rewrite (bind_return _ _ _ _ _ E). Qed.

Lemma read_to_string_calm h p c :
  calm h -> files h !! p = Some c -> is_utf8 c = true -> read_to_string p h = (h, Return (Ok c)).
Proof.
  intros Hc Hp Hu. unfold read_to_string. rewrite (and_then_ok _ _ h h c).
  - rewrite (bind_return _ _ _ _ _ (next_fault_calm h Hc)). by rewrite Hu.
  - apply or_io_some. by rewrite read_file_calm, Hp.
Qed.

Lemma read_missing_calm h p : calm h -> files h !! p = None -> read_to_string p h = (h, Return (Err IO)).
Proof.
  intros Hc Hp. unfold read_to_string. apply and_then_err, or_io_none. by rewrite read_file_calm, Hp.
Qed.

Lemma create_dir_all_there h dir : dir ∈ dirs h -> create_dir_all dir h = (h, Return (Some tt)).
Proof.
  intros Hd. unfold create_dir_all. destruct (String.length dir); cbn [create_dir_all_from];
    rewrite (bind_return _ _ h h true) by (unfold is_dir, gets; by rewrite bool_decide_eq_true_2);
    by rewrite orb_true_r.
Qed.

(** Nothing is at a path. *)
Definition free (h : host) (p : string) : Prop := files h !! p = None /\ p ∉ dirs h.

Lemma append_to h p c d :
  calm h -> files h !! p = Some d -> append p c h = (set_files (<[p := d +:+ c]> (files h)) h, Return (Some tt)).
Proof. intros Hc Hp. by rewrite append_calm, Hp. Qed.

Lemma set_files_id h : set_files (files h) h = h.
Proof. by destruct h. Qed.

Lemma set_files_same h p d : files h !! p = Some d -> set_files (<[p := d]> (files h)) h = h.
Proof. intros Hp. rewrite insert_id by done. apply set_files_id. Qed.

Section writer.
  Context (h : host) (Hc : calm h) (p d : string) (Hp : files h !! p = Some d).

Lemma flush_buf_calm b :
  BufWriter.flush_buf (BufWriter.mk p b) h =
  (set_files (<[p := d +:+ b]> (files h)) h, Return (BufWriter.mk p "", true)).
Proof.
  unfold BufWriter.flush_buf. cbn [BufWriter.buf BufWriter.path]. case_bool_decide as Hb.
  - subst b. rewrite append_nil_r, set_files_same by done. done.
  - by rewrite (bind_return _ _ _ _ _ (append_to h p b d Hc Hp)).
Qed.

Lemma drop_calm b : BufWriter.drop (BufWriter.mk p b) h = (set_files (<[p := d +:+ b]> (files h)) h, Return tt).
Proof. unfold BufWriter.drop. by rewrite (bind_return _ _ _ _ _ (flush_buf_calm b)). Qed.
End writer.

(** Nothing of what is written is lost: it is in the file or in the buffer. *)
Lemma write_all_calm h p d b data : calm h -> files h !! p = Some d ->
  exists d' b', BufWriter.write_all (BufWriter.mk p b) data h =
    (set_files (<[p := d']> (files h)) h, Return (BufWriter.mk p b', true)) /\ d' +:+ b' = d +:+ b +:+ data.
Proof.
  intros Hc Hp. unfold BufWriter.write_all. cbn [BufWriter.buf BufWriter.path].
  assert (exists d1 b1, (if (BufWriter.capacity <? BufWriter.size b + BufWriter.size data)%Z
      then BufWriter.flush_buf (BufWriter.mk p b) else mret (BufWriter.mk p b, true)) h =
      (set_files (<[p := d1]> (files h)) h, Return (BufWriter.mk p b1, true)) /\ d1 +:+ b1 = d +:+ b /\
      (b1 = "" \/ (BufWriter.size b1 + BufWriter.size data <= BufWriter.capacity)%Z)) as (d1 & b1 & E1 & E & Hb).
  { destruct (Z.ltb_spec BufWriter.capacity (BufWriter.size b + BufWriter.size data)) as [?|Hle].
    - exists (d +:+ b), "". rewrite (flush_buf_calm h Hc p d Hp), append_nil_r. auto.
    - exists d, b. rewrite set_files_same by done. auto. }
  rewrite (bind_return _ _ _ _ _ E1). cbn [fst snd BufWriter.buf].
  destruct (Z.leb_spec BufWriter.capacity (BufWriter.size data)) as [Hle|_].
  - assert (b1 = "") as ->.
    { destruct Hb as [?|Hb]; [done|]. unfold BufWriter.size in *. destruct b1; [done|]. cbn in Hb. lia. }
    rewrite append_nil_r in E. subst d1.
    erewrite bind_return; [|apply append_to; [exact Hc|apply lookup_insert_eq]].
    exists ((d +:+ b) +:+ data), "". cbn. rewrite insert_insert_eq, append_nil_r, append_assoc. done.
  - exists d1, (b1 +:+ data). by rewrite <- (append_assoc d1), E, append_assoc.
Qed.

Lemma write_keyfile_calm h kind p dir c :
  calm h -> parent p = Some dir -> dir ∈ dirs h -> free h p ->
  write_keyfile kind p c h = (set_files (<[p := c]> (files h)) h, Return (Ok tt)).
Proof.
  intros Hc Hdir Hin [Hf Hd]. unfold write_keyfile. rewrite Hdir.
  rewrite (and_then_ok _ _ h h tt) by (apply or_io_some; by apply create_dir_all_there).
  rewrite (bind_return _ _ h h false)
    by (unfold path_exists, gets; rewrite Hf, (bool_decide_eq_false_2 (p ∈ dirs h)) by done; done).
  erewrite and_then_ok; [|apply or_io_some; by apply create_file_calm].
  set (h1 := set_files _ h).
  destruct (write_all_calm h1 p "" "" c) as (d & b & E & Hdb); [exact Hc|apply lookup_insert_eq|].
  unfold BufWriter.new. rewrite (bind_return _ _ _ _ _ E). cbn [fst snd].
  set (h2 := set_files _ h1).
  assert (set_permissions p h2 = (h2, Return (Ok tt))) as Es.
  { unfold set_permissions, set_mode. rewrite bind_assoc.
    by rewrite (bind_return _ _ _ _ _ (next_fault_calm h2 Hc)). }
  rewrite (bind_return _ _ _ _ _ Es).
  rewrite (bind_return _ _ _ _ _ (drop_calm h2 Hc p d (lookup_insert_eq _ _ _) b)).
  change ("" +:+ "" +:+ c) with c in Hdb. rewrite Hdb. unfold h2, h1, set_files. cbn.
  by rewrite !insert_insert_eq.
Qed.

(** ** Key files *)
Lemma key_text_lines v n e : one_line v -> one_line n -> one_line e -> e <> "" ->
  lines (key_text v n e) = [v; n; ""; e].
Proof.
  intros Hv Hn He Hne. unfold key_text. rewrite lines_cut, lines_cut by done.
  change (nl +:+ e) with ("" +:+ nl +:+ e).
  assert (one_line "") as H0 by (split; [apply not_elem_of_nil|done]).
  by rewrite lines_cut, lines_one.
Qed.

Lemma key_text_utf8 v n e :
  is_utf8 v = true -> is_utf8 n = true -> is_utf8 e = true -> is_utf8 (key_text v n e) = true.
Proof. intros. unfold key_text. by repeat (apply is_utf8_app; [done|]). Qed.

Definition format_version (v : string) : Prop := one_line v /\ is_utf8 v = true /\ v <> "".

Lemma format_versions :
  format_version PUBLIC_SIG_KEY_VERSION /\ format_version SECRET_SIG_KEY_VERSION /\
  format_version PUBLIC_BOX_KEY_VERSION /\ format_version SECRET_BOX_KEY_VERSION /\
  format_version SECRET_SYM_KEY_VERSION.
Proof.
  unfold format_version, one_line.
  split_and!; try done; refine (bool_decide_eq_true_1 _ _); vm_compute; reflexivity.
Qed.

(** The name of a key and its revision, as one. *)
Definition key_id (nr : string) : Prop := exists n r, file_key_name n /\ valid_rev r /\ nr = n +:+ "-" +:+ r.

Lemma key_id_facts nr : key_id nr -> one_line nr /\ is_utf8 nr = true /\ ("/"%char ∉ to_chars nr).
Proof.
  intros (n & r & Hn & Hr & ->).
  split_and!; [by apply name_rev_one_line|by apply name_rev_utf8|by apply name_rev_no_slash].
Qed.

Lemma suffix_no_slash nr suffix : key_id nr -> ("/"%char ∉ to_chars suffix) -> "/"%char ∉ to_chars (nr +:+ "." +:+ suffix).
Proof.
  intros (_ & _ & Hn)%key_id_facts Hs. rewrite !to_chars_app, !elem_of_app. intros [?|[?|?]]; [done|set_solver|done].
Qed.

Lemma suffixes_no_slash :
  ("/"%char ∉ to_chars PUBLIC_KEY_SUFFIX) /\ ("/"%char ∉ to_chars SECRET_SIG_KEY_SUFFIX) /\
  ("/"%char ∉ to_chars SECRET_BOX_KEY_SUFFIX) /\ ("/"%char ∉ to_chars SECRET_SYM_KEY_SUFFIX).
Proof. split_and!; refine (bool_decide_eq_true_1 _ _); vm_compute; reflexivity. Qed.

Lemma mk_key_filename_inj dir nr s nr' s' :
  tidy dir -> key_id nr -> key_id nr' -> ("/"%char ∉ to_chars s) -> ("/"%char ∉ to_chars s') ->
  mk_key_filename dir nr s = mk_key_filename dir nr' s' -> nr +:+ "." +:+ s = nr' +:+ "." +:+ s'.
Proof.
  intros Ht Hn Hn' Hs Hs'. unfold mk_key_filename. rewrite !join_file by (done || by apply suffix_no_slash).
  intros E. apply (f_equal to_chars) in E. rewrite !(to_chars_app dir), !(to_chars_app "/") in E.
  apply (inj _) in E. apply (inj _) in E. by apply to_chars_inj in E.
Qed.

Lemma mk_key_filename_suffix dir nr s s' :
  tidy dir -> key_id nr -> ("/"%char ∉ to_chars s) -> ("/"%char ∉ to_chars s') -> s <> s' ->
  mk_key_filename dir nr s <> mk_key_filename dir nr s'.
Proof.
  intros Ht Hn Hs Hs' Hne E. apply mk_key_filename_inj in E; [|done..]. apply Hne.
  apply (f_equal to_chars) in E. rewrite !(to_chars_app nr), !(to_chars_app ".") in E.
  apply (inj _) in E. apply (inj _) in E. by apply to_chars_inj.
Qed.

Lemma mk_key_filename_parent dir nr s :
  tidy dir -> key_id nr -> ("/"%char ∉ to_chars s) -> parent (mk_key_filename dir nr s) = Some dir.
Proof. intros Ht Hn Hs. unfold mk_key_filename. apply parent_join; [done|]. by apply suffix_no_slash. Qed.

Section stored.
  Context `{!RegexEngine} `{L : CryptoLib, !CryptoLaws L}.

Lemma key_from_file_calm {K} `{!Slices K, !SlicesLaws K} h kind v suffix nr dir (k : K) :
  calm h -> format_version v -> key_id nr ->
  files h !! mk_key_filename dir nr suffix = Some (key_text v nr (base64_encode (to_bytes k))) ->
  key_from_file kind suffix nr dir h = (h, Return (Ok k)).
Proof.
  intros Hc (Hv & Hu & Hne) (Hl & Hnu & _)%key_id_facts Hf.
  pose proof (base64_encode_not_empty (to_bytes k) (to_bytes_not_empty k)) as Hk.
  unfold key_from_file. rewrite (and_then_ok _ _ h h (to_bytes k)); [by rewrite from_slice_to_bytes|].
  unfold read_key_bytes. erewrite and_then_ok; [|apply (read_to_string_calm _ _ _ Hc Hf)].
  - rewrite (key_text_lines v nr) by first [done|apply base64_one_line]. cbn [lookup list_lookup].
    rewrite base64_round_trip. destruct (String.eqb_spec (key_text v nr (base64_encode (to_bytes k))) "") as [E|_]; [|done].
    unfold key_text in E. by destruct v.
  - apply key_text_utf8; [done..|apply base64_utf8].
Qed.

Lemma key_from_file_missing {K} `{!Slices K} h kind suffix nr dir :
  calm h -> files h !! mk_key_filename dir nr suffix = None ->
  key_from_file (K := K) kind suffix nr dir h = (h, Return (Err IO)).
Proof.
  intros Hc Hf. unfold key_from_file. apply and_then_err. unfold read_key_bytes. apply and_then_err.
  by apply read_missing_calm.
Qed.

Lemma key_id_parses n r : file_key_name n -> valid_rev r -> parse_name_with_rev (n +:+ "-" +:+ r) = Ok (n, r).
Proof. intros Hn Hr. apply parse_name_with_rev_ok. split; [apply Hn|done]. Qed.

Lemma pair_for_calm {P S} (gp : string -> string -> io P) (gs : string -> string -> io S) h n r dir rp rs :
  file_key_name n -> valid_rev r ->
  gp (n +:+ "-" +:+ r) dir h = (h, Return rp) -> gs (n +:+ "-" +:+ r) dir h = (h, Return rs) ->
  get_ok rp <> None \/ get_ok rs <> None ->
  pair_for gp gs (n +:+ "-" +:+ r) dir h = (h, Return (Ok (KeyPair.new n r (get_ok rp) (get_ok rs)))).
Proof.
  intros Hn Hr Hp Hs Hne. unfold pair_for.
  rewrite (and_then_ok _ _ h h (n, r)) by (unfold pure; by rewrite key_id_parses).
  rewrite (bind_return _ _ _ _ _ Hp), (bind_return _ _ _ _ _ Hs). destruct (get_ok rp), (get_ok rs); naive_solver.
Qed.

(** Both files of a pair are written. *)
Lemma write_keypair_files_calm h dir nr s1 s2 c1 c2 :
  calm h -> tidy dir -> dir ∈ dirs h -> key_id nr -> ("/"%char ∉ to_chars s1) -> ("/"%char ∉ to_chars s2) -> s1 <> s2 ->
  free h (mk_key_filename dir nr s1) -> free h (mk_key_filename dir nr s2) ->
  write_keypair_files (Some (mk_key_filename dir nr s1)) (Some c1) (Some (mk_key_filename dir nr s2)) (Some c2) h =
  (set_files (<[mk_key_filename dir nr s2 := c2]> (<[mk_key_filename dir nr s1 := c1]> (files h))) h, Return (Ok tt)).
Proof.
  intros Hc Ht Hin Hk Hs1 Hs2 Hne Hf1 [Hf2 Hd2]. unfold write_keypair_files.
  pose proof (mk_key_filename_suffix dir nr s1 s2 Ht Hk Hs1 Hs2 Hne) as Hp.
  erewrite and_then_ok; [|eapply write_keyfile_calm; [done|by apply mk_key_filename_parent|done|done]].
  set (h1 := set_files _ h). erewrite (bind_return _ _ h1 h1 c2) by done.
  erewrite write_keyfile_calm; [reflexivity|done|by apply mk_key_filename_parent|done|].
  split; [|done]. cbn. by rewrite lookup_insert_ne.
Qed.

(** A key pair that is saved in a directory without errors is found again there under its name
    and revision: signature and box keys as they were, a symmetric key with its secret. *)
Theorem saved_keys_found h dir n r :
  calm h -> tidy dir -> dir ∈ dirs h -> file_key_name n -> valid_rev r ->
  (forall pk sk,
     let pair := KeyPair.new n r (Some pk) (Some sk) : SigKeyPair.t in
     let nr := KeyPair.name_with_rev pair in
     free h (mk_key_filename dir nr PUBLIC_KEY_SUFFIX) -> free h (mk_key_filename dir nr SECRET_SIG_KEY_SUFFIX) ->
     exists h', SigKeyPair.to_pair_files pair dir h = (h', Return (Ok tt)) /\
       SigKeyPair.get_pair_for nr dir h' = (h', Return (Ok pair))) /\
  (forall pk sk,
     let pair := KeyPair.new n r (Some pk) (Some sk) : BoxKeyPair.t in
     let nr := KeyPair.name_with_rev pair in
     free h (mk_key_filename dir nr PUBLIC_KEY_SUFFIX) -> free h (mk_key_filename dir nr SECRET_BOX_KEY_SUFFIX) ->
     exists h', BoxKeyPair.to_pair_files pair dir h = (h', Return (Ok tt)) /\
       BoxKeyPair.get_pair_for nr dir h' = (h', Return (Ok pair))) /\
  (forall sk,
     let pair := KeyPair.new n r (Some tt) (Some sk) : SymKey.t in
     let nr := KeyPair.name_with_rev pair in
     free h (mk_key_filename dir nr SECRET_SYM_KEY_SUFFIX) ->
     exists h', SymKey.to_pair_files pair dir h = (h', Return (Ok tt)) /\
       SymKey.get_pair_for nr dir h' = (h', Return (Ok (KeyPair.new n r None (Some sk))))).
Proof.
  intros Hc Ht Hin Hn Hr. destruct suffixes_no_slash as (S1 & S2 & S3 & S4), format_versions as (V1 & V2 & V3 & V4 & V5).
  assert (key_id (n +:+ "-" +:+ r)) as Hk by (exists n, r; done).
  split_and!.
  - intros pk sk pair nr F1 F2. eexists. split.
    + exact (write_keypair_files_calm h dir nr _ _ _ _ Hc Ht Hin Hk S1 S2 ltac:(done) F1 F2).
    + apply (pair_for_calm _ _ _ n r dir (Ok pk) (Ok sk)); [done..| | |by left].
      * eapply key_from_file_calm; [done|exact V1|done|]. cbn. rewrite lookup_insert_ne by (by apply mk_key_filename_suffix).
        apply lookup_insert_eq.
      * eapply key_from_file_calm; [done|exact V2|done|]. cbn. apply lookup_insert_eq.
  - intros pk sk pair nr F1 F2. eexists. split.
    + exact (write_keypair_files_calm h dir nr _ _ _ _ Hc Ht Hin Hk S1 S3 ltac:(done) F1 F2).
    + apply (pair_for_calm _ _ _ n r dir (Ok pk) (Ok sk)); [done..| | |by left].
      * eapply key_from_file_calm; [done|exact V3|done|]. cbn. rewrite lookup_insert_ne by (by apply mk_key_filename_suffix).
        apply lookup_insert_eq.
      * eapply key_from_file_calm; [done|exact V4|done|]. cbn. apply lookup_insert_eq.
  - intros sk pair nr F. eexists. split.
    + unfold SymKey.to_pair_files. rewrite (and_then_ok _ _ h h (key_text SECRET_SYM_KEY_VERSION nr (base64_encode (to_bytes sk)))) by done.
      unfold write_keypair_files. rewrite (and_then_ok _ _ h h tt) by done.
      rewrite (bind_return _ _ h h (key_text SECRET_SYM_KEY_VERSION nr (base64_encode (to_bytes sk)))) by done.
      apply (write_keyfile_calm h "Secret" _ dir); [done|by apply mk_key_filename_parent|done|done].
    + apply (pair_for_calm _ _ _ n r dir (Err (CryptoError "SymKey never contains a public key")) (Ok sk)); [done..| |by right].
      eapply key_from_file_calm; [done|exact V5|done|]. cbn. apply lookup_insert_eq.
Qed.

(** ** Importing a key *)
Lemma hex_no_slash random : "/"%char ∉ to_chars (to_hex random).
Proof. eapply alphabet_excludes; [apply to_hex_alphabet|done]. Qed.

Lemma file_name_join dir f : tidy dir -> "/"%char ∉ to_chars f -> file_name (join dir f) = f.
Proof.
  intros Ht Hf. rewrite join_file by done. unfold file_name.
  rewrite !to_chars_app, !rev_app_distr. change (rev (to_chars "/")) with ["/"%char].
  rewrite <- (assoc_L (++)). cbn [app]. rewrite cut_component_app.
  - cbn. by rewrite rev_involutive, of_to_chars.
  - by rewrite list_elem_of_In, <- in_rev, <- list_elem_of_In.
Qed.

(** The temporary file is next to the key file. *)
Lemma tmp_path_join dir nr s random : tidy dir -> key_id nr -> ("/"%char ∉ to_chars s) ->
  tmp_path (mk_key_filename dir nr s) random = mk_key_filename dir nr (s +:+ "." +:+ to_hex random).
Proof.
  intros Ht Hk Hs. pose proof (suffix_no_slash nr s Hk Hs) as Hf. unfold tmp_path, set_file_name, mk_key_filename.
  rewrite parent_join, file_name_join by done. by rewrite !append_assoc.
Qed.

Lemma tmp_suffix s random : ("/"%char ∉ to_chars s) ->
  ("/"%char ∉ to_chars (s +:+ "." +:+ to_hex random)) /\ s +:+ "." +:+ to_hex random <> s.
Proof.
  intros Hs. split.
  - rewrite !to_chars_app, !elem_of_app. intros [?|[?|?]]; [done|set_solver|by eapply hex_no_slash].
  - intros E. apply (f_equal (fun x => length (to_chars x))) in E. rewrite !to_chars_app, !length_app in E. cbn in E. lia.
Qed.

Lemma rename_file_calm h from to c : calm h -> to ∉ dirs h -> files h !! from = Some c ->
  rename_file from to h = (set_files (<[to := c]> (delete from (files h))) h, Return (Some tt)).
Proof.
  intros Hc Hd Hf. unfold rename_file.
  rewrite (bind_return _ _ h h false) by (unfold is_dir, gets; by rewrite bool_decide_eq_false_2).
  unfold rename. rewrite (bind_return _ _ _ _ _ (next_fault_calm h Hc)).
  rewrite (bind_return _ _ h h (Some c)) by (unfold gets; by rewrite Hf). done.
Qed.

Lemma install_key_calm {P S} (gp : string -> string -> io P) (gs : string -> string -> io S) h random content nr dir s ty kp :
  calm h -> tidy dir -> dir ∈ dirs h -> key_id nr -> ("/"%char ∉ to_chars s) ->
  free h (mk_key_filename dir nr s) -> free h (mk_key_filename dir nr (s +:+ "." +:+ to_hex random)) ->
  let h' := set_files (<[mk_key_filename dir nr s := content]> (files h)) h in
  pair_for gp gs nr dir h' = (h', Return (Ok kp)) ->
  install_key gp gs random content nr dir s ty h = (h', Return (Ok (kp, ty))).
Proof.
  intros Hc Ht Hin Hk Hs [Hf Hd] Htmp h' Hpair. destruct (tmp_suffix s random Hs) as [Hs' Hne].
  unfold install_key. rewrite tmp_path_join by done.
  set (key := mk_key_filename dir nr s) in *. set (tmp := mk_key_filename dir nr (s +:+ "." +:+ to_hex random)) in *.
  assert (key <> tmp) as Hkt by (by apply mk_key_filename_suffix).
  set (h1 := set_files (<[tmp := content]> (files h)) h).
  assert (forall kind, write_keyfile kind tmp content h = (h1, Return (Ok tt))) as Hw.
  { intros kind. apply (write_keyfile_calm h kind _ dir); [done|by apply mk_key_filename_parent|done|done]. }
  assert (move_keyfile key tmp h1 = (h', Return (Ok tt))) as Hm.
  { unfold move_keyfile. rewrite (bind_return _ _ h1 h1 false).
    - cbn iota. apply or_io_some. rewrite (rename_file_calm _ _ _ content); [|done|done|apply lookup_insert_eq].
      unfold h', h1, set_files. cbn. by rewrite delete_insert_eq, delete_id by apply Htmp.
    - unfold is_file, gets. rewrite bool_decide_eq_false_2; [done|]. cbn. rewrite lookup_insert_ne, Hf by done.
      by intros [? ?]. }
  erewrite bind_return; cycle 1.
  { erewrite and_then_ok; [|destruct ty].
    - erewrite and_then_ok; [|exact Hm]. erewrite and_then_ok; [|exact Hpair]. reflexivity.
    - unfold write_keypair_files. erewrite and_then_ok; [reflexivity|].
      rewrite (bind_return _ _ h h content) by done. apply Hw.
    - unfold write_keypair_files. rewrite (and_then_ok _ _ h h tt) by done.
      rewrite (bind_return _ _ h h content) by done. apply Hw. }
  unfold TmpKeyfile.drop. cbn [TmpKeyfile.path]. rewrite (bind_return _ _ h' h' tt); [done|].
  rewrite (bind_return _ _ h' h' false); [done|].
  unfold is_file, gets. rewrite bool_decide_eq_false_2; [done|]. cbn. rewrite lookup_insert_ne by done.
  destruct Htmp as [-> _]. by intros [? ?].
Qed.

Lemma parse_sig_key_text v nr b ty : (v, ty) = (PUBLIC_SIG_KEY_VERSION, PairType.Public) \/ (v, ty) = (SECRET_SIG_KEY_VERSION, PairType.Secret) ->
  key_id nr -> b <> "" ->
  SigKeyPair.parse_key_str (key_text v nr (base64_encode b)) = Ok (ty, nr, base64_encode b).
Proof.
  intros Hv (Hl & _)%key_id_facts Hb. destruct format_versions as ((V1 & _) & (V2 & _) & _).
  unfold SigKeyPair.parse_key_str. rewrite key_text_lines; [|by destruct Hv as [[= -> _]|[= -> _]]|done
    |apply base64_one_line|by apply base64_encode_not_empty].
  cbn [lookup list_lookup]. rewrite trim_id, base64_round_trip by apply base64_trimmed.
  destruct Hv as [[= -> ->]|[= -> ->]]; done.
Qed.

Lemma parse_sym_key_text nr b : key_id nr -> b <> "" ->
  SymKey.parse_key_str (key_text SECRET_SYM_KEY_VERSION nr (base64_encode b)) = Ok nr.
Proof.
  intros (Hl & _)%key_id_facts Hb. destruct format_versions as (_ & _ & _ & _ & V5 & _).
  unfold SymKey.parse_key_str. rewrite key_text_lines; [done|done|done|apply base64_one_line|by apply base64_encode_not_empty].
Qed.

(** A key file and the temporary file beside it are not there yet. *)
Definition room (h : host) (dir nr s random : string) : Prop :=
  free h (mk_key_filename dir nr s) /\ free h (mk_key_filename dir nr (s +:+ "." +:+ to_hex random)).

Lemma sym_key_imported h dir random n r u sk :
  calm h -> tidy dir -> dir ∈ dirs h -> file_key_name n -> valid_rev r ->
  room h dir (n +:+ "-" +:+ r) SECRET_SYM_KEY_SUFFIX random ->
  exists text h', SymKey.to_secret_string (KeyPair.new n r u (Some sk)) = Ok text /\
    h' = set_files (<[mk_key_filename dir (n +:+ "-" +:+ r) SECRET_SYM_KEY_SUFFIX := text]> (files h)) h /\
    SymKey.write_file_from_str random text dir h =
    (h', Return (Ok (KeyPair.new n r None (Some sk), PairType.Secret))).
Proof.
  intros Hc Ht Hin Hn Hr [F1 F2]. destruct suffixes_no_slash as (_ & _ & _ & S4), format_versions as (_ & _ & _ & _ & V5).
  assert (key_id (n +:+ "-" +:+ r)) as Hk by (exists n, r; done).
  eexists _, _. split; [reflexivity|]. split; [reflexivity|]. unfold SymKey.write_file_from_str.
  erewrite and_then_ok by (unfold pure; rewrite (parse_sym_key_text _ (to_bytes sk)) by first [done|apply to_bytes_not_empty]; reflexivity).
  apply install_key_calm; try done.
  apply (pair_for_calm _ _ _ n r dir (Err (CryptoError "SymKey never contains a public key")) (Ok sk)); [done..| |by right].
  eapply key_from_file_calm; [done|exact V5|done|apply lookup_insert_eq].
Qed.

(** The text of a key is imported, where no file operation fails, as a file with that text, and
    gives the key back: the public or the secret half of a signature key, and a symmetric key.  The
    temporary file is gone. *)
Theorem sent_key_arrives h dir random n r :
  calm h -> tidy dir -> dir ∈ dirs h -> file_key_name n -> valid_rev r ->
  let nr := n +:+ "-" +:+ r in
  (forall pk sk text, SigKeyPair.to_public_string (KeyPair.new n r (Some pk) sk) = Ok text ->
     room h dir nr PUBLIC_KEY_SUFFIX random -> files h !! mk_key_filename dir nr SECRET_SIG_KEY_SUFFIX = None ->
     SigKeyPair.write_file_from_str random text dir h =
     (set_files (<[mk_key_filename dir nr PUBLIC_KEY_SUFFIX := text]> (files h)) h,
      Return (Ok (KeyPair.new n r (Some pk) None, PairType.Public)))) /\
  (forall pk sk text, SigKeyPair.to_secret_string (KeyPair.new n r pk (Some sk)) = Ok text ->
     room h dir nr SECRET_SIG_KEY_SUFFIX random -> files h !! mk_key_filename dir nr PUBLIC_KEY_SUFFIX = None ->
     SigKeyPair.write_file_from_str random text dir h =
     (set_files (<[mk_key_filename dir nr SECRET_SIG_KEY_SUFFIX := text]> (files h)) h,
      Return (Ok (KeyPair.new n r None (Some sk), PairType.Secret)))) /\
  (forall u sk text, SymKey.to_secret_string (KeyPair.new n r u (Some sk)) = Ok text ->
     room h dir nr SECRET_SYM_KEY_SUFFIX random ->
     SymKey.write_file_from_str random text dir h =
     (set_files (<[mk_key_filename dir nr SECRET_SYM_KEY_SUFFIX := text]> (files h)) h,
      Return (Ok (KeyPair.new n r None (Some sk), PairType.Secret)))).
Proof.
  intros Hc Ht Hin Hn Hr nr. destruct suffixes_no_slash as (S1 & S2 & S3 & S4), format_versions as (V1 & V2 & _ & _ & V5).
  assert (key_id nr) as Hk by (exists n, r; done). split_and!.
  - intros pk sk text [= <-] [F1 F2] Hmiss. unfold SigKeyPair.write_file_from_str.
    erewrite and_then_ok by (unfold pure; rewrite (parse_sig_key_text _ nr (to_bytes pk) PairType.Public) by first [done|by left|by right|apply to_bytes_not_empty]; reflexivity).
    apply install_key_calm; try done. apply (pair_for_calm _ _ _ n r dir (Ok pk) (Err IO)); [done..| | |by left].
    + eapply key_from_file_calm; [done|exact V1|done|apply lookup_insert_eq].
    + apply key_from_file_missing; [done|]. cbn. by rewrite lookup_insert_ne by (by apply mk_key_filename_suffix).
  - intros pk sk text [= <-] [F1 F2] Hmiss. unfold SigKeyPair.write_file_from_str.
    erewrite and_then_ok by (unfold pure; rewrite (parse_sig_key_text _ nr (to_bytes sk) PairType.Secret) by first [done|by left|by right|apply to_bytes_not_empty]; reflexivity).
    apply install_key_calm; try done. apply (pair_for_calm _ _ _ n r dir (Err IO) (Ok sk)); [done..| | |by right].
    + apply key_from_file_missing; [done|]. cbn. by rewrite lookup_insert_ne by (by apply mk_key_filename_suffix).
    + eapply key_from_file_calm; [done|exact V2|done|apply lookup_insert_eq].
  - intros u sk text Htext Hroom. destruct (sym_key_imported h dir random n r u sk) as (text' & h' & E & -> & Ei); try done.
    rewrite Htext in E. injection E as <-. exact Ei.
Qed.

(** ** Boxes *)
Lemma read_to_string_any h p : calm h -> exists r, read_to_string p h = (h, Return r).
Proof.
  intros Hc. destruct (files h !! p) as [c|] eqn:E; [|eexists; by apply read_missing_calm].
  unfold read_to_string. erewrite and_then_ok by (apply or_io_some; by rewrite read_file_calm, E).
  rewrite (bind_return _ _ _ _ _ (next_fault_calm h Hc)). destruct (_ || _); by eexists.
Qed.

Lemma key_from_file_any {K} `{!Slices K} h kind suffix nr dir :
  calm h -> exists r, key_from_file (K := K) kind suffix nr dir h = (h, Return r).
Proof.
  intros Hc. unfold key_from_file, read_key_bytes.
  destruct (read_to_string_any h (mk_key_filename dir nr suffix) Hc) as [[c|e] E].
  - unfold and_then. rewrite bind_assoc, (bind_return _ _ _ _ _ E).
    unfold mbind, M_bind. destruct (String.eqb c ""); [by eexists|]. destruct (lines c !! 3%nat) as [l|]; [|by eexists].
    destruct (base64_decode l) as [b|?]; [|by eexists]. cbn. destruct (from_slice b); by eexists.
  - eexists. apply and_then_err. by apply and_then_err.
Qed.

(** The public, or the secret, half of a box key in the cache. *)
Definition public_box_stored (h : host) (dir n r : string) (pk : BoxPublicKey) : Prop :=
  files h !! mk_key_filename dir (n +:+ "-" +:+ r) PUBLIC_KEY_SUFFIX =
  Some (key_text PUBLIC_BOX_KEY_VERSION (n +:+ "-" +:+ r) (base64_encode (to_bytes pk))).
Definition secret_box_stored (h : host) (dir n r : string) (sk : BoxSecretKey) : Prop :=
  files h !! mk_key_filename dir (n +:+ "-" +:+ r) SECRET_BOX_KEY_SUFFIX =
  Some (key_text SECRET_BOX_KEY_VERSION (n +:+ "-" +:+ r) (base64_encode (to_bytes sk))).

Lemma public_box_found h dir n r pk :
  calm h -> file_key_name n -> valid_rev r -> public_box_stored h dir n r pk ->
  exists sk, BoxKeyPair.get_pair_for (n +:+ "-" +:+ r) dir h = (h, Return (Ok (KeyPair.new n r (Some pk) sk))).
Proof.
  intros Hc Hn Hr Hf. destruct (key_from_file_any (K := BoxSecretKey) h "box secret" SECRET_BOX_KEY_SUFFIX (n +:+ "-" +:+ r) dir Hc) as [rs E].
  exists (get_ok rs). apply (pair_for_calm _ _ h n r dir (Ok pk) rs); [done..| |exact E|by left].
  eapply key_from_file_calm; [done| |by exists n, r|exact Hf]; apply format_versions.
Qed.

Lemma secret_box_found h dir n r sk :
  calm h -> file_key_name n -> valid_rev r -> secret_box_stored h dir n r sk ->
  exists pk, BoxKeyPair.get_pair_for (n +:+ "-" +:+ r) dir h = (h, Return (Ok (KeyPair.new n r pk (Some sk)))) /\
    (forall pk', public_box_stored h dir n r pk' -> pk = Some pk').
Proof.
  intros Hc Hn Hr Hf. destruct (key_from_file_any (K := BoxPublicKey) h "box public" PUBLIC_KEY_SUFFIX (n +:+ "-" +:+ r) dir Hc) as [rp E].
  exists (get_ok rp). split.
  - apply (pair_for_calm _ _ h n r dir rp (Ok sk)); [done..|exact E| |by right].
    eapply key_from_file_calm; [done| |by exists n, r|exact Hf]; apply format_versions.
  - intros pk' Hp. erewrite key_from_file_calm in E; [|done| |by exists n, r|exact Hp]; [by injection E as <-|apply format_versions].
Qed.

Lemma box_format_lines : one_line BOX_FORMAT_VERSION /\ one_line ANONYMOUS_BOX_FORMAT_VERSION.
Proof. split; refine (bool_decide_eq_true_1 _ _); vm_compute; reflexivity. Qed.

(** What is encrypted for a receiver is decrypted to the same data where the cache has the public
    key of the sender and the secret key of the receiver, and what is encrypted anonymously where it
    has both halves of the key. *)
Theorem sealed_message_opens h dir n1 r1 n2 r2 pk1 sk1 pk2 sk2 s1 s2 random data payload :
  calm h -> file_key_name n1 -> valid_rev r1 -> file_key_name n2 -> valid_rev r2 ->
  box_gen_keypair s1 = (pk1, sk1) -> box_gen_keypair s2 = (pk2, sk2) ->
  public_box_stored h dir n1 r1 pk1 ->
  (secret_box_stored h dir n2 r2 sk2 ->
   BoxKeyPair.encrypt (KeyPair.new n1 r1 (Some pk1) (Some sk1)) random data
     (Some (KeyPair.new n2 r2 (Some pk2) (Some sk2))) = Ok payload ->
   BoxKeyPair.decrypt payload dir h = (h, Return (Ok data))) /\
  (secret_box_stored h dir n1 r1 sk1 ->
   BoxKeyPair.encrypt (KeyPair.new n1 r1 (Some pk1) (Some sk1)) random data None = Ok payload ->
   BoxKeyPair.decrypt payload dir h = (h, Return (Ok data))).
Proof.
  intros Hc Hn1 Hr1 Hn2 Hr2 G1 G2 Hp1. destruct box_format_lines as [V1 V2].
  assert (key_id (n1 +:+ "-" +:+ r1)) as (L1 & U1 & _)%key_id_facts by (by exists n1, r1).
  assert (key_id (n2 +:+ "-" +:+ r2)) as (L2 & U2 & _)%key_id_facts by (by exists n2, r2).
  split.
  - intros Hs2 [= <-]. unfold BoxKeyPair.decrypt, KeyPair.name_with_rev. cbn [KeyPair.name KeyPair.rev].
    rewrite is_utf8_app by (repeat first [done|apply base64_utf8|apply is_utf8_app]).
    cbn [negb]. rewrite lines_cut, lines_cut, lines_cut, lines_cut, lines_one
      by first [done|apply base64_one_line|apply base64_encode_not_empty, box_seal_not_empty].
    destruct (public_box_found h dir n1 r1 pk1 Hc Hn1 Hr1 Hp1) as [sk1' E1].
    destruct (secret_box_found h dir n2 r2 sk2 Hc Hn2 Hr2 Hs2) as (pk2' & E2 & _).
    rewrite (and_then_ok _ _ h h (BOX_FORMAT_VERSION, _)) by reflexivity.
    change (negb _) with false. cbn iota. cbn zeta. change (String.eqb BOX_FORMAT_VERSION ANONYMOUS_BOX_FORMAT_VERSION) with false.
    erewrite and_then_ok by reflexivity; cbv beta iota. rewrite (and_then_ok _ _ _ _ _ E1). cbn iota.
    erewrite and_then_ok by reflexivity; cbv beta iota. rewrite (and_then_ok _ _ _ _ _ E2).
    erewrite and_then_ok by reflexivity; cbv beta iota. unfold BoxKeyPair.decode.
    erewrite and_then_ok by (rewrite base64_round_trip; reflexivity). rewrite from_slice_to_bytes.
    erewrite and_then_ok by reflexivity; cbv beta iota. cbn [fst].
    erewrite and_then_ok by (rewrite base64_round_trip; reflexivity).
    erewrite and_then_ok by reflexivity; cbv beta iota. erewrite and_then_ok by reflexivity; cbv beta iota.
    unfold BoxKeyPair.decrypt_box. by rewrite (box_open_seal s1 s2).
  - intros Hs1 [= <-]. unfold BoxKeyPair.decrypt, KeyPair.name_with_rev. cbn [KeyPair.name KeyPair.rev].
    rewrite is_utf8_app by (repeat first [done|apply base64_utf8|apply is_utf8_app]).
    cbn [negb]. rewrite lines_cut, lines_cut, lines_one
      by first [done|apply base64_one_line|apply base64_encode_not_empty, sealedbox_seal_not_empty].
    destruct (secret_box_found h dir n1 r1 sk1 Hc Hn1 Hr1 Hs1) as (pk1' & E1 & Hpk). rewrite (Hpk pk1 Hp1) in E1.
    rewrite (and_then_ok _ _ h h (ANONYMOUS_BOX_FORMAT_VERSION, _)) by reflexivity.
    change (negb _) with false. cbn iota. cbn zeta.
    change (String.eqb ANONYMOUS_BOX_FORMAT_VERSION ANONYMOUS_BOX_FORMAT_VERSION) with true.
    erewrite and_then_ok by reflexivity; cbv beta iota. rewrite (and_then_ok _ _ _ _ _ E1). cbn iota.
    erewrite and_then_ok by reflexivity; cbv beta iota. unfold BoxKeyPair.decode. cbn [fst].
    erewrite and_then_ok by (rewrite base64_round_trip; reflexivity).
    erewrite and_then_ok by reflexivity; cbv beta iota. erewrite and_then_ok by reflexivity; cbv beta iota.
    unfold BoxKeyPair.decrypt_anonymous_box. by rewrite (sealedbox_open_seal s1).
Qed.
End stored.
