(* ===== verification/KeySearch.v ===== *)
(** * The newest key of a name

    [get_key_revisions] gives exactly the revisions of a key that are kept in the directory, newest
    first, and the latest pair is the one of the greatest revision. *)

From Stdlib Require Import Ascii.
From S2P Require Import Prelude Regex ServiceGroup Text ByteText Host CryptoLib KeyFiles KeyNames Keys KeyProofs KeyRoundTrips CryptoExample.
Local Open Scope string_scope.
Local Open Scope list_scope.

(** ** The files of a directory *)
Lemma prefix_app p f : String.prefix p f = true <-> exists rest, f = p +:+ rest.
Proof.
  revert f; induction p as [|c p IH]; intros f.
  - split; [by exists f|]. by destruct f.
  - destruct f as [|d f]; [split; [done|by intros [? [=]]]|]. cbn [String.prefix].
    destruct (ascii_dec c d) as [<-|Hne].
    + rewrite IH. split; intros [rest E]; exists rest; [by rewrite E|by injection E].
    + split; [done|]. intros [? [= ? _]]. congruence.
Qed.

Lemma substring_all n f : (String.length f <= n)%nat -> String.substring 0 n f = f.
Proof. revert n; induction f as [|c f IH]; intros [|n] Hn; cbn in *; try done; [lia|]. by rewrite IH by lia. Qed.

Lemma substring_app p rest n : (String.length rest <= n)%nat ->
  String.substring (String.length p) n (p +:+ rest) = rest.
Proof. intros Hn. induction p as [|c p IH]; [by apply substring_all|]. exact IH. Qed.

Lemma length_append a b : String.length (a +:+ b) = (String.length a + String.length b)%nat.
Proof. induction a as [|c a IH]; [done|]. change (S (String.length (a +:+ b)) = S (String.length a) + String.length b)%nat. by rewrite IH. Qed.

Lemma read_dir_spec h dir : dir ∈ dirs h ->
  exists names, read_dir dir h = (h, Return names) /\
    forall x, x ∈ names <-> ("/"%char ∉ to_chars x) /\ is_Some (files h !! (dir +:+ "/" +:+ x)).
Proof.
  intros Hd. unfold read_dir, gets. rewrite bool_decide_eq_true_2 by done. eexists. split; [reflexivity|].
  intros x. rewrite list_elem_of_omap. split.
  - intros (f & Hf & E). apply list_elem_of_fmap in Hf as ([f' c] & -> & Hf). apply elem_of_map_to_list in Hf. cbn in E.
    destruct (String.prefix (dir_prefix dir) f') eqn:Ep; [|done]. apply prefix_app in Ep as [rest ->].
    unfold dir_prefix in *. rewrite substring_app in E by (rewrite !length_append; lia).
    case_bool_decide as Hs; [done|]. injection E as ->. split; [done|]. rewrite <- append_assoc, Hf. by eexists.
  - intros [Hs [c Hc]]. exists (dir +:+ "/" +:+ x). split.
    + apply list_elem_of_fmap. exists (dir +:+ "/" +:+ x, c). split; [done|]. by apply elem_of_map_to_list.
    + rewrite <- append_assoc. change (dir +:+ "/") with (dir_prefix dir).
      rewrite (proj2 (prefix_app (dir_prefix dir) _)) by eauto.
      rewrite substring_app by (rewrite !length_append; lia). by rewrite bool_decide_eq_false_2.
Qed.

(** ** The search *)

Lemma StronglySorted_reverse {A} (R : A -> A -> Prop) l :
  StronglySorted R l -> StronglySorted (fun a b => R b a) (rev l).
Proof.
  assert (forall k x, StronglySorted (fun a b => R b a) k -> Forall (fun y => R x y) k ->
    StronglySorted (fun a b => R b a) (k ++ [x])) as Hsnoc.
  { induction k as [|y k IH]; intros x Hk Hx; cbn; [by repeat constructor|].
    apply StronglySorted_inv in Hk as [Hk Hy]. apply Forall_cons in Hx as [Hxy Hx].
    constructor; [by apply IH|]. apply Forall_app. split; [done|by constructor]. }
  induction 1 as [|x l Hl IH Hx]; [constructor|]. cbn. apply Hsnoc; [done|].
  apply Forall_forall. intros y Hy. rewrite list_elem_of_In, <- in_rev, <- list_elem_of_In in Hy.
  by eapply Forall_forall in Hx.
Qed.

(** The first line of a file is text that starts with the kind of key. *)
Definition key_content (key_type : KeyType.t) (content : string) : bool :=
  let line := of_chars (cut_line (to_chars content)).1 in
  is_utf8 line && String.prefix (to_uppercase (KeyType.to_string key_type)) line.

Section search.
  Context `{!RegexEngine}.
  Context (h : host) (Hc : calm h) (dir : string) (Ht : tidy dir) (Hd : dir ∈ dirs h).
  Context (keyname : string) (pair_type : option PairType.t) (key_type : KeyType.t).

(** A file of the directory names the revision [x] of the key. *)
Definition names_revision (filename x : string) : Prop :=
  (exists content, files h !! (dir +:+ "/" +:+ filename) = Some content /\ key_content key_type content = true) /\
  exists rev suffix, valid_key_name keyname /\ valid_rev rev /\ wanted_suffix pair_type suffix = true /\
    filename = keyname +:+ "-" +:+ rev +:+ "." +:+ suffix /\ x = keyname +:+ "-" +:+ rev.

Lemma check_entry_calm filename entries cand content :
  ("/"%char ∉ to_chars filename) -> files h !! (dir +:+ "/" +:+ filename) = Some content -> is_utf8 filename = true ->
  check_entries keyname dir pair_type key_type (filename :: entries) cand h =
  check_entries keyname dir pair_type key_type entries
    (if key_content key_type content then check_filename keyname filename cand pair_type else cand) h.
Proof.
  intros Hs Hf Hu. cbn [check_entries]. rewrite !join_file by done.
  do 2 rewrite (bind_return _ _ _ _ _ (next_fault_calm h Hc)).
  rewrite (bind_return _ _ h h true) by (unfold is_file, gets; by rewrite Hf).
  cbn [orb negb]. erewrite and_then_ok; cycle 1.
  { unfold BufReader.open. erewrite and_then_ok by (apply or_io_some; by rewrite read_file_calm, Hf). reflexivity. }
  unfold BufReader.read_line. cbn [BufReader.rest]. rewrite bind_assoc, (bind_return _ _ _ _ _ (next_fault_calm h Hc)).
  unfold key_content. destruct (cut_line (to_chars content)) as [w rest]. cbn [fst orb].
  destruct (is_utf8 (of_chars w)); [|done]. cbn [negb orb andb]. unfold ok. rewrite (bind_return _ _ _ _ _ eq_refl).
  destruct (String.prefix _ _); [|done]. cbn [negb]. by rewrite Hu.
Qed.

Lemma check_entries_calm entries cand :
  (forall x, x ∈ entries -> ("/"%char ∉ to_chars x) /\ is_Some (files h !! (dir +:+ "/" +:+ x)) /\ is_utf8 x = true) ->
  exists cand', check_entries keyname dir pair_type key_type entries cand h = (h, Return (Ok cand')) /\
    forall x, x ∈ cand' <-> x ∈ cand \/ exists f, f ∈ entries /\ names_revision f x.
Proof.
  revert cand; induction entries as [|f entries IH]; intros cand Hall.
  - exists cand. split; [done|]. intros x. split; [by left|]. intros [?|(f & Hf & _)]; [done|]. by apply elem_of_nil in Hf.
  - destruct (Hall f) as (Hs & [c Hf] & Hu); [by left|]. rewrite (check_entry_calm f entries cand c) by done.
    destruct (IH (if key_content key_type c then check_filename keyname f cand pair_type else cand)) as (cand' & E & Hx).
    { intros x Hin. apply Hall. by right. }
    exists cand'. split; [done|]. intros x. rewrite Hx. setoid_rewrite elem_of_cons.
    assert (x ∈ (if key_content key_type c then check_filename keyname f cand pair_type else cand) <->
      x ∈ cand \/ names_revision f x) as ->.
    { unfold names_revision. rewrite Hf. destruct (key_content key_type c) eqn:Ek.
      - rewrite check_filename_spec. split; intros [?|H0]; [by left|right|by left|right]; [by split; [exists c|]|apply H0].
      - split; [by left|]. intros [?|[(c' & [= <-] & ?) _]]; [done|congruence]. }
    naive_solver.
Qed.

(** The revisions of the key that are kept in the directory. *)
Definition stored_revision (rev : string) : Prop :=
  valid_key_name keyname /\ ("/"%char ∉ to_chars keyname) /\ valid_rev rev /\
  exists suffix content, wanted_suffix pair_type suffix = true /\
    files h !! (dir +:+ "/" +:+ keyname +:+ "-" +:+ rev +:+ "." +:+ suffix) = Some content /\
    key_content key_type content = true.

Lemma wanted_suffix_no_slash suffix : wanted_suffix pair_type suffix = true -> "/"%char ∉ to_chars suffix.
Proof.
  intros Hw%wanted_suffix_known. destruct suffixes_no_slash as (S1 & S2 & S3 & S4).
  apply orb_prop in Hw as [E|E]; apply bool_decide_eq_true in E; [by subst|]. by destruct E as [->|[->| ->]].
Qed.

Lemma names_revision_stored f x : ("/"%char ∉ to_chars f) ->
  names_revision f x ->
  exists rev, x = keyname +:+ "-" +:+ rev /\ stored_revision rev.
Proof.
  intros Hs [(c & Hf & Hk) (rev & suffix & Hn & Hr & Hw & -> & ->)]. exists rev. split; [done|].
  split; [done|]. split; [|split; [done|by exists suffix, c]].
  intros Hin. apply Hs. rewrite to_chars_app. apply elem_of_app. by left.
Qed.

Lemma stored_names_revision rev : stored_revision rev ->
  exists f, ("/"%char ∉ to_chars f) /\ is_Some (files h !! (dir +:+ "/" +:+ f)) /\
    names_revision f (keyname +:+ "-" +:+ rev).
Proof.
  intros (Hn & Hs & Hr & suffix & c & Hw & Hf & Hk). exists (keyname +:+ "-" +:+ rev +:+ "." +:+ suffix).
  split; [|split; [by exists c|]].
  - rewrite !to_chars_app, !elem_of_app. intros [?|[?|[?|[?|?]]]]; [done|set_solver| |set_solver|].
    + by eapply (rev_excludes rev "/"%char).
    + by eapply wanted_suffix_no_slash.
  - split; [by exists c|]. by exists rev, suffix.
Qed.

(** The revisions are the ones that are kept, each once and the greatest first. *)
Lemma get_key_revisions_spec :
  (forall x, ("/"%char ∉ to_chars x) -> is_Some (files h !! (dir +:+ "/" +:+ x)) -> is_utf8 x = true) ->
  exists l, get_key_revisions keyname dir pair_type key_type h = (h, Return (Ok l)) /\
    StronglySorted (fun a b => str_leb b a = true) l /\ NoDup l /\
    forall x, x ∈ l <-> exists rev, x = keyname +:+ "-" +:+ rev /\ stored_revision rev.
Proof.
  intros Hu. unfold get_key_revisions. rewrite (bind_return _ _ _ _ _ (next_fault_calm h Hc)).
  rewrite (bind_return _ _ h h true) by (unfold is_dir, gets; by rewrite bool_decide_eq_true_2). cbn [orb negb].
  destruct (read_dir_spec h dir Hd) as (names & E & Hnames). rewrite (bind_return _ _ _ _ _ E).
  destruct (check_entries_calm names ∅) as (cand & E' & Hcand).
  { intros x [H1 H2]%Hnames. auto. }
  rewrite (and_then_ok _ _ _ _ _ E'). eexists. split; [reflexivity|].
  assert (StronglySorted (fun a b => str_leb a b = true) (sort_by str_leb (elements cand))) as Hsort.
  { apply Sorted_StronglySorted; [intros a b c; apply str_leb_trans|]. apply sort_by_sorted, str_leb_connex. }
  split; [by apply (StronglySorted_reverse (fun a b => str_leb a b = true))|]. split.
  { apply NoDup_ListNoDup, NoDup_rev, NoDup_ListNoDup. rewrite sort_by_perm. apply NoDup_elements. }
  intros x. rewrite list_elem_of_In, <- in_rev, <- list_elem_of_In, elem_of_sort_by, elem_of_elements, Hcand. split.
  - intros [?|(f & [Hs _]%Hnames & Hf)]; [set_solver|]. by eapply names_revision_stored.
  - intros (rev & -> & Hrev). right. destruct (stored_names_revision rev Hrev) as (f & Hs & Hf & Hx).
    exists f. split; [by apply Hnames|done].
Qed.
End search.

(** The order of the names is the order of the revisions. *)
Lemma str_leb_app p a b : str_leb (p +:+ a) (p +:+ b) = str_leb a b.
Proof.
  induction p as [|c p IH]; [done|]. rewrite <- IH. unfold str_leb.
  change (String c p +:+ a) with (String c (p +:+ a)). change (String c p +:+ b) with (String c (p +:+ b)).
  cbn [String.compare]. unfold Ascii.compare. by rewrite N.compare_refl.
Qed.

(** ** The latest pair *)
Section latest.
  Context `{!RegexEngine, !CryptoLib}.
  Context {P S : Type} (gp : string -> string -> io P) (gs : string -> string -> io S).
  Context (h : host) (dir : string).

Lemma load_pairs_calm l :
  (forall x, x ∈ l -> exists kp, pair_for gp gs x dir h = (h, Return (Ok kp))) ->
  exists kps, load_pairs gp gs dir l h = (h, Return (Ok kps)) /\
    Forall2 (fun x kp => pair_for gp gs x dir h = (h, Return (Ok kp))) l kps.
Proof.
  induction l as [|x l IH]; intros Hall; [by exists []|].
  destruct (Hall x) as [kp Hkp]; [by left|]. destruct IH as (kps & E & Hkps); [intros y Hy; apply Hall; by right|].
  exists (kp :: kps). split; [|by constructor]. cbn [load_pairs].
  by rewrite (and_then_ok _ _ _ _ _ Hkp), (and_then_ok _ _ _ _ _ E).
Qed.

Lemma latest_pair_for_spec key_type name pair_type :
  calm h -> tidy dir -> dir ∈ dirs h ->
  (forall x, ("/"%char ∉ to_chars x) -> is_Some (files h !! (dir +:+ "/" +:+ x)) -> is_utf8 x = true) ->
  (forall rev, stored_revision h dir name pair_type key_type rev ->
     exists kp, pair_for gp gs (name +:+ "-" +:+ rev) dir h = (h, Return (Ok kp))) ->
  (exists newest kp, stored_revision h dir name pair_type key_type newest /\
     (forall rev, stored_revision h dir name pair_type key_type rev -> str_leb rev newest = true) /\
     latest_pair_for gp gs key_type name dir pair_type h = (h, Return (Ok kp)) /\
     pair_for gp gs (name +:+ "-" +:+ newest) dir h = (h, Return (Ok kp))) \/
  ((forall rev, ~ stored_revision h dir name pair_type key_type rev) /\
   exists e, latest_pair_for gp gs key_type name dir pair_type h = (h, Return (Err e))).
Proof.
  intros Hc Ht Hd Hu Hload. destruct (get_key_revisions_spec h Hc dir Ht Hd name pair_type key_type Hu) as (l & E & Hsort & _ & Hl).
  destruct (load_pairs_calm l) as (kps & Ek & Hkps). { intros x (rev & -> & Hrev)%Hl. by apply Hload. }
  unfold latest_pair_for, pairs_for.
  assert ((revisions <-? get_key_revisions name dir pair_type key_type;; load_pairs gp gs dir revisions) h =
    (h, Return (Ok kps))) as Ep by (by rewrite (and_then_ok _ _ _ _ _ E)).
  rewrite (and_then_ok _ _ _ _ _ Ep). destruct Hkps as [|x kp l kps Hx _].
  - right. split; [|by eexists]. intros rev Hrev. apply (not_elem_of_nil (name +:+ "-" +:+ rev)), Hl. eauto.
  - left. destruct (proj1 (Hl x)) as (newest & -> & Hnew); [by left|]. exists newest, kp. split; [done|].
    split; [|done]. intros rev Hrev. rewrite <- (str_leb_app (name +:+ "-")), !append_assoc.
    assert (name +:+ "-" +:+ rev ∈ (name +:+ "-" +:+ newest) :: l) as Hin by (apply Hl; eauto).
    apply elem_of_cons in Hin as [->|Hin]; [by destruct (str_leb_connex (name +:+ "-" +:+ newest) (name +:+ "-" +:+ newest))|].
    apply StronglySorted_inv in Hsort as [_ Hall]. by eapply Forall_forall in Hall.
Qed.
End latest.

(** The latest signature key of a name is the one with the greatest revision among the files of
    the directory that are named after the key, have the wanted half of it and start as a signature
    key does; it is an error exactly when there is none.  The other keys have to be readable. *)
Theorem latest_key_found `{!RegexEngine, !CryptoLib} h dir name pair_type :
  calm h -> tidy dir -> dir ∈ dirs h ->
  (forall x, ("/"%char ∉ to_chars x) -> is_Some (files h !! (dir +:+ "/" +:+ x)) -> is_utf8 x = true) ->
  (forall rev, stored_revision h dir name pair_type KeyType.Sig rev ->
     exists kp, SigKeyPair.get_pair_for (name +:+ "-" +:+ rev) dir h = (h, Return (Ok kp))) ->
  (exists newest kp, stored_revision h dir name pair_type KeyType.Sig newest /\
     (forall rev, stored_revision h dir name pair_type KeyType.Sig rev -> str_leb rev newest = true) /\
     SigKeyPair.get_latest_pair_for name dir pair_type h = (h, Return (Ok kp)) /\
     SigKeyPair.get_pair_for (name +:+ "-" +:+ newest) dir h = (h, Return (Ok kp))) \/
  ((forall rev, ~ stored_revision h dir name pair_type KeyType.Sig rev) /\
   exists e, SigKeyPair.get_latest_pair_for name dir pair_type h = (h, Return (Err e))).
Proof. apply latest_pair_for_spec. Qed.
