(* ===== verification/Artifact.v ===== *)
(** * Signed artifacts

    Models [components/core/src/crypto/artifact.rs]: a package archive with a header that names the
    key of its origin and has the signed hash of the archive. *)

From Stdlib Require Import Ascii.
From S2P Require Import Prelude Regex Text ServiceGroup Host ByteText CryptoLib KeyFiles Keys CryptoExample KeyNames KeyProofs KeyRoundTrips.
Local Open Scope string_scope.
Local Open Scope list_scope.

(** [write!] gives its pieces to the writer one after the other; [false] is an error. *)
Fixpoint write_pieces (w : BufWriter.t) (pieces : list string) : M (BufWriter.t * bool) :=
  match pieces with
  | [] => mret (w, true)
  | p :: pieces =>
      wr ← BufWriter.write_all w p;
      if wr.2 : bool then write_pieces wr.1 pieces else mret wr
  end.

Definition COPY_SIZE : nat := Z.to_nat 8192.

(** [io::copy] reads and writes in turn; a read takes a byte or more, so [fuel] is the number of
    bytes that are left and one more. *)
Fixpoint copy_chunks (fuel : nat) (w : BufWriter.t) (content : chars) : M (BufWriter.t * bool) :=
  match fuel with
  | O => mret (w, true)
  | S fuel =>
      failed ← next_fault;
      if failed : bool then mret (w, false)
      else match content with
           | [] => mret (w, true)
           | _ :: _ =>
               wr ← BufWriter.write_all w (of_chars (take COPY_SIZE content));
               if wr.2 : bool then copy_chunks fuel wr.1 (drop COPY_SIZE content) else mret wr
           end
  end.

Section with_crypto.
  Context `{!RegexEngine, !CryptoLib}.

Definition header_pieces (pair : SigKeyPair.t) (signature : string) : list string :=
  [HART_FORMAT_VERSION; nl; KeyPair.name_with_rev pair; nl; SIG_HASH_TYPE; nl; base64_encode signature; nl +:+ nl].

(** What [sign] writes to its destination. *)
Definition write_artifact (src : string) (pieces : list string) (w : BufWriter.t) : M (BufWriter.t * bool) :=
  wr ← write_pieces w pieces;
  if wr.2 : bool then
    r ← read_file src;
    match r with
    | None => mret (wr.1, false)
    | Some content => copy_chunks (S (String.length content)) wr.1 (to_chars content)
    end
  else mret wr.

Definition sign (src dst : string) (pair : SigKeyPair.t) : io unit :=
  hash <-? hash_file src;;
  sk <-? pure (KeyPair.get_secret pair);;
  let signature := sign_sign hash sk in
  _ <-? or_io (create_file dst);;
  wr ← write_artifact src (header_pieces pair signature) (BufWriter.new dst);
  _ ← BufWriter.drop wr.1;
  pure (if wr.2 : bool then Ok tt else Err IO).

(** A line of the header that is not missing; [msg] is the error if it is. *)
Definition header_line (msg : string) (reader : BufReader.t) : io (string * BufReader.t) :=
  p <-? BufReader.read_line reader;;
  if String.eqb p.1 "" then throw (CryptoError msg) else ok p.

(** The five lines [get_archive_reader] and [get_artifact_header] read, and the reader after them. *)
Definition read_header (src : string) : io (string * string * string * string * BufReader.t) :=
  reader <-? BufReader.open src;;
  l1 <-? header_line "Can't read format version" reader;;
  l2 <-? header_line "Can't read keyname" l1.2;;
  l3 <-? header_line "Can't read hash type" l2.2;;
  l4 <-? header_line "Can't read signature" l3.2;;
  l5 <-? header_line "Can't end of header" l4.2;;
  ok (l1.1, l2.1, l3.1, l4.1, l5.2).

Definition get_archive_reader (src : string) : io BufReader.t :=
  r <-? read_header src;; ok r.2.

Record ArtifactHeader := new_header {
  format_version : string;
  key_name : string;
  hash_type : string;
  signature_raw : string;
}.

Definition get_artifact_header (src : string) : io ArtifactHeader :=
  r <-? read_header src;;
  let '(v, k, t, s, _) := r in
  ok (new_header (trim v) (trim k) (trim t) (trim s)).

Definition check_version (buffer : string) : io unit :=
  if String.eqb (trim buffer) HART_FORMAT_VERSION then ok tt
  else throw (CryptoError ("Unsupported format version: " +:+ trim buffer)).

Definition verify (src cache_key_path : string) : io (string * string) :=
  reader <-? BufReader.open src;;
  l1 <-? header_line "Corrupt payload, can't read format version" reader;;
  _ <-? check_version l1.1;;
  l2 <-? header_line "Corrupt payload, can't read origin key name" l1.2;;
  pair <-? SigKeyPair.get_pair_for (trim l2.1) cache_key_path;;
  l3 <-? header_line "Corrupt payload, can't read hash type" l2.2;;
  _ <-? (if String.eqb (trim l3.1) SIG_HASH_TYPE then ok tt
         else throw (CryptoError ("Unsupported signature type: " +:+ trim l3.1)));;
  l4 <-? header_line "Corrupt payload, can't read signature" l3.2;;
  signature <-? match base64_decode (trim l4.1) with
                | Ok b => ok b
                | Err e => throw (CryptoError ("Can't decode signature: " +:+ e))
                end;;
  l5 <-? header_line "Corrupt payload, can't find end of header" l4.2;;
  pk <-? pure (KeyPair.get_public pair);;
  expected_hash <-? match sign_verify signature pk with
                    | Some signed_data =>
                        if is_utf8 signed_data then ok signed_data
                        else throw (CryptoError "Error parsing artifact signature")
                    | None => throw (CryptoError "Verification failed")
                    end;;
  computed_hash <-? hash_reader l5.2;;
  if String.eqb computed_hash expected_hash then ok (KeyPair.name_with_rev pair, expected_hash)
  else throw (CryptoError ("Habitat artifact is invalid, hashes don't match (expected: " +:+ expected_hash
                           +:+ ", computed: " +:+ computed_hash +:+ ")")).

Definition artifact_signer (src : string) : io string :=
  reader <-? BufReader.open src;;
  l1 <-? header_line "Corrupt payload, can't read format version" reader;;
  _ <-? check_version l1.1;;
  l2 <-? header_line "Corrupt payload, can't read origin key name" l1.2;;
  _ <-? pure (parse_name_with_rev (trim l2.1));;
  ok (trim l2.1).
End with_crypto.

(** * What a verified artifact is

    A signed package verifies, and a package that verifies has the hash the owner of the named key
    signed. *)

(** ** The hash of what is left to read *)
Section hash.
  Context `{L : CryptoLib, !CryptoLaws L}.

Lemma chunk_size pos : (1 <= Nat.min BUF_SIZE (Z.to_nat (BufReader.capacity - pos `mod` BufReader.capacity)))%nat.
Proof.
  pose proof (Z.mod_pos_bound pos BufReader.capacity eq_refl) as Hp. set (m := (pos `mod` BufReader.capacity)%Z) in *.
  apply Nat.min_glb; [by apply Nat.leb_le|lia].
Qed.

Lemma take_not_nil {A} n (l : list A) : (1 <= n)%nat -> take n l = [] -> l = [].
Proof. destruct n, l; cbn; try lia; done. Qed.

Lemma hash_chunks_inv fuel r st h h' st' :
  (length (BufReader.rest r) < fuel)%nat -> hash_chunks fuel r st h = (h', Return (Ok st')) ->
  st' = generichash_update st (of_chars (BufReader.rest r)).
Proof.
  revert r st h; induction fuel as [|fuel IH]; intros [rest pos] st h Hf; [cbn in Hf; lia|]. cbn [hash_chunks].
  intros (h1 & [chunk r'] & E & H1)%and_then_inv. unfold BufReader.read in E.
  apply bind_inv in E as (h2 & [] & _ & E); cbn [BufReader.rest BufReader.pos] in *; [done|].
  pose proof (chunk_size pos) as Hn. set (n := Nat.min _ _) in *. injection E as <- <- <-.
  destruct (String.eqb_spec (of_chars (take n rest)) "") as [E|Hne].
  - injection H1 as <- <-. assert (take n rest = []) as E' by (apply (f_equal to_chars) in E; by rewrite to_of_chars in E).
    apply take_not_nil in E' as ->; [|done]. cbn. by rewrite generichash_update_nil.
  - apply IH in H1 as ->.
    + cbn [BufReader.rest]. by rewrite generichash_update_app, <- of_chars_app, take_drop.
    + cbn [BufReader.rest]. rewrite length_drop. assert (rest <> []) by (intros ->; by destruct n). destruct rest; [done|]. cbn in *. lia.
Qed.

Lemma hash_chunks_calm fuel r st h : calm h -> exists st', hash_chunks fuel r st h = (h, Return (Ok st')).
Proof.
  intros Hc. revert r st; induction fuel as [|fuel IH]; intros r st; cbn [hash_chunks]; [by eexists|].
  erewrite and_then_ok; cycle 1.
  { unfold BufReader.read. rewrite (bind_return _ _ _ _ _ (next_fault_calm h Hc)). reflexivity. }
  cbv beta iota. case_match; [by eexists|apply IH].
Qed.

(** Hashing in chunks, wherever the buffers end, is hashing at once. *)
Lemma hash_reader_inv r h h' x :
  hash_reader r h = (h', Return (Ok x)) -> x = hash_bytes (of_chars (BufReader.rest r)).
Proof.
  unfold hash_reader. intros (h1 & st & E & [= _ <-])%and_then_inv. apply hash_chunks_inv in E as ->; [done|lia].
Qed.

Lemma hash_reader_calm r h : calm h -> hash_reader r h = (h, Return (Ok (hash_bytes (of_chars (BufReader.rest r))))).
Proof.
  intros Hc. destruct (hash_chunks_calm (S (length (BufReader.rest r))) r generichash_init h Hc) as [st E].
  assert (hash_reader r h = (h, Return (Ok (to_hex (generichash_final st))))) as Hr
    by (unfold hash_reader; by rewrite (and_then_ok _ _ _ _ _ E)).
  by rewrite Hr, (hash_reader_inv _ _ _ _ Hr).
Qed.

Lemma open_calm h p c : calm h -> files h !! p = Some c ->
  BufReader.open p h = (h, Return (Ok (BufReader.mk (to_chars c) 0))).
Proof.
  intros Hc Hp. unfold BufReader.open. erewrite and_then_ok by (apply or_io_some; by rewrite read_file_calm, Hp). done.
Qed.

Lemma file_hash_calm h p c : calm h -> files h !! p = Some c -> hash_file p h = (h, Return (Ok (hash_bytes c))).
Proof.
  intros Hc Hp. unfold hash_file. rewrite (and_then_ok _ _ _ _ _ (open_calm h p c Hc Hp)), hash_reader_calm by done.
  cbn. by rewrite of_to_chars.
Qed.
End hash.

(** ** Writing an artifact *)
Fixpoint joined (l : list string) : string :=
  match l with [] => "" | s :: l => s +:+ joined l end.

Lemma write_pieces_calm h p d b pieces : calm h -> files h !! p = Some d ->
  exists d' b', write_pieces (BufWriter.mk p b) pieces h =
    (set_files (<[p := d']> (files h)) h, Return (BufWriter.mk p b', true)) /\ d' +:+ b' = d +:+ b +:+ joined pieces.
Proof.
  revert h d b; induction pieces as [|s pieces IH]; intros h d b Hc Hp; cbn [write_pieces joined].
  - exists d, b. by rewrite set_files_same, append_nil_r by done.
  - destruct (write_all_calm h p d b s Hc Hp) as (d1 & b1 & E & H1). rewrite (bind_return _ _ _ _ _ E). cbn [fst snd].
    destruct (IH (set_files (<[p := d1]> (files h)) h) d1 b1 Hc (lookup_insert_eq _ _ _)) as (d2 & b2 & -> & H2).
    exists d2, b2. cbn. rewrite insert_insert_eq. split; [done|].
    by rewrite H2, <- append_assoc, H1, !append_assoc.
Qed.

Lemma copy_chunks_calm fuel h p d b content : calm h -> files h !! p = Some d -> (length content < fuel)%nat ->
  exists d' b', copy_chunks fuel (BufWriter.mk p b) content h =
    (set_files (<[p := d']> (files h)) h, Return (BufWriter.mk p b', true)) /\ d' +:+ b' = d +:+ b +:+ of_chars content.
Proof.
  revert h d b content; induction fuel as [|fuel IH]; intros h d b content Hc Hp Hf; [lia|]. cbn [copy_chunks].
  rewrite (bind_return _ _ _ _ _ (next_fault_calm h Hc)). destruct content as [|c content].
  - exists d, b. by rewrite set_files_same, append_nil_r by done.
  - set (l := c :: content) in *. destruct (write_all_calm h p d b (of_chars (take COPY_SIZE l)) Hc Hp) as (d1 & b1 & E & H1).
    rewrite (bind_return _ _ _ _ _ E). cbn [fst snd].
    destruct (IH (set_files (<[p := d1]> (files h)) h) d1 b1 (drop COPY_SIZE l) Hc (lookup_insert_eq _ _ _)) as (d2 & b2 & -> & H2).
    { rewrite length_drop. unfold l, COPY_SIZE in *. cbn [length] in *. lia. }
    exists d2, b2. cbn [files set_files]. rewrite insert_insert_eq. split; [done|].
    rewrite H2, <- append_assoc, H1, !append_assoc. do 2 f_equal. by rewrite <- of_chars_app, take_drop.
Qed.

(** The computation returned and did not return an error. *)
Definition is_ok_outcome {A} (o : outcome (result crypto_error A)) : Prop :=
  match o with Return (Ok _) => True | _ => False end.

Section artifact.
  Context `{!RegexEngine} `{L : CryptoLib, !CryptoLaws L}.

(** The text of an artifact. *)
Definition artifact_text (nr signature content : string) : string :=
  HART_FORMAT_VERSION +:+ nl +:+ nr +:+ nl +:+ SIG_HASH_TYPE +:+ nl +:+ base64_encode signature +:+ nl +:+ nl +:+ content.

Lemma sign_calm h src dst pair sk content :
  calm h -> files h !! src = Some content -> src <> dst -> dst ∉ dirs h -> KeyPair.secret pair = Some sk ->
  sign src dst pair h =
  (set_files (<[dst := artifact_text (KeyPair.name_with_rev pair) (sign_sign (hash_bytes content) sk) content]> (files h)) h,
   Return (Ok tt)).
Proof.
  intros Hc Hsrc Hne Hd Hsk. unfold sign. rewrite (and_then_ok _ _ _ _ _ (file_hash_calm h src content Hc Hsrc)).
  rewrite (and_then_ok _ _ h h sk) by (unfold pure, KeyPair.get_secret; by rewrite Hsk).
  erewrite and_then_ok by (apply or_io_some; by apply create_file_calm).
  set (pieces := header_pieces pair _). set (h1 := set_files _ h).
  destruct (write_pieces_calm h1 dst "" "" pieces Hc (lookup_insert_eq _ _ _)) as (d & b & E & Hdb).
  set (h2 := set_files _ h1) in E.
  destruct (copy_chunks_calm (S (String.length content)) h2 dst d b (to_chars content) Hc (lookup_insert_eq _ _ _))
    as (d' & b' & E' & Hdb').
  { clear. induction content as [|c s IH]; cbn in *; [lia|]. unfold to_chars in *. lia. }
  assert (write_artifact src pieces (BufWriter.new dst) h1 =
    (set_files (<[dst := d']> (files h2)) h2, Return (BufWriter.mk dst b', true))) as Ew.
  { unfold write_artifact, BufWriter.new. rewrite (bind_return _ _ _ _ _ E). cbn [fst snd].
    rewrite (bind_return _ _ h2 h2 (Some content)); [exact E'|]. rewrite read_file_calm by done.
    unfold h2, h1. cbn. by rewrite !lookup_insert_ne, Hsrc. }
  rewrite (bind_return _ _ _ _ _ Ew). cbn [fst snd].
  set (h3 := set_files _ h2). rewrite (bind_return _ _ _ _ _ (drop_calm h3 Hc dst d' (lookup_insert_eq _ _ _) b')).
  rewrite Hdb', of_to_chars. unfold h3, h2, h1, set_files, pure. cbn. rewrite !insert_insert_eq.
  do 3 f_equal. rewrite <- append_assoc, Hdb. cbn [joined header_pieces pieces].
  change ("" +:+ "" +:+ ?x) with x. unfold artifact_text. by rewrite !append_assoc.
Qed.

(** ** Reading an artifact *)
Lemma header_line_calm h msg a rest pos :
  calm h -> newline ∉ to_chars a -> is_utf8 a = true ->
  exists pos', header_line msg (BufReader.mk (to_chars a ++ newline :: rest) pos) h =
    (h, Return (Ok (a +:+ nl, BufReader.mk rest pos'))).
Proof.
  intros Hc Ha Hu. eexists. unfold header_line. erewrite and_then_ok; cycle 1.
  { unfold BufReader.read_line. rewrite (bind_return _ _ _ _ _ (next_fault_calm h Hc)). cbn [BufReader.rest].
    rewrite cut_line_cut by done. rewrite of_chars_app, of_to_chars. change (of_chars [newline]) with nl.
    rewrite is_utf8_app by done. reflexivity. }
  cbn [fst]. destruct (String.eqb_spec (a +:+ nl) "") as [E|_]; [by destruct a|]. reflexivity.
Qed.

Lemma artifact_chars nr signature content :
  to_chars (artifact_text nr signature content) =
  to_chars HART_FORMAT_VERSION ++ newline :: to_chars nr ++ newline :: to_chars SIG_HASH_TYPE ++ newline ::
  to_chars (base64_encode signature) ++ newline :: to_chars "" ++ newline :: to_chars content.
Proof. unfold artifact_text. by rewrite !to_chars_app. Qed.

(** The public half of a signature key in the cache. *)
Definition public_sig_stored (h : host) (dir n r : string) (pk : SigPublicKey) : Prop :=
  files h !! mk_key_filename dir (n +:+ "-" +:+ r) PUBLIC_KEY_SUFFIX =
  Some (key_text PUBLIC_SIG_KEY_VERSION (n +:+ "-" +:+ r) (base64_encode (to_bytes pk))).

Lemma public_sig_found h dir n r pk :
  calm h -> file_key_name n -> valid_rev r -> public_sig_stored h dir n r pk ->
  exists sk, SigKeyPair.get_pair_for (n +:+ "-" +:+ r) dir h = (h, Return (Ok (KeyPair.new n r (Some pk) sk))).
Proof.
  intros Hc Hn Hr Hf.
  destruct (key_from_file_any (K := SigSecretKey) h "sig secret" SECRET_SIG_KEY_SUFFIX (n +:+ "-" +:+ r) dir Hc) as [rs E].
  exists (get_ok rs). apply (pair_for_calm _ _ h n r dir (Ok pk) rs); [done..| |exact E|by left].
  eapply key_from_file_calm; [done| |by exists n, r|exact Hf]; apply format_versions.
Qed.

Lemma header_words : trimmed HART_FORMAT_VERSION /\ trimmed SIG_HASH_TYPE /\
  (newline ∉ to_chars HART_FORMAT_VERSION) /\ (newline ∉ to_chars SIG_HASH_TYPE).
Proof.
  split_and!; try (refine (bool_decide_eq_true_1 _ _); vm_compute; reflexivity); split; intros c [= <-]; done.
Qed.

Lemma verify_calm h src dir n r pk signature expected content :
  calm h -> file_key_name n -> valid_rev r -> trimmed (n +:+ "-" +:+ r) -> public_sig_stored h dir n r pk ->
  files h !! src = Some (artifact_text (n +:+ "-" +:+ r) signature content) ->
  sign_verify signature pk = Some expected -> is_utf8 expected = true ->
  verify src dir h = (h, Return (if String.eqb (hash_bytes content) expected then Ok (n +:+ "-" +:+ r, expected)
    else Err (CryptoError ("Habitat artifact is invalid, hashes don't match (expected: " +:+ expected
      +:+ ", computed: " +:+ hash_bytes content +:+ ")")))).
Proof.
  intros Hc Hn Hr Htr Hpk Hsrc Hsig Hu. destruct header_words as (T1 & T2 & N1 & N2).
  assert (key_id (n +:+ "-" +:+ r)) as ([N3 _] & U3 & _)%key_id_facts by (by exists n, r).
  destruct (public_sig_found h dir n r pk Hc Hn Hr Hpk) as [sk Hpair].
  unfold verify. rewrite (and_then_ok _ _ _ _ _ (open_calm h src _ Hc Hsrc)), artifact_chars.
  edestruct (header_line_calm h) as [p1 E1]; [exact Hc|exact N1|done|]. rewrite (and_then_ok _ _ _ _ _ E1). cbn [fst snd].
  rewrite (and_then_ok _ _ h h tt) by (unfold check_version; by rewrite trim_line).
  edestruct (header_line_calm h) as [p2 E2]; [exact Hc|exact N3|done|]. rewrite (and_then_ok _ _ _ _ _ E2). cbn [fst snd].
  rewrite trim_line, (and_then_ok _ _ _ _ _ Hpair) by done.
  edestruct (header_line_calm h) as [p3 E3]; [exact Hc|exact N2|done|]. rewrite (and_then_ok _ _ _ _ _ E3). cbn [fst snd].
  rewrite trim_line, (and_then_ok _ _ h h tt) by done.
  edestruct (header_line_calm h) as [p4 E4]; [exact Hc|apply base64_one_line|apply base64_utf8|].
  rewrite (and_then_ok _ _ _ _ _ E4). cbn [fst snd].
  rewrite trim_line, base64_round_trip, (and_then_ok _ _ h h signature) by (done || apply base64_trimmed).
  destruct (header_line_calm h "Corrupt payload, can't find end of header" "" (to_chars content) p4 Hc
    (not_elem_of_nil _) eq_refl) as [p5 E5].
  rewrite (and_then_ok _ _ _ _ _ E5). cbn [fst snd].
  rewrite (and_then_ok _ _ h h pk) by done. rewrite Hsig, Hu, (and_then_ok _ _ h h expected) by done.
  rewrite (and_then_ok _ _ _ _ _ (hash_reader_calm _ h Hc)). cbn [BufReader.rest]. rewrite of_to_chars.
  by destruct (String.eqb _ _).
Qed.

(** C28: A package that is signed without errors verifies against the public key in the cache, with the
    hash of the package; only the destination is written.  When the archive behind the header is
    replaced, it verifies exactly if the hash of the new one is the same. *)
Theorem signed_artifact_verifies h src dst dir n r pub pk sk seed content :
  calm h -> file_key_name n -> valid_rev r -> trimmed (n +:+ "-" +:+ r) -> sign_gen_keypair seed = (pk, sk) ->
  public_sig_stored h dir n r pk -> dst <> mk_key_filename dir (n +:+ "-" +:+ r) PUBLIC_KEY_SUFFIX ->
  files h !! src = Some content -> src <> dst -> dst ∉ dirs h ->
  exists artifact, let written c := set_files (<[dst := artifact c]> (files h)) h in
    sign src dst (KeyPair.new n r pub (Some sk)) h = (written content, Return (Ok tt)) /\
    verify dst dir (written content) = (written content, Return (Ok (n +:+ "-" +:+ r, hash_bytes content))) /\
    (forall c, is_ok_outcome (verify dst dir (written c)).2 <-> hash_bytes c = hash_bytes content) /\
    exists header, forall c, artifact c = header +:+ c.
Proof.
  intros Hc Hn Hr Htr Hgen Hpk Hdst Hsrc Hne Hd.
  set (nr := n +:+ "-" +:+ r). set (signature := sign_sign (hash_bytes content) sk).
  exists (artifact_text nr signature). cbn zeta.
  assert (forall c, verify dst dir (set_files (<[dst := artifact_text nr signature c]> (files h)) h) =
    (set_files (<[dst := artifact_text nr signature c]> (files h)) h,
     Return (if String.eqb (hash_bytes c) (hash_bytes content) then Ok (nr, hash_bytes content)
      else Err (CryptoError ("Habitat artifact is invalid, hashes don't match (expected: " +:+ hash_bytes content
        +:+ ", computed: " +:+ hash_bytes c +:+ ")"))))) as Hv.
  { intros c. eapply (verify_calm _ dst dir n r pk signature); [done..| | |by apply (verify_sign seed)|apply to_hex_utf8].
    - unfold public_sig_stored in *. cbn. by rewrite lookup_insert_ne.
    - cbn. by rewrite lookup_insert_eq. }
  split_and!.
  - by apply sign_calm.
  - by rewrite Hv, String.eqb_refl.
  - intros c. rewrite Hv. destruct (String.eqb_spec (hash_bytes c) (hash_bytes content)); cbn; naive_solver.
  - eexists. intros c. unfold artifact_text. by rewrite <- !append_assoc.
Qed.

(** ** What verification implies, whatever fails *)
Lemma keeps_files {A} (c : M A) h h' r : keeps (only []) c -> c h = (h', r) -> files h' = files h.
Proof. intros Hk E. apply map_eq. intros p. destruct (Hk h) as [Ho _]. rewrite E in Ho. apply Ho, not_elem_of_nil. Qed.

Lemma open_inv p h h' r : BufReader.open p h = (h', Return (Ok r)) ->
  files h' = files h /\ exists c, files h !! p = Some c /\ r = BufReader.mk (to_chars c) 0.
Proof.
  intros E. split; [by eapply keeps_files; [apply keeps_open|]|].
  unfold BufReader.open, or_io, read_file in E. apply and_then_inv in E as (h1 & c & E & [= _ <-]).
  apply bind_inv in E as (h2 & o & E & Ho). apply bind_inv in E as (h3 & f & Ef & E).
  apply (keeps_files _ _ _ _ (keeps_next_fault _)) in Ef. destruct f; injection E as <- <-; [done|].
  exists c. rewrite Ef in Ho. destruct (files h !! p); [|done]. by injection Ho as _ ->.
Qed.

Lemma header_line_inv msg r h h' l : header_line msg r h = (h', Return (Ok l)) ->
  files h' = files h /\ cut_line (BufReader.rest r) = (to_chars l.1, BufReader.rest l.2).
Proof.
  unfold header_line. intros (h1 & [x r'] & E & E')%and_then_inv. cbn [fst] in E'.
  destruct (String.eqb x ""); [done|]. injection E' as <- <-.
  split; [by eapply keeps_files; [apply keeps_read_line|]|].
  unfold BufReader.read_line in E. apply bind_inv in E as (h2 & f & _ & E).
  destruct (cut_line (BufReader.rest r)) as [w rest]. destruct (f || _); [done|]. injection E as <- <- <-.
  cbn. by rewrite to_of_chars.
Qed.

(** The public key that a key file has. *)
Definition public_key_in_file (h : host) (dir nr : string) (pk : SigPublicKey) : Prop :=
  exists text encoded b, files h !! mk_key_filename dir nr PUBLIC_KEY_SUFFIX = Some text /\
    lines text !! 3%nat = Some encoded /\ base64_decode encoded = Ok b /\ from_slice b = Some pk.

Lemma get_public_key_inv nr dir h h' pk :
  SigKeyPair.get_public_key nr dir h = (h', Return (Ok pk)) -> public_key_in_file h dir nr pk.
Proof.
  unfold SigKeyPair.get_public_key, key_from_file, read_key_bytes, read_to_string.
  intros (h1 & b & (h2 & text & Er & E)%and_then_inv & Ef)%and_then_inv.
  apply and_then_inv in Er as (h3 & c & Er & Eu).
  assert (files h !! mk_key_filename dir nr PUBLIC_KEY_SUFFIX = Some c) as Hc.
  { assert (BufReader.open (mk_key_filename dir nr PUBLIC_KEY_SUFFIX) h = (h3, Return (Ok (BufReader.mk (to_chars c) 0)))) as Eo
      by (unfold BufReader.open; by rewrite (and_then_ok _ _ _ _ _ Er)).
    apply open_inv in Eo as (_ & c' & -> & [= E']). by apply to_chars_inj in E' as ->. }
  apply bind_inv in Eu as (h4 & f & _ & Eu). destruct (f || _); [done|]. injection Eu as <- <-.
  destruct (String.eqb c ""); [done|]. destruct (lines c !! 3%nat) as [encoded|] eqn:El; [|done].
  destruct (base64_decode encoded) as [b'|e] eqn:Eb; [|done]. injection E as <- <-.
  destruct (from_slice b') as [k|] eqn:Es; [|done]. injection Ef as _ ->. by exists c, encoded, b'.
Qed.

Lemma get_pair_for_inv nr dir h h' kp :
  SigKeyPair.get_pair_for nr dir h = (h', Return (Ok kp)) ->
  files h' = files h /\ KeyPair.name_with_rev kp = nr /\
  forall pk, KeyPair.public kp = Some pk -> public_key_in_file h dir nr pk.
Proof.
  intros E. split.
  { eapply keeps_files; [|exact E]. apply keeps_pair_for; intros; apply keeps_key_from_file. }
  unfold SigKeyPair.get_pair_for, pair_for in E. apply and_then_inv in E as (h1 & [n r] & [= <- Hp] & E).
  apply bind_inv in E as (h2 & rp & Ep & E). apply bind_inv in E as (h3 & rs & _ & E).
  apply parse_name_with_rev_ok in Hp as (_ & _ & ->).
  assert (KeyPair.name_with_rev kp = n +:+ "-" +:+ r /\ KeyPair.public kp = get_ok rp) as [-> ->].
  { destruct (get_ok rp), (get_ok rs); [injection E as _ <-; done..|done]. }
  split; [done|]. intros pk Hpk. destruct rp as [pk'|]; [|done]. injection Hpk as ->. by apply get_public_key_inv in Ep.
Qed.

(** The first lines of a text, with their newlines, and the rest. *)
Fixpoint take_lines (n : nat) (l : chars) : list chars * chars :=
  match n with
  | O => ([], l)
  | S n =>
      let (w, rest) := cut_line l in
      let (ws, rest) := take_lines n rest in (w :: ws, rest)
  end.

(** C13: When an artifact verifies, on any machine and with any file operation failing, its header has
    the format version, the name of a key that is in the cache, the hash type and a signature that
    the key opens to the hash of what follows the header; this name and this hash are returned. *)
Theorem verified_artifact_is_signed h h' src dir name hash :
  verify src dir h = (h', Return (Ok (name, hash))) ->
  exists content version key type signature blank archive pk signed,
    files h !! src = Some content /\
    take_lines 5 (to_chars content) = ([to_chars version; to_chars key; to_chars type; to_chars signature; to_chars blank], to_chars archive) /\
    trim version = HART_FORMAT_VERSION /\ trim key = name /\ trim type = SIG_HASH_TYPE /\
    base64_decode (trim signature) = Ok signed /\
    public_key_in_file h dir name pk /\ sign_verify signed pk = Some hash /\ hash_bytes archive = hash.
Proof.
  unfold verify. intros (h1 & r & Eo & E)%and_then_inv. apply open_inv in Eo as (F1 & content & Hc & ->).
  apply and_then_inv in E as (h2 & [l1 r1] & E1 & E). apply header_line_inv in E1 as [F2 C1].
  apply and_then_inv in E as (h3 & [] & Ev & E). unfold check_version in Ev. cbn [fst snd BufReader.rest] in *.
  destruct (String.eqb_spec (trim l1) HART_FORMAT_VERSION) as [Hv|]; [|done]. injection Ev as <-.
  apply and_then_inv in E as (h4 & [l2 r2] & E2 & E). apply header_line_inv in E2 as [F4 C2]. cbn [fst snd] in *.
  apply and_then_inv in E as (h5 & kp & Ek & E). apply get_pair_for_inv in Ek as (F5 & Hname & Hpub).
  apply and_then_inv in E as (h6 & [l3 r3] & E3 & E). apply header_line_inv in E3 as [F6 C3]. cbn [fst snd] in *.
  apply and_then_inv in E as (h7 & [] & Et & E).
  destruct (String.eqb_spec (trim l3) SIG_HASH_TYPE) as [Hty|]; [|done]. injection Et as <-.
  apply and_then_inv in E as (h8 & [l4 r4] & E4 & E). apply header_line_inv in E4 as [F8 C4]. cbn [fst snd] in *.
  apply and_then_inv in E as (h9 & signed & Es & E). destruct (base64_decode (trim l4)) as [b|] eqn:Eb; [|done].
  injection Es as <- <-.
  apply and_then_inv in E as (h10 & [l5 r5] & E5 & E). apply header_line_inv in E5 as [F10 C5]. cbn [fst snd] in *.
  apply and_then_inv in E as (h11 & pk & Ep & E). unfold pure, KeyPair.get_public in Ep.
  destruct (KeyPair.public kp) as [pk'|] eqn:Epk; [|done]. injection Ep as <- <-.
  apply and_then_inv in E as (h12 & expected & Ee & E). destruct (sign_verify b pk') as [m|] eqn:Em; [|done].
  destruct (is_utf8 m); [|done]. injection Ee as <- <-.
  apply and_then_inv in E as (h13 & computed & Ehash & E). apply hash_reader_inv in Ehash.
  destruct (String.eqb_spec computed m) as [Heq|]; [|done]. injection E as _ Hn Hm.
  exists content, l1, l2, l3, l4, l5, (of_chars (BufReader.rest r5)), pk', b. rewrite to_of_chars.
  split; [done|]. split; [cbn [take_lines]; by rewrite C1, C2, C3, C4, C5|]. split; [done|]. split; [congruence|].
  split; [done|]. split; [done|]. split; [|split; congruence].
  specialize (Hpub pk' eq_refl). unfold public_key_in_file in *.
  assert (files h4 = files h) as F by congruence. rewrite F in Hpub. rewrite <- Hn, Hname. exact Hpub.
Qed.
End artifact.
