(* ===== verification/KeyExample.v ===== *)
(** * Keys and artifacts on a concrete machine

    A key cache with two revisions of an origin key and the keys of a service and a user, and the
    theorems on keys and artifacts applied to it. *)

From Stdlib Require Import Ascii.
From S2P Require Import Prelude Regex ServiceGroup Text ByteText Host CryptoLib KeyFiles KeyNames Keys KeyProofs KeyRoundTrips KeySearch Artifact CryptoExample.
Local Open Scope string_scope.
Local Open Scope list_scope.

Module KeyExample.
#[local] Existing Instance reference_engine.
#[local] Existing Instance CryptoExample.lib.
#[local] Existing Instance CryptoExample.laws.

Definition dir : string := "/keys".
Definition k1 : CryptoExample.key := ("a"%char, "b"%char).
Definition k2 : CryptoExample.key := ("c"%char, "d"%char).

Definition text (version nr : string) (k : CryptoExample.key) : string :=
  key_text version nr (base64_encode (CryptoExample.key_bytes k)).

Definition old_pub : string := text PUBLIC_SIG_KEY_VERSION "core-20170101000000" k1.
Definition new_pub : string := text PUBLIC_SIG_KEY_VERSION "core-20180101000000" k2.
Definition user_pub : string := text PUBLIC_BOX_KEY_VERSION "ann-20170101000000" k1.
Definition user_key : string := text SECRET_BOX_KEY_VERSION "ann-20170101000000" k1.
Definition service_key : string := text SECRET_BOX_KEY_VERSION "db.default@acme-20170101000000" k2.

Definition key_files : list (string * string) :=
  [("/keys/core-20170101000000.pub", old_pub); ("/keys/core-20180101000000.pub", new_pub);
   ("/keys/ann-20170101000000.pub", user_pub); ("/keys/ann-20170101000000.box.key", user_key);
   ("/keys/db.default@acme-20170101000000.box.key", service_key); ("/src/pkg.tar", "tape archive")].

Definition machine : host := Host (list_to_map key_files) {["/keys"; "/src"; "/dst"]} ∅ [] ∅ [] [] 0 [].

Lemma machine_file p c : files machine !! p = Some c -> (p, c) ∈ key_files.
Proof. apply elem_of_list_to_map_2. Qed.

Lemma random_unused : unused "zz" machine.
Proof.
  intros q. destruct (files machine !! _) as [c|] eqn:E; [|done]. exfalso. apply machine_file in E.
  assert (forall p, p ∈ key_files.*1 -> last (to_chars p) <> Some "a"%char) as Hl.
  { apply Forall_forall. refine (bool_decide_eq_true_1 _ _). vm_compute. reflexivity. }
  apply (Hl (q +:+ "." +:+ to_hex "zz")); [by apply (list_elem_of_fmap_2 fst) in E|].
  rewrite !to_chars_app. change (to_chars (to_hex "zz")) with (to_chars "7a7a"). by rewrite !last_app.
Qed.

(** A text with another key under the name of an installed one. *)
Definition forged : string := text PUBLIC_SIG_KEY_VERSION "core-20170101000000" k2.

Lemma import_keeps_files_witness :
  unused "zz" machine /\
  files (SigKeyPair.write_file_from_str "zz" forged dir machine).1 !! "/keys/core-20170101000000.pub" = Some old_pub.
Proof.
  split; [exact random_unused|].
  exact (proj1 (proj1 (import_keeps_files "zz" forged dir machine random_unused)
    "/keys/core-20170101000000.pub" old_pub ltac:(vm_compute; reflexivity))).
Defined.

Lemma dir_tidy : tidy dir.
Proof. refine (bool_decide_eq_true_1 _ _). vm_compute. reflexivity. Qed.
Lemma dir_there : dir ∈ dirs machine.
Proof. refine (bool_decide_eq_true_1 _ _). vm_compute. reflexivity. Qed.
Lemma rev_ok : valid_rev "20170101000000".
Proof. refine (bool_decide_eq_true_1 _ _). vm_compute. reflexivity. Qed.
Lemma names_ok : file_key_name "core" /\ file_key_name "unicorn" /\ file_key_name "ann" /\ file_key_name "db.default@acme".
Proof. refine (bool_decide_eq_true_1 _ _). vm_compute. reflexivity. Qed.

Definition unicorn : SigKeyPair.t := KeyPair.new "unicorn" "20170101000000" (Some k1) (Some k2).

#[export] Instance free_dec h p : Decision (free h p).
Proof. unfold free. apply _. Defined.
#[export] Instance room_dec h d nr s random : Decision (room h d nr s random).
Proof. unfold room. apply _. Defined.

Lemma saved_keys_found_witness :
  exists h', SigKeyPair.to_pair_files unicorn dir machine = (h', Return (Ok tt)) /\
    SigKeyPair.get_pair_for "unicorn-20170101000000" dir h' = (h', Return (Ok unicorn)).
Proof.
  apply (proj1 (@saved_keys_found reference_engine CryptoExample.lib CryptoExample.laws machine dir "unicorn" "20170101000000" eq_refl dir_tidy dir_there
    (proj1 (proj2 names_ok)) rev_ok) k1 k2); refine (bool_decide_eq_true_1 _ _); vm_compute; reflexivity.
Defined.

Definition unicorn_pub : string := text PUBLIC_SIG_KEY_VERSION "unicorn-20170101000000" k1.

Lemma sent_key_arrives_witness :
  SigKeyPair.write_file_from_str "zz" unicorn_pub dir machine =
  (set_files (<["/keys/unicorn-20170101000000.pub" := unicorn_pub]> (files machine)) machine,
   Return (Ok (KeyPair.new "unicorn" "20170101000000" (Some k1) None, PairType.Public))).
Proof.
  apply (proj1 (@sent_key_arrives reference_engine CryptoExample.lib CryptoExample.laws machine dir "zz" "unicorn" "20170101000000" eq_refl dir_tidy dir_there
    (proj1 (proj2 names_ok)) rev_ok) k1 (Some k2) unicorn_pub eq_refl).
  - refine (bool_decide_eq_true_1 _ _); vm_compute; reflexivity.
  - vm_compute. reflexivity.
Defined.

Definition ann : BoxKeyPair.t := KeyPair.new "ann" "20170101000000" (Some k1) (Some k1).
Definition db : BoxKeyPair.t := KeyPair.new "db.default@acme" "20170101000000" (Some k2) (Some k2).
Definition sealed : string :=
  match BoxKeyPair.encrypt ann "nn" "attack at dawn" (Some db) with Ok s => s | Err _ => "" end.

Lemma sealed_message_opens_witness :
  BoxKeyPair.decrypt sealed dir machine = (machine, Return (Ok "attack at dawn")).
Proof.
  destruct names_ok as (_ & _ & N1 & N2).
  apply (proj1 (@sealed_message_opens reference_engine CryptoExample.lib CryptoExample.laws machine dir "ann" "20170101000000" "db.default@acme" "20170101000000" k1 k1 k2 k2 "ab" "cd"
    "nn" "attack at dawn" sealed eq_refl N1 rev_ok N2 rev_ok eq_refl eq_refl ltac:(vm_compute; reflexivity))).
  - vm_compute. reflexivity.
  - reflexivity.
Defined.

Lemma machine_names_utf8 x :
  ("/"%char ∉ to_chars x) -> is_Some (files machine !! (dir +:+ "/" +:+ x)) -> is_utf8 x = true.
Proof.
  intros _ [c Hc]. apply machine_file, (list_elem_of_fmap_2 fst) in Hc. revert Hc. cbn [fst].
  assert (forall p, p ∈ key_files.*1 -> forallb is_ascii (to_chars p) = true) as Hp.
  { apply Forall_forall. refine (bool_decide_eq_true_1 _ _). vm_compute. reflexivity. }
  intros H%Hp. apply ascii_is_utf8. rewrite !to_chars_app, !forallb_app in H. by apply andb_prop in H as [_ [_ ?]%andb_prop].
Qed.

Lemma machine_keys_load rev : stored_revision machine dir "core" None KeyType.Sig rev ->
  exists kp, SigKeyPair.get_pair_for ("core" +:+ "-" +:+ rev) dir machine = (machine, Return (Ok kp)).
Proof.
  intros Hrev. destruct (get_key_revisions_spec machine eq_refl dir dir_tidy dir_there "core" None KeyType.Sig machine_names_utf8)
    as (l & E & _ & _ & Hl).
  assert (l = ["core-20180101000000"; "core-20170101000000"]) as ->.
  { assert (get_key_revisions "core" dir None KeyType.Sig machine =
      (machine, Return (Ok ["core-20180101000000"; "core-20170101000000"]))) as E' by (vm_compute; reflexivity).
    rewrite E in E'. by injection E'. }
  assert ("core" +:+ "-" +:+ rev ∈ ["core-20180101000000"; "core-20170101000000"]) as Hin by (apply Hl; eauto).
  apply elem_of_cons in Hin as [->|Hin%list_elem_of_singleton]; [|rewrite Hin]; eexists; vm_compute; reflexivity.
Qed.

Lemma latest_key_found_witness :
  (exists newest kp, stored_revision machine dir "core" None KeyType.Sig newest /\
     (forall rev, stored_revision machine dir "core" None KeyType.Sig rev -> str_leb rev newest = true) /\
     SigKeyPair.get_latest_pair_for "core" dir None machine = (machine, Return (Ok kp)) /\
     SigKeyPair.get_pair_for ("core" +:+ "-" +:+ newest) dir machine = (machine, Return (Ok kp))) \/
  ((forall rev, ~ stored_revision machine dir "core" None KeyType.Sig rev) /\
   exists e, SigKeyPair.get_latest_pair_for "core" dir None machine = (machine, Return (Err e))).
Proof.
  exact (latest_key_found machine dir "core" None eq_refl dir_tidy dir_there machine_names_utf8 machine_keys_load).
Defined.

Definition artifact_of (c : string) : string :=
  artifact_text "core-20170101000000" (sign_sign (hash_bytes "tape archive") k1) c.
Definition signed_machine : host := set_files (<["/dst/pkg.hart" := artifact_of "tape archive"]> (files machine)) machine.

Lemma signed_artifact_verifies_witness :
  exists artifact, let written c := set_files (<["/dst/pkg.hart" := artifact c]> (files machine)) machine in
    sign "/src/pkg.tar" "/dst/pkg.hart" (KeyPair.new "core" "20170101000000" None (Some k1)) machine = (written "tape archive", Return (Ok tt)) /\
    verify "/dst/pkg.hart" dir (written "tape archive") =
      (written "tape archive", Return (Ok ("core" +:+ "-" +:+ "20170101000000", hash_bytes "tape archive"))) /\
    (forall c, is_ok_outcome (verify "/dst/pkg.hart" dir (written c)).2 <-> hash_bytes c = hash_bytes "tape archive") /\
    exists header, forall c, artifact c = header +:+ c.
Proof.
  apply (@signed_artifact_verifies reference_engine CryptoExample.lib CryptoExample.laws machine "/src/pkg.tar" "/dst/pkg.hart" dir "core" "20170101000000" None k1 k1 "ab" "tape archive"
    eq_refl (proj1 names_ok) rev_ok).
  - split; intros c [= <-]; reflexivity.
  - reflexivity.
  - vm_compute. reflexivity.
  - discriminate.
  - vm_compute. reflexivity.
  - discriminate.
  - refine (bool_decide_eq_true_1 _ _). vm_compute. reflexivity.
Defined.

Lemma verified_artifact_is_signed_witness :
  exists content version key type signature blank archive pk signed,
    files signed_machine !! "/dst/pkg.hart" = Some content /\
    take_lines 5 (to_chars content) = ([to_chars version; to_chars key; to_chars type; to_chars signature; to_chars blank], to_chars archive) /\
    trim version = HART_FORMAT_VERSION /\ trim key = "core-20170101000000" /\ trim type = SIG_HASH_TYPE /\
    base64_decode (trim signature) = Ok signed /\
    public_key_in_file signed_machine dir "core-20170101000000" pk /\ sign_verify signed pk = Some (hash_bytes "tape archive") /\
    hash_bytes archive = hash_bytes "tape archive".
Proof.
  apply (@verified_artifact_is_signed reference_engine CryptoExample.lib CryptoExample.laws signed_machine signed_machine "/dst/pkg.hart" dir "core-20170101000000" (hash_bytes "tape archive")).
  vm_compute. reflexivity.
Defined.

(** The name in the text of a key is not checked before its file is written: a text with an absolute
    path is an error, but leaves a file there. *)
Definition escaping : string := text PUBLIC_SIG_KEY_VERSION "/src/job" k1.

Lemma import_escapes_directory :
  let (h, r) := SigKeyPair.write_file_from_str "zz" escaping dir machine in
  files h !! "/src/job.pub" = Some escaping /\
  r = Return (Err (CryptoError "parse_name_with_rev:1 Cannot parse /src/job")).
Proof. vm_compute. split; reflexivity. Qed.

(** A text with a key of the wrong size is an error too, and its file keeps the right key out. *)
Definition short : string := key_text PUBLIC_SIG_KEY_VERSION "unicorn-20170101000000" (base64_encode "a").

Lemma failed_import_blocks_key :
  let (h, r) := SigKeyPair.write_file_from_str "zz" short dir machine in
  let (h', r') := SigKeyPair.write_file_from_str "yy" unicorn_pub dir h in
  is_ok_outcome r = False /\ is_ok_outcome r' = False /\
  files h' !! "/keys/unicorn-20170101000000.pub" = Some short.
Proof. vm_compute. split_and!; reflexivity. Qed.
End KeyExample.
