(* ===== verification/RingCrypto.v ===== *)
(** * The keys of the ring and of services

    The parameters with which the rumors and the wire envelope of the ring are modelled, filled in
    with the keys of [core::crypto]: [SymKey] for [generate_wire] and [unwrap_wire]
    ([components/butterfly/src/message/mod.rs]) and [BoxKeyPair] for the files of a service
    ([components/butterfly/src/rumor/service_file.rs]). *)

From Stdlib Require Import Ascii.
From S2P Require Import Prelude Regex ServiceGroup Text ByteText Messages Rumor Kinds Gossip Host CryptoLib KeyFiles KeyNames Keys KeyProofs KeyRoundTrips CryptoExample KeyExample.
Local Open Scope string_scope.
Local Open Scope list_scope.

Definition text_of (b : bytes) : string := String.string_of_list_byte b.
Definition bytes_of (s : string) : bytes := String.list_byte_of_string s.

#[global] Arguments text_of : simpl never.
#[global] Arguments bytes_of : simpl never.

Lemma text_of_bytes_of s : text_of (bytes_of s) = s.
Proof. apply String.string_of_list_byte_of_string. Qed.
Lemma bytes_of_text_of b : bytes_of (text_of b) = b.
Proof. apply String.list_byte_of_string_of_list_byte. Qed.

Section ring.
  Context `{!RegexEngine} `{L : CryptoLib}.

(** [SymKey::encrypt] and [SymKey::decrypt] on the bytes of messages. *)
Definition ring_encrypt (random : string) (key : SymKey.t) (payload : bytes) : result crypto_error (bytes * bytes) :=
  nc ← SymKey.encrypt key random (text_of payload);
  Ok (bytes_of nc.1, bytes_of nc.2).
Definition ring_decrypt (key : SymKey.t) (nonce payload : bytes) : result crypto_error bytes :=
  m ← SymKey.decrypt key (text_of nonce) (text_of payload);
  Ok (bytes_of m).

(** [BoxKeyPair::encrypt] and [BoxKeyPair::decrypt], where reading the keys changes nothing. *)
Definition box_encrypt (random : string) (user : BoxKeyPair.t) (service : option BoxKeyPair.t) (b : bytes)
    : result crypto_error bytes :=
  c ← BoxKeyPair.encrypt user random (text_of b) service;
  Ok (bytes_of c).
Definition box_decrypt (h : host) (cache_key_path : string) (b : bytes) : result crypto_error bytes :=
  match (BoxKeyPair.decrypt (text_of b) cache_key_path h).2 with
  | Return r => m ← r; Ok (bytes_of m)
  | Panic _ => Err IO
  end.

Context `{!CryptoLaws L}.

Lemma ring_decrypt_encrypt random n r n' r' u u' sk payload :
  exists nonce cipher, ring_encrypt random (KeyPair.new n r u (Some sk)) payload = Ok (nonce, cipher) /\
    ring_decrypt (KeyPair.new n' r' u' (Some sk)) nonce cipher = Ok payload.
Proof.
  unfold ring_encrypt, ring_decrypt, SymKey.encrypt, SymKey.decrypt. cbn. eexists _, _. split; [reflexivity|].
  rewrite !text_of_bytes_of, from_slice_to_bytes, secretbox_open_seal. cbn. by rewrite bytes_of_text_of.
Qed.

(** C29: A ring key that is sent as text and imported by another Supervisor opens the messages that are
    sealed with it: what [generate_wire] makes with the key, [unwrap_wire] turns back into the message
    with the imported one, and a file that a user encrypts for a service group is read with the keys
    in the cache of the service. *)
Theorem delivered_secrets_open h dir n r u sk key_random random (encode_wire : Wire -> bytes) decode_wire payload
    n1 r1 n2 r2 pk1 sk1 pk2 sk2 s1 s2 (f : ServiceFile.t) :
  calm h -> tidy dir -> dir ∈ dirs h -> file_key_name n -> valid_rev r ->
  room h dir (n +:+ "-" +:+ r) SECRET_SYM_KEY_SUFFIX key_random ->
  (forall w, decode_wire (encode_wire w) = Some w) ->
  file_key_name n1 -> valid_rev r1 -> file_key_name n2 -> valid_rev r2 ->
  box_gen_keypair s1 = (pk1, sk1) -> box_gen_keypair s2 = (pk2, sk2) ->
  public_box_stored h dir n1 r1 pk1 -> secret_box_stored h dir n2 r2 sk2 -> sf_encrypted (ServiceFile.deref f) = false ->
  (exists text h' key wire,
     SymKey.to_secret_string (KeyPair.new n r u (Some sk)) = Ok text /\
     SymKey.write_file_from_str key_random text dir h = (h', Return (Ok (key, PairType.Secret))) /\
     generate_wire (ring_encrypt random) encode_wire payload (Some (KeyPair.new n r u (Some sk))) = Ok wire /\
     unwrap_wire ring_decrypt decode_wire wire (Some key) = Ok payload) /\
  (exists f', ServiceFile.encrypt (box_encrypt random (KeyPair.new n1 r1 (Some pk1) (Some sk1))
      (Some (KeyPair.new n2 r2 (Some pk2) (Some sk2)))) f = (f', Ok tt) /\
     ServiceFile.body (box_decrypt h dir) f' = Ok (sf_body (ServiceFile.deref f))).
Proof.
  intros Hc Ht Hin Hn Hr Hroom Hwire Hn1 Hr1 Hn2 Hr2 G1 G2 Hp Hs Hf. split.
  - destruct (sym_key_imported h dir key_random n r u sk) as (text & h' & E & _ & Ei); try done.
    destruct (ring_decrypt_encrypt random n r n r u None sk payload) as (nonce & cipher & E1 & E2).
    exists text, h', (KeyPair.new n r None (Some sk)), (encode_wire (mkWire true nonce cipher)).
    split; [done|]. split; [done|]. unfold generate_wire, unwrap_wire.
    split; [by rewrite E1|]. rewrite Hwire. cbn [wire_nonce wire_payload]. by rewrite E2.
  - set (enc := box_encrypt _ _ _).
    assert (forall b, exists c, enc b = Ok c /\ box_decrypt h dir c = Ok b) as Henc.
    { intros b. unfold enc, box_encrypt, box_decrypt.
      destruct (BoxKeyPair.encrypt _ random (text_of b) _) as [payload'|] eqn:E; [|done].
      eexists. split; [reflexivity|]. rewrite text_of_bytes_of.
      rewrite (proj1 (sealed_message_opens h dir n1 r1 n2 r2 pk1 sk1 pk2 sk2 s1 s2 random (text_of b) payload'
        Hc Hn1 Hr1 Hn2 Hr2 G1 G2 Hp) Hs E). cbn. by rewrite bytes_of_text_of. }
    destruct (Henc (sf_body (ServiceFile.deref f))) as (c & E & Hd).
    unfold ServiceFile.encrypt. rewrite E. eexists. split; [reflexivity|]. unfold ServiceFile.body. cbn. by rewrite Hd.
Qed.
End ring.

Module RingExample.
Import KeyExample.
Definition file : ServiceFile.t := ServiceFile.new "m" (ServiceGroup.mk "db.default") "a.txt" [Byte.x01; Byte.xff].

Lemma delivered_secrets_open_witness :
  exists f', ServiceFile.encrypt (box_encrypt (L := CryptoExample.lib) "nn" ann (Some db)) file = (f', Ok tt) /\
    ServiceFile.body (@box_decrypt reference_engine CryptoExample.lib machine dir) f' = Ok [Byte.x01; Byte.xff].
Proof.
  destruct names_ok as (N1 & _ & N3 & N4).
  apply (@delivered_secrets_open reference_engine CryptoExample.lib CryptoExample.laws machine dir "core" "20170101000000" None k1
    "zz" "nn" simple_encode_wire simple_decode_wire [] "ann" "20170101000000" "db.default@acme" "20170101000000"
    k1 k1 k2 k2 "ab" "cd" file eq_refl dir_tidy dir_there N1 rev_ok).
  - refine (bool_decide_eq_true_1 _ _); vm_compute; reflexivity.
  - exact simple_wire_law.
  - exact N3.
  - exact rev_ok.
  - exact N4.
  - exact rev_ok.
  - reflexivity.
  - reflexivity.
  - vm_compute. reflexivity.
  - vm_compute. reflexivity.
  - reflexivity.
Defined.
End RingExample.
