(* ===== verification/ProtoWire.v ===== *)
(** * Protocol buffers

    What the code that the protobuf compiler generates uses of the protobuf crate: a message on
    the wire is a sequence of numbered fields ([Protobuf], the interface of [CodedOutputStream]
    and [CodedInputStream], with an instance in the documented wire format), and a message type
    writes and merges fields ([MessageStatic]). *)

From S2P Require Import Prelude Regex Ident Text ByteText.
Local Open Scope Z_scope.
Local Open Scope list_scope.

(** ** Fields *)

(** The value of a field, by its wire type; groups are not used. *)
Inductive wire_value :=
| Varint (v : Z)
| Fixed64 (v : Z)
| LengthDelimited (b : bytes)
| Fixed32 (v : Z).

#[export] Instance wire_value_eq_dec : EqDecision wire_value.
Proof. solve_decision. Defined.

Definition field : Type := Z * wire_value.

(** The numbers and values that can be written. *)
Definition writable (f : field) : Prop :=
  1 <= f.1 < 2 ^ 29 /\
  match f.2 with
  | Varint v | Fixed64 v => 0 <= v < 2 ^ 64
  | Fixed32 v => 0 <= v < 2 ^ 32
  | LengthDelimited b => Z.of_nat (length b) < 2 ^ 64
  end.

#[export] Instance writable_dec f : Decision (writable f).
Proof. unfold writable. destruct f as [n []]; cbn; apply _. Defined.

(** The streams of the protobuf crate. *)
Class Protobuf := {
  to_wire : list field -> bytes;
  from_wire : bytes -> option (list field);
}.

(** What is written is read; an empty message has no bytes. *)
Class ProtobufLaws `{Protobuf} := {
  from_to_wire l : Forall writable l -> from_wire (to_wire l) = Some l;
  to_wire_nil : to_wire [] = [];
}.

(** ** Values of fields *)

(** [write_int64], [write_uint64] and the values that are read. *)
Definition write_int64 (v : Z) : wire_value := Varint (v `mod` 2 ^ 64).
Definition read_uint64 (w : wire_value) : option Z := match w with Varint v => Some v | _ => None end.
Definition wrap_i64 (z : Z) : Z := (z + 2 ^ 63) `mod` 2 ^ 64 - 2 ^ 63.
Definition read_int64 (w : wire_value) : option Z := match w with Varint v => Some (wrap_i64 v) | _ => None end.
(** [write_int32] extends the sign to 64 bits, [read_int32] takes the low 32. *)
Definition read_int32 (w : wire_value) : option Z :=
  match w with Varint v => Some ((v + 2 ^ 31) `mod` 2 ^ 32 - 2 ^ 31) | _ => None end.
Definition write_string (s : string) : wire_value := LengthDelimited (String.list_byte_of_string s).
(** A string has to be UTF-8. *)
Definition read_string (w : wire_value) : option string :=
  match w with
  | LengthDelimited b => let s := String.string_of_list_byte b in if is_utf8 s then Some s else None
  | _ => None
  end.
Definition read_bytes (w : wire_value) : option bytes := match w with LengthDelimited b => Some b | _ => None end.

(** An optional field is written when it is set. *)
Definition optional {A} (number : Z) (write : A -> wire_value) (v : option A) : list field :=
  match v with Some a => [(number, write a)] | None => [] end.

(** What a Rust [String] can hold. *)
Definition is_text (s : string) : Prop := is_utf8 s = true /\ Z.of_nat (String.length s) < 2 ^ 64.
Definition is_i64 (z : Z) : Prop := - 2 ^ 63 <= z < 2 ^ 63.
Definition is_i32 (z : Z) : Prop := - 2 ^ 31 <= z < 2 ^ 31.

(** [P] of a value, if there is one. *)
Definition if_set {A} (P : A -> Prop) (o : option A) : Prop := match o with Some a => P a | None => True end.

Lemma read_write_string s : is_text s -> read_string (write_string s) = Some s.
Proof. intros [Hs _]. cbn. by rewrite String.string_of_list_byte_of_string, Hs. Qed.

Lemma read_write_int64 v : is_i64 v -> read_int64 (write_int64 v) = Some v.
Proof.
  intros Hv. cbn. unfold wrap_i64. rewrite Zplus_mod_idemp_l, Z.mod_small; [|unfold is_i64 in Hv; lia].
  f_equal. lia.
Qed.

Lemma read_write_int32 v : is_i32 v -> read_int32 (write_int64 v) = Some v.
Proof.
  intros Hv. cbn. unfold is_i32 in Hv. rewrite <- (Z.add_mod_idemp_l (v `mod` 2 ^ 64)) by done.
  rewrite (Z.mod_mod_divide v (2 ^ 64) (2 ^ 32)) by (by exists (2 ^ 32)).
  rewrite Z.add_mod_idemp_l by done. rewrite Z.mod_small by lia. f_equal. lia.
Qed.

Lemma read_write_uint64 v : is_u64 v -> read_uint64 (write_int64 v) = Some v.
Proof. intros Hv. cbn. f_equal. by apply Z.mod_small. Qed.

Lemma writable_int64 n v : 1 <= n < 2 ^ 29 -> writable (n, write_int64 v).
Proof. intros Hn. split; [done|]. cbn. by apply Z.mod_pos_bound. Qed.

Lemma length_list_byte s : length (String.list_byte_of_string s) = String.length s.
Proof.
  unfold String.list_byte_of_string. rewrite List.length_map.
  induction s as [|c s IH]; cbn; [done|]. by rewrite IH.
Qed.

Lemma writable_string n s : 1 <= n < 2 ^ 29 -> is_text s -> writable (n, write_string s).
Proof. intros Hn [_ Hs]. split; [done|]. cbn. by rewrite length_list_byte. Qed.

Lemma writable_optional {A} n (write : A -> wire_value) o :
  if_set (fun a => writable (n, write a)) o -> Forall writable (optional n write o).
Proof. destruct o; cbn; [by constructor|constructor]. Qed.

Lemma writable_text n o : 1 <= n < 2 ^ 29 -> if_set is_text o -> Forall writable (optional n write_string o).
Proof. intros Hn Ho. apply writable_optional. destruct o; [by apply writable_string|done]. Qed.

(** ** Message types *)

(** [descriptor_name] is the name of the message, [new] has nothing set, [merge_field] is the body
    of the loop of [merge_from] and [write_fields] is [write_to_with_cached_sizes].  Fields that
    are not known are skipped: nobody asks for them.  Writing to a vector does not fail, as all
    fields are optional. *)
Class MessageStatic (T : Type) := {
  descriptor_name : string;
  new : T;
  write_fields : T -> list field;
  merge_field : T -> field -> option T;
  in_range : T -> Prop;
}.

Fixpoint merge_from `{MessageStatic T} (m : T) (l : list field) : option T :=
  match l with
  | [] => Some m
  | f :: l => m ← merge_field m f; merge_from m l
  end.

Definition write_to_bytes `{Protobuf, MessageStatic T} (m : T) : bytes := to_wire (write_fields m).
Definition parse_from_bytes `{Protobuf} T `{MessageStatic T} (b : bytes) : option T :=
  l ← from_wire b; merge_from new l.

(** What a message type gives: what is written can be read and gives the message back, and a
    message in which nothing is set has no fields. *)
Class LawfulMessage (T : Type) `{MessageStatic T} := {
  fields_writable (m : T) : in_range m -> Forall writable (write_fields m);
  merge_write (m : T) : in_range m -> merge_from new (write_fields m) = Some m;
  new_no_fields : write_fields (new : T) = [];
}.

Lemma merge_from_app `{MessageStatic T} (m : T) l1 l2 :
  merge_from m (l1 ++ l2) = (m' ← merge_from m l1; merge_from m' l2).
Proof. revert m. induction l1 as [|f l1 IH]; intros m; [done|]. cbn. destruct (merge_field m f); [apply IH|done]. Qed.

(** One optional field, read back. *)
Lemma merge_optional `{MessageStatic T} {A} (m m' : T) n (write : A -> wire_value) o :
  (o = None -> m' = m) -> (forall a, o = Some a -> merge_field m (n, write a) = Some m') ->
  merge_from m (optional n write o) = Some m'.
Proof. intros Hn Hs. destruct o as [a|]; cbn; [by rewrite (Hs a)|by rewrite Hn]. Qed.

Section messages.
Context `{ProtobufLaws} `{LawfulMessage T}.

Lemma parse_write (m : T) : in_range m -> parse_from_bytes T (write_to_bytes m) = Some m.
Proof.
  intros Hm. unfold parse_from_bytes, write_to_bytes. rewrite from_to_wire by by apply fields_writable.
  by apply merge_write.
Qed.

Lemma from_wire_nil : from_wire [] = Some [].
Proof. rewrite <- to_wire_nil at 1. by apply from_to_wire. Qed.

(** No bytes are a message of every type. *)
Lemma parse_nil : parse_from_bytes T [] = Some new.
Proof. unfold parse_from_bytes. by rewrite from_wire_nil. Qed.

Lemma write_new : write_to_bytes (new : T) = [].
Proof. unfold write_to_bytes. rewrite new_no_fields. apply to_wire_nil. Qed.
End messages.

(** ** The wire format *)
Module WireFormat.
Definition byte_of (z : Z) : Byte.byte := default Byte.x00 (Byte.of_N (Z.to_N z)).
Definition of_byte (b : Byte.byte) : Z := Z.of_N (Byte.to_N b).

Fixpoint varint (n : nat) (v : Z) : bytes :=
  match n with
  | O => []
  | S n => if v <? 128 then [byte_of v] else byte_of (v `mod` 128 + 128) :: varint n (v / 128)
  end.

Fixpoint read_varint (n : nat) (l : bytes) : option (Z * bytes) :=
  match n, l with
  | S n, b :: l =>
      let v := of_byte b in
      if v <? 128 then Some (v, l)
      else '(r, l) ← read_varint n l; Some (v - 128 + 128 * r, l)
  | _, _ => None
  end.

Fixpoint fixed (n : nat) (v : Z) : bytes :=
  match n with O => [] | S n => byte_of (v `mod` 256) :: fixed n (v / 256) end.

Fixpoint read_fixed (n : nat) (l : bytes) : option (Z * bytes) :=
  match n, l with
  | O, _ => Some (0, l)
  | S n, b :: l => '(r, l) ← read_fixed n l; Some (of_byte b + 256 * r, l)
  | S _, [] => None
  end.

Definition read_take (n : Z) (l : bytes) : option (bytes * bytes) :=
  if n <=? Z.of_nat (length l) then Some (take (Z.to_nat n) l, drop (Z.to_nat n) l) else None.

Definition write_field (f : field) : bytes :=
  let key (wire_type : Z) := varint 10 (f.1 * 8 + wire_type) in
  match f.2 with
  | Varint v => key 0 ++ varint 10 v
  | Fixed64 v => key 1 ++ fixed 8 v
  | LengthDelimited b => key 2 ++ varint 10 (Z.of_nat (length b)) ++ b
  | Fixed32 v => key 5 ++ fixed 4 v
  end.

Definition read_field (l : bytes) : option (field * bytes) :=
  '(key, l) ← read_varint 10 l;
  let number := key / 8 in
  match key `mod` 8 with
  | 0 => '(v, l) ← read_varint 10 l; Some ((number, Varint v), l)
  | 1 => '(v, l) ← read_fixed 8 l; Some ((number, Fixed64 v), l)
  | 2 => '(n, l) ← read_varint 10 l; '(b, l) ← read_take n l; Some ((number, LengthDelimited b), l)
  | 5 => '(v, l) ← read_fixed 4 l; Some ((number, Fixed32 v), l)
  | _ => None
  end.

(** A field has a byte or more, so the number of bytes is enough fuel. *)
Fixpoint read_fields (fuel : nat) (l : bytes) : option (list field) :=
  match l, fuel with
  | [], _ => Some []
  | _ :: _, O => None
  | _ :: _, S fuel => '(f, l) ← read_field l; fs ← read_fields fuel l; Some (f :: fs)
  end.

#[global] Instance protobuf : Protobuf := {
  to_wire := fun l => l ≫= write_field;
  from_wire := fun b => read_fields (length b) b;
}.

Lemma of_byte_of z : 0 <= z < 256 -> of_byte (byte_of z) = z.
Proof.
  intros Hz. unfold of_byte, byte_of. destruct (Byte.of_N (Z.to_N z)) as [b|] eqn:Hb.
  - apply Byte.to_of_N in Hb. cbn. rewrite Hb. lia.
  - apply Byte.of_N_None_iff in Hb. lia.
Qed.

Lemma read_varint_app n v l : 0 <= v < 128 ^ Z.of_nat n -> (0 < n)%nat -> read_varint n (varint n v ++ l) = Some (v, l).
Proof.
  revert v. induction n as [|n IH]; intros v Hv Hn; [lia|]. cbn [varint]. destruct (Z.ltb_spec v 128) as [Hs|Hs].
  - cbn. rewrite of_byte_of by lia. by rewrite (proj2 (Z.ltb_lt v 128) Hs).
  - pose proof (Z.mod_pos_bound v 128 ltac:(lia)) as Hm. cbn. rewrite of_byte_of by lia.
    destruct (Z.ltb_spec (v `mod` 128 + 128) 128) as [?|_]; [lia|].
    rewrite Nat2Z.inj_succ, Z.pow_succ_r in Hv by lia.
    rewrite IH; [|split; [by apply Z.div_pos; lia|by apply Z.div_lt_upper_bound; lia]|].
    + cbn. do 2 f_equal. rewrite (Z.div_mod v 128) at 3 by lia. lia.
    + destruct n; [cbn in Hv; lia|lia].
Qed.

Lemma read_fixed_app n v l : 0 <= v < 256 ^ Z.of_nat n -> read_fixed n (fixed n v ++ l) = Some (v, l).
Proof.
  revert v. induction n as [|n IH]; intros v Hv; [cbn in *; do 2 f_equal; lia|].
  rewrite Nat2Z.inj_succ, Z.pow_succ_r in Hv by lia. pose proof (Z.mod_pos_bound v 256 ltac:(lia)) as Hm.
  cbn. rewrite IH; [|split; [by apply Z.div_pos; lia|by apply Z.div_lt_upper_bound; lia]].
  cbn. rewrite of_byte_of by lia. do 2 f_equal. rewrite (Z.div_mod v 256) at 3 by lia. lia.
Qed.

Lemma read_take_app b l : read_take (Z.of_nat (length b)) (b ++ l) = Some (b, l).
Proof.
  unfold read_take. rewrite (proj2 (Z.leb_le _ _)) by (rewrite length_app; lia).
  by rewrite Nat2Z.id, take_app_length, drop_app_length.
Qed.

#[local] Arguments varint : simpl never.
#[local] Arguments read_varint : simpl never.
#[local] Arguments fixed : simpl never.
#[local] Arguments read_fixed : simpl never.

Lemma read_key n t l : 1 <= n < 2 ^ 29 -> 0 <= t < 8 ->
  read_varint 10 (varint 10 (n * 8 + t) ++ l) = Some (n * 8 + t, l) /\ (n * 8 + t) / 8 = n /\ (n * 8 + t) `mod` 8 = t.
Proof.
  intros Hn Ht. split; [apply read_varint_app; lia|].
  split; [rewrite Z.div_add_l by lia; rewrite (Z.div_small t) by lia; lia|].
  rewrite Z.add_comm, Z.mod_add by lia. by apply Z.mod_small.
Qed.

Lemma read_write_field f l : writable f -> read_field (write_field f ++ l) = Some (f, l).
Proof.
  destruct f as [n w]. intros [Hn Hw]. cbn in Hn, Hw. unfold write_field, read_field. cbn [fst snd].
  destruct w as [v|v|b|v]; rewrite <- !(assoc_L (++)).
  - destruct (read_key n 0 (varint 10 v ++ l) Hn ltac:(lia)) as (-> & Hd & Hm). cbn.
    rewrite Hd, Hm, read_varint_app by lia. done.
  - destruct (read_key n 1 (fixed 8 v ++ l) Hn ltac:(lia)) as (-> & Hd & Hm). cbn.
    rewrite Hd, Hm. rewrite (read_fixed_app 8 v l) by (cbn; lia). done.
  - destruct (read_key n 2 (varint 10 (Z.of_nat (length b)) ++ b ++ l) Hn ltac:(lia)) as (-> & Hd & Hm). cbn.
    rewrite Hd, Hm, read_varint_app by lia. cbn. by rewrite read_take_app.
  - destruct (read_key n 5 (fixed 4 v ++ l) Hn ltac:(lia)) as (-> & Hd & Hm). cbn.
    rewrite Hd, Hm. rewrite (read_fixed_app 4 v l) by (cbn; lia). done.
Qed.

Lemma write_field_not_empty f : exists b l, write_field f = b :: l.
Proof.
  destruct f as [n w]. unfold write_field. cbn [fst snd].
  assert (forall v, exists b l, varint 10 v = b :: l) as Hv.
  { intros v. unfold varint. destruct (v <? 128); eauto. }
  destruct w as [v|v|s|v]; [destruct (Hv (n * 8 + 0)) as (b & l & ->)|destruct (Hv (n * 8 + 1)) as (b & l & ->)
    |destruct (Hv (n * 8 + 2)) as (b & l & ->)|destruct (Hv (n * 8 + 5)) as (b & l & ->)]; cbn; eauto.
Qed.

Lemma read_write_fields fuel l : (length (l ≫= write_field) <= fuel)%nat -> Forall writable l ->
  read_fields fuel (l ≫= write_field) = Some l.
Proof.
  revert fuel. induction l as [|f l IH]; intros fuel Hf Hl; [by destruct fuel|].
  apply Forall_cons in Hl as [Hw Hl]. cbn in *. rewrite length_app in Hf.
  pose proof (read_write_field f (l ≫= write_field) Hw) as Hr.
  destruct (write_field_not_empty f) as (b & t & Hb). rewrite Hb in Hr, Hf |- *. cbn [app length] in *.
  destruct fuel as [|fuel]; [lia|]. cbn [read_fields]. rewrite Hr. cbn. rewrite IH by (done || lia). done.
Qed.

(** Numbers take few bytes. *)
Lemma length_varint n v : (length (varint n v) <= n)%nat.
Proof. revert v. induction n as [|n IH]; intros v; [done|]. unfold varint; fold varint. destruct (v <? 128); cbn; [lia|]. specialize (IH (v / 128)). lia. Qed.

Lemma length_numbers (l : list field) : Forall (fun f => exists v, f.2 = Varint v) l -> (length (l ≫= write_field) <= 20 * length l)%nat.
Proof.
  induction l as [|[n w] l IH]; intros Hl; [done|]. apply Forall_cons in Hl as [[v Hv] Hl]. cbn in Hv. subst w.
  cbn [mbind list_bind]. change (mbind write_field l) with (l ≫= write_field). rewrite length_app.
  unfold write_field at 1. cbn [fst snd]. rewrite length_app. pose proof (length_varint 10 (n * 8 + 0)). pose proof (length_varint 10 v).
  specialize (IH Hl). cbn [length]. lia.
Qed.

#[global] Instance protobuf_laws : ProtobufLaws.
Proof. split; [intros l Hl; by apply read_write_fields|done]. Qed.
End WireFormat.
