(* ===== verification/LauncherOs.v ===== *)
(** * The machine of the Launcher

    What the Launcher ([components/launcher]) asks of the operating system: processes and their
    groups, signals, waiting, the clock and the channel to the Supervisor; and the signals it
    catches itself ([core/src/os/process], [core/src/os/signals/unix.rs]).

    A system call is a step on the state of the machine.  What the Launcher cannot foresee is part
    of that state: before each call other things happen ([happens]: processes end, others are
    born, signals and messages arrive), and the answers of the machine to come are lists. *)

From S2P Require Import Prelude.
Local Open Scope Z_scope.
Local Open Scope string_scope.
Local Open Scope list_scope.

(** The cast of a 64 or 32-bit integer to [i32], as [pid_t] is. *)
Definition wrap_i32 (z : Z) : Z := (z + 2 ^ 31) `mod` 2 ^ 32 - 2 ^ 31.

Lemma wrap_i32_id z : - 2 ^ 31 <= z < 2 ^ 31 -> wrap_i32 z = z.
Proof. intros Hz. unfold wrap_i32. rewrite Z.mod_small by lia. lia. Qed.

Lemma wrap_i32_range z : - 2 ^ 31 <= wrap_i32 z < 2 ^ 31.
Proof. unfold wrap_i32. pose proof (Z.mod_pos_bound (z + 2 ^ 31) (2 ^ 32) ltac:(lia)). lia. Qed.

(** ** Signals ([core/src/os/process]) *)
Module Signal.
Inductive t := INT | ILL | ABRT | FPE | KILL | SEGV | TERM | HUP | QUIT | ALRM | USR1 | USR2.

#[global] Instance eq_dec : EqDecision t.
Proof. solve_decision. Defined.

(** [From<i32> for Signal] and [From<Signal> for i32]. *)
Definition from_i32 (val : Z) : t :=
  match val with
  | 1 => HUP | 2 => INT | 3 => QUIT | 4 => ILL | 6 => ABRT | 8 => FPE | 9 => KILL | 10 => USR1
  | 11 => SEGV | 12 => USR2 | 14 => ALRM | 15 => TERM | _ => KILL
  end.

Definition into_i32 (value : t) : Z :=
  match value with
  | HUP => 1 | INT => 2 | QUIT => 3 | ILL => 4 | ABRT => 6 | FPE => 8 | KILL => 9 | USR1 => 10
  | SEGV => 11 | USR2 => 12 | ALRM => 14 | TERM => 15
  end.

(** [OsSignal] on Linux, with the numbers of [libc]. *)
Definition from_signal_code (code : Z) : option t :=
  match code with
  | 2 => Some INT | 4 => Some ILL | 6 => Some ABRT | 8 => Some FPE | 9 => Some KILL
  | 11 => Some SEGV | 15 => Some TERM | _ => None
  end.

Definition os_signal (self : t) : Z :=
  match self with
  | INT => 2 | ILL => 4 | ABRT => 6 | FPE => 8 | KILL => 9 | SEGV => 11 | TERM => 15
  | HUP => 1 | QUIT => 3 | ALRM => 14 | USR1 => 10 | USR2 => 12
  end.
End Signal.

(** ** Processes *)

(** [std::process::Command], as far as it is used: [own_group] is [before_exec(owned_pgid)]. *)
Record Command := mkCommand {
  program : string;
  arguments : list string;
  envs : list (string * string);
  set_uid : option Z;
  set_gid : option Z;
  own_group : bool;
}.

(** A process that runs has been sent a signal that it cannot survive or not; one that has ended
    keeps its status until its parent asks for it. *)
Inductive pstate := Running (killed : bool) | Exited (status : Z).

(** [started] is the command of a process that the Launcher has started. *)
Record proc := Proc {
  started : option Command;
  pgid : Z;
  uid : Z;
  state : pstate;
}.

Definition set_state (s : pstate) (p : proc) : proc := Proc (started p) (pgid p) (uid p) s.

(** What can happen before a system call. *)
Inductive event :=
| Exit (pid : Z) (status : Z)          (* a process ends *)
| Born (pid : Z) (group uid : Z)       (* somebody else starts a process *)
| Vanish (pid : Z)                     (* somebody else waits for a process that has ended *)
| Raise (code : Z)                     (* a signal that the Launcher catches *)
| Says (message : bytes).              (* a message of the Supervisor *)

(** The answers to come: of [fork] and [exec] ([None] an error, or the number of the process and
    whether [setpgid] worked), the status with which a process ends that is waited for, how much
    time passes between two readings of the clock, and whether operations on channels succeed. *)
Record future := Future {
  happens : list (list event);
  forks : list (option (Z * bool));
  ends : list Z;
  elapsed : list Z;
  sends : list bool;
  pipes : list (option string);
  accepts : list (option bytes);
  connects : list bool;
}.

(** [sent] has the signals that were sent: to whom, which, and whether that was, or is the group
    of, a process of the Launcher that it has not waited for. *)
Record os := Os {
  procs : gmap Z proc;
  clock : Z;
  inbox : list bytes;
  outbox : list bytes;
  sent : list (Z * Signal.t * bool);
  caught : bool;
  signal_code : Z;
  my_group : Z;
  my_uid : Z;
  coming : future;
}.

Definition set_procs (m : gmap Z proc) (o : os) : os :=
  Os m (clock o) (inbox o) (outbox o) (sent o) (caught o) (signal_code o) (my_group o) (my_uid o) (coming o).
Definition set_clock (t : Z) (o : os) : os :=
  Os (procs o) t (inbox o) (outbox o) (sent o) (caught o) (signal_code o) (my_group o) (my_uid o) (coming o).
Definition set_inbox (l : list bytes) (o : os) : os :=
  Os (procs o) (clock o) l (outbox o) (sent o) (caught o) (signal_code o) (my_group o) (my_uid o) (coming o).
Definition set_outbox (l : list bytes) (o : os) : os :=
  Os (procs o) (clock o) (inbox o) l (sent o) (caught o) (signal_code o) (my_group o) (my_uid o) (coming o).
Definition set_sent (l : list (Z * Signal.t * bool)) (o : os) : os :=
  Os (procs o) (clock o) (inbox o) (outbox o) l (caught o) (signal_code o) (my_group o) (my_uid o) (coming o).
Definition set_signal (c : bool) (code : Z) (o : os) : os :=
  Os (procs o) (clock o) (inbox o) (outbox o) (sent o) c code (my_group o) (my_uid o) (coming o).
Definition set_coming (f : future) (o : os) : os :=
  Os (procs o) (clock o) (inbox o) (outbox o) (sent o) (caught o) (signal_code o) (my_group o) (my_uid o) f.

(** ** Computations: a call can block for ever *)
Inductive comp (A : Type) := Done (a : A) | Blocks.
Arguments Done {A} a.
Arguments Blocks {A}.

Definition L (A : Type) : Type := os -> os * comp A.

#[export] Instance L_ret : MRet L := fun _ a o => (o, Done a).
#[export] Instance L_bind : MBind L := fun _ _ k c o =>
  match c o with
  | (o, Done a) => k a o
  | (o, Blocks) => (o, Blocks)
  end.

Definition gets {A} (f : os -> A) : L A := fun o => (o, Done (f o)).
Definition modifies (f : os -> os) : L unit := fun o => (f o, Done tt).
(** An operation that gives the state after it and an answer. *)
Definition answers {A} (f : os -> os * A) : L A := fun o => let (o, a) := f o in (o, Done a).
Definition blocks {A} : L A := fun o => (o, Blocks).

(** A number that a new process can get: none that is in use for a process or for a group. *)
Definition free_pid (p : Z) (o : os) : bool :=
  bool_decide (1 < p < 2 ^ 31 /\ procs o !! p = None /\ p <> my_group o /\
               map_Forall (fun _ pr => pgid pr <> p) (procs o)).

(** A group a new process can be in: its own, or one that there is. *)
Definition usable_group (p g : Z) (o : os) : bool :=
  bool_decide (g = p \/ g = my_group o \/ ~ map_Forall (fun _ pr => pgid pr <> g) (procs o)).

(** [handle_signal] of [signals/unix.rs]. *)
Definition handle_signal (code : Z) (o : os) : os := set_signal true code o.

Definition apply_event (e : event) (o : os) : os :=
  match e with
  | Exit p status =>
      match procs o !! p with
      | Some pr => match state pr with
                   | Running _ => set_procs (<[p := set_state (Exited status) pr]> (procs o)) o
                   | Exited _ => o
                   end
      | None => o
      end
  | Born p g u =>
      if free_pid p o && usable_group p g o
      then set_procs (<[p := Proc None g u (Running false)]> (procs o)) o else o
  | Vanish p =>
      match procs o !! p with
      | Some (Proc None _ _ (Exited _)) => set_procs (delete p (procs o)) o
      | _ => o
      end
  | Raise code => handle_signal code o
  | Says m => set_inbox (inbox o ++ [m]) o
  end.

Definition set_happens (l : list (list event)) (f : future) : future :=
  Future l (forks f) (ends f) (elapsed f) (sends f) (pipes f) (accepts f) (connects f).
Definition set_forks (l : list (option (Z * bool))) (f : future) : future :=
  Future (happens f) l (ends f) (elapsed f) (sends f) (pipes f) (accepts f) (connects f).
Definition set_ends (l : list Z) (f : future) : future :=
  Future (happens f) (forks f) l (elapsed f) (sends f) (pipes f) (accepts f) (connects f).
Definition set_elapsed (l : list Z) (f : future) : future :=
  Future (happens f) (forks f) (ends f) l (sends f) (pipes f) (accepts f) (connects f).
Definition set_sends (l : list bool) (f : future) : future :=
  Future (happens f) (forks f) (ends f) (elapsed f) l (pipes f) (accepts f) (connects f).
Definition set_pipes (l : list (option string)) (f : future) : future :=
  Future (happens f) (forks f) (ends f) (elapsed f) (sends f) l (accepts f) (connects f).
Definition set_accepts (l : list (option bytes)) (f : future) : future :=
  Future (happens f) (forks f) (ends f) (elapsed f) (sends f) (pipes f) l (connects f).
Definition set_connects (l : list bool) (f : future) : future :=
  Future (happens f) (forks f) (ends f) (elapsed f) (sends f) (pipes f) (accepts f) l.

(** What happens before the next call. *)
Definition happen : L unit := modifies (fun o =>
  match happens (coming o) with
  | [] => o
  | now :: l => foldl (fun o e => apply_event e o) (set_coming (set_happens l (coming o)) o) now
  end).

(** ** System calls *)

(** Whether [kill] to this target reaches a process, or the group of a process, that the Launcher
    has started and not yet waited for. *)
Definition is_own (target : Z) (o : os) : bool :=
  match procs o !! Z.abs target with
  | Some pr => bool_decide (is_Some (started pr))
  | None => false
  end.

(** Whether [kill(target)] is meant for this process. *)
Definition targeted (target : Z) (o : os) (p : Z) (pr : proc) : bool :=
  if bool_decide (0 < target) then bool_decide (p = target)
  else if bool_decide (target = 0) then bool_decide (pgid pr = my_group o)
  else if bool_decide (target = -1) then true
  else bool_decide (pgid pr = - target).

(** The super user may signal every process, others those of their own. *)
Definition permitted (o : os) (pr : proc) : bool := bool_decide (my_uid o = 0 \/ uid pr = my_uid o).

Definition deliver (s : Signal.t) (pr : proc) : proc :=
  match s, state pr with
  | Signal.KILL, Running _ => set_state (Running true) pr
  | _, _ => pr
  end.

(** Who gets a signal. *)
Definition receives (target : Z) (o : os) (p : Z) (pr : proc) : bool := targeted target o p pr && permitted o pr.

(** [core::os::process::signal] over [kill(2)]: an error when nobody gets the signal.  A process
    that has ended and not been waited for can still be signalled. *)
Definition signal (target : Z) (s : Signal.t) : L bool :=
  _ ← happen;
  hit ← gets (fun o => bool_decide (~ map_Forall (fun p pr => receives target o p pr = false) (procs o)));
  if hit : bool then
    _ ← modifies (fun o => set_sent (sent o ++ [(target, s, is_own target o)])
          (set_procs (map_imap (fun p pr => Some (if receives target o p pr then deliver s pr else pr)) (procs o)) o));
    mret true
  else mret false.

(** [is_alive]: the signal [0] finds somebody, whether it may be sent or not. *)
Definition is_alive (p : Z) (o : os) : bool := bool_decide (~ map_Forall (fun q pr => targeted p o q pr = false) (procs o)).

(** [getpgid]: the group of a process, also of one that has ended; [-1] is an error. *)
Definition getpgid (p : Z) : L Z :=
  _ ← happen;
  gets (fun o => match procs o !! p with Some pr => pgid pr | None => -1 end).

(** What [waitpid] answers: [0], [-1] (not a child), or the status of the process, which is gone. *)
Inductive wait_answer := NotYet | NoChild | Ended (status : Z).

Definition reap (p : Z) : L unit := modifies (fun o => set_procs (delete p (procs o)) o).

(** A process that was killed ends; another one that is waited for ends or does not. *)
Definition killed_status : Z := 9.
Definition next_end : L Z :=
  answer ← gets (fun o => ends (coming o));
  match answer with
  | [] => blocks
  | s :: l => _ ← modifies (fun o => set_coming (set_ends l (coming o)) o); mret s
  end.

(** [waitpid(pid)] for one process, with [WNOHANG] or without.  It is not interrupted: the
    handlers are set with [signal(3)], which restarts calls. *)
Definition waitpid (p : Z) (nohang : bool) : L wait_answer :=
  _ ← happen;
  found ← gets (fun o => procs o !! p);
  match found with
  | Some (Proc (Some _) _ _ (Exited s)) => _ ← reap p; mret (Ended s)
  | Some (Proc (Some _) _ _ (Running killed)) =>
      if nohang then mret NotYet
      else s ← (if killed : bool then mret killed_status else next_end);
           _ ← reap p; mret (Ended s)
  | _ => mret NoChild
  end.

(** [SteadyTime::now], in nanoseconds.  The clock does not go back, and the time between two
    readings is as long as [elapsed] says; after the readings it lists, much time passes. *)
Definition now : L Z :=
  _ ← happen;
  answers (fun o => match elapsed (coming o) with
    | [] => let t := clock o + 8 * 10 ^ 9 in (set_clock t o, t)
    | d :: l => let t := clock o + Z.max 0 d in (set_clock t (set_coming (set_elapsed l (coming o)) o), t)
    end).

(** [Command::spawn]: the number of the new process, or an error. *)
Definition spawn (c : Command) : L (option Z) :=
  _ ← happen;
  answer ← answers (fun o => match forks (coming o) with
    | [] => (o, None)
    | a :: l => (set_coming (set_forks l (coming o)) o, a)
    end);
  match answer with
  | None => mret None
  | Some (p, grouped) =>
      free ← gets (free_pid p);
      if free : bool then
        _ ← modifies (fun o => set_procs (<[p := Proc (Some c) (if own_group c && grouped then p else my_group o)
                                               (default (my_uid o) (set_uid c)) (Running false)]> (procs o)) o);
        mret (Some p)
      else mret None
  end.

(** ** Channels *)
Definition tx_send (m : bytes) : L bool :=
  _ ← happen;
  answers (fun o => match sends (coming o) with
    | false :: l => (set_coming (set_sends l (coming o)) o, false)
    | true :: l => (set_outbox (outbox o ++ [m]) (set_coming (set_sends l (coming o)) o), true)
    | [] => (set_outbox (outbox o ++ [m]) o, true)
    end).

Definition try_recv : L (option bytes) :=
  _ ← happen;
  answers (fun o => match inbox o with
    | [] => (o, None)
    | m :: l => (set_inbox l o, Some m)
    end).

(** [IpcOneShotServer::new]: the name of a pipe. *)
Definition new_pipe : L (option string) :=
  _ ← happen;
  answers (fun o => match pipes (coming o) with
    | [] => (o, None)
    | a :: l => (set_coming (set_pipes l (coming o)) o, a)
    end).

(** [IpcOneShotServer::accept], which waits for a first message: what the Supervisor sends after
    it comes to a new [inbox]. *)
Definition accept : L (option bytes) :=
  _ ← happen;
  arrived ← gets (fun o => accepts (coming o));
  match arrived with
  | [] => blocks
  | None :: l => _ ← modifies (fun o => set_coming (set_accepts l (coming o)) o); mret None
  | Some m :: l => _ ← modifies (fun o => set_inbox [] (set_coming (set_accepts l (coming o)) o)); mret (Some m)
  end.

(** [IpcSender::connect]: what is sent goes to a new [outbox]. *)
Definition connect (pipe : string) : L bool :=
  _ ← happen;
  answers (fun o => match connects (coming o) with
    | false :: l => (set_coming (set_connects l (coming o)) o, false)
    | true :: l => (set_outbox [] (set_coming (set_connects l (coming o)) o), true)
    | [] => (set_outbox [] o, true)
    end).

(** ** The signals of the Launcher ([core/src/os/signals/unix.rs]) *)
Module SignalEvent.
Inductive t := Shutdown | Passthrough (s : Signal.t).
End SignalEvent.

(** The signals [set_signal_handlers] sets the handler for. *)
Definition handled_signals : list Signal.t :=
  [Signal.HUP; Signal.INT; Signal.QUIT; Signal.ALRM; Signal.TERM; Signal.USR1; Signal.USR2].

(** [signals::init]: the handlers are set, and what was caught before is forgotten. *)
Definition signals_init : L unit := _ ← happen; modifies (set_signal false 0).

Definition check_for_signal : L (option SignalEvent.t) :=
  _ ← happen;
  is_caught ← gets caught;
  if is_caught : bool then
    code ← gets signal_code;
    match Signal.from_signal_code code with
    | Some Signal.INT | Some Signal.TERM => mret (Some SignalEvent.Shutdown)
    | Some s => _ ← modifies (set_signal false 0); mret (Some (SignalEvent.Passthrough s))
    | None => mret None
    end
  else mret None.
