(* ===== verification/LauncherProto.v ===== *)
(** * The protocol between the Launcher and the Supervisor

    Models [components/launcher-protocol]: the messages as [src/message] declares, writes and
    merges them, and [NetTxn] of [src/lib.rs]; and the side of the Supervisor,
    [components/launcher-client/src/client.rs]. *)

From S2P Require Import Prelude Regex Ident Text ByteText ProtoWire LauncherOs.
Local Open Scope Z_scope.
Local Open Scope string_scope.
Local Open Scope list_scope.

(** ** Messages ([message/error.rs], [launcher.rs], [net.rs], [supervisor.rs]) *)

Module ErrCode.
Inductive t := Unknown | GroupNotFound | UserNotFound | ExecWait | NoPID.
#[global] Instance eq_dec : EqDecision t.
Proof. solve_decision. Defined.
Definition value (self : t) : Z :=
  match self with Unknown => 0 | GroupNotFound => 1 | UserNotFound => 2 | ExecWait => 3 | NoPID => 4 end.
Definition from_i32 (v : Z) : option t :=
  match v with
  | 0 => Some Unknown | 1 => Some GroupNotFound | 2 => Some UserNotFound | 3 => Some ExecWait | 4 => Some NoPID
  | _ => None
  end.
End ErrCode.

Module ShutdownMethod.
Inductive t := AlreadyExited | GracefulTermination | Killed.
#[global] Instance eq_dec : EqDecision t.
Proof. solve_decision. Defined.
Definition value (self : t) : Z := match self with AlreadyExited => 0 | GracefulTermination => 1 | Killed => 2 end.
Definition from_i32 (v : Z) : option t :=
  match v with 0 => Some AlreadyExited | 1 => Some GracefulTermination | 2 => Some Killed | _ => None end.
Definition to_string (self : t) : string :=
  match self with AlreadyExited => "Already Exited" | GracefulTermination => "Graceful Termination" | Killed => "Killed" end.
End ShutdownMethod.

Module NetErr.
Record t := mk { code : option ErrCode.t; msg : option string }.
Definition get_code (self : t) : ErrCode.t := default ErrCode.Unknown (code self).
Definition get_msg (self : t) : string := default "" (msg self).
Definition merge (self : t) (f : field) : option t :=
  let '(n, w) := f in
  match n with
  | 1 => v ← read_int32 w; e ← ErrCode.from_i32 v; Some (mk (Some e) (msg self))
  | 2 => s ← read_string w; Some (mk (code self) (Some s))
  | _ => Some self
  end.
Definition fields (self : t) : list field :=
  optional 1 (fun e => write_int64 (ErrCode.value e)) (code self) ++ optional 2 write_string (msg self).
#[global] Instance message : MessageStatic t := {
  descriptor_name := "NetErr"; new := mk None None; write_fields := fields; merge_field := merge;
  in_range self := if_set is_text (msg self);
}.
End NetErr.

(** [NetOk] and [Shutdown] have no fields. *)
Module NetOk.
Record t := mk {}.
Definition merge (self : t) (f : field) : option t := Some self.
Definition fields (self : t) : list field := [].
#[global] Instance message : MessageStatic t := {
  descriptor_name := "NetOk"; new := mk; write_fields := fields; merge_field := merge; in_range _ := True;
}.
End NetOk.

Module Shutdown.
Record t := mk {}.
Definition merge (self : t) (f : field) : option t := Some self.
Definition fields (self : t) : list field := [].
#[global] Instance message : MessageStatic t := {
  descriptor_name := "Shutdown"; new := mk; write_fields := fields; merge_field := merge; in_range _ := True;
}.
End Shutdown.

Module Register.
Record t := mk { pipe : option string }.
Definition get_pipe (self : t) : string := default "" (pipe self).
Definition merge (self : t) (f : field) : option t :=
  let '(n, w) := f in match n with 1 => s ← read_string w; Some (mk (Some s)) | _ => Some self end.
Definition fields (self : t) : list field := optional 1 write_string (pipe self).
#[global] Instance message : MessageStatic t := {
  descriptor_name := "Register"; new := mk None; write_fields := fields; merge_field := merge;
  in_range self := if_set is_text (pipe self);
}.
End Register.

(** Messages with the number of a process. *)
Module Restart.
Record t := mk { pid : option Z }.
Definition get_pid (self : t) : Z := default 0 (pid self).
Definition merge (self : t) (f : field) : option t :=
  let '(n, w) := f in match n with 1 => v ← read_int64 w; Some (mk (Some v)) | _ => Some self end.
Definition fields (self : t) : list field := optional 1 write_int64 (pid self).
#[global] Instance message : MessageStatic t := {
  descriptor_name := "Restart"; new := mk None; write_fields := fields; merge_field := merge;
  in_range self := if_set is_i64 (pid self);
}.
End Restart.

Module SpawnOk.
Record t := mk { pid : option Z }.
Definition get_pid (self : t) : Z := default 0 (pid self).
Definition merge (self : t) (f : field) : option t :=
  let '(n, w) := f in match n with 1 => v ← read_int64 w; Some (mk (Some v)) | _ => Some self end.
Definition fields (self : t) : list field := optional 1 write_int64 (pid self).
#[global] Instance message : MessageStatic t := {
  descriptor_name := "SpawnOk"; new := mk None; write_fields := fields; merge_field := merge;
  in_range self := if_set is_i64 (pid self);
}.
End SpawnOk.

Module Terminate.
Record t := mk { pid : option Z }.
Definition get_pid (self : t) : Z := default 0 (pid self).
Definition merge (self : t) (f : field) : option t :=
  let '(n, w) := f in match n with 1 => v ← read_int64 w; Some (mk (Some v)) | _ => Some self end.
Definition fields (self : t) : list field := optional 1 write_int64 (pid self).
#[global] Instance message : MessageStatic t := {
  descriptor_name := "Terminate"; new := mk None; write_fields := fields; merge_field := merge;
  in_range self := if_set is_i64 (pid self);
}.
End Terminate.

Module TerminateOk.
Record t := mk { exit_code : option Z; shutdown_method : option ShutdownMethod.t }.
Definition get_exit_code (self : t) : Z := default 0 (exit_code self).
Definition get_shutdown_method (self : t) : ShutdownMethod.t := default ShutdownMethod.AlreadyExited (shutdown_method self).
Definition merge (self : t) (f : field) : option t :=
  let '(n, w) := f in
  match n with
  | 1 => v ← read_int32 w; Some (mk (Some v) (shutdown_method self))
  | 2 => v ← read_int32 w; m ← ShutdownMethod.from_i32 v; Some (mk (exit_code self) (Some m))
  | _ => Some self
  end.
Definition fields (self : t) : list field :=
  optional 1 write_int64 (exit_code self)
  ++ optional 2 (fun m => write_int64 (ShutdownMethod.value m)) (shutdown_method self).
#[global] Instance message : MessageStatic t := {
  descriptor_name := "TerminateOk"; new := mk None None; write_fields := fields; merge_field := merge;
  in_range self := if_set is_i32 (exit_code self);
}.
End TerminateOk.

Module Spawn.
Record t := mk {
  id : option string;
  binary : option string;
  svc_user : option string;
  svc_group : option string;
  svc_password : option string;
  env : gmap string string;
}.
Definition get_id (self : t) : string := default "" (id self).
Definition get_binary (self : t) : string := default "" (binary self).
Definition get_svc_user (self : t) : string := default "" (svc_user self).
Definition get_svc_group (self : t) : string := default "" (svc_group self).
Definition set_env (e : gmap string string) (self : t) : t :=
  mk (id self) (binary self) (svc_user self) (svc_group self) (svc_password self) e.

Section with_protobuf.
Context `{!Protobuf}.

(** An entry of a map is a message with a key and a value. *)
Definition entry_fields (kv : string * string) : list field := [(1, write_string kv.1); (2, write_string kv.2)].
Definition write_entry (kv : string * string) : field := (6, LengthDelimited (to_wire (entry_fields kv))).
Definition merge_entry (kv : string * string) (f : field) : option (string * string) :=
  let '(n, w) := f in
  match n with
  | 1 => s ← read_string w; Some (s, kv.2)
  | 2 => s ← read_string w; Some (kv.1, s)
  | _ => Some kv
  end.
Fixpoint merge_entries (kv : string * string) (l : list field) : option (string * string) :=
  match l with [] => Some kv | f :: l => kv ← merge_entry kv f; merge_entries kv l end.
Definition read_entry (w : wire_value) : option (string * string) :=
  b ← read_bytes w; l ← from_wire b; merge_entries ("", "") l.

Definition merge (self : t) (f : field) : option t :=
  let '(n, w) := f in
  match n with
  | 1 => s ← read_string w; Some (mk (Some s) (binary self) (svc_user self) (svc_group self) (svc_password self) (env self))
  | 2 => s ← read_string w; Some (mk (id self) (Some s) (svc_user self) (svc_group self) (svc_password self) (env self))
  | 3 => s ← read_string w; Some (mk (id self) (binary self) (Some s) (svc_group self) (svc_password self) (env self))
  | 4 => s ← read_string w; Some (mk (id self) (binary self) (svc_user self) (Some s) (svc_password self) (env self))
  | 5 => s ← read_string w; Some (mk (id self) (binary self) (svc_user self) (svc_group self) (Some s) (env self))
  | 6 => kv ← read_entry w; Some (set_env (<[kv.1 := kv.2]> (env self)) self)
  | _ => Some self
  end.
Definition fields (self : t) : list field :=
  optional 1 write_string (id self) ++ optional 2 write_string (binary self) ++ optional 3 write_string (svc_user self)
  ++ optional 4 write_string (svc_group self) ++ optional 5 write_string (svc_password self)
  ++ (write_entry <$> map_to_list (env self)).
Definition entry_in_range (k v : string) : Prop :=
  is_text k /\ is_text v /\ Z.of_nat (length (to_wire (entry_fields (k, v)))) < 2 ^ 64.
#[global] Instance message : MessageStatic t := {
  descriptor_name := "Spawn"; new := mk None None None None None ∅; write_fields := fields; merge_field := merge;
  in_range self := (if_set is_text (id self) /\ if_set is_text (binary self) /\ if_set is_text (svc_user self)
                    /\ if_set is_text (svc_group self) /\ if_set is_text (svc_password self))
                   /\ map_Forall entry_in_range (env self);
}.
End with_protobuf.
End Spawn.

Module Envelope.
Record t := mk { message_id : option string; payload : option bytes; txn_id : option Z }.
Definition get_message_id (self : t) : string := default "" (message_id self).
Definition get_payload (self : t) : bytes := default [] (payload self).
Definition get_txn_id (self : t) : Z := default 0 (txn_id self).
Definition merge (self : t) (f : field) : option t :=
  let '(n, w) := f in
  match n with
  | 1 => s ← read_string w; Some (mk (Some s) (payload self) (txn_id self))
  | 2 => b ← read_bytes w; Some (mk (message_id self) (Some b) (txn_id self))
  | 3 => v ← read_uint64 w; Some (mk (message_id self) (payload self) (Some v))
  | _ => Some self
  end.
Definition fields (self : t) : list field :=
  optional 1 write_string (message_id self) ++ optional 2 LengthDelimited (payload self)
  ++ optional 3 write_int64 (txn_id self).
#[global] Instance message : MessageStatic t := {
  descriptor_name := "Envelope"; new := mk None None None; write_fields := fields; merge_field := merge;
  in_range self := if_set is_text (message_id self)
                   /\ if_set (fun b => Z.of_nat (length b) < 2 ^ 64) (payload self) /\ if_set is_u64 (txn_id self);
}.
End Envelope.

(** ** [NetTxn] ([src/lib.rs]) *)

Definition LAUNCHER_PIPE_ENV : string := "HAB_LAUNCHER_PIPE".
Definition LAUNCHER_PID_ENV : string := "HAB_LAUNCHER_PID".
Definition LAUNCHER_LOCK_CLEAN_ENV : string := "HAB_LAUNCHER_LOCK_CLEAN".
Definition OK_NO_RETRY_EXCODE : Z := 84.
Definition ERR_NO_RETRY_EXCODE : Z := 86.

Module NetTxn.
Section with_protobuf.
Context `{!Protobuf}.

Definition build `{MessageStatic T} (m : T) : Envelope.t :=
  Envelope.mk (Some (descriptor_name (T := T))) (Some (write_to_bytes m)) None.
Definition from_bytes (b : bytes) : option Envelope.t := parse_from_bytes Envelope.t b.
Definition build_reply (self : Envelope.t) `{MessageStatic T} (m : T) : Envelope.t :=
  let env := build m in
  Envelope.mk (Envelope.message_id env) (Envelope.payload env) (Some (Envelope.get_txn_id self)).
Definition decode T `{MessageStatic T} (self : Envelope.t) : option T := parse_from_bytes T (Envelope.get_payload self).
Definition message_id (self : Envelope.t) : string := Envelope.get_message_id self.
Definition to_bytes (self : Envelope.t) : bytes := write_to_bytes self.
End with_protobuf.
End NetTxn.

(** ** The Supervisor's side ([launcher-client/src/client.rs]) *)

(** [WouldBlock] is the one kind of [io::ErrorKind] the code looks at. *)
Inductive client_error :=
| AcceptConn
| BadPipe
| Connect
| Deserialize
| IPCBincode
| IPCIO (would_block : bool)
| Protocol (e : NetErr.t)
| Send.

Module LauncherCli.
Section with_protobuf.
Context `{!Protobuf}.

Definition read T `{MessageStatic T} (b : bytes) : result client_error T :=
  match NetTxn.from_bytes b with
  | None => Err Deserialize
  | Some txn =>
      if bool_decide (NetTxn.message_id txn = "NetErr") then
        match NetTxn.decode NetErr.t txn with
        | None => Err Deserialize
        | Some err => Err (Protocol err)
        end
      else match NetTxn.decode T txn with
           | None => Err Deserialize
           | Some m => Ok m
           end
  end.

(** The bytes of a command. *)
Definition command `{MessageStatic T} (m : T) : bytes := NetTxn.to_bytes (NetTxn.build m).

(** [connect], from what the operations on the channels give: the Supervisor registers the pipe on
    which it receives, and waits for the first message there. *)
Definition connect (connected : bool) (ipc_srv : option string) (send : bytes -> bool) (accepted : option bytes)
    : result client_error unit :=
  if connected then
    match ipc_srv with
    | None => Err BadPipe
    | Some pipe =>
        if send (command (Register.mk (Some pipe))) then
          match accepted with
          | None => Err AcceptConn
          | Some raw => _ ← read NetOk.t raw; mret tt
          end
        else Err Send
    end
  else Err Connect.

(** [try_recv], from what the channel gives. *)
Definition try_recv T `{MessageStatic T} (received : result client_error bytes) : result client_error (option T) :=
  match received with
  | Ok b => m ← read T b; mret (Some m)
  | Err (IPCIO true) => Ok None
  | Err e => Err e
  end.

Definition is_stopping (received : result client_error bytes) : outcome bool :=
  match try_recv Shutdown.t received with
  | Ok (Some _) | Err (IPCIO _) => Return true
  | Ok None => Return false
  | Err _ => Panic "Unexpected error checking for shutdown request"
  end.

(** Sending a command and receiving the next message of the Launcher. *)
Context (exchange : bytes -> result client_error bytes).

Definition recv T `{MessageStatic T} (command : bytes) : result client_error T := b ← exchange command; read T b.

Definition restart (pid : Z) : result client_error Z :=
  reply ← recv SpawnOk.t (command (Restart.mk (Some pid)));
  mret (wrap_i32 (SpawnOk.get_pid reply)).

Definition spawn (id bin user group : string) (password : option string) (env : gmap string string)
    : result client_error Z :=
  reply ← recv SpawnOk.t (command (Spawn.mk (Some id) (Some bin) (Some user) (Some group) password env));
  mret (wrap_i32 (SpawnOk.get_pid reply)).

Definition terminate (pid : Z) : result client_error Z :=
  reply ← recv TerminateOk.t (command (Terminate.mk (Some pid)));
  mret (TerminateOk.get_exit_code reply).
End with_protobuf.
End LauncherCli.

(** ** Messages are read as they were written *)

#[export] Instance net_err_lawful : LawfulMessage NetErr.t.
Proof.
  split; [| |done].
  - intros [c s] Hs. apply Forall_app. split; apply writable_optional.
    + destruct c; [by apply writable_int64|done].
    + destruct s; [by apply writable_string|done].
  - intros [c s] Hs. cbn [write_fields NetErr.message]. unfold NetErr.fields. cbn [NetErr.code NetErr.msg].
    rewrite merge_from_app.
    rewrite (merge_optional new (NetErr.mk c None)); [|by intros ->|intros e ->; by destruct e].
    cbn [mbind option_bind].
    apply merge_optional; [by intros ->|]. intros a ->. cbn [merge_field NetErr.message NetErr.merge].
    by rewrite read_write_string.
Qed.

#[export] Instance net_ok_lawful : LawfulMessage NetOk.t.
Proof. split; [constructor|by intros []|done]. Qed.

#[export] Instance shutdown_lawful : LawfulMessage Shutdown.t.
Proof. split; [constructor|by intros []|done]. Qed.

#[export] Instance register_lawful : LawfulMessage Register.t.
Proof.
  split; [| |done].
  - intros [s] Hs. apply writable_optional. destruct s; [by apply writable_string|done].
  - intros [s] Hs. apply merge_optional; [by intros Hs0; cbn in Hs0; subst|]. intros a Ha. cbn in Ha. subst.
    cbn [merge_field Register.message Register.merge].
    by rewrite read_write_string.
Qed.

#[export] Instance restart_lawful : LawfulMessage Restart.t.
Proof.
  split; [| |done].
  - intros [v] Hv. apply writable_optional. destruct v; [by apply writable_int64|done].
  - intros [v] Hv. apply merge_optional; [by intros Hs0; cbn in Hs0; subst|]. intros a Ha. cbn in Ha. subst.
    cbn [merge_field Restart.message Restart.merge].
    by rewrite read_write_int64.
Qed.

#[export] Instance spawn_ok_lawful : LawfulMessage SpawnOk.t.
Proof.
  split; [| |done].
  - intros [v] Hv. apply writable_optional. destruct v; [by apply writable_int64|done].
  - intros [v] Hv. apply merge_optional; [by intros Hs0; cbn in Hs0; subst|]. intros a Ha. cbn in Ha. subst.
    cbn [merge_field SpawnOk.message SpawnOk.merge].
    by rewrite read_write_int64.
Qed.

#[export] Instance terminate_lawful : LawfulMessage Terminate.t.
Proof.
  split; [| |done].
  - intros [v] Hv. apply writable_optional. destruct v; [by apply writable_int64|done].
  - intros [v] Hv. apply merge_optional; [by intros Hs0; cbn in Hs0; subst|]. intros a Ha. cbn in Ha. subst.
    cbn [merge_field Terminate.message Terminate.merge].
    by rewrite read_write_int64.
Qed.

#[export] Instance terminate_ok_lawful : LawfulMessage TerminateOk.t.
Proof.
  split; [| |done].
  - intros [c m] Hc. apply Forall_app. split; apply writable_optional; [destruct c|destruct m]; try done;
      by apply writable_int64.
  - intros [c m] Hc. cbn [write_fields TerminateOk.message]. unfold TerminateOk.fields.
    cbn [TerminateOk.exit_code TerminateOk.shutdown_method]. rewrite merge_from_app.
    rewrite (merge_optional new (TerminateOk.mk c None)); [|by intros ->|].
    + apply merge_optional; [by intros ->|]. intros a ->. by destruct a.
    + intros a ->. cbn [merge_field TerminateOk.message TerminateOk.merge]. by rewrite read_write_int32.
Qed.

#[export] Instance envelope_lawful : LawfulMessage Envelope.t.
Proof.
  split; [| |done].
  - intros [s b v] (Hs & Hb & Hv). cbn [write_fields Envelope.message]. unfold Envelope.fields.
    rewrite !Forall_app. split_and!; apply writable_optional; [destruct s|destruct b|destruct v]; try done;
      [by apply writable_string|by apply writable_int64].
  - intros [s b v] (Hs & Hb & Hv). cbn [write_fields Envelope.message]. unfold Envelope.fields.
    cbn [Envelope.message_id Envelope.payload Envelope.txn_id] in *. rewrite merge_from_app.
    rewrite (merge_optional new (Envelope.mk s None None)); [|by intros ->|].
    + cbn [mbind option_bind]. rewrite merge_from_app, (merge_optional _ (Envelope.mk s b None)); [|by intros ->|by intros a ->].
      cbn [mbind option_bind]. apply merge_optional; [by intros ->|]. intros a ->.
      cbn [merge_field Envelope.message Envelope.merge]. by rewrite read_write_uint64.
    + intros a ->. cbn [merge_field Envelope.message Envelope.merge]. by rewrite read_write_string.
Qed.

(** The entries of a map, inserted one after the other. *)
Lemma foldl_insert_entries `{Countable K} {A} (l : list (K * A)) (m : gmap K A) :
  NoDup l.*1 -> (forall k, k ∈ l.*1 -> m !! k = None) ->
  foldl (fun m kv => <[kv.1 := kv.2]> m) m l = list_to_map l ∪ m.
Proof.
  revert m. induction l as [|[k a] l IH]; intros m Hnd Hm; cbn in *; [by rewrite (left_id_L ∅ (∪))|].
  apply NoDup_cons in Hnd as [Hk Hnd]. rewrite IH; [|done|].
  - rewrite <- insert_union_l. rewrite insert_union_r; [done|]. by apply not_elem_of_list_to_map.
  - intros k' Hk'. rewrite lookup_insert_ne by (by intros <-). apply Hm. set_solver.
Qed.

Section spawn_message.
Context `{ProtobufLaws}.

Lemma read_write_entry k v : Spawn.entry_in_range k v -> Spawn.read_entry (Spawn.write_entry (k, v)).2 = Some (k, v).
Proof.
  intros (Hk & Hv & _). unfold Spawn.read_entry, Spawn.write_entry. cbn [read_bytes snd mbind option_bind].
  rewrite from_to_wire by (apply Forall_cons; split; [by apply writable_string|]; apply Forall_singleton; by apply writable_string).
  cbn [mbind option_bind Spawn.entry_fields Spawn.merge_entries Spawn.merge_entry fst snd].
  rewrite read_write_string by done. cbn [mbind option_bind]. by rewrite read_write_string.
Qed.

Lemma merge_env (m : Spawn.t) l : Forall (fun kv => Spawn.entry_in_range kv.1 kv.2) l ->
  merge_from m (Spawn.write_entry <$> l)
  = Some (Spawn.set_env (foldl (fun e kv => <[kv.1 := kv.2]> e) (Spawn.env m) l) m).
Proof.
  revert m. induction l as [|[k v] l IH]; intros m Hl; [by destruct m|].
  apply Forall_cons in Hl as [Hkv Hl]. cbn [fmap list_fmap merge_from merge_field Spawn.message].
  pose proof (read_write_entry k v Hkv) as Hr. unfold Spawn.write_entry in *. cbn [snd] in Hr.
  cbn [Spawn.merge]. rewrite Hr. cbn [mbind option_bind]. rewrite IH by done. done.
Qed.

(** One field of text of a [Spawn] message. *)
Lemma merge_text (m m' : Spawn.t) n o :
  if_set is_text o -> (o = None -> m' = m) ->
  (forall s, o = Some s -> is_text s -> Spawn.merge m (n, write_string s) = Some m') ->
  merge_from m (optional n write_string o) = Some m'.
Proof. intros Ho Hn Hs. apply merge_optional; [done|]. intros s ->. by apply Hs. Qed.

Lemma spawn_merge_write (m : Spawn.t) : in_range m -> merge_from new (write_fields m) = Some m.
Proof.
  destruct m as [i b u g p e]. intros [(Hi & Hb & Hu & Hg & Hp) He].
  cbn [Spawn.id Spawn.binary Spawn.svc_user Spawn.svc_group Spawn.svc_password Spawn.env] in *.
  cbn [write_fields Spawn.message]. unfold Spawn.fields. rewrite merge_from_app.
  cbn [Spawn.id Spawn.binary Spawn.svc_user Spawn.svc_group Spawn.svc_password Spawn.env].
  rewrite (merge_text new (Spawn.mk i None None None None ∅)); [cbn [mbind option_bind]; rewrite merge_from_app|done|by intros ->|].
  2: { intros s -> Hs. cbn [Spawn.merge]. by rewrite read_write_string. }
  rewrite (merge_text _ (Spawn.mk i b None None None ∅)); [cbn [mbind option_bind]; rewrite merge_from_app|done|by intros ->|].
  2: { intros s -> Hs. cbn [Spawn.merge]. by rewrite read_write_string. }
  rewrite (merge_text _ (Spawn.mk i b u None None ∅)); [cbn [mbind option_bind]; rewrite merge_from_app|done|by intros ->|].
  2: { intros s -> Hs. cbn [Spawn.merge]. by rewrite read_write_string. }
  rewrite (merge_text _ (Spawn.mk i b u g None ∅)); [cbn [mbind option_bind]; rewrite merge_from_app|done|by intros ->|].
  2: { intros s -> Hs. cbn [Spawn.merge]. by rewrite read_write_string. }
  rewrite (merge_text _ (Spawn.mk i b u g p ∅)); [cbn [mbind option_bind]|done|by intros ->|].
  2: { intros s -> Hs. cbn [Spawn.merge]. by rewrite read_write_string. }
  rewrite merge_env.
  - cbn [Spawn.env Spawn.set_env]. unfold Spawn.set_env. cbn. do 2 f_equal.
    rewrite foldl_insert_entries; [|apply NoDup_fst_map_to_list|done].
    by rewrite list_to_map_to_list, (right_id_L ∅ (∪)).
  - apply Forall_forall. intros [k v] Hkv%elem_of_map_to_list. by apply He.
Qed.

#[export] Instance spawn_lawful : LawfulMessage Spawn.t.
Proof.
  split; [|apply spawn_merge_write|done].
  intros m [(Hi & Hb & Hu & Hg & Hp) He]. cbn [write_fields Spawn.message]. unfold Spawn.fields.
  rewrite !Forall_app. split_and!; try by apply writable_text.
  apply Forall_fmap, Forall_forall. intros [k v] Hkv%elem_of_map_to_list.
  destruct (He k v Hkv) as (_ & _ & Hl). by split.
Qed.

(** ** What is sent arrives *)
Lemma from_to_bytes (e : Envelope.t) : in_range e -> NetTxn.from_bytes (NetTxn.to_bytes e) = Some e.
Proof. apply parse_write. Qed.

Lemma decode_build `{LawfulMessage T} (m : T) : in_range m -> NetTxn.decode T (NetTxn.build m) = Some m.
Proof. apply parse_write. Qed.

(** A reply is read as what it is, unless it is an error. *)
Lemma read_reply `{LawfulMessage T} (txn : Envelope.t) (m : T) :
  in_range m -> in_range (NetTxn.build_reply txn m) -> descriptor_name (T := T) <> "NetErr" ->
  LauncherCli.read T (NetTxn.to_bytes (NetTxn.build_reply txn m)) = Ok m.
Proof.
  intros Hm He Hn. unfold LauncherCli.read. rewrite from_to_bytes by done.
  unfold NetTxn.message_id, Envelope.get_message_id. cbn [NetTxn.build_reply NetTxn.build Envelope.message_id default].
  rewrite bool_decide_eq_false_2 by done.
  change (NetTxn.decode T _) with (parse_from_bytes T (write_to_bytes m)). by rewrite parse_write.
Qed.

Lemma read_error T `{MessageStatic T} (txn : Envelope.t) (e : NetErr.t) :
  in_range e -> in_range (NetTxn.build_reply txn e) ->
  LauncherCli.read T (NetTxn.to_bytes (NetTxn.build_reply txn e)) = Err (Protocol e).
Proof.
  intros Hm He. unfold LauncherCli.read. rewrite from_to_bytes by done.
  unfold NetTxn.message_id, Envelope.get_message_id. cbn [NetTxn.build_reply NetTxn.build Envelope.message_id default].
  rewrite bool_decide_eq_true_2 by done.
  change (NetTxn.decode NetErr.t _) with (parse_from_bytes NetErr.t (write_to_bytes e)). by rewrite parse_write.
Qed.

(** The two sides meet: the Launcher finds the pipe in what [connect] sends, and [connect] accepts
    what [setup_connection] sends. *)
Lemma handshake pipe (send : bytes -> bool) :
  in_range (Register.mk (Some pipe)) -> in_range (NetTxn.build (Register.mk (Some pipe))) -> in_range (NetTxn.build (new : NetOk.t)) ->
  send (LauncherCli.command (Register.mk (Some pipe))) = true ->
  (txn ← NetTxn.from_bytes (LauncherCli.command (Register.mk (Some pipe))); NetTxn.decode Register.t txn)
    = Some (Register.mk (Some pipe))
  /\ LauncherCli.connect true (Some pipe) send (Some (NetTxn.to_bytes (NetTxn.build (new : NetOk.t)))) = Ok tt.
Proof.
  intros Hr Hb Hn Hs. split; [unfold LauncherCli.command; rewrite from_to_bytes by done; by apply decode_build|].
  unfold LauncherCli.connect. rewrite Hs. unfold LauncherCli.read.
  rewrite from_to_bytes by done. rewrite bool_decide_eq_false_2 by done. by rewrite decode_build.
Qed.
End spawn_message.
