(* ===== verification/Launcher.v ===== *)
(** * The Launcher

    Models [components/launcher]: the processes of services ([service.rs], [sys/unix/service.rs]),
    the handlers of the Supervisor's requests ([server/handlers]), and the server that keeps the
    services and the Supervisor running ([server/mod.rs]).  The machine is that of [LauncherOs]. *)

From stdpp Require Import pretty.
From S2P Require Import Prelude Regex Ident Text ByteText ProtoWire LauncherOs LauncherProto.
Local Open Scope Z_scope.
Local Open Scope string_scope.
Local Open Scope list_scope.

(** ** Errors ([error.rs]) *)

(** The errors of the operating system and of the libraries that are passed on. *)
Inductive io_error := WaitFailed | PipeFailed | ConnectFailed | SpawnFailed | SendFailed | BadMessage.

Module Error.
Inductive t :=
| AcceptConn
| Connect (e : io_error)
| Deserialize (e : io_error)
| ExecWait (e : io_error)
| GroupNotFound (group : string)
| OpenPipe (e : io_error)
| Send (e : io_error)
| Serialize (e : io_error)
| Spawn (e : io_error)
| SupBinaryNotFound
| SupPackageNotFound
| SupShutdown
| SupSpawn (e : io_error)
| UserNotFound (user : string).

(** [Display]; [describe] is the text of the error that is passed on. *)
Definition to_string (describe : io_error -> string) (self : t) : string :=
  match self with
  | AcceptConn => "Unable to accept connection from Supervisor"
  | Connect e => "Unable to connect to Supervisor's comm channel, " +:+ describe e
  | Deserialize e => "Unable to deserialize message from Supervisor, " +:+ describe e
  | ExecWait e => "Error waiting on PID, " +:+ describe e
  | GroupNotFound e => "No GID for group '" +:+ e +:+ "' could be found"
  | OpenPipe e => "Unable to open Launcher's comm channel, " +:+ describe e
  | Send e => "Unable to send to Launcher's comm channel, " +:+ describe e
  | Serialize e => "Unable to serialize message to Supervisor, " +:+ describe e
  | Spawn e => "Unable to spawn process, " +:+ describe e
  | SupBinaryNotFound => "Supervisor package didn't contain 'hab-sup' binary"
  | SupPackageNotFound => "Unable to locate Supervisor package, core/hab-sup"
  | SupShutdown => "Error waiting for Supervisor to shutdown"
  | SupSpawn e => "Unable to spawn Supervisor, " +:+ describe e
  | UserNotFound e => "No UID for user '" +:+ e +:+ "' could be found"
  end.

(** [From<Error> for ErrCode]. *)
Definition to_code (self : t) : ErrCode.t :=
  match self with
  | ExecWait _ => ErrCode.ExecWait
  | GroupNotFound _ => ErrCode.GroupNotFound
  | UserNotFound _ => ErrCode.UserNotFound
  | _ => ErrCode.Unknown
  end.
End Error.

(** [ExitStatus::code]: the code of a process that was not ended by a signal, from the status that
    [waitpid] gives. *)
Definition exit_code (status : Z) : option Z :=
  if bool_decide (Z.land status 127 = 0) then Some (Z.land (Z.shiftr status 8) 255) else None.

(** ** A process ([sys/unix/service.rs]) *)
Module Process.
Record t := mk { pid : Z; status : option Z }.

(** [child.id() as pid_t], of a [u32]. *)
Definition new (p : Z) : t := mk (wrap_i32 p) None.
Definition id (self : t) : Z := pid self.

Definition try_wait (self : t) : L (t * result Error.t (option Z)) :=
  match status self with
  | Some s => mret (self, Ok (Some s))
  | None =>
      r ← waitpid (pid self) true;
      mret (match r with
            | NotYet => (self, Ok None)
            | NoChild => (self, Err (Error.ExecWait WaitFailed))
            | Ended s => (mk (pid self) (Some s), Ok (Some s))
            end)
  end.

(** The answer [0] cannot come without [WNOHANG]; it would be taken for the status [0]. *)
Definition wait (self : t) : L (t * result Error.t Z) :=
  match status self with
  | Some s => mret (self, Ok s)
  | None =>
      r ← waitpid (pid self) false;
      mret (match r with
            | NoChild => (self, Err (Error.ExecWait WaitFailed))
            | NotYet => (mk (pid self) (Some 0), Ok 0)
            | Ended s => (mk (pid self) (Some s), Ok s)
            end)
  end.

(** The loop of [kill]: [fuel] bounds the readings of the clock, of which there are not more than
    [elapsed] has and one. *)
Fixpoint kill_loop (fuel : nat) (pid_to_kill stop_time : Z) (self : t) : L (t * ShutdownMethod.t) :=
  match fuel with
  | O => blocks
  | S fuel =>
      w ← try_wait self;
      match w with
      | (self, Ok (Some _)) => mret (self, ShutdownMethod.GracefulTermination)
      | (self, _) =>
          t ← now;
          if (t <? stop_time)%Z then kill_loop fuel pid_to_kill stop_time self
          else ok ← signal pid_to_kill Signal.KILL;
               mret (self, if ok : bool then ShutdownMethod.Killed else ShutdownMethod.GracefulTermination)
      end
  end.

Definition kill (self : t) : L (t * ShutdownMethod.t) :=
  group ← getpgid (pid self);
  let pid_to_kill := if bool_decide (pid self = group) then - pid self else pid self in
  ok ← signal pid_to_kill Signal.TERM;
  if ok : bool then
    t ← now;
    fuel ← gets (fun o => S (length (elapsed (coming o))));
    kill_loop fuel pid_to_kill (t + 8 * 10 ^ 9) self
  else mret (self, ShutdownMethod.AlreadyExited).
End Process.

(** ** A service ([Service] of [service.rs]); its output is passed on by threads of its own *)
Module LaunchedService.
Record t := mk { args : Spawn.t; process : Process.t; status : option Z }.

Definition new (spawn : Spawn.t) (process : Process.t) : t := mk spawn process None.
Definition id (self : t) : Z := Process.id (process self).
Definition name (self : t) : string := Spawn.get_id (args self).
Definition take_args (self : t) : Spawn.t := args self.
Definition set_process (p : Process.t) (self : t) : t := mk (args self) p (status self).

Definition kill (self : t) : L (t * ShutdownMethod.t) :=
  r ← Process.kill (process self); mret (set_process r.1 self, r.2).
Definition try_wait (self : t) : L (t * result Error.t (option Z)) :=
  r ← Process.try_wait (process self); mret (set_process r.1 self, r.2).
Definition wait (self : t) : L (t * result Error.t Z) :=
  r ← Process.wait (process self); mret (set_process r.1 self, r.2).
End LaunchedService.

(** ** The table of services ([server/mod.rs]) *)
Module ServiceTable.
(** [HashMap<Pid, Service>]. *)
Abbreviation t := (gmap Z LaunchedService.t).

Definition get (pid : Z) (self : t) : option LaunchedService.t := self !! pid.
Definition insert (service : LaunchedService.t) (self : t) : t := <[LaunchedService.id service := service]> self.
Definition remove (pid : Z) (self : t) : t := delete pid self.

(** [values_mut] gives the services one after the other, in some order. *)
Fixpoint kill_each (l : list (Z * LaunchedService.t)) (self : t) : L t :=
  match l with
  | [] => mret self
  | (k, service) :: l =>
      r ← LaunchedService.kill service;
      kill_each l (<[k := r.1]> self)
  end.
Definition kill_all (self : t) : L t := kill_each (map_to_list self) self.

Fixpoint reap_each (l : list (Z * LaunchedService.t)) (dead : list Z) (self : t) : L (t * list Z) :=
  match l with
  | [] => mret (self, dead)
  | (k, service) :: l =>
      r ← LaunchedService.try_wait service;
      let self := <[k := r.1]> self in
      match r.2 with
      | Ok None => reap_each l dead self
      | Ok (Some _) | Err _ => reap_each l (dead ++ [LaunchedService.id r.1]) self
      end
  end.
Definition reap_zombies (self : t) : L t :=
  r ← reap_each (map_to_list self) [] self;
  mret (foldl (fun self pid => remove pid self) r.1 r.2).
End ServiceTable.

(** A handler of a request: the table after it and the reply or the error. *)
Class Handler (Message Reply : Type) :=
  handle : Message -> ServiceTable.t -> L (ServiceTable.t * result NetErr.t Reply).

(** ** The server ([server/mod.rs]) *)

(** [std::process::Child]: asking for a process that was waited for gives what is known. *)
Module Child.
Record t := mk { id : Z; status : option Z }.

(** The result of [kill] is ignored or only logged. *)
Definition kill (self : t) : L bool :=
  match status self with
  | Some _ => mret false
  | None => signal (wrap_i32 (id self)) Signal.KILL
  end.
(** [None] is an error. *)
Definition wait (self : t) : L (t * option Z) :=
  match status self with
  | Some s => mret (self, Some s)
  | None =>
      r ← waitpid (id self) false;
      mret (match r with Ended s => (mk (id self) (Some s), Some s) | _ => (self, None) end)
  end.
Definition try_wait (self : t) : L (t * result unit (option Z)) :=
  match status self with
  | Some s => mret (self, Ok (Some s))
  | None =>
      r ← waitpid (id self) true;
      mret (match r with
            | NotYet => (self, Ok None)
            | NoChild => (self, Err tt)
            | Ended s => (mk (id self) (Some s), Ok (Some s))
            end)
  end.
End Child.

Inductive TickState := Continue | Exit (code : Z).

Record Server := mkServer {
  services : ServiceTable.t;
  supervisor : Child.t;
  args : list string;
}.

Definition set_services (s : ServiceTable.t) (self : Server) : Server := mkServer s (supervisor self) (args self).
Definition set_supervisor (c : Child.t) (self : Server) : Server := mkServer (services self) c (args self).

(** [owned_pgid] is run in the new process, and its result ignored; the password is for Windows. *)
Definition service_command (msg : Spawn.t) (uid gid : Z) : Command :=
  mkCommand (Spawn.get_binary msg) [] (map_to_list (Spawn.env msg)) (Some uid) (Some gid) true.

(** The codes of the errors of the handlers. *)
Definition no_pid : NetErr.t := NetErr.mk (Some ErrCode.NoPID) None.

Section launcher.
Context `{!Protobuf}.
(** The users and groups of the machine, the text of the errors of the operating system, the
    number of the Launcher's own process, and what [supervisor_cmd] finds. *)
Context (get_uid_by_name get_gid_by_name : string -> option Z) (describe : io_error -> string).
Context (current_pid : Z) (supervisor_cmd : result Error.t string).

(** [protocol::error]. *)
Definition error (err : Error.t) : NetErr.t := NetErr.mk (Some (Error.to_code err)) (Some (Error.to_string describe err)).

(** [service::run]. *)
Definition run (msg : Spawn.t) : L (result Error.t LaunchedService.t) :=
  match get_uid_by_name (Spawn.get_svc_user msg) with
  | None => mret (Err (Error.UserNotFound (Spawn.get_svc_user msg)))
  | Some uid =>
      match get_gid_by_name (Spawn.get_svc_group msg) with
      | None => mret (Err (Error.GroupNotFound (Spawn.get_svc_group msg)))
      | Some gid =>
          child ← spawn (service_command msg uid gid);
          mret (match child with
                | None => Err (Error.Spawn SpawnFailed)
                | Some p => Ok (LaunchedService.new msg (Process.new p))
                end)
      end
  end.

(** ** Handlers ([server/handlers]) *)

(** The part of the handlers that starts a service and puts it into the table. *)
Definition run_and_insert (msg : Spawn.t) (services : ServiceTable.t)
    : L (ServiceTable.t * result NetErr.t SpawnOk.t) :=
  r ← run msg;
  mret (match r with
        | Ok service => (ServiceTable.insert service services, Ok (SpawnOk.mk (Some (LaunchedService.id service))))
        | Err err => (services, Err (error err))
        end).

#[local] Instance SpawnHandler : Handler Spawn.t SpawnOk.t := fun msg services => run_and_insert msg services.

#[local] Instance RestartHandler : Handler Restart.t SpawnOk.t := fun msg services =>
  let pid := wrap_i32 (Restart.get_pid msg) in
  match ServiceTable.get pid services with
  | None => mret (services, Err no_pid)
  | Some service =>
      let services := ServiceTable.remove pid services in
      k ← LaunchedService.kill service;
      w ← LaunchedService.wait k.1;
      match w with
      | (service, Ok _) => run_and_insert (LaunchedService.take_args service) services
      | (_, Err err) => mret (services, Err (error err))
      end
  end.

#[local] Instance TerminateHandler : Handler Terminate.t TerminateOk.t := fun msg services =>
  let pid := wrap_i32 (Terminate.get_pid msg) in
  match ServiceTable.get pid services with
  | None => mret (services, Err no_pid)
  | Some service =>
      k ← LaunchedService.kill service;
      w ← LaunchedService.wait k.1;
      let services := <[pid := w.1]> services in
      match w.2 with
      | Ok status => mret (services, Ok (TerminateOk.mk (Some (default 0 (exit_code status))) (Some k.2)))
      | Err err => mret (services, Err (error err))
      end
  end.

(** [reply] and [send]; [false] is an error. *)
Definition reply (txn : Envelope.t) `{MessageStatic T} (msg : T) : L bool :=
  tx_send (NetTxn.to_bytes (NetTxn.build_reply txn msg)).
Definition send `{MessageStatic T} (msg : T) : L bool := tx_send (NetTxn.to_bytes (NetTxn.build msg)).

(** [Handler::run]. *)
Definition handler_run `{MessageStatic Message, MessageStatic Reply} (h : Handler Message Reply)
    (txn : Envelope.t) (services : ServiceTable.t) : L ServiceTable.t :=
  match NetTxn.decode Message txn with
  | None => mret services
  | Some msg =>
      r ← h msg services;
      match r with
      | (services, Ok m) => _ ← reply txn m; mret services
      | (services, Err e) => _ ← reply txn e; mret services
      end
  end.

Definition dispatch (b : bytes) (services : ServiceTable.t) : L ServiceTable.t :=
  match NetTxn.from_bytes b with
  | None => mret services
  | Some msg =>
      if bool_decide (NetTxn.message_id msg = "Restart") then handler_run RestartHandler msg services
      else if bool_decide (NetTxn.message_id msg = "Spawn") then handler_run SpawnHandler msg services
      else if bool_decide (NetTxn.message_id msg = "Terminate") then handler_run TerminateHandler msg services
      else mret services
  end.

(** ** Starting a Supervisor *)
Definition supervisor_command (binary pipe : string) (args : list string) (clean : bool) : Command :=
  mkCommand binary args
    ((if clean then [(LAUNCHER_LOCK_CLEAN_ENV, "true")] else [])
     ++ [(LAUNCHER_PIPE_ENV, pipe); (LAUNCHER_PID_ENV, pretty current_pid)]) None None false.

Definition spawn_supervisor (pipe : string) (args : list string) (clean : bool) : L (result Error.t Child.t) :=
  match supervisor_cmd with
  | Err e => mret (Err e)
  | Ok binary =>
      child ← spawn (supervisor_command binary pipe args clean);
      mret (match child with None => Err (Error.SupSpawn SpawnFailed) | Some p => Ok (Child.mk p None) end)
  end.

Definition setup_connection : L (result Error.t unit) :=
  raw ← accept;
  match raw with
  | None => mret (Err Error.AcceptConn)
  | Some raw =>
      match (txn ← NetTxn.from_bytes raw; NetTxn.decode Register.t txn) with
      | None => mret (Err (Error.Deserialize BadMessage))
      | Some msg =>
          connected ← connect (Register.get_pipe msg);
          if connected : bool then
            ok ← send (new : NetOk.t);
            mret (if ok : bool then Ok tt else Err (Error.Send SendFailed))
          else mret (Err (Error.Connect ConnectFailed))
      end
  end.

Definition init (args : list string) (clean : bool) : L (result Error.t Child.t) :=
  p ← new_pipe;
  match p with
  | None => mret (Err (Error.OpenPipe PipeFailed))
  | Some pipe =>
      c ← spawn_supervisor pipe args clean;
      match c with
      | Err e => mret (Err e)
      | Ok supervisor =>
          r ← setup_connection;
          mret (match r with Ok _ => Ok supervisor | Err e => Err e end)
      end
  end.

Definition server_new (args : list string) : L (result Error.t Server) :=
  r ← init args false;
  mret (match r with Ok supervisor => Ok (mkServer ∅ supervisor args) | Err e => Err e end).

(** ** The loop of the server *)
Definition reload (self : Server) : L (Server * result Error.t unit) :=
  _ ← Child.kill (supervisor self);
  w ← Child.wait (supervisor self);
  let self := set_supervisor w.1 self in
  r ← init (args self) true;
  mret (match r with Ok supervisor => (set_supervisor supervisor self, Ok tt) | Err e => (self, Err e) end).

Definition forward_signal (s : Signal.t) (self : Server) : L unit :=
  _ ← signal (wrap_i32 (Child.id (supervisor self))) s; mret tt.

Definition handle_message (self : Server) : L (Server * result Error.t TickState) :=
  m ← try_recv;
  match m with
  | Some b => services ← dispatch b (services self); mret (set_services services self, Ok Continue)
  | None =>
      w ← Child.try_wait (supervisor self);
      let self := set_supervisor w.1 self in
      match w.2 with
      | Ok None => mret (self, Ok Continue)
      | Ok (Some status) =>
          if bool_decide (exit_code status = Some ERR_NO_RETRY_EXCODE) then
            services ← ServiceTable.kill_all (services self);
            mret (set_services services self, Ok (Exit ERR_NO_RETRY_EXCODE))
          else if bool_decide (exit_code status = Some OK_NO_RETRY_EXCODE) then
            services ← ServiceTable.kill_all (services self);
            mret (set_services services self, Ok (Exit 0))
          else mret (self, Err Error.SupShutdown)
      | Err _ => mret (self, Err Error.SupShutdown)
      end
  end.

Definition reap_zombies (self : Server) : L Server :=
  s ← ServiceTable.reap_zombies (services self); mret (set_services s self).

Definition shutdown (self : Server) : L Server :=
  ok ← send (new : Shutdown.t);
  _ ← (if ok : bool then mret true else Child.kill (supervisor self));
  w ← Child.wait (supervisor self);
  let self := set_supervisor w.1 self in
  services ← ServiceTable.kill_all (services self);
  mret (set_services services self).

Definition tick (self : Server) : L (Server * result Error.t TickState) :=
  self ← reap_zombies self;
  s ← check_for_signal;
  match s with
  | Some SignalEvent.Shutdown => self ← shutdown self; mret (self, Ok (Exit 0))
  | Some (SignalEvent.Passthrough s) => _ ← forward_signal s self; handle_message self
  | None => handle_message self
  end.

(** [server::run]: the phases of its loops, and one round of them. *)
Inductive phase := Up (s : Server) | Reloading (s : Server) | Over (s : Server) (code : Z).

Definition advance (p : phase) : L phase :=
  match p with
  | Up s =>
      r ← tick s;
      mret (match r with
            | (s, Ok Continue) => Up s
            | (s, Ok (Exit code)) => Over s code
            | (s, Err _) => Reloading s
            end)
  | Reloading s =>
      r ← reload s;
      mret (match r with (s, Ok _) => Up s | (s, Err _) => Reloading s end)
  | Over s code => mret (Over s code)
  end.

(** What [server::run] does before its loop. *)
Definition start (args : list string) : L (result Error.t phase) :=
  r ← server_new args;
  match r with
  | Err e => mret (Err e)
  | Ok s => _ ← signals_init; mret (Ok (Up s))
  end.

(** Any number of rounds, the last of which may block. *)
Fixpoint rounds (n : nat) (p : phase) : L phase :=
  match n with
  | O => mret p
  | S n => p ← advance p; rounds n p
  end.

Definition launcher (n : nat) (args : list string) : L (result Error.t phase) :=
  r ← start args;
  match r with
  | Err e => mret (Err e)
  | Ok p => p ← rounds n p; mret (Ok p)
  end.
End launcher.

(** [main] ([main.rs]): the code with which the Launcher ends, from the result of [server::run]. *)
Definition main_exit_code (r : result Error.t Z) : Z := match r with Ok _ => 0 | Err _ => 1 end.
