(* ===== verification/LauncherLogic.v ===== *)
(** * Reasoning about the Launcher

    Rules that follow the code of the Launcher call by call, whatever happens between the calls:
    what it has started ([mine]) changes only when it starts a process or waits for one, a process
    that is doomed stays so, and every signal goes to a process of its own ([good]). *)

From S2P Require Import Prelude Regex Ident Text ByteText ProtoWire LauncherOs LauncherProto Launcher.
Local Open Scope Z_scope.
Local Open Scope list_scope.

(** The processes the Launcher has started and not waited for, with their command and group. *)
Definition mine (o : os) : gmap Z (Command * Z) := omap (fun pr => (fun c => (c, pgid pr)) <$> started pr) (procs o).

(** A process of the Launcher that has ended or been killed. *)
Definition doomed (o : os) (p : Z) : Prop :=
  forall pr c, procs o !! p = Some pr -> started pr = Some c -> state pr <> Running false.

(** Every signal went to a process of the Launcher, or to the group of one. *)
Definition signals_own (o : os) : Prop := Forall (fun s => s.2 = true) (sent o).

Record good (o : os) : Prop := {
  good_sent : signals_own o;
  good_pids : forall p x, mine o !! p = Some x -> 1 < p < 2 ^ 31;
}.

Lemma mine_lookup o p : mine o !! p = procs o !! p ≫= fun pr => (fun c => (c, pgid pr)) <$> started pr.
Proof. unfold mine. by rewrite lookup_omap. Qed.

Lemma mine_some o p c g : mine o !! p = Some (c, g) <-> exists pr, procs o !! p = Some pr /\ started pr = Some c /\ pgid pr = g.
Proof.
  rewrite mine_lookup. destruct (procs o !! p) as [pr|]; cbn; [|naive_solver].
  destruct (started pr) eqn:Hs; cbn; naive_solver.
Qed.

(** A process the Launcher has not started. *)
Definition stranger (o : os) (p : Z) : Prop := exists pr, procs o !! p = Some pr /\ started pr = None.

(** When nothing else happens on the machine, the other processes stay. *)
Definition quiet (o o' : os) : Prop :=
  happens (coming o) = [] -> happens (coming o') = [] /\ forall p, stranger o' p <-> stranger o p.

#[export] Instance quiet_preorder : PreOrder quiet.
Proof.
  split; [by intros o Ho|]. intros a b c Hab Hbc Ha. destruct (Hab Ha) as [Hb Hs]. destruct (Hbc Hb) as [Hc Hs'].
  split; [done|]. intros p. by rewrite Hs', Hs.
Qed.

(** ** What does not change while nothing is started and nothing waited for *)
Record keeps (o o' : os) : Prop := {
  keeps_mine : mine o' = mine o;
  keeps_doomed p : doomed o p -> doomed o' p;
  keeps_uid : my_uid o' = my_uid o;
  keeps_clock : clock o' = clock o;
  keeps_elapsed : elapsed (coming o') = elapsed (coming o);
}.

#[export] Instance keeps_preorder : PreOrder keeps.
Proof.
  split; [by split|]. intros a b c [Hm Hd Hu Hc He] [Hm' Hd' Hu' Hc' He'].
  split; [congruence|auto|congruence..].
Qed.

Definition stays (o o' : os) : Prop := keeps o o' /\ quiet o o'.

#[export] Instance stays_preorder : PreOrder stays.
Proof. split; [by split|]. intros a b c [] []. split; by etransitivity. Qed.

Lemma stays_mine o o' : stays o o' -> mine o' = mine o. Proof. by intros [[] _]. Qed.
Lemma stays_doomed o o' : stays o o' -> forall p, doomed o p -> doomed o' p. Proof. by intros [[] _]. Qed.
Lemma stays_uid o o' : stays o o' -> my_uid o' = my_uid o. Proof. by intros [[] _]. Qed.
Lemma stays_clock o o' : stays o o' -> clock o' = clock o. Proof. by intros [[] _]. Qed.
Lemma stays_elapsed o o' : stays o o' -> elapsed (coming o') = elapsed (coming o). Proof. by intros [[] _]. Qed.

(** The same processes, with nothing to wait for but signals sent. *)
Lemma good_stays o o' : good o -> mine o' = mine o -> sent o' = sent o -> good o'.
Proof. intros [Hs Hp] Hm He. split; [unfold signals_own; by rewrite He|intros p x; rewrite Hm; apply Hp]. Qed.

Lemma same_procs_keeps o o' : procs o' = procs o -> my_uid o' = my_uid o -> clock o' = clock o ->
  elapsed (coming o') = elapsed (coming o) -> keeps o o'.
Proof. intros Hp Hu Hc He. split; [unfold mine; by rewrite Hp|intros p; unfold doomed; by rewrite Hp|done..]. Qed.

Lemma same_procs_quiet o o' : procs o' = procs o -> happens (coming o') = happens (coming o) -> quiet o o'.
Proof. intros Hp Hh Ho. rewrite Hh. split; [done|]. intros p. unfold stranger. by rewrite Hp. Qed.

Lemma same_procs_stays o o' : procs o' = procs o -> my_uid o' = my_uid o -> clock o' = clock o ->
  elapsed (coming o') = elapsed (coming o) -> happens (coming o') = happens (coming o) -> stays o o'.
Proof. intros. split; [by apply same_procs_keeps|by apply same_procs_quiet]. Qed.

Lemma same_procs_good o o' : good o -> procs o' = procs o -> sent o' = sent o -> good o'.
Proof. intros Hg Hp Hs. apply (good_stays o); [done|unfold mine; by rewrite Hp|done]. Qed.

(** Changing one process that keeps what it was started with. *)
Lemma set_procs_insert o p pr pr' : procs o !! p = Some pr -> started pr' = started pr -> pgid pr' = pgid pr ->
  mine (set_procs (<[p := pr']> (procs o)) o) = mine o.
Proof.
  intros Hp Hs Hg. apply map_eq. intros q. rewrite !mine_lookup. cbn.
  destruct (decide (p = q)) as [<-|Hne]; [by rewrite lookup_insert_eq, Hp; cbn; rewrite Hs, Hg|by rewrite lookup_insert_ne].
Qed.

Lemma doomed_insert o p pr q : (forall c, started pr = Some c -> state pr <> Running false) -> doomed o q ->
  doomed (set_procs (<[p := pr]> (procs o)) o) q.
Proof.
  intros Hpr Hq x c. cbn. destruct (decide (p = q)) as [<-|Hne].
  - rewrite lookup_insert_eq. intros [= <-]. apply Hpr.
  - rewrite lookup_insert_ne by done. apply Hq.
Qed.

Lemma free_pid_spec p o : free_pid p o = true -> 1 < p < 2 ^ 31 /\ procs o !! p = None.
Proof. unfold free_pid. intros (H1 & H2 & _)%bool_decide_eq_true. done. Qed.

Lemma apply_event_keeps e o : good o -> keeps o (apply_event e o) /\ good (apply_event e o).
Proof.
  intros Hg. assert (forall o', procs o' = procs o -> my_uid o' = my_uid o -> clock o' = clock o ->
    elapsed (coming o') = elapsed (coming o) -> sent o' = sent o -> keeps o o' /\ good o') as Hsame.
  { intros o' ?????. split; [by apply same_procs_keeps|by apply (same_procs_good o)]. }
  assert (forall m, mine (set_procs m o) = mine o -> (forall p, doomed o p -> doomed (set_procs m o) p) ->
    keeps o (set_procs m o) /\ good (set_procs m o)) as Hset.
  { intros m Hm Hd. split; [by split|by apply (good_stays o)]. }
  destruct e as [p s|p g u|p|c|m]; cbn; [| | |by apply Hsame..].
  - destruct (procs o !! p) as [pr|] eqn:Hp; [|by apply Hsame]. destruct (state pr) eqn:Hst; [|by apply Hsame].
    apply Hset; [by apply (set_procs_insert _ _ pr)|]. intros q. by apply doomed_insert.
  - destruct (free_pid p o && usable_group p g o) eqn:Hf; [|by apply Hsame].
    apply andb_prop in Hf as [[_ Hn]%free_pid_spec _]. apply Hset; [|intros q; by apply doomed_insert].
    apply map_eq. intros q. rewrite !mine_lookup. cbn.
    destruct (decide (p = q)) as [<-|Hne]; [by rewrite lookup_insert_eq, Hn|by rewrite lookup_insert_ne].
  - destruct (procs o !! p) as [[[c|] g u [k|s]]|] eqn:Hp; try by apply Hsame. apply Hset.
    + apply map_eq. intros q. rewrite !mine_lookup. cbn.
      destruct (decide (p = q)) as [<-|Hne]; [by rewrite lookup_delete_eq, Hp|by rewrite lookup_delete_ne].
    + intros q Hq x c'. cbn. intros [_ Hx]%lookup_delete_Some. by apply Hq.
Qed.

(** ** Weakest preconditions: [B] says whether the computation may block *)
Definition wp (B : Prop) {A} (c : L A) (Q : A -> os -> Prop) (o : os) : Prop :=
  match c o with
  | (o', Done a) => good o' /\ Q a o'
  | (o', Blocks) => good o' /\ B
  end.

Section rules.
Context (B : Prop).
#[local] Abbreviation wp := (wp B).

Lemma wpl_ret {A} (a : A) Q o : good o -> Q a o -> wp (mret a) Q o.
Proof. by split. Qed.

Lemma wpl_bind {A C} (c : L A) (k : A -> L C) Q o : wp c (fun a => wp (k a) Q) o -> wp (c ≫= k) Q o.
Proof. unfold LauncherLogic.wp, mbind, L_bind. by destruct (c o) as [o' [a|]]; [intros [_ ?]|]. Qed.

Lemma wpl_mono {A} (c : L A) (P Q : A -> os -> Prop) o :
  wp c P o -> (forall a o', good o' -> P a o' -> Q a o') -> wp c Q o.
Proof. unfold LauncherLogic.wp. intros Hc HPQ. destruct (c o) as [o' [a|]]; naive_solver. Qed.

Lemma wp_gets {A} (f : os -> A) Q o : good o -> Q (f o) o -> wp (gets f) Q o.
Proof. by split. Qed.

Lemma wp_modifies f (Q : unit -> os -> Prop) o : good (f o) -> Q tt (f o) -> wp (modifies f) Q o.
Proof. by split. Qed.

Lemma wp_answers {A} (f : os -> os * A) (Q : A -> os -> Prop) o : good (f o).1 -> Q (f o).2 (f o).1 -> wp (answers f) Q o.
Proof. unfold LauncherLogic.wp, answers. by destruct (f o). Qed.

Lemma wp_blocks {A} (Q : A -> os -> Prop) o : good o -> B -> wp blocks Q o.
Proof. by split. Qed.

Lemma wp_happen (Q : unit -> os -> Prop) o : good o ->
  (forall o', stays o o' -> good o' -> Q tt o') -> wp happen Q o.
Proof.
  intros Hg HQ. unfold happen.
  assert (forall l o, good o -> keeps o (foldl (fun o e => apply_event e o) o l) /\ good (foldl (fun o e => apply_event e o) o l)) as Hl.
  { clear. induction l as [|e l IH]; intros o Hg; [by split|]. cbn.
    destruct (apply_event_keeps e o Hg) as [Hs Hg']. destruct (IH _ Hg') as [Hs' Hg'']. split; [by etransitivity|done]. }
  destruct (happens (coming o)) as [|l rest] eqn:Hh; (apply wp_modifies; rewrite Hh; [|apply HQ]).
  - done.
  - done.
  - done.
  - apply Hl. by apply (same_procs_good o).
  - split; [|by unfold quiet; rewrite Hh].
    etransitivity; [|apply Hl; by apply (same_procs_good o)]. by apply same_procs_keeps.
  - apply Hl. by apply (same_procs_good o).
Qed.
End rules.

(** ** System calls *)

(** A process was waited for. *)
Record reaped (p : Z) (o o' : os) : Prop := {
  reaped_mine : mine o' = delete p (mine o);
  reaped_doomed q : doomed o q -> doomed o' q;
  reaped_uid : my_uid o' = my_uid o;
  reaped_clock : clock o' = clock o;
  reaped_elapsed : elapsed (coming o') = elapsed (coming o);
  reaped_quiet : quiet o o';
}.

Lemma stays_reaped p o1 o2 o3 : stays o1 o2 -> reaped p o2 o3 -> reaped p o1 o3.
Proof.
  intros [[Hm Hd Hu Hc He] Hq] [Hm' Hd' Hu' Hc' He' Hq']. split; [congruence|auto|congruence..|by etransitivity].
Qed.

Lemma reap_reaped p o x : mine o !! p = Some x -> good o -> reaped p o (set_procs (delete p (procs o)) o) /\ good (set_procs (delete p (procs o)) o).
Proof.
  intros Hx [Hs Hp].
  assert (mine (set_procs (delete p (procs o)) o) = delete p (mine o)) as Hm.
  { apply map_eq. intros q. rewrite mine_lookup. cbn. destruct (decide (p = q)) as [<-|Hne].
    - by rewrite !lookup_delete_eq.
    - by rewrite !lookup_delete_ne, mine_lookup. }
  split; [split; try done|split; [done|]].
  - intros q Hq y c. cbn. intros [_ Hy]%lookup_delete_Some. by apply Hq.
  - intros Hh. split; [done|]. intros q. unfold stranger. cbn. destruct x as [c g].
    apply mine_some in Hx as (pr & Hpr & Hst & _).
    split; [intros (y & [_ Hy]%lookup_delete_Some & Hn); by exists y|]. intros (y & Hy & Hn). exists y.
    split; [|done]. apply lookup_delete_Some. split; [intros <-; congruence|done].
  - intros q y. rewrite Hm. intros [_ Hq]%lookup_delete_Some. by apply (Hp q y).
Qed.

Lemma deliver_keeps s pr : started (deliver s pr) = started pr /\ pgid (deliver s pr) = pgid pr
  /\ (state pr <> Running false -> state (deliver s pr) <> Running false).
Proof. unfold deliver. by destruct s, (state pr) as [[]|] eqn:Hst; rewrite ?Hst. Qed.

(** The signal of [kill(target)], delivered. *)
Definition signalled (target : Z) (s : Signal.t) (o : os) : os :=
  set_sent (sent o ++ [(target, s, is_own target o)])
    (set_procs (map_imap (fun p pr => Some (if receives target o p pr then deliver s pr else pr)) (procs o)) o).

Lemma signalled_stays target s o c g : good o -> mine o !! Z.abs target = Some (c, g) ->
  stays o (signalled target s o) /\ good (signalled target s o).
Proof.
  intros [Hs Hp] Ht.
  assert (mine (signalled target s o) = mine o) as Hm.
  { apply map_eq. intros q. rewrite !mine_lookup. cbn. rewrite map_lookup_imap.
    destruct (procs o !! q) as [pr|]; cbn; [|done].
    destruct (receives target o q pr); [|done]. by destruct (deliver_keeps s pr) as (-> & -> & _). }
  split; [split; [split; try done|]|split].
  - intros q Hq x c'. cbn. rewrite map_lookup_imap. destruct (procs o !! q) as [pr|] eqn:Hpr; cbn; [|done].
    intros [= <-]. destruct (receives target o q pr); [|by apply Hq].
    destruct (deliver_keeps s pr) as (-> & _ & Hd). intros Hc. apply Hd. by apply (Hq pr c').
  - intros Hh. split; [done|]. intros q. unfold stranger. cbn. rewrite map_lookup_imap.
    destruct (procs o !! q) as [pr|]; cbn; [|done]. destruct (deliver_keeps s pr) as (Hst & _ & _).
    split; [intros (y & [= <-] & Hn)|intros (y & [= <-] & Hn)]; eexists; (split; [done|]); by destruct (receives _ _ _ _); congruence.
  - unfold signals_own. cbn. apply Forall_app. split; [done|]. apply Forall_singleton. cbn. unfold is_own.
    apply mine_some in Ht as (pr & -> & -> & _). done.
  - intros q x. rewrite Hm. apply Hp.
Qed.

Section calls.
Context (B : Prop).
#[local] Abbreviation wp := (wp B).

(** A signal to a process of the Launcher, or to the group that it leads: the super user succeeds,
    and kills. *)
Lemma wp_signal target s c g (Q : bool -> os -> Prop) o : good o -> mine o !! Z.abs target = Some (c, g) ->
  (forall ok o', stays o o' -> good o' ->
     (my_uid o = 0 -> target = Z.abs target \/ g = Z.abs target ->
      ok = true /\ (s = Signal.KILL -> doomed o' (Z.abs target))) -> Q ok o') ->
  wp (signal target s) Q o.
Proof.
  intros Hg Ht HQ. unfold signal. apply wpl_bind, wp_happen; [done|]. intros o1 Hs1 Hg1.
  rewrite <- (stays_mine _ _ Hs1) in Ht. pose proof (good_pids _ Hg1 _ _ Ht) as Hp.
  apply wpl_bind, wp_gets; [done|].
  assert (my_uid o = 0 -> target = Z.abs target \/ g = Z.abs target ->
    exists pr, procs o1 !! Z.abs target = Some pr /\ receives target o1 (Z.abs target) pr = true) as Hhit.
  { intros Hu Hl. apply mine_some in Ht as (pr & Hpr & _ & Hgr). exists pr. split; [done|].
    unfold receives, permitted. rewrite (bool_decide_eq_true_2 (my_uid o1 = 0 \/ _)) by (left; by rewrite (stays_uid _ _ Hs1)).
    rewrite andb_true_r. unfold targeted. repeat case_bool_decide; try done; lia. }
  case_bool_decide as Hnone.
  - apply wpl_bind, wp_modifies; fold (signalled target s o1);
      destruct (signalled_stays target s o1 c g Hg1 Ht) as [Hs2 Hg2]; [done|].
    apply wpl_ret; [done|]. apply HQ; [by etransitivity|done|]. intros Hu Hl. split; [done|]. intros ->.
    destruct (Hhit Hu Hl) as (pr & Hpr & Hr). intros x c'. cbn. rewrite map_lookup_imap, Hpr. cbn. rewrite Hr.
    intros [= <-]. unfold deliver. by destruct (state pr) as [[]|] eqn:Hst; rewrite ?Hst.
  - apply wpl_ret; [done|]. apply HQ; [done..|]. intros Hu Hl. exfalso.
    destruct (Hhit Hu Hl) as (pr & Hpr & Hr). apply (Hnone (Z.abs target) pr) in Hpr. congruence.
Qed.

Lemma wp_getpgid p (Q : Z -> os -> Prop) o : good o ->
  (forall g' o', stays o o' -> good o' -> (forall c g, mine o !! p = Some (c, g) -> g' = g) -> Q g' o') ->
  wp (getpgid p) Q o.
Proof.
  intros Hg HQ. unfold getpgid. apply wpl_bind, wp_happen; [done|]. intros o1 Hs1 Hg1. apply wp_gets; [done|].
  apply HQ; [done..|]. intros c g Hm. rewrite <- (stays_mine _ _ Hs1) in Hm.
  apply mine_some in Hm as (pr & -> & _ & ->). done.
Qed.

(** Waiting for a process of the Launcher: it can block for one that is not doomed. *)
Lemma wp_waitpid p nohang x (Q : wait_answer -> os -> Prop) o : good o -> mine o !! p = Some x ->
  (nohang = true \/ B \/ doomed o p) ->
  (forall o', nohang = true -> stays o o' -> good o' -> Q NotYet o') ->
  (forall s o', reaped p o o' -> good o' -> Q (Ended s) o') ->
  wp (waitpid p nohang) Q o.
Proof.
  intros Hg Hm Hb Hnot Hend. unfold waitpid. apply wpl_bind, wp_happen; [done|]. intros o1 Hs1 Hg1.
  apply wpl_bind, wp_gets; [done|]. rewrite <- (stays_mine _ _ Hs1) in Hm. destruct x as [c g].
  assert (forall s o2, reaped p o1 o2 -> good o2 -> Q (Ended s) o2) as Hend1.
  { intros s o2 Hr. apply Hend. by eapply stays_reaped. }
  assert (forall s o1', procs o1' = procs o1 -> stays o1 o1' -> good o1' -> wp (_ ← reap p; mret (Ended s)) Q o1') as Hreap.
  { intros s o1' Hsame Hs1' Hg1'. destruct (reap_reaped p o1' _ (eq_trans (f_equal (.!! p) (stays_mine _ _ Hs1')) Hm) Hg1') as [Hr Hg2].
    apply wpl_bind, wp_modifies; [done|]. apply wpl_ret; [done|]. apply Hend1; [|done]. by eapply stays_reaped. }
  apply mine_some in Hm as (pr & Hpr & Hst & Hgr). rewrite Hpr. destruct pr as [st g' u stt]. cbn in *. subst st g'.
  destruct stt as [killed|s].
  - destruct nohang; [apply wpl_ret; [done|]; by apply Hnot|]. apply wpl_bind.
    destruct killed; [apply wpl_ret; [done|]; by apply Hreap|]. unfold next_end. apply wpl_bind, wp_gets; [done|].
    destruct (ends (coming o1)) as [|s l].
    + apply wp_blocks; [done|]. destruct Hb as [|[|Hd]]; [done..|]. exfalso.
      eapply (stays_doomed _ _ Hs1 p Hd); done.
    + apply wpl_bind, wp_modifies; [by apply (same_procs_good o1)|]. apply wpl_ret; [by apply (same_procs_good o1)|].
      apply Hreap; [done|by apply same_procs_stays|by apply (same_procs_good o1)].
  - by apply Hreap.
Qed.

(** Reading the clock. *)
Lemma wp_now (Q : Z -> os -> Prop) o : good o ->
  (forall t o', mine o' = mine o -> (forall p, doomed o p -> doomed o' p) -> my_uid o' = my_uid o -> quiet o o' -> good o' ->
     clock o' = t -> clock o <= t ->
     (elapsed (coming o) = [] /\ t = clock o + 8 * 10 ^ 9 \/ (length (elapsed (coming o')) < length (elapsed (coming o)))%nat) ->
     Q t o') ->
  wp now Q o.
Proof.
  intros Hg HQ. unfold now. apply wpl_bind, wp_happen; [done|]. intros o1 Hs1 Hg1. apply wp_answers.
  - destruct (elapsed (coming o1)); by apply (same_procs_good o1).
  - destruct Hs1 as [[Hm Hd Hu Hc He] Hq]. rewrite He.
    assert (forall o2, procs o2 = procs o1 -> happens (coming o2) = happens (coming o1) -> quiet o o2) as Hq2.
    { intros. etransitivity; [exact Hq|by apply same_procs_quiet]. }
    destruct (elapsed (coming o)) as [|d l]; cbn.
    + apply HQ; try done; try (by apply Hq2); [by apply (same_procs_good o1)|lia|]. left. split; [done|]. lia.
    + apply HQ; try done; try (by apply Hq2); [by apply (same_procs_good o1)|lia|]. right. cbn. lia.
Qed.

(** Starting a process. *)
Lemma wp_spawn cmd (Q : option Z -> os -> Prop) o : good o ->
  (forall o', stays o o' -> good o' -> Q None o') ->
  (forall p g o', mine o !! p = None -> mine o' = <[p := (cmd, g)]> (mine o) -> 1 < p < 2 ^ 31 ->
     (forall q, q <> p -> doomed o q -> doomed o' q) -> my_uid o' = my_uid o -> quiet o o' -> good o' -> Q (Some p) o') ->
  wp (spawn cmd) Q o.
Proof.
  intros Hg Hnone Hsome. unfold spawn. apply wpl_bind, wp_happen; [done|]. intros o1 Hs1 Hg1.
  apply wpl_bind. eapply wpl_mono with (P := fun _ o2 => stays o o2).
  { apply wp_answers; [destruct (forks (coming o1)); by apply (same_procs_good o1)|].
    etransitivity; [exact Hs1|]. destruct (forks (coming o1)); by apply same_procs_stays. }
  intros answer o2 Hg2 Hs2. destruct answer as [[p grouped]|]; [|apply wpl_ret; [done|]; by apply Hnone].
  apply wpl_bind, wp_gets; [done|]. destruct (free_pid p o2) eqn:Hf; [|apply wpl_ret; [done|]; by apply Hnone].
  apply free_pid_spec in Hf as [Hp Hn]. 
  set (pr := Proc (Some cmd) (if own_group cmd && grouped then p else my_group o2) (default (my_uid o2) (set_uid cmd)) (Running false)).
  set (o3 := set_procs (<[p := pr]> (procs o2)) o2).
  assert (mine o3 = <[p := (cmd, pgid pr)]> (mine o2)) as Hm.
  { apply map_eq. intros q. rewrite mine_lookup. cbn. destruct (decide (p = q)) as [<-|Hne].
    - by rewrite !lookup_insert_eq.
    - by rewrite !lookup_insert_ne, mine_lookup. }
  assert (good o3) as Hg3.
  { split; [apply Hg2|]. intros q x. rewrite Hm. destruct (decide (p = q)) as [<-|Hne]; [done|].
    rewrite lookup_insert_ne by done. apply (good_pids _ Hg2). }
  apply wpl_bind, wp_modifies; [done|]. apply wpl_ret; [done|]. apply (Hsome p (pgid pr)); try done.
  - rewrite <- (stays_mine _ _ Hs2), mine_lookup, Hn. done.
  - by rewrite <- (stays_mine _ _ Hs2).
  - intros q Hne Hq. intros x c'. cbn. rewrite lookup_insert_ne by done. by apply (stays_doomed _ _ Hs2 q Hq).
  - by rewrite <- (stays_uid _ _ Hs2).
  - transitivity o2; [apply Hs2|]. intros Hh. split; [done|]. intros q. unfold stranger. cbn.
    destruct (decide (p = q)) as [<-|Hne]; [|by rewrite lookup_insert_ne].
    rewrite lookup_insert_eq, Hn. split; intros (y & Hy & Hs); [by injection Hy as <-|done].
Qed.

(** Calls that do not touch processes. *)
Lemma wp_answers_quiet {A} (f : os -> os * A) (Q : A -> os -> Prop) o : good o ->
  (forall o, procs (f o).1 = procs o /\ my_uid (f o).1 = my_uid o /\ clock (f o).1 = clock o
             /\ elapsed (coming (f o).1) = elapsed (coming o) /\ happens (coming (f o).1) = happens (coming o)
             /\ sent (f o).1 = sent o) ->
  (forall a o', stays o o' -> good o' -> Q a o') ->
  wp (_ ← happen; answers f) Q o.
Proof.
  intros Hg Hf HQ. apply wpl_bind, wp_happen; [done|]. intros o1 Hs1 Hg1. destruct (Hf o1) as (Hp & Hu & Hc & He & Hh & Hst).
  apply wp_answers; [by apply (same_procs_good o1)|]. apply HQ; [|by apply (same_procs_good o1)].
  etransitivity; [done|]. by apply same_procs_stays.
Qed.

Lemma wp_tx_send m (Q : bool -> os -> Prop) o : good o -> (forall a o', stays o o' -> good o' -> Q a o') -> wp (tx_send m) Q o.
Proof. intros Hg. apply wp_answers_quiet; [done|]. intros x. by destruct (sends (coming x)) as [|[]]. Qed.

Lemma wp_try_recv (Q : option bytes -> os -> Prop) o : good o -> (forall a o', stays o o' -> good o' -> Q a o') -> wp try_recv Q o.
Proof. intros Hg. apply wp_answers_quiet; [done|]. intros x. by destruct (inbox x). Qed.

Lemma wp_new_pipe (Q : option string -> os -> Prop) o : good o -> (forall a o', stays o o' -> good o' -> Q a o') -> wp new_pipe Q o.
Proof. intros Hg. apply wp_answers_quiet; [done|]. intros x. by destruct (pipes (coming x)). Qed.

Lemma wp_connect s (Q : bool -> os -> Prop) o : good o -> (forall a o', stays o o' -> good o' -> Q a o') -> wp (connect s) Q o.
Proof. intros Hg. apply wp_answers_quiet; [done|]. intros x. by destruct (connects (coming x)) as [|[]]. Qed.

Lemma wp_accept (Q : option bytes -> os -> Prop) o : good o -> B -> (forall a o', stays o o' -> good o' -> Q a o') -> wp accept Q o.
Proof.
  intros Hg Hb HQ. unfold accept. apply wpl_bind, wp_happen; [done|]. intros o1 Hs1 Hg1. apply wpl_bind, wp_gets; [done|].
  assert (forall a o2, stays o1 o2 -> good o2 -> Q a o2) as HQ1 by (intros; apply HQ; [by etransitivity|done]).
  destruct (accepts (coming o1)) as [|[m|] l]; [by apply wp_blocks|..];
    (apply wpl_bind, wp_modifies; [by apply (same_procs_good o1)|]);
    (apply wpl_ret; [by apply (same_procs_good o1)|]); apply HQ1;
    [by apply same_procs_stays|by apply (same_procs_good o1)|by apply same_procs_stays|by apply (same_procs_good o1)].
Qed.

Lemma wp_check_for_signal (Q : option SignalEvent.t -> os -> Prop) o : good o ->
  (forall a o', stays o o' -> good o' -> Q a o') -> wp check_for_signal Q o.
Proof.
  intros Hg HQ. unfold check_for_signal. apply wpl_bind, wp_happen; [done|]. intros o1 Hs1 Hg1.
  apply wpl_bind, wp_gets; [done|]. destruct (caught o1); [|apply wpl_ret; [done|]; by apply HQ].
  apply wpl_bind, wp_gets; [done|].
  assert (forall a, wp (_ ← modifies (set_signal false 0); mret a) Q o1) as Hclear.
  { intros a. apply wpl_bind, wp_modifies; [by apply (same_procs_good o1)|]. apply wpl_ret; [by apply (same_procs_good o1)|].
    apply HQ; [|by apply (same_procs_good o1)]. etransitivity; [done|]. by apply same_procs_stays. }
  destruct (Signal.from_signal_code (signal_code o1)) as [[]|]; try apply Hclear; (apply wpl_ret; [done|]; by apply HQ).
Qed.

Lemma wp_signals_init (Q : unit -> os -> Prop) o : good o -> (forall o', stays o o' -> good o' -> Q tt o') -> wp signals_init Q o.
Proof.
  intros Hg HQ. unfold signals_init. apply wpl_bind, wp_happen; [done|]. intros o1 Hs1 Hg1.
  apply wp_modifies; [by apply (same_procs_good o1)|]. apply HQ; [|by apply (same_procs_good o1)].
  etransitivity; [done|]. by apply same_procs_stays.
Qed.
End calls.
