(* ===== verification/LauncherProofs.v ===== *)
(** * The Launcher keeps its services

    Whatever happens on the machine: the table of services has exactly the service processes that
    run, signals go to processes of the Launcher's own only, and when the Launcher ends no service
    is left running.  Then the requests of the Supervisor, one by one. *)

From S2P Require Import Prelude Regex Ident Text ByteText ProtoWire LauncherOs LauncherProto Launcher LauncherLogic.
Local Open Scope Z_scope.
Local Open Scope list_scope.

(** The processes of the Launcher change to [m]; time passes. *)
Record moves (m : gmap Z (Command * Z)) (o o' : os) : Prop := {
  moves_mine : mine o' = m;
  moves_doomed p : doomed o p -> doomed o' p;
  moves_uid : my_uid o' = my_uid o;
  moves_quiet : quiet o o';
}.

Lemma stays_moves o o' : stays o o' -> moves (mine o) o o'.
Proof. intros [[? ? ?] ?]. by split. Qed.
Lemma reaped_moves p o o' : reaped p o o' -> moves (delete p (mine o)) o o'.
Proof. intros [? ? ? ? ? ?]. by split. Qed.
Lemma moves_trans m m' o1 o2 o3 : moves m o1 o2 -> moves m' o2 o3 -> moves m' o1 o3.
Proof. intros [? ? ? ?] [? ? ? ?]. split; [done|auto|congruence|by etransitivity]. Qed.
Lemma moves_refl o : moves (mine o) o o.
Proof. by split. Qed.

(** ** Processes *)
Section process.
Context (B : Prop).
#[local] Abbreviation wp := (wp B).
Implicit Types self : Process.t.

Lemma wp_process_try_wait self x Q o : good o -> Process.status self = None -> mine o !! Process.pid self = Some x ->
  (forall o', stays o o' -> good o' -> Q (self, Ok None) o') ->
  (forall s o', reaped (Process.pid self) o o' -> good o' -> Q (Process.mk (Process.pid self) (Some s), Ok (Some s)) o') ->
  wp (Process.try_wait self) Q o.
Proof.
  intros Hg Hs Hm Hnot Hend. unfold Process.try_wait. rewrite Hs. apply wpl_bind.
  apply (wp_waitpid B _ _ x); [done|done|by left|..]; intros; (apply wpl_ret; [done|]); [by apply Hnot|by apply Hend].
Qed.

Lemma wp_process_wait self x Q o : good o -> Process.status self = None -> mine o !! Process.pid self = Some x ->
  B \/ doomed o (Process.pid self) ->
  (forall s o', moves (delete (Process.pid self) (mine o)) o o' -> good o' ->
     Q (Process.mk (Process.pid self) (Some s), Ok s) o') ->
  wp (Process.wait self) Q o.
Proof.
  intros Hg Hs Hm Hb Hend. unfold Process.wait. rewrite Hs. apply wpl_bind.
  apply (wp_waitpid B _ _ x); [done|done|by right|done|]. intros s o' Hr Hg'. apply wpl_ret; [done|].
  by apply Hend; [apply reaped_moves|].
Qed.

(** How [kill] ends: the process was waited for, or it is still there, and then it was killed if
    the Launcher may do so. *)
Definition killed (self : Process.t) (Q : Process.t * ShutdownMethod.t -> os -> Prop) (o : os) : Prop :=
  (forall s o', moves (delete (Process.pid self) (mine o)) o o' -> good o' ->
     Q (Process.mk (Process.pid self) (Some s), ShutdownMethod.GracefulTermination) o') /\
  (forall m o', moves (mine o) o o' -> good o' ->
     (my_uid o = 0 -> m = ShutdownMethod.Killed /\ doomed o' (Process.pid self)) -> Q (self, m) o').

Lemma killed_moves self Q o o' : moves (mine o) o o' -> killed self Q o -> killed self Q o'.
Proof.
  intros Hm [H1 H2]. pose proof (moves_mine _ _ _ Hm) as He. split.
  - intros s o2 Hm2 Hg2. apply H1; [|done]. rewrite He in Hm2. by eapply moves_trans.
  - intros m o2 Hm2 Hg2 Hr. apply H2; [rewrite He in Hm2; by eapply moves_trans|done|].
    intros Hu. apply Hr. by rewrite (moves_uid _ _ _ Hm).
Qed.

Lemma wp_kill_loop fuel target stop self c g Q o :
  good o -> Process.status self = None -> mine o !! Process.pid self = Some (c, g) ->
  Z.abs target = Process.pid self -> target = Z.abs target \/ g = Z.abs target ->
  (length (elapsed (coming o)) < fuel)%nat -> stop <= clock o + 8 * 10 ^ 9 -> killed self Q o ->
  wp (Process.kill_loop fuel target stop self) Q o.
Proof.
  revert o. induction fuel as [|fuel IH]; intros o Hg Hs Hm Ht Htg Hf Hstop HQ; [lia|]. cbn [Process.kill_loop].
  apply wpl_bind. apply (wp_process_try_wait _ (c, g)); [done..| |].
  - intros o1 Hs1 Hg1. pose proof (killed_moves _ _ _ _ (stays_moves _ _ Hs1) HQ) as HQ1.
    rewrite <- (stays_mine _ _ Hs1) in Hm.
    apply wpl_bind, wp_now; [done|]. intros t o2 Hm2 Hd2 Hu2 Hq2 Hg2 Hc2 Hle Htime.
    assert (moves (mine o1) o1 o2) as Hmv by by split. rewrite (stays_clock _ _ Hs1), (stays_elapsed _ _ Hs1) in *.
    apply (killed_moves _ _ _ _ Hmv) in HQ1. destruct (Z.ltb_spec t stop) as [Hlt|_].
    + destruct Htime as [[_ ?]|Hshort]; [lia|]. apply IH; try done; [by rewrite Hm2|lia|lia].
    + apply wpl_bind. apply (wp_signal B target Signal.KILL c g); [done|by rewrite Hm2, Ht|].
      intros ok o3 Hs3 Hg3 Hroot. apply wpl_ret; [done|]. destruct HQ1 as [_ HQ1].
      apply HQ1; [by apply stays_moves|done|]. intros Hu. destruct (Hroot Hu Htg) as [-> Hd].
      split; [done|]. rewrite <- Ht. by apply Hd.
  - intros s o1 Hr Hg1. apply wpl_ret; [done|]. apply HQ; [by apply reaped_moves|done].
Qed.

(** [kill] returns, whatever happens. *)
Lemma wp_process_kill self x Q o : good o -> Process.status self = None -> mine o !! Process.pid self = Some x ->
  killed self Q o -> wp (Process.kill self) Q o.
Proof.
  destruct x as [c g]. intros Hg Hs Hm HQ. pose proof (good_pids _ Hg _ _ Hm) as Hp. unfold Process.kill.
  apply wpl_bind, wp_getpgid; [done|]. intros g' o1 Hs1 Hg1 Hgr. specialize (Hgr _ _ Hm) as ->.
  pose proof (killed_moves _ _ _ _ (stays_moves _ _ Hs1) HQ) as HQ1. rewrite <- (stays_mine _ _ Hs1) in Hm.
  set (target := if bool_decide (Process.pid self = g) then - Process.pid self else Process.pid self).
  assert (Z.abs target = Process.pid self /\ (target = Z.abs target \/ g = Z.abs target)) as [Ht Htg].
  { unfold target. case_bool_decide; lia. }
  apply wpl_bind. apply (wp_signal B target Signal.TERM c g); [done|by rewrite Ht|].
  intros ok o2 Hs2 Hg2 Hroot. pose proof (killed_moves _ _ _ _ (stays_moves _ _ Hs2) HQ1) as HQ2.
  rewrite <- (stays_mine _ _ Hs2) in Hm. destruct ok.
  - apply wpl_bind, wp_now; [done|]. intros t o3 Hm3 Hd3 Hu3 Hq3 Hg3 Hc3 Hle Htime.
    assert (moves (mine o2) o2 o3) as Hmv by by split. apply (killed_moves _ _ _ _ Hmv) in HQ2.
    apply wpl_bind, wp_gets; [done|]. apply (wp_kill_loop _ _ _ _ c g); try done; [by rewrite Hm3|lia|lia].
  - apply wpl_ret; [done|]. apply HQ2; [apply moves_refl|done|]. intros Hu. exfalso.
    rewrite (stays_uid _ _ Hs2) in Hu. by destruct (Hroot Hu Htg).
Qed.
End process.

(** ** The table of services *)

Definition ended (s : LaunchedService.t) : Prop := Process.status (LaunchedService.process s) <> None.
Definition running (T : ServiceTable.t) (p : Z) : Prop := exists s, T !! p = Some s /\ ~ ended s.

(** The table has the services under their numbers, each entry whose end is not known is a process
    with the arguments of the entry, and every service process is in the table. *)
Record tracks (T : ServiceTable.t) (o : os) : Prop := {
  tracks_id k s : T !! k = Some s -> LaunchedService.id s = k;
  tracks_proc k s : T !! k = Some s -> ~ ended s ->
    exists uid gid g, mine o !! k = Some (service_command (LaunchedService.args s) uid gid, g);
  tracks_all p c g : mine o !! p = Some (c, g) -> own_group c = true -> running T p;
}.

(** No entry is known to have ended. *)
Definition all_running (T : ServiceTable.t) : Prop := forall k s, T !! k = Some s -> ~ ended s.

(** The processes other than services are still there. *)
Definition others_kept (o o' : os) : Prop :=
  forall p c g, mine o !! p = Some (c, g) -> own_group c = false -> mine o' !! p = Some (c, g).

Record serves (o o' : os) : Prop := {
  serves_others : others_kept o o';
  serves_uid : my_uid o' = my_uid o;
  serves_quiet : quiet o o';
}.

#[export] Instance serves_preorder : PreOrder serves.
Proof.
  split; [intros o; split; [by intros p c g Hp _|done|done]|]. intros a b c [H1 Hu1 Hq1] [H2 Hu2 Hq2].
  split; [|congruence|by etransitivity]. intros p cm g Hp Ho. by apply H2; [apply H1|].
Qed.

Lemma moves_serves o o' : moves (mine o) o o' -> serves o o'.
Proof. intros [Hm _ Hu Hq]. split; [|done|done]. intros p c g. by rewrite Hm. Qed.

Lemma tracks_mine T o o' : mine o' = mine o -> tracks T o -> tracks T o'.
Proof. intros Hm [H1 H2 H3]. split; [done|intros k s; rewrite Hm; apply H2|intros p c g; rewrite Hm; apply H3]. Qed.

(** A process of the table was waited for. *)
Lemma tracks_gone T k s st o o' : tracks T o -> T !! k = Some s -> mine o' = delete k (mine o) ->
  tracks (<[k := LaunchedService.set_process (Process.mk k (Some st)) s]> T) o'.
Proof.
  intros [H1 H2 H3] Hk Hm. split.
  - intros k' s'. destruct (decide (k = k')) as [<-|Hne]; [rewrite lookup_insert_eq; by intros [= <-]|].
    rewrite lookup_insert_ne by done. apply H1.
  - intros k' s'. destruct (decide (k = k')) as [<-|Hne]; [rewrite lookup_insert_eq; by intros [= <-] []|].
    rewrite lookup_insert_ne, Hm, lookup_delete_ne by done. apply H2.
  - intros p c g. rewrite Hm. intros [Hne Hp]%lookup_delete_Some Ho. destruct (H3 p c g Hp Ho) as (s' & Hs' & He).
    exists s'. by rewrite lookup_insert_ne.
Qed.

Lemma tracks_delete T k o : tracks T o -> (forall c g, mine o !! k = Some (c, g) -> own_group c = false) -> tracks (delete k T) o.
Proof.
  intros [H1 H2 H3] Hk. split.
  - intros k' s' [_ Hs']%lookup_delete_Some. by apply H1.
  - intros k' s' [_ Hs']%lookup_delete_Some. by apply H2.
  - intros p c g Hp Ho. destruct (H3 p c g Hp Ho) as (s' & Hs' & He). exists s'. split; [|done].
    apply lookup_delete_Some. split; [intros <-; by rewrite (Hk c g) in Ho|done].
Qed.

(** A service was started. *)
Lemma tracks_insert T p msg uid gid g o o' : tracks T o -> 1 < p < 2 ^ 31 ->
  mine o' = <[p := (service_command msg uid gid, g)]> (mine o) ->
  tracks (ServiceTable.insert (LaunchedService.new msg (Process.new p)) T) o'.
Proof.
  intros [H1 H2 H3] Hp Hm. unfold ServiceTable.insert.
  assert (LaunchedService.id (LaunchedService.new msg (Process.new p)) = p) as Hid by (apply wrap_i32_id; lia). rewrite Hid. split.
  - intros k s. destruct (decide (p = k)) as [<-|Hne]; [rewrite lookup_insert_eq; by intros [= <-]|].
    rewrite lookup_insert_ne by done. apply H1.
  - intros k s. rewrite Hm. destruct (decide (p = k)) as [<-|Hne].
    + rewrite !lookup_insert_eq. intros [= <-] _. by exists uid, gid, g.
    + rewrite !lookup_insert_ne by done. apply H2.
  - intros q c g'. rewrite Hm. unfold running. destruct (decide (p = q)) as [<-|Hne].
    + rewrite !lookup_insert_eq. intros _ _. eexists. split; [done|]. intros He. by apply He.
    + rewrite !lookup_insert_ne by done. apply H3.
Qed.

Lemma entry_mine T k s o : tracks T o -> T !! k = Some s -> ~ ended s ->
  Process.status (LaunchedService.process s) = None /\ Process.pid (LaunchedService.process s) = k /\
  exists uid gid g, mine o !! k = Some (service_command (LaunchedService.args s) uid gid, g).
Proof.
  intros HT Hk He. split_and!; [|by apply (tracks_id _ _ HT)|by apply (tracks_proc _ _ HT)].
  destruct (Process.status (LaunchedService.process s)) eqn:Hs; [|done]. exfalso. apply He. unfold ended. by rewrite Hs.
Qed.

Lemma set_same_process s : LaunchedService.set_process (LaunchedService.process s) s = s.
Proof. by destruct s. Qed.

(** A service process that is waited for is not one of the others. *)
Lemma gone_serves T k s o o' : tracks T o -> T !! k = Some s -> ~ ended s ->
  moves (delete k (mine o)) o o' -> serves o o'.
Proof.
  intros HT Hk He [Hm _ Hu Hq]. destruct (tracks_proc _ _ HT k s Hk He) as (u & gi & g' & Hmine).
  split; [|done|done]. intros p c g Hp Ho. rewrite Hm, lookup_delete_ne; [done|]. intros <-.
  rewrite Hmine in Hp. by injection Hp as <- _.
Qed.

Section table.
Context (B : Prop).
#[local] Abbreviation wp := (wp B).

Lemma fst_elem_of {K A} (k : K) (a : A) (l : list (K * A)) : (k, a) ∈ l -> k ∈ l.*1.
Proof. intros Hl. apply list_elem_of_fmap. by exists (k, a). Qed.

(** Every entry of the list is one of the table. *)
Definition listed (l : list (Z * LaunchedService.t)) (T : ServiceTable.t) : Prop :=
  NoDup l.*1 /\ forall k s, (k, s) ∈ l -> T !! k = Some s.

Lemma listed_cons k s l T s' : listed ((k, s) :: l) T -> T !! k = Some s /\ listed l (<[k := s']> T) /\ (k ∉ l.*1).
Proof.
  intros [Hnd Hl]. cbn in Hnd. apply NoDup_cons in Hnd as [Hk Hnd]. split_and!; [apply Hl; set_solver| |done]. split; [done|].
  intros k' s'' Hin. rewrite lookup_insert_ne; [apply Hl; set_solver|]. intros <-. apply Hk.
  by apply (fst_elem_of k s'').
Qed.

Lemma listed_all (T : ServiceTable.t) : listed (map_to_list T) T.
Proof. split; [apply NoDup_fst_map_to_list|]. by intros k s ?%elem_of_map_to_list. Qed.

Lemma wp_service_kill T k s Q o : good o -> tracks T o -> T !! k = Some s -> ~ ended s ->
  (forall s' m o', good o' -> tracks (<[k := s']> T) o' -> serves o o' -> (forall p, doomed o p -> doomed o' p) ->
     ((exists st, s' = LaunchedService.set_process (Process.mk k (Some st)) s) /\ m = ShutdownMethod.GracefulTermination
        /\ mine o' = delete k (mine o) \/
      s' = s /\ mine o' = mine o /\ (my_uid o = 0 -> m = ShutdownMethod.Killed /\ doomed o' k)) -> Q (s', m) o') ->
  wp (LaunchedService.kill s) Q o.
Proof.
  intros Hg HT Hk He HQ. destruct (entry_mine _ _ _ _ HT Hk He) as (Hs & Hpid & u & gi & g & Hm).
  unfold LaunchedService.kill. apply wpl_bind. eapply wp_process_kill; [done|done|by rewrite Hpid|]. split.
  - intros st o' Hmv Hg'. apply wpl_ret; [done|]. rewrite Hpid in *. cbn.
    apply HQ; try done; [eapply tracks_gone; [done..|apply Hmv]|by eapply gone_serves|apply Hmv|].
    left. split_and!; [by exists st|done|apply Hmv].
  - intros m o' Hmv Hg' Hr. apply wpl_ret; [done|]. cbn [fst snd]. rewrite set_same_process, Hpid in *.
    apply HQ; try done; [rewrite insert_id by done; eapply tracks_mine; [apply Hmv|done]|by apply moves_serves|apply Hmv|].
    right. split_and!; [done|apply Hmv|done].
Qed.

Lemma wp_kill_each l T Q o : good o -> tracks T o -> listed l T -> (forall k s, (k, s) ∈ l -> ~ ended s) ->
  (my_uid o = 0 -> forall p, running T p -> p ∉ l.*1 -> doomed o p) ->
  (forall T' o', good o' -> tracks T' o' -> serves o o' -> (my_uid o = 0 -> forall p, running T' p -> doomed o' p) -> Q T' o') ->
  wp (ServiceTable.kill_each l T) Q o.
Proof.
  revert T o. induction l as [|[k s] l IH]; intros T o Hg HT Hl Hrun Hdone HQ; cbn [ServiceTable.kill_each].
  { apply wpl_ret; [done|]. apply HQ; [done..|]. intros Hu p Hp. apply Hdone; [done|done|apply not_elem_of_nil]. }
  destruct (listed_cons k s l T s Hl) as (Hk & _ & Hnk).
  apply wpl_bind. apply (wp_service_kill T k); [done|done|done|apply (Hrun k); set_solver|].
  intros s' m o' Hg' HT' Hsv Hd Hcase. apply IH; [done|done|by apply (listed_cons k s l T)|set_solver| |].
  - rewrite (serves_uid _ _ Hsv). intros Hu p (s2 & Hs2 & He2) Hp. destruct (decide (p = k)) as [->|Hne].
    + rewrite lookup_insert_eq in Hs2. injection Hs2 as <-. destruct Hcase as [[[st ->] _]|(_ & _ & Hr)]; [|by apply Hr].
      exfalso. by apply He2.
    + rewrite lookup_insert_ne in Hs2 by done. apply Hd, Hdone; [done|by exists s2|set_solver].
  - intros T2 o2 Hg2 HT2 Hsv2 Hd2. apply HQ; [done|done|by etransitivity|].
    intros Hu. apply Hd2. by rewrite (serves_uid _ _ Hsv).
Qed.

Lemma wp_kill_all T Q o : good o -> tracks T o -> all_running T ->
  (forall T' o', good o' -> tracks T' o' -> serves o o' -> (my_uid o = 0 -> forall p, running T' p -> doomed o' p) -> Q T' o') ->
  wp (ServiceTable.kill_all T) Q o.
Proof.
  intros Hg HT Hrun HQ. apply wp_kill_each; [done|done|apply listed_all| | |done].
  - intros k s ?%elem_of_map_to_list. by apply (Hrun k).
  - intros _ p (s & Hs & _) Hp. exfalso. apply Hp. apply elem_of_map_to_list in Hs. by apply (fst_elem_of p s).
Qed.

(** The entries that are known to have ended are those marked for removal. *)
Lemma wp_reap_each l dead T Q o : good o -> tracks T o -> listed l T ->
  (forall k s, T !! k = Some s -> k ∉ l.*1 -> ended s <-> k ∈ dead) -> (forall k, k ∈ l.*1 -> k ∉ dead) ->
  (forall T' dead' o', good o' -> tracks T' o' -> serves o o' -> (forall p, doomed o p -> doomed o' p) ->
     (forall k s, T' !! k = Some s -> ended s <-> k ∈ dead') -> Q (T', dead') o') ->
  wp (ServiceTable.reap_each l dead T) Q o.
Proof.
  revert dead T o. induction l as [|[k s] l IH]; intros dead T o Hg HT Hl Hdead Hnot HQ; cbn [ServiceTable.reap_each].
  { apply wpl_ret; [done|]. apply HQ; [done|done|done|done|]. intros k s Hk. apply Hdead; [done|apply not_elem_of_nil]. }
  assert (forall s' dead' o1, good o1 -> tracks (<[k := s']> T) o1 -> serves o o1 -> (forall p, doomed o p -> doomed o1 p) ->
    (ended s' <-> k ∈ dead') -> (forall k', k' <> k -> k' ∈ dead' <-> k' ∈ dead) ->
    wp (ServiceTable.reap_each l dead' (<[k := s']> T)) Q o1) as Hnext.
  { intros s' dead' o1 Hg1 HT1 Hsv1 Hd1 Hk' Hoth. destruct (listed_cons k s l T s' Hl) as (Hk & Hl' & Hnk).
    apply IH; [done|done|done| | |].
    - intros k2 s2. destruct (decide (k = k2)) as [<-|Hne]; [rewrite lookup_insert_eq; by intros [= <-]|].
      rewrite lookup_insert_ne, Hoth by done. intros Hs2 Hk2. apply Hdead; [done|set_solver].
    - intros k2 Hk2. assert (k2 <> k) by (by intros ->). rewrite Hoth by done. apply Hnot. set_solver.
    - intros T2 dead2 o2 Hg2 HT2 Hsv2 Hd2 He2. apply HQ; [done|done|by etransitivity|auto|done]. }
  assert (T !! k = Some s) as Hk by (apply Hl; set_solver). assert (k ∉ dead) as Hkd by (apply Hnot; set_solver).
  pose proof (tracks_id _ _ HT k s Hk) as Hid.
  apply wpl_bind. unfold LaunchedService.try_wait. apply wpl_bind. destruct (decide (Process.status (LaunchedService.process s) = None)) as [Hs|Hs].
  - destruct (entry_mine _ _ _ _ HT Hk ltac:(intros He; by apply He)) as (_ & Hpid & u & gi & g & Hm).
    eapply wp_process_try_wait; [done|done|by rewrite Hpid|..].
    + intros o1 Hs1 Hg1. apply wpl_ret; [done|]. cbn [fst snd]. rewrite set_same_process. pose proof (stays_moves _ _ Hs1) as Hmv.
      apply Hnext; [done| |by apply moves_serves|apply Hmv|split; [by intros []|done]|done].
      rewrite insert_id by done. eapply tracks_mine; [apply Hmv|done].
    + intros st o1 Hr Hg1. apply wpl_ret; [done|]. cbn [fst snd]. rewrite Hpid in *. pose proof (reaped_moves _ _ _ Hr) as Hmv.
      change (LaunchedService.id (LaunchedService.set_process (Process.mk k (Some st)) s)) with k.
      apply Hnext; [done|eapply tracks_gone; [done..|apply Hmv]|eapply gone_serves; [done..|by intros He; apply He|done]|apply Hmv| |].
      * split; [set_solver|done].
      * set_solver.
  - unfold Process.try_wait. destruct (Process.status (LaunchedService.process s)) as [st|] eqn:Hst; [|done].
    apply wpl_ret; [done|]. apply wpl_ret; [done|]. cbn [fst snd]. rewrite set_same_process, Hid.
    apply Hnext; [done|by rewrite insert_id|done|done| |set_solver]. unfold ended. rewrite Hst. split; [set_solver|done].
Qed.

Lemma lookup_foldl_remove (dead : list Z) (T : ServiceTable.t) k :
  foldl (fun T pid => ServiceTable.remove pid T) T dead !! k = if bool_decide (k ∈ dead) then None else T !! k.
Proof.
  revert T. induction dead as [|d dead IH]; intros T; cbn [foldl]; [done|]. rewrite IH. unfold ServiceTable.remove.
  repeat case_bool_decide; try done; try set_solver.
  - assert (k = d) as -> by set_solver. by rewrite lookup_delete_eq.
  - rewrite lookup_delete_ne; [done|]. set_solver.
Qed.

(** After a round of waiting, the table has exactly the services that run. *)
Lemma wp_reap_zombies T Q o : good o -> tracks T o ->
  (forall T' o', good o' -> tracks T' o' -> all_running T' -> serves o o' -> (forall p, doomed o p -> doomed o' p) -> Q T' o') ->
  wp (ServiceTable.reap_zombies T) Q o.
Proof.
  intros Hg HT HQ. unfold ServiceTable.reap_zombies. apply wpl_bind.
  apply wp_reap_each; [done|done|apply listed_all| |intros k _; apply not_elem_of_nil|].
  - intros k s Hk Hn. exfalso. apply Hn. apply elem_of_map_to_list in Hk. by apply (fst_elem_of k s).
  - intros T1 dead o1 Hg1 HT1 Hsv Hd Hdead. apply wpl_ret; [done|]. cbn [fst snd]. apply HQ; [done| | |done|done].
    + destruct HT1 as [H1 H2 H3]. split.
      * intros k s. rewrite lookup_foldl_remove. case_bool_decide; [done|apply H1].
      * intros k s. rewrite lookup_foldl_remove. case_bool_decide; [done|apply H2].
      * intros p c g Hp Ho. destruct (H3 p c g Hp Ho) as (s & Hs & He). exists s. split; [|done].
        rewrite lookup_foldl_remove. rewrite bool_decide_eq_false_2; [done|]. by rewrite <- (Hdead p s Hs).
    + intros k s. rewrite lookup_foldl_remove. case_bool_decide as Hk; [done|]. intros Hs. by rewrite (Hdead k s Hs).
Qed.
End table.

(** ** The requests *)
Section requests.
Context `{!Protobuf}.
Context (get_uid_by_name get_gid_by_name : string -> option Z) (describe : io_error -> string).
#[local] Abbreviation run_and_insert := (run_and_insert get_uid_by_name get_gid_by_name describe).
#[local] Abbreviation SpawnHandler := (SpawnHandler get_uid_by_name get_gid_by_name describe).
#[local] Abbreviation RestartHandler := (RestartHandler get_uid_by_name get_gid_by_name describe).
#[local] Abbreviation TerminateHandler := (TerminateHandler describe).
#[local] Abbreviation dispatch := (dispatch get_uid_by_name get_gid_by_name describe).
#[local] Abbreviation error := (error describe).

(** Why a service cannot be started: its user or its group is not known, or the process could not
    be started. *)
Definition start_error (msg : Spawn.t) (e : NetErr.t) : Prop :=
  match get_uid_by_name (Spawn.get_svc_user msg), get_gid_by_name (Spawn.get_svc_group msg) with
  | None, _ => e = error (Error.UserNotFound (Spawn.get_svc_user msg))
  | Some _, None => e = error (Error.GroupNotFound (Spawn.get_svc_group msg))
  | Some _, Some _ => e = error (Error.Spawn SpawnFailed)
  end.

(** What starting a service does to the table and to the processes [m] of the Launcher. *)
Definition starts (msg : Spawn.t) (T : ServiceTable.t) (m : gmap Z (Command * Z))
    (x : ServiceTable.t * result NetErr.t SpawnOk.t) (m' : gmap Z (Command * Z)) : Prop :=
  match x with
  | (T', Ok r) => exists p uid gid g,
      r = SpawnOk.mk (Some p) /\ 1 < p < 2 ^ 31 /\ m !! p = None /\
      get_uid_by_name (Spawn.get_svc_user msg) = Some uid /\ get_gid_by_name (Spawn.get_svc_group msg) = Some gid /\
      m' = <[p := (service_command msg uid gid, g)]> m /\ T' = <[p := LaunchedService.new msg (Process.mk p None)]> T
  | (T', Err e) => T' = T /\ m' = m /\ start_error msg e
  end.

Section blocking.
Context (B : Prop).
#[local] Abbreviation wp := (wp B).

Lemma wp_run_and_insert msg T Q o : good o ->
  (forall x o', good o' -> starts msg T (mine o) x (mine o') -> my_uid o' = my_uid o -> quiet o o' -> Q x o') ->
  wp (run_and_insert msg T) Q o.
Proof.
  intros Hg HQ. unfold Launcher.run_and_insert, run. apply wpl_bind.
  destruct (get_uid_by_name (Spawn.get_svc_user msg)) as [uid|] eqn:Hu.
  2: { apply wpl_ret; [done|]. apply wpl_ret; [done|]. apply HQ; [done| |done|done]. cbn. unfold start_error. by rewrite Hu. }
  destruct (get_gid_by_name (Spawn.get_svc_group msg)) as [gid|] eqn:Hgi.
  2: { apply wpl_ret; [done|]. apply wpl_ret; [done|]. apply HQ; [done| |done|done]. cbn. unfold start_error. by rewrite Hu, Hgi. }
  apply wpl_bind, wp_spawn; [done|..].
  - intros o1 Hs1 Hg1. apply wpl_ret; [done|]. apply wpl_ret; [done|]. apply HQ; [done| |apply Hs1|apply Hs1]. cbn.
    split_and!; [done|apply Hs1|]. unfold start_error. by rewrite Hu, Hgi.
  - intros p g o1 Hn Hm Hp _ Hu1 Hq1 Hg1. apply wpl_ret; [done|]. apply wpl_ret; [done|]. apply HQ; [done| |done|done]. cbn.
    assert (wrap_i32 p = p) as Hw by (apply wrap_i32_id; lia). rewrite Hw. exists p, uid, gid, g.
    unfold ServiceTable.insert, Process.new. rewrite Hw. done.
Qed.

Lemma starts_tracks msg T x T0 o o' : starts msg T (mine o) x (mine o') -> T0 = T -> tracks T0 o ->
  tracks x.1 o' /\ others_kept o o'.
Proof.
  destruct x as [T' [r|e]]; cbn.
  - intros (p & uid & gid & g & -> & Hp & Hn & _ & _ & Hm & ->) -> HT.
    assert (wrap_i32 p = p) as Hw by (apply wrap_i32_id; lia). split.
    + pose proof (tracks_insert T p msg uid gid g o o' HT Hp Hm) as Hi.
      unfold ServiceTable.insert, Process.new in Hi. rewrite Hw in Hi. done.
    + intros q c g' Hq Ho. rewrite Hm, lookup_insert_ne; [done|]. intros <-. congruence.
  - intros (-> & Hm & _) -> HT. split; [by eapply tracks_mine|]. intros q c g. by rewrite Hm.
Qed.

(** Ending a process of the table and waiting for it: it is gone, and the answer is no error. *)
Lemma wp_kill_wait {A} T k s (f : ShutdownMethod.t -> LaunchedService.t * result Error.t Z -> L A) Q o :
  good o -> tracks T o -> T !! k = Some s -> ~ ended s -> B \/ my_uid o = 0 ->
  (forall st m o', good o' -> tracks (<[k := LaunchedService.set_process (Process.mk k (Some st)) s]> T) o' ->
     moves (delete k (mine o)) o o' -> serves o o' -> (my_uid o = 0 -> m <> ShutdownMethod.AlreadyExited) ->
     wp (f m (LaunchedService.set_process (Process.mk k (Some st)) s, Ok st)) Q o') ->
  wp (km ← LaunchedService.kill s; w ← LaunchedService.wait km.1; f km.2 w) Q o.
Proof.
  intros Hg HT Hk He Hb HQ. apply wpl_bind. apply (wp_service_kill _ T k); [done..|].
  intros s' m o1 Hg1 HT1 Hsv Hd Hcase. apply wpl_bind. cbn [fst snd]. unfold LaunchedService.wait. apply wpl_bind.
  destruct Hcase as [([st ->] & -> & Hm)|(-> & Hm & Hroot)].
  - unfold Process.wait. cbn [LaunchedService.process LaunchedService.set_process Process.status]. apply wpl_ret; [done|]. apply wpl_ret; [done|].
    apply HQ; [done|done|split; [done|done|apply Hsv|apply Hsv]|done|done].
  - rewrite insert_id in HT1 by done. destruct (entry_mine _ _ _ _ HT1 Hk He) as (Hs & Hpid & u & gi & g & Hm1).
    eapply wp_process_wait; [done|done|by rewrite Hpid| |].
    { rewrite Hpid. destruct Hb as [?|Hu]; [by left|]. right. by apply Hroot. }
    intros st o2 Hmv Hg2. rewrite Hpid in *. apply wpl_ret; [done|].
    assert (moves (mine o) o o1) as Hmv1 by (split; [done|done|apply Hsv|apply Hsv]).
    apply HQ; [done|eapply tracks_gone; [done..|apply Hmv]| | |].
    + rewrite <- Hm. by eapply moves_trans.
    + etransitivity; [done|]. eapply gone_serves; [exact HT1|done|done|done].
    + intros Hu. by destruct (Hroot Hu) as [-> _].
Qed.

(** [Terminate] of a service that is in the table. *)
Lemma wp_terminate msg T s Q o :
  let k := wrap_i32 (Terminate.get_pid msg) in
  good o -> tracks T o -> T !! k = Some s -> ~ ended s -> B \/ my_uid o = 0 ->
  (forall st m o', good o' -> tracks (<[k := LaunchedService.set_process (Process.mk k (Some st)) s]> T) o' ->
     moves (delete k (mine o)) o o' -> serves o o' -> (my_uid o = 0 -> m <> ShutdownMethod.AlreadyExited) ->
     Q (<[k := LaunchedService.set_process (Process.mk k (Some st)) s]> T,
        Ok (TerminateOk.mk (Some (default 0 (exit_code st))) (Some m))) o') ->
  wp (TerminateHandler msg T) Q o.
Proof.
  intros k Hg HT Hk He Hb HQ. unfold Launcher.TerminateHandler, ServiceTable.get. fold k. rewrite Hk.
  apply (wp_kill_wait T k s (fun m w => let services := <[k := w.1]> T in
    match w.2 with
    | Ok status => mret (services, Ok (TerminateOk.mk (Some (default 0 (exit_code status))) (Some m)))
    | Err err => mret (services, Err (error err))
    end)); [done..|].
  intros st m o' Hg' HT' Hmv Hsv Hm. cbn [fst snd]. apply wpl_ret; [done|]. by apply HQ.
Qed.

(** [Restart] of a service that is in the table. *)
Lemma wp_restart msg T s Q o :
  let k := wrap_i32 (Restart.get_pid msg) in
  good o -> tracks T o -> T !! k = Some s -> ~ ended s -> B \/ my_uid o = 0 ->
  (forall x o', good o' -> tracks x.1 o' -> serves o o' ->
     starts (LaunchedService.args s) (delete k T) (delete k (mine o)) x (mine o') -> Q x o') ->
  wp (RestartHandler msg T) Q o.
Proof.
  intros k Hg HT Hk He Hb HQ. unfold Launcher.RestartHandler, ServiceTable.get, ServiceTable.remove. fold k. rewrite Hk.
  apply (wp_kill_wait T k s (fun _ w => match w with
    | (service, Ok _) => run_and_insert (LaunchedService.take_args service) (delete k T)
    | (_, Err err) => mret (delete k T, Err (error err))
    end)); [done..|].
  intros st m o1 Hg1 HT1 Hmv Hsv _. apply wp_run_and_insert; [done|]. intros x o2 Hg2 Hst Hu2 Hq2.
  assert (tracks (delete k T) o1) as HT2.
  { rewrite <- (delete_insert_eq T k (LaunchedService.set_process (Process.mk k (Some st)) s)). apply tracks_delete; [done|].
    intros c g. by rewrite (moves_mine _ _ _ Hmv), lookup_delete_eq. }
  destruct (starts_tracks _ _ _ _ _ _ Hst eq_refl HT2) as [HT3 Hoth].
  apply HQ; [done|done| |by rewrite <- (moves_mine _ _ _ Hmv)]. etransitivity; [done|]. by split.
Qed.

Lemma wp_spawn_handler msg T Q o : good o -> tracks T o ->
  (forall x o', good o' -> tracks x.1 o' -> serves o o' -> starts msg T (mine o) x (mine o') -> Q x o') ->
  wp (SpawnHandler msg T) Q o.
Proof.
  intros Hg HT HQ. apply wp_run_and_insert; [done|]. intros x o1 Hg1 Hst Hu Hq.
  destruct (starts_tracks _ _ _ _ _ _ Hst eq_refl HT) as [HT1 Hoth]. by apply HQ.
Qed.

Lemma wp_handler_run `{MessageStatic Message, MessageStatic Reply} (h : Handler Message Reply) txn T Q o :
  good o -> tracks T o ->
  (forall msg, wp (h msg T) (fun x o' => tracks x.1 o' /\ serves o o') o) ->
  (forall T' o', good o' -> tracks T' o' -> serves o o' -> Q T' o') ->
  wp (handler_run h txn T) Q o.
Proof.
  intros Hg HT Hh HQ. unfold handler_run. destruct (NetTxn.decode Message txn) as [msg|]; [|apply wpl_ret; [done|]; by apply HQ].
  apply wpl_bind. eapply wpl_mono; [apply Hh|]. intros [T1 r] o1 Hg1 [HT1 Hsv1]. cbn in HT1.
  assert (forall b : bool, forall o2, stays o1 o2 -> good o2 -> wp (mret T1) Q o2) as Hend.
  { intros _ o2 Hs2 Hg2. apply wpl_ret; [done|]. apply HQ; [done|eapply tracks_mine; [apply Hs2|done]|].
    etransitivity; [done|]. by apply moves_serves, stays_moves. }
  destruct r; apply wpl_bind, wp_tx_send; done.
Qed.

(** Whatever message comes, the table stays right. *)
Lemma wp_dispatch b T Q o : good o -> tracks T o -> all_running T -> B ->
  (forall T' o', good o' -> tracks T' o' -> serves o o' -> Q T' o') -> wp (dispatch b T) Q o.
Proof.
  intros Hg HT Hall Hb HQ. unfold Launcher.dispatch. destruct (NetTxn.from_bytes b) as [txn|]; [|apply wpl_ret; [done|]; by apply HQ].
  repeat case_bool_decide.
  - apply wp_handler_run; [done|done| |done]. intros msg. destruct (T !! wrap_i32 (Restart.get_pid msg)) as [s|] eqn:Hs.
    + apply (wp_restart msg T s); [done|done|done|by apply (Hall _ s Hs)|by left|done].
    + unfold Launcher.RestartHandler, ServiceTable.get. rewrite Hs. by apply wpl_ret.
  - apply wp_handler_run; [done|done| |done]. intros msg. by apply wp_spawn_handler.
  - apply wp_handler_run; [done|done| |done]. intros msg. destruct (T !! wrap_i32 (Terminate.get_pid msg)) as [s|] eqn:Hs.
    + by apply (wp_terminate msg T s); [done|done|done|apply (Hall _ s Hs)|left|].
    + unfold Launcher.TerminateHandler, ServiceTable.get. rewrite Hs. by apply wpl_ret.
  - apply wpl_ret; [done|]. by apply HQ.
Qed.
End blocking.
End requests.
