(* ===== verification/LauncherRuns.v ===== *)
(** * Runs of the Launcher

    The rounds of [server::run], from the start: what holds after any number of them, whatever
    happens on the machine and whatever the Supervisor asks for. *)

From S2P Require Import Prelude Regex Text Ident ByteText ProtoWire LauncherOs LauncherProto Launcher LauncherLogic LauncherProofs.
Local Open Scope Z_scope.
Local Open Scope string_scope.
Local Open Scope list_scope.

(** A Supervisor that was not waited for is a process of the Launcher, and no service. *)
Definition sup_live (c : Child.t) (o : os) : Prop :=
  Child.status c = None /\ exists cm g, mine o !! Child.id c = Some (cm, g) /\ own_group cm = false.

(** All service processes have ended or been killed. *)
Definition services_doomed (o : os) : Prop :=
  forall p c g, mine o !! p = Some (c, g) -> own_group c = true -> doomed o p.

(** What holds in each phase of the server. *)
Definition phase_ok (p : phase) (o : os) : Prop :=
  match p with
  | Up s => tracks (services s) o /\ sup_live (supervisor s) o
  | Reloading s => tracks (services s) o /\ Child.status (supervisor s) <> None
  | Over s _ => tracks (services s) o /\ (my_uid o = 0 -> services_doomed o)
  end.

Lemma sup_live_serves c o o' : sup_live c o -> serves o o' -> sup_live c o'.
Proof. intros (Hs & cm & g & Hm & Ho) Hsv. split; [done|]. exists cm, g. split; [by apply Hsv|done]. Qed.

(** Processes that are no services come and go without the table. *)
Lemma tracks_others T o o' : tracks T o ->
  (forall p c g, own_group c = true -> mine o' !! p = Some (c, g) <-> mine o !! p = Some (c, g)) -> tracks T o'.
Proof.
  intros [H1 H2 H3] Hm. split; [done| |].
  - intros k s Hk He. destruct (H2 k s Hk He) as (u & gi & g & Hp). exists u, gi, g. by apply Hm.
  - intros p c g Hp Ho. apply (H3 p c g); [by apply Hm|done].
Qed.

Section runs.
Context `{!Protobuf}.
Context (get_uid_by_name get_gid_by_name : string -> option Z) (describe : io_error -> string).
Context (current_pid : Z) (supervisor_cmd : result Error.t string).
#[local] Abbreviation init := (init current_pid supervisor_cmd).
#[local] Abbreviation reload := (reload current_pid supervisor_cmd).
#[local] Abbreviation handle_message := (handle_message get_uid_by_name get_gid_by_name describe).
#[local] Abbreviation tick := (tick get_uid_by_name get_gid_by_name describe).
#[local] Abbreviation advance := (advance get_uid_by_name get_gid_by_name describe current_pid supervisor_cmd).
#[local] Abbreviation rounds := (rounds get_uid_by_name get_gid_by_name describe current_pid supervisor_cmd).
#[local] Abbreviation launcher := (launcher get_uid_by_name get_gid_by_name describe current_pid supervisor_cmd).
#[local] Abbreviation wp := (wp True).

(** ** The Supervisor's process *)
Lemma wp_child_kill c Q o : good o -> sup_live c o \/ Child.status c <> None ->
  (forall b o', stays o o' -> good o' -> Q b o') -> wp (Child.kill c) Q o.
Proof.
  intros Hg Hc HQ. unfold Child.kill. destruct Hc as [(Hs & cm & g & Hm & _)|Hs].
  - rewrite Hs. pose proof (good_pids _ Hg _ _ Hm) as Hp.
    assert (wrap_i32 (Child.id c) = Child.id c) as -> by (apply wrap_i32_id; lia).
    apply (wp_signal _ _ _ cm g); [done|by rewrite Z.abs_eq by lia|]. intros ok o' Hst Hg' _. by apply HQ.
  - destruct (Child.status c); [|done]. apply wpl_ret; [done|]. by apply HQ.
Qed.

Lemma wp_child_wait c Q o : good o -> sup_live c o \/ Child.status c <> None ->
  (forall c' r o', good o' -> Child.status c' <> None -> my_uid o' = my_uid o ->
     (forall p cm g, own_group cm = true -> mine o' !! p = Some (cm, g) <-> mine o !! p = Some (cm, g)) -> Q (c', r) o') ->
  wp (Child.wait c) Q o.
Proof.
  intros Hg Hc HQ. unfold Child.wait. destruct Hc as [(Hs & cm & g & Hm & Ho)|Hs].
  - rewrite Hs. apply wpl_bind. eapply wp_waitpid; [done|exact Hm|by right; left|done|].
    intros st o' Hr Hg'. apply wpl_ret; [done|]. apply HQ; [done|done|apply Hr|].
    intros p c' g' Ho'. rewrite (reaped_mine _ _ _ Hr), lookup_delete_Some. split; [tauto|]. intros Hp. split; [|done].
    intros <-. rewrite Hm in Hp. injection Hp as <- _. congruence.
  - destruct (Child.status c) as [st|] eqn:Hst; [|done]. apply wpl_ret; [done|]. apply HQ; [done|by rewrite Hst|done|done].
Qed.

Lemma wp_child_try_wait c Q o : good o -> sup_live c o ->
  (forall o', stays o o' -> good o' -> Q (c, Ok None) o') ->
  (forall st o', good o' -> my_uid o' = my_uid o ->
     (forall p cm g, own_group cm = true -> mine o' !! p = Some (cm, g) <-> mine o !! p = Some (cm, g)) ->
     Q (Child.mk (Child.id c) (Some st), Ok (Some st)) o') ->
  wp (Child.try_wait c) Q o.
Proof.
  intros Hg (Hs & cm & g & Hm & Ho) Hnot Hend. unfold Child.try_wait. rewrite Hs. apply wpl_bind.
  eapply wp_waitpid; [done|exact Hm|by left|..]; (intros; apply wpl_ret; [done|]); [by apply Hnot|].
  apply Hend; [done|by eapply reaped_uid|]. intros p c' g' Ho'. erewrite reaped_mine by done. rewrite lookup_delete_Some.
  split; [tauto|]. intros Hp. split; [|done]. intros <-. rewrite Hm in Hp. injection Hp as <- _. congruence.
Qed.

(** [init] starts a Supervisor, or fails; a failure can leave one behind. *)
Definition initialised (args : list string) (clean : bool) (r : result Error.t Child.t) (m m' : gmap Z (Command * Z)) : Prop :=
  match r with
  | Ok c => Child.status c = None /\ m !! Child.id c = None /\ exists binary pipe g, supervisor_cmd = Ok binary /\
      m' = <[Child.id c := (supervisor_command current_pid binary pipe args clean, g)]> m
  | Err _ => m' = m \/ exists p binary pipe g, supervisor_cmd = Ok binary /\ m !! p = None /\
      m' = <[p := (supervisor_command current_pid binary pipe args clean, g)]> m
  end.

Lemma wp_setup_connection Q o : good o -> (forall r o', stays o o' -> good o' -> Q r o') -> wp setup_connection Q o.
Proof.
  intros Hg HQ. unfold setup_connection. apply wpl_bind, wp_accept; [done|done|]. intros [raw|] o1 Hs1 Hg1.
  2: { apply wpl_ret; [done|]. by apply HQ. }
  destruct (_ ≫= _) as [msg|]; [|apply wpl_ret; [done|]; by apply HQ].
  apply wpl_bind, wp_connect; [done|]. intros [] o2 Hs2 Hg2.
  - apply wpl_bind, wp_tx_send; [done|]. intros ok o3 Hs3 Hg3. apply wpl_ret; [done|]. apply HQ; [|done].
    by etransitivity; [|etransitivity].
  - apply wpl_ret; [done|]. apply HQ; [by etransitivity|done].
Qed.

Lemma wp_init args clean Q o : good o ->
  (forall r o', good o' -> initialised args clean r (mine o) (mine o') -> my_uid o' = my_uid o -> Q r o') ->
  wp (init args clean) Q o.
Proof.
  intros Hg HQ. unfold Launcher.init. apply wpl_bind, wp_new_pipe; [done|]. intros [pipe|] o1 Hs1 Hg1.
  2: { apply wpl_ret; [done|]. apply HQ; [done|left; apply Hs1|apply Hs1]. }
  apply wpl_bind. unfold spawn_supervisor. destruct supervisor_cmd as [binary|e] eqn:Hcmd.
  2: { apply wpl_ret; [done|]. apply wpl_ret; [done|]. apply HQ; [done|left; apply Hs1|apply Hs1]. }
  apply wpl_bind, wp_spawn; [done|..].
  - intros o2 Hs2 Hg2. apply wpl_ret; [done|]. apply wpl_ret; [done|]. assert (stays o o2) as Hs by (by etransitivity).
    apply HQ; [done|left; apply Hs|apply Hs].
  - intros p g o2 Hn Hm Hp _ Hu _ Hg2. apply wpl_ret; [done|]. apply wpl_bind, wp_setup_connection; [done|].
    intros r o3 Hs3 Hg3. apply wpl_ret; [done|]. rewrite (stays_mine _ _ Hs1) in *. apply HQ; [done| |].
    + unfold initialised. rewrite (stays_mine _ _ Hs3). destruct r as [u|e].
      * split_and!; [done|done|]. exists binary, pipe, g. split; [done|]. exact Hm.
      * right. exists p, binary, pipe, g. split_and!; done.
    + rewrite (stays_uid _ _ Hs3), Hu. apply Hs1.
Qed.

Lemma initialised_others args clean r o o' : initialised args clean r (mine o) (mine o') ->
  (forall p c g, own_group c = true -> mine o' !! p = Some (c, g) <-> mine o !! p = Some (c, g)).
Proof.
  assert (forall p cm gr, mine o !! p = None -> own_group cm = false -> mine o' = <[p := (cm, gr)]> (mine o) ->
    forall q c g, own_group c = true -> mine o' !! q = Some (c, g) <-> mine o !! q = Some (c, g)) as Hins.
  { intros p cm gr Hn Hcm -> q c g Ho. destruct (decide (p = q)) as [<-|Hne]; [|by rewrite lookup_insert_ne].
    rewrite lookup_insert_eq, Hn. split; [intros [= -> _]; congruence|done]. }
  destruct r as [c|e]; cbn.
  - intros (_ & Hn & binary & pipe & g & _ & Hm). eapply (Hins _ _ _ Hn); [|exact Hm]. done.
  - intros [->|(p & binary & pipe & g & _ & Hn & Hm)]; [done|]. eapply (Hins _ _ _ Hn); [|exact Hm]. done.
Qed.

Lemma initialised_live args clean c o o' : initialised args clean (Ok c) (mine o) (mine o') -> sup_live c o'.
Proof.
  intros (Hs & _ & binary & pipe & g & _ & Hm). split; [done|]. rewrite Hm, lookup_insert_eq. by do 2 eexists.
Qed.

(** ** Rounds *)
Lemma wp_reload s Q o : good o -> phase_ok (Reloading s) o ->
  (forall s' r o', good o' -> services s' = services s -> Launcher.args s' = Launcher.args s -> my_uid o' = my_uid o ->
     (forall p c g, own_group c = true -> mine o' !! p = Some (c, g) <-> mine o !! p = Some (c, g)) ->
     match r with Ok _ => sup_live (supervisor s') o' /\
                          exists binary pipe g, supervisor_cmd = Ok binary /\
                            mine o' !! Child.id (supervisor s')
                            = Some (supervisor_command current_pid binary pipe (Launcher.args s) true, g)
             | Err _ => Child.status (supervisor s') <> None end -> Q (s', r) o') ->
  wp (reload s) Q o.
Proof.
  intros Hg [HT Hc] HQ. unfold Launcher.reload. apply wpl_bind, wp_child_kill; [done|by right|]. intros b o1 Hs1 Hg1.
  apply wpl_bind, wp_child_wait; [done|by right|]. intros c' w o2 Hg2 Hc' Hu2 Hoth2. cbn [fst].
  apply wpl_bind, wp_init; [done|]. intros r o3 Hg3 Hinit Hu3. apply wpl_ret; [done|].
  assert (forall p c g, own_group c = true -> mine o3 !! p = Some (c, g) <-> mine o !! p = Some (c, g)) as Hoth.
  { intros p c g Ho. rewrite (initialised_others _ _ _ _ _ Hinit), Hoth2, (stays_mine _ _ Hs1) by done. done. }
  assert (my_uid o3 = my_uid o) as Hu by (rewrite Hu3, Hu2; apply Hs1).
  destruct r as [c|e]; cbn in *; apply HQ; try done.
  split; [by eapply initialised_live|]. destruct Hinit as (_ & _ & binary & pipe & g & Hcmd & Hm).
  exists binary, pipe, g. split; [done|]. cbn. by rewrite Hm, lookup_insert_eq.
Qed.

(** The phase that follows a result of [tick]. *)
Definition next_phase (r : Server * result Error.t TickState) : phase :=
  match r with
  | (s, Ok Continue) => Up s
  | (s, Ok (Exit code)) => Over s code
  | (s, Err _) => Reloading s
  end.

(** After [kill_all] no service is left running. *)
Lemma wp_kill_all_over s (code : Z) Q o : good o -> tracks (services s) o -> all_running (services s) ->
  (forall s' o', good o' -> phase_ok (Over s' code) o' -> my_uid o' = my_uid o -> Q s' o') ->
  wp (T ← ServiceTable.kill_all (services s); mret (set_services T s)) Q o.
Proof.
  intros Hg HT Hall HQ. apply wpl_bind, wp_kill_all; [done..|]. intros T o1 Hg1 HT1 Hsv Hd. apply wpl_ret; [done|].
  apply HQ; [done| |apply Hsv]. split; [done|]. rewrite (serves_uid _ _ Hsv). intros Hu p c g Hp Ho.
  apply Hd; [done|]. by apply (tracks_all _ _ HT1 p c g).
Qed.

Lemma wp_handle_message s Q o : good o -> phase_ok (Up s) o -> all_running (services s) ->
  (forall r o', good o' -> phase_ok (next_phase r) o' -> my_uid o' = my_uid o -> Q r o') ->
  wp (handle_message s) Q o.
Proof.
  intros Hg [HT Hsup] Hall HQ. unfold Launcher.handle_message. apply wpl_bind, wp_try_recv; [done|]. intros [b|] o1 Hs1 Hg1.
  - pose proof (tracks_mine _ _ _ (stays_mine _ _ Hs1) HT) as HT1. pose proof (moves_serves _ _ (stays_moves _ _ Hs1)) as Hsv1.
    apply wpl_bind, wp_dispatch; [done..|]. intros T o2 Hg2 HT2 Hsv2. apply wpl_ret; [done|].
    apply HQ; [done|split; [done|eapply sup_live_serves; [exact Hsup|by etransitivity]]|].
    rewrite (serves_uid _ _ Hsv2). apply Hs1.
  - pose proof (tracks_mine _ _ _ (stays_mine _ _ Hs1) HT) as HT1.
    assert (sup_live (supervisor s) o1) as Hsup1 by (eapply sup_live_serves; [done|by apply moves_serves, stays_moves]).
    apply wpl_bind, wp_child_try_wait; [done|done|..].
    + intros o2 Hs2 Hg2. cbn [fst snd]. apply wpl_ret; [done|]. apply HQ; [done| |rewrite (stays_uid _ _ Hs2); apply Hs1].
      split; [eapply tracks_mine; [apply Hs2|done]|]. eapply sup_live_serves; [done|by apply moves_serves, stays_moves].
    + intros st o2 Hg2 Hu2 Hoth. cbn [fst snd]. assert (tracks (services s) o2) as HT2 by (by eapply tracks_others).
      rewrite (stays_uid _ _ Hs1) in Hu2. set (s2 := set_supervisor _ s).
      assert (forall code, wp (T ← ServiceTable.kill_all (services s2); mret (set_services T s2, Ok (Exit code))) Q o2) as Hkill.
      { intros code. eapply wpl_bind, wp_kill_all; [done..|]. intros T o3 Hg3 HT3 Hsv Hd. apply wpl_ret; [done|].
        apply HQ; [done| |by rewrite (serves_uid _ _ Hsv)]. split; [done|]. rewrite (serves_uid _ _ Hsv). intros Hu p c g Hp Ho.
        apply Hd; [done|]. by apply (tracks_all _ _ HT3 p c g). }
      repeat case_bool_decide; [apply Hkill..|]. apply wpl_ret; [done|]. by apply HQ.
Qed.

Lemma wp_shutdown s Q o : good o -> phase_ok (Up s) o -> all_running (services s) ->
  (forall s' o', good o' -> phase_ok (Over s' 0) o' -> my_uid o' = my_uid o -> Q s' o') -> wp (shutdown s) Q o.
Proof.
  intros Hg [HT Hsup] Hall HQ. unfold shutdown. apply wpl_bind, wp_tx_send; [done|]. intros ok o1 Hs1 Hg1.
  assert (sup_live (supervisor s) o1) as Hsup1 by (eapply sup_live_serves; [done|by apply moves_serves, stays_moves]).
  assert (forall (b : bool) o2, stays o1 o2 -> good o2 ->
    wp (w ← Child.wait (supervisor s); let self := set_supervisor w.1 s in
        services ← ServiceTable.kill_all (services self); mret (set_services services self)) Q o2) as Hrest.
  { intros _ o2 Hs2 Hg2. assert (stays o o2) as Hs by (by etransitivity). apply wpl_bind, wp_child_wait; [done| |].
    { left. eapply sup_live_serves; [exact Hsup|by apply moves_serves, stays_moves]. }
    intros c' w o3 Hg3 _ Hu3 Hoth. cbn [fst].
    assert (tracks (services s) o3) as HT3.
    { eapply tracks_others; [exact HT|]. intros p c g Ho. by rewrite Hoth, (stays_mine _ _ Hs). }
    apply (wp_kill_all_over (set_supervisor c' s) 0); [done..|]. intros s' o4 Hg4 Hok Hu4. apply HQ; [done|done|].
    rewrite Hu4, Hu3. apply Hs. }
  apply wpl_bind. destruct ok; [apply wpl_ret; [done|]; by apply (Hrest true)|].
  apply wp_child_kill; [done|by left|]. intros b o2 Hs2 Hg2. by apply (Hrest b).
Qed.

Lemma wp_tick s Q o : good o -> phase_ok (Up s) o ->
  (forall r o', good o' -> phase_ok (next_phase r) o' -> my_uid o' = my_uid o -> Q r o') -> wp (tick s) Q o.
Proof.
  intros Hg [HT Hsup] HQ. unfold Launcher.tick. apply wpl_bind. unfold reap_zombies. apply wpl_bind, wp_reap_zombies; [done..|].
  intros T o1 Hg1 HT1 Hall Hsv1 _. apply wpl_ret; [done|]. set (s1 := set_services T s).
  pose proof (sup_live_serves _ _ _ Hsup Hsv1) as Hsup1.
  apply wpl_bind, wp_check_for_signal; [done|]. intros e o2 Hs2 Hg2.
  pose proof (moves_serves _ _ (stays_moves _ _ Hs2)) as Hsv2.
  assert (forall r o', good o' -> phase_ok (next_phase r) o' -> my_uid o' = my_uid o2 -> Q r o') as HQ2.
  { intros r o' Hg' Hok Hu. apply HQ; [done|done|]. rewrite Hu, (serves_uid _ _ Hsv2). apply Hsv1. }
  assert (phase_ok (Up s1) o2) as Hok by (split; [eapply tracks_mine; [apply Hs2|done]|by eapply sup_live_serves]).
  destruct e as [[|sig]|].
  - apply wpl_bind, wp_shutdown; [done..|]. intros s' o3 Hg3 Hok3 Hu3. apply wpl_ret; [done|]. by apply HQ2.
  - apply wpl_bind. unfold forward_signal. apply wpl_bind. destruct Hok as [HT2 (Hst & cm & g & Hm & Ho)].
    pose proof (good_pids _ Hg2 _ _ Hm) as Hp.
    assert (wrap_i32 (Child.id (supervisor s1)) = Child.id (supervisor s1)) as -> by (apply wrap_i32_id; lia).
    apply (wp_signal _ _ _ cm g); [done|by rewrite Z.abs_eq by lia|]. intros ok o3 Hs3 Hg3 _. apply wpl_ret; [done|].
    apply wp_handle_message; [done| |done|].
    + split; [eapply tracks_mine; [apply Hs3|done]|]. split; [done|]. exists cm, g. by rewrite (stays_mine _ _ Hs3).
    + intros r o4 Hg4 Hok4 Hu4. apply HQ2; [done|done|]. rewrite Hu4. apply Hs3.
  - by apply wp_handle_message.
Qed.

Lemma wp_advance p Q o : good o -> phase_ok p o ->
  (forall p' o', good o' -> phase_ok p' o' -> my_uid o' = my_uid o -> Q p' o') -> wp (advance p) Q o.
Proof.
  intros Hg Hp HQ. destruct p as [s|s|s code]; cbn [Launcher.advance].
  - apply wpl_bind, wp_tick; [done..|]. intros r o1 Hg1 Hok Hu. apply wpl_ret; [done|].
    destruct r as [s' [[]|e]]; by apply HQ.
  - apply wpl_bind, wp_reload; [done..|]. intros s' r o1 Hg1 Hs _ Hu Hoth Hr. apply wpl_ret; [done|].
    assert (tracks (services s') o1) as HT by (rewrite Hs; eapply tracks_others; [apply Hp|done]).
    destruct r; (apply HQ; [done| |done]); [by split; [|apply Hr]|done].
  - apply wpl_ret; [done|]. by apply HQ.
Qed.

Lemma wp_rounds n p Q o : good o -> phase_ok p o ->
  (forall p' o', good o' -> phase_ok p' o' -> my_uid o' = my_uid o -> Q p' o') -> wp (rounds n p) Q o.
Proof.
  revert p o. induction n as [|n IH]; intros p o Hg Hp HQ; cbn [Launcher.rounds]; [apply wpl_ret; [done|]; by apply HQ|].
  apply wpl_bind, wp_advance; [done..|]. intros p1 o1 Hg1 Hp1 Hu1. apply IH; [done..|].
  intros p2 o2 Hg2 Hp2 Hu2. apply HQ; [done|done|congruence].
Qed.

(** A run of the Launcher from a machine on which it has started nothing. *)
Lemma wp_launcher n args o : mine o = ∅ -> sent o = [] ->
  wp (launcher n args) (fun r o' => match r with Ok p => phase_ok p o' /\ my_uid o' = my_uid o | Err _ => True end) o.
Proof.
  intros Hm Hs. assert (good o) as Hg.
  { split; [unfold signals_own; rewrite Hs; constructor|]. intros p x. by rewrite Hm. }
  unfold Launcher.launcher, start, server_new. apply wpl_bind, wpl_bind, wpl_bind, wp_init; [done|]. intros r o1 Hg1 Hinit Hu1.
  apply wpl_ret; [done|]. destruct r as [c|e]; [|apply wpl_ret; [done|]; by apply wpl_ret].
  apply wpl_bind, wp_signals_init; [done|]. intros o2 Hs2 Hg2. apply wpl_ret; [done|].
  apply wpl_bind, wp_rounds; [done| |].
  - split; [|eapply sup_live_serves; [by eapply initialised_live|by apply moves_serves, stays_moves]].
    split; [done|done|]. intros p cm g Hp Ho. exfalso. rewrite (stays_mine _ _ Hs2) in Hp.
    apply (initialised_others _ _ _ _ _ Hinit) in Hp; [|done]. by rewrite Hm in Hp.
  - intros p' o3 Hg3 Hp3 Hu3. apply wpl_ret; [done|]. split; [done|]. rewrite Hu3, (stays_uid _ _ Hs2). done.
Qed.
End runs.

(** * What the Launcher does

    The theorems on the Launcher: its runs, the requests of the Supervisor and the replies that
    reach it, and the cases in which a signal or a message is lost. *)

(** The server of a phase. *)
Definition server_of (p : phase) : Server := match p with Up s | Reloading s | Over s _ => s end.

(** A computation that may not block returns. *)
Lemma wp_total {A} (c : L A) Q o : wp False c Q o -> exists a o', c o = (o', Done a) /\ good o' /\ Q a o'.
Proof. unfold wp. destruct (c o) as [o' [a|]]; naive_solver. Qed.

Section theorems.
Context `{!Protobuf}.
Context (get_uid_by_name get_gid_by_name : string -> option Z) (describe : io_error -> string).
Context (current_pid : Z) (supervisor_cmd : result Error.t string).
#[local] Abbreviation launcher := (launcher get_uid_by_name get_gid_by_name describe current_pid supervisor_cmd).
#[local] Abbreviation reload := (reload current_pid supervisor_cmd).
#[local] Abbreviation handle_message := (handle_message get_uid_by_name get_gid_by_name describe).
#[local] Abbreviation SpawnHandler := (SpawnHandler get_uid_by_name get_gid_by_name describe).
#[local] Abbreviation RestartHandler := (RestartHandler get_uid_by_name get_gid_by_name describe).
#[local] Abbreviation TerminateHandler := (TerminateHandler describe).
#[local] Abbreviation dispatch := (dispatch get_uid_by_name get_gid_by_name describe).

(** ** Runs *)

(** C11: in every run of the Launcher, whatever happens on the machine and whatever the Supervisor
    asks for, each signal goes to a process that the Launcher has started and not yet waited for,
    or to the group of one: never to a process that has got a number it knows from before. *)
Theorem launcher_signals_own n args o :
  mine o = ∅ -> sent o = [] -> signals_own (launcher n args o).1.
Proof.
  intros Hm Hs. pose proof (wp_launcher get_uid_by_name get_gid_by_name describe current_pid supervisor_cmd n args o Hm Hs) as Hw.
  unfold wp in Hw. destruct (launcher n args o) as [o' [r|]]; apply Hw.
Qed.

(** C16: after any number of rounds the table of the Launcher has exactly its service processes: an
    entry whose end is not known is a process with the arguments of the entry, under its number,
    and every service process that was not waited for is in the table. *)
Theorem launcher_tracks_services n args o o' p :
  mine o = ∅ -> sent o = [] -> launcher n args o = (o', Done (Ok p)) -> tracks (services (server_of p)) o'.
Proof.
  intros Hm Hs Hr. pose proof (wp_launcher get_uid_by_name get_gid_by_name describe current_pid supervisor_cmd n args o Hm Hs) as Hw.
  unfold wp in Hw. rewrite Hr in Hw. destruct Hw as [_ [Hp _]]. by destruct p; apply Hp.
Qed.

(** C12: when the Launcher of the super user ends, for a signal or because the Supervisor told it so
    with its exit code, no service is left running: every service process has ended or been
    killed. *)
Theorem no_service_outlives_launcher n args o o' s code :
  mine o = ∅ -> sent o = [] -> my_uid o = 0 -> launcher n args o = (o', Done (Ok (Over s code))) ->
  forall p pr c, procs o' !! p = Some pr -> started pr = Some c -> own_group c = true -> state pr <> Running false.
Proof.
  intros Hm Hs Hu Hr p pr c Hp Hst Ho.
  pose proof (wp_launcher get_uid_by_name get_gid_by_name describe current_pid supervisor_cmd n args o Hm Hs) as Hw.
  unfold wp in Hw. rewrite Hr in Hw. destruct Hw as [_ [[_ Hd] Hu']]. rewrite Hu' in Hd.
  refine (Hd Hu p c (pgid pr) _ Ho pr c Hp Hst). apply mine_some. by exists pr.
Qed.

(** ** Requests *)

(** The Launcher of the super user answers every request to end a service of its table, however
    the process behaves: the process is gone, the reply has its exit code and how it was ended,
    and no other process of the Launcher is touched. *)
Theorem terminate_ends_process T o msg s :
  good o -> tracks T o -> T !! wrap_i32 (Terminate.get_pid msg) = Some s -> ~ ended s -> my_uid o = 0 ->
  exists st m o', let k := wrap_i32 (Terminate.get_pid msg) in
    TerminateHandler msg T o
    = (o', Done (<[k := LaunchedService.set_process (Process.mk k (Some st)) s]> T,
                 Ok (TerminateOk.mk (Some (default 0 (exit_code st))) (Some m))))
    /\ mine o' = delete k (mine o) /\ m <> ShutdownMethod.AlreadyExited
    /\ tracks (<[k := LaunchedService.set_process (Process.mk k (Some st)) s]> T) o'.
Proof.
  intros Hg HT Hk He Hu.
  destruct (wp_total (TerminateHandler msg T) (fun x o' => exists st m, let k := wrap_i32 (Terminate.get_pid msg) in
    x = (<[k := LaunchedService.set_process (Process.mk k (Some st)) s]> T,
         Ok (TerminateOk.mk (Some (default 0 (exit_code st))) (Some m)))
    /\ mine o' = delete k (mine o) /\ m <> ShutdownMethod.AlreadyExited
    /\ tracks (<[k := LaunchedService.set_process (Process.mk k (Some st)) s]> T) o') o) as (x & o' & Hr & _ & st & m & -> & Hm & Hne & HT').
  { apply (wp_terminate _ _ msg T s); [done..|by right|]. intros st m o' Hg' HT' Hmv _ Hne.
    exists st, m. split_and!; [done|apply Hmv|by apply Hne|done]. }
  by exists st, m, o'.
Qed.

(** The Launcher of the super user answers every request to restart a service of its table: the
    old process is gone, and either a new one runs with the same arguments and is in the table
    under its number, which is the reply, or the table is without the service and the reply says
    why. *)
Theorem restart_replaces_process T o msg s :
  good o -> tracks T o -> T !! wrap_i32 (Restart.get_pid msg) = Some s -> ~ ended s -> my_uid o = 0 ->
  exists x o', RestartHandler msg T o = (o', Done x) /\ tracks x.1 o' /\
    starts get_uid_by_name get_gid_by_name describe (LaunchedService.args s) (delete (wrap_i32 (Restart.get_pid msg)) T)
      (delete (wrap_i32 (Restart.get_pid msg)) (mine o)) x (mine o').
Proof.
  intros Hg HT Hk He Hu.
  destruct (wp_total (RestartHandler msg T) (fun x o' => tracks x.1 o' /\
    starts get_uid_by_name get_gid_by_name describe (LaunchedService.args s) (delete (wrap_i32 (Restart.get_pid msg)) T)
      (delete (wrap_i32 (Restart.get_pid msg)) (mine o)) x (mine o')) o) as (x & o' & Hr & _ & HT' & Hst).
  { apply (wp_restart _ _ _ _ msg T s); [done..|by right|]. by intros. }
  by exists x, o'.
Qed.

(** Replacing the Supervisor touches no service: the table and the service processes are the
    same, whether it succeeds or not, and the new Supervisor gets the arguments of the Launcher and
    is told to clean the lock of the old one. *)
Theorem reload_keeps_services s o o' s' r :
  good o -> tracks (services s) o -> Child.status (supervisor s) <> None -> reload s o = (o', Done (s', r)) ->
  services s' = services s
  /\ (forall p c g, own_group c = true -> mine o' !! p = Some (c, g) <-> mine o !! p = Some (c, g))
  /\ (r = Ok tt -> exists c g, mine o' !! Child.id (supervisor s') = Some (c, g)
                   /\ arguments c = Launcher.args s /\ (LAUNCHER_LOCK_CLEAN_ENV, "true") ∈ envs c).
Proof.
  intros Hg HT Hc Hr.
  assert (wp True (reload s) (fun x o' => services x.1 = services s
    /\ (forall p c g, own_group c = true -> mine o' !! p = Some (c, g) <-> mine o !! p = Some (c, g))
    /\ (x.2 = Ok tt -> exists c g, mine o' !! Child.id (supervisor x.1) = Some (c, g)
                       /\ arguments c = Launcher.args s /\ (LAUNCHER_LOCK_CLEAN_ENV, "true") ∈ envs c)) o) as Hw.
  { apply wp_reload; [done|done|]. intros s1 r1 o1 Hg1 Hs1 _ _ Hoth Hr1. split_and!; [done|done|]. intros Hok. cbn in Hok.
    subst r1. destruct Hr1 as (_ & binary & pipe & g & _ & Hm). do 2 eexists. split; [exact Hm|]. split; [done|].
    apply elem_of_app. left. apply elem_of_cons. by left. }
  unfold wp in Hw. rewrite Hr in Hw. apply Hw.
Qed.

(** When nothing happens, nothing is received and a process that has ended is waited for at once. *)
Lemma happen_quiet o : happens (coming o) = [] -> happen o = (o, Done tt).
Proof. intros Hh. unfold happen, modifies. by rewrite Hh. Qed.

Lemma try_recv_empty o : happens (coming o) = [] -> inbox o = [] -> try_recv o = (o, Done None).
Proof. intros Hh Hi. unfold try_recv, mbind, L_bind. rewrite happen_quiet by done. unfold answers. by rewrite Hi. Qed.

Lemma child_try_wait_exited c o cm g u st : happens (coming o) = [] -> Child.status c = None ->
  procs o !! Child.id c = Some (Proc (Some cm) g u (Exited st)) ->
  Child.try_wait c o = (set_procs (delete (Child.id c) (procs o)) o, Done (Child.mk (Child.id c) (Some st), Ok (Some st))).
Proof.
  intros Hh Hs Hp. unfold Child.try_wait. rewrite Hs. unfold waitpid, mbind, L_bind. rewrite happen_quiet by done.
  unfold gets. by rewrite Hp.
Qed.

(** C25: the exit code of the Supervisor decides: with [ERR_NO_RETRY_EXCODE] the server ends with that
    code and with [OK_NO_RETRY_EXCODE] with [0], both after ending every service; with any other
    code, or when a signal ended it, the Supervisor is to be replaced and the services stay. *)
Theorem supervisor_exit_decides s o cm g u st :
  good o -> phase_ok (Up s) o -> all_running (services s) -> happens (coming o) = [] -> inbox o = [] ->
  procs o !! Child.id (supervisor s) = Some (Proc (Some cm) g u (Exited st)) -> my_uid o = 0 ->
  exists s' o', handle_message s o = (o', Done (s',
      if bool_decide (exit_code st = Some ERR_NO_RETRY_EXCODE) then Ok (Exit ERR_NO_RETRY_EXCODE)
      else if bool_decide (exit_code st = Some OK_NO_RETRY_EXCODE) then Ok (Exit 0) else Err Error.SupShutdown))
    /\ tracks (services s') o'
    /\ (if bool_decide (exit_code st = Some ERR_NO_RETRY_EXCODE \/ exit_code st = Some OK_NO_RETRY_EXCODE)
        then services_doomed o'
        else services s' = services s /\ mine o' = delete (Child.id (supervisor s)) (mine o)).
Proof.
  intros Hg [HT (Hs & cm' & g' & Hm & Ho)] Hall Hh Hi Hp Hu.
  destruct (reap_reaped _ _ _ Hm Hg) as [Hr Hg1]. set (o1 := set_procs (delete (Child.id (supervisor s)) (procs o)) o) in *.
  assert (tracks (services s) o1) as HT1.
  { apply (tracks_others _ o); [done|]. intros p c gr Hc. rewrite (reaped_mine _ _ _ Hr), lookup_delete_Some.
    split; [tauto|]. intros Hpc. split; [|done]. intros <-. rewrite Hm in Hpc. injection Hpc as <- _. congruence. }
  unfold Launcher.handle_message. unfold mbind at 1, L_bind at 1. rewrite try_recv_empty by done.
  unfold mbind at 1, L_bind at 1. rewrite (child_try_wait_exited _ _ cm g u st) by done. cbn [fst snd]. fold o1.
  set (s1 := set_supervisor _ s).
  assert (wp False (ServiceTable.kill_all (services s1)) (fun T' o' => tracks T' o' /\ services_doomed o') o1) as Hk.
  { apply wp_kill_all; [done|done|done|]. intros T' o' Hg' HT' Hsv Hd. split; [done|]. intros p c gr Hpc Hc.
    apply Hd; [done|]. by apply (tracks_all _ _ HT' p c gr). }
  apply wp_total in Hk as (T' & o2 & Hk & _ & HT2 & Hd2).
  case_bool_decide as H86; [|case_bool_decide as H84].
  - rewrite bool_decide_eq_true_2 by auto. unfold mbind, L_bind. rewrite Hk. by exists (set_services T' s1), o2.
  - rewrite bool_decide_eq_true_2 by auto. unfold mbind, L_bind. rewrite Hk. by exists (set_services T' s1), o2.
  - rewrite bool_decide_eq_false_2 by tauto. exists s1, o1. split_and!; [done|done|done|apply Hr].
Qed.

(** ** The reply reaches the Supervisor *)

(** A computation that sends nothing. *)
Definition silent {A} (c : L A) : Prop :=
  forall o, outbox (c o).1 = outbox o /\ sends (coming (c o).1) = sends (coming o).

Lemma silent_ret {A} (a : A) : silent (mret a). Proof. done. Qed.
Lemma silent_gets {A} (f : os -> A) : silent (gets f). Proof. done. Qed.
Lemma silent_blocks {A} : silent (blocks (A := A)). Proof. done. Qed.
Lemma silent_bind {A B} (c : L A) (k : A -> L B) : silent c -> (forall a, silent (k a)) -> silent (c ≫= k).
Proof.
  intros Hc Hk o. unfold mbind, L_bind. specialize (Hc o). destruct (c o) as [o1 [a|]]; [|done]. cbn in *.
  destruct Hc as [<- <-]. apply Hk.
Qed.
Lemma silent_modifies f : (forall o, outbox (f o) = outbox o /\ sends (coming (f o)) = sends (coming o)) -> silent (modifies f).
Proof. done. Qed.
Lemma silent_answers {A} (f : os -> os * A) :
  (forall o, outbox (f o).1 = outbox o /\ sends (coming (f o).1) = sends (coming o)) -> silent (answers f).
Proof. intros Hf o. specialize (Hf o). unfold answers. by destruct (f o). Qed.

Lemma apply_event_silent e o :
  outbox (apply_event e o) = outbox o /\ sends (coming (apply_event e o)) = sends (coming o).
Proof.
  destruct e; cbn; repeat match goal with |- context [match ?x with _ => _ end] => destruct x end; done.
Qed.

Lemma silent_happen : silent happen.
Proof.
  apply silent_modifies. intros o. destruct (happens (coming o)) as [|l rest]; [done|].
  set (o1 := set_coming _ o). change (outbox o) with (outbox o1). change (sends (coming o)) with (sends (coming o1)).
  generalize o1. clear. induction l as [|e l IH]; intros o; [done|]. cbn. destruct (IH (apply_event e o)) as [-> ->].
  apply apply_event_silent.
Qed.

Ltac silent_step :=
  match goal with
  | |- silent (_ ≫= _) => apply silent_bind; [|intros ?]
  | |- silent (mret _) => apply silent_ret
  | |- silent (gets _) => apply silent_gets
  | |- silent blocks => apply silent_blocks
  | |- silent happen => apply silent_happen
  | |- silent (modifies _) => apply silent_modifies; intros ?
  | |- silent (answers _) => apply silent_answers; intros ?
  | |- silent (match ?x with _ => _ end) => destruct x
  | |- silent (let _ := _ in _) => cbn zeta
  end.
Ltac silent_go := repeat silent_step; try done; auto.

Lemma silent_signal t s : silent (signal t s). Proof. unfold signal. silent_go. Qed.
Lemma silent_getpgid p : silent (getpgid p). Proof. unfold getpgid. silent_go. Qed.
Lemma silent_waitpid p b : silent (waitpid p b). Proof. unfold waitpid, reap, next_end. silent_go. Qed.
Lemma silent_now : silent now.
Proof. unfold now. silent_go. by destruct (elapsed _). Qed.
Lemma silent_spawn c : silent (spawn c).
Proof. unfold spawn. silent_go. by destruct (forks _). Qed.
#[local] Hint Resolve silent_signal silent_getpgid silent_waitpid silent_now silent_spawn : core.

Lemma silent_try_wait p : silent (Process.try_wait p). Proof. unfold Process.try_wait. silent_go. Qed.
Lemma silent_wait p : silent (Process.wait p). Proof. unfold Process.wait. silent_go. Qed.
#[local] Hint Resolve silent_try_wait silent_wait : core.
Lemma silent_kill_loop fuel t stop p : silent (Process.kill_loop fuel t stop p).
Proof. revert p. induction fuel as [|fuel IH]; intros p; cbn [Process.kill_loop]; silent_go. Qed.
#[local] Hint Resolve silent_kill_loop : core.
Lemma silent_kill p : silent (Process.kill p). Proof. unfold Process.kill. silent_go. Qed.
#[local] Hint Resolve silent_kill : core.
Lemma silent_service_kill s : silent (LaunchedService.kill s). Proof. unfold LaunchedService.kill. silent_go. Qed.
Lemma silent_service_wait s : silent (LaunchedService.wait s). Proof. unfold LaunchedService.wait. silent_go. Qed.
#[local] Hint Resolve silent_service_kill silent_service_wait : core.
Lemma silent_run_and_insert m T : silent (run_and_insert get_uid_by_name get_gid_by_name describe m T).
Proof. unfold run_and_insert, run. silent_go. Qed.
#[local] Hint Resolve silent_run_and_insert : core.
Lemma silent_restart m T : silent (RestartHandler m T). Proof. unfold Launcher.RestartHandler. silent_go. Qed.
Lemma silent_terminate m T : silent (TerminateHandler m T). Proof. unfold Launcher.TerminateHandler. silent_go. Qed.

(** What the Supervisor receives after it sent a message: the first message that the Launcher sends
    when it handles it. *)
Definition answer (T : ServiceTable.t) (o : os) (b : bytes) : result client_error bytes :=
  match drop (length (outbox o)) (outbox (dispatch b T o).1) with
  | m :: _ => Ok m
  | [] => Err (IPCIO true)
  end.

(** What can be sent in a reply. *)
Definition sendable `{MessageStatic Message, MessageStatic Reply} (m : Message) (r : result NetErr.t Reply) : Prop :=
  match r with
  | Ok x => in_range x /\ in_range (NetTxn.build_reply (NetTxn.build m) x)
  | Err e => in_range e /\ in_range (NetTxn.build_reply (NetTxn.build m) e)
  end.

(** The bytes of a reply. *)
Definition reply_bytes `{MessageStatic Message, MessageStatic Reply} (m : Message) (r : result NetErr.t Reply) : bytes :=
  match r with
  | Ok x => NetTxn.to_bytes (NetTxn.build_reply (NetTxn.build m) x)
  | Err e => NetTxn.to_bytes (NetTxn.build_reply (NetTxn.build m) e)
  end.

Lemma tx_send_out b o : sends (coming o) = [] -> outbox (tx_send b o).1 = outbox o ++ [b].
Proof.
  intros Hs. unfold tx_send, mbind, L_bind. pose proof (silent_happen o) as [Ho Hs'].
  destruct (happen o) as [o1 [[]|]] eqn:Hh; cbn in Ho, Hs'.
  - unfold answers. rewrite Hs', Hs. cbn. by rewrite Ho.
  - unfold happen, modifies in Hh. by destruct (happens (coming o)).
Qed.

Lemma handler_run_out `{LawfulMessage Message, LawfulMessage Reply} `{!ProtobufLaws} (h : Handler Message Reply) m T o o1 T1 r :
  silent (h m T) -> h m T o = (o1, Done (T1, r)) -> sends (coming o) = [] -> in_range m ->
  outbox (handler_run h (NetTxn.build m) T o).1 = outbox o ++ [reply_bytes m r].
Proof.
  intros Hsil Hh Hs Hm. unfold handler_run. rewrite decode_build by done. unfold mbind at 1, L_bind at 1. rewrite Hh.
  pose proof (Hsil o) as [Ho Hs1]. rewrite Hh in Ho, Hs1. cbn in Ho, Hs1. rewrite Hs in Hs1. rewrite <- Ho.
  destruct r as [x|e]; unfold mbind, L_bind, reply; cbn [reply_bytes];
    match goal with |- context [tx_send ?b o1] => pose proof (tx_send_out b o1 Hs1) as Hout; destruct (tx_send b o1) as [o2 [?|]] end;
    exact Hout.
Qed.

(** The Supervisor gets what the handler gives, errors included. *)
Lemma recv_answer `{LawfulMessage Message, LawfulMessage Reply} `{!ProtobufLaws} (h : Handler Message Reply) m T o o1 T1 r :
  dispatch (LauncherCli.command m) T = handler_run h (NetTxn.build m) T -> descriptor_name (T := Reply) <> "NetErr" ->
  silent (h m T) -> h m T o = (o1, Done (T1, r)) -> sends (coming o) = [] -> in_range m -> sendable m r ->
  LauncherCli.recv (answer T o) Reply (LauncherCli.command m)
  = match r with Ok x => Ok x | Err e => Err (Protocol e) end.
Proof.
  intros Hd Hn Hsil Hh Hs Hm Hr. unfold LauncherCli.recv, answer. rewrite Hd, (handler_run_out h m T o o1 T1 r) by done.
  rewrite drop_app_length. cbn. destruct r as [x|e]; destruct Hr as [H1' H2']; [by apply read_reply|by apply read_error].
Qed.

(** The handler that a command gets to. *)
Lemma dispatch_command `{LawfulMessage Message} `{!ProtobufLaws} (m : Message) T :
  in_range (NetTxn.build m) -> dispatch (LauncherCli.command m) T =
  let txn := NetTxn.build m in
  if bool_decide (descriptor_name (T := Message) = "Restart") then handler_run RestartHandler txn T
  else if bool_decide (descriptor_name (T := Message) = "Spawn") then handler_run SpawnHandler txn T
  else if bool_decide (descriptor_name (T := Message) = "Terminate") then handler_run TerminateHandler txn T
  else mret T.
Proof. intros Hm. unfold Launcher.dispatch, LauncherCli.command. rewrite from_to_bytes by done. done. Qed.

(** A whole call: the message goes to its handler and the reply comes back. *)
Lemma call_served `{LawfulMessage Message, LawfulMessage Reply} `{!ProtobufLaws} (h : Handler Message Reply) m T o
    (P : ServiceTable.t * result NetErr.t Reply -> os -> Prop) :
  dispatch (LauncherCli.command m) T = handler_run h (NetTxn.build m) T -> descriptor_name (T := Reply) <> "NetErr" ->
  silent (h m T) -> wp False (h m T) P o -> sends (coming o) = [] -> in_range m ->
  (forall x o', P x o' -> sendable m x.2) ->
  exists x o1 o2, P x o1 /\ stays o1 o2 /\ dispatch (LauncherCli.command m) T o = (o2, Done x.1)
    /\ LauncherCli.recv (answer T o) Reply (LauncherCli.command m) = match x.2 with Ok y => Ok y | Err e => Err (Protocol e) end.
Proof.
  intros Hd Hn Hsil Hw Hs Hm Hsend. apply wp_total in Hw as ([T1 r] & o1 & Hh & Hg1 & HP).
  assert (wp False (tx_send (reply_bytes m r)) (fun _ o2 => stays o1 o2) o1) as Ht by by apply wp_tx_send.
  apply wp_total in Ht as (b & o2 & Ht & Hg2 & Hs2).
  exists (T1, r), o1, o2. split_and!; [done|done| |].
  - rewrite Hd. unfold handler_run. rewrite decode_build by done. unfold mbind at 1, L_bind at 1. rewrite Hh.
    destruct r; unfold reply, mbind, L_bind; cbn [reply_bytes] in Ht; by rewrite Ht.
  - by apply (recv_answer h m T o o1 T1 r); [..|apply (Hsend _ _ HP)].
Qed.

(** C23: when the Supervisor asks for a service, through the bytes of the request and of the reply, it
    gets the number of a new process that runs the service for its user and group and that the
    Launcher has put into its table; or an error that says why there is none. *)
Theorem spawn_call_starts_service `{!ProtobufLaws} id bin user group password env msg T o :
  msg = Spawn.mk (Some id) (Some bin) (Some user) (Some group) password env ->
  good o -> tracks T o -> sends (coming o) = [] -> in_range msg -> in_range (NetTxn.build msg) ->
  (forall r : SpawnOk.t, in_range (NetTxn.build_reply (NetTxn.build msg) r)) ->
  (forall e, start_error get_uid_by_name get_gid_by_name describe msg e -> sendable (Reply := SpawnOk.t) msg (Err e)) ->
  exists T' o', dispatch (LauncherCli.command msg) T o = (o', Done T') /\ tracks T' o' /\
    match LauncherCli.spawn (answer T o) id bin user group password env with
    | Ok p => exists uid gid g, get_uid_by_name user = Some uid /\ get_gid_by_name group = Some gid /\
        mine o !! p = None /\ mine o' = <[p := (mkCommand bin [] (map_to_list env) (Some uid) (Some gid) true, g)]> (mine o) /\
        T' = <[p := LaunchedService.new msg (Process.mk p None)]> T
    | Err (Protocol e) => T' = T /\ mine o' = mine o /\ start_error get_uid_by_name get_gid_by_name describe msg e
    | Err _ => False
    end.
Proof.
  intros -> Hg HT Hs Hm Hb Hok Herr. set (msg := Spawn.mk _ _ _ _ _ _) in *.
  destruct (call_served SpawnHandler msg T o (fun x o' => tracks x.1 o' /\
      starts get_uid_by_name get_gid_by_name describe msg T (mine o) x (mine o')))
    as ([T1 r] & o1 & o2 & [HT1 Hst] & Hs2 & Hd & Hr); try done.
  - by rewrite dispatch_command.
  - by apply wp_spawn_handler.
  - intros [T1 [r|e]] o1 [_ Hst]; [|by apply Herr; destruct Hst as (_ & _ & ?)].
    destruct Hst as (p & _ & _ & _ & -> & Hp & _). split; [cbn; unfold is_i64; lia|apply Hok].
  - exists T1, o2. split; [done|]. split; [eapply tracks_mine; [apply (stays_mine _ _ Hs2)|done]|].
    unfold LauncherCli.spawn. fold msg. rewrite Hr, (stays_mine _ _ Hs2). cbn [snd] in *. destruct r as [y|e]; cbn.
    + destruct Hst as (p & uid & gid & g & -> & Hp & Hn & Hu & Hgi & Hmine & HT'). cbn.
      rewrite wrap_i32_id by lia. exists uid, gid, g. done.
    + done.
Qed.

(** C24: when the Supervisor of the super user ends a service, the call returns, through the bytes of
    the request and of the reply, with the exit code of the process, which is gone; the rest of
    the Launcher's processes are as before. *)
Theorem terminate_call_ends_service `{!ProtobufLaws} pid s T o :
  good o -> tracks T o -> sends (coming o) = [] -> my_uid o = 0 -> is_i32 pid -> in_range (NetTxn.build (Terminate.mk (Some pid))) ->
  (forall r : TerminateOk.t, in_range (NetTxn.build_reply (NetTxn.build (Terminate.mk (Some pid))) r)) -> T !! pid = Some s -> ~ ended s ->
  exists T' o' st, dispatch (LauncherCli.command (Terminate.mk (Some pid))) T o = (o', Done T') /\ tracks T' o' /\
    LauncherCli.terminate (answer T o) pid = Ok (default 0 (exit_code st)) /\ mine o' = delete pid (mine o) /\
    T' = <[pid := LaunchedService.set_process (Process.mk pid (Some st)) s]> T.
Proof.
  set (msg := Terminate.mk (Some pid)). intros Hg HT Hs Hu Hp Hb Hok Hk He.
  assert (wrap_i32 (Terminate.get_pid msg) = pid) as Hw by by apply wrap_i32_id.
  destruct (call_served TerminateHandler msg T o (fun x o' => exists st m,
      x = (<[pid := LaunchedService.set_process (Process.mk pid (Some st)) s]> T,
           Ok (TerminateOk.mk (Some (default 0 (exit_code st))) (Some m))) /\ tracks x.1 o' /\ mine o' = delete pid (mine o)))
    as (x & o1 & o2 & (st & m & -> & HT1 & Hm1) & Hs2 & Hd & Hr); try done.
  - by rewrite dispatch_command.
  - apply silent_terminate.
  - apply (wp_terminate describe False msg T s); rewrite ?Hw; [done..|by right|].
    intros st m o' Hg' HT' Hmv _ _. exists st, m. split_and!; [done|done|apply Hmv].
  - cbn. unfold is_i64. unfold is_i32 in Hp. lia.
  - intros x o' (st & m & -> & _). split; [|apply Hok]. cbn. unfold exit_code. case_bool_decide; cbn; [|done].
    unfold is_i32. pose proof (Z.land_ones (Z.shiftr st 8) 8 ltac:(lia)) as Hl. change (Z.ones 8) with 255 in Hl. rewrite Hl.
    pose proof (Z.mod_pos_bound (Z.shiftr st 8) (2 ^ 8) ltac:(lia)). lia.
  - exists (<[pid := LaunchedService.set_process (Process.mk pid (Some st)) s]> T), o2, st.
    split_and!; [done|eapply tracks_mine; [apply (stays_mine _ _ Hs2)|done]| |by rewrite (stays_mine _ _ Hs2)|done].
    unfold LauncherCli.terminate. fold msg. by rewrite Hr.
Qed.

(** ** What is lost *)

(** Of the signals that the Launcher catches, none is passed on to the Supervisor: the others than
    [INT] and [TERM] have no [Signal] in [from_signal_code], and stay caught. *)
Theorem no_signal_forwarded o s :
  happens (coming o) = [] -> caught o = true -> s ∈ handled_signals -> signal_code o = Signal.os_signal s ->
  check_for_signal o = (o, Done (if bool_decide (s = Signal.INT \/ s = Signal.TERM) then Some SignalEvent.Shutdown else None)).
Proof.
  intros Hh Hc Hs Hcode. unfold check_for_signal, happen, modifies, mbind, L_bind, gets. rewrite Hh, Hc, Hcode.
  unfold handled_signals in Hs. set_unfold in Hs. by destruct s; try done; naive_solver.
Qed.

(** A Supervisor that waits for the reply to a request takes the message that it should shut down
    for a reply: a service that was started gets the number [0], and the message is used up. *)
Theorem shutdown_taken_for_reply `{!ProtobufLaws} (exchange : bytes -> result client_error bytes) id bin user group password env pid :
  (forall b, exchange b = Ok (LauncherCli.command (new : Shutdown.t))) ->
  in_range (NetTxn.build (new : Shutdown.t)) ->
  LauncherCli.spawn exchange id bin user group password env = Ok 0 /\ LauncherCli.restart exchange pid = Ok 0
  /\ LauncherCli.terminate exchange pid = Ok 0.
Proof.
  intros He Hb. assert (forall T (M : MessageStatic T) (HM : LawfulMessage T) b,
    LauncherCli.recv exchange T b = Ok (new : T)) as Hrecv.
  { intros T M HM b. unfold LauncherCli.recv. rewrite He. cbn. unfold LauncherCli.read, LauncherCli.command.
    rewrite from_to_bytes by done. rewrite bool_decide_eq_false_2 by done.
    change (NetTxn.decode T _) with (parse_from_bytes T (write_to_bytes (new : Shutdown.t))).
    by rewrite write_new, parse_nil. }
  unfold LauncherCli.spawn, LauncherCli.restart, LauncherCli.terminate. rewrite !Hrecv by apply _. done.
Qed.
End theorems.
