(* ===== verification/LauncherHost.v ===== *)
(** * The Launcher as a service sees it

    [Host] describes the machine of a service with a Launcher whose replies are given, and says
    which processes are alive after a request.  The Launcher of [Launcher] does what is said
    there: a refinement, request by request. *)

From S2P Require Import Prelude Regex Text Ident Host ByteText ProtoWire LauncherOs LauncherProto Launcher LauncherLogic LauncherProofs LauncherRuns.
Local Open Scope Z_scope.
Local Open Scope string_scope.
Local Open Scope list_scope.

(** The processes that are alive for [Host] are those that [is_alive] finds. *)
Definition alive_agrees (h : Host.host) (o : os) : Prop := forall p, 0 < p -> p ∈ Host.alive h <-> is_alive p o = true.

Lemma is_alive_iff p o : 0 < p -> is_alive p o = true <-> is_Some (mine o !! p) \/ stranger o p.
Proof.
  intros Hp. unfold is_alive. rewrite bool_decide_eq_true. transitivity (is_Some (procs o !! p)).
  - unfold targeted. rewrite (bool_decide_eq_true_2 (0 < p)) by done. split.
    + intros Hn. destruct (procs o !! p) eqn:Hq; [done|]. exfalso. apply Hn. intros q pr Hpr. apply bool_decide_eq_false.
      intros ->. congruence.
    + intros [pr Hpr] Hall. apply (Hall p pr) in Hpr. by rewrite bool_decide_eq_true_2 in Hpr.
  - rewrite mine_lookup. unfold stranger. destruct (procs o !! p) as [pr|]; cbn; [|split; [by intros []|intros [[? ?]|(? & ? & _)]; done]].
    destruct (started pr) eqn:Hs; cbn; [split; [by left|done]|]. split; [|done]. intros _. right. by exists pr.
Qed.

(** What the Supervisor asks for. *)
Inductive request := AskSpawn (msg : Spawn.t) | AskRestart (pid : Z) | AskTerminate (pid : Z).

(** A reply with a number, or an error. *)
Definition as_reply {A} (f : A -> Z) (r : result NetErr.t A) : option Z := match r with Ok a => Some (f a) | Err _ => None end.

Definition launcher_serves (get_uid_by_name get_gid_by_name : string -> option Z) (describe : io_error -> string)
    (r : request) (T : ServiceTable.t) : L (ServiceTable.t * option Z) :=
  match r with
  | AskSpawn msg => x ← SpawnHandler get_uid_by_name get_gid_by_name describe msg T; mret (x.1, as_reply SpawnOk.get_pid x.2)
  | AskRestart p =>
      x ← RestartHandler get_uid_by_name get_gid_by_name describe (Restart.mk (Some p)) T;
      mret (x.1, as_reply SpawnOk.get_pid x.2)
  | AskTerminate p =>
      x ← TerminateHandler describe (Terminate.mk (Some p)) T; mret (x.1, as_reply TerminateOk.get_exit_code x.2)
  end.

(** The same request to the Launcher of [Host], which gives the number of the new process. *)
Definition host_serves (r : request) : Host.M (option Z) :=
  match r with
  | AskSpawn msg => Host.launcher_spawn (Spawn.get_id msg)
  | AskRestart p => Host.launcher_restart p
  | AskTerminate p => x ← Host.launcher_terminate p; mret ((fun _ => 0) <$> x)
  end.

(** What of a reply a service looks at: not the exit code of a process that was ended. *)
Definition seen (req : request) (r : option Z) : option Z :=
  match req with AskTerminate _ => (fun _ => 0) <$> r | _ => r end.

Definition request_in_range (r : request) : Prop :=
  match r with AskSpawn _ => True | AskRestart p | AskTerminate p => is_i32 p end.

(** Two machines that differ in the processes of the Launcher only. *)
Lemma alive_after o o' p : quiet o o' -> happens (coming o) = [] -> 0 < p ->
  is_alive p o' = true <-> is_Some (mine o' !! p) \/ stranger o p.
Proof. intros Hq Hh Hp. destruct (Hq Hh) as [_ Hs]. by rewrite is_alive_iff, Hs. Qed.

Lemma mine_not_stranger o p x : mine o !! p = Some x -> ~ stranger o p.
Proof. destruct x as [c g]. intros (pr & Hpr & Hst & _)%mine_some (pr' & Hpr' & Hn). congruence. Qed.

(** The processes that are alive after one was waited for, and after one was started. *)
Lemma alive_deleted h o o' k x : alive_agrees h o -> mine o !! k = Some x -> quiet o o' -> happens (coming o) = [] ->
  mine o' = delete k (mine o) -> forall p, 0 < p -> p ∈ Host.alive h ∖ {[k]} <-> is_alive p o' = true.
Proof.
  intros Ha Hk Hq Hh Hm p Hp. rewrite (alive_after _ _ _ Hq Hh Hp), Hm, elem_of_difference, elem_of_singleton, (Ha p Hp), is_alive_iff by done.
  pose proof (mine_not_stranger _ _ _ Hk) as Hns. destruct (decide (k = p)) as [<-|Hne].
  - rewrite lookup_delete_eq. split; [tauto|]. intros [[? ?]|?]; done.
  - rewrite lookup_delete_ne by done. naive_solver.
Qed.

Section refinement.
Context (get_uid_by_name get_gid_by_name : string -> option Z) (describe : io_error -> string).
#[local] Abbreviation launcher_serves := (launcher_serves get_uid_by_name get_gid_by_name describe).

(** The state of [Host] before a request whose reply is known. *)
Definition before (r : option Z) (ended : bool) (l : list (option Z)) (f : list bool) (h : Host.host) : Host.host :=
  Host.set_replies (r :: l) (Host.set_faults (ended :: f) h).

(** The answer of [Host], given that reply. *)
Definition simulated (req : request) (r : option Z) (h : Host.host) (o' : os) : Prop :=
  exists ended, forall l f, exists h', host_serves req (before r ended l f h) = (h', Return (seen req r)) /\ alive_agrees h' o'.

Lemma simulate_spawn msg T h o o' x : alive_agrees h o -> quiet o o' -> happens (coming o) = [] ->
  starts get_uid_by_name get_gid_by_name describe msg T (mine o) x (mine o') ->
  simulated (AskSpawn msg) (as_reply SpawnOk.get_pid x.2) h o'.
Proof.
  intros Ha Hq Hh Hst. exists false. intros l f. destruct x as [T' [y|e]]; (eexists; split; [reflexivity|]); intros p Hp; cbn;
    rewrite (alive_after _ _ _ Hq Hh Hp).
  - destruct Hst as (q & uid & gid & g & -> & Hq2 & Hn & _ & _ & Hm & _). cbn.
    rewrite Hm, elem_of_union, elem_of_singleton, (Ha p Hp), is_alive_iff by done. destruct (decide (q = p)) as [<-|Hne].
    + rewrite lookup_insert_eq. split; [left; by eexists|by left].
    + rewrite lookup_insert_ne by done. naive_solver.
  - destruct Hst as (_ & -> & _). by rewrite (Ha p Hp), is_alive_iff.
Qed.

Lemma simulate_restart k y args T h o o' x : alive_agrees h o -> mine o !! k = Some y -> quiet o o' -> happens (coming o) = [] ->
  starts get_uid_by_name get_gid_by_name describe args T (delete k (mine o)) x (mine o') ->
  simulated (AskRestart k) (as_reply SpawnOk.get_pid x.2) h o'.
Proof.
  intros Ha Hk Hq Hh Hst. exists true. intros l f. pose proof (mine_not_stranger _ _ _ Hk) as Hns.
  destruct x as [T' [z|e]]; (eexists; split; [reflexivity|]).
  - destruct Hst as (q & uid & gid & g & -> & Hq2 & Hn & _ & _ & Hm & _). intros p Hp. cbn.
    rewrite (alive_after _ _ _ Hq Hh Hp), Hm, elem_of_union, elem_of_difference, !elem_of_singleton, (Ha p Hp), is_alive_iff by done.
    destruct (decide (q = p)) as [<-|Hne].
    + rewrite lookup_insert_eq. split; [left; by eexists|by left].
    + rewrite lookup_insert_ne by done. destruct (decide (k = p)) as [<-|Hne2].
      * rewrite lookup_delete_eq. split; [naive_solver|]. intros [[? ?]|?]; done.
      * rewrite lookup_delete_ne by done. naive_solver.
  - destruct Hst as (_ & Hm & _). intros p Hp. cbn. by apply (alive_deleted h o o' k y).
Qed.

(** C22: the Launcher refines the one that [Host] assumes for a service: whatever the Supervisor asks
    for, while nothing else happens on the machine the Launcher of the super user replies, and
    [Host], given that reply, has exactly the processes alive that are alive then; a restart that
    fails can have ended its process. *)
Theorem launcher_refines_host req T h o :
  good o -> tracks T o -> all_running T -> my_uid o = 0 -> happens (coming o) = [] -> request_in_range req -> alive_agrees h o ->
  exists T' r o', launcher_serves req T o = (o', Done (T', r)) /\ tracks T' o' /\ simulated req r h o'.
Proof.
  intros Hg HT Hall Hu Hh Hr Ha.
  assert (wp False (launcher_serves req T) (fun x o' => tracks x.1 o' /\ simulated req x.2 h o') o) as Hw.
  { destruct req as [msg|p|p]; cbn [LauncherHost.launcher_serves]; apply wpl_bind.
    - apply wp_spawn_handler; [done|done|]. intros x o' Hg' HT' Hsv Hst. apply wpl_ret; [done|]. split; [done|].
      eapply simulate_spawn; [done|apply Hsv|done|exact Hst].
    - assert (wrap_i32 (Restart.get_pid (Restart.mk (Some p))) = p) as Hw by by apply wrap_i32_id.
      destruct (T !! p) as [s|] eqn:Hs.
      + apply (wp_restart _ _ _ False (Restart.mk (Some p)) T s); rewrite ?Hw; [done|done|done|by apply (Hall p)|by right|].
        intros x o' Hg' HT' Hsv Hst. apply wpl_ret; [done|]. split; [done|].
        destruct (tracks_proc _ _ HT p s Hs (Hall p s Hs)) as (u & gi & g & Hm).
        eapply simulate_restart; [done|exact Hm|apply Hsv|done|exact Hst].
      + unfold RestartHandler, ServiceTable.get. rewrite Hw, Hs. apply wpl_ret; [done|]. apply wpl_ret; [done|]. split; [done|].
        exists false. intros l f. by eexists.
    - assert (wrap_i32 (Terminate.get_pid (Terminate.mk (Some p))) = p) as Hw by by apply wrap_i32_id.
      destruct (T !! p) as [s|] eqn:Hs.
      + apply (wp_terminate _ False (Terminate.mk (Some p)) T s); rewrite ?Hw; [done|done|done|by apply (Hall p)|by right|].
        intros st m o' Hg' HT' Hmv Hsv _. apply wpl_ret; [done|]. split; [done|].
        destruct (tracks_proc _ _ HT p s Hs (Hall p s Hs)) as (u & gi & g & Hm). exists false. intros l f. eexists. split; [reflexivity|].
        intros q Hq. cbn. by apply (alive_deleted h o o' p _ Ha Hm); [apply Hmv| |apply Hmv|].
      + unfold TerminateHandler, ServiceTable.get. rewrite Hw, Hs. apply wpl_ret; [done|]. apply wpl_ret; [done|]. split; [done|].
        exists false. intros l f. by eexists. }
  unfold wp in Hw. destruct (launcher_serves req T o) as [o' [[T' r]|]]; [|by destruct Hw].
  destruct Hw as (_ & HT' & Hsim). by exists T', r, o'.
Qed.
End refinement.

(** * Runs of the Launcher, worked out

    A Launcher with one service, in the wire format of protocol buffers: the instances of the
    theorems, and runs in which a Supervisor is left behind and an exit code is lost. *)

Module LauncherExample.
Definition users (name : string) : option Z := if bool_decide (name = "hab") then Some 42 else None.
Definition texts (e : io_error) : string := "failed".
Definition binary : result Error.t string := Ok "hab-sup".

Definition redis : Spawn.t := Spawn.mk (Some "redis.default") (Some "/hab/svc/redis/run") (Some "hab") (Some "hab") None {["PATH" := "/bin"]}.
Definition redis_command : Command := service_command redis 42 42.

(** A machine on which nothing has been started. *)
Definition machine (f : future) : os := Os ∅ 0 [] [] [] false 0 1 0 f.

Definition registered : option bytes := Some (LauncherCli.command (Register.mk (Some "reply"))).

(** The Supervisor registers, asks for a service, and ends with a code; the service ends when it
    is told to, or only when it is killed. *)
Definition day (code : Z) : os := machine (Future
  [[]; []; []; []; []; []; [Says (LauncherCli.command redis)]; []; []; []; []; []; []; [LauncherOs.Exit 100 (code * 256)]]
  [Some (100, true); Some (101, true)] [] [5; 10] [] [Some "pipe"] [registered] []).

#[local] Abbreviation launcher := (launcher users users texts 7 binary).

(** The state after two rounds. *)
Definition evening (code : Z) : os := (launcher 2 ["run"] (day code)).1.
Definition last_server (code : Z) : Server :=
  match (launcher 2 ["run"] (day code)).2 with
  | Done (Ok p) => server_of p
  | _ => mkServer ∅ (Child.mk 0 None) []
  end.

Lemma day_ends : launcher 2 ["run"] (day 84) = (evening 84, Done (Ok (Over (last_server 84) 0))).
Proof. vm_compute. reflexivity. Qed.

(** The service was told to end and killed after eight seconds; both signals went to its group. *)
Example day_signals : (sent (evening 84)).*1 = [(-101, Signal.TERM); (-101, Signal.KILL)].
Proof. vm_compute. reflexivity. Qed.

Lemma launcher_signals_own_witness : signals_own (launcher 2 ["run"] (day 84)).1.
Proof. apply (launcher_signals_own users users texts 7 binary); reflexivity. Defined.

Lemma launcher_tracks_services_witness : tracks (services (last_server 84)) (evening 84).
Proof.
  apply (launcher_tracks_services users users texts 7 binary 2 ["run"] (day 84) (evening 84) (Over (last_server 84) 0));
    [reflexivity|reflexivity|vm_compute; reflexivity].
Defined.

(** The process of the service, as the Launcher left it. *)
Definition evening_service : proc := default (Proc None 0 0 (Running false)) (procs (evening 84) !! 101).

Lemma no_service_outlives_launcher_witness : own_group <$> started evening_service = Some true /\ state evening_service <> Running false.
Proof.
  split; [vm_compute; reflexivity|].
  eapply (no_service_outlives_launcher users users texts 7 binary 2 ["run"] (day 84) (evening 84) (last_server 84) 0 eq_refl eq_refl eq_refl day_ends 101);
    vm_compute; reflexivity.
Defined.

(** The Supervisor ends with [ERR_NO_RETRY_EXCODE], of which the documentation says that the Launcher
    should exit with a code that is not [0]: the server returns the code, and [main] drops it. *)
Theorem exit_code_lost :
  exists s, (launcher 2 ["run"] (day 86)).2 = Done (Ok (Over s ERR_NO_RETRY_EXCODE))
            /\ main_exit_code (Ok ERR_NO_RETRY_EXCODE) = 0.
Proof. exists (last_server 86). split; [vm_compute; reflexivity|reflexivity]. Qed.

(** ** A Supervisor that is left behind *)

(** The Supervisor fails, the next one cannot be connected to, and a third one is started. *)
Definition restless : os := machine (Future
  [[]; []; []; []; []; []; []; []; [LauncherOs.Exit 100 256]]
  [Some (100, true); Some (102, true); Some (103, true)] [] [] []
  [Some "a"; Some "b"; Some "c"] [registered; None; registered] []).

(** The second Supervisor runs, and the Launcher has forgotten it: it is not the Supervisor it
    watches, and was sent no signal. *)
Theorem failed_setup_leaves_supervisor :
  exists o s, launcher 3 ["run"] restless = (o, Done (Ok (Up s))) /\ Child.id (supervisor s) = 103 /\ sent o = []
    /\ state <$> procs o !! 102 = Some (Running false) /\ state <$> procs o !! 103 = Some (Running false).
Proof.
  exists (launcher 3 ["run"] restless).1,
    (match (launcher 3 ["run"] restless).2 with Done (Ok p) => server_of p | _ => mkServer ∅ (Child.mk 0 None) [] end).
  split_and!; vm_compute; reflexivity.
Qed.

(** ** Requests *)

(** A Launcher with the service [redis] as process [101], and a Supervisor as process [100]. *)
Definition supervisor_proc : proc := Proc (Some (supervisor_command 7 "hab-sup" "pipe" ["run"] false)) 1 0 (Running false).
Definition redis_proc (s : pstate) : proc := Proc (Some redis_command) 101 42 s.
Definition table : ServiceTable.t := {[101 := LaunchedService.new redis (Process.mk 101 None)]}.
Definition noon (s : pstate) (f : future) : os :=
  Os {[100 := supervisor_proc; 101 := redis_proc s]} 0 [] [] [] false 0 1 0 f.
Definition undisturbed : future := Future [] [Some (102, true)] [] [] [] [] [] [].

Lemma noon_mine s f : mine (noon s f) = {[100 := (supervisor_command 7 "hab-sup" "pipe" ["run"] false, 1); 101 := (redis_command, 101)]}.
Proof. vm_compute. reflexivity. Qed.

Lemma noon_good s f : good (noon s f).
Proof.
  split; [constructor|]. intros p x. rewrite noon_mine.
  rewrite lookup_insert_Some, lookup_singleton_Some. lia.
Qed.

Lemma table_entry k t : table !! k = Some t -> 101 = k /\ LaunchedService.new redis (Process.mk 101 None) = t.
Proof. unfold table. apply lookup_singleton_Some. Qed.

Lemma noon_tracks s f : tracks table (noon s f).
Proof.
  split.
  - by intros k t [<- <-]%table_entry.
  - intros k t [<- <-]%table_entry _. exists 42, 42, 101. by rewrite noon_mine.
  - intros p c g. rewrite noon_mine, lookup_insert_Some, lookup_singleton_Some.
    intros [[_ [= <- _]]|(_ & <- & [= <- _])] Ho; [done|]. eexists. split; [reflexivity|]. by intros He; apply He.
Qed.

Lemma table_running : all_running table.
Proof. intros k t [_ <-]%table_entry He. by apply He. Qed.

Lemma numbers_sendable {T R} `{MessageStatic T, MessageStatic R} (m : T) (r : R) :
  is_text (descriptor_name (T := R)) -> Forall (fun f => exists v, f.2 = Varint v) (write_fields r) ->
  (length (write_fields r) <= 2)%nat -> in_range (NetTxn.build_reply (NetTxn.build m) r).
Proof.
  intros Hn Hf Hl. split_and!; [done| |done]. cbn. pose proof (WireFormat.length_numbers _ Hf). unfold write_to_bytes, to_wire.
  cbn. lia.
Qed.

Lemma redis_in_range : in_range redis /\ in_range (NetTxn.build redis).
Proof.
  split; [|split_and!; [split; vm_compute; reflexivity|vm_compute; reflexivity|done]].
  split; [split_and!; try done; split; vm_compute; reflexivity|].
  intros k v Hkv. cbn in Hkv. apply lookup_singleton_Some in Hkv as [<- <-]. split_and!; split; vm_compute; reflexivity.
Qed.

(** The Supervisor asks for a second process of the service. *)
Lemma spawn_call_starts_service_witness :
  exists T' o', dispatch users users texts (LauncherCli.command redis) table (noon (Running false) undisturbed) = (o', Done T') /\
    tracks T' o' /\
    match LauncherCli.spawn (answer users users texts table (noon (Running false) undisturbed))
            "redis.default" "/hab/svc/redis/run" "hab" "hab" None {["PATH" := "/bin"]} with
    | Ok p => exists uid gid g, users "hab" = Some uid /\ users "hab" = Some gid /\
        mine (noon (Running false) undisturbed) !! p = None /\
        mine o' = <[p := (mkCommand "/hab/svc/redis/run" [] (map_to_list ({["PATH" := "/bin"]} : gmap string string)) (Some uid) (Some gid) true, g)]>
                    (mine (noon (Running false) undisturbed)) /\
        T' = <[p := LaunchedService.new redis (Process.mk p None)]> table
    | Err (Protocol e) => T' = table /\ mine o' = mine (noon (Running false) undisturbed) /\ start_error users users texts redis e
    | Err _ => False
    end.
Proof.
  apply (spawn_call_starts_service users users texts "redis.default" "/hab/svc/redis/run" "hab" "hab" None {["PATH" := "/bin"]}
           redis table (noon (Running false) undisturbed)).
  - reflexivity.
  - apply noon_good.
  - apply noon_tracks.
  - reflexivity.
  - apply redis_in_range.
  - apply redis_in_range.
  - intros [[p|]]; apply numbers_sendable; [split; vm_compute; reflexivity|repeat constructor; by eexists|cbn; lia
      |split; vm_compute; reflexivity|constructor|cbn; lia].
  - intros e He. vm_compute in He. rewrite He. split; [split; vm_compute; reflexivity|].
    split_and!; [split; vm_compute; reflexivity|vm_compute; reflexivity|done].
Defined.

Lemma terminate_call_ends_service_witness :
  exists T' o' st, dispatch users users texts (LauncherCli.command (Terminate.mk (Some 101))) table (noon (Running false) undisturbed)
      = (o', Done T') /\ tracks T' o' /\
    LauncherCli.terminate (answer users users texts table (noon (Running false) undisturbed)) 101 = Ok (default 0 (exit_code st)) /\
    mine o' = delete 101 (mine (noon (Running false) undisturbed)) /\
    T' = <[101 := LaunchedService.set_process (Process.mk 101 (Some st)) (LaunchedService.new redis (Process.mk 101 None))]> table.
Proof.
  apply (terminate_call_ends_service users users texts 101 (LaunchedService.new redis (Process.mk 101 None)) table (noon (Running false) undisturbed)).
  - apply noon_good.
  - apply noon_tracks.
  - reflexivity.
  - reflexivity.
  - unfold is_i32. lia.
  - split_and!; [split; vm_compute; reflexivity|vm_compute; reflexivity|done].
  - intros [[c|] [m|]]; apply numbers_sendable; try (split; vm_compute; reflexivity); try (cbn; lia); repeat constructor; by eexists.
  - reflexivity.
  - intros He. by apply He.
Defined.

Lemma restart_replaces_process_witness :
  exists x o', RestartHandler users users texts (Restart.mk (Some 101)) table (noon (Running false) undisturbed) = (o', Done x) /\
    tracks x.1 o' /\
    starts users users texts redis (delete 101 table) (delete 101 (mine (noon (Running false) undisturbed))) x (mine o').
Proof.
  apply (restart_replaces_process users users texts table (noon (Running false) undisturbed) (Restart.mk (Some 101))
           (LaunchedService.new redis (Process.mk 101 None))).
  - apply noon_good.
  - apply noon_tracks.
  - reflexivity.
  - intros He. by apply He.
  - reflexivity.
Defined.

Lemma terminate_ends_process_witness :
  exists st m o', TerminateHandler texts (Terminate.mk (Some 101)) table (noon (Exited 256) undisturbed)
    = (o', Done (<[101 := LaunchedService.set_process (Process.mk 101 (Some st)) (LaunchedService.new redis (Process.mk 101 None))]> table,
                 Ok (TerminateOk.mk (Some (default 0 (exit_code st))) (Some m))))
    /\ mine o' = delete 101 (mine (noon (Exited 256) undisturbed)) /\ m <> ShutdownMethod.AlreadyExited
    /\ tracks (<[101 := LaunchedService.set_process (Process.mk 101 (Some st)) (LaunchedService.new redis (Process.mk 101 None))]> table) o'.
Proof.
  apply (terminate_ends_process texts table (noon (Exited 256) undisturbed) (Terminate.mk (Some 101)) (LaunchedService.new redis (Process.mk 101 None))).
  - apply noon_good.
  - apply noon_tracks.
  - reflexivity.
  - intros He. by apply He.
  - reflexivity.
Defined.

(** ** The Supervisor's process *)
Definition orphaned : Server := mkServer table (Child.mk 99 (Some 256)) ["run"].
Definition reconnect : future := Future [] [Some (102, true)] [] [] [] [Some "pipe"] [registered] [].

Lemma reload_keeps_services_witness :
  exists o' s', reload 7 binary orphaned (noon (Running false) reconnect) = (o', Done (s', Ok tt)) /\
    services s' = table
    /\ (forall p c g, own_group c = true -> mine o' !! p = Some (c, g) <-> mine (noon (Running false) reconnect) !! p = Some (c, g))
    /\ (Ok tt = Ok tt :> result Error.t unit ->
        exists c g, mine o' !! Child.id (supervisor s') = Some (c, g)
                    /\ arguments c = ["run"] /\ (LAUNCHER_LOCK_CLEAN_ENV, "true") ∈ envs c).
Proof.
  exists (reload 7 binary orphaned (noon (Running false) reconnect)).1, (mkServer table (Child.mk 102 None) ["run"]).
  split; [vm_compute; reflexivity|].
  apply (reload_keeps_services 7 binary orphaned (noon (Running false) reconnect)).
  - apply noon_good.
  - apply noon_tracks.
  - done.
  - vm_compute. reflexivity.
Defined.

(** The Supervisor has ended with the code [84]. *)
Definition dusk : os :=
  Os {[100 := Proc (started supervisor_proc) 1 0 (Exited (84 * 256)); 101 := redis_proc (Running false)]} 0 [] [] [] false 0 1 0 undisturbed.
Definition watching : Server := mkServer table (Child.mk 100 None) ["run"].

Lemma dusk_mine : mine dusk = mine (noon (Running false) undisturbed).
Proof. vm_compute. reflexivity. Qed.

Lemma supervisor_exit_decides_witness :
  exists s' o', handle_message users users texts watching dusk = (o', Done (s',
      if bool_decide (exit_code (84 * 256) = Some ERR_NO_RETRY_EXCODE) then Ok (Exit ERR_NO_RETRY_EXCODE)
      else if bool_decide (exit_code (84 * 256) = Some OK_NO_RETRY_EXCODE) then Ok (Exit 0) else Err Error.SupShutdown))
    /\ tracks (services s') o'
    /\ (if bool_decide (exit_code (84 * 256) = Some ERR_NO_RETRY_EXCODE \/ exit_code (84 * 256) = Some OK_NO_RETRY_EXCODE)
        then services_doomed o'
        else services s' = table /\ mine o' = delete 100 (mine dusk)).
Proof.
  apply (supervisor_exit_decides users users texts watching dusk (supervisor_command 7 "hab-sup" "pipe" ["run"] false) 1 0 (84 * 256)).
  - apply (good_stays (noon (Running false) undisturbed)); [apply noon_good|apply dusk_mine|reflexivity].
  - split; [apply (tracks_mine _ _ _ dusk_mine), noon_tracks|]. split; [reflexivity|].
    exists (supervisor_command 7 "hab-sup" "pipe" ["run"] false), 1. split; [by rewrite dusk_mine, noon_mine|reflexivity].
  - apply table_running.
  - reflexivity.
  - reflexivity.
  - reflexivity.
  - reflexivity.
Defined.

(** ** A service's view *)
Definition view : Host.host := Host.Host ∅ ∅ ∅ [] {[100; 101]} [] [] 0 [].

Lemma launcher_refines_host_witness :
  exists T' r o', launcher_serves users users texts (AskRestart 101) table (noon (Running false) undisturbed) = (o', Done (T', r)) /\
    tracks T' o' /\ simulated (AskRestart 101) r view o'.
Proof.
  apply (launcher_refines_host users users texts (AskRestart 101) table view (noon (Running false) undisturbed)).
  - apply noon_good.
  - apply noon_tracks.
  - apply table_running.
  - reflexivity.
  - reflexivity.
  - cbn. unfold is_i32. lia.
  - intros p Hp. rewrite is_alive_iff, noon_mine by done.
    change (Host.alive view) with ({[100; 101]} : gset Z). rewrite elem_of_union, !elem_of_singleton.
    split.
    + intros [->| ->]; left; by eexists.
    + intros [[x Hx]|(pr & Hpr & Hn)].
      * apply lookup_insert_Some in Hx as [[<- _]|[_ [<- _]%lookup_singleton_Some]]; auto.
      * cbn in Hpr. apply lookup_insert_Some in Hpr as [[_ <-]|[_ [_ <-]%lookup_singleton_Some]]; done.
Defined.
End LauncherExample.
