(* ===== verification/CommandSearch.v ===== *)
(** * Finding a program

    Models [find_command], [find_command_in_pkg], [resolve_cmd_in_pkg] and
    [find_command_with_pathext] of [components/core/src/fs.rs], [var] of [core/src/env.rs], and
    [supervisor_cmd] of [components/launcher/src/server/mod.rs], over the disk of [Install].  A
    path is its text; [cwd] is the directory that relative paths start from, and [environment] has
    the variables of the process. *)

From Stdlib Require Import Ascii.
From S2P Require Import Prelude Regex Text ServiceGroup Ident Target Metadata Install InstallProofs ByteText ProtoWire LauncherOs LauncherProto Launcher.
Local Open Scope string_scope.
Local Open Scope list_scope.

(** ** Paths ([std::path]) *)
Definition slash : ascii := "/"%char.
Definition is_absolute (p : string) : bool := bool_decide (head (to_chars p) = Some slash).

(** The named components of a path. *)
Definition components (p : string) : list string := filter (fun c => c <> "" /\ c <> ".") (split slash p).
Definition resolve (cwd : list string) (p : string) : list string :=
  if is_absolute p then components p else cwd ++ components p.

(** [Path::join]. *)
Definition join (p c : string) : string :=
  if is_absolute c then c
  else match last (to_chars p) with
       | None => c
       | Some l => if Ascii.eqb l slash then p +:+ c else p +:+ "/" +:+ c
       end.

(** [strip_prefix("/")]. *)
Definition strip_root (p : string) : option string :=
  if is_absolute p then Some (of_chars (join_chars slash (to_chars <$> components p))) else None.

(** [extension]: what follows the last dot of the file name, if the dot is not its first character. *)
Fixpoint after_dot (l : chars) : option chars :=
  match l with
  | [] => None
  | c :: l => match after_dot l with
              | Some e => Some e
              | None => if Ascii.eqb c "."%char then Some l else None
              end
  end.
Definition extension (p : string) : option chars :=
  match last (components p) with
  | None => None
  | Some name => if bool_decide (name = "..") then None else after_dot (tail (to_chars name))
  end.

(** [set_extension] of a path that has none. *)
Definition with_new_extension (p : string) (e : string) : string := if bool_decide (e = "") then p else p +:+ "." +:+ e.

Fixpoint trim_dots (l : chars) : chars :=
  match l with c :: l' => if Ascii.eqb c "."%char then trim_dots l' else l | [] => [] end.
Definition trim_matches_dot (s : string) : string := of_chars (rev (trim_dots (rev (trim_dots (to_chars s))))).

Section search.
Context `{!RegexEngine} (current : Platform.t) (disk : node) (cwd : list string) (environment : string -> option string).

(** A variable that is empty is not there. *)
Definition var (key : string) : option string :=
  match environment key with Some v => if bool_decide (v = "") then None else Some v | None => None end.

Definition is_file_at (p : string) : bool := is_file disk (resolve cwd p).

Definition find_command_with_pathext (candidate : string) : option string :=
  match extension candidate with
  | Some _ => None
  | None =>
      match var "PATHEXT" with
      | Some pathexts =>
          list_find (fun p => is_file_at p = true)
            ((fun e => with_new_extension candidate (trim_matches_dot e)) <$> PackageInstall.split_paths pathexts) ≫= fun x => Some x.2
      | None => None
      end
  end.

(** The first directory that has the program; [shown] is what is answered for a directory, and
    [candidate] what is looked at, which fails for some. *)
Fixpoint search_paths (candidate : string -> outcome string) (shown : string -> string) (l : list string) : outcome (option string) :=
  match l with
  | [] => Return None
  | path :: l =>
      c ← candidate path;
      if is_file_at c then Return (Some (shown path))
      else match find_command_with_pathext c with
           | Some r => Return (Some r)
           | None => search_paths candidate shown l
           end
  end.

Definition find_command (command : string) : outcome (option string) :=
  if is_absolute command && is_file_at command then Return (Some command)
  else match var "PATH" with
       | Some paths =>
           search_paths (fun path => Return (join path command)) (fun path => join path command) (PackageInstall.split_paths paths)
       | None => Return None
       end.

(** The directories of a package have to be absolute. *)
Definition find_command_in_pkg (command : string) (install : PackageInstall.t) (fs_root : string)
    : outcome (result package_error (option string)) :=
  paths ← PackageInstall.paths disk current install;
  match paths with
  | Err e => Return (Err e)
  | Ok paths =>
      r ← search_paths (fun path => stripped ← expect "Package path missing / prefix" (strip_root path);
                                    Return (join (join fs_root stripped) command))
                       (fun path => join path command) paths;
      Return (Ok r)
  end.

Definition ident_of (s : string) : outcome PackageIdent.t :=
  match PackageIdent.from_str s with Ok i => Return i | Err _ => Panic "unwrap" end.

(** [root] is [FS_ROOT_PATH]. *)
Definition resolve_cmd_in_pkg (root program ident_str : string) : outcome string :=
  ident ← ident_of ident_str;
  r ← PackageInstall.load disk current ident [];
  match r with
  | Err _ => Panic "Package installation not found on disk"
  | Ok install =>
      found ← find_command_in_pkg program install root;
      match found with
      | Ok (Some p) => Return p
      | Ok None => Panic "Could not find the program in the package"
      | Err _ => Panic "Error finding the program in the package"
      end
  end.

Definition SUP_CMD : string := "hab-sup".
Definition SUP_PACKAGE_IDENT : string := "core/hab-sup".
Definition SUP_CMD_ENVVAR : string := "HAB_SUP_BINARY".

Definition supervisor_cmd : outcome (result Error.t string) :=
  match var SUP_CMD_ENVVAR with
  | Some command => Return (Ok command)
  | None =>
      ident ← ident_of SUP_PACKAGE_IDENT;
      r ← PackageInstall.load_at_least disk current ident [];
      match r with
      | Err _ => Return (Err Error.SupPackageNotFound)
      | Ok install =>
          found ← find_command_in_pkg SUP_CMD install "/";
          Return (match found with Ok (Some cmd) => Ok cmd | _ => Err Error.SupBinaryNotFound end)
      end
  end.

(** ** What is found *)

(** Without [PATHEXT] the search gives the first directory in which the program is a file; it fails
    only on a directory whose candidate cannot be made. *)
Lemma search_first candidate shown l : environment "PATHEXT" = None ->
  match search_paths candidate shown l with
  | Return (Some r) => exists l1 path l2, l = l1 ++ path :: l2 /\ r = shown path /\
      (exists c, candidate path = Return c /\ is_file_at c = true) /\
      Forall (fun p => exists c, candidate p = Return c /\ is_file_at c = false) l1
  | Return None => Forall (fun p => exists c, candidate p = Return c /\ is_file_at c = false) l
  | Panic m => exists l1 path l2, l = l1 ++ path :: l2 /\ candidate path = Panic m /\
      Forall (fun p => exists c, candidate p = Return c /\ is_file_at c = false) l1
  end.
Proof.
  intros He. induction l as [|path l IH]; cbn; [constructor|]. destruct (candidate path) as [c|m] eqn:Hc; cbn.
  2: { exists [], path, l. split_and!; [done|done|constructor]. }
  destruct (is_file_at c) eqn:Hf.
  { exists [], path, l. split_and!; [done|done|by exists c|constructor]. }
  assert (find_command_with_pathext c = None) as ->.
  { unfold find_command_with_pathext, var. rewrite He. by destruct (extension c). }
  destruct (search_paths candidate shown l) as [[r|]|m]; [| |].
  - destruct IH as (l1 & p & l2 & -> & Hr & Hp & Hall). exists (path :: l1), p, l2. split_and!; [done|done|done|]. constructor; eauto.
  - constructor; eauto.
  - destruct IH as (l1 & p & l2 & -> & Hp & Hall). exists (path :: l1), p, l2. split_and!; [done|done|]. constructor; eauto.
Qed.

Lemma strip_root_panics path m : (stripped ← expect "Package path missing / prefix" (strip_root path); Return (join (join "/" stripped) SUP_CMD)) = Panic m ->
  is_absolute path = false.
Proof. unfold strip_root. by destruct (is_absolute path). Qed.

(** Without the variables [HAB_SUP_BINARY] and [PATHEXT], the program of the Supervisor that is
    started is that of the first directory of the newest installed package that has one; the
    search panics only when a directory that is looked at is not absolute. *)
Theorem supervisor_binary_found install :
  environment SUP_CMD_ENVVAR = None -> environment "PATHEXT" = None ->
  PackageInstall.load_at_least disk current (PackageIdent.mk "core" "hab-sup" None None) [] = Return (Ok install) ->
  forall paths, PackageInstall.paths disk current install = Return (Ok paths) ->
  match supervisor_cmd with
  | Return (Ok cmd) => exists l1 path l2, paths = l1 ++ path :: l2 /\ cmd = join path SUP_CMD /\
      (exists s, strip_root path = Some s /\ is_file_at (join (join "/" s) SUP_CMD) = true) /\
      Forall (fun p => exists s, strip_root p = Some s /\ is_file_at (join (join "/" s) SUP_CMD) = false) l1
  | Return (Err e) => e = Error.SupBinaryNotFound /\
      Forall (fun p => exists s, strip_root p = Some s /\ is_file_at (join (join "/" s) SUP_CMD) = false) paths
  | Panic _ => exists path, path ∈ paths /\ is_absolute path = false
  end.
Proof.
  intros Hv He Hl paths Hp. unfold supervisor_cmd, var at 1. rewrite Hv.
  change (ident_of SUP_PACKAGE_IDENT) with (Return (PackageIdent.mk "core" "hab-sup" None None)). cbn [mbind outcome_bind].
  rewrite Hl. cbn [mbind outcome_bind]. unfold find_command_in_pkg. rewrite Hp. cbn [mbind outcome_bind].
  assert (forall p b, (exists c, (stripped ← expect "Package path missing / prefix" (strip_root p);
      Return (join (join "/" stripped) SUP_CMD)) = Return c /\ is_file_at c = b) ->
    exists s, strip_root p = Some s /\ is_file_at (join (join "/" s) SUP_CMD) = b) as Hs.
  { intros p b (c & Hc & Hf). destruct (strip_root p) as [s|]; [|done]. injection Hc as <-. by exists s. }
  match goal with |- context [search_paths ?c ?f paths] => pose proof (search_first c f paths He) as Hfirst; destruct (search_paths c f paths) as [[r|]|m] end.
  - destruct Hfirst as (l1 & path & l2 & -> & Hr & Hpath & Hall). exists l1, path, l2. split_and!; [done|done|by apply Hs|].
    eapply Forall_impl; [exact Hall|]. intros p Hpp. by apply Hs.
  - split; [done|]. eapply Forall_impl; [exact Hfirst|]. intros p Hpp. by apply Hs.
  - destruct Hfirst as (l1 & path & l2 & -> & Hpath & _). exists path. split; [apply elem_of_app; right; apply elem_of_cons; by left|].
    by eapply strip_root_panics.
Qed.
End search.

(** ** An example disk *)
Module CommandExample.
#[local] Existing Instance reference_engine.

(** The package of the Supervisor, with its [PATH] file. *)
Definition disk (path : string) : node :=
  Dir [("hab", Dir [("pkgs", Dir [("core", Dir [("hab-sup", Dir [("0.40.0", Dir [("20171128174500", Dir
    [("TARGET", File (Contents "x86_64-linux")); ("PATH", File (Contents path));
     ("bin", Dir [("hab-sup", File (Contents "program"))])])])])])])])].
Definition bin : string := "/hab/pkgs/core/hab-sup/0.40.0/20171128174500/bin".

Example supervisor_found : supervisor_cmd Platform.Linux (disk (bin +:+ nl)) [] (fun _ => None) = Return (Ok (bin +:+ "/hab-sup")).
Proof. vm_compute. reflexivity. Qed.

(** A [PATH] file that is empty has one directory, the empty one, on which the search panics. *)
Theorem empty_path_panics :
  supervisor_cmd Platform.Linux (disk nl) [] (fun _ => None) = Panic "Package path missing / prefix".
Proof. vm_compute. reflexivity. Qed.

End CommandExample.
